(* ===== verification/_CoqProject ===== *)
-Q . S2P
Prelude.v
RustStr.v
TaskState.v
Progress.v
Decide.v
AuditParse.v
TrimLemmas.v
PlanMd.v
CriterionGraph.v
GraphSchedule.v
Checklist.v
ChecklistFacts.v
PlanWrite.v
CriteriaView.v
Fanout.v
GoalTracker.v
GoalTrackerFacts.v
DetGate.v
Replan.v
ReplanFacts.v
SkepticPanel.v
SkepticPanelFacts.v
UpdateGoal.v
GateSession.v
GateSessionFacts.v
DoggyGate.v
DoggyGateFacts.v
Drain.v
DrainFacts.v
Composition.v
CircuitBreaker.v
CircuitBreakerFacts.v
Disk.v
PathLemmas.v
PatchParser.v
PatchParserFacts.v
PatchApply.v
PatchTool.v
Rewind.v
RewindFacts.v
PatchRewind.v
PermTypes.v
PermRules.v
ShellTree.v
PermPolicy.v
ShellAccess.v
AutoMode.v
PermManager.v
McpPolicy.v
ClaudeSettings.v
PermResolve.v
PermDemo.v
PermPolicyFacts.v
ShellAccessFacts.v
PermManagerFacts.v
PermGrantFacts.v
McpPolicyFacts.v
PermResolveFacts.v
HunkTypes.v
HunkDiff.v
HunkTracker.v
HunkActor.v
HunkLoc.v
HunkDiffFacts.v
HunkTrackerFacts.v
HunkActorFacts.v
HunkDemo.v
HunkReviewFacts.v
HunkSafetyFacts.v
HunkDemoFacts.v
Conversation.v
ConversationFacts.v
HistoryPrep.v
HistoryPrepFacts.v
RequestBuild.v
Usage.v
ChatState.v
ChatStateFacts.v
ChatUsageFacts.v
ChatDemo.v
