(* ===== verification/Prelude.v ===== *)
(** * Doggy: a verification development of the agent's completion core

    Doggy is a terminal coding agent. A goal has a plan file (plan.md) with
    numbered acceptance criteria; each criterion has an Exec mark (the
    implementer claims it) and an Audit mark (a verification panel accepted it).
    A run is a loop of model rounds; after every round a completion gate decides
    whether the goal is done, whether another round is granted, and with which
    words, or whether the run stops. This development models that core: the
    decisions, the measure that makes them terminate, the plan file and its
    graph of criteria, its amendments, the waves of criteria implemented in
    parallel, the goal's state machine, the verification panel, the drain that
    answers the model's claims, and the gate's host that ties them together. Five
    parts stand on their own: the circuit breaker that guards the model's HTTP
    calls; the editing of files - the apply_patch tool, with the tracker that
    can take a prompt's edits back; the hunk tracker, which shows the user what
    changed, piece by piece, and accepts or rejects it; the permission system,
    which decides whether a tool call may run; and the chat state, the actor that
    owns a session's conversation, repairs it, and makes requests of it.

    ** Parts, files and sources

    Under crates/codegen/xai-doggy-orchestrator/src:
    - TaskState.v - state.rs, audit.rs, open_items.rs, inject.rs and the data of
      progress.rs and decide.rs: phases, statuses, findings, open items, stall
      levels, deltas, injections, decisions.
    - Progress.v - progress.rs: [RoundLedger.observe] (fingerprint, streaks,
      delta), the stall levels, the acceptance mark. The abstract specification
      is a history of ledger events.
    - Decide.v - decide.rs: [decide_after_round], the one function that may
      conclude Done, and [TaskMachine], whose calls are a step relation.
    - AuditParse.v - audit_parse.rs: from an audit agent's text to a verdict.

    Under crates/codegen/xai-grok-shell/src/session:
    - PlanMd.v - goal_plan_md.rs: headers, sections and table rows.
    - CriterionGraph.v, GraphSchedule.v - goal_criterion_graph.rs: the dependency
      table, its validation, the waves, reachability, and the repair that orders
      criteria whose write scopes overlap.
    - Checklist.v, ChecklistFacts.v - goal_acceptance_checklist.rs and
      goal_next_step.rs: the dual Exec/Audit checklist, its rewriter, the section
      writer, the next open item.
    - PlanWrite.v - goal_plan_write.rs: per-path locks around read-modify-write
      sequences, as interleaved threads.
    - CriteriaView.v - [build_criteria_view] and [with_dependents]: the rows the
      rest of the program reads.
    - Fanout.v - goal_fanout.rs: planning a wave, the workers' outcomes, merging
      them, the report.
    - GoalTracker.v, GoalTrackerFacts.v - goal_tracker.rs and
      [strategist_should_fire] of goal_strategist.rs: the goal's record, its
      lifecycle, timer, counters and history, and the scratch directory on an
      abstract file system.
    - DetGate.v - goal_deterministic_gate.rs: the plan's own shell checks, run before a
      panel is paid for.
    - Replan.v, ReplanFacts.v - goal_replan.rs: the amendments a replanner
      proposes, their validation and how they are written into the plan.
    - SkepticPanel.v, SkepticPanelFacts.v - goal_classifier.rs: the skeptics'
      verdicts, their aggregation, the explanation of a rejection and the
      fingerprint by which two rejections count as the same.
    - GateSession.v, GateSessionFacts.v - the state the gate works on, the
      deferral ladder and the budget stop of acp_session_impl/goal.rs, and the
      token meter of goal_support.rs.
    - DoggyGate.v, DoggyGateFacts.v - acp_session_impl/doggy_gate.rs, and the
      prompt loop of turn.rs.
    - Drain.v, DrainFacts.v - [drain_goal_updates_with_extra] of
      acp_session_impl/goal.rs with the claims' queue: one handler per kind of claim, the acknowledgement
      each one gets, and the end-of-turn drain; the /goal pause command.
    - Composition.v - the gate with the drain in place: a session of rounds.

    Under crates/codegen/xai-grok-tools:
    - UpdateGoal.v - the update_goal tool: its input, the queue's answers, the
      text the model reads and the error kinds.
    - PatchParser.v, PatchParserFacts.v - codex/apply_patch/parser.rs: from a
      patch's text to its file operations.
    - PatchApply.v - seek_sequence.rs and apply.rs: finding the
      lines a chunk names and replacing them.
    - PatchTool.v - tool.rs: the call, which computes every
      change before it writes the first, and the notices it sends.
    - Disk.v - the [AsyncFileSystem] traits of this crate and of
      xai-grok-workspace as classes with laws, and their in-memory instances.

    Under crates/codegen/xai-grok-workspace/src/session and xai-grok-paths/src:
    - Rewind.v, RewindFacts.v - file_state.rs: the snapshots taken before files
      change, the points they are kept in, folding prompts together, and the
      rewind. PathLemmas.v holds the lemmas on path components.
    - PatchRewind.v - the branch of notification_bridge.rs (xai-grok-shell/src/tools)
      that hands the tool's notices to the tracker, and the two together.

    Under crates/codegen/xai-grok-workspace/src/permission:
    - PermTypes.v - types.rs and state.rs: accesses, decisions, rules, what the
      user granted and the files it is kept in.
    - PermRules.v - rules.rs: permission modes and the text of
      rules, with a writer of rules as the specification.
    - ShellTree.v - bash_command_splitting.rs: what is made of a script's syntax
      tree, and the wrapper commands peeled off its commands.
    - PermPolicy.v, PermPolicyFacts.v - policy.rs, with the domain list of
      web_fetch/domain.rs: rules against accesses and against every command a
      script comes to.
    - ShellAccess.v, ShellAccessFacts.v - shell_access.rs: the files a shell
      command reads and writes, judged by the rules for files.
    - AutoMode.v - auto_mode.rs: the classifier that decides in
      the user's place, with the texts cut by util/truncate.rs.
    - PermManager.v, PermManagerFacts.v, PermGrantFacts.v - manager.rs: the actor
      that answers requests one by one, its ladder of standing decisions, the
      prompt and the grants. PermDemo.v instantiates the parameters.
    - ClaudeSettings.v - claude_settings.rs: the settings
      files of another client and the environment they add. Host is what is asked
      of the machine.
    - PermResolve.v, PermResolveFacts.v - resolution.rs: the rules of every
      configuration layer, the mode, the managed pin and managed-settings.json.
    - McpPolicy.v, McpPolicyFacts.v - resolution.rs: the MCP servers and
      marketplaces a managed policy admits.

    Under crates/codegen/xai-hunk-tracker/src:
    - HunkTypes.v - types.rs, events.rs, actor/state.rs, actor/file_utils.rs: hunks,
      what a file's bytes are taken for, events, snapshots.
    - HunkDiff.v, HunkDiffFacts.v - diff.rs: the hunks of two texts, how hunks are
      matched, and the patching of a text by a hunk.
    - HunkTracker.v, HunkTrackerFacts.v - actor/mod.rs, hunks.rs, git.rs, queries.rs:
      the actor's state [Tracker], the recomputation of a file's hunks, the index
      of turns, the queries and snapshots. [Inv] is the invariant.
    - HunkActor.v, HunkActorFacts.v - mutations.rs, actions.rs, git.rs, mod.rs,
      commands.rs: one definition per handler, accepting and rejecting, batches of
      notices, the loop; [reachable] is what the loop can come to.
    - HunkReviewFacts.v, HunkSafetyFacts.v - what a client relies on. HunkDemo.v
      instantiates the parameters (a differ with its laws, a world), and
      HunkDemoFacts.v runs the cases that go wrong.
    - HunkLoc.v - loc/mod.rs: the records of lines by author that
      a second task makes of the tracker's events.

    Under crates/codegen/xai-chat-state/src, xai-grok-sampling-types/src and
    xai-token-estimation/src:
    - Conversation.v, ConversationFacts.v - conversation.rs, lib.rs and the repair
      of compaction_utils.rs: items, what they cost, the pairing of tool calls and
      results, the cut of a rewind.
    - HistoryPrep.v, HistoryPrepFacts.v - compaction_utils.rs: what a summary is
      made of, the budget, the cleaning of a summary, the compacted history.
    - RequestBuild.v - actor/request_builder.rs: pruning, images, the reminder.
    - Usage.v - usage.rs: the bill of a prompt and of a session.
    - ChatState.v, ChatStateFacts.v, ChatUsageFacts.v - actor/state.rs,
      mutations.rs, queries.rs, mod.rs, commands.rs, events.rs, persistence.rs,
      types.rs: one definition per handler and the loop. ChatDemo.v runs it, with
      the cases that go wrong.

    Under crates/common/xai-circuit-breaker/src:
    - CircuitBreaker.v, CircuitBreakerFacts.v - window.rs, breaker.rs, state.rs,
      config.rs, registry.rs and retry_policy.rs. Calls are programs of atomic
      operations, so that threads interleave at each access.

    Helpers: this file (results, machine integers, vectors, record updates,
    automation), RustStr.v (Rust's [str] functions on UTF-8 bytes) and TrimLemmas.v
    (trimming, splitting and joining). JSON values and the rules of derived readers
    are in AuditParse.v. The theorems about a component are in its Facts files, or
    at the end of its own file where it has none.

    ** How the parts interact

    [run_doggy_round_end] drains the model's claims, measures tokens
    ([goal_tokens]) and enforces the budget, asks for acceptance when the
    criteria view shows every live criterion claimed, snapshots the open items,
    lets the ledger observe the round, takes [decide_after_round]'s decision,
    applies it to the machine and carries it out on the tracker: it injects a
    prompt, completes the goal, or cuts the work off through the deferral ladder.
    The criteria view joins the checklist with the graph and the deferrals; the
    same rows are what [plan_wave] picks parallel workers from.

    The gate is proved against an interface: the class [DrainLaws] of
    GateSession.v says what the gate relies on (a drain never completes a goal and
    leaves the round ledger alone). DrainFacts.v discharges the class for the
    modelled drain ([drain_laws]), whose claims of completion go through the
    plan's shell checks and then the panel. Composition.v runs the gate with that
    drain in place: when a prompt turns its goal Complete, a panel has approved
    the work before.

    The tool and the tracker meet twice: in the notices, which carry what a file
    held before, and on the disk. Both are proved against the file system's class
    ([ToolFs], [WorkFs] and their laws), and PatchRewind.v asks for a state that
    has both.

    The permission manager asks three judges of the policy - the access itself,
    the commands of a script, the files a script touches - and joins them, the
    strongest winning ([combine_decisions]). Only then do the modes, the grants
    and the user speak. The ladder is stated once, as the relation [rung] of
    PermManagerFacts.v; the theorems about requests are read off it.

    The hunk tracker's handlers are functions of the state and of the world a
    command meets; they meet in [recompute_hunks], which alone makes hunks. The
    diff and the source of identifiers are classes ([Differ] with [DifferLaws],
    [HunkIds]), and so is the writer of records ([HunkRecordWriter]).

    The chat state's handlers work on the [Actor], which keeps what was sent to
    the persistence layer and to the session as logs; [disk] is the file the first
    of them leaves. All repairs go through the same three passes of
    Conversation.v, and everything that replaces the conversation keeps the tail
    of a turn that is being captured first. A handler that prices an item can
    panic on one kind of item; it returns an [option], and a theorem says when it
    is not [None].

    ** What the theorems show

    - Completion is earned: [completed_goal_was_approved] (the composition),
      [goal_completes_only_when_accepted] (a goal becomes Complete exactly on an
      accepted verdict with no criterion unclaimed), [task_done_iff_accepted],
      [audit_verdict_never_fails_open], [panel_approval] (when a panel approves);
      the lemma [done_needs_an_accepting_round] follows the task machine and
      [det_gate_decides] reads the shell gate.
    - Runs end: [stalled_run_is_cut_off], [prompt_is_bounded] (every prompt
      stops within 100 granted rounds; one that stays in the goal posture leaves
      no planned goal Active),
      [same_claim_is_judged_once], [refuted_claim_ladder]; the lemmas
      [turn_continues_iff_active] and [stall_level_refines_history] are the
      decision and the measure behind them, and [round_prompts_differ] shows that
      the gate is not a fixed point.
    - Claims are answered: [every_call_is_answered],
      [deferred_claims_are_bounded], [drain_only_pauses],
      [rejection_is_explained], [fingerprint_iff_same_citations]; the lemma
      [error_kinds_name_the_cause] reads the answers off the tool.
    - Parallel work is safe: [load_always_schedulable],
      [wave_members_are_disjoint], [fanned_out_rows_are_independent]; the lemmas
      [repair_only_orders], [with_dependents_closure] and
      [view_shows_the_checklist] say what the rows carry.
    - The plan file is edited soundly: [rewrite_changes_selected_marks],
      [accepted_edges_keep_schedule], and the lemmas [plan_writes_serialize] and
      [amendment_keeps_earned_marks].
    - The goal's state machine: [tracker_invariant] (over every run, also through
      saving and restoring), [status_changes_are_recorded],
      [terminal_goal_is_final], [clock_counts_active_time],
      [hostile_snapshot_is_contained].
    - The circuit breaker: [breaker_refines_spec] (uninterrupted calls follow the
      Closed / Open / HalfOpen specification), [breaker_recovers], and over every
      interleaving [breaker_memory_is_typed] and [concurrent_probes_are_bounded].
    - Edits are what the patch says: [written_patch_is_read] (a patch written as
      the parser takes it is read back, wrapped or not),
      [seek_finds_best_match] (the first place at the strictest reading that has
      one), [patch_is_one_pass] (sorting and replacing from the end equals one
      walk down the file), [patch_is_whole_or_nothing] (a patch that cannot be
      computed changes nothing; a write that fails leaves the changes before it,
      each announced). No text or file makes the engine panic or run out of fuel
      ([parse_total], [derive_total], part of the theorems above).
    - Edits can be taken back: [rewind_undoes_the_prompts] (whatever tracked
      edits came in between, a rewind that reports success restores every file but
      a new one whose existence the file system could not tell),
      [merged_prompts_stay_undoable], and [patch_can_be_taken_back] for the tool,
      the bridge and the tracker together.

    - Permissions hold: [denied_is_final] (a denied request is refused in every
      mode, and only such a one), [no_command_hides_from_a_rule] and
      [no_operand_hides_a_file] (what a rule on a command or a file reaches inside
      a script), [file_writes_need_the_user] and
      [ask_rule_binds] (what may stand in for the user, and what may not),
      [grants_come_from_the_user], [script_is_as_safe_as_its_parts],
      [written_rule_is_read] (the text of a rule, and exactly which rules can be
      written). What wrappers, nested shells and writing commands look like is
      stated on its own there ([wraps], [hands_script], [script_writes]), after the
      programs' manuals, so that the code's tables are checked against it; [manager_stays_consistent] (over every run of the actor: the managed pin,
      the exclusive modes, what is saved); the lemmas [deny_beats_ask_beats_allow]
      and [routine_judgement_ends] are the steps under them.
    - The policy is the one written down: [written_restriction_binds] (a deny or
      ask that stands in any file, in a form the loaders read, holds), [server_policy_reads_its_entries]; the lemmas
      [pin_leaves_no_stand_in], [nearest_mode_decides],
      [environment_is_of_the_nearest_file] and [denied_host_stays_denied] are the
      single rules.

    - The user reviews what is there: over every run of the hunk tracker,
      [pending_hunks_are_the_difference] and [turn_index_agrees_with_scan];
      [review_meets_in_the_middle] (accepting a part and rejecting the rest come to
      one text, in memory and on disk); [only_rejections_touch_files],
      [agent_only_follows_the_agent], and [records_sum_to_what_counts] for the
      records of hunks whose events are truthful; the lemmas
      [identifier_finds_its_hunk], [file_review_settles],
      [batch_summarizes_its_burst] and [restored_tracker_answers_alike] (snapshots).
      The two statements on review are about texts whose lines all end in LF and whose
      first line is not blank ([lf_text]); the cases outside are among those
      listed next.

    - The conversation stays acceptable: [repaired_history_is_accepted] (a repair
      leaves every call one result, in its place, and nothing else is touched),
      [request_answers_every_call] (so does every request, whatever is shortened
      or injected for it), [going_back_keeps_the_turns_before],
      [fit_keeps_the_longest_end] (to the byte, what is kept of a history that
      does not fit) and [seed_holds_no_control_token].
    - The chat state loses nothing: over every run of the actor,
      [file_mirrors_the_conversation] (from the history the actor is spawned on),
      [captured_turn_is_what_was_pushed],
      [bills_add_up] and [actor_handles_every_command].

    Lemmas named in the component files as blind spots record where code and
    comments part: [fingerprint_misses_sixth_item], [fix_injection_ignores_delta],
    [first_object_wins], [dotdot_overlap_is_missed], [out_of_order_claim_races],
    [failed_worker_is_skipped], [unnamed_row_shifts_numbers],
    [paren_item_with_period_dropped], [escaped_pipe_is_split],
    [regrant_costs_nothing], [refresh_keeps_stale_deferral],
    [amendment_rewrites_the_checks], [multiline_text_forges_a_checklist],
    [append_without_section_reports_a_change], [evidence_only_refuter_is_dropped],
    [backticked_token_with_period], [cool_down_is_skipped],
    [slot_is_claimed_twice], [probe_counter_wraps], [pause_command_needs_assertions],
    [stacked_contexts_are_refused], [pure_rename_is_refused], [missing_context_shifts_the_line],
    [end_of_file_has_no_fallback], [end_of_file_chunk_overlaps],
    [addition_before_blank_end_is_lost], [context_does_not_place_additions],
    [line_ends_are_changed], [second_update_undoes_the_first],
    [move_onto_itself_deletes], [added_file_may_exist],
    [other_encodings_are_damaged], [rewinding_an_overwrite_deletes],
    [two_spellings_two_snapshots], [unanswered_existence_reports_success],
    [env_dash_is_taken_for_the_command], [split_string_is_dropped],
    [some_writes_are_missed], [startup_repair_is_not_written],
    [split_events_are_not_truthful], [folding_into_nothing_forgets],
    [deleting_a_branch_counts_as_read_only], [web_search_ignores_an_ask_rule],
    [an_edit_grant_answers_an_ask_rule], [text_after_a_rule_is_dropped],
    [domain_prefix_is_read_for_every_tool], [one_odd_entry_drops_managed_rules],
    [short_form_hides_the_long_one], [misspelled_deny_is_dropped],
    [home_below_the_root_is_project], [backslash_moves_the_host],
    [ipv6_hosts_are_cut], [url_allowlist_leaves_commands],
    [rejection_rewrites_line_ends], [rejection_loses_a_blank_line],
    [final_newline_is_never_settled], [failed_rejection_is_counted],
    [change_is_lost_in_a_batch], [acceptance_takes_over_the_users_edit],
    [move_is_reported_of_the_wrong_hunk], [patch_header_ignores_earlier_hunks],
    [binary_file_is_taken_for_deleted], [split_hunk_is_taken_off_twice],
    [restored_file_drops_hunks_silently], [rewritten_paths_can_collide],
    [cancelled_prompt_stays_on_disk], [repair_empties_the_capture],
    [code_interpreter_call_cannot_be_loaded],
    [repeated_identifier_is_repaired_twice], [first_user_text_scans_on],
    [partly_answered_call_is_kept], [reminder_takes_the_rest_along],
    [marker_exceeds_a_small_budget].

    ** Conventions

    A [Result] is [result]; an [Option] is [option]; [u32] and [u64] values are
    [N] with saturation or wrap-around written out, [i64] is [Z], an [f64] is a
    [spec_float] with the binary64 operations; a [String] is its UTF-8 bytes.
    Mutable state is passed explicitly; a method that mutates and returns gives a
    pair. Time is an argument ([Clock]). The breaker's atomics are taken as
    sequentially consistent, which the source's acquire and release orderings do
    not promise; a theorem over its interleavings is one about that memory.
    A [usize] that counts lines is an [N] without a bound, as it counts what is in
    memory, and the sums of records are over [Z]. The disk, the repository and the
    clock do not change while the hunk tracker handles one command; they are
    different for the next.

    Recursions that are not structural carry fuel, and the fuel is proved
    enough: [waves_go] gets one unit per row, [reaches_go] one per declared
    dependency, [serialize_go] one per ordered pair of rows, the invalidation
    loop one per criterion, the prompt loop its own cap of 100 rounds, the patch
    parser's loops one unit per line, the judgement of launchers one per word
    ([routine_judgement_ends]), the scans of a conversation one per item
    ([dedup_render] and its like), the cleaning of a text one per byte
    ([strip_tag_fuel], [strip_analysis_fuel], [collapse_newlines_done]), and the
    walks up from a directory take off a
    component per step ([repo_root_fuel], [collect_fuel], [project_configs_fuel]).
    Three bounds are the code's own: eight levels of
    nested scripts, eight wrappers, forty links on a path.

    A path is its components: spellings that differ in doubled slashes or in a
    dot within are one file, while spellings through ".." and symbolic links count
    as files of their own, also in the laws of the file systems ([ToolFsLaws],
    [WorkFsLaws]), as the source compares paths by their text; where the permission system follows links, the
    file system's answers are an interface ([Links]).

    Parameters stand for code that is not Doggy's own or is reached over a
    channel: the JSON reader, the file system, the shell that runs a check, the
    worktree merge, the subagents (skeptics among them), the model's rounds, the
    stored rewind points, the order in which a [HashMap] or [HashSet] is iterated,
    the shell grammar of tree-sitter ([ShellParser]), globs and URLs ([Globs],
    [CaseGlobs], [Urls]), the machine's files and readers ([Host]), the user's
    answer to a prompt ([PermManager.World]), the line diff of the crate similar and
    the uuids ([Differ], [HunkIds]), what the disk, gix and the clock answer
    the hunk tracker ([HunkTracker.World]), and the size of serde_json's output
    ([JsonSize]).
    Each is universally quantified; a theorem that relies on a property of one
    names it as a hypothesis and has a concrete instance.

    ** Not modelled

    Logging, telemetry and the event stream; asynchronous plumbing (each handler
    is taken as the sequence of its state changes, the session being a single
    actor); the prompts given to the skeptics and the capture of the diff they
    read; the planner, strategist and summariser subagents; the hunk tracker's
    handle and its channels, the printer of whole unified diffs, the JSON of
    snapshots and records; the chat state's handle, its tracing context, the wire
    formats of a request, transcripts, and the engine that asks a model for a
    summary; real and remote file systems; the permission prompter's dialogue,
    the loaders of configuration layers (version overrides, device management); the
    messages sent to the auto-mode model; the user interface; the other tools,
    network and configuration. *)

From stdpp Require Export base list strings gmap pretty sorting.
From stdpp Require Import options.

(** ** Results

    Rust's [Result<T, E>]: every fallible function of the source returns one. *)
Inductive result (A E : Type) : Type :=
| Ok (a : A)
| Err (e : E).
Arguments Ok {_ _} _.
Arguments Err {_ _} _.

Declare Scope rust_scope.
Delimit Scope rust_scope with rust.
Open Scope rust_scope.

Definition result_bind {A B E} (r : result A E) (f : A → result B E) : result B E :=
  match r with
  | Ok a => f a
  | Err e => Err e
  end.

(** The [?] operator. *)
Notation "'let?' x := r 'in' k" := (result_bind r (λ x, k))
  (at level 10, x pattern, r at level 100, k at level 200) : rust_scope.

Definition map_err {A E F} (f : E → F) (r : result A E) : result A F :=
  match r with
  | Ok a => Ok a
  | Err e => Err (f e)
  end.

Definition ok_or {A E} (o : option A) (e : E) : result A E :=
  match o with
  | Some a => Ok a
  | None => Err e
  end.

(** [iter().map(f).collect::<Result<Vec<_>, _>>()]: the first error wins. *)
Fixpoint collect_results {A B E} (f : A → result B E) (l : list A) : result (list B) E :=
  match l with
  | [] => Ok []
  | x :: l => let? y := f x in let? ys := collect_results f l in Ok (y :: ys)
  end.

(** ** Machine integers *)

Definition u32_max : N := 4294967295.
Definition u64_max : N := 18446744073709551615.

Definition u64_saturating_add (a b : N) : N := N.min (a + b) u64_max.
Definition u32_saturating_add (a b : N) : N := N.min (a + b) u32_max.

(** ** Vectors *)

(** [slice.contains(&x)]. *)
Definition contains {A} `{EqDecision A} (x : A) (l : list A) : bool :=
  bool_decide (x ∈ l).

(** [slice.iter().any(f)] and [slice.iter().all(f)]. *)
Definition any {A} (f : A → bool) (l : list A) : bool := existsb f l.
Definition all {A} (f : A → bool) (l : list A) : bool := forallb f l.

(** [slice.iter().position(f)]. *)
Fixpoint position {A} (f : A → bool) (l : list A) : option nat :=
  match l with
  | [] => None
  | x :: l => if f x then Some 0%nat else S <$> position f l
  end.

(** [slice.is_empty()] *)
Definition is_nil {A} (l : list A) : bool := match l with [] => true | _ :: _ => false end.

(** [iter().filter(f)] with a boolean predicate. *)
Definition bfilter {A} (f : A → bool) (l : list A) : list A := List.filter f l.

(** [slice.sort_by(..)], a stable sort: insertion puts an element before the
    equal ones that followed it. *)
Fixpoint insert_before {A} (R : relation A) `{!RelDecision R} (x : A) (l : list A) : list A :=
  match l with
  | [] => [x]
  | y :: l' => if decide (R x y) then x :: l else y :: insert_before R x l'
  end.
Definition stable_sort {A} (R : relation A) `{!RelDecision R} (l : list A) : list A :=
  foldr (insert_before R) [] l.

(** ** Records

    [r <| f := v |>] is [r] with the field [f] set, for a record type with a
    [Settable] instance that rebuilds it from its fields. *)
Class Settable (R : Type) : Type := rebuild : R → R.
Class Setter {R T : Type} (proj : R → T) : Type := set_field : (T → T) → R → R.

Ltac build_setter :=
  lazymatch goal with
  | |- @Setter ?R ?T ?proj =>
      let i := constr:(_ : Settable R) in
      let body := eval hnf in (@rebuild R i) in
      let body := eval pattern proj in body in
      lazymatch body with
      | ?F _ =>
          let t := eval cbv beta in (λ (upd : T → T) (rec : R), F (λ x, upd (proj x)) rec) in
          exact t
      end
  end.
#[export] Hint Extern 1 (Setter _) => build_setter : typeclass_instances.

Notation "r <| f := v |>" := (set_field (proj := f) (λ _, v) r)
  (at level 12, left associativity, f constr, v at level 200) : rust_scope.

(** ** Generic lemmas *)

Create HintDb doggy discriminated.
Create Rewrite HintDb doggy.

Section lists.
Context {A : Type}.
Implicit Types (f : A → bool) (l : list A) (x : A).

Lemma contains_spec `{EqDecision A} x l : contains x l = true ↔ x ∈ l.
Proof. apply bool_decide_eq_true. Qed.

Lemma contains_false `{EqDecision A} x l : contains x l = false ↔ x ∉ l.
Proof. apply bool_decide_eq_false. Qed.

Lemma elem_of_bfilter f l x : x ∈ bfilter f l ↔ x ∈ l ∧ f x = true.
Proof. unfold bfilter. by rewrite !list_elem_of_In, filter_In. Qed.

Lemma any_spec f l : any f l = true ↔ ∃ x, x ∈ l ∧ f x = true.
Proof.
  unfold any. rewrite existsb_exists. by setoid_rewrite list_elem_of_In.
Qed.

Lemma all_spec f l : all f l = true ↔ ∀ x, x ∈ l → f x = true.
Proof.
  unfold all. rewrite forallb_forall. by setoid_rewrite list_elem_of_In.
Qed.

Lemma all_false f l : all f l = false ↔ ∃ x, x ∈ l ∧ f x = false.
Proof.
  split.
  - induction l as [|y l IH]; cbn; [done|].
    destruct (f y) eqn:E; cbn; [|intros _; exists y; split; [left|done]].
    intros (x & Hx & Hf)%IH. exists x. split; [by right|done].
  - intros (x & Hx & Hf). apply not_true_iff_false. rewrite all_spec.
    intros H. specialize (H x Hx). congruence.
Qed.

Lemma position_Some f l i :
  position f l = Some i ↔
    (∃ x, l !! i = Some x ∧ f x = true) ∧
    ∀ j y, (j < i)%nat → l !! j = Some y → f y = false.
Proof.
  revert i. induction l as [|x l IH]; intros i; cbn.
  { split; [done|]. intros [(? & ? & ?) _]. by rewrite lookup_nil in *. }
  destruct (f x) eqn:E.
  - split.
    + intros [= <-]. split; [by exists x|]. intros; lia.
    + intros [(y & Hy & Hf) Hmin]. destruct i as [|i]; [done|].
      specialize (Hmin 0%nat x ltac:(lia) eq_refl). congruence.
  - rewrite fmap_Some. split.
    + intros (j & Hj & ->). apply IH in Hj as [Hex Hmin].
      split; [done|]. intros [|k] z Hk Hz; [by simplify_eq/=|].
      apply (Hmin k); [lia|done].
    + intros [(y & Hy & Hf) Hmin]. destruct i as [|i]; [simplify_eq/=; congruence|].
      exists i. split; [|done]. apply IH. split; [by exists y|].
      intros j z Hj Hz. apply (Hmin (S j)); [lia|done].
Qed.

Lemma position_None f l : position f l = None ↔ ∀ x, x ∈ l → f x = false.
Proof.
  induction l as [|x l IH]; cbn.
  { split; [|done]. intros _ y Hy. by apply elem_of_nil in Hy. }
  destruct (f x) eqn:E.
  - split; [done|]. intros H. specialize (H x ltac:(left)). congruence.
  - rewrite fmap_None, IH. setoid_rewrite elem_of_cons. naive_solver.
Qed.

Lemma is_nil_true l : is_nil l = true ↔ l = [].
Proof. by destruct l. Qed.

Lemma bfilter_length f l : (length (bfilter f l) ≤ length l)%nat.
Proof.
  unfold bfilter. induction l as [|x l IH]; cbn; [done|]. destruct (f x); cbn; lia.
Qed.
End lists.

Section stable_sort.
Context {A : Type} (R : relation A) `{!RelDecision R}.

Lemma insert_before_Permutation x l : insert_before R x l ≡ₚ x :: l.
Proof.
  induction l as [|y l IH]; cbn; [done|]. destruct (decide (R x y)); [done|].
  rewrite IH. apply Permutation_swap.
Qed.

Lemma stable_sort_Permutation l : stable_sort R l ≡ₚ l.
Proof. induction l as [|x l IH]; cbn; [done|]. by rewrite insert_before_Permutation, IH. Qed.

Lemma stable_sort_StronglySorted l :
  Transitive R → (∀ x y, R x y ∨ R y x) → StronglySorted R (stable_sort R l).
Proof.
  intros Htr Htot. induction l as [|x l IH]; cbn; [constructor|].
  fold (stable_sort R l). generalize (stable_sort R l), IH. clear IH. intros m Hm.
  induction Hm as [|y m Hm IH Hall]; cbn; [repeat constructor|].
  destruct (decide (R x y)) as [Hxy|Hxy].
  - constructor; [by constructor|]. constructor; [done|].
    eapply Forall_impl; [exact Hall|]. intros z Hz. by transitivity y.
  - constructor; [done|]. rewrite insert_before_Permutation. constructor; [|done].
    by destruct (Htot x y).
Qed.

(** Equal elements keep their order: filtering commutes with sorting for a
    property of the class. *)
Lemma stable_sort_filter (f : A → bool) l :
  (∀ x y, f x = true → f y = true → R x y) →
  bfilter f (stable_sort R l) = bfilter f l.
Proof.
  intros Hf. induction l as [|x l IH]; [done|]. cbn [stable_sort foldr]. fold (stable_sort R l).
  unfold bfilter in *. cbn [List.filter].
  assert (∀ m, List.filter f (insert_before R x m)
               = if f x then x :: List.filter f m else List.filter f m) as Hins.
  { induction m as [|y m IHm]; cbn; [done|]. destruct (decide (R x y)) as [|Hn]; cbn; [done|].
    rewrite IHm. destruct (f x) eqn:Ex, (f y) eqn:Ey; try done. by destruct Hn; apply Hf. }
  rewrite Hins, IH. done.
Qed.
End stable_sort.

#[export] Hint Rewrite @contains_spec @elem_of_bfilter @any_spec @all_spec : doggy.

(** Case analysis on the boolean tests of a translated function. *)
Ltac case_if :=
  match goal with
  | |- context [if ?b then _ else _] => let E := fresh "E" in destruct b eqn:E
  | H : context [if ?b then _ else _] |- _ => let E := fresh "E" in destruct b eqn:E
  end.

(** Split the boolean hypotheses a guard leaves behind. *)
Ltac bools :=
  repeat match goal with
  | H : _ && _ = true |- _ => apply andb_true_iff in H as [? ?]
  | H : _ && _ = false |- _ => apply andb_false_iff in H as [?|?]
  | H : _ || _ = true |- _ => apply orb_true_iff in H as [?|?]
  | H : _ || _ = false |- _ => apply orb_false_iff in H as [? ?]
  | H : negb _ = true |- _ => apply negb_true_iff in H
  | H : negb _ = false |- _ => apply negb_false_iff in H
  end.
