(* ===== verification/RustStr.v ===== *)
(** * Rust strings

    A Rust [str] is a sequence of bytes in UTF-8; so is a Rocq [string], whose
    literals the parser also encodes in UTF-8. This file gives the [str] methods
    the modelled code calls, on bytes. A method that works on characters is
    written on the encodings of the characters it looks for, which is the same
    thing because no UTF-8 encoding occurs inside another one.

    Nothing here maps to a line of the repository: it is the part of the Rust
    standard library its code is written in. *)

From Stdlib Require Import Ascii String.
From S2P Require Import Prelude.
From stdpp Require Import options.

#[local] Open Scope stdpp_scope.

(** ** Prefixes, suffixes, search *)

(** [s.strip_prefix(p)] *)
Fixpoint strip_prefix (p s : string) : option string :=
  match p, s with
  | EmptyString, _ => Some s
  | String a p, String b s => if Ascii.eqb a b then strip_prefix p s else None
  | String _ _, EmptyString => None
  end.

Definition starts_with (p s : string) : bool :=
  match strip_prefix p s with Some _ => true | None => false end.

Definition strip_suffix (p s : string) : option string :=
  String.rev <$> strip_prefix (String.rev p) (String.rev s).

Definition ends_with (p s : string) : bool :=
  match strip_suffix p s with Some _ => true | None => false end.

Definition is_empty (s : string) : bool :=
  match s with EmptyString => true | _ => false end.

(** [&s[n..]] and [&s[..n]], in bytes. *)
Fixpoint drop_bytes (n : nat) (s : string) : string :=
  match n, s with
  | O, _ => s
  | S n, String _ s => drop_bytes n s
  | S _, EmptyString => EmptyString
  end.

Fixpoint take_bytes (n : nat) (s : string) : string :=
  match n, s with
  | O, _ => EmptyString
  | S n, String c s => String c (take_bytes n s)
  | S _, EmptyString => EmptyString
  end.

(** [s.find(p)]: the byte offset of the first occurrence. *)
Fixpoint find (p s : string) : option nat :=
  if starts_with p s then Some 0
  else match s with
       | EmptyString => None
       | String _ s => S <$> find p s
       end.

(** [s.contains(p)] *)
Definition str_contains (p s : string) : bool :=
  match find p s with Some _ => true | None => false end.

(** [s.find(|c| f c)] for a predicate that holds of ASCII characters only. *)
Fixpoint find_char (f : ascii → bool) (s : string) : option nat :=
  match s with
  | EmptyString => None
  | String c s => if f c then Some 0 else S <$> find_char f s
  end.

(** [s.rfind(c)] *)
Fixpoint rfind_char (c : ascii) (s : string) : option nat :=
  match s with
  | EmptyString => None
  | String a s =>
      match rfind_char c s with
      | Some i => Some (S i)
      | None => if Ascii.eqb a c then Some 0 else None
      end
  end.

(** Last byte. *)
Fixpoint last_char (s : string) : option ascii :=
  match s with
  | EmptyString => None
  | String c EmptyString => Some c
  | String _ s => last_char s
  end.

(** ** White space

    The encodings of the 25 code points with the Unicode property White_Space,
    which [char::is_whitespace] tests. *)
Definition byte_str (l : list nat) : string :=
  foldr (λ n s, String (ascii_of_nat n) s) EmptyString l.

Definition white_space : list string :=
  Eval vm_compute in
  map byte_str
    [[9]; [10]; [11]; [12]; [13]; [32];
     [194; 133]; [194; 160]; [225; 154; 128];
     [226; 128; 128]; [226; 128; 129]; [226; 128; 130]; [226; 128; 131];
     [226; 128; 132]; [226; 128; 133]; [226; 128; 134]; [226; 128; 135];
     [226; 128; 136]; [226; 128; 137]; [226; 128; 138];
     [226; 128; 168]; [226; 128; 169]; [226; 128; 175]; [226; 129; 159];
     [227; 128; 128]].

(** The first encoding of the list that [s] starts with. *)
Definition find_prefix (encs : list string) (s : string) : option string :=
  List.find (λ w, starts_with w s) encs.

(** Drop the characters of [encs] at the front; [skip] counts the bytes left of
    the character being dropped. *)
Fixpoint drop_front (encs : list string) (skip : nat) (s : string) : string :=
  match s with
  | EmptyString => EmptyString
  | String _ s' =>
      match skip with
      | S k => drop_front encs k s'
      | O => match find_prefix encs s with
             | Some w => drop_front encs (String.length w - 1) s'
             | None => s
             end
      end
  end.

Definition trim_start (s : string) : string := drop_front white_space 0 s.

Definition trim_end (s : string) : string :=
  String.rev (drop_front (map String.rev white_space) 0 (String.rev s)).

(** [s.trim()] *)
Definition trim (s : string) : string := trim_end (trim_start s).

(** [s.trim_matches(c)] and its one-sided forms, for an ASCII character. *)
Definition trim_start_char (c : ascii) (s : string) : string :=
  drop_front [String c EmptyString] 0 s.
Definition trim_end_char (c : ascii) (s : string) : string :=
  String.rev (drop_front [String c EmptyString] 0 (String.rev s)).
Definition trim_matches (c : ascii) (s : string) : string :=
  trim_end_char c (trim_start_char c s).

(** [s.trim_start_matches(p)] for a string pattern. *)
Definition trim_start_str (p s : string) : string := drop_front [p] 0 s.

(** [s.split_whitespace()] *)
Fixpoint split_ws_go (cur : string) (skip : nat) (s : string) : list string :=
  let flush rest := if is_empty cur then rest else cur :: rest in
  match s with
  | EmptyString => flush []
  | String c s' =>
      match skip with
      | S k => split_ws_go EmptyString k s'
      | O => match find_prefix white_space s with
             | Some w => flush (split_ws_go EmptyString (String.length w - 1) s')
             | None => split_ws_go (cur +:+ String c EmptyString) 0 s'
             end
      end
  end.
Definition split_whitespace (s : string) : list string := split_ws_go EmptyString 0 s.

(** ** Splitting and joining *)

(** [s.split(f)] for a predicate on ASCII characters. *)
Fixpoint split_pred (f : ascii → bool) (s : string) : list string :=
  match s with
  | EmptyString => [EmptyString]
  | String c s =>
      if f c then EmptyString :: split_pred f s
      else match split_pred f s with
           | [] => [String c EmptyString]
           | w :: ws => String c w :: ws
           end
  end.

Definition split_char (c : ascii) (s : string) : list string := split_pred (Ascii.eqb c) s.

Definition newline : ascii := "010".
Definition carriage : ascii := "013".
Definition nl : string := String newline EmptyString.

(** The ["\r"] that a ["\n"] drags along. *)
Definition strip_cr (s : string) : string :=
  match strip_suffix (String carriage EmptyString) s with Some t => t | None => s end.

(** [s.lines()]: the segments a newline ends lose one trailing carriage return;
    the unterminated last segment is kept as it is, unless it is empty. *)
Fixpoint finish_lines (segs : list string) : list string :=
  match segs with
  | [] => []
  | [last] => if is_empty last then [] else [last]
  | s :: segs => strip_cr s :: finish_lines segs
  end.
Definition lines (s : string) : list string := finish_lines (split_char newline s).

(** [l.join(sep)] *)
Definition join (sep : string) (l : list string) : string := String.concat sep l.

(** [s.split_once(c)] for an ASCII character. *)
Fixpoint split_once_char (c : ascii) (s : string) : option (string * string) :=
  match s with
  | EmptyString => None
  | String a s =>
      if Ascii.eqb a c then Some (EmptyString, s)
      else match split_once_char c s with
           | Some (h, t) => Some (String a h, t)
           | None => None
           end
  end.

(** [s.replace(p, r)] for a non-empty pattern; [skip] counts the bytes left of
    an occurrence that was replaced. *)
Fixpoint replace_go (p r : string) (skip : nat) (s : string) : string :=
  match s with
  | EmptyString => EmptyString
  | String c s' =>
      match skip with
      | S k => replace_go p r k s'
      | O => if starts_with p s then r +:+ replace_go p r (String.length p - 1) s'
             else String c (replace_go p r 0 s')
      end
  end.
Definition replace_str (p r s : string) : string := replace_go p r 0 s.

(** [s.trim_matches(f)] for a predicate on ASCII characters that also holds of
    every byte of a longer character. *)
Fixpoint drop_while (f : ascii → bool) (s : string) : string :=
  match s with
  | EmptyString => EmptyString
  | String c s' => if f c then drop_while f s' else s
  end.
Definition trim_matches_pred (f : ascii → bool) (s : string) : string :=
  String.rev (drop_while f (String.rev (drop_while f s))).

(** [s.trim_end_matches([c1, c2, ..])] for ASCII characters. *)
Definition trim_end_chars (cs : list ascii) (s : string) : string :=
  String.rev (drop_while (λ c, contains c cs) (String.rev s)).

(** ** ASCII case *)

Definition ascii_lower (c : ascii) : ascii :=
  let n := nat_of_ascii c in
  if (65 <=? n) && (n <=? 90) then ascii_of_nat (n + 32) else c.

Fixpoint map_string (f : ascii → ascii) (s : string) : string :=
  match s with
  | EmptyString => EmptyString
  | String c s => String (f c) (map_string f s)
  end.

Definition to_ascii_lowercase (s : string) : string := map_string ascii_lower s.
Definition eq_ignore_ascii_case (s t : string) : bool :=
  String.eqb (to_ascii_lowercase s) (to_ascii_lowercase t).

(** [s.chars().all(f)] for a predicate that holds of ASCII characters only. *)
Fixpoint all_chars (f : ascii → bool) (s : string) : bool :=
  match s with
  | EmptyString => true
  | String c s => f c && all_chars f s
  end.

(** ** Numbers *)

Definition is_ascii_digit (c : ascii) : bool :=
  let n := nat_of_ascii c in (48 <=? n) && (n <=? 57).

Fixpoint digits_value (acc : N) (s : string) : option N :=
  match s with
  | EmptyString => Some acc
  | String c s =>
      if is_ascii_digit c
      then digits_value (10 * acc + N.of_nat (nat_of_ascii c - 48)) s
      else None
  end.

(** [s.parse::<uN>()]: an optional plus sign, at least one digit, no overflow. *)
Definition parse_uint (max : N) (s : string) : option N :=
  let body := match strip_prefix "+" s with Some t => t | None => s end in
  if is_empty body then None
  else match digits_value 0 body with
       | Some n => if (n <=? max)%N then Some n else None
       | None => None
       end.

Definition parse_u32 : string → option N := parse_uint u32_max.
Definition parse_u64 : string → option N := parse_uint u64_max.

(** The bytes up to the first one that fails [f]. *)
Fixpoint take_while (f : ascii → bool) (s : string) : string :=
  match s with
  | EmptyString => EmptyString
  | String c s => if f c then String c (take_while f s) else EmptyString
  end.

(** [s.is_char_boundary(n)]: [split_at] and slicing panic elsewhere. *)
Definition is_continuation (c : ascii) : bool :=
  let n := nat_of_ascii c in (128 <=? n) && (n <? 192).
Definition is_char_boundary (n : nat) (s : string) : bool :=
  (n <=? String.length s) &&
  match drop_bytes n s with
  | EmptyString => true
  | String c _ => negb (is_continuation c)
  end.

(** [s.chars().count()] and [s.chars().take(n)]: a character is a byte that
    does not continue one, with the bytes that continue it. *)
Fixpoint char_count (s : string) : nat :=
  match s with
  | EmptyString => 0
  | String c s => (if is_continuation c then 0 else 1) + char_count s
  end.

Fixpoint take_chars (n : nat) (s : string) : string :=
  match s with
  | EmptyString => EmptyString
  | String c s =>
      if is_continuation c then String c (take_chars n s)
      else match n with O => EmptyString | S n => String c (take_chars n s) end
  end.

(** ** Reading bytes as text

    [String::from_utf8_lossy]: every maximal piece of a broken encoding becomes
    one replacement character. After a leading byte, the ranges its continuation
    bytes must lie in. *)
Definition utf8_tail (b : nat) : option (list (nat * nat)) :=
  if b <? 128 then Some []
  else if (194 <=? b) && (b <=? 223) then Some [(128, 191)]
  else if b =? 224 then Some [(160, 191); (128, 191)]
  else if b =? 237 then Some [(128, 159); (128, 191)]
  else if (225 <=? b) && (b <=? 239) then Some [(128, 191); (128, 191)]
  else if b =? 240 then Some [(144, 191); (128, 191); (128, 191)]
  else if (241 <=? b) && (b <=? 243) then Some [(128, 191); (128, 191); (128, 191)]
  else if b =? 244 then Some [(128, 143); (128, 191); (128, 191)]
  else None.

Definition replacement_char : string := byte_str [239; 191; 189].

(** [pending] holds the bytes of an encoding begun, [need] what it still needs. *)
Fixpoint lossy_go (pending : string) (need : list (nat * nat)) (s : string) : string :=
  match s with
  | EmptyString => if is_empty pending then EmptyString else replacement_char
  | String c s =>
      let b := nat_of_ascii c in
      let start (_ : unit) :=
        match utf8_tail b with
        | Some [] => String c (lossy_go EmptyString [] s)
        | Some need => lossy_go (String c EmptyString) need s
        | None => replacement_char +:+ lossy_go EmptyString [] s
        end in
      match need with
      | [] => start tt
      | (lo, hi) :: need =>
          if (lo <=? b) && (b <=? hi) then
            match need with
            | [] => pending +:+ String c (lossy_go EmptyString [] s)
            | _ => lossy_go (pending +:+ String c EmptyString) need s
            end
          else replacement_char +:+ start tt
      end
  end.
Definition from_utf8_lossy (bytes : string) : string := lossy_go EmptyString [] bytes.

(** [String::from_utf8] *)
Definition from_utf8 (bytes : string) : option string :=
  if String.eqb (from_utf8_lossy bytes) bytes then Some bytes else None.

(** ** Paths

    A [PathBuf] is its text. [dir.join(name)]: an absolute [name] replaces
    [dir]. *)
Definition path_join (dir name : string) : string :=
  if starts_with "/" name then name
  else if is_empty dir || ends_with "/" dir then dir +:+ name
  else dir +:+ "/" +:+ name.

(** [path.components()] on Unix: the root, then the segments that are neither
    empty nor a dot; a leading dot of a relative path is kept. *)
Definition path_components (p : string) : list string :=
  let segs := split_char "/" p in
  let norm := bfilter (λ s, negb (is_empty s) && negb (String.eqb s ".")) segs in
  if starts_with "/" p then "/" :: norm
  else match segs with
       | s :: _ => if String.eqb s "." then "." :: norm else norm
       | [] => norm
       end.

Definition has_parent_dir (p : string) : bool := contains ".." (path_components p).

Fixpoint list_prefix (p l : list string) : bool :=
  match p, l with
  | [], _ => true
  | x :: p, y :: l => String.eqb x y && list_prefix p l
  | _ :: _, [] => false
  end.

(** [path.starts_with(base)] *)
Definition path_starts_with (p base : string) : bool :=
  list_prefix (path_components base) (path_components p).

(** [path.file_name()] *)
Definition file_name (p : string) : option string :=
  match last (path_components p) with
  | Some s => if contains s ["/"; "."; ".."] then None else Some s
  | None => None
  end.

(** [path.parent()], as the path its components make up. *)
Definition path_of (cs : list string) : string :=
  match cs with
  | "/" :: cs => "/" +:+ join "/" cs
  | _ => join "/" cs
  end.

Definition path_parent (p : string) : option string :=
  match path_components p with
  | [] | ["/"] => None
  | cs => Some (path_of (removelast cs))
  end.

(** ** Lemmas

    stdpp keeps [String.append] opaque to [cbn]: concatenation is simplified by
    rewriting with the database [rstr]. *)

Create Rewrite HintDb rstr.

Lemma str_app_nil_l s : "" +:+ s = s.
Proof. reflexivity. Qed.
Lemma str_app_nil_r s : s +:+ "" = s.
Proof. induction s as [|c s IH]; [done|]. change (String c (s +:+ "") = String c s). by f_equal. Qed.
Lemma str_app_cons c s t : String c s +:+ t = String c (s +:+ t).
Proof. reflexivity. Qed.
Lemma str_app_assoc s t u : (s +:+ t) +:+ u = s +:+ (t +:+ u).
Proof. induction s as [|c s IH]; [done|]. rewrite !str_app_cons. by f_equal. Qed.
Lemma str_length_app s t : String.length (s +:+ t) = String.length s + String.length t.
Proof. induction s as [|c s IH]; [done|]. rewrite str_app_cons. cbn. by rewrite IH. Qed.

#[export] Hint Rewrite str_app_nil_l str_app_nil_r str_app_cons str_app_assoc str_length_app : rstr.

Lemma str_app_inj_l s t u : s +:+ t = s +:+ u → t = u.
Proof. induction s as [|c s IH]; [done|]. rewrite !str_app_cons. intros [= H]. auto. Qed.

Lemma all_chars_app f s t : all_chars f (s +:+ t) = all_chars f s && all_chars f t.
Proof.
  induction s as [|c s IH]; [done|]. rewrite str_app_cons. cbn. by rewrite IH, andb_assoc.
Qed.

Lemma all_chars_impl f g s :
  (∀ c, f c = true → g c = true) → all_chars f s = true → all_chars g s = true.
Proof. intros H. induction s as [|c s IH]; cbn; [done|]. rewrite !andb_true_iff. naive_solver. Qed.

Lemma strip_prefix_app p s : strip_prefix p (p +:+ s) = Some s.
Proof.
  induction p as [|c p IH]; [by destruct s|]. rewrite str_app_cons. cbn. by rewrite Ascii.eqb_refl.
Qed.

Lemma strip_prefix_Some p s t : strip_prefix p s = Some t ↔ s = p +:+ t.
Proof.
  split; [|intros ->; apply strip_prefix_app].
  revert s. induction p as [|c p IH]; intros s; cbn.
  - intros H. destruct s; by injection H as <-.
  - destruct s as [|d s]; [done|]. destruct (Ascii.eqb_spec c d) as [->|]; [|done].
    intros ->%IH. done.
Qed.

Lemma starts_with_spec p s : starts_with p s = true ↔ ∃ t, s = p +:+ t.
Proof.
  unfold starts_with. setoid_rewrite <- strip_prefix_Some.
  destruct (strip_prefix p s); naive_solver.
Qed.

Lemma starts_with_app p s : starts_with p (p +:+ s) = true.
Proof. apply starts_with_spec. by exists s. Qed.

Lemma starts_with_cons a p c s :
  starts_with (String a p) (String c s) = Ascii.eqb a c && starts_with p s.
Proof. unfold starts_with. cbn. by destruct (Ascii.eqb a c). Qed.

Lemma starts_with_ne a c p s : a ≠ c → starts_with (String a p) (String c s) = false.
Proof. intros H%Ascii.eqb_neq. unfold starts_with, strip_prefix. by rewrite H. Qed.
