(* ===== verification/TaskState.v ===== *)
(** * The vocabulary of the task orchestrator

    Phases and statuses ([state.rs]), verification findings ([audit.rs]), the
    open-items snapshot ([open_items.rs]), the injection payloads ([inject.rs])
    and the per-round records of [progress.rs] and [decide.rs] that every other
    orchestrator file reads. Crate [xai-doggy-orchestrator]. *)

From S2P Require Import Prelude RustStr.
From stdpp Require Import options.

(** ** state.rs *)

Inductive TaskPhase : Type :=
| PhaseIdle | PhaseExecuting | PhaseCheckOpen | PhaseAudit | PhaseFix | PhaseDone | PhasePaused.

Inductive TaskStatus : Type :=
| StatusIdle | StatusActive | StatusDone | StatusPaused.

Inductive StallReason : Type := Repeated | Idle.

Inductive PauseReason : Type :=
| UserCancel
| InfraError
| BudgetExhausted
| NoProgress (repeats : N) (reason : StallReason).

#[export] Instance TaskPhase_eq_dec : EqDecision TaskPhase.
Proof. solve_decision. Defined.
#[export] Instance TaskStatus_eq_dec : EqDecision TaskStatus.
Proof. solve_decision. Defined.
#[export] Instance StallReason_eq_dec : EqDecision StallReason.
Proof. solve_decision. Defined.
#[export] Instance PauseReason_eq_dec : EqDecision PauseReason.
Proof. solve_decision. Defined.

Definition StallReason_kind (r : StallReason) : string :=
  match r with Repeated => "repeated" | Idle => "idle" end.

(** ** audit.rs *)

Record AuditFinding : Type := mkFinding {
  severity : option string;
  criterion : option N;
  message : string;
}.

#[export] Instance AuditFinding_eq_dec : EqDecision AuditFinding.
Proof. solve_decision. Defined.

Record AuditVerdict : Type := mkVerdict {
  pass : bool;
  findings : list AuditFinding;
}.

Definition passed : AuditVerdict := {| pass := true; findings := [] |}.
Definition failed (fs : list AuditFinding) : AuditVerdict := {| pass := false; findings := fs |}.

(** One line of [findings_text]; [i] is the 0-based index. *)
Definition finding_line (i : nat) (f : AuditFinding) : string :=
  let sev := match severity f with Some s => "[" +:+ s +:+ "] " | None => "" end in
  let crit := match criterion f with
              | Some c => "criterion " +:+ pretty c +:+ ": "
              | None => ""
              end in
  pretty (i + 1)%nat +:+ ". " +:+ sev +:+ crit +:+ message f.

Definition findings_text (v : AuditVerdict) : string :=
  match findings v with
  | [] => "Audit failed with no detailed findings; re-check the goal and diff."
  | fs => join nl (imap finding_line fs)
  end.

(** ** open_items.rs *)

Record OpenItem : Type := mkOpenItem {
  item_id : option string;
  summary : string;
}.

Record OpenItemsSnapshot : Type := mkSnapshot {
  items : list OpenItem;
  acceptance_pending : bool;
}.

Definition acceptance_only : OpenItemsSnapshot := {| items := []; acceptance_pending := true |}.
Definition fully_clear : OpenItemsSnapshot := {| items := []; acceptance_pending := false |}.

Definition has_explicit_work (o : OpenItemsSnapshot) : bool :=
  match items o with [] => false | _ :: _ => true end.

Definition blocks_done (o : OpenItemsSnapshot) : bool :=
  has_explicit_work o || acceptance_pending o.

Definition ready_for_audit (o : OpenItemsSnapshot) : bool := negb (has_explicit_work o).

Definition summary_line (o : OpenItemsSnapshot) : string :=
  match items o with
  | [] => if acceptance_pending o
          then "acceptance pending (awaiting audit)"
          else "no open items"
  | its =>
      let heads := map summary (take 5 its) in
      let extra := length its - length heads in
      if extra =? 0 then "open items: " +:+ join "; " heads
      else "open items: " +:+ join "; " heads +:+ "; …and " +:+ pretty extra +:+ " more"
  end.

(** ** progress.rs: what the gate sees of a round *)

Inductive StallLevel : Type :=
| Progressing
| Reapproach (repeats : N) (reason : StallReason)
| CutOff (repeats : N) (reason : StallReason).

#[export] Instance StallLevel_eq_dec : EqDecision StallLevel.
Proof. solve_decision. Defined.

Definition StallLevel_kind (l : StallLevel) : string :=
  match l with
  | Progressing => "progressing"
  | Reapproach _ _ => "reapproach"
  | CutOff _ _ => "cut_off"
  end.

Definition level_repeats (l : StallLevel) : N :=
  match l with Progressing => 0 | Reapproach n _ | CutOff n _ => n end.

Definition level_reason (l : StallLevel) : option StallReason :=
  match l with Progressing => None | Reapproach _ r | CutOff _ r => Some r end.

Definition level_severity (l : StallLevel) : nat :=
  match l with Progressing => 0 | Reapproach _ _ => 1 | CutOff _ _ => 2 end.

Definition worst (a b : StallLevel) : StallLevel :=
  if level_severity a <? level_severity b then b else a.

Record RoundActivity : Type := mkActivity {
  changed_files : option (list string);
  tools_called : list string;
  execed : list N;
  verified : list N;
  deferred : list N;
}.

Definition activity_worked (a : RoundActivity) : bool :=
  match tools_called a with [] => false | _ :: _ => true end.

Record RoundDelta : Type := mkDelta {
  round : N;
  newly_changed_files : list string;
  workspace_visible : bool;
  delta_tools_called : list string;
  newly_execed : list N;
  newly_verified : list N;
  newly_deferred : list N;
}.

Definition default_delta : RoundDelta := mkDelta 0 [] false [] [] [] [].

(** ** inject.rs *)

Inductive Injection : Type :=
| InjContinue (open_summary : string) (delta : RoundDelta)
| InjFix (fs : list AuditFinding)
| InjReapproach (repeats : N) (reason : StallReason) (open_summary : string) (delta : RoundDelta).

Definition continue_with (open_summary : string) (delta : RoundDelta) : Injection :=
  InjContinue open_summary delta.
Definition fix_with (fs : list AuditFinding) : Injection := InjFix fs.
Definition reapproach (repeats : N) (reason : StallReason) (open_summary : string)
    (delta : RoundDelta) : Injection :=
  InjReapproach repeats reason open_summary delta.

Definition Injection_kind (i : Injection) : string :=
  match i with
  | InjContinue _ _ => "continue"
  | InjFix _ => "fix"
  | InjReapproach _ _ _ _ => "reapproach"
  end.

(** ** decide.rs: the decision and its inputs *)

Inductive TaskDecision : Type :=
| RunAnotherRound (injection : Injection)
| TaskDone
| TaskPaused (reason : PauseReason).

Inductive VerificationOutcome : Type :=
| Pending
| Achieved
| Rejected (fs : list AuditFinding).

Record RoundEndView : Type := mkView {
  round_ok : bool;
  open_items : OpenItemsSnapshot;
  user_cancel : bool;
  budget_hit : bool;
  verification : VerificationOutcome;
  stall : StallLevel;
  delta : RoundDelta;
}.
