(* ===== verification/Progress.v ===== *)
(** * Round-to-round progress ([progress.rs])

    The round ledger measures whether anything the completion gate observes
    moved, and reports what did. [observe] is the whole handler of the source:
    the fingerprint comparison, the two streaks, the delta and the running sets.

    The abstract specification is a history of ledger events: the streaks the
    ledger keeps in two counters are the lengths of suffixes of that history. *)

From S2P Require Import Prelude RustStr TaskState.
From stdpp Require Import options.

Definition STALL_REAPPROACH_AFTER : N := 3.
Definition STALL_CUTOFF_AFTER : N := STALL_REAPPROACH_AFTER * 2.
Definition IDLE_CUTOFF_AFTER : N := 3.
Definition DELTA_FILES_SHOWN : nat := 8.

(** ** RoundDelta *)

Definition delta_worked (d : RoundDelta) : bool :=
  match delta_tools_called d with [] => false | _ :: _ => true end.



Definition moved_nothing (d : RoundDelta) : bool :=
  negb (delta_worked d) && is_nil (newly_changed_files d) && is_nil (newly_execed d)
  && is_nil (newly_verified d) && is_nil (newly_deferred d).

Definition workspace_line (d : RoundDelta) : string :=
  if negb (workspace_visible d) then "workspace changes could not be read (no git baseline)"
  else if is_nil (newly_changed_files d) then "no new files were touched in the workspace"
  else
    let shown := take DELTA_FILES_SHOWN (newly_changed_files d) in
    let extra := length (newly_changed_files d) - length shown in
    if extra =? 0 then "newly touched: " +:+ join ", " shown
    else "newly touched: " +:+ join ", " shown +:+ ", and " +:+ pretty extra +:+ " more".

(** The loop body over [counted]: bump the entry of [name], or append one. *)
Fixpoint bump (name : string) (counted : list (string * nat)) : list (string * nat) :=
  match counted with
  | [] => [(name, 1)]
  | (seen, n) :: rest =>
      if bool_decide (seen = name) then (seen, S n) :: rest else (seen, n) :: bump name rest
  end.

Definition count_tools (tools : list string) : list (string * nat) :=
  fold_left (λ counted name, bump name counted) tools [].

Definition tool_usage_line (d : RoundDelta) : string :=
  match delta_tools_called d with
  | [] => "no tools were called"
  | tools =>
      join ", " (map (λ '(name, n), if n =? 1 then name else name +:+ " ×" +:+ pretty n)
                     (count_tools tools))
  end.

Definition number_list (sep : string) (ns : list N) : string := join sep (map pretty ns).

Definition criteria_line (d : RoundDelta) : option string :=
  let part label ns := if is_nil ns then [] else [label +:+ number_list ", " ns] in
  match part "marked done: " (newly_execed d) ++ part "verified: " (newly_verified d)
        ++ part "given up on: " (newly_deferred d) with
  | [] => None
  | parts => Some (join "; " parts)
  end.

(** ** The fingerprint *)

(** [sort_unstable] on [&str]: byte order, in which equal keys are equal values. *)
Definition sort_strings : list string → list string := merge_sort String.le.

Definition fingerprint_verdict (v : VerificationOutcome) : string :=
  match v with
  | Pending => "pending"
  | Achieved => "achieved"
  | Rejected fs => "rejected:" +:+ join "|" (sort_strings (map message fs))
  end.

Definition fingerprint_changed (a : RoundActivity) : string :=
  match changed_files a with Some files => join "," files | None => "?" end.

Definition round_fingerprint (open : OpenItemsSnapshot) (v : VerificationOutcome)
    (a : RoundActivity) : string :=
  "open=" +:+ summary_line open +:+ nl +:+
  "verdict=" +:+ fingerprint_verdict v +:+ nl +:+
  "changed=" +:+ fingerprint_changed a +:+ nl +:+
  "exec=" +:+ number_list "+" (execed a) +:+ nl +:+
  "verified=" +:+ number_list "+" (verified a) +:+ nl +:+
  "deferred=" +:+ number_list "+" (deferred a) +:+ nl +:+
  "tools=" +:+ join "," (tools_called a).

(** ** RoundLedger *)

Record RoundLedger : Type := mkLedger {
  ledger_round : N;
  last_fingerprint : option string;
  repeats : N;
  idle_streak : N;
  ledger_changed_files : list string;
  ledger_execed : list N;
  ledger_verified : list N;
  ledger_deferred : list N;
  verification_requested_for : option (list N);
}.

Definition ledger_new : RoundLedger := mkLedger 0 None 0 0 [] [] [] [] None.

Definition added (before now : list N) : list N :=
  bfilter (λ n, negb (contains n before)) now.

Definition added_paths (before now : list string) : list string :=
  bfilter (λ p, negb (contains p before)) now.

Definition repeat_level (l : RoundLedger) : StallLevel :=
  if (STALL_CUTOFF_AFTER <=? repeats l)%N then CutOff (repeats l) Repeated
  else if (STALL_REAPPROACH_AFTER <=? repeats l)%N then Reapproach (repeats l) Repeated
  else Progressing.

Definition idle_level (l : RoundLedger) : StallLevel :=
  if (IDLE_CUTOFF_AFTER <=? idle_streak l)%N then CutOff (idle_streak l) Idle
  else if (1 <=? idle_streak l)%N then Reapproach (idle_streak l) Idle
  else Progressing.

(** What the host hands the ledger after a round. *)
Record RoundInput : Type := mkInput {
  in_open : OpenItemsSnapshot;
  in_verification : VerificationOutcome;
  in_activity : RoundActivity;
}.

Definition input_fingerprint (i : RoundInput) : string :=
  round_fingerprint (in_open i) (in_verification i) (in_activity i).

Definition observe (l : RoundLedger) (open : OpenItemsSnapshot) (v : VerificationOutcome)
    (a : RoundActivity) : RoundLedger * (StallLevel * RoundDelta) :=
  let rnd := u32_saturating_add (ledger_round l) 1 in
  let fingerprint := round_fingerprint open v a in
  let repeats' :=
    match last_fingerprint l with
    | Some previous => if bool_decide (previous = fingerprint)
                       then u32_saturating_add (repeats l) 1 else 1%N
    | None => 1%N
    end in
  let idle_streak' :=
    if activity_worked a then 0%N else u32_saturating_add (idle_streak l) 1 in
  let delta := {|
    round := rnd;
    newly_changed_files := match changed_files a with
                           | Some files => added_paths (ledger_changed_files l) files
                           | None => []
                           end;
    workspace_visible := match changed_files a with Some _ => true | None => false end;
    delta_tools_called := tools_called a;
    newly_execed := added (ledger_execed l) (execed a);
    newly_verified := added (ledger_verified l) (verified a);
    newly_deferred := added (ledger_deferred l) (deferred a);
  |} in
  let l' := {|
    ledger_round := rnd;
    last_fingerprint := Some fingerprint;
    repeats := repeats';
    idle_streak := idle_streak';
    ledger_changed_files := match changed_files a with
                            | Some files => files
                            | None => ledger_changed_files l
                            end;
    ledger_execed := execed a;
    ledger_verified := verified a;
    ledger_deferred := deferred a;
    verification_requested_for := verification_requested_for l;
  |} in
  (l', (worst (repeat_level l') (idle_level l'), delta)).

Definition verification_already_requested_for (l : RoundLedger) (execed : list N) : bool :=
  match verification_requested_for l with
  | Some previous => bool_decide (previous = execed)
  | None => false
  end.

Definition mark_verification_requested (l : RoundLedger) (execed : list N) : RoundLedger :=
  mkLedger (ledger_round l) (last_fingerprint l) (repeats l) (idle_streak l)
    (ledger_changed_files l) (ledger_execed l) (ledger_verified l) (ledger_deferred l)
    (Some execed).

Definition reset_streaks (l : RoundLedger) : RoundLedger :=
  mkLedger (ledger_round l) None 0 0
    (ledger_changed_files l) (ledger_execed l) (ledger_verified l) (ledger_deferred l)
    (verification_requested_for l).

(** ** Abstract specification: a history of ledger events

    Newest event first. *)

Inductive ledger_event : Type :=
| EvObserve (i : RoundInput)
| EvMarkRequested (execed : list N)
| EvResetStreaks.

Definition ledger_step (ev : ledger_event) (l : RoundLedger) : RoundLedger :=
  match ev with
  | EvObserve i => fst (observe l (in_open i) (in_verification i) (in_activity i))
  | EvMarkRequested e => mark_verification_requested l e
  | EvResetStreaks => reset_streaks l
  end.

Definition ledger_after (h : list ledger_event) : RoundLedger := foldr ledger_step ledger_new h.

(** How many of the newest observations since the last reset carry [fp]. *)
Fixpoint same_streak (fp : string) (h : list ledger_event) : N :=
  match h with
  | [] | EvResetStreaks :: _ => 0
  | EvMarkRequested _ :: h => same_streak fp h
  | EvObserve i :: h => if bool_decide (input_fingerprint i = fp) then 1 + same_streak fp h else 0
  end.

(** The length of the newest run of identical observations. *)
Fixpoint repeats_spec (h : list ledger_event) : N :=
  match h with
  | [] | EvResetStreaks :: _ => 0
  | EvMarkRequested _ :: h => repeats_spec h
  | EvObserve i :: h => 1 + same_streak (input_fingerprint i) h
  end.

(** The length of the newest run of rounds that called no tool. *)
Fixpoint idle_spec (h : list ledger_event) : N :=
  match h with
  | [] | EvResetStreaks :: _ => 0
  | EvMarkRequested _ :: h => idle_spec h
  | EvObserve i :: h => if activity_worked (in_activity i) then 0 else 1 + idle_spec h
  end.

Fixpoint rounds_spec (h : list ledger_event) : N :=
  match h with
  | [] => 0
  | EvObserve _ :: h => 1 + rounds_spec h
  | _ :: h => rounds_spec h
  end.

(** The newest observation since the last reset. *)
Fixpoint last_observation (h : list ledger_event) : option RoundInput :=
  match h with
  | [] | EvResetStreaks :: _ => None
  | EvMarkRequested _ :: h => last_observation h
  | EvObserve i :: _ => Some i
  end.

(** What the newest round for which [f] answers said; resets do not matter. *)
Fixpoint newest {A} (f : RoundInput → option A) (h : list ledger_event) : option A :=
  match h with
  | [] => None
  | EvObserve i :: h => match f i with Some x => Some x | None => newest f h end
  | _ :: h => newest f h
  end.

Definition last_seen_files (h : list ledger_event) : list string :=
  default [] (newest (λ i, changed_files (in_activity i)) h).
Definition last_column (col : RoundActivity → list N) (h : list ledger_event) : list N :=
  default [] (newest (λ i, Some (col (in_activity i))) h).

(** The most recent acceptance request. *)
Fixpoint last_request (h : list ledger_event) : option (list N) :=
  match h with
  | [] => None
  | EvMarkRequested e :: _ => Some e
  | _ :: h => last_request h
  end.

Definition level_spec (reps idle : N) : StallLevel :=
  worst
    (if (6 <=? reps)%N then CutOff reps Repeated
     else if (3 <=? reps)%N then Reapproach reps Repeated else Progressing)
    (if (3 <=? idle)%N then CutOff idle Idle
     else if (1 <=? idle)%N then Reapproach idle Idle else Progressing).

(** *** The ledger refines the history *)

Definition cap (n : N) : N := N.min n u32_max.

Lemma sat_cap n : u32_saturating_add (cap n) 1 = cap (1 + n).
Proof. unfold u32_saturating_add, cap. lia. Qed.

Lemma same_streak_last fp h :
  match last_observation h with
  | Some i => if bool_decide (input_fingerprint i = fp) then same_streak fp h = repeats_spec h
              else same_streak fp h = 0%N
  | None => same_streak fp h = 0%N
  end.
Proof.
  induction h as [|[i|e|] h IH]; cbn; try done.
  destruct (bool_decide (input_fingerprint i = fp)) eqn:E; [|done].
  apply bool_decide_eq_true in E as <-. done.
Qed.

(** The refinement relation between a ledger and the history behind it. *)
Record ledger_refines (h : list ledger_event) (l : RoundLedger) : Prop := {
  lr_round : ledger_round l = cap (rounds_spec h);
  lr_last : last_fingerprint l = input_fingerprint <$> last_observation h;
  lr_repeats : repeats l = cap (repeats_spec h);
  lr_idle : idle_streak l = cap (idle_spec h);
  lr_files : ledger_changed_files l = last_seen_files h;
  lr_execed : ledger_execed l = last_column execed h;
  lr_verified : ledger_verified l = last_column verified h;
  lr_deferred : ledger_deferred l = last_column deferred h;
  lr_request : verification_requested_for l = last_request h;
}.

Lemma ledger_refines_step ev h l :
  ledger_refines h l → ledger_refines (ev :: h) (ledger_step ev l).
Proof.
  intros [Hr Hl Hs Hi Hf He Hv Hd Hq]. destruct ev as [i|e|]; constructor; cbn; try done.
  - by rewrite Hr, sat_cap.
  - rewrite Hl. fold (input_fingerprint i). pose proof (same_streak_last (input_fingerprint i) h).
    destruct (last_observation h) as [j|]; cbn.
    + case_bool_decide; [|by rewrite H]. by rewrite Hs, sat_cap, H.
    + by rewrite H.
  - case_match; [done|]. by rewrite Hi, sat_cap.
  - unfold last_seen_files in *. cbn. by case_match.
Qed.

Lemma ledger_refines_after h : ledger_refines h (ledger_after h).
Proof.
  induction h as [|ev h IH]; [by constructor|]. by apply ledger_refines_step.
Qed.

(** The answer [observe] gives, read off the history. *)
Definition observed_level (h : list ledger_event) (i : RoundInput) : StallLevel :=
  fst (snd (observe (ledger_after h) (in_open i) (in_verification i) (in_activity i))).
Definition observed_delta (h : list ledger_event) (i : RoundInput) : RoundDelta :=
  snd (snd (observe (ledger_after h) (in_open i) (in_verification i) (in_activity i))).

Lemma observed_level_unfold h i :
  observed_level h i =
    worst (repeat_level (ledger_after (EvObserve i :: h)))
          (idle_level (ledger_after (EvObserve i :: h))).
Proof. reflexivity. Qed.

Lemma observed_level_spec (h : list ledger_event) (i : RoundInput) :
  observed_level h i =
    level_spec (cap (repeats_spec (EvObserve i :: h))) (cap (idle_spec (EvObserve i :: h))).
Proof.
  rewrite observed_level_unfold.
  destruct (ledger_refines_after (EvObserve i :: h)) as [_ _ Hr Hi _ _ _ _ _].
  unfold repeat_level, idle_level, level_spec. by rewrite Hr, Hi.
Qed.

(** on every history of ledger events, the stall level [observe] reports is
    the level of two suffix lengths of that history - the newest run of
    identical fingerprints and the newest run of tool-less rounds, both
    saturating at [u32::MAX] and both cut by a streak reset. *)
Lemma stall_level_refines_history (h : list ledger_event) (i : RoundInput) :
  observed_level h i =
    level_spec (cap (repeats_spec (EvObserve i :: h))) (cap (idle_spec (EvObserve i :: h))).
Proof. apply observed_level_spec. Qed.

Lemma added_spec before now n : n ∈ added before now ↔ n ∈ now ∧ n ∉ before.
Proof. unfold added. by rewrite elem_of_bfilter, negb_true_iff, contains_false. Qed.

Lemma added_paths_spec before now p : p ∈ added_paths before now ↔ p ∈ now ∧ p ∉ before.
Proof. unfold added_paths. by rewrite elem_of_bfilter, negb_true_iff, contains_false. Qed.

Lemma observed_delta_round h i : round (observed_delta h i) = cap (rounds_spec (EvObserve i :: h)).
Proof. destruct (ledger_refines_after h) as [Hr _ _ _ _ _ _ _ _]. cbn. by rewrite Hr, sat_cap. Qed.

(** the delta names exactly what moved since the newest earlier round: each
    criterion column is the set difference with the previous observation, and
    the files are the difference with the newest round in which the workspace
    could be read, however many unreadable rounds lie between. *)
Lemma delta_reports_what_moved (h : list ledger_event) (i : RoundInput) :
  let d := observed_delta h i in
  let a := in_activity i in
  round d = cap (rounds_spec (EvObserve i :: h))
  ∧ (∀ n, n ∈ newly_execed d ↔ n ∈ execed a ∧ n ∉ last_column execed h)
  ∧ (∀ n, n ∈ newly_verified d ↔ n ∈ verified a ∧ n ∉ last_column verified h)
  ∧ (∀ n, n ∈ newly_deferred d ↔ n ∈ deferred a ∧ n ∉ last_column deferred h)
  ∧ (∀ p, p ∈ newly_changed_files d ↔
          ∃ files, changed_files a = Some files ∧ p ∈ files ∧ p ∉ last_seen_files h)
  ∧ workspace_visible d = bool_decide (changed_files a ≠ None).
Proof.
  destruct (ledger_refines_after h) as [Hr _ _ _ Hf He Hv Hd _].
  cbn. rewrite Hr, He, Hv, Hd, Hf, sat_cap. setoid_rewrite added_spec.
  do 4 (split; [done|]). split.
  - intros p. destruct (changed_files (in_activity i)) as [files|].
    + rewrite added_paths_spec. naive_solver.
    + rewrite elem_of_nil. naive_solver.
  - by destruct (changed_files (in_activity i)).
Qed.

(** The harness asks for acceptance at most once in a row for the same set of
    finished criteria. *)
Lemma acceptance_asked_once h e :
  verification_already_requested_for (ledger_after h) e = true ↔ last_request h = Some e.
Proof.
  destruct (ledger_refines_after h) as [_ _ _ _ _ _ _ _ Hq].
  unfold verification_already_requested_for. rewrite Hq.
  destruct (last_request h); [rewrite bool_decide_eq_true; naive_solver|done].
Qed.

(** *** Blind spots of the fingerprint *)

Definition six_items (sixth : string) : OpenItemsSnapshot :=
  {| items := map (mkOpenItem None) ["a"; "b"; "c"; "d"; "e"; sixth];
     acceptance_pending := true |}.

(** The fingerprint reads the summary line, which shows five items: a sixth item
    that is replaced by another leaves the fingerprint as it was. *)
Lemma fingerprint_misses_sixth_item (v : VerificationOutcome) (a : RoundActivity) :
  six_items "f" ≠ six_items "g"
  ∧ round_fingerprint (six_items "f") v a = round_fingerprint (six_items "g") v a.
Proof. split; [done|reflexivity]. Qed.

(** The parts are joined without escaping: one path that contains a comma and
    two paths are the same fingerprint. *)
Lemma fingerprint_joins_paths (o : OpenItemsSnapshot) (v : VerificationOutcome) :
  let act files := mkActivity (Some files) [] [] [] [] in
  round_fingerprint o v (act ["a,b"]) = round_fingerprint o v (act ["a"; "b"]).
Proof. reflexivity. Qed.
