(* ===== verification/Decide.v ===== *)
(** * Completion decisions ([decide.rs])

    [decide_after_round] is the only function of the program that may conclude
    [TaskDone]; [TaskMachine] is the phase/status surface the host keeps. The
    machine's life is a step relation whose invariant is proved by rule
    induction, and the stall measure of [Progress] is shown to bound the rounds
    a run that moves nothing can be granted. *)

From S2P Require Import Prelude RustStr TaskState Progress.
From stdpp Require Import options.

(** ** The decision *)

Definition acceptance_prompt : string :=
  "acceptance pending — when every acceptance criterion is met, call " +:+
  "update_goal(completed: true) so verification can accept the task".

Definition decide_completion (view : RoundEndView) : TaskDecision :=
  if user_cancel view then TaskPaused UserCancel
  else if budget_hit view then TaskPaused BudgetExhausted
  else if negb (round_ok view) then TaskPaused InfraError
  else if has_explicit_work (open_items view) then
    RunAnotherRound (continue_with (summary_line (open_items view)) (delta view))
  else match verification view with
       | Achieved => TaskDone
       | Rejected fs => RunAnotherRound (fix_with fs)
       | Pending => RunAnotherRound (continue_with acceptance_prompt (delta view))
       end.

Definition decide_after_round (view : RoundEndView) : TaskDecision :=
  match decide_completion view with
  | RunAnotherRound injection =>
      match stall view with
      | Progressing => RunAnotherRound injection
      | Reapproach repeats reason =>
          RunAnotherRound
            (reapproach repeats reason (summary_line (open_items view)) (delta view))
      | CutOff repeats reason => TaskPaused (NoProgress repeats reason)
      end
  | d => d
  end.

(** ** TaskMachine *)

Record TaskMachine : Type := mkMachine {
  phase : TaskPhase;
  status : TaskStatus;
  pause_reason : option PauseReason;
}.

Definition machine_new : TaskMachine := mkMachine PhaseIdle StatusIdle None.

Definition machine_start (_ : TaskMachine) : TaskMachine :=
  mkMachine PhaseExecuting StatusActive None.

Definition machine_apply (_ : TaskMachine) (d : TaskDecision) : TaskMachine :=
  match d with
  | RunAnotherRound inj =>
      mkMachine (match inj with
                 | InjFix _ => PhaseFix
                 | InjContinue _ _ | InjReapproach _ _ _ _ => PhaseExecuting
                 end) StatusActive None
  | TaskDone => mkMachine PhaseDone StatusDone None
  | TaskPaused reason => mkMachine PhasePaused StatusPaused (Some reason)
  end.

Definition mark_executing (m : TaskMachine) : TaskMachine :=
  if bool_decide (status m = StatusActive)
  then mkMachine PhaseExecuting (status m) (pause_reason m)
  else m.

(** The operations the host may call, as a step relation. *)
Inductive machine_step : TaskMachine → TaskMachine → Prop :=
| step_start m : machine_step m (machine_start m)
| step_apply m view : machine_step m (machine_apply m (decide_after_round view))
| step_mark m : machine_step m (mark_executing m).

Definition machine_reachable (m : TaskMachine) : Prop := rtc machine_step machine_new m.

(** Phase, status and pause reason agree. *)
Definition machine_wf (m : TaskMachine) : Prop :=
  match status m with
  | StatusIdle => phase m = PhaseIdle ∧ pause_reason m = None
  | StatusActive => (phase m = PhaseExecuting ∨ phase m = PhaseFix) ∧ pause_reason m = None
  | StatusDone => phase m = PhaseDone ∧ pause_reason m = None
  | StatusPaused => phase m = PhasePaused ∧ is_Some (pause_reason m)
  end.

(** ** The decision taken after a round that a history precedes *)

Definition gate_view (h : list ledger_event) (i : RoundInput) (ok cancel budget : bool)
    : RoundEndView :=
  {| round_ok := ok; open_items := in_open i; user_cancel := cancel; budget_hit := budget;
     verification := in_verification i; stall := observed_level h i;
     delta := observed_delta h i |}.

Definition gate_decision (h : list ledger_event) (i : RoundInput) (ok cancel budget : bool)
    : TaskDecision :=
  decide_after_round (gate_view h i ok cancel budget).

(** ** Theorems *)

(** The four conditions under which a task is accepted. *)
Definition accepted (view : RoundEndView) : Prop :=
  user_cancel view = false ∧ budget_hit view = false ∧ round_ok view = true
  ∧ items (open_items view) = [] ∧ verification view = Achieved.

Lemma has_explicit_work_false o : has_explicit_work o = false ↔ items o = [].
Proof. unfold has_explicit_work. by destruct (items o). Qed.

Lemma decide_completion_done view : decide_completion view = TaskDone ↔ accepted view.
Proof.
  unfold decide_completion, accepted. rewrite <- has_explicit_work_false.
  destruct (user_cancel view), (budget_hit view), (round_ok view), (has_explicit_work _),
    (verification view); naive_solver.
Qed.

(** Only a request for another round is ever changed by the stall measure. *)
Lemma decide_after_round_terminal view :
  (∀ inj, decide_completion view ≠ RunAnotherRound inj) →
  decide_after_round view = decide_completion view.
Proof. unfold decide_after_round. destruct (decide_completion view); naive_solver. Qed.

Lemma after_round_done view : decide_after_round view = TaskDone ↔ accepted view.
Proof.
  rewrite <- decide_completion_done. unfold decide_after_round.
  destruct (decide_completion view); [destruct (stall view)|..]; naive_solver.
Qed.

(** The completion authority. [decide_after_round] concludes [TaskDone]
    exactly when the round ended cleanly, nothing was cancelled, the budget
    holds, no explicit item is open and verification is [Achieved]; in
    particular neither the acceptance flag nor the stall measure can produce or
    prevent it. *)
Lemma task_done_iff_accepted (view : RoundEndView) :
  decide_after_round view = TaskDone ↔ accepted view.
Proof. apply after_round_done. Qed.

(** the full decision table for a task that is not accepted: cancel, budget
    and a failed round pause in that order of precedence whatever the stall
    level says; otherwise the stall level chooses between the completion rule's
    own injection, a re-approach, and the cut-off pause. *)
Lemma unaccepted_round_outcome (view : RoundEndView) :
  ¬ accepted view →
  decide_after_round view =
    if user_cancel view then TaskPaused UserCancel
    else if budget_hit view then TaskPaused BudgetExhausted
    else if negb (round_ok view) then TaskPaused InfraError
    else match stall view with
         | CutOff n r => TaskPaused (NoProgress n r)
         | Reapproach n r =>
             RunAnotherRound (InjReapproach n r (summary_line (open_items view)) (delta view))
         | Progressing =>
             RunAnotherRound
               (match items (open_items view), verification view with
                | [], Rejected fs => InjFix fs
                | [], _ => InjContinue acceptance_prompt (delta view)
                | _ :: _, _ => InjContinue (summary_line (open_items view)) (delta view)
                end)
         end.
Proof.
  intros Hno. unfold accepted in Hno. unfold decide_after_round, decide_completion.
  destruct (user_cancel view), (budget_hit view), (round_ok view); try done.
  unfold has_explicit_work.
  destruct (items (open_items view)) eqn:Hi; [destruct (verification view)|];
    destruct (stall view); naive_solver.
Qed.

Lemma machine_wf_step m m' : machine_step m m' → machine_wf m → machine_wf m'.
Proof.
  intros [m0|m0 view|m0] Hwf; [by split; [left|]|..].
  - destruct (decide_after_round view) as [[]| |]; cbn; unfold machine_wf; cbn; eauto.
  - unfold mark_executing. case_bool_decide as Hs; [|done].
    unfold machine_wf in *. rewrite Hs in *. cbn. naive_solver.
Qed.

(** in every machine state the host can reach, phase, status and pause
    reason agree: idle with idle, active with executing or fixing, done with
    done, and paused exactly when a reason is recorded. *)
Lemma reachable_machine_wf (m : TaskMachine) : machine_reachable m → machine_wf m.
Proof.
  intros Hr. unfold machine_reachable in Hr.
  assert (∀ a b, rtc machine_step a b → machine_wf a → machine_wf b) as Hinv.
  { induction 1; [done|]. eauto using machine_wf_step. }
  apply (Hinv _ _ Hr). done.
Qed.

Lemma machine_step_done m m' :
  machine_step m m' → status m' = StatusDone →
  status m = StatusDone ∨ ∃ view, accepted view ∧ m' = machine_apply m (decide_after_round view).
Proof.
  intros [m0|m0 view|m0] Hd; [done|right; exists view; split; [|done]|left].
  - apply after_round_done.
    destruct (decide_after_round view) as [[]| |]; done.
  - unfold mark_executing in Hd. by case_bool_decide; cbn in *; congruence.
Qed.

(** No run of the machine reaches status [Done] without passing through a
    round whose view was accepted: from a state that is not done, some prefix of
    the run ends in applying an accepting decision. *)
Lemma done_needs_an_accepting_round (m m' : TaskMachine) :
  rtc machine_step m m' → status m ≠ StatusDone → status m' = StatusDone →
  ∃ m1 view, rtc machine_step m m1 ∧ accepted view
    ∧ rtc machine_step (machine_apply m1 (decide_after_round view)) m'.
Proof.
  intros Hr. induction Hr as [m|m m1 m' Hs Hr IH]; intros Hn Hd; [done|].
  destruct (decide (status m1 = StatusDone)) as [Hd1|Hn1].
  - destruct (machine_step_done _ _ Hs Hd1) as [?|(view & Ha & ->)]; [done|].
    exists m, view. by split; [constructor|].
  - destruct (IH Hn1 Hd) as (m2 & view & Hr2 & Ha & Hr3).
    exists m2, view. split; [by eapply rtc_l|done].
Qed.

(** *** The stall measure terminates the round loop *)

Definition observations (ins : list RoundInput) : list ledger_event := map EvObserve ins.

Lemma same_streak_run fp ins h :
  Forall (λ i, input_fingerprint i = fp) ins →
  (N.of_nat (length ins) ≤ same_streak fp (observations ins ++ h))%N.
Proof.
  induction 1 as [|i ins Hi _ IH]; cbn [observations map app same_streak length]; [lia|].
  rewrite bool_decide_eq_true_2 by done. unfold observations in IH. lia.
Qed.

Lemma idle_spec_run ins h :
  Forall (λ i, activity_worked (in_activity i) = false) ins →
  (N.of_nat (length ins) ≤ idle_spec (observations ins ++ h))%N.
Proof.
  induction 1 as [|i ins Hi _ IH]; cbn [observations map app idle_spec length]; [lia|].
  rewrite Hi. unfold observations in IH. lia.
Qed.

Lemma cap_ge n k : (k ≤ u32_max → k ≤ n → k ≤ cap n)%N.
Proof. unfold cap. lia. Qed.

Lemma level_spec_cut_off reps idle :
  (6 ≤ reps ∨ 3 ≤ idle)%N → ∃ n r, level_spec reps idle = CutOff n r.
Proof.
  intros H. unfold level_spec, worst.
  repeat match goal with
  | |- context [(?a <=? ?b)%N] => destruct (N.leb_spec a b)
  end; cbn; eauto; exfalso; lia.
Qed.

Lemma cut_off_ends h i ok cancel budget :
  (6 ≤ repeats_spec (EvObserve i :: h) ∨ 3 ≤ idle_spec (EvObserve i :: h))%N →
  ∀ inj, gate_decision h i ok cancel budget ≠ RunAnotherRound inj.
Proof.
  intros H inj. unfold gate_decision, decide_after_round.
  destruct (level_spec_cut_off (cap (repeats_spec (EvObserve i :: h)))
              (cap (idle_spec (EvObserve i :: h)))) as (n & r & Hl).
  { destruct H; [left|right]; (apply cap_ge; [by vm_compute|done]). }
  cbn [stall gate_view]. rewrite observed_level_spec, Hl.
  by destruct (decide_completion _).
Qed.

(** The round loop cannot be asked for another round forever by a run that
    moves nothing. After any history, the sixth consecutive round with the same
    fingerprint and the third consecutive round without a tool call are never
    answered with another round, whatever the completion rules say. *)
Lemma stalled_run_is_cut_off (h : list ledger_event) (ins : list RoundInput) (i : RoundInput)
    (fp : string) (ok cancel budget : bool) :
  (5 ≤ length ins ∧ Forall (λ j, input_fingerprint j = fp) (i :: ins)
   ∨ 2 ≤ length ins ∧ Forall (λ j, activity_worked (in_activity j) = false) (i :: ins)) →
  ∀ inj, gate_decision (observations ins ++ h) i ok cancel budget ≠ RunAnotherRound inj.
Proof.
  intros H. apply cut_off_ends. destruct H as [[Hl Hf]|[Hl Hf]];
    inversion_clear Hf as [|? ? Hi Hr]; [left|right]; cbn.
  - rewrite Hi. pose proof (same_streak_run fp ins h Hr). lia.
  - rewrite Hi. pose proof (idle_spec_run ins h Hr). lia.
Qed.

Definition idle_input (n : N) : RoundInput :=
  {| in_open := acceptance_only; in_verification := Pending;
     in_activity := mkActivity (Some []) [] [n] [] [] |}.

Lemma stalled_run_is_cut_off_witness :
  gate_decision (observations [idle_input 2; idle_input 1]) (idle_input 3) true false false
  ≠ RunAnotherRound (InjContinue acceptance_prompt default_delta)
  ∧ gate_decision (observations [idle_input 2; idle_input 1]) (idle_input 3) true false false
    = TaskPaused (NoProgress 3 Idle).
Proof.
  split; [|reflexivity].
  rewrite <- (app_nil_r (observations [idle_input 2; idle_input 1])).
  apply (stalled_run_is_cut_off [] [idle_input 2; idle_input 1] (idle_input 3) "" true false false).
  right. split; [cbn; lia|repeat constructor].
Defined.

Definition clean_view (v : VerificationOutcome) (s : StallLevel) : RoundEndView :=
  {| round_ok := true; open_items := acceptance_only; user_cancel := false;
     budget_hit := false; verification := v; stall := s; delta := default_delta |}.

Lemma unaccepted_round_outcome_witness :
  decide_after_round (clean_view (Rejected []) (Reapproach 1 Idle))
  = RunAnotherRound (InjReapproach 1 Idle "acceptance pending (awaiting audit)" default_delta).
Proof.
  rewrite unaccepted_round_outcome; [reflexivity|].
  intros (_ & _ & _ & _ & Hv). discriminate Hv.
Defined.

Lemma reachable_machine_wf_witness :
  machine_wf (machine_apply (machine_start machine_new)
                (decide_after_round (clean_view Achieved Progressing))).
Proof.
  apply reachable_machine_wf.
  eapply rtc_l; [apply step_start|]. eapply rtc_l; [apply step_apply|]. apply rtc_refl.
Defined.

(** *** What the delta does not reach *)

(** A [Fix] injection carries the findings and nothing else, so two different
    rounds that the panel rejects with the same findings are answered with the
    same injection: the delta is not part of it. *)
Lemma fix_injection_ignores_delta (view : RoundEndView) (fs : list AuditFinding) (d : RoundDelta) :
  user_cancel view = false → budget_hit view = false → round_ok view = true →
  items (open_items view) = [] → verification view = Rejected fs → stall view = Progressing →
  decide_after_round view = RunAnotherRound (InjFix fs)
  ∧ decide_after_round (mkView (round_ok view) (open_items view) (user_cancel view)
                          (budget_hit view) (verification view) (stall view) d)
    = decide_after_round view.
Proof.
  intros Hc Hb Hr Hi Hv Hs. destruct view as [? [] ? ? ? ? ?]; cbn in *; subst. done.
Qed.
