(* ===== verification/AuditParse.v ===== *)
(** * Parsing the auditor's answer ([audit_parse.rs])

    The audit agent ends its free-form answer with a JSON object. This file
    models the extraction of that object from the text (fenced block first, then
    balanced braces), and its conversion to a verdict. [serde_json::from_str] is
    third-party code: it is the parameter [from_str] of the section, and the
    theorems hold for every such parser. The data type [Value] is serde_json's
    documented one. *)

From Stdlib Require Import Ascii String.
From S2P Require Import Prelude RustStr TaskState.
From stdpp Require Import options.

(** ** serde_json values *)

Inductive Number : Type :=
| PosInt (n : N)
| NegInt (z : Z)
| Float (repr : string).

Inductive Value : Type :=
| Null
| Bool (b : bool)
| Num (n : Number)
| Str (s : string)
| Array (l : list Value)
| Object (fields : list (string * Value)).

Definition get (key : string) (fields : list (string * Value)) : option Value :=
  snd <$> List.find (λ f, String.eqb (fst f) key) fields.

Definition as_object (v : Value) : option (list (string * Value)) :=
  match v with Object f => Some f | _ => None end.
Definition as_bool (v : Value) : option bool :=
  match v with Bool b => Some b | _ => None end.
Definition as_str (v : Value) : option string :=
  match v with Str s => Some s | _ => None end.
Definition as_u64 (n : Number) : option N :=
  match n with PosInt n => Some n | _ => None end.

(** ** Errors *)

Inductive AuditParseError : Type :=
| NoJson
| Invalid (d : string).

Definition AuditParseError_display (e : AuditParseError) : string :=
  match e with
  | NoJson => "audit agent response contained no JSON object"
  | Invalid d => "audit agent JSON invalid: " +:+ d
  end.

(** ** Findings *)

(** The first run of ASCII digits, parsed as [u64]. *)
Definition first_integer (s : string) : option N :=
  match find_char is_ascii_digit s with
  | None => None
  | Some start => parse_u64 (take_while is_ascii_digit (drop_bytes start s))
  end.

Definition criterion_from_json (v : Value) : option N :=
  let n := match v with
           | Num n => as_u64 n
           | Str s => first_integer s
           | _ => None
           end in
  match n with
  | Some n => if (n <=? u32_max)%N && negb (n =? 0)%N then Some n else None
  | None => None
  end.

Definition non_empty (s : string) : option string := if is_empty s then None else Some s.

Definition parse_finding (v : Value) : result AuditFinding AuditParseError :=
  let? obj := ok_or (as_object v) (Invalid "finding must be an object") in
  let? msg := ok_or ((get "message" obj ≫= as_str) ≫= λ m, non_empty (trim m))
                (Invalid "finding missing non-empty `message`") in
  Ok {| severity := (get "severity" obj ≫= as_str) ≫= λ s, non_empty (trim s);
        criterion := get "criterion" obj ≫= criterion_from_json;
        message := msg |}.

(** ** Extracting the object *)

(** [extract_balanced_from] at a position [start]: [s] is the text from [start]
    on, and the answer is the object itself. The loop's locals are the
    arguments; [None] at the end of the text is the loop falling through. *)
Fixpoint scan_balanced (depth : Z) (in_str escape : bool) (s : string) : option string :=
  match s with
  | EmptyString => None
  | String b s =>
      String b <$>
      (if in_str then
         if escape then scan_balanced depth true false s
         else if Ascii.eqb b "\" then scan_balanced depth true true s
         else if Ascii.eqb b "034" then scan_balanced depth false false s
         else scan_balanced depth true false s
       else if Ascii.eqb b "034" then scan_balanced depth true false s
       else if Ascii.eqb b "{" then scan_balanced (depth + 1) false false s
       else if Ascii.eqb b "}" then
         if (depth - 1 =? 0)%Z then Some EmptyString
         else scan_balanced (depth - 1) false false s
       else scan_balanced depth false false s)
  end.

Definition extract_balanced_from (s : string) : option string :=
  match s with
  | String "{" _ => scan_balanced 0 false false s
  | _ => None
  end.

Definition pass_key : string := String "034" ("pass" +:+ String "034" EmptyString).

(** [extract_audit_brace_object]: [skip] counts the bytes of an object already
    inspected, so the walk is the source's [i += obj.len().max(1)]. *)
Fixpoint brace_object_go (skip : nat) (first : option string) (s : string) : option string :=
  match s with
  | EmptyString => first
  | String b s' =>
      match skip with
      | S k => brace_object_go k first s'
      | O =>
          match extract_balanced_from s with
          | Some obj =>
              if str_contains pass_key obj then Some obj
              else brace_object_go (Nat.max (String.length obj) 1 - 1)
                     (match first with Some f => Some f | None => Some obj end) s'
          | None => brace_object_go 0 first s'
          end
      end
  end.

Definition extract_audit_brace_object (text : string) : option string :=
  brace_object_go 0 None text.

(** [extract_fenced_json] for one marker, from the search position on. *)
Fixpoint fenced_go (marker : string) (skip : nat) (s : string) : option string :=
  match s with
  | EmptyString => None
  | String _ s' =>
      match skip with
      | S k => fenced_go marker k s'
      | O =>
          if starts_with marker (to_ascii_lowercase s) then
            let rest := drop_bytes (String.length marker) s in
            let rest := default rest (strip_prefix (String carriage EmptyString) rest) in
            let rest := default rest (strip_prefix nl rest) in
            match find "```" rest with
            | None => fenced_go marker (String.length marker - 1) s'
            | Some e =>
                let body := trim (take_bytes e rest) in
                if starts_with "{" body then Some body
                else fenced_go marker (String.length marker - 1) s'
            end
          else fenced_go marker 0 s'
      end
  end.

Definition extract_fenced_json (text : string) : option string :=
  match fenced_go "```json" 0 text with
  | Some body => Some body
  | None => fenced_go "```" 0 text
  end.

Definition extract_json_object (text : string) : option string :=
  match extract_fenced_json text with
  | Some o => Some o
  | None => extract_audit_brace_object text
  end.

(** ** The verdict *)

Definition no_findings_placeholder : AuditFinding :=
  {| severity := Some "error"; criterion := None;
     message := "Audit reported pass=false with no findings; treat as incomplete." |}.

Section parse.
Context (from_str : string → result Value string).

Definition parse_audit_agent_output (text : string) : result AuditVerdict AuditParseError :=
  let? json_str := ok_or (extract_json_object text) NoJson in
  let? value := map_err Invalid (from_str json_str) in
  let? obj := ok_or (as_object value) (Invalid "root must be an object") in
  let? pass := ok_or (get "pass" obj ≫= as_bool) (Invalid "missing boolean field `pass`") in
  let? findings :=
    match get "findings" obj with
    | None => Ok []
    | Some (Array arr) => collect_results parse_finding arr
    | Some _ => Err (Invalid "`findings` must be an array")
    end in
  if pass && negb (is_nil findings) then Ok (failed findings)
  else if pass then Ok passed
  else Ok (failed (if is_nil findings then [no_findings_placeholder] else findings)).
End parse.

(** ** The verdict is never a synthetic pass *)

Lemma criterion_from_json_range v n :
  criterion_from_json v = Some n → (0 < n ≤ u32_max)%N.
Proof.
  unfold criterion_from_json. destruct (match v with Num _ => _ | _ => _ end) as [m|]; [|done].
  destruct (N.leb_spec m u32_max); [|done]. destruct (N.eqb_spec m 0); [done|].
  intros [= <-]. lia.
Qed.

Lemma parse_finding_ok v f :
  parse_finding v = Ok f →
  message f ≠ "" ∧ ∀ n, criterion f = Some n → (0 < n ≤ u32_max)%N.
Proof.
  unfold parse_finding. destruct (as_object v) as [obj|]; [cbn|done].
  destruct (get "message" obj) as [m|]; [cbn|done].
  destruct (as_str m) as [s|]; [cbn|done].
  unfold non_empty. destruct (trim s) eqn:Et; [done|]. cbn. intros [= <-]. cbn. split; [done|].
  intros n. destruct (get "criterion" obj) as [c|]; [cbn|done].
  apply criterion_from_json_range.
Qed.

Lemma collect_results_ok {A B E} (f : A → result B E) l ys :
  collect_results f l = Ok ys → ∀ y, y ∈ ys → ∃ x, x ∈ l ∧ f x = Ok y.
Proof.
  revert ys. induction l as [|x l IH]; intros ys; cbn.
  { intros [= <-] y Hy. by apply elem_of_nil in Hy. }
  destruct (f x) eqn:Ex; [cbn|done]. destruct (collect_results f l) eqn:El; [cbn|done].
  intros [= <-] y [->|Hy]%elem_of_cons; [exists x; split; [left|done]|].
  destruct (IH _ eq_refl y Hy) as (x' & Hx & Hf). exists x'. split; [by right|done].
Qed.

Lemma collect_results_nil {A B E} (f : A → result B E) l :
  collect_results f l = Ok [] → l = [].
Proof.
  destruct l as [|x l]; [done|]. cbn. destruct (f x); [cbn|done].
  by destruct (collect_results f l).
Qed.

Section verdict.
Context (from_str : string → result Value string).
Implicit Types (text : string) (v : AuditVerdict).

(** The JSON object a verdict was read from. *)
Definition reads_object text (obj : list (string * Value)) : Prop :=
  ∃ js, extract_json_object text = Some js ∧ from_str js = Ok (Object obj).

Lemma parse_audit_ok_inv text v :
  parse_audit_agent_output from_str text = Ok v →
  ∃ obj p fs,
    reads_object text obj ∧ get "pass" obj = Some (Bool p)
    ∧ (get "findings" obj = None ∧ fs = []
       ∨ ∃ arr, get "findings" obj = Some (Array arr) ∧ collect_results parse_finding arr = Ok fs)
    ∧ v = if p then (if is_nil fs then passed else failed fs)
          else failed (if is_nil fs then [no_findings_placeholder] else fs).
Proof.
  unfold parse_audit_agent_output, reads_object.
  destruct (extract_json_object text) as [js|]; [cbn|done].
  destruct (from_str js) as [value|] eqn:Hf; [cbn|done].
  destruct value as [| | | | |obj]; cbn; try done.
  destruct (get "pass" obj) as [pv|] eqn:Hp; [cbn|done].
  destruct pv as [|p| | | |]; cbn; try done.
  destruct (get "findings" obj) as [fv|] eqn:Hg.
  - destruct fv as [| | | |arr|]; cbn; try done.
    destruct (collect_results parse_finding arr) as [fs|] eqn:Hc; [cbn|done].
    intros H. exists obj, p, fs. split_and!; eauto. destruct p, fs; cbn in *; congruence.
  - cbn. intros H. exists obj, p, []. split_and!; eauto. destruct p; cbn in *; congruence.
Qed.

(** C34: no fail-open in the audit parser. Whatever the JSON parser does, a
    verdict that comes back passes exactly when it has no findings, and it
    passes only if the object found in the text says [pass: true] and lists
    no finding; every finding has a message, and a criterion number in the
    range of a 1-based [u32]. *)
Theorem audit_verdict_never_fails_open text v :
  parse_audit_agent_output from_str text = Ok v →
  (pass v = true ↔ findings v = [])
  ∧ (pass v = true → ∃ obj, reads_object text obj ∧ get "pass" obj = Some (Bool true)
       ∧ (get "findings" obj = None ∨ get "findings" obj = Some (Array [])))
  ∧ (∀ f, f ∈ findings v → message f ≠ "" ∧ ∀ n, criterion f = Some n → (0 < n ≤ u32_max)%N).
Proof.
  intros (obj & p & fs & Hr & Hp & Hfs & ->)%parse_audit_ok_inv.
  assert (∀ f, f ∈ fs → message f ≠ "" ∧ ∀ n, criterion f = Some n → (0 < n ≤ u32_max)%N) as Hall.
  { destruct Hfs as [[_ ->]|(arr & _ & Hc)]; intros f Hf; [by apply elem_of_nil in Hf|].
    destruct (collect_results_ok _ _ _ Hc f Hf) as (x & _ & Hx). by eapply parse_finding_ok. }
  destruct p, fs as [|f fs]; cbn; split_and!; try done; try (by intros ? ?%elem_of_nil).
  - intros _. exists obj. split_and!; [done..|].
    destruct Hfs as [[? _]|(arr & Hg & Hc)]; [by left|right].
    by rewrite (collect_results_nil _ _ Hc) in Hg.
  - intros g Hg. apply list_elem_of_singleton in Hg as ->. by split.
Qed.
End verdict.

Definition trivial_parser (s : string) : result Value string :=
  if String.eqb s "{ok}" then Ok (Object [("pass", Bool true)]) else Err "syntax".

Lemma audit_verdict_never_fails_open_witness :
  parse_audit_agent_output trivial_parser "done: {ok}" = Ok passed
  ∧ (pass passed = true ↔ findings passed = []).
Proof.
  split; [vm_compute; reflexivity|].
  apply (audit_verdict_never_fails_open trivial_parser "done: {ok}" passed).
  vm_compute. reflexivity.
Defined.

(** ** The extracted object *)

Lemma scan_balanced_app d i e s o t :
  scan_balanced d i e s = Some o → scan_balanced d i e (s +:+ t) = Some o.
Proof.
  revert d i e o. induction s as [|b s IH]; intros d i e o; [done|].
  cbn. intros (o' & Hs & ->)%fmap_Some. apply fmap_Some. exists o'. split; [|done].
  repeat case_match; eauto.
Qed.

Lemma scan_balanced_prefix d i e s o :
  scan_balanced d i e s = Some o → ∃ t, s = o +:+ t.
Proof.
  revert d i e o. induction s as [|b s IH]; intros d i e o; [done|].
  cbn. intros (o' & Hs & ->)%fmap_Some.
  assert (∃ t, s = o' +:+ t) as [t ->] by (repeat case_match; naive_solver).
  by exists t.
Qed.

Definition no_backtick (s : string) : bool := all_chars (λ c, negb (Ascii.eqb c "`")) s.
Definition no_brace (s : string) : bool := all_chars (λ c, negb (Ascii.eqb c "{")) s.

Lemma ascii_lower_backtick c : ascii_lower c = "`"%char → c = "`"%char.
Proof. destruct c as [[] [] [] [] [] [] [] []]; vm_compute; congruence. Qed.

Lemma fenced_go_no_backtick m k s :
  no_backtick s = true → fenced_go (String "`" m) k s = None.
Proof.
  unfold no_backtick.
  revert k. induction s as [|c s IH]; intros k Hs; [done|]. cbn in Hs. bools.
  cbn [fenced_go]. destruct k as [|k]; [|auto].
  unfold to_ascii_lowercase. cbn [map_string]. rewrite starts_with_ne; [auto|].
  intros Hc. symmetry in Hc. apply ascii_lower_backtick in Hc as ->.
  by rewrite Ascii.eqb_refl in *.
Qed.

Lemma not_open_brace c s : Ascii.eqb c "{" = false → extract_balanced_from (String c s) = None.
Proof. by destruct c as [[] [] [] [] [] [] [] []]. Qed.

Lemma open_brace c s o : extract_balanced_from (String c s) = Some o → c = "{"%char.
Proof.
  destruct (Ascii.eqb_spec c "{") as [|Hn]; [done|]. apply Ascii.eqb_neq in Hn.
  by rewrite (not_open_brace c s).
Qed.

Lemma brace_object_go_prose prose s :
  no_brace prose = true → brace_object_go 0 None (prose +:+ s) = brace_object_go 0 None s.
Proof.
  unfold no_brace. induction prose as [|c p IH]; [done|]. cbn [all_chars]. intros Hb. bools.
  rewrite str_app_cons. cbn [brace_object_go]. rewrite not_open_brace by done. auto.
Qed.

(** an answer that narrates first and then gives one object is read right.
    For prose without a brace, an object that is balanced outside its strings
    and mentions ["pass"], and any text after it - none of them with a backtick -
    exactly the object is extracted, however many nested objects or braces
    inside strings it has. *)
Lemma narrated_object_extracted (prose obj tail : string) :
  no_brace prose = true → no_backtick (prose +:+ obj +:+ tail) = true →
  extract_balanced_from obj = Some obj → str_contains pass_key obj = true →
  extract_json_object (prose +:+ obj +:+ tail) = Some obj.
Proof.
  intros Hp Hb Ho Hk. unfold extract_json_object, extract_fenced_json.
  rewrite !fenced_go_no_backtick by done.
  unfold extract_audit_brace_object. rewrite brace_object_go_prose by done.
  assert (extract_balanced_from (obj +:+ tail) = Some obj) as Hot.
  { destruct obj as [|c obj]; [done|]. pose proof (open_brace _ _ _ Ho) as ->.
    by apply (scan_balanced_app _ _ _ (String "{" obj)). }
  destruct (obj +:+ tail) as [|c rest] eqn:E; [done|].
  cbn [brace_object_go]. by rewrite Hot, Hk.
Qed.

Definition sample_object : string :=
  "{" +:+ pass_key +:+ ": false, " +:+ String "034" ("note" +:+ String "034" ": {}}").

Lemma narrated_object_extracted_witness :
  extract_json_object ("Checked the diff. " +:+ sample_object +:+ " {x") = Some sample_object.
Proof. apply narrated_object_extracted; vm_compute; reflexivity. Defined.

(** The doc comment of [parse_audit_agent_output] promises the last object of
    the text; the walk returns the first one that mentions ["pass"]. *)
Lemma first_object_wins :
  extract_json_object ("{" +:+ pass_key +:+ ": true} but on reflection {" +:+ pass_key +:+ ": false}")
  = Some ("{" +:+ pass_key +:+ ": true}").
Proof. reflexivity. Qed.

(** ** Derived JSON readers

    What the derived readers of serde make of a parsed document, shared by the
    parts that read a subagent's JSON: the verdict of a skeptic and the proposal
    of the amender. *)

(** *** Structs

    A derived reader on a parsed document: an object gives a field by its
    key (a key given twice is an error, one of no field is skipped), an array
    gives the fields by position (one element too many is an error). *)

Definition serde_fields (keys : list string) (v : Value) : option (list (option Value)) :=
  match v with
  | Object fs =>
      mapM (λ k, match List.filter (λ f, String.eqb (fst f) k) fs with
                 | [] => Some None
                 | [f] => Some (Some (snd f))
                 | _ => None
                 end) keys
  | Array l =>
      if length l <=? length keys
      then Some (map Some l ++ replicate (length keys - length l) None) else None
  | _ => None
  end.

(** A field of type [Option<T>] with a default. *)
Definition opt_field {A} (read : Value → option A) (v : option Value) : option (option A) :=
  match v with
  | None | Some Null => Some None
  | Some v => Some <$> read v
  end.

(** A field of type [String] with a default. *)
Definition string_field (v : option Value) : option string :=
  match v with None => Some "" | Some v => as_str v end.

(** A field of type [Vec<T>] with a default. *)
Definition vec_field {A} (read : Value → option A) (v : option Value) : option (list A) :=
  match v with
  | None => Some []
  | Some (Array l) => mapM read l
  | Some _ => None
  end.
