(* ===== verification/TrimLemmas.v ===== *)
(** * Trimming, splitting and rejoining strings

    What the parsers of the plan rely on: [trim] removes white space and nothing
    else, is insensitive to more white space at either end, and commutes with
    splitting at a character; splitting the lines of a text undoes printing
    them. *)

From Stdlib Require Import Ascii String.
From S2P Require Import Prelude RustStr.
From stdpp Require Import options.
#[local] Set Default Proof Using "Type*".

(** ** Reversal *)

Lemma rev_app_acc s t acc :
  String.rev_app (s +:+ t) acc = String.rev_app t (String.rev_app s acc).
Proof. revert acc. induction s as [|c s IH]; intros acc; [done|]. rewrite str_app_cons. cbn. apply IH. Qed.

Lemma rev_app_spec s acc : String.rev_app s acc = String.rev s +:+ acc.
Proof.
  unfold String.rev. revert acc. induction s as [|c s IH]; intros acc; [done|]. cbn.
  by rewrite IH, (IH (String c "")), str_app_assoc.
Qed.

Lemma rev_app_distr s t : String.rev (s +:+ t) = String.rev t +:+ String.rev s.
Proof. unfold String.rev at 1. by rewrite rev_app_acc, rev_app_spec. Qed.

Lemma rev_cons c s : String.rev (String c s) = String.rev s +:+ String c "".
Proof. unfold String.rev at 1. cbn. by rewrite rev_app_spec. Qed.

Lemma rev_involutive s : String.rev (String.rev s) = s.
Proof. induction s as [|c s IH]; [done|]. by rewrite rev_cons, rev_app_distr, IH. Qed.

Lemma rev_nil s : String.rev s = "" → s = "".
Proof. intros H. by rewrite <- (rev_involutive s), H. Qed.

(** ** Dropping characters at the front *)

Section drop_front.
Context (encs : list string).

Lemma drop_front_skip k s : drop_front encs k s = drop_front encs 0 (drop_bytes k s).
Proof. revert k. induction s as [|c s IH]; intros [|k]; cbn; try done. Qed.

Lemma drop_bytes_app w s : drop_bytes (String.length w) (w +:+ s) = s.
Proof. induction w as [|c w IH]; [by destruct s|]. rewrite str_app_cons. cbn. done. Qed.

Lemma take_bytes_app s t : take_bytes (String.length s) (s +:+ t) = s.
Proof. induction s as [|c s IH]; [by destruct t|]. rewrite str_app_cons. cbn. by rewrite IH. Qed.

Lemma drop_front_stop s : find_prefix encs s = None → drop_front encs 0 s = s.
Proof. intros Hf. destruct s as [|c s]; [done|]. cbn [drop_front]. by rewrite Hf. Qed.

Lemma find_prefix_None s : find_prefix encs s = None ↔ ∀ e, e ∈ encs → starts_with e s = false.
Proof.
  unfold find_prefix. induction encs as [|e l IH]; cbn.
  { split; [|done]. intros _ e He. by apply elem_of_nil in He. }
  destruct (starts_with e s) eqn:E.
  - split; [done|]. intros H. rewrite (H e) in E; [done|left].
  - rewrite IH. setoid_rewrite elem_of_cons. naive_solver.
Qed.

Lemma find_prefix_Some s e : find_prefix encs s = Some e → e ∈ encs ∧ ∃ t, s = e +:+ t.
Proof.
  unfold find_prefix. intros [Hin Hs]%find_some. apply starts_with_spec in Hs.
  by rewrite list_elem_of_In.
Qed.

(** No character of the list is empty or starts like another one. *)
Context (Hne : "" ∉ encs) (Hfree : ∀ e, e ∈ encs → ∀ t, find_prefix encs (e +:+ t) = Some e).

Lemma drop_front_step e s : e ∈ encs → drop_front encs 0 (e +:+ s) = drop_front encs 0 s.
Proof.
  intros He. specialize (Hfree e He s). destruct e as [|c e]; [done|].
  rewrite str_app_cons in *. cbn [drop_front].
  rewrite Hfree, drop_front_skip. cbn. by rewrite Nat.sub_0_r, drop_bytes_app.
Qed.

(** What [drop_front] removes is a sequence of characters of the list. *)
Lemma drop_front_split s : ∃ ws,
  s = foldr String.append "" ws +:+ drop_front encs 0 s ∧ Forall (λ w, w ∈ encs) ws
  ∧ find_prefix encs (drop_front encs 0 s) = None.
Proof.
  remember (String.length s) as n eqn:Hn. revert s Hn.
  induction (lt_wf n) as [n _ IH]. intros s ->.
  destruct (find_prefix encs s) as [w|] eqn:Hf.
  - apply find_prefix_Some in Hf as (Hw & t & ->). rewrite drop_front_step by done.
    destruct (IH (String.length t)) with (s := t) as (ws & Hs & Hall & Hstop); [|done|].
    { rewrite str_length_app. destruct w; [done|]. cbn. lia. }
    exists (w :: ws). cbn. split_and!; [|by constructor|done].
    rewrite str_app_assoc. by f_equal.
  - exists []. rewrite drop_front_stop by done. split_and!; [done|constructor|done].
Qed.

Definition no_overlap_bytes (w : string) : bool :=
  match w with
  | EmptyString => false
  | String b _ =>
      all (λ e, match e with
                | EmptyString => true
                | String _ e => all_chars (λ c, negb (Ascii.eqb c b)) e
                end) encs
  end.

Lemma starts_with_overlap e b s w :
  all_chars (λ c, negb (Ascii.eqb c b)) e = true →
  starts_with e (s +:+ String b w) = true → starts_with e s = true.
Proof.
  revert s. induction e as [|c e IH]; intros s Hall; [by destruct s|].
  cbn in Hall. apply andb_true_iff in Hall as [Hc Hall]. destruct s as [|d s].
  - rewrite str_app_nil_l, starts_with_ne; [done|]. apply Ascii.eqb_neq. by apply negb_true_iff.
  - rewrite str_app_cons. unfold starts_with in *. cbn. destruct (Ascii.eqb c d); [|done]. by apply IH.
Qed.

(** A character that cannot continue one of the list does not change where
    the dropping stops. *)
Lemma find_prefix_app s w :
  no_overlap_bytes w = true → s ≠ "" → find_prefix encs s = None → find_prefix encs (s +:+ w) = None.
Proof.
  unfold no_overlap_bytes. destruct w as [|b w]; [done|]. rewrite all_spec, !find_prefix_None.
  intros Hall Hs Hnone e He. specialize (Hnone e He). specialize (Hall e He).
  apply not_true_iff_false. intros Ht. apply not_true_iff_false in Hnone. apply Hnone.
  destruct e as [|c e]; [by destruct s|]. destruct s as [|d s]; [done|].
  rewrite str_app_cons in Ht. unfold starts_with in *. cbn in *.
  destruct (Ascii.eqb c d); [|done]. by eapply starts_with_overlap.
Qed.

Lemma drop_front_app s w :
  no_overlap_bytes w = true →
  drop_front encs 0 (s +:+ w)
  = if is_empty (drop_front encs 0 s) then drop_front encs 0 w else drop_front encs 0 s +:+ w.
Proof.
  intros Hw. remember (String.length s) as n eqn:Hn. revert s Hn.
  induction (lt_wf n) as [n _ IH]. intros s ->. destruct (decide (s = "")) as [->|Hs]; [done|].
  destruct (find_prefix encs s) as [e|] eqn:Hf.
  - apply find_prefix_Some in Hf as (He & t & ->).
    rewrite str_app_assoc, (drop_front_step e t), (drop_front_step e (t +:+ w)) by done.
    refine (IH (String.length t) _ t eq_refl). rewrite str_length_app. destruct e; [done|]. cbn. lia.
  - rewrite (drop_front_stop s) by done. destruct s as [|c s]; [done|]. cbn [is_empty].
    by apply drop_front_stop, find_prefix_app.
Qed.
End drop_front.

(** ** White space *)

Definition rev_white_space : list string := Eval vm_compute in map String.rev white_space.

Lemma white_space_ne : "" ∉ white_space.
Proof. apply contains_false. reflexivity. Qed.
Lemma rev_white_space_ne : "" ∉ rev_white_space.
Proof. apply contains_false. reflexivity. Qed.

Lemma white_space_free e : e ∈ white_space → ∀ t, find_prefix white_space (e +:+ t) = Some e.
Proof. revert e. rewrite <- Forall_forall. repeat constructor. Qed.
Lemma rev_white_space_free e : e ∈ rev_white_space → ∀ t, find_prefix rev_white_space (e +:+ t) = Some e.
Proof. revert e. rewrite <- Forall_forall. repeat constructor. Qed.

Lemma white_space_no_overlap w : w ∈ white_space → no_overlap_bytes white_space w = true.
Proof. revert w. rewrite <- Forall_forall. repeat constructor. Qed.

Lemma rev_white_space_elem w : w ∈ white_space → String.rev w ∈ rev_white_space.
Proof. intros Hw. by apply (list_elem_of_fmap_2 String.rev white_space). Qed.

Lemma trim_end_eq s : trim_end s = String.rev (drop_front rev_white_space 0 (String.rev s)).
Proof. reflexivity. Qed.

Lemma trim_start_ws w s : w ∈ white_space → trim_start (w +:+ s) = trim_start s.
Proof. apply drop_front_step; auto using white_space_ne, white_space_free. Qed.

Lemma trim_end_ws w s : w ∈ white_space → trim_end (s +:+ w) = trim_end s.
Proof.
  intros Hw. rewrite !trim_end_eq, rev_app_distr, drop_front_step;
    auto using rev_white_space_ne, rev_white_space_free, rev_white_space_elem.
Qed.

Lemma trim_start_app w s :
  no_overlap_bytes white_space w = true →
  trim_start (s +:+ w) = if is_empty (trim_start s) then trim_start w else trim_start s +:+ w.
Proof. apply drop_front_app; auto using white_space_ne, white_space_free. Qed.

Lemma trim_start_only_ws w : w ∈ white_space → trim_start w = "".
Proof. intros Hw. rewrite <- (str_app_nil_r w), trim_start_ws by done. done. Qed.

(** More white space at either end is trimmed away too. *)
Lemma trim_ws_l w s : w ∈ white_space → trim (w +:+ s) = trim s.
Proof. intros Hw. unfold trim. by rewrite trim_start_ws. Qed.

Lemma trim_start_ws_r w s :
  w ∈ white_space →
  trim_start (s +:+ w) = if is_empty (trim_start s) then "" else trim_start s +:+ w.
Proof.
  intros Hw. rewrite trim_start_app by by apply white_space_no_overlap.
  by rewrite (trim_start_only_ws w).
Qed.

Lemma trim_ws_r w s : w ∈ white_space → trim (s +:+ w) = trim s.
Proof.
  intros Hw. unfold trim. rewrite trim_start_ws_r by done.
  destruct (trim_start s) as [|c t]; [done|]. cbn [is_empty]. by apply trim_end_ws.
Qed.

(** Only white space is removed. *)
Lemma trim_start_split s : ∃ ws,
  s = foldr String.append "" ws +:+ trim_start s ∧ Forall (λ w, w ∈ white_space) ws.
Proof.
  destruct (drop_front_split white_space white_space_ne white_space_free s) as (ws & Hs & Hw & _).
  by exists ws.
Qed.

Lemma foldr_app_rev ws : String.rev (foldr String.append "" (map String.rev ws))
  = foldr String.append "" (reverse ws).
Proof.
  induction ws as [|w ws IH]; [done|]. cbn [map foldr].
  rewrite rev_app_distr, rev_involutive, IH, reverse_cons, foldr_app. cbn [foldr]. generalize (reverse ws). intros l. rewrite str_app_nil_r.
  induction l as [|x l IHl]; [by rewrite str_app_nil_l|]. cbn [foldr]. by rewrite str_app_assoc, IHl.
Qed.

Lemma trim_end_split s : ∃ ws,
  s = trim_end s +:+ foldr String.append "" ws ∧ Forall (λ w, w ∈ white_space) ws.
Proof.
  destruct (drop_front_split rev_white_space rev_white_space_ne rev_white_space_free (String.rev s))
    as (ws & Hs & Hw & _).
  exists (reverse (map String.rev ws)). split.
  - apply (f_equal String.rev) in Hs. rewrite rev_involutive, rev_app_distr in Hs.
    rewrite Hs at 1. rewrite trim_end_eq. f_equal. rewrite <- foldr_app_rev. do 2 f_equal. rewrite map_map. symmetry.
    rewrite <- (map_id ws) at 2. apply map_ext. apply rev_involutive.
  - apply Forall_reverse, Forall_fmap. eapply Forall_impl; [exact Hw|]. intros w Hin.
    change rev_white_space with (map String.rev white_space) in Hin.
    apply list_elem_of_fmap in Hin as (v & -> & Hv). cbn. by rewrite rev_involutive.
Qed.

Lemma trim_ws_many_l ws s :
  Forall (λ w, w ∈ white_space) ws → trim (foldr String.append "" ws +:+ s) = trim s.
Proof.
  induction 1 as [|w ws Hw _ IH]; [done|]. cbn [foldr]. by rewrite str_app_assoc, trim_ws_l.
Qed.

Lemma trim_ws_many_r ws s :
  Forall (λ w, w ∈ white_space) ws → trim (s +:+ foldr String.append "" ws) = trim s.
Proof.
  intros Hws. revert s. induction Hws as [|w ws Hw _ IH]; intros s; cbn [foldr].
  - by rewrite str_app_nil_r.
  - by rewrite <- str_app_assoc, IH, trim_ws_r.
Qed.

Lemma trim_idem s : trim (trim s) = trim s.
Proof.
  destruct (trim_start_split s) as (ws & Hs & Hws).
  destruct (trim_end_split (trim_start s)) as (vs & Ht & Hvs). fold (trim s) in Ht.
  rewrite Hs at 2. rewrite trim_ws_many_l by done. rewrite Ht. by rewrite trim_ws_many_r.
Qed.

(** ** Splitting at a character *)

Definition char_free (c : ascii) (s : string) : bool := all_chars (λ d, negb (Ascii.eqb c d)) s.

Lemma char_free_app c x y : char_free c x = true → char_free c y = true → char_free c (x +:+ y) = true.
Proof. unfold char_free. rewrite all_chars_app. by intros -> ->. Qed.

Lemma split_char_free c s : char_free c s = true → split_char c s = [s].
Proof.
  unfold split_char. induction s as [|d s IH]; cbn; [done|]. intros [Hd Hs]%andb_true_iff.
  apply negb_true_iff in Hd. by rewrite Hd, IH.
Qed.

Lemma split_char_cons c s : ∃ h t, split_char c s = h :: t.
Proof.
  unfold split_char. destruct s as [|d s]; cbn; [by eexists _, _|].
  destruct (Ascii.eqb c d); [by eexists _, _|]. destruct (split_pred _ s); by eexists _, _.
Qed.

(** The first piece of [s] is extended by a prefix without the character. *)
Lemma split_char_prefix c w s h t :
  char_free c w = true → split_char c s = h :: t → split_char c (w +:+ s) = (w +:+ h) :: t.
Proof.
  unfold split_char. intros Hw Hs. induction w as [|d w IH]; [done|].
  cbn in Hw. apply andb_true_iff in Hw as [Hd Hw]. apply negb_true_iff in Hd.
  rewrite !str_app_cons. cbn. by rewrite Hd, IH.
Qed.

Lemma split_char_sep c s t :
  char_free c s = true → split_char c (s +:+ String c "" +:+ t) = s :: split_char c t.
Proof.
  intros Hs. rewrite (split_char_prefix c s _ "" (split_char c t)); [by rewrite str_app_nil_r|done|].
  rewrite str_app_cons, str_app_nil_l. unfold split_char. cbn. by rewrite Ascii.eqb_refl.
Qed.

(** The last piece is extended by a suffix without the character. *)
Lemma split_char_suffix c w s :
  char_free c w = true →
  ∃ i l, split_char c s = i ++ [l] ∧ split_char c (s +:+ w) = i ++ [l +:+ w].
Proof.
  intros Hw. induction s as [|d s (i & l & Hs & Hsw)].
  - exists [], "". rewrite str_app_nil_l. split; [done|]. by rewrite split_char_free.
  - rewrite str_app_cons. unfold split_char in *. cbn. rewrite Hs, Hsw.
    destruct (Ascii.eqb c d).
    + by exists ("" :: i), l.
    + destruct i as [|x i]; [by exists [], (String d l)|]. by exists (String d x :: i), l.
Qed.

Lemma join_cons sep x y l : join sep (x :: y :: l) = x +:+ sep +:+ join sep (y :: l).
Proof. reflexivity. Qed.

Lemma split_char_join c ws :
  ws ≠ [] → Forall (λ w, char_free c w = true) ws → split_char c (join (String c "") ws) = ws.
Proof.
  intros Hne Hall. induction Hall as [|w ws Hw Hall IH]; [done|].
  destruct ws as [|v ws]; [by apply split_char_free|].
  by rewrite join_cons, split_char_sep, IH.
Qed.

Lemma split_char_pieces c s : Forall (λ w, char_free c w = true) (split_char c s).
Proof.
  unfold split_char. induction s as [|d s IH]; cbn; [by repeat constructor|].
  destruct (Ascii.eqb c d) eqn:E; [by constructor|].
  destruct IH as [|w ws Hw Hws]; constructor; cbn; rewrite ?E; done.
Qed.

(** White space around the text does not change the trimmed pieces. *)
Section trimmed_pieces.
Context (c : ascii) (Hc : all (char_free c) white_space = true).

Lemma white_space_char_free ws :
  Forall (λ w, w ∈ white_space) ws → char_free c (foldr String.append "" ws) = true.
Proof.
  induction 1 as [|w ws Hw _ IH]; [done|]. cbn [foldr]. unfold char_free in *.
  rewrite all_chars_app. apply andb_true_iff. split; [|done].
  rewrite all_spec in Hc. by apply Hc.
Qed.

Lemma split_ws_l ws s :
  Forall (λ w, w ∈ white_space) ws →
  map trim (split_char c (foldr String.append "" ws +:+ s)) = map trim (split_char c s).
Proof.
  intros Hws. destruct (split_char_cons c s) as (h & t & Hs).
  rewrite (split_char_prefix c _ s h t), Hs by auto using white_space_char_free.
  cbn. by rewrite trim_ws_many_l.
Qed.

Lemma split_ws_r ws s :
  Forall (λ w, w ∈ white_space) ws →
  map trim (split_char c (s +:+ foldr String.append "" ws)) = map trim (split_char c s).
Proof.
  intros Hws. destruct (split_char_suffix c (foldr String.append "" ws) s) as (i & l & -> & ->).
  { by apply white_space_char_free. }
  rewrite !map_app. cbn. by rewrite trim_ws_many_r.
Qed.

Lemma split_trim s : map trim (split_char c (trim s)) = map trim (split_char c s).
Proof.
  destruct (trim_start_split s) as (ws & Hs & Hws).
  destruct (trim_end_split (trim_start s)) as (vs & Ht & Hvs). fold (trim s) in Ht.
  rewrite Hs at 2. rewrite split_ws_l by done. rewrite Ht. by rewrite split_ws_r.
Qed.

(** Splitting [" a | b "] gives back the trimmed cells it was printed from. *)
Lemma split_padded_join cells :
  cells ≠ [] → Forall (λ x, char_free c x = true ∧ trim x = x) cells →
  map trim (split_char c (" " +:+ trim (join (" " +:+ String c " ") cells) +:+ " ")) = cells.
Proof.
  intros Hne Hall.
  assert (Forall (λ w, w ∈ white_space) [" "]) as Hsp by by constructor; [apply contains_spec|].
  pose proof (λ s, split_ws_l [" "] s Hsp) as Hl. pose proof (λ s, split_ws_r [" "] s Hsp) as Hr.
  change (foldr String.append "" [" "]) with " " in Hl, Hr. rewrite Hl, Hr, split_trim.
  rewrite <- Hr, <- Hl.
  assert (" " +:+ join (" " +:+ String c " ") cells +:+ " "
          = join (String c "") (map (λ x, " " +:+ x +:+ " ") cells)) as ->.
  { clear -Hne. induction cells as [|x [|y l] IH]; [done|done|].
    rewrite join_cons. cbn [map]. rewrite join_cons. cbn [map] in IH. rewrite <- IH by done.
    by rewrite !str_app_assoc, !str_app_cons, !str_app_nil_l. }
  rewrite split_char_join; [|by destruct cells|].
  - rewrite map_map. rewrite <- (map_id cells) at 2. apply map_ext_Forall.
    eapply Forall_impl; [exact Hall|]. intros x [_ Hx]. cbn.
    change (" " +:+ x +:+ " ") with (" " +:+ (x +:+ " ")).
    rewrite trim_ws_l, trim_ws_r by by apply contains_spec. done.
  - apply Forall_fmap. eapply Forall_impl; [exact Hall|]. intros x [Hx _]. unfold char_free in *. cbn.
    assert (Ascii.eqb c " " = false) as Hsc.
    { rewrite all_spec in Hc. specialize (Hc " " ltac:(by apply contains_spec)).
      cbn in Hc. rewrite andb_true_r in Hc. by apply negb_true_iff. }
    rewrite !all_chars_app, Hx. cbn. by rewrite Hsc.
Qed.
End trimmed_pieces.

(** ** Lines *)

Definition unlines (ls : list string) : string := foldr (λ l s, l +:+ nl +:+ s) "" ls.

Lemma split_unlines ls last :
  Forall (λ l, char_free newline l = true) ls → char_free newline last = true →
  split_char newline (unlines ls +:+ last) = ls ++ [last].
Proof.
  intros Hls Hlast. induction Hls as [|l ls Hl _ IH]; cbn [unlines foldr].
  - rewrite str_app_nil_l. by apply split_char_free.
  - rewrite !str_app_assoc. fold (unlines ls). unfold nl. rewrite split_char_sep by done. by rewrite IH.
Qed.

Lemma finish_lines_app ls last :
  finish_lines (ls ++ [last]) = map strip_cr ls ++ if is_empty last then [] else [last].
Proof.
  induction ls as [|l ls IH]; [done|]. cbn [app map]. rewrite <- IH.
  destruct ls; reflexivity.
Qed.

Lemma lines_unlines ls last :
  Forall (λ l, char_free newline l = true) ls → char_free newline last = true →
  lines (unlines ls +:+ last) = map strip_cr ls ++ if is_empty last then [] else [last].
Proof. intros. unfold lines. rewrite split_unlines by done. apply finish_lines_app. Qed.

Lemma split_lines_inv s : ∃ ls last,
  s = unlines ls +:+ last ∧ Forall (λ l, char_free newline l = true) ls
  ∧ char_free newline last = true.
Proof.
  induction s as [|c s (ls & last & -> & Hls & Hlast)]; [by exists [], ""|].
  destruct (Ascii.eqb newline c) eqn:E.
  - apply Ascii.eqb_eq in E as <-. exists ("" :: ls), last. split_and!; [|by constructor|done].
    reflexivity.
  - destruct Hls as [|l ls Hl Hls].
    + exists [], (String c last). split_and!; [done|constructor|]. unfold char_free in *. cbn [all_chars]. by rewrite E.
    + exists (String c l :: ls), last. split_and!; [reflexivity| |done].
      constructor; [|done]. unfold char_free in *. cbn [all_chars]. by rewrite E.
Qed.

Lemma strip_cr_spec l : strip_cr l = l ∨ l = strip_cr l +:+ String carriage "".
Proof.
  unfold strip_cr, strip_suffix. destruct (strip_prefix _ (String.rev l)) as [t|] eqn:E; [|by left].
  right. cbn. apply strip_prefix_Some in E. apply (f_equal String.rev) in E.
  by rewrite rev_involutive, rev_app_distr in E.
Qed.

(** ** Printed numbers *)

Lemma pretty_N_go_chars f x : ∀ s,
  (∀ d, f (pretty_N_char d) = true) → all_chars f s = true → all_chars f (pretty_N_go x s) = true.
Proof.
  induction (N.lt_wf_0 x) as [x _ IH]; intros s Hf Hs.
  destruct (decide (x = 0)%N) as [->|Hx]; [done|].
  rewrite pretty_N_go_step by lia. apply IH; [apply N.div_lt; lia|done|].
  cbn. by rewrite Hf, Hs.
Qed.

Lemma pretty_N_digits (n : N) : all_chars is_ascii_digit (pretty n) = true.
Proof.
  assert (∀ d, is_ascii_digit (pretty_N_char d) = true) as Hd
    by (intros d; unfold pretty_N_char; by repeat case_match).
  unfold pretty, pretty_N. case_decide; [done|]. by apply pretty_N_go_chars.
Qed.

Lemma pretty_N_free c (n : N) : is_ascii_digit c = false → char_free c (pretty n) = true.
Proof.
  intros Hc. unfold char_free. eapply all_chars_impl; [|apply pretty_N_digits].
  intros d Hd. apply negb_true_iff, Ascii.eqb_neq. intros ->. congruence.
Qed.

Lemma pretty_N_go_ne x : ∀ s, s ≠ "" → pretty_N_go x s ≠ "".
Proof.
  induction (N.lt_wf_0 x) as [x _ IH]; intros s Hs.
  destruct (decide (x = 0)%N) as [->|Hx]; [done|].
  rewrite pretty_N_go_step by lia. apply IH; [apply N.div_lt; lia|done].
Qed.

Lemma pretty_N_cons (n : N) : ∃ d t, pretty n = String d t ∧ is_ascii_digit d = true.
Proof.
  assert (pretty n ≠ "") as Hne.
  { unfold pretty, pretty_N. case_decide; [done|]. rewrite pretty_N_go_step by lia. by apply pretty_N_go_ne. }
  pose proof (pretty_N_digits n) as Hd. destruct (pretty n) as [|d t]; [done|].
  cbn in Hd. apply andb_true_iff in Hd as [? _]. eauto.
Qed.

(** ** Pieces of a string have its characters *)

Section pieces.
Context (f : ascii → bool).

Lemma all_chars_rev s : all_chars f (String.rev s) = all_chars f s.
Proof.
  induction s as [|c s IH]; [done|]. rewrite rev_cons, all_chars_app, IH. cbn.
  by rewrite andb_true_r, andb_comm.
Qed.

Lemma all_chars_drop_front encs k s : all_chars f s = true → all_chars f (drop_front encs k s) = true.
Proof.
  revert k. induction s as [|c s IH]; intros k Hs; [done|]. cbn [drop_front].
  pose proof Hs as [_ Ht]%andb_true_iff. destruct k; [|auto]. destruct (find_prefix _ _); auto.
Qed.

Lemma all_chars_trim s : all_chars f s = true → all_chars f (trim s) = true.
Proof.
  intros Hs. unfold trim, trim_end, trim_start. rewrite all_chars_rev. apply all_chars_drop_front.
  rewrite all_chars_rev. by apply all_chars_drop_front.
Qed.

Lemma all_chars_trim_matches c s : all_chars f s = true → all_chars f (trim_matches c s) = true.
Proof.
  intros Hs. unfold trim_matches, trim_end_char, trim_start_char. rewrite all_chars_rev.
  apply all_chars_drop_front. rewrite all_chars_rev. by apply all_chars_drop_front.
Qed.

Lemma all_chars_split_pred g s : all_chars f s = true → Forall (λ w, all_chars f w = true) (split_pred g s).
Proof.
  induction s as [|c s IH]; intros Hs; cbn [split_pred]; [by constructor|].
  cbn [all_chars] in Hs. apply andb_true_iff in Hs as [Hc Hs]. specialize (IH Hs).
  destruct (g c); [by constructor|]. destruct IH as [|w ws Hw Hws]; constructor; cbn [all_chars]; rewrite ?Hc; done.
Qed.

Lemma all_chars_split_ws s : ∀ cur k,
  all_chars f cur = true → all_chars f s = true → Forall (λ w, all_chars f w = true) (split_ws_go cur k s).
Proof.
  assert (∀ cur rest, all_chars f cur = true → Forall (λ w, all_chars f w = true) rest →
    Forall (λ w, all_chars f w = true) (if is_empty cur then rest else cur :: rest)) as Hflush.
  { intros cur rest Hc Hr. destruct (is_empty cur); [done|by constructor]. }
  induction s as [|c s IH]; intros cur k Hcur Hs; cbn [split_ws_go]; [by apply Hflush|].
  pose proof Hs as [Hc Ht]%andb_true_iff. destruct k; [|by apply IH].
  destruct (find_prefix _ _); [by apply Hflush, IH|]. apply IH; [|done].
  rewrite all_chars_app, Hcur. cbn. by rewrite Hc.
Qed.

Lemma all_chars_map_string g s : (∀ c, f c = true → f (g c) = true) → all_chars f s = true → all_chars f (map_string g s) = true.
Proof.
  intros Hg. induction s as [|c s IH]; cbn; [done|]. intros [Hc Hs]%andb_true_iff. by rewrite Hg, IH.
Qed.

Lemma all_chars_join sep ws :
  all_chars f sep = true → Forall (λ w, all_chars f w = true) ws → all_chars f (join sep ws) = true.
Proof.
  intros Hsep. induction 1 as [|w ws Hw Hws IH]; [done|]. destruct ws as [|v ws]; [done|].
  rewrite join_cons, !all_chars_app, Hw, Hsep. by rewrite IH.
Qed.
End pieces.

Lemma char_free_rev c s : char_free c (String.rev s) = char_free c s.
Proof. apply all_chars_rev. Qed.
