(* ===== verification/PlanMd.v ===== *)
(** * The goal plan as markdown ([goal_plan_md.rs])

    The plan is written by a model and read by several parts of the harness.
    They share the primitives here: find a section, split a table row. *)

From Stdlib Require Import Ascii String.
From S2P Require Import Prelude RustStr.
From stdpp Require Import options.

Definition hash : ascii := "#".
Definition pipe : ascii := "|".

Definition is_any_header (line : string) : bool := starts_with "#" (trim_start line).

Definition is_section_header (line name : string) : bool :=
  let trimmed := trim_start line in
  starts_with "#" trimmed
  && eq_ignore_ascii_case (trim (trim_start_char hash trimmed)) name.

Definition header_level (line : string) : nat :=
  String.length (take_while (λ c, Ascii.eqb c hash) (trim_start line)).

Definition table_cells (line : string) : list string :=
  let trimmed := trim line in
  if negb (starts_with "|" trimmed) then []
  else map trim (split_char pipe (trim_matches pipe trimmed)).

Definition separator_char (c : ascii) : bool :=
  Ascii.eqb c "-" || Ascii.eqb c ":" || Ascii.eqb c " ".

Definition is_separator_row (cells : list string) : bool :=
  negb (is_nil cells)
  && all (λ c, let s := trim c in negb (is_empty s) && all_chars separator_char s) cells.

(** The loop of [section_lines]; [level] is the open section's header depth. *)
Fixpoint section_lines_go (name : string) (level : option nat) (ls : list string)
    : list string :=
  match ls with
  | [] => []
  | line :: ls =>
      match level with
      | None =>
          if is_section_header line name
          then section_lines_go name (Some (header_level line)) ls
          else section_lines_go name None ls
      | Some open =>
          if is_any_header line && (header_level line <=? open) then []
          else line :: section_lines_go name level ls
      end
  end.

Definition section_lines (body name : string) : list string :=
  section_lines_go name None (lines body).

(** ** Numbers and lists in cells ([goal_criterion_graph.rs]) *)

Definition skip_to_digit (s : string) : string :=
  match find_char is_ascii_digit s with Some i => drop_bytes i s | None => EmptyString end.

Definition parse_number (cell : string) : option N :=
  match parse_u32 (take_while is_ascii_digit (skip_to_digit (trim cell))) with
  | Some n => if negb (n =? 0)%N then Some n else None
  | None => None
  end.

Definition backquote : ascii := "`".

Definition nothing_words : list string :=
  [""; "-"; "—"; "–"; "none"; "n/a"; "na"; "nothing"; "*none*"].

Definition parse_list (cell : string) : list string :=
  let t := trim_matches backquote (trim cell) in
  if contains (to_ascii_lowercase t) nothing_words then []
  else
    bfilter (λ s, negb (is_empty s))
      (map (λ s, trim (trim_matches backquote (trim s)))
         (mjoin (map split_whitespace
            (split_pred (λ c, Ascii.eqb c "," || Ascii.eqb c ";") t)))).

(** A set-up the tests of the source use. *)
Example section_lines_stops :
  section_lines (join nl ["# Plan"; ""; "## A"; "first"; "### Deeper"; "kept"; ""; "## B"; "nope"; ""]) "a"
  = ["first"; "### Deeper"; "kept"; ""].
Proof. reflexivity. Qed.

Example table_cells_padding : table_cells "| a | b |  c |" = ["a"; "b"; "c"].
Proof. reflexivity. Qed.

Example parse_list_shapes :
  parse_list "`src/a.rs`, `src/b.rs`" = ["src/a.rs"; "src/b.rs"] ∧ parse_list "N/A" = [].
Proof. split; reflexivity. Qed.
