(* ===== verification/CriterionGraph.v ===== *)
(** * The criterion graph ([goal_criterion_graph.rs])

    Each acceptance criterion of a goal declares which criteria it depends on
    and which paths it may write. Two criteria may be worked on at the same time
    only when neither depends on the other and their write scopes are disjoint.
    This file models the contract: its parser, its validation, the waves of
    criteria that may run together, and the repair that orders conflicting
    pairs. *)

From Stdlib Require Import Ascii String.
From S2P Require Import Prelude RustStr PlanMd.
From stdpp Require Import options.

Definition SECTION : string := "criterion dependencies".

Record CriterionNode : Type := mkNode {
  number : N;
  depends_on : list N;
  write_scope : list string;
}.

Record CriterionGraph : Type := mkGraph { nodes : list CriterionNode }.

Inductive ContractViolation : Type :=
| RowCount (rows criteria : nat)
| RowNumber (position found : N)
| UnknownDependency (criterion depends_on : N)
| SelfDependency (criterion : N)
| Cycle (members : list N)
| ScopeConflict (a b : N) (scope : string).

#[export] Instance CriterionNode_eq_dec : EqDecision CriterionNode.
Proof. solve_decision. Defined.
#[export] Instance ContractViolation_eq_dec : EqDecision ContractViolation.
Proof. solve_decision. Defined.

Definition violation_message (v : ContractViolation) : string :=
  match v with
  | RowCount rows criteria =>
      "`## " +:+ SECTION +:+ "` has " +:+ pretty rows +:+ " row(s) but there are "
      +:+ pretty criteria +:+ " acceptance criteria — write exactly one row per criterion"
  | RowNumber position found =>
      "`## " +:+ SECTION +:+ "` row " +:+ pretty position +:+ " is numbered " +:+ pretty found
      +:+ " — rows must be numbered 1..N in criterion order"
  | UnknownDependency criterion depends_on =>
      "criterion " +:+ pretty criterion +:+ " depends on " +:+ pretty depends_on
      +:+ ", which is not an acceptance criterion"
  | SelfDependency criterion => "criterion " +:+ pretty criterion +:+ " depends on itself"
  | Cycle members =>
      "criteria " +:+ join ", " (map pretty members)
      +:+ " form a dependency cycle and can never start"
  | ScopeConflict a b scope =>
      "criteria " +:+ pretty a +:+ " and " +:+ pretty b +:+ " both write `" +:+ scope
      +:+ "` but neither depends on the other — give them disjoint write scopes or an explicit dependency"
  end.

Definition is_structural (v : ContractViolation) : bool :=
  match v with ScopeConflict _ _ _ => false | _ => true end.

(** ** Write scopes *)

Definition slash : ascii := "/".
Definition backslash : ascii := "\".

Definition replace_char (a b : ascii) (s : string) : string :=
  map_string (λ c, if Ascii.eqb c a then b else c) s.

Definition normalize_scope (s : string) : string :=
  let s := replace_char backslash slash (trim s) in
  trim_end_char slash (trim_start_char slash (trim_start_str "./" s)).

Definition is_wildcard (c : ascii) : bool :=
  Ascii.eqb c "*" || Ascii.eqb c "?" || Ascii.eqb c "[".

Definition literal_prefix (s : string) : string :=
  match find_char is_wildcard s with
  | None => s
  | Some i =>
      let head := take_bytes i s in
      match rfind_char slash head with
      | Some j => take_bytes j head
      | None => EmptyString
      end
  end.

Definition prefix_at_boundary (parent child : string) : bool :=
  if is_empty parent then true
  else if String.eqb parent child then true
  else match strip_prefix parent child with
       | Some rest => starts_with "/" rest
       | None => false
       end.

Definition paths_overlap (a b : string) : bool :=
  let la := literal_prefix (normalize_scope a) in
  let lb := literal_prefix (normalize_scope b) in
  prefix_at_boundary la lb || prefix_at_boundary lb la.

Fixpoint first_overlap (a b : list string) : option string :=
  match a with
  | [] => None
  | x :: a => if any (paths_overlap x) b then Some x else first_overlap a b
  end.

Definition overlapping_scope (a b : list string) : option string :=
  if is_nil a then Some "<undeclared>"
  else if is_nil b then Some "<undeclared>"
  else first_overlap a b.

(** ** The graph *)

(** [criteria as u32] *)
Definition as_u32 (n : nat) : N := N.of_nat n `mod` (u32_max + 1).

Definition serial_node (number : N) : CriterionNode :=
  {| number := number;
     depends_on := if (1 <? number)%N then [(number - 1)%N] else [];
     write_scope := [] |}.

Definition serial (criteria : nat) : CriterionGraph :=
  {| nodes := map (λ i, serial_node (N.of_nat i)) (seq 1 (N.to_nat (as_u32 criteria))) |}.

Definition deps_done (done : list N) (n : CriterionNode) : bool :=
  all (λ d, contains d done) (depends_on n).

(** The loop of [parallel_waves]. Every turn removes the ready nodes, so as many
    turns as there are nodes suffice and the fuel never runs out. *)
Fixpoint waves_go (fuel : nat) (remaining : list CriterionNode) (done : list N)
    (waves : list (list N)) : option (list (list N)) :=
  match remaining with
  | [] => Some waves
  | _ :: _ =>
      match fuel with
      | O => None
      | S fuel =>
          let ready := bfilter (deps_done done) remaining in
          let blocked := bfilter (λ n, negb (deps_done done n)) remaining in
          if is_nil ready then None
          else
            let wave := map number ready in
            waves_go fuel blocked (done ++ wave) (waves ++ [wave])
      end
  end.

Definition parallel_waves (g : CriterionGraph) : option (list (list N)) :=
  waves_go (length (nodes g)) (nodes g) [] [].

Definition find_node (g : CriterionGraph) (x : N) : option CriterionNode :=
  List.find (λ n, (number n =? x)%N) (nodes g).

(** The inner loop over a node's dependencies: either the target is among them,
    or they are all pushed (the last one ends on top). *)
Fixpoint push_deps (to : N) (deps stack : list N) : option (list N) :=
  match deps with
  | [] => Some stack
  | dep :: deps => if (dep =? to)%N then None else push_deps to deps (dep :: stack)
  end.

(** The depth-first search of [reaches]; the stack's top is the list's head. *)
Fixpoint reaches_go (fuel : nat) (g : CriterionGraph) (to : N) (stack seen : list N) : bool :=
  match fuel with
  | O => false
  | S fuel =>
      match stack with
      | [] => false
      | cur :: stack =>
          if contains cur seen then reaches_go fuel g to stack seen
          else
            let seen := seen ++ [cur] in
            match find_node g cur with
            | None => reaches_go fuel g to stack seen
            | Some node =>
                match push_deps to (depends_on node) stack with
                | None => true
                | Some stack => reaches_go fuel g to stack seen
                end
            end
      end
  end.

(** Every node is expanded at most once, so this many turns empty the stack. *)
Definition reaches_fuel (g : CriterionGraph) : nat :=
  2 + sum_list_with (λ n, length (depends_on n)) (nodes g).

Definition reaches (g : CriterionGraph) (from to : N) : bool :=
  reaches_go (reaches_fuel g) g to [from] [].

Definition ordered (g : CriterionGraph) (a b : N) : bool := reaches g a b || reaches g b a.

(** [cycle_members]: peel off every schedulable node, keep what is left. *)
Fixpoint peel (fuel : nat) (g : CriterionGraph) (done : list N) : list N :=
  match fuel with
  | O => done
  | S fuel =>
      let ready := map number
        (bfilter (deps_done done) (bfilter (λ n, negb (contains (number n) done)) (nodes g))) in
      if is_nil ready then done else peel fuel g (done ++ ready)
  end.

Definition cycle_members (g : CriterionGraph) : list N :=
  let done := peel (S (length (nodes g))) g [] in
  bfilter (λ n, negb (contains n done)) (map number (nodes g)).

Definition dep_violations (g : CriterionGraph) (node : CriterionNode) : list ContractViolation :=
  omap (λ dep,
    if (dep =? number node)%N then Some (SelfDependency (number node))
    else if negb (any (λ n, (number n =? dep)%N) (nodes g))
         then Some (UnknownDependency (number node) dep)
         else None) (depends_on node).

Definition row_violations (g : CriterionGraph) (idx : nat) (node : CriterionNode)
    : list ContractViolation :=
  let position := (as_u32 idx + 1)%N in
  (if negb (number node =? position)%N then [RowNumber position (number node)] else [])
  ++ dep_violations g node.

Definition numbering_violations (g : CriterionGraph) (criteria : nat) : list ContractViolation :=
  (if negb (length (nodes g) =? criteria) then [RowCount (length (nodes g)) criteria] else [])
  ++ mjoin (imap (row_violations g) (nodes g)).

Definition pair_conflict (g : CriterionGraph) (a b : CriterionNode) : option ContractViolation :=
  if ordered g (number a) (number b) then None
  else match overlapping_scope (write_scope a) (write_scope b) with
       | Some scope => Some (ScopeConflict (number a) (number b) scope)
       | None => None
       end.

Fixpoint scope_conflicts (g : CriterionGraph) (ns : list CriterionNode) : list ContractViolation :=
  match ns with
  | [] => []
  | a :: ns => omap (pair_conflict g a) ns ++ scope_conflicts g ns
  end.

Definition validate (g : CriterionGraph) (criteria : nat) : list ContractViolation :=
  let out := numbering_violations g criteria in
  if negb (is_nil out) then out
  else match parallel_waves g with
       | None => [Cycle (cycle_members g)]
       | Some _ => scope_conflicts g (nodes g)
       end.

(** Push [earlier] on the dependencies of the first node numbered [later]. *)
Fixpoint push_dependency (later earlier : N) (ns : list CriterionNode) : list CriterionNode :=
  match ns with
  | [] => []
  | n :: ns =>
      if (number n =? later)%N
      then mkNode (number n) (depends_on n ++ [earlier]) (write_scope n) :: ns
      else n :: push_dependency later earlier ns
  end.

Definition first_conflict (vs : list ContractViolation) : option (N * N) :=
  head (omap (λ v, match v with ScopeConflict a b _ => Some (a, b) | _ => None end) vs).

(** The loop of [serialize_conflicts]; each turn orders one conflicting pair. *)
Fixpoint serialize_go (fuel : nat) (g : CriterionGraph) (criteria : nat) : CriterionGraph :=
  match fuel with
  | O => g
  | S fuel =>
      match first_conflict (validate g criteria) with
      | None => g
      | Some (a, b) =>
          let '(earlier, later) := if (a <? b)%N then (a, b) else (b, a) in
          match find_node g later with
          | None => g
          | Some node =>
              if contains earlier (depends_on node) then g
              else serialize_go fuel (mkGraph (push_dependency later earlier (nodes g))) criteria
          end
      end
  end.

Definition serialize_conflicts (g : CriterionGraph) (criteria : nat) : CriterionGraph :=
  serialize_go (S (length (nodes g) * length (nodes g))) g criteria.

(** ** The table *)

Definition parse_row (line : string) : option CriterionNode :=
  match table_cells line with
  | c0 :: c1 :: c2 :: rest =>
      if is_separator_row (c0 :: c1 :: c2 :: rest) then None
      else match parse_number c0 with
           | Some number =>
               Some {| number := number; depends_on := omap parse_number (parse_list c1);
                       write_scope := parse_list c2 |}
           | None => None
           end
  | _ => None
  end.

Definition parse_criterion_graph (body : string) : option CriterionGraph :=
  match omap parse_row (section_lines body SECTION) with
  | [] => None
  | ns => Some {| nodes := ns |}
  end.

Definition load_criterion_graph (body : string) (criteria : nat) : CriterionGraph :=
  let graph :=
    match parse_criterion_graph body with
    | Some g => if all (λ v, negb (is_structural v)) (validate g criteria)
                then g else serial criteria
    | None => serial criteria
    end in
  serialize_conflicts graph criteria.

(** ** Waves *)

Lemma bfilter_split {A} (f : A → bool) (l : list A) :
  length (bfilter f l) + length (bfilter (λ x, negb (f x)) l) = length l.
Proof. unfold bfilter. induction l as [|x l IH]; cbn; [done|]. destruct (f x); cbn; lia. Qed.

Lemma bfilter_perm {A} (f : A → bool) (l : list A) :
  bfilter f l ++ bfilter (λ x, negb (f x)) l ≡ₚ l.
Proof.
  unfold bfilter. induction l as [|x l IH]; cbn; [done|]. destruct (f x); cbn.
  - by rewrite IH.
  - by rewrite <- Permutation_middle, IH.
Qed.

Lemma deps_done_spec done n : deps_done done n = true ↔ ∀ d, d ∈ depends_on n → d ∈ done.
Proof. unfold deps_done. rewrite all_spec. by setoid_rewrite contains_spec. Qed.

(** Specification of the waves: peel the ready nodes until none is left. *)
Inductive layering : list N → list CriterionNode → list (list N) → Prop :=
| layering_nil done : layering done [] []
| layering_cons done ns ws :
    bfilter (deps_done done) ns ≠ [] →
    layering (done ++ map number (bfilter (deps_done done) ns))
      (bfilter (λ n, negb (deps_done done n)) ns) ws →
    layering done ns (map number (bfilter (deps_done done) ns) :: ws).

Lemma waves_go_layering fuel ns done acc out :
  waves_go fuel ns done acc = Some out → ∃ ws, out = acc ++ ws ∧ layering done ns ws.
Proof.
  revert ns done acc. induction fuel as [|fuel IH]; intros [|n ns] done acc; cbn [waves_go].
  1,3: intros [= <-]; exists []; split; [by rewrite app_nil_r|constructor].
  { done. }
  destruct (is_nil _) eqn:Hr; [done|].
  intros (ws & -> & Hl)%IH. eexists (_ :: ws). rewrite <- app_assoc. split; [done|].
  constructor; [|done]. intros Hn. by rewrite Hn in Hr.
Qed.

Lemma layering_perm done ns ws : layering done ns ws → mjoin ws ≡ₚ map number ns.
Proof.
  induction 1 as [|done ns ws Hr _ IH]; [done|]. cbn. rewrite IH, <- map_app.
  apply Permutation_map, bfilter_perm.
Qed.

(** The wave a node sits in comes after the waves of all its dependencies. *)
Definition in_wave (ws : list (list N)) (i : nat) (x : N) : Prop := ∃ w, ws !! i = Some w ∧ x ∈ w.

Lemma layering_deps done ns ws n :
  layering done ns ws → n ∈ ns →
  ∃ i, in_wave ws i (number n) ∧
       ∀ d, d ∈ depends_on n → d ∈ done ∨ ∃ j, j < i ∧ in_wave ws j d.
Proof.
  induction 1 as [|done ns ws Hr _ IH]; intros Hn; [by apply elem_of_nil in Hn|].
  destruct (deps_done done n) eqn:Hd.
  - exists 0. split.
    + eexists. split; [done|]. apply list_elem_of_fmap. exists n. split; [done|].
      by apply elem_of_bfilter.
    + intros d Hdn. left. by apply (deps_done_spec _ n).
  - destruct IH as (i & (w & Hw & Hx) & Hdeps).
    { apply elem_of_bfilter. by rewrite Hd. }
    exists (S i). split; [by exists w|]. intros d Hdn.
    destruct (Hdeps d Hdn) as [[Hin|Hin]%elem_of_app|(j & Hj & w' & Hw' & Hx')].
    + by left.
    + right. exists 0. split; [lia|]. by eexists.
    + right. exists (S j). split; [lia|]. by exists w'.
Qed.

Lemma list_min_exists {A} (r : A → nat) (l : list A) :
  l ≠ [] → ∃ x, x ∈ l ∧ ∀ y, y ∈ l → r x ≤ r y.
Proof.
  induction l as [|x l IH]; [done|]. intros _. destruct l as [|y l].
  { exists x. split; [left|]. intros z ->%list_elem_of_singleton. done. }
  destruct IH as (m & Hm & Hmin); [done|]. destruct (decide (r x ≤ r m)).
  - exists x. split; [left|]. intros z [->|Hz]%elem_of_cons; [done|]. specialize (Hmin z Hz). lia.
  - exists m. split; [by right|]. intros z [->|Hz]%elem_of_cons; [lia|auto].
Qed.

(** Dependencies of [ns] are done, or nodes of [ns] of a smaller rank. *)
Definition ranked (r : N → nat) (done : list N) (ns : list CriterionNode) : Prop :=
  ∀ n d, n ∈ ns → d ∈ depends_on n →
    d ∈ done ∨ ∃ m, m ∈ ns ∧ number m = d ∧ r d < r (number n).

Lemma ranked_ready r done ns : ranked r done ns → ns ≠ [] → bfilter (deps_done done) ns ≠ [].
Proof.
  intros Hr Hne. destruct (list_min_exists (λ n, r (number n)) ns Hne) as (n & Hn & Hmin).
  enough (n ∈ bfilter (deps_done done) ns) as Hin by (intros E; rewrite E in Hin; by apply elem_of_nil in Hin).
  apply elem_of_bfilter. split; [done|]. apply deps_done_spec. intros d Hd.
  destruct (Hr n d Hn Hd) as [|(m & Hm & <- & Hlt)]; [done|]. specialize (Hmin m Hm). lia.
Qed.

Lemma ranked_step r done ns :
  ranked r done ns →
  ranked r (done ++ map number (bfilter (deps_done done) ns))
    (bfilter (λ n, negb (deps_done done n)) ns).
Proof.
  intros Hr n d [Hn _]%elem_of_bfilter Hd. destruct (Hr n d Hn Hd) as [|(m & Hm & <- & Hlt)].
  { left. apply elem_of_app. by left. }
  destruct (deps_done done m) eqn:Hdm.
  - left. apply elem_of_app. right. apply list_elem_of_fmap. exists m. split; [done|].
    by apply elem_of_bfilter.
  - right. exists m. split_and!; [|done..]. apply elem_of_bfilter. by rewrite Hdm.
Qed.

Lemma waves_go_complete r fuel ns done acc :
  length ns ≤ fuel → ranked r done ns → is_Some (waves_go fuel ns done acc).
Proof.
  revert ns done acc. induction fuel as [|fuel IH]; intros [|n ns] done acc Hf Hr;
    cbn [waves_go]; try (by eexists); [cbn in Hf; lia|].
  pose proof (ranked_ready _ _ _ Hr ltac:(done)) as Hne.
  destruct (is_nil _) eqn:Hnil; [by apply is_nil_true in Hnil|].
  apply IH; [|by apply ranked_step].
  pose proof (bfilter_split (deps_done done) (n :: ns)).
  destruct (bfilter (deps_done done) (n :: ns)); [done|]. cbn [length] in *. lia.
Qed.

(** A graph can be scheduled when some rank decreases along every dependency. *)
Definition acyclic (g : CriterionGraph) : Prop := ∃ r, ranked r [] (nodes g).

Lemma in_wave_unique ws i j x :
  NoDup (mjoin ws) → in_wave ws i x → in_wave ws j x → i = j.
Proof.
  revert i j. induction ws as [|w ws IH]; intros i j Hnd (wi & Hwi & Hxi) (wj & Hwj & Hxj); [done|].
  cbn in Hnd. apply NoDup_app in Hnd as (_ & Hdisj & Hnd).
  assert (∀ k w', ws !! k = Some w' → x ∈ w' → x ∈ w → False) as Hno.
  { intros k w' Hk Hx Hw. apply (Hdisj x Hw). apply list_elem_of_join. exists w'.
    split; [done|]. by eapply list_elem_of_lookup_2. }
  destruct i as [|i], j as [|j]; simplify_eq/=; [done|exfalso; eauto..|].
  f_equal. apply IH; [done|by exists wi|by exists wj].
Qed.

Fixpoint wave_index (ws : list (list N)) (x : N) : nat :=
  match ws with
  | [] => 0
  | w :: ws => if contains x w then 0 else S (wave_index ws x)
  end.

Lemma wave_index_in ws i x : in_wave ws i x → wave_index ws x ≤ i ∧ in_wave ws (wave_index ws x) x.
Proof.
  revert i. induction ws as [|w ws IH]; intros i (w' & Hw & Hx); [done|].
  cbn. destruct (contains x w) eqn:E.
  - apply contains_spec in E. split; [lia|]. by exists w.
  - apply contains_false in E. destruct i as [|i]; [naive_solver|].
    destruct (IH i) as [? (w'' & ? & ?)]; [by exists w'|]. split; [lia|]. by exists w''.
Qed.

Lemma wave_index_eq ws i x : NoDup (mjoin ws) → in_wave ws i x → wave_index ws x = i.
Proof. intros Hnd Hi. destruct (wave_index_in _ _ _ Hi). by eapply in_wave_unique. Qed.

Lemma in_wave_node done ns ws i x :
  layering done ns ws → in_wave ws i x → ∃ n, n ∈ ns ∧ number n = x.
Proof.
  intros Hl (w & Hw & Hx). assert (x ∈ map number ns) as (n & -> & Hn)%list_elem_of_fmap; [|eauto].
  rewrite <- (layering_perm _ _ _ Hl). apply list_elem_of_join. exists w.
  split; [done|]. by eapply list_elem_of_lookup_2.
Qed.

Lemma layering_ranked ns ws :
  NoDup (map number ns) → layering [] ns ws → ranked (wave_index ws) [] ns.
Proof.
  intros Hnd Hl n d Hn Hd. right.
  assert (NoDup (mjoin ws)) as Hndw by by rewrite (layering_perm _ _ _ Hl).
  destruct (layering_deps _ _ _ _ Hl Hn) as (i & Hi & Hdeps).
  destruct (Hdeps d Hd) as [[]%elem_of_nil|(j & Hj & Hw)].
  destruct (in_wave_node _ _ _ _ _ Hl Hw) as (m & Hm & Hmd).
  exists m. split_and!; [done..|]. by rewrite (wave_index_eq _ _ _ Hndw Hi), (wave_index_eq _ _ _ Hndw Hw).
Qed.

Lemma parallel_waves_layering g ws : parallel_waves g = Some ws → layering [] (nodes g) ws.
Proof. intros (ws' & -> & Hl)%waves_go_layering. done. Qed.

(** [parallel_waves] answers exactly on the schedulable graphs. For rows with
    distinct numbers it returns waves if and only if some rank decreases along
    every dependency; so [None] means a cycle or an unknown dependency, and the
    loop always terminates with one of the two answers. *)
Lemma parallel_waves_iff_acyclic (g : CriterionGraph) :
  NoDup (map number (nodes g)) → is_Some (parallel_waves g) ↔ acyclic g.
Proof.
  intros Hnd. split.
  - intros [ws Hws%parallel_waves_layering]. exists (wave_index ws). by apply layering_ranked.
  - intros [r Hr]. by apply (waves_go_complete r).
Qed.

(** ** Reachability *)

(** [x] has a row that names [y]. *)
Definition dep_edge (g : CriterionGraph) (x y : N) : Prop :=
  ∃ n, find_node g x = Some n ∧ y ∈ depends_on n.

Lemma find_node_Some g x n : find_node g x = Some n → n ∈ nodes g ∧ number n = x.
Proof.
  intros H. apply find_some in H as [Hin Hx]. rewrite list_elem_of_In. by apply N.eqb_eq in Hx.
Qed.

Lemma push_deps_None to deps stack : push_deps to deps stack = None ↔ to ∈ deps.
Proof.
  revert stack. induction deps as [|d deps IH]; intros stack; cbn.
  { rewrite elem_of_nil. done. }
  rewrite elem_of_cons. destruct (N.eqb_spec d to); naive_solver.
Qed.

Lemma push_deps_Some to deps stack stack' :
  push_deps to deps stack = Some stack' →
  (to ∉ deps) ∧ length stack' = length deps + length stack
  ∧ (∀ x, x ∈ stack' ↔ x ∈ deps ∨ x ∈ stack).
Proof.
  revert stack. induction deps as [|d deps IH]; intros stack; cbn.
  { intros [= <-]. set_solver. }
  destruct (N.eqb_spec d to); [done|]. intros (Hto & Hl & Hx)%IH. split_and!.
  - set_solver.
  - rewrite Hl. cbn. lia.
  - intros y. rewrite Hx. set_solver.
Qed.

Lemma reaches_go_sound fuel g to stack seen :
  reaches_go fuel g to stack seen = true → ∃ s, s ∈ stack ∧ tc (dep_edge g) s to.
Proof.
  revert stack seen. induction fuel as [|fuel IH]; intros [|cur stack] seen; cbn [reaches_go]; try done.
  destruct (contains cur seen).
  { intros (s & Hs & Ht)%IH. exists s. split; [by right|done]. }
  destruct (find_node g cur) as [n|] eqn:Hn.
  2: { intros (s & Hs & Ht)%IH. exists s. split; [by right|done]. }
  destruct (push_deps to (depends_on n) stack) as [stack'|] eqn:Hp.
  - intros (s & Hs & Ht)%IH. apply push_deps_Some in Hp as (_ & _ & Hx).
    apply Hx in Hs as [Hs|Hs]; [|exists s; split; [by right|done]].
    exists cur. split; [left|]. eapply tc_l; [by exists n|done].
  - intros _. apply push_deps_None in Hp. exists cur. split; [left|]. apply tc_once. by exists n.
Qed.

(** Dependencies of the nodes not expanded yet. *)
Definition unseen_deps (ns : list CriterionNode) (seen : list N) : nat :=
  sum_list_with (λ n, if contains (number n) seen then 0 else length (depends_on n)) ns.

Lemma contains_app x (l k : list N) : contains x (l ++ k) = contains x l || contains x k.
Proof.
  apply eq_true_iff_eq. rewrite orb_true_iff, !contains_spec. apply elem_of_app.
Qed.

Lemma unseen_deps_mono ns seen cur : unseen_deps ns (seen ++ [cur]) ≤ unseen_deps ns seen.
Proof.
  unfold unseen_deps. induction ns as [|n ns IH]; cbn; [done|].
  rewrite contains_app. destruct (contains (number n) seen); cbn; [lia|].
  destruct (contains (number n) [cur]); lia.
Qed.

Lemma unseen_deps_expand ns seen n :
  n ∈ ns → contains (number n) seen = false →
  unseen_deps ns (seen ++ [number n]) + length (depends_on n) ≤ unseen_deps ns seen.
Proof.
  intros Hn Hs. induction ns as [|m ns IH]; [by apply elem_of_nil in Hn|].
  unfold unseen_deps in *. cbn [sum_list_with]. rewrite contains_app.
  apply elem_of_cons in Hn as [<-|Hn].
  - rewrite Hs. replace (contains (number n) [number n]) with true.
    + pose proof (unseen_deps_mono ns seen (number n)). unfold unseen_deps in *. cbn. lia.
    + symmetry. apply contains_spec. left.
  - specialize (IH Hn). destruct (contains (number m) seen); cbn; [lia|].
    destruct (contains (number m) [number n]); lia.
Qed.

(** Expanded nodes lead only to nodes the search knows of, and never to [to]. *)
Definition search_inv (g : CriterionGraph) (to : N) (stack seen : list N) : Prop :=
  ∀ x y, x ∈ seen → dep_edge g x y → y ≠ to ∧ (y ∈ seen ∨ y ∈ stack).

Lemma reaches_go_complete fuel g to stack seen :
  length stack + unseen_deps (nodes g) seen < fuel →
  search_inv g to stack seen → reaches_go fuel g to stack seen = false →
  ∃ closed, (∀ x, x ∈ seen ∨ x ∈ stack → x ∈ closed) ∧ search_inv g to [] closed.
Proof.
  revert stack seen. induction fuel as [|fuel IH]; intros [|cur stack] seen Hf Hinv; try lia.
  { intros _. exists seen. split; [set_solver|done]. }
  cbn [reaches_go]. cbn [length] in Hf.
  destruct (contains cur seen) eqn:Hc.
  { apply contains_spec in Hc. intros (cl & Hcl & Hi)%IH; [|lia|].
    - exists cl. split; [set_solver|done].
    - intros x y Hx Hxy. destruct (Hinv x y Hx Hxy). set_solver. }
  destruct (find_node g cur) as [n|] eqn:Hn.
  - apply find_node_Some in Hn as Hn'. destruct Hn' as [Hin <-].
    destruct (push_deps to (depends_on n) stack) as [stack'|] eqn:Hp; [|done].
    apply push_deps_Some in Hp as (Hto & Hl & Hx).
    pose proof (unseen_deps_expand _ _ _ Hin Hc).
    intros (cl & Hcl & Hi)%IH; [|lia|].
    + exists cl. split; [set_solver|done].
    + intros x y [Hs| ->%list_elem_of_singleton]%elem_of_app Hxy.
      * destruct (Hinv x y Hs Hxy). set_solver.
      * destruct Hxy as (n' & Hn' & Hy). simplify_eq. split; [set_solver|right; set_solver].
  - pose proof (unseen_deps_mono (nodes g) seen cur).
    intros (cl & Hcl & Hi)%IH; [|lia|].
    + exists cl. split; [set_solver|done].
    + intros x y [Hs| ->%list_elem_of_singleton]%elem_of_app Hxy.
      * destruct (Hinv x y Hs Hxy). set_solver.
      * destruct Hxy as (n' & Hn' & _). congruence.
Qed.

Lemma unseen_deps_nil g : unseen_deps (nodes g) [] = sum_list_with (λ n, length (depends_on n)) (nodes g).
Proof. done. Qed.

Lemma reaches_spec (g : CriterionGraph) (from to : N) :
  reaches g from to = true ↔ tc (dep_edge g) from to.
Proof.
  unfold reaches. split.
  - intros (s & ->%list_elem_of_singleton & Ht)%reaches_go_sound. done.
  - intros Ht. destruct (reaches_go _ _ _ _ _) eqn:Hf; [done|].
    apply reaches_go_complete in Hf as (cl & Hcl & Hi).
    + assert (from ∈ cl) as Hin by (apply Hcl; right; left). clear Hcl.
      induction Ht as [x y Hxy|x y z Hxy _ IH]; [by destruct (Hi x y Hin Hxy)|].
      apply IH; [done|]. by destruct (Hi x y Hin Hxy) as [_ [?|[]%elem_of_nil]].
    + rewrite unseen_deps_nil. unfold reaches_fuel. cbn. lia.
    + intros x y []%elem_of_nil.
Qed.

(** [reaches] decides transitive dependency. Within its fuel the depth-first
    search answers [true] exactly when a path of one or more declared
    dependencies leads from [from] to [to]; cycles and unknown numbers
    included. *)
Lemma reaches_iff_path (g : CriterionGraph) (from to : N) :
  reaches g from to = true ↔ tc (dep_edge g) from to.
Proof. apply reaches_spec. Qed.

Lemma parallel_waves_iff_acyclic_witness :
  NoDup (map number (nodes (serial 3)))
  ∧ (is_Some (parallel_waves (serial 3)) ↔ acyclic (serial 3)) ∧ acyclic (serial 3).
Proof.
  assert (NoDup (map number (nodes (serial 3)))) as Hnd by (apply (bool_decide_eq_true_1 _); by vm_compute).
  split; [exact Hnd|]. pose proof (parallel_waves_iff_acyclic (serial 3) Hnd) as Hw.
  split; [exact Hw|]. apply Hw. eexists. by vm_compute.
Defined.
