(* ===== verification/GraphSchedule.v ===== *)
(** * Scheduling by the criterion graph

    The theorems about validation, conflict repair and loading of the graph of
    [CriterionGraph]: what an empty violation list guarantees about the criteria
    that share a wave, and why the graph [load_criterion_graph] returns always
    validates clean, whatever the plan says. *)

From Stdlib Require Import Ascii String.
From S2P Require Import Prelude RustStr PlanMd CriterionGraph.
From stdpp Require Import options.

(** ** Paths *)

Lemma prefix_at_boundary_spec p f :
  prefix_at_boundary p f = true ↔ p = "" ∨ p = f ∨ ∃ r, f = p +:+ "/" +:+ r.
Proof.
  unfold prefix_at_boundary. destruct p as [|c p].
  { cbn. split; [by left|done]. }
  cbn [is_empty]. destruct (String.eqb_spec (String c p) f) as [|Hne]; [naive_solver|].
  destruct (strip_prefix (String c p) f) as [rest|] eqn:Hs.
  - apply strip_prefix_Some in Hs as ->. rewrite starts_with_spec. split.
    + intros [r ->]. right. right. by exists r.
    + intros [|[|[r Hr]]]; [done..|]. exists r. by apply str_app_inj_l in Hr.
  - split; [done|]. intros [|[|[r ->]]]; [done..|]. by rewrite strip_prefix_app in Hs.
Qed.

Lemma app_prefix_comparable (p q r s : string) :
  p +:+ r = q +:+ s → (∃ t, q = p +:+ t) ∨ (∃ t, p = q +:+ t).
Proof.
  revert q. induction p as [|c p IH]; intros q; [left; by exists q|].
  destruct q as [|d q]; [right; by exists (String c p)|].
  rewrite !str_app_cons. intros [= -> H]. destruct (IH q H) as [[t ->]|[t ->]]; [left|right]; by exists t.
Qed.

Lemma prefix_at_boundary_comparable p q f :
  prefix_at_boundary p f = true → prefix_at_boundary q f = true →
  prefix_at_boundary p q = true ∨ prefix_at_boundary q p = true.
Proof.
  rewrite !prefix_at_boundary_spec.
  intros [->|[->|[r ->]]] [->|[->|[s Hs]]]; eauto 6.
  destruct (app_prefix_comparable _ _ _ _ Hs) as [[t ->]|[t ->]];
    rewrite !str_app_assoc in Hs; apply str_app_inj_l in Hs; destruct t as [|c t];
    rewrite ?str_app_nil_r; eauto; rewrite !str_app_cons in *; injection Hs as ? ?; subst; eauto 6.
Qed.

(** A file a scope may write: one at or below the scope's literal directory. *)
Definition in_scope (scope file : string) : Prop :=
  prefix_at_boundary (literal_prefix (normalize_scope scope)) file = true.

Lemma paths_overlap_sound a b file :
  paths_overlap a b = false → in_scope a file → ¬ in_scope b file.
Proof.
  unfold paths_overlap, in_scope. intros [Ha Hb]%orb_false_iff Hfa Hfb.
  destruct (prefix_at_boundary_comparable _ _ _ Hfa Hfb); congruence.
Qed.

Lemma first_overlap_None a b :
  first_overlap a b = None ↔ ∀ x y, x ∈ a → y ∈ b → paths_overlap x y = false.
Proof.
  induction a as [|x a IH]; cbn.
  { split; [|done]. intros _ x y Hx. by apply elem_of_nil in Hx. }
  destruct (any (paths_overlap x) b) eqn:E.
  - apply any_spec in E as (y & Hy & Ho). split; [done|].
    intros H. rewrite (H x y) in Ho; [done|left|done].
  - rewrite IH. split; [|intros H x' y Hx Hy; apply H; [by right|done]].
    intros H x' y [->|Hx]%elem_of_cons Hy; [|auto].
    destruct (paths_overlap x y) eqn:Eo; [|done].
    apply not_true_iff_false in E. exfalso. apply E. apply any_spec. eauto.
Qed.

(** Disjoint write scopes: both declared, and no file lies in both. *)
Definition scopes_disjoint (a b : list string) : Prop :=
  a ≠ [] ∧ b ≠ [] ∧
  ∀ x y file, x ∈ a → y ∈ b → in_scope x file → ¬ in_scope y file.

Lemma overlapping_scope_None a b : overlapping_scope a b = None → scopes_disjoint a b.
Proof.
  unfold overlapping_scope, scopes_disjoint. destruct a as [|x a]; [done|].
  destruct b as [|y b]; [done|]. cbn [is_nil]. rewrite first_overlap_None.
  intros H. split_and!; [done..|]. eauto using paths_overlap_sound.
Qed.

Lemma scopes_disjoint_sym a b : scopes_disjoint a b → scopes_disjoint b a.
Proof. intros (? & ? & Hd). split_and!; [done..|]. intros x y file Hx Hy Hfx Hfy. by apply (Hd y x file). Qed.

(** The segment test does not resolve [..]: a file two criteria write under
    different spellings is not seen as shared. *)
Lemma dotdot_overlap_is_missed : paths_overlap "src/../lib.rs" "lib.rs" = false.
Proof. reflexivity. Qed.

(** ** What an empty violation list says *)

Lemma mjoin_imap_nil {A B} (f : nat → A → list B) (l : list A) :
  mjoin (imap f l) = [] ↔ ∀ i x, l !! i = Some x → f i x = [].
Proof.
  revert f. induction l as [|x l IH]; intros f; cbn; [done|].
  rewrite app_nil, IH. split.
  - intros [H0 H] [|i] y Hy; simplify_eq/=; [done|]. by apply (H i).
  - intros H. split; [by apply (H 0)|]. intros i y Hy. by apply (H (S i)).
Qed.

Lemma omap_nil {A B} (f : A → option B) (l : list A) :
  omap f l = [] ↔ ∀ x, x ∈ l → f x = None.
Proof.
  induction l as [|x l IH]; cbn.
  { split; [|done]. intros _ x Hx. by apply elem_of_nil in Hx. }
  setoid_rewrite elem_of_cons. destruct (f x) eqn:E; [split; [done|]; intros H; specialize (H x); naive_solver|].
  rewrite IH. naive_solver.
Qed.

Definition known_deps (g : CriterionGraph) : Prop :=
  ∀ n d, n ∈ nodes g → d ∈ depends_on n → d ≠ number n ∧ d ∈ map number (nodes g).

Definition well_numbered (g : CriterionGraph) (criteria : nat) : Prop :=
  map number (nodes g) = map N.of_nat (seq 1 criteria).

Lemma dep_violations_nil g n :
  dep_violations g n = [] ↔ ∀ d, d ∈ depends_on n → d ≠ number n ∧ d ∈ map number (nodes g).
Proof.
  unfold dep_violations. rewrite omap_nil. apply forall_proper. intros d.
  apply forall_proper. intros Hd. destruct (N.eqb_spec d (number n)) as [|Hne]; [naive_solver|].
  destruct (any _ (nodes g)) eqn:E; cbn.
  - apply any_spec in E as (m & Hm & <-%N.eqb_eq). split; [|done]. intros _. split; [done|].
    apply list_elem_of_fmap. by exists m.
  - split; [done|]. intros [_ (m & -> & Hm)%list_elem_of_fmap].
    apply not_true_iff_false in E. exfalso. apply E. apply any_spec. exists m. by rewrite N.eqb_refl.
Qed.

Lemma as_u32_small n : (N.of_nat n ≤ u32_max)%N → as_u32 n = N.of_nat n.
Proof. intros H. unfold as_u32. apply N.mod_small. lia. Qed.

Section numbering.
#[local] Set Default Proof Using "Type*".
Context (g : CriterionGraph) (criteria : nat) (Hsmall : (N.of_nat criteria ≤ u32_max)%N).

Lemma row_violations_nil i n :
  i < criteria →
  row_violations g i n = [] ↔
    number n = N.of_nat (S i) ∧
    ∀ d, d ∈ depends_on n → d ≠ number n ∧ d ∈ map number (nodes g).
Proof.
  intros Hi. unfold row_violations. rewrite app_nil, dep_violations_nil, as_u32_small by lia.
  destruct (N.eqb_spec (number n) (N.of_nat i + 1)); cbn; split; intros [? ?];
    (split; [try lia; done|done]).
Qed.

Lemma numbering_violations_nil :
  numbering_violations g criteria = [] ↔ well_numbered g criteria ∧ known_deps g.
Proof.
  unfold numbering_violations, well_numbered, known_deps. rewrite app_nil, mjoin_imap_nil.
  destruct (Nat.eqb_spec (length (nodes g)) criteria) as [Hl|Hl]; cbn.
  - split.
    + intros [_ H]. split.
      * apply list_eq. intros i. rewrite !list_lookup_fmap.
        destruct (nodes g !! i) as [n|] eqn:Hn; cbn.
        -- pose proof (lookup_lt_Some _ _ _ Hn). specialize (H i n Hn).
           apply row_violations_nil in H as [-> _]; [|lia].
           rewrite lookup_seq_lt by lia. done.
        -- apply lookup_ge_None in Hn. rewrite lookup_seq_ge by lia. done.
      * intros n d (i & Hi)%list_elem_of_lookup Hd. specialize (H i n Hi).
        pose proof (lookup_lt_Some _ _ _ Hi).
        apply row_violations_nil in H as [_ H]; [auto|lia].
    + intros [Hnum Hdeps]. split; [done|]. intros i n Hn.
      pose proof (lookup_lt_Some _ _ _ Hn). apply row_violations_nil; [lia|]. split.
      * assert (map number (nodes g) !! i = Some (number n)) as E.
        { rewrite list_lookup_fmap. by rewrite Hn. }
        rewrite Hnum, list_lookup_fmap, lookup_seq_lt in E by lia. by injection E.
      * intros d Hd. apply Hdeps; [by eapply list_elem_of_lookup_2|done].
  - split; [by intros [? _]|]. intros [Hnum _]. exfalso. apply Hl.
    apply (f_equal length) in Hnum. by rewrite !length_map, length_seq in Hnum.
Qed.
End numbering.
#[local] Set Default Proof Using "Type".

Lemma scope_conflicts_nil g ns :
  scope_conflicts g ns = [] ↔
    ∀ i j a b, i < j → ns !! i = Some a → ns !! j = Some b → pair_conflict g a b = None.
Proof.
  induction ns as [|n ns IH]; cbn [scope_conflicts]; [done|].
  rewrite app_nil, omap_nil, IH. split.
  - intros [H0 H] [|i] [|j] a b Hij Ha Hb; try lia; simplify_eq/=.
    + apply H0. by eapply list_elem_of_lookup_2.
    + apply (H i j); [lia|done..].
  - intros H. split.
    + intros x (j & Hj)%list_elem_of_lookup. by apply (H 0 (S j)); [lia|..].
    + intros i j a b Hij Ha Hb. by apply (H (S i) (S j)); [lia|..].
Qed.

Lemma validate_nil g criteria :
  validate g criteria = [] ↔
    numbering_violations g criteria = [] ∧ is_Some (parallel_waves g)
    ∧ scope_conflicts g (nodes g) = [].
Proof.
  unfold validate. destruct (is_nil (numbering_violations g criteria)) eqn:E; cbn.
  - apply is_nil_true in E. destruct (parallel_waves g); naive_solver.
  - split; [intros H; by rewrite H in E|]. intros [H _]. by rewrite H in E.
Qed.

(** ** Members of one wave *)

Lemma tc_rank r g x y : ranked r [] (nodes g) → tc (dep_edge g) x y → r y < r x.
Proof.
  intros Hr. assert (∀ x y, dep_edge g x y → r y < r x) as Hedge.
  { intros u v (n & Hn & Hv). apply find_node_Some in Hn as [Hn <-].
    destruct (Hr n v Hn Hv) as [[]%elem_of_nil|(m & _ & <- & Hlt)]. done. }
  induction 1 as [u v|u v w Huv _ IH]; [auto|]. specialize (Hedge _ _ Huv). lia.
Qed.

Lemma well_numbered_NoDup g k : well_numbered g k → NoDup (map number (nodes g)).
Proof. intros ->. apply (NoDup_fmap_2 N.of_nat), NoDup_seq. Qed.

Lemma ordered_spec g a b :
  ordered g a b = true ↔ tc (dep_edge g) a b ∨ tc (dep_edge g) b a.
Proof. unfold ordered. by rewrite orb_true_iff, !reaches_spec. Qed.

Lemma pair_conflict_None g a b :
  pair_conflict g a b = None →
  ordered g (number a) (number b) = true ∨ scopes_disjoint (write_scope a) (write_scope b).
Proof.
  unfold pair_conflict. destruct (ordered g _ _); [by left|].
  destruct (overlapping_scope _ _) eqn:E; [done|]. right. by apply overlapping_scope_None.
Qed.

Lemma ordered_comm g a b : ordered g a b = ordered g b a.
Proof. apply orb_comm. Qed.

Lemma scope_conflicts_nil_pair g a b :
  scope_conflicts g (nodes g) = [] → a ∈ nodes g → b ∈ nodes g → number a ≠ number b →
  ordered g (number a) (number b) = true ∨ scopes_disjoint (write_scope a) (write_scope b).
Proof.
  rewrite scope_conflicts_nil.
  intros Hc (i & Hi)%list_elem_of_lookup (j & Hj)%list_elem_of_lookup Hne.
  destruct (Nat.lt_trichotomy i j) as [Hij|[->|Hij]].
  - by apply pair_conflict_None, (Hc i j).
  - congruence.
  - destruct (pair_conflict_None g b a) as [Ho|Hd].
    + by apply (Hc j i).
    + left. by rewrite ordered_comm.
    + right. by apply scopes_disjoint_sym.
Qed.

Lemma clean_wave_independent (g : CriterionGraph) (criteria : nat)
    (ws : list (list N)) (w : list N) (a b : CriterionNode) :
  (N.of_nat criteria ≤ u32_max)%N → validate g criteria = [] →
  parallel_waves g = Some ws → w ∈ ws →
  a ∈ nodes g → b ∈ nodes g → number a ∈ w → number b ∈ w → number a ≠ number b →
  ¬ tc (dep_edge g) (number a) (number b) ∧ ¬ tc (dep_edge g) (number b) (number a)
  ∧ scopes_disjoint (write_scope a) (write_scope b).
Proof.
  intros Hk (Hnum & _ & Hc)%validate_nil Hws%parallel_waves_layering (i & Hw)%list_elem_of_lookup
    Ha Hb Haw Hbw Hne.
  apply numbering_violations_nil in Hnum as [Hn _]; [|done].
  apply well_numbered_NoDup in Hn as Hnd.
  pose proof (layering_ranked _ _ Hnd Hws) as Hr.
  assert (NoDup (mjoin ws)) as Hndw by by rewrite (layering_perm _ _ _ Hws).
  assert (∀ x, x ∈ w → wave_index ws x = i) as Hi.
  { intros x Hx. apply wave_index_eq; [done|]. by exists w. }
  assert (∀ x y, x ∈ w → y ∈ w → ¬ tc (dep_edge g) x y) as Hno.
  { intros x y Hx Hy Ht. apply (tc_rank _ _ _ _ Hr) in Ht. rewrite !Hi in Ht by done. lia. }
  split_and!; [by apply Hno..|].
  destruct (scope_conflicts_nil_pair g a b) as [[Ht|Ht]%ordered_spec|]; try done; by apply Hno in Ht.
Qed.

(** Two different criteria that a clean graph puts in one wave can be worked
    on together. Neither depends on the other, directly or through any chain,
    both declare a write scope, and no file lies within a scope of each. *)
Lemma wave_members_are_disjoint (g : CriterionGraph) (criteria : nat)
    (ws : list (list N)) (w : list N) (a b : CriterionNode) :
  (N.of_nat criteria ≤ u32_max)%N → validate g criteria = [] →
  parallel_waves g = Some ws → w ∈ ws →
  a ∈ nodes g → b ∈ nodes g → number a ∈ w → number b ∈ w → number a ≠ number b →
  ¬ tc (dep_edge g) (number a) (number b) ∧ ¬ tc (dep_edge g) (number b) (number a)
  ∧ scopes_disjoint (write_scope a) (write_scope b).
Proof. apply clean_wave_independent. Qed.

(** ** Ordering a conflicting pair *)

Section push.
Context (later earlier : N).

Lemma push_numbers ns : map number (push_dependency later earlier ns) = map number ns.
Proof. induction ns as [|n ns IH]; cbn; [done|]. destruct (_ =? _)%N; cbn; by rewrite ?IH. Qed.

Lemma push_elem_of n ns :
  n ∈ push_dependency later earlier ns →
  n ∈ ns ∨ ∃ m, m ∈ ns ∧ number m = later ∧ number n = later
                 ∧ depends_on n = depends_on m ++ [earlier].
Proof.
  induction ns as [|m ns IH]; cbn; [by intros ?%elem_of_nil|].
  destruct (N.eqb_spec (number m) later).
  - intros [->|Hn]%elem_of_cons; [right|left; by right].
    exists m. split_and!; [left|done..].
  - intros [->|Hn]%elem_of_cons; [left; left|].
    destruct (IH Hn) as [|(k & ? & ?)]; [left; by right|]. right. exists k. split; [by right|done].
Qed.

Lemma push_find x ns :
  List.find (λ n, (number n =? x)%N) (push_dependency later earlier ns)
  = (λ n, if (x =? later)%N then mkNode (number n) (depends_on n ++ [earlier]) (write_scope n) else n)
      <$> List.find (λ n, (number n =? x)%N) ns.
Proof.
  induction ns as [|n ns IH]; cbn; [done|]. destruct (N.eqb_spec (number n) later) as [<-|Hl]; cbn.
  - destruct (N.eqb_spec (number n) x) as [<-|Hx]; cbn; [by rewrite N.eqb_refl|].
    destruct (N.eqb_spec x (number n)); [by subst|]. by destruct (List.find _ ns).
  - rewrite IH. destruct (N.eqb_spec (number n) x) as [<-|Hx]; cbn; [|done].
    by apply N.eqb_neq in Hl as ->.
Qed.

Context (g : CriterionGraph).
Let g' := mkGraph (push_dependency later earlier (nodes g)).

Lemma push_length : length (nodes g') = length (nodes g).
Proof. rewrite <- (length_map number), <- (length_map number (nodes g)). cbn. by rewrite push_numbers. Qed.

Lemma push_edge x y :
  is_Some (find_node g later) →
  dep_edge g' x y ↔ dep_edge g x y ∨ x = later ∧ y = earlier.
Proof.
  intros [m Hm]. unfold dep_edge, find_node in *. cbn [nodes g']. rewrite push_find. split.
  - intros (n' & (n & Hn & ->)%fmap_Some_1 & Hy). destruct (N.eqb_spec x later) as [->|].
    + cbn in Hy. apply elem_of_app in Hy as [?| ->%list_elem_of_singleton]; [left; eauto|by right].
    + left; eauto.
  - intros [(n & Hn & Hy)|[-> ->]]; [rewrite Hn|rewrite Hm]; cbn; (eexists; split; [done|]);
      [|rewrite N.eqb_refl; cbn; set_solver].
    destruct (_ =? _)%N; cbn; set_solver.
Qed.

Lemma push_ordered_mono a b :
  is_Some (find_node g later) → ordered g a b = true → ordered g' a b = true.
Proof.
  intros Hs. rewrite !ordered_spec.
  assert (∀ x y, tc (dep_edge g) x y → tc (dep_edge g') x y) as Hmono; [|naive_solver].
  intros x y. induction 1 as [u v Huv|u v w Huv _ IH]; [apply tc_once|eapply tc_l; [|exact IH]];
    apply push_edge; eauto.
Qed.

Lemma push_ordered_new : is_Some (find_node g later) → ordered g' earlier later = true.
Proof. intros Hs. apply ordered_spec. right. apply tc_once, push_edge; eauto. Qed.
End push.

(** ** Repairing every conflict *)

(** What the graph satisfies all along the repair. *)
Record schedulable (g : CriterionGraph) (criteria : nat) : Prop := mkSchedulable {
  sched_numbered : well_numbered g criteria;
  sched_known : known_deps g;
  sched_acyclic : acyclic g;
}.

Lemma schedulable_NoDup g k : schedulable g k → NoDup (map number (nodes g)).
Proof. intros H. eapply well_numbered_NoDup, H. Qed.

Lemma schedulable_waves g k : schedulable g k → is_Some (parallel_waves g).
Proof. intros [_ _ [r Hr]]. by apply (waves_go_complete r). Qed.

Lemma schedulable_validate g k :
  (N.of_nat k ≤ u32_max)%N → schedulable g k → validate g k = scope_conflicts g (nodes g).
Proof.
  intros Hk Hs. unfold validate.
  replace (numbering_violations g k) with (@nil ContractViolation).
  - cbn. destruct (schedulable_waves _ _ Hs) as [ws ->]. done.
  - symmetry. apply numbering_violations_nil; [done|]. split; apply Hs.
Qed.

Lemma find_node_NoDup g n :
  NoDup (map number (nodes g)) → n ∈ nodes g → find_node g (number n) = Some n.
Proof.
  unfold find_node. induction (nodes g) as [|m ns IH]; [by intros _ ?%elem_of_nil|].
  cbn. intros [Hm Hnd]%NoDup_cons [<-|Hn]%elem_of_cons; [by rewrite N.eqb_refl|].
  destruct (N.eqb_spec (number m) (number n)) as [E|]; [|auto].
  exfalso. apply Hm. rewrite E. apply list_elem_of_fmap. by exists n.
Qed.

Lemma node_edge g n d :
  NoDup (map number (nodes g)) → n ∈ nodes g → d ∈ depends_on n → dep_edge g (number n) d.
Proof. intros Hnd Hn Hd. exists n. split; [by apply find_node_NoDup|done]. Qed.

(** The rank that stays valid when [later] starts to depend on [earlier]: what
    reaches [later] is lifted above [earlier]. *)
Definition lifted_rank (g : CriterionGraph) (r : N → nat) (later earlier x : N) : nat :=
  r x + if (x =? later)%N || reaches g x later then S (r earlier) else 0.

Lemma lifted_rank_edge g r later earlier x y :
  dep_edge g x y → r y < r x → lifted_rank g r later earlier y < lifted_rank g r later earlier x.
Proof.
  intros Hxy Hlt. unfold lifted_rank.
  destruct ((y =? later)%N || reaches g y later) eqn:Hy; [|lia].
  replace ((x =? later)%N || reaches g x later) with true; [lia|]. symmetry.
  apply orb_true_iff. right. apply reaches_spec.
  apply orb_true_iff in Hy as [->%N.eqb_eq|Hy%reaches_spec]; [by apply tc_once|by eapply tc_l].
Qed.

Lemma lifted_rank_new g r later earlier :
  later ≠ earlier → reaches g earlier later = false →
  lifted_rank g r later earlier earlier < lifted_rank g r later earlier later.
Proof.
  intros Hne Hr. unfold lifted_rank. rewrite Hr, N.eqb_refl.
  apply not_eq_sym, N.eqb_neq in Hne as ->. cbn. lia.
Qed.

(** One more dependency keeps a graph acyclic when it closes no cycle. *)
Lemma push_acyclic g later earlier :
  NoDup (map number (nodes g)) → acyclic g → earlier ∈ map number (nodes g) →
  later ≠ earlier → reaches g earlier later = false →
  acyclic (mkGraph (push_dependency later earlier (nodes g))).
Proof.
  intros Hnd [r Hr] He Hne Ho. exists (lifted_rank g r later earlier). intros n d Hin Hd. right. cbn in Hin.
  assert (d ∈ map number (nodes g) ∧
          lifted_rank g r later earlier d < lifted_rank g r later earlier (number n)) as [Hdn Hlt].
  { assert (∀ m, m ∈ nodes g → d ∈ depends_on m → d ∈ map number (nodes g) ∧
      lifted_rank g r later earlier d < lifted_rank g r later earlier (number m)) as Hold.
    { intros m Hm Hdm. destruct (Hr m d Hm Hdm) as [[]%elem_of_nil|(k & Hk & <- & ?)].
      split; [apply list_elem_of_fmap; by exists k|]. by apply lifted_rank_edge; [apply node_edge|]. }
    apply push_elem_of in Hin as [Hin|(m & Hm & Hml & Hnl & Hdeps)]; [by apply Hold|].
    rewrite Hdeps in Hd. apply elem_of_app in Hd as [Hd| ->%list_elem_of_singleton].
    - destruct (Hold m Hm Hd) as [? Hm']. rewrite Hnl. by rewrite Hml in Hm'.
    - rewrite Hnl. split; [done|by apply lifted_rank_new]. }
  rewrite <- (push_numbers later earlier (nodes g)) in Hdn.
  apply list_elem_of_fmap in Hdn as (m & -> & Hm). by exists m.
Qed.

Lemma push_schedulable g k later earlier :
  schedulable g k → later ∈ map number (nodes g) → earlier ∈ map number (nodes g) →
  later ≠ earlier → ordered g earlier later = false →
  schedulable (mkGraph (push_dependency later earlier (nodes g))) k.
Proof.
  intros Hs Hl He Hne [Ho _]%orb_false_iff. pose proof (schedulable_NoDup _ _ Hs) as Hnd.
  destruct Hs as [Hn Hk Hr]. split.
  - unfold well_numbered. cbn. by rewrite push_numbers.
  - intros n d Hin Hd. cbn. rewrite push_numbers.
    apply push_elem_of in Hin as [Hin|(m & Hm & Hml & Hnl & Hdeps)]; [by apply (Hk n)|].
    rewrite Hdeps in Hd. apply elem_of_app in Hd as [Hd| ->%list_elem_of_singleton].
    + destruct (Hk m d Hm Hd). split; [congruence|done].
    + split; [congruence|done].
  - by apply push_acyclic.
Qed.

(** Pairs of criteria neither of which depends on the other: each turn of the
    repair removes one at least. *)
Definition unordered_pairs (g : CriterionGraph) : nat :=
  length (bfilter (λ '(a, b), negb (ordered g a b))
    (list_prod (map number (nodes g)) (map number (nodes g)))).

Lemma bfilter_length_le {A} (f h : A → bool) l :
  (∀ x, h x = true → f x = true) → length (bfilter h l) ≤ length (bfilter f l).
Proof.
  unfold bfilter. intros H. induction l as [|x l IH]; cbn; [done|].
  specialize (H x). destruct (h x), (f x); cbn; try lia; by discriminate H.
Qed.

Lemma bfilter_length_lt {A} (f h : A → bool) l x :
  (∀ x, h x = true → f x = true) → x ∈ l → f x = true → h x = false →
  length (bfilter h l) < length (bfilter f l).
Proof.
  intros H Hx Hf Hh. pose proof (bfilter_length_le f h) as Hle. unfold bfilter in *.
  induction l as [|y l IH]; [by apply elem_of_nil in Hx|]. specialize (Hle l H). cbn.
  apply elem_of_cons in Hx as [<-|Hx].
  - rewrite Hf, Hh. cbn. lia.
  - specialize (IH Hx). specialize (H y). destruct (h y), (f y); cbn; try lia; by discriminate H.
Qed.

Lemma unordered_pairs_bound g : unordered_pairs g ≤ length (nodes g) * length (nodes g).
Proof.
  unfold unordered_pairs. etrans; [apply bfilter_length|].
  by rewrite length_prod, !length_map.
Qed.

Lemma push_unordered_pairs g later earlier :
  is_Some (find_node g later) → later ∈ map number (nodes g) → earlier ∈ map number (nodes g) →
  ordered g earlier later = false →
  unordered_pairs (mkGraph (push_dependency later earlier (nodes g))) < unordered_pairs g.
Proof.
  intros Hs Hl He Ho. unfold unordered_pairs. cbn [nodes]. rewrite push_numbers.
  apply (bfilter_length_lt _ _ _ (earlier, later)).
  - intros [a b]. rewrite !negb_true_iff. intros Hf. apply not_true_iff_false. intros Ht.
    apply (push_ordered_mono later earlier) in Ht; [congruence|done].
  - apply list_elem_of_In, in_prod; by apply list_elem_of_In.
  - by rewrite Ho.
  - by rewrite push_ordered_new.
Qed.

(** Same rows: what the repair never changes. *)
Definition same_rows (g g' : CriterionGraph) : Prop :=
  map number (nodes g') = map number (nodes g) ∧
  map write_scope (nodes g') = map write_scope (nodes g) ∧
  ∀ x y, dep_edge g x y → dep_edge g' x y.

Lemma push_write_scopes later earlier ns :
  map write_scope (push_dependency later earlier ns) = map write_scope ns.
Proof. induction ns as [|n ns IH]; cbn; [done|]. destruct (_ =? _)%N; cbn; by rewrite ?IH. Qed.

Lemma scope_conflicts_all_conflicts g ns v :
  v ∈ scope_conflicts g ns → ∃ a b s, v = ScopeConflict (number a) (number b) s
    ∧ ∃ i j, i < j ∧ ns !! i = Some a ∧ ns !! j = Some b ∧ ordered g (number a) (number b) = false.
Proof.
  induction ns as [|n ns IH]; cbn; [by intros ?%elem_of_nil|].
  intros [(b & Hb & Hv)%list_elem_of_omap|Hv]%elem_of_app.
  - unfold pair_conflict in Hv. destruct (ordered g _ _) eqn:Ho; [done|].
    destruct (overlapping_scope _ _) as [s|]; [|done]. injection Hv as <-.
    apply list_elem_of_lookup in Hb as [j Hj].
    exists n, b, s. split; [done|]. exists 0, (S j). split_and!; [lia|done..].
  - destruct (IH Hv) as (a & b & s & -> & i & j & Hij & Hi & Hj & Ho).
    exists a, b, s. split; [done|]. exists (S i), (S j). split_and!; [lia|done..].
Qed.

Lemma first_conflict_None g ns : first_conflict (scope_conflicts g ns) = None → scope_conflicts g ns = [].
Proof.
  unfold first_conflict. destruct (scope_conflicts g ns) as [|v vs] eqn:E; [done|].
  destruct (scope_conflicts_all_conflicts g ns v) as (a & b & s & -> & _); [rewrite E; left|]. done.
Qed.

Lemma first_conflict_Some g ns a b :
  first_conflict (scope_conflicts g ns) = Some (a, b) →
  ∃ i j n m, i < j ∧ ns !! i = Some n ∧ ns !! j = Some m
    ∧ number n = a ∧ number m = b ∧ ordered g a b = false.
Proof.
  unfold first_conflict. destruct (scope_conflicts g ns) as [|v vs] eqn:E; [done|].
  destruct (scope_conflicts_all_conflicts g ns v)
    as (n & m & s & -> & i & j & Hij & Hi & Hj & Ho); [rewrite E; left|].
  intros [= <- <-]. exists i, j, n, m. done.
Qed.

Lemma well_numbered_lookup g k i n : well_numbered g k → nodes g !! i = Some n → number n = N.of_nat (S i).
Proof.
  intros Hw Hn. assert (map number (nodes g) !! i = Some (number n)) as E.
  { rewrite list_lookup_fmap. by rewrite Hn. }
  rewrite Hw, list_lookup_fmap in E. destruct (seq 1 k !! i) as [x|] eqn:Hx; [|done].
  apply lookup_seq in Hx as [-> _]. by injection E.
Qed.

Lemma same_rows_refl g : same_rows g g.
Proof. done. Qed.

Lemma same_rows_trans g1 g2 g3 : same_rows g1 g2 → same_rows g2 g3 → same_rows g1 g3.
Proof. intros (? & ? & ?) (? & ? & ?). split_and!; [congruence..|auto]. Qed.

Lemma elem_of_numbers g i n : nodes g !! i = Some n → number n ∈ map number (nodes g).
Proof. intros Hi. apply list_elem_of_fmap. exists n. split; [done|]. by eapply list_elem_of_lookup_2. Qed.

Lemma serialize_go_clean fuel g k :
  (N.of_nat k ≤ u32_max)%N → schedulable g k → unordered_pairs g < fuel →
  let g' := serialize_go fuel g k in
  schedulable g' k ∧ scope_conflicts g' (nodes g') = [] ∧ same_rows g g'.
Proof.
  intros Hk. revert g. induction fuel as [|fuel IH]; intros g Hs Hf; [lia|]. cbn [serialize_go].
  rewrite (schedulable_validate g k Hk Hs).
  destruct (first_conflict _) as [[a b]|] eqn:Hc.
  2: { apply first_conflict_None in Hc. by split_and!. }
  apply first_conflict_Some in Hc as (i & j & n & m & Hij & Hi & Hj & <- & <- & Ho).
  pose proof (schedulable_NoDup _ _ Hs) as Hnd.
  pose proof (well_numbered_lookup _ _ _ _ (sched_numbered _ _ Hs) Hi) as Hni.
  pose proof (well_numbered_lookup _ _ _ _ (sched_numbered _ _ Hs) Hj) as Hmj.
  replace (number n <? number m)%N with true by (symmetry; apply N.ltb_lt; lia).
  pose proof (find_node_NoDup g m Hnd (list_elem_of_lookup_2 _ _ _ Hj)) as Hfind. rewrite Hfind.
  destruct (contains (number n) (depends_on m)) eqn:Hdep.
  { exfalso. apply contains_spec in Hdep. apply not_true_iff_false in Ho. apply Ho, ordered_spec.
    right. apply tc_once. by exists m. }
  pose proof (elem_of_numbers _ _ _ Hi). pose proof (elem_of_numbers _ _ _ Hj).
  destruct (IH (mkGraph (push_dependency (number m) (number n) (nodes g)))) as (Hs' & Hc' & Hr).
  - apply push_schedulable; [done..|lia|done].
  - eapply Nat.lt_le_trans; [apply push_unordered_pairs; [by eexists|done..]|lia].
  - split_and!; [done..|]. eapply same_rows_trans; [|exact Hr]. split_and!.
    + apply push_numbers.
    + apply push_write_scopes.
    + intros x y Hxy. apply push_edge; [by eexists|by left].
Qed.

Lemma serialize_conflicts_clean g k :
  (N.of_nat k ≤ u32_max)%N → schedulable g k →
  let g' := serialize_conflicts g k in
  schedulable g' k ∧ scope_conflicts g' (nodes g') = [] ∧ same_rows g g'.
Proof.
  intros Hk Hs. apply serialize_go_clean; [done..|]. pose proof (unordered_pairs_bound g). lia.
Qed.

Lemma schedulable_clean g k :
  (N.of_nat k ≤ u32_max)%N → schedulable g k → scope_conflicts g (nodes g) = [] → validate g k = [].
Proof. intros Hk Hs Hc. by rewrite (schedulable_validate g k Hk Hs). Qed.

(** ** The serial graph *)

Lemma serial_numbers k :
  (N.of_nat k ≤ u32_max)%N → map number (nodes (serial k)) = map N.of_nat (seq 1 k).
Proof. intros Hk. unfold serial. rewrite as_u32_small, Nat2N.id by done. cbn. by rewrite map_map. Qed.

Lemma serial_node_elem k n :
  (N.of_nat k ≤ u32_max)%N → n ∈ nodes (serial k) → ∃ i, 1 ≤ i ≤ k ∧ n = serial_node (N.of_nat i).
Proof.
  intros Hk. unfold serial. rewrite as_u32_small, Nat2N.id by done.
  intros (i & -> & Hi)%list_elem_of_fmap. apply elem_of_seq in Hi. exists i. split; [lia|done].
Qed.

Lemma serial_node_deps i d :
  d ∈ depends_on (serial_node (N.of_nat i)) ↔ 1 < i ∧ d = N.of_nat (i - 1).
Proof.
  unfold serial_node. cbn. destruct (N.ltb_spec 1 (N.of_nat i)); [|rewrite elem_of_nil; lia].
  rewrite list_elem_of_singleton. lia.
Qed.

Lemma elem_of_of_nat_seq i k : 1 ≤ i ≤ k → N.of_nat i ∈ map N.of_nat (seq 1 k).
Proof. intros Hi. apply list_elem_of_fmap. exists i. split; [done|]. apply elem_of_seq. lia. Qed.

Lemma serial_schedulable k : (N.of_nat k ≤ u32_max)%N → schedulable (serial k) k.
Proof.
  intros Hk. split.
  - by apply serial_numbers.
  - intros n d (i & Hi & ->)%serial_node_elem Hd; [|done].
    apply serial_node_deps in Hd as [? ->]. rewrite serial_numbers by done. cbn. split; [lia|].
    apply elem_of_of_nat_seq. lia.
  - exists N.to_nat. intros n d Hn Hd. right.
    apply serial_node_elem in Hn as (i & Hi & ->); [|done].
    apply serial_node_deps in Hd as [? ->].
    assert (N.of_nat (i - 1) ∈ map number (nodes (serial k))) as (m & Hm & ?)%list_elem_of_fmap.
    { rewrite serial_numbers by done. apply elem_of_of_nat_seq. lia. }
    exists m. split_and!; [done..|]. cbn. lia.
Qed.

(** ** Loading *)

Lemma numbering_violations_structural g k v : v ∈ numbering_violations g k → is_structural v = true.
Proof.
  unfold numbering_violations. intros [Hv|Hv]%elem_of_app.
  - destruct (negb _); [|by apply elem_of_nil in Hv]. by apply list_elem_of_singleton in Hv as ->.
  - apply list_elem_of_join in Hv as (l & Hv & (i & n & -> & _)%elem_of_lookup_imap).
    unfold row_violations in Hv. apply elem_of_app in Hv as [Hv|Hv].
    + destruct (negb _); [|by apply elem_of_nil in Hv]. by apply list_elem_of_singleton in Hv as ->.
    + apply list_elem_of_omap in Hv as (d & _ & Hv). repeat case_match; by simplify_eq.
Qed.

Lemma unstructural_schedulable g k :
  (N.of_nat k ≤ u32_max)%N →
  all (λ v, negb (is_structural v)) (validate g k) = true → schedulable g k.
Proof.
  intros Hk. rewrite all_spec. unfold validate.
  destruct (is_nil (numbering_violations g k)) eqn:Hn; cbn.
  - apply is_nil_true in Hn. apply numbering_violations_nil in Hn as [Hw Hd]; [|done].
    destruct (parallel_waves g) as [ws|] eqn:Hws.
    + intros _. split; [done..|]. exists (wave_index ws).
      apply layering_ranked; [by eapply well_numbered_NoDup|by apply parallel_waves_layering].
    + intros H. by specialize (H (Cycle (cycle_members g)) ltac:(left)).
  - intros H. destruct (numbering_violations g k) as [|v vs] eqn:E; [done|].
    specialize (H v ltac:(left)). rewrite (numbering_violations_structural g k v) in H; [done|].
    rewrite E. left.
Qed.

Lemma load_schedulable (body : string) (criteria : nat) :
  (N.of_nat criteria ≤ u32_max)%N →
  let g := load_criterion_graph body criteria in
  schedulable g criteria ∧ length (nodes g) = criteria ∧ validate g criteria = [] ∧ is_Some (parallel_waves g).
Proof.
  intros Hk g.
  assert (∃ g0, g = serialize_conflicts g0 criteria ∧ schedulable g0 criteria) as (g0 & Hg & Hs0).
  { unfold g, load_criterion_graph. eexists. split; [done|].
    destruct (parse_criterion_graph body) as [p|]; [|by apply serial_schedulable].
    destruct (all _ _) eqn:E; [by apply unstructural_schedulable|by apply serial_schedulable]. }
  destruct (serialize_conflicts_clean g0 criteria Hk Hs0) as (Hs & Hc & _). rewrite <- Hg in *.
  split; [exact Hs|]. split_and!; [|by apply schedulable_clean|by eapply schedulable_waves].
  pose proof (sched_numbered _ _ Hs) as Hw. apply (f_equal length) in Hw.
  by rewrite !length_map, length_seq in Hw.
Qed.

Lemma load_sound (body : string) (criteria : nat) :
  (N.of_nat criteria ≤ u32_max)%N →
  let g := load_criterion_graph body criteria in
  length (nodes g) = criteria ∧ validate g criteria = [] ∧ is_Some (parallel_waves g).
Proof. intros Hk. apply (load_schedulable body criteria Hk). Qed.

(** C9: Whatever the plan says, the graph that gets scheduled is sound. The graph
    [load_criterion_graph] returns has one row per criterion, validates with no
    violation at all and can be laid out in waves; the repair loop's bound of
    [n * n + 1] turns never cuts it short. *)
Theorem load_always_schedulable (body : string) (criteria : nat) :
  (N.of_nat criteria ≤ u32_max)%N →
  let g := load_criterion_graph body criteria in
  schedulable g criteria ∧ length (nodes g) = criteria ∧ validate g criteria = [] ∧ is_Some (parallel_waves g).
Proof. apply load_schedulable. Qed.

(** The repair only adds dependencies. Started on a schedulable graph it keeps
    every row's number and write scope and every dependency, and it ends without
    any two unordered criteria whose scopes overlap. *)
Lemma repair_only_orders (g : CriterionGraph) (criteria : nat) :
  (N.of_nat criteria ≤ u32_max)%N → schedulable g criteria →
  let g' := serialize_conflicts g criteria in
  map number (nodes g') = map number (nodes g)
  ∧ map write_scope (nodes g') = map write_scope (nodes g)
  ∧ (∀ x y, dep_edge g x y → dep_edge g' x y)
  ∧ ∀ a b, a ∈ nodes g' → b ∈ nodes g' → number a ≠ number b →
      ordered g' (number a) (number b) = true ∨ scopes_disjoint (write_scope a) (write_scope b).
Proof.
  intros Hk Hs. destruct (serialize_conflicts_clean g criteria Hk Hs) as (Hs' & Hc & Hn & Hw & He).
  split_and!; [done..|]. intros a b. by apply scope_conflicts_nil_pair.
Qed.

(** ** A plan without a table *)

(** A graph in which every pair of criteria is ordered has no conflict. *)
Lemma ordered_no_conflicts g :
  (∀ a b, a ∈ nodes g → b ∈ nodes g → number a ≠ number b → ordered g (number a) (number b) = true) →
  NoDup (map number (nodes g)) → scope_conflicts g (nodes g) = [].
Proof.
  intros Ho Hnd. apply scope_conflicts_nil. intros i j a b Hij Ha Hb. unfold pair_conflict.
  rewrite Ho; [done|by eapply list_elem_of_lookup_2..|]. intros E.
  assert (i = j); [|lia]. apply (NoDup_lookup _ i j (number a) Hnd);
    rewrite list_lookup_fmap; [by rewrite Ha|by rewrite Hb, E].
Qed.

Lemma serial_edge k i :
  (N.of_nat k ≤ u32_max)%N → 1 < i ≤ k → dep_edge (serial k) (N.of_nat i) (N.of_nat (i - 1)).
Proof.
  intros Hk Hi. change (N.of_nat i) with (number (serial_node (N.of_nat i))). apply node_edge.
  - rewrite serial_numbers by done. apply (NoDup_fmap_2 N.of_nat), NoDup_seq.
  - unfold serial. rewrite as_u32_small, Nat2N.id by done. cbn.
    apply list_elem_of_fmap. exists i. split; [done|]. apply elem_of_seq. lia.
  - apply serial_node_deps. split; [lia|done].
Qed.

Lemma serial_path k i j :
  (N.of_nat k ≤ u32_max)%N → 1 ≤ i < j → j ≤ k → tc (dep_edge (serial k)) (N.of_nat j) (N.of_nat i).
Proof.
  intros Hk [Hi Hij]. revert Hi. induction Hij as [|j Hij IH]; intros Hi Hj.
  - apply tc_once. replace (N.of_nat i) with (N.of_nat (S i - 1)) by (f_equal; lia).
    apply serial_edge; [done|lia].
  - eapply tc_l; [|apply IH; lia].
    replace (N.of_nat j) with (N.of_nat (S j - 1)) by (f_equal; lia). apply serial_edge; [done|lia].
Qed.

Lemma serial_clean k : (N.of_nat k ≤ u32_max)%N → validate (serial k) k = [].
Proof.
  intros Hk. pose proof (serial_schedulable k Hk) as Hs.
  apply schedulable_clean; [done..|]. apply ordered_no_conflicts; [|by eapply schedulable_NoDup].
  intros a b (i & Hi & ->)%serial_node_elem (j & Hj & ->)%serial_node_elem Hne; [|done..].
  cbn in *. apply ordered_spec. destruct (Nat.lt_trichotomy i j) as [|[->|]]; [right|done|left];
    apply serial_path; lia.
Qed.

Lemma deps_done_serial i m :
  bfilter (deps_done (map N.of_nat (seq 1 i))) (map (λ x, serial_node (N.of_nat x)) (seq (S i) (S m)))
    = [serial_node (N.of_nat (S i))]
  ∧ bfilter (λ n, negb (deps_done (map N.of_nat (seq 1 i)) n))
      (map (λ x, serial_node (N.of_nat x)) (seq (S i) (S m)))
    = map (λ x, serial_node (N.of_nat x)) (seq (S (S i)) m).
Proof.
  set (done := map N.of_nat (seq 1 i)).
  assert (∀ x, i < x → deps_done done (serial_node (N.of_nat x)) = (x =? S i)) as Hd.
  { intros x Hx. apply eq_true_iff_eq. rewrite deps_done_spec, Nat.eqb_eq. unfold done. split.
    - intros H. destruct (decide (x = S i)) as [|Hne]; [done|].
      assert (N.of_nat (x - 1) ∈ map N.of_nat (seq 1 i)) as (y & Hy & Hy')%list_elem_of_fmap.
      { apply H, serial_node_deps. lia. }
      apply elem_of_seq in Hy'. lia.
    - intros -> d [? ->]%serial_node_deps. apply elem_of_of_nat_seq. lia. }
  assert (∀ n l, S i < n →
    bfilter (deps_done done) (map (λ x, serial_node (N.of_nat x)) (seq n l)) = []
    ∧ bfilter (λ n, negb (deps_done done n)) (map (λ x, serial_node (N.of_nat x)) (seq n l))
      = map (λ x, serial_node (N.of_nat x)) (seq n l)) as Hrest.
  { intros n l. revert n. induction l as [|l IH]; intros n Hn; [done|].
    unfold bfilter in *. cbn [seq map List.filter]. rewrite Hd by lia.
    replace (n =? S i) with false by (symmetry; apply Nat.eqb_neq; lia).
    destruct (IH (S n)) as [-> ->]; [lia|]. done. }
  destruct (Hrest (S (S i)) m ltac:(lia)) as [Ha Hb].
  unfold bfilter in *. cbn [seq map List.filter]. rewrite Hd, Nat.eqb_refl by lia. cbn.
  by rewrite Ha, Hb.
Qed.

Lemma serial_waves_go fuel i m acc :
  m ≤ fuel →
  waves_go fuel (map (λ x, serial_node (N.of_nat x)) (seq (S i) m)) (map N.of_nat (seq 1 i)) acc
  = Some (acc ++ map (λ x, [N.of_nat x]) (seq (S i) m)).
Proof.
  revert i m acc. induction fuel as [|fuel IH]; intros i [|m] acc Hm; try lia; try (cbn; by rewrite app_nil_r).
  destruct (deps_done_serial i m) as [Hr Hb].
  cbn [waves_go seq map]. cbn [seq map] in Hr, Hb. rewrite Hr, Hb. cbn [is_nil map].
  replace (map N.of_nat (seq 1 i) ++ [number (serial_node (N.of_nat (S i)))])
    with (map N.of_nat (seq 1 (S i))) by by rewrite seq_S, map_app.
  rewrite IH by lia. by rewrite <- app_assoc.
Qed.

(** One criterion at a time: [1], [2], ..., [criteria]. *)
Definition one_by_one (criteria : nat) : list (list N) := map (λ i, [N.of_nat i]) (seq 1 criteria).

(** A plan without a dependency table is run one criterion at a time. When no
    row parses, the loaded graph is the serial chain and its waves are the
    singletons [1], [2], ..., in order. *)
Lemma absent_contract_is_serial (body : string) (criteria : nat) :
  (N.of_nat criteria ≤ u32_max)%N → parse_criterion_graph body = None →
  load_criterion_graph body criteria = serial criteria ∧
  parallel_waves (load_criterion_graph body criteria) = Some (one_by_one criteria).
Proof.
  intros Hk Hp.
  assert (load_criterion_graph body criteria = serial criteria) as ->.
  { unfold load_criterion_graph, serialize_conflicts. rewrite Hp. cbn [serialize_go].
    by rewrite serial_clean. }
  split; [done|]. unfold parallel_waves, serial. rewrite as_u32_small, Nat2N.id by done.
  cbn [nodes]. rewrite length_map, length_seq. apply (serial_waves_go criteria 0 criteria []). done.
Qed.

(** ** Concrete plans *)

(** Criteria 1 and 2 write disjoint directories; 3 waits for both; 4 depends on
    nothing but writes into the directory of 2. *)
Definition graph_plan : string := join nl
  ["# Plan"; "## Criterion dependencies"; "| # | depends on | write scope |"; "|---|---|---|";
   "| 1 | - | src/a/** |"; "| 2 | - | src/b/** |"; "| 3 | 1, 2 | src/a/mod.rs |";
   "| 4 | - | src/b/x.rs |"].

Definition loaded_graph : CriterionGraph := load_criterion_graph graph_plan 4.
Definition parsed_graph : CriterionGraph := default (serial 0) (parse_criterion_graph graph_plan).

Lemma wave_members_are_disjoint_witness :
  parallel_waves loaded_graph = Some [[1%N; 2%N]; [3%N; 4%N]]
  ∧ scopes_disjoint ["src/a/**"] ["src/b/**"].
Proof.
  assert (parallel_waves loaded_graph = Some [[1%N; 2%N]; [3%N; 4%N]]) as Hw by by vm_compute.
  split; [exact Hw|].
  apply (wave_members_are_disjoint loaded_graph 4 [[1%N; 2%N]; [3%N; 4%N]] [1%N; 2%N]
           (mkNode 1 [] ["src/a/**"]) (mkNode 2 [] ["src/b/**"])); [..|exact Hw|left| | |left|right; left|done].
  - done.
  - by vm_compute.
  - by apply contains_spec; vm_compute.
  - by apply contains_spec; vm_compute.
Defined.

Lemma load_always_schedulable_witness :
  schedulable loaded_graph 4 ∧ length (nodes loaded_graph) = 4 ∧ validate loaded_graph 4 = [] ∧ is_Some (parallel_waves loaded_graph).
Proof. apply (load_always_schedulable graph_plan 4). done. Defined.

Lemma repair_only_orders_witness :
  parsed_graph ≠ loaded_graph ∧ map write_scope (nodes loaded_graph) = map write_scope (nodes parsed_graph).
Proof.
  split; [intros E; apply (f_equal (λ g, map depends_on (nodes g))) in E; by vm_compute in E|].
  assert (loaded_graph = serialize_conflicts parsed_graph 4) as -> by by vm_compute.
  apply (repair_only_orders parsed_graph 4); [done|].
  apply unstructural_schedulable; [done|by vm_compute].
Defined.

Lemma absent_contract_is_serial_witness :
  load_criterion_graph "## Acceptance criteria" 3 = serial 3
  ∧ parallel_waves (load_criterion_graph "## Acceptance criteria" 3)
    = Some [[1%N]; [2%N]; [3%N]].
Proof. apply (absent_contract_is_serial "## Acceptance criteria" 3); [done|by vm_compute]. Defined.
