(* ===== verification/Checklist.v ===== *)
(** * The dual acceptance checklist ([goal_acceptance_checklist.rs], [goal_next_step.rs])

    The plan carries a table [| Exec | Audit | Criterion |]. The implementer
    ticks the first column, the harness owns the second. This file models the
    table's parser, the rewriting of one column, the gate in front of
    [update_goal(completed: true)] and the search for the next open item. *)

From Stdlib Require Import Ascii String.
From S2P Require Import Prelude RustStr TrimLemmas PlanMd.
From stdpp Require Import options.

Definition CHECKLIST_SECTION : string := "acceptance checklist".

Record DualRow : Type := mkDualRow {
  exec : bool;
  audit : bool;
  criterion : string;
}.

Definition parse_mark (cell : string) : option bool :=
  let t := trim cell in
  if String.eqb t "[x]" || String.eqb t "[X]" then Some true
  else if String.eqb t "[ ]" then Some false
  else None.

Definition bar : string := " | ".

(** One line of the open section: its three cells, when it is a data row. *)
Definition data_row (line : string) : option (string * string * list string) :=
  match table_cells line with
  | c0 :: c1 :: c2 :: rest =>
      if is_separator_row (c0 :: c1 :: c2 :: rest) then None
      else if eq_ignore_ascii_case c0 "exec" && eq_ignore_ascii_case c1 "audit" then None
      else Some (c0, c1, c2 :: rest)
  | _ => None
  end.

Definition parse_dual_row (line : string) : option DualRow :=
  match data_row line with
  | None => None
  | Some (c0, c1, rest) =>
      match parse_mark c0, parse_mark c1 with
      | Some exec, Some audit =>
          let criterion := trim (join bar rest) in
          if is_empty criterion then None else Some (mkDualRow exec audit criterion)
      | _, _ => None
      end
  end.

(** The loop of [parse_dual_rows]; [level] is the open section's header depth. *)
Fixpoint parse_dual_rows_go (level : option nat) (ls : list string) : list DualRow :=
  match ls with
  | [] => []
  | line :: ls =>
      if is_section_header line CHECKLIST_SECTION
      then parse_dual_rows_go (Some (header_level line)) ls
      else match level with
           | None => parse_dual_rows_go None ls
           | Some open =>
               if is_any_header line && (header_level line <=? open) then []
               else match parse_dual_row line with
                    | Some row => row :: parse_dual_rows_go level ls
                    | None => parse_dual_rows_go level ls
                    end
           end
  end.

Definition parse_dual_rows (body : string) : list DualRow := parse_dual_rows_go None (lines body).

Definition has_dual_checklist (body : string) : bool := negb (is_nil (parse_dual_rows body)).

Definition all_exec_checked (body : string) : bool :=
  let rows := parse_dual_rows body in negb (is_nil rows) && all exec rows.

Definition all_audit_checked (body : string) : bool :=
  let rows := parse_dual_rows body in negb (is_nil rows) && all audit rows.

Definition first_unchecked_exec (body : string) : option string :=
  criterion <$> List.find (λ r, negb (exec r)) (parse_dual_rows body).

(** The gate of [update_goal(completed: true)]; [read] is what reading the plan
    file gave, its error already displayed. *)
Definition require_exec_complete (path : string) (read : result string string) : result unit string :=
  match read with
  | Err e => Err ("Cannot read goal plan at " +:+ path +:+ ": " +:+ e
                  +:+ ". Finish planning before marking complete.")
  | Ok body =>
      let rows := parse_dual_rows body in
      if is_nil rows then
        Err ("Plan is missing a dual-column `## Acceptance checklist` (Exec | Audit | Criterion). "
             +:+ "Re-run planning or add one row per acceptance criterion before "
             +:+ "`update_goal(completed: true)`.")
      else match List.find (λ r, negb (exec r)) rows with
           | Some pending =>
               Err ("Execution column incomplete — check off every Exec mark in "
                    +:+ "`## Acceptance checklist` before requesting audit. First open: "
                    +:+ criterion pending)
           | None => Ok tt
           end
  end.

(** ** Rewriting a column *)

Definition mark_glyph (checked : bool) : string := if checked then "[x]" else "[ ]".

Inductive Column : Type := ColExec | ColAudit.

Definition render_row (exec audit criterion : string) : string :=
  "| " +:+ exec +:+ " | " +:+ audit +:+ " | " +:+ criterion +:+ " |".

(** A row the rewriter counts: a data row with two marks, its criterion empty or not. *)
Definition counted_row (line : string) : option (string * string * list string) :=
  match data_row line with
  | Some (c0, c1, rest) =>
      match parse_mark c0, parse_mark c1 with
      | Some _, Some _ => Some (c0, c1, rest)
      | _, _ => None
      end
  | None => None
  end.

Definition rewrite_row (column : Column) (checked : bool) (c0 c1 : string) (rest : list string) : string :=
  let glyph := mark_glyph checked in
  let '(exec, audit) := match column with
                        | ColExec => (glyph, trim c1)
                        | ColAudit => (trim c0, glyph)
                        end in
  render_row exec audit (trim (join bar rest)).

(** [row_number += 1] on a [u32]. *)
Definition u32_succ (n : N) : N := (n + 1) `mod` (u32_max + 1).

(** The loop of [rewrite_marks_where], as the list of lines it prints. *)
Fixpoint rewrite_go (column : Column) (checked : bool) (should_rewrite : N → bool)
    (level : option nat) (row_number : N) (ls : list string) : list string :=
  match ls with
  | [] => []
  | line :: ls =>
      if is_section_header line CHECKLIST_SECTION
      then line :: rewrite_go column checked should_rewrite (Some (header_level line)) row_number ls
      else
        let level := match level with
                     | Some open => if is_any_header line && (header_level line <=? open)
                                    then None else Some open
                     | None => None
                     end in
        match level with
        | None => line :: rewrite_go column checked should_rewrite None row_number ls
        | Some _ =>
            match counted_row line with
            | None => line :: rewrite_go column checked should_rewrite level row_number ls
            | Some (c0, c1, rest) =>
                let row_number := u32_succ row_number in
                (if should_rewrite row_number then rewrite_row column checked c0 c1 rest else line)
                  :: rewrite_go column checked should_rewrite level row_number ls
            end
        end
  end.

Definition rewrite_marks_where (body : string) (column : Column) (checked : bool)
    (should_rewrite : N → bool) : string :=
  let out := unlines (rewrite_go column checked should_rewrite None 0 (lines body)) in
  if negb (ends_with nl body) && ends_with nl out
  then take_bytes (String.length out - 1) out else out.

Definition rewrite_audit_marks (body : string) (checked : bool) : string :=
  rewrite_marks_where body ColAudit checked (λ _, true).

Definition rewrite_audit_marks_for_criteria (body : string) (criteria : list N) (checked : bool) : string :=
  rewrite_marks_where body ColAudit checked (λ row, contains row criteria).

Definition rewrite_exec_marks_for_criteria (body : string) (criteria : list N) (checked : bool) : string :=
  rewrite_marks_where body ColExec checked (λ row, contains row criteria).

(** ** Adding the section *)

Definition dot : ascii := ".".
Definition rparen : ascii := ")".

Definition numbered_item (line : string) : option string :=
  let t := trim line in
  let at_index := match find_char (Ascii.eqb dot) t with
                  | Some i => Some i
                  | None => find_char (Ascii.eqb rparen) t
                  end in
  match at_index with
  | None => None
  | Some i =>
      let num := take_bytes i t in
      if all_chars is_ascii_digit num && negb (is_empty num) then
        let text := trim (drop_bytes (i + 1) t) in
        if is_empty text then None else Some text
      else None
  end.

Fixpoint extract_numbered_go (level : option nat) (ls : list string) : list string :=
  match ls with
  | [] => []
  | line :: ls =>
      if is_section_header line "acceptance criteria"
      then extract_numbered_go (Some (header_level line)) ls
      else match level with
           | None => extract_numbered_go None ls
           | Some open =>
               if is_any_header line && (header_level line <=? open) then []
               else match numbered_item line with
                    | Some text => text :: extract_numbered_go level ls
                    | None => extract_numbered_go level ls
                    end
           end
  end.

Definition extract_numbered_acceptance_criteria (body : string) : list string :=
  extract_numbered_go None (lines body).

(** [c.replace('|', "\\|")] *)
Fixpoint escape_pipes (s : string) : string :=
  match s with
  | EmptyString => EmptyString
  | String c s => if Ascii.eqb c pipe then String "\" (String pipe (escape_pipes s))
                  else String c (escape_pipes s)
  end.

Definition checklist_table (criteria : list string) : string :=
  foldl (λ table c, table +:+ "| [ ] | [ ] | " +:+ escape_pipes c +:+ " |" +:+ nl)
    (nl +:+ "## Acceptance checklist" +:+ nl +:+ nl
     +:+ "| Exec | Audit | Criterion |" +:+ nl
     +:+ "|------|-------|----------|" +:+ nl) criteria.

Definition insert_markers : list string :=
  ["## Verification plan"; "## Non-goals"; "## Assumed scope"; "## Implementation approach";
   "## Task checklist"; "## Risks"].

Definition ensure_newline (s : string) : string := if ends_with nl s then s else s +:+ nl.

Fixpoint first_marker (body : string) (markers : list string) : option nat :=
  match markers with
  | [] => None
  | m :: markers => match find m body with Some i => Some i | None => first_marker body markers end
  end.

Definition ensure_dual_checklist_section (body : string) : string :=
  if has_dual_checklist body then body
  else
    let criteria := extract_numbered_acceptance_criteria body in
    if is_nil criteria then body
    else
      let table := checklist_table criteria in
      match first_marker body insert_markers with
      | Some idx => ensure_newline (ensure_newline (take_bytes idx body) +:+ table) +:+ drop_bytes idx body
      | None => ensure_newline body +:+ table
      end.

(** ** The next open item *)

Definition strip_bullet_marker (trimmed : string) : option string :=
  trim_start <$> match strip_prefix "- " trimmed with
                 | Some s => Some s
                 | None => match strip_prefix "* " trimmed with
                           | Some s => Some s
                           | None => strip_prefix "+ " trimmed
                           end
                 end.

Definition parse_checkbox_item (trimmed : string) : option string :=
  match strip_bullet_marker trimmed with
  | None => None
  | Some after_marker =>
      match strip_prefix "[ ]" after_marker with
      | None => None
      | Some after_checkbox =>
          let text := trim after_checkbox in if is_empty text then None else Some text
      end
  end.

Fixpoint first_unchecked_in_checklist (level : option nat) (ls : list string) : option string :=
  match ls with
  | [] => None
  | line :: ls =>
      if is_section_header line "task checklist"
      then first_unchecked_in_checklist (Some (header_level line)) ls
      else match level with
           | None => first_unchecked_in_checklist None ls
           | Some open =>
               if is_any_header line && (header_level line <=? open) then None
               else match parse_checkbox_item (trim_start line) with
                    | Some item => Some item
                    | None => first_unchecked_in_checklist level ls
                    end
           end
  end.

Definition EXCLUDED_SECTIONS : list string := ["non-goals"; "deviations"].

Fixpoint extract_unchecked_go (excluded : bool) (ls : list string) : option string :=
  match ls with
  | [] => None
  | line :: ls =>
      if is_any_header line
      then extract_unchecked_go (any (is_section_header line) EXCLUDED_SECTIONS) ls
      else if excluded then extract_unchecked_go true ls
      else match parse_checkbox_item (trim_start line) with
           | Some item => Some item
           | None => extract_unchecked_go false ls
           end
  end.

Definition extract_first_unchecked (body : string) : option string :=
  if any (λ l, is_section_header l "task checklist") (lines body)
  then first_unchecked_in_checklist None (lines body)
  else extract_unchecked_go false (lines body).

(** [body] is what [read_capped] gave. *)
Definition first_unchecked_plan_item (body : option string) : option string :=
  match body with
  | None => None
  | Some body =>
      match first_unchecked_exec body with
      | Some item => Some item
      | None => extract_first_unchecked body
      end
  end.

(** [read_capped] on the bytes of a file: a full buffer is cut at its last
    newline. Replacing invalid UTF-8 is left out: bytes are kept as they are. *)
Definition MAX_READ_BYTES : nat := 8 * 1024.

Definition read_capped (file : option string) : option string :=
  match file with
  | None => None
  | Some bytes =>
      let buf := take_bytes MAX_READ_BYTES bytes in
      if MAX_READ_BYTES <=? String.length buf
      then match rfind_char newline buf with
           | Some last_nl => Some (take_bytes last_nl buf)
           | None => Some buf
           end
      else Some buf
  end.

Example rewrite_one_row :
  rewrite_audit_marks_for_criteria
    (join nl ["## Acceptance checklist"; "| Exec | Audit | Criterion |"; "|--|--|--|";
              "| [x] | [ ] | a |"; "| [ ] | [ ] |  b | c |"; "## Next"; "| [x] | [ ] | z |"]) [2%N] true
  = join nl ["## Acceptance checklist"; "| Exec | Audit | Criterion |"; "|--|--|--|";
              "| [x] | [ ] | a |"; "| [ ] | [x] | b | c |"; "## Next"; "| [x] | [ ] | z |"].
Proof. reflexivity. Qed.

Example ensure_adds_rows :
  parse_dual_rows (ensure_dual_checklist_section
    (join nl ["# Plan"; "## Acceptance criteria"; "1. first"; "2) a|b"; "## Risks"; "none"]))
  = [mkDualRow false false "first"; mkDualRow false false "a\ | b"].
Proof. reflexivity. Qed.

(** ** Marks on the plan file

    The three setters rewrite the plan under the lock of [PlanWrite]; here they
    are the rewrites they run on the body they read, [None] when there is
    nothing to do at all. *)

Definition set_all_audit_marks (checked : bool) : option (string → string) :=
  Some (λ body, rewrite_audit_marks body checked).

Definition set_audit_marks_for_criteria (criteria : list N) (checked : bool)
    : option (string → string) :=
  if is_nil criteria then None
  else Some (λ body, rewrite_audit_marks_for_criteria body criteria checked).

Definition set_exec_marks_for_criteria (criteria : list N) (checked : bool)
    : option (string → string) :=
  if is_nil criteria then None
  else Some (λ body, rewrite_exec_marks_for_criteria body criteria checked).

Definition ensure_dual_checklist_on_disk : string → string := ensure_dual_checklist_section.
