(* ===== verification/ChecklistFacts.v ===== *)
(** * Rewriting the checklist

    The rewriter prints lines, the parser reads them back. The theorems here say
    what a rewrite does to the parsed table: the marks of the selected rows
    change in one column, and nothing else does. *)

From Stdlib Require Import Ascii String.
From S2P Require Import Prelude RustStr TrimLemmas PlanMd Checklist.
From stdpp Require Import options.

(** ** A printed row *)

Definition glyphs : list string := ["[x]"; "[X]"; "[ ]"].

Lemma parse_mark_glyph c b : parse_mark c = Some b → trim c ∈ glyphs.
Proof.
  unfold parse_mark, glyphs. destruct (String.eqb_spec (trim c) "[x]") as [->|]; [intros _; left|].
  destruct (String.eqb_spec (trim c) "[X]") as [->|]; [intros _; right; left|].
  destruct (String.eqb_spec (trim c) "[ ]") as [->|]; [intros _; do 2 right; left|done].
Qed.

Lemma mark_glyph_glyph b : mark_glyph b ∈ glyphs.
Proof. destruct b; by apply contains_spec. Qed.

Lemma parse_mark_trim c : parse_mark (trim c) = parse_mark c.
Proof. unfold parse_mark. by rewrite trim_idem. Qed.

Lemma parse_mark_mark_glyph b : parse_mark (mark_glyph b) = Some b.
Proof. by destruct b. Qed.

(** What every cell of a table line is. *)
Definition cell_ok (x : string) : Prop := char_free pipe x = true ∧ trim x = x.

Lemma char_free_trim c s : char_free c s = true → char_free c (trim s) = true.
Proof. apply all_chars_trim. Qed.

Lemma table_cells_ok line : Forall cell_ok (table_cells line).
Proof.
  unfold table_cells. destruct (negb _); [constructor|]. apply Forall_fmap.
  eapply Forall_impl; [apply split_char_pieces|]. intros w Hw. cbn.
  split; [by apply char_free_trim|apply trim_idem].
Qed.

Lemma trim_pipes_ends s : trim ("|" +:+ s +:+ "|") = "|" +:+ s +:+ "|".
Proof.
  unfold trim, trim_start. rewrite drop_front_stop by reflexivity. rewrite trim_end_eq.
  rewrite <- (rev_involutive ("|" +:+ s +:+ "|")) at 2. f_equal. apply drop_front_stop.
  rewrite <- str_app_assoc, rev_app_distr. reflexivity.
Qed.

Lemma trim_matches_pipes s :
  trim_matches pipe ("|" +:+ (" " +:+ s +:+ " ") +:+ "|") = " " +:+ s +:+ " ".
Proof.
  unfold trim_matches.
  change (trim_start_char pipe ("|" +:+ (" " +:+ s +:+ " ") +:+ "|"))
    with ((" " +:+ s +:+ " ") +:+ "|").
  unfold trim_end_char. rewrite rev_app_distr.
  change (String.rev "|" +:+ String.rev (" " +:+ s +:+ " "))
    with (String "|" (String.rev (" " +:+ s +:+ " "))).
  rewrite <- (rev_involutive (" " +:+ s +:+ " ")) at 2. f_equal.
  rewrite <- str_app_assoc, rev_app_distr. reflexivity.
Qed.

Lemma table_cells_render e a cells :
  e ∈ glyphs → a ∈ glyphs → cells ≠ [] → Forall cell_ok cells →
  table_cells (render_row e a (trim (join bar cells))) = e :: a :: cells.
Proof.
  intros He Ha Hne Hok.
  set (X := trim (join bar cells)).
  assert (render_row e a X = "|" +:+ (" " +:+ (e +:+ " | " +:+ a +:+ " | " +:+ X) +:+ " ") +:+ "|") as E.
  { unfold render_row. by rewrite !str_app_assoc, !str_app_cons, !str_app_nil_l. }
  unfold table_cells. rewrite E, trim_pipes_ends, trim_matches_pipes.
  change (negb (starts_with "|" ("|" +:+ (" " +:+ (e +:+ " | " +:+ a +:+ " | " +:+ X) +:+ " ") +:+ "|")))
    with false. cbn match.
  assert (" " +:+ (e +:+ " | " +:+ a +:+ " | " +:+ X) +:+ " "
    = (" " +:+ e +:+ " ") +:+ String pipe "" +:+ (" " +:+ a +:+ " ") +:+ String pipe "" +:+ (" " +:+ X +:+ " ")) as ->.
  { by rewrite !str_app_assoc, !str_app_cons, !str_app_nil_l. }
  assert (∀ g, g ∈ glyphs → char_free pipe (" " +:+ g +:+ " ") = true ∧ trim (" " +:+ g +:+ " ") = g) as Hg.
  { intros g Hin. revert g Hin. rewrite <- Forall_forall. repeat constructor. }
  destruct (Hg e He) as [Hef Het], (Hg a Ha) as [Haf Hat].
  rewrite !split_char_sep by done. cbn [map]. rewrite Het, Hat. do 2 f_equal.
  by apply split_padded_join.
Qed.

Lemma data_row_cells line c0 c1 rest :
  data_row line = Some (c0, c1, rest) →
  table_cells line = c0 :: c1 :: rest ∧ rest ≠ [] ∧ cell_ok c0 ∧ cell_ok c1 ∧ Forall cell_ok rest.
Proof.
  unfold data_row. pose proof (table_cells_ok line) as Hok.
  destruct (table_cells line) as [|x0 [|x1 [|x2 r]]]; [done..|].
  repeat case_if; try done. intros [= <- <- <-].
  by apply Forall_cons in Hok as [? [? ?]%Forall_cons].
Qed.

Lemma glyph_row_is_data e a rest :
  e ∈ glyphs → rest ≠ [] → table_cells (render_row e a (trim (join bar rest))) = e :: a :: rest →
  data_row (render_row e a (trim (join bar rest))) = Some (e, a, rest).
Proof.
  intros He Hne Hc. unfold data_row. rewrite Hc. destruct rest as [|c2 rest]; [done|].
  assert (is_separator_row (e :: a :: c2 :: rest) = false ∧ eq_ignore_ascii_case e "exec" = false) as [-> ->];
    [|done].
  revert e He Hc. assert (Forall (λ e, is_separator_row (e :: a :: c2 :: rest) = false
    ∧ eq_ignore_ascii_case e "exec" = false) glyphs) as Hall; [|rewrite Forall_forall in Hall; auto].
  repeat constructor.
Qed.

(** The row a line shows. *)
Definition counted (line : string) : option DualRow :=
  match counted_row line with
  | Some (c0, c1, rest) =>
      match parse_mark c0, parse_mark c1 with
      | Some e, Some a => Some (mkDualRow e a (trim (join bar rest)))
      | _, _ => None
      end
  | None => None
  end.

Definition set_mark (column : Column) (checked : bool) (row : DualRow) : DualRow :=
  match column with
  | ColExec => mkDualRow checked (audit row) (criterion row)
  | ColAudit => mkDualRow (exec row) checked (criterion row)
  end.

Lemma counted_row_marks line c0 c1 rest :
  counted_row line = Some (c0, c1, rest) →
  data_row line = Some (c0, c1, rest) ∧ ∃ e a, parse_mark c0 = Some e ∧ parse_mark c1 = Some a.
Proof.
  unfold counted_row. destruct (data_row line) as [[[x0 x1] r]|]; [|done].
  destruct (parse_mark x0) as [e|] eqn:He; [|done]. destruct (parse_mark x1) as [a|] eqn:Ha; [|done].
  intros [= -> -> ->]. eauto.
Qed.

Lemma counted_render e a rest me ma :
  e ∈ glyphs → a ∈ glyphs → rest ≠ [] → Forall cell_ok rest →
  parse_mark e = Some me → parse_mark a = Some ma →
  counted (render_row e a (trim (join bar rest))) = Some (mkDualRow me ma (trim (join bar rest))).
Proof.
  intros He Ha Hne Hok Hme Hma. unfold counted, counted_row.
  rewrite (glyph_row_is_data e a rest), Hme, Hma by auto using table_cells_render.
  by rewrite Hme, Hma.
Qed.

(** A rewritten row shows the same row with one mark changed. *)
Lemma counted_rewrite_row column checked line c0 c1 rest row :
  counted_row line = Some (c0, c1, rest) → counted line = Some row →
  counted (rewrite_row column checked c0 c1 rest) = Some (set_mark column checked row).
Proof.
  intros Hc Hrow. pose proof Hc as Hc'.
  apply counted_row_marks in Hc' as (Hd & e & a & He & Ha).
  apply data_row_cells in Hd as (_ & Hne & _ & _ & Hok).
  unfold counted in Hrow. rewrite Hc, He, Ha in Hrow. injection Hrow as <-.
  unfold rewrite_row. destruct column; apply counted_render; try done;
    first [apply mark_glyph_glyph | by eapply parse_mark_glyph | apply parse_mark_mark_glyph | by rewrite parse_mark_trim].
Qed.

(** ** A carriage return changes nothing

    A line that keeps a stray carriage return reads like the line without it. *)

Definition cr : string := String carriage "".

Lemma cr_white_space : cr ∈ white_space.
Proof. by apply contains_spec. Qed.

Lemma trim_start_cr l : trim_start (l +:+ cr) = trim_start l ∨ 
  (trim_start l ≠ "" ∧ trim_start (l +:+ cr) = trim_start l +:+ cr).
Proof.
  rewrite (trim_start_ws_r cr l cr_white_space).
  destruct (trim_start l) as [|c t]; [by left|by right].
Qed.

Lemma starts_with_cr t : t ≠ "" → starts_with "#" (t +:+ cr) = starts_with "#" t.
Proof.
  destruct t as [|c t]; [done|]. intros _. rewrite str_app_cons. unfold starts_with.
  cbn [strip_prefix]. destruct (Ascii.eqb "#" c); [|done]. destruct t; reflexivity.
Qed.

Lemma is_any_header_cr l : is_any_header (l +:+ cr) = is_any_header l.
Proof.
  unfold is_any_header. destruct (trim_start_cr l) as [->|[Hne ->]]; [done|]. by apply starts_with_cr.
Qed.

Lemma take_while_cr t : take_while (λ c, Ascii.eqb c hash) (t +:+ cr) = take_while (λ c, Ascii.eqb c hash) t.
Proof. induction t as [|c t IH]; [done|]. rewrite str_app_cons. cbn [take_while]. by rewrite IH. Qed.

Lemma header_level_cr l : header_level (l +:+ cr) = header_level l.
Proof.
  unfold header_level. destruct (trim_start_cr l) as [->|[Hne ->]]; [done|]. by rewrite take_while_cr.
Qed.

Lemma hash_enc_free e : e ∈ ["#"] → ∀ t, find_prefix ["#"] (e +:+ t) = Some e.
Proof. intros ->%list_elem_of_singleton t. cbn. by destruct t. Qed.

Lemma trim_hash_cr t : trim (trim_start_char hash (t +:+ cr)) = trim (trim_start_char hash t).
Proof.
  unfold trim_start_char. change [String hash ""] with ["#"].
  rewrite drop_front_app; [|by apply contains_false|exact hash_enc_free|done].
  destruct (drop_front ["#"] 0 t) as [|c u]; [done|]. cbn [is_empty].
  by rewrite trim_ws_r by apply cr_white_space.
Qed.

Lemma is_section_header_cr l name : is_section_header (l +:+ cr) name = is_section_header l name.
Proof.
  unfold is_section_header. destruct (trim_start_cr l) as [->|[Hne ->]]; [done|].
  by rewrite starts_with_cr, trim_hash_cr.
Qed.

Lemma table_cells_cr l : table_cells (l +:+ cr) = table_cells l.
Proof. unfold table_cells. by rewrite trim_ws_r by apply cr_white_space. Qed.

Lemma counted_cr l : counted (l +:+ cr) = counted l.
Proof. unfold counted, counted_row, data_row. by rewrite table_cells_cr. Qed.

(** Lines that every classification of the parser sees alike. *)
Definition same_line (l l' : string) : Prop :=
  is_section_header l CHECKLIST_SECTION = is_section_header l' CHECKLIST_SECTION
  ∧ is_any_header l = is_any_header l' ∧ header_level l = header_level l' ∧ counted l = counted l'.

Lemma same_line_strip_cr l : same_line l (strip_cr l).
Proof.
  destruct (strip_cr_spec l) as [Hs|Hs]; [by rewrite Hs|].
  rewrite Hs at 1. fold cr. unfold same_line.
  by rewrite is_section_header_cr, is_any_header_cr, header_level_cr, counted_cr.
Qed.

(** ** The counted table *)

(** The rows of the first checklist section, in the order the rewriter numbers
    them; a row without criterion text counts. *)
Fixpoint counted_go (level : option nat) (ls : list string) : list DualRow :=
  match ls with
  | [] => []
  | line :: ls =>
      if is_section_header line CHECKLIST_SECTION
      then counted_go (Some (header_level line)) ls
      else match level with
           | None => counted_go None ls
           | Some open =>
               if is_any_header line && (header_level line <=? open) then []
               else match counted line with
                    | Some row => row :: counted_go level ls
                    | None => counted_go level ls
                    end
           end
  end.

Definition counted_rows (body : string) : list DualRow := counted_go None (lines body).

Definition named (row : DualRow) : bool := negb (is_empty (criterion row)).

Lemma parse_dual_row_counted line :
  parse_dual_row line = match counted line with
                        | Some row => if named row then Some row else None
                        | None => None
                        end.
Proof.
  unfold parse_dual_row, counted, counted_row, named. destruct (data_row line) as [[[c0 c1] rest]|]; [|done].
  destruct (parse_mark c0) eqn:H0, (parse_mark c1) eqn:H1'; rewrite ?H0, ?H1'; try done.
  cbn. by destruct (is_empty _).
Qed.

Lemma parse_counted_go level ls : parse_dual_rows_go level ls = bfilter named (counted_go level ls).
Proof.
  revert level. induction ls as [|l ls IH]; intros level; [done|]. cbn [parse_dual_rows_go counted_go].
  destruct (is_section_header _ _); [done|]. destruct level as [open|]; [|done].
  destruct (_ && _); [done|]. rewrite parse_dual_row_counted.
  destruct (counted l) as [row|]; [|done]. unfold bfilter in *. cbn. rewrite <- IH.
  by destruct (named row).
Qed.

Lemma counted_go_same level ls ls' :
  Forall2 same_line ls ls' → counted_go level ls = counted_go level ls'.
Proof.
  intros H. revert level. induction H as [|l l' ls ls' (Hs & Ha & Hh & Hc) _ IH]; intros level; [done|].
  cbn [counted_go]. by rewrite Hs, Ha, Hh, Hc, !IH; destruct level; rewrite ?IH.
Qed.

(** The number the rewriter gives the row at index [i], counting from [n]. *)
Definition row_number_from (n : N) (i : nat) : N := (n + N.of_nat (S i)) `mod` (u32_max + 1).

Lemma row_number_from_0 n : row_number_from n 0 = u32_succ n.
Proof. reflexivity. Qed.

Lemma row_number_from_S n i : row_number_from (u32_succ n) i = row_number_from n (S i).
Proof.
  unfold row_number_from, u32_succ. rewrite N.Div0.add_mod_idemp_l. f_equal. lia.
Qed.

Lemma not_header_render e a c :
  is_section_header (render_row e a c) CHECKLIST_SECTION = false ∧ is_any_header (render_row e a c) = false.
Proof. unfold render_row, is_section_header, is_any_header. split; reflexivity. Qed.

Lemma not_header_rewrite_row column checked c0 c1 rest :
  is_section_header (rewrite_row column checked c0 c1 rest) CHECKLIST_SECTION = false
  ∧ is_any_header (rewrite_row column checked c0 c1 rest) = false.
Proof. destruct column; apply not_header_render. Qed.

Lemma counted_is_Some line c0 c1 rest : counted_row line = Some (c0, c1, rest) → ∃ row, counted line = Some row.
Proof.
  intros Hc. pose proof Hc as (_ & e & a & He & Ha)%counted_row_marks.
  unfold counted. rewrite Hc, He, Ha. eauto.
Qed.

Lemma counted_none line : counted_row line = None → counted line = None.
Proof. unfold counted. by intros ->. Qed.

Lemma header_no_cells line : is_any_header line = true → table_cells line = [].
Proof.
  intros Hh. unfold table_cells, is_any_header in *. unfold trim.
  destruct (trim_end_split (trim_start line)) as (vs & Hs & _).
  destruct (trim_end (trim_start line)) as [|c t]; [done|].
  rewrite Hs, str_app_cons in Hh. apply starts_with_spec in Hh as [u Hu].
  rewrite str_app_cons in Hu. injection Hu as -> _. done.
Qed.

Lemma counted_header line : is_any_header line = true → counted line = None.
Proof. intros Hh. apply counted_none. unfold counted_row, data_row. by rewrite header_no_cells. Qed.

Definition set_selected (column : Column) (checked : bool) (sel : N → bool) (n : N) (i : nat)
    (row : DualRow) : DualRow :=
  if sel (row_number_from n i) then set_mark column checked row else row.

Lemma counted_rewrite_go column checked sel level n ls :
  counted_go level (rewrite_go column checked sel level n ls)
  = imap (set_selected column checked sel n) (counted_go level ls).
Proof.
  revert level n. induction ls as [|l ls IH]; intros level n; [done|]. cbn [rewrite_go].
  destruct (is_section_header l CHECKLIST_SECTION) eqn:Hs; [cbn [counted_go]; by rewrite Hs, IH|].
  destruct level as [open|]; [|cbn [counted_go]; by rewrite Hs, IH].
  destruct (is_any_header l && (header_level l <=? open)) eqn:Hh.
  { cbn [counted_go]. by rewrite Hs, Hh. }
  destruct (counted_row l) as [[[c0 c1] rest]|] eqn:Hc.
  - destruct (counted_is_Some _ _ _ _ Hc) as [row Hrow].
    assert (imap (set_selected column checked sel n) (counted_go (Some open) (l :: ls))
      = set_selected column checked sel n 0 row
        :: imap (set_selected column checked sel (u32_succ n)) (counted_go (Some open) ls)) as ->.
    { cbn [counted_go]. rewrite Hs, Hh, Hrow. cbn. f_equal. apply imap_ext. intros i x _. cbn.
      unfold set_selected. by rewrite row_number_from_S. }
    rewrite <- IH. unfold set_selected. rewrite row_number_from_0. destruct (sel (u32_succ n)).
    + cbn [counted_go]. destruct (not_header_rewrite_row column checked c0 c1 rest) as [-> ->]. cbn [andb].
      by rewrite (counted_rewrite_row _ _ l _ _ _ row).
    + cbn [counted_go]. by rewrite Hs, Hh, Hrow.
  - cbn [counted_go]. by rewrite Hs, Hh, (counted_none _ Hc), IH.
Qed.

(** ** The printed text *)

Lemma ends_with_app s p : ends_with p (s +:+ p) = true.
Proof. unfold ends_with, strip_suffix. rewrite rev_app_distr, strip_prefix_app. done. Qed.

Lemma ends_with_nl_free s last :
  last ≠ "" → char_free newline last = true → ends_with nl (s +:+ last) = false.
Proof.
  intros Hne Hfree. unfold ends_with, strip_suffix. rewrite rev_app_distr.
  rewrite <- char_free_rev in Hfree. destruct (String.rev last) as [|c t] eqn:E; [by apply rev_nil in E|].
  rewrite str_app_cons. change (String.rev nl) with (String newline ""). cbn [strip_prefix].
  unfold char_free in Hfree. cbn [all_chars] in Hfree. apply andb_true_iff in Hfree as [Hc _].
  apply negb_true_iff in Hc. by rewrite Hc.
Qed.

Lemma unlines_snoc ls l : unlines (ls ++ [l]) = unlines ls +:+ l +:+ nl.
Proof.
  induction ls as [|x ls IH]; [reflexivity|]. cbn [app unlines foldr]. fold (unlines (ls ++ [l])).
  rewrite IH, !str_app_assoc. done.
Qed.

Lemma lines_free s : Forall (λ l, char_free newline l = true) (lines s).
Proof.
  unfold lines. pose proof (split_char_pieces newline s) as Hall.
  induction Hall as [|l [|m ls] Hl Hls IH]; [constructor|cbn; destruct (is_empty l); by repeat constructor|].
  change (finish_lines (l :: m :: ls)) with (strip_cr l :: finish_lines (m :: ls)). constructor; [|done].
  destruct (strip_cr_spec l) as [Hs|Hs]; [by rewrite Hs|]. unfold char_free in *.
  rewrite Hs, all_chars_app in Hl. by apply andb_true_iff in Hl as [? _].
Qed.

Lemma char_free_join sep c ws :
  char_free c sep = true → Forall (λ w, char_free c w = true) ws → char_free c (join sep ws) = true.
Proof. apply all_chars_join. Qed.

Lemma table_cells_free c line :
  char_free c line = true → Forall (λ w, char_free c w = true) (table_cells line).
Proof.
  intros Hl. unfold table_cells. destruct (negb _); [constructor|]. apply Forall_fmap.
  eapply Forall_impl; [apply all_chars_split_pred, all_chars_trim_matches, all_chars_trim, Hl|].
  intros w. apply all_chars_trim.
Qed.

Lemma rewrite_row_free column checked line c0 c1 rest :
  char_free newline line = true → counted_row line = Some (c0, c1, rest) →
  char_free newline (rewrite_row column checked c0 c1 rest) = true.
Proof.
  intros Hl Hc. apply counted_row_marks in Hc as (Hd & _). apply data_row_cells in Hd as (Hcells & _).
  apply table_cells_free in Hl. rewrite Hcells in Hl.
  apply Forall_cons in Hl as [H0 [H1' Hr]%Forall_cons].
  assert (∀ e a, char_free newline e = true → char_free newline a = true →
    char_free newline (render_row e a (trim (join bar rest))) = true) as Hrow.
  { intros e a He Ha. apply (char_free_join bar) in Hr; [|done]. apply char_free_trim in Hr.
    unfold render_row, char_free in *. rewrite !all_chars_app, He, Ha, Hr. done. }
  unfold rewrite_row. destruct column, checked; apply Hrow; auto using char_free_trim.
Qed.

Lemma rewrite_row_ne column checked c0 c1 rest : rewrite_row column checked c0 c1 rest ≠ "".
Proof. by destruct column. Qed.

Lemma rewrite_go_lines column checked sel level n ls :
  Forall (λ l, char_free newline l = true) ls →
  Forall2 (λ l l', char_free newline l' = true ∧ (l ≠ "" → l' ≠ "")) ls
    (rewrite_go column checked sel level n ls).
Proof.
  intros Hls. revert level n. induction Hls as [|l ls Hl _ IH]; intros level n; [constructor|].
  cbn [rewrite_go]. destruct (is_section_header l _); [by constructor|].
  destruct (match level with Some _ => _ | None => _ end); [|by constructor].
  destruct (counted_row l) as [[[c0 c1] rest]|] eqn:Hc; [|by constructor].
  constructor; [|done]. destruct (sel _); [|done].
  split; [by eapply rewrite_row_free|]. intros _. apply rewrite_row_ne.
Qed.

Lemma Forall2_char_free (R : string → string → Prop) (ls P : list string) :
  Forall2 (λ l l', char_free newline l' = true ∧ R l l') ls P →
  Forall (λ l, char_free newline l = true) P.
Proof. induction 1 as [|l l' ls P [? _]]; by constructor. Qed.

Lemma Forall2_same_line_strip ls : Forall2 same_line ls (map strip_cr ls).
Proof. induction ls; constructor; [apply same_line_strip_cr|done]. Qed.

Lemma same_line_refl l : same_line l l.
Proof. done. Qed.

(** Reading the printed text back gives the rewritten lines. *)
Lemma rewrite_lines body column checked sel :
  Forall2 same_line (rewrite_go column checked sel None 0 (lines body))
    (lines (rewrite_marks_where body column checked sel)).
Proof.
  unfold rewrite_marks_where.
  pose proof (rewrite_go_lines column checked sel None 0 (lines body) (lines_free body)) as HF.
  destruct (split_lines_inv body) as (ls & last & -> & Hls & Hlast).
  rewrite lines_unlines in * by done.
  set (P := rewrite_go _ _ _ _ _ _) in *. clearbody P.
  destruct last as [|c t].
  - cbn [is_empty] in *. rewrite app_nil_r in *. rewrite str_app_nil_r.
    assert (negb (ends_with nl (unlines ls)) && ends_with nl (unlines P) = false) as ->.
    { destruct ls as [|l ls _] using rev_ind; [by apply Forall2_nil_inv_l in HF as ->|].
      by rewrite unlines_snoc, <- str_app_assoc, ends_with_app. }
    rewrite <- (str_app_nil_r (unlines P)), lines_unlines; [|by eapply (Forall2_char_free (λ l l', l ≠ "" → l' ≠ ""))|done].
    cbn [is_empty]. rewrite app_nil_r. apply Forall2_same_line_strip.
  - cbn [is_empty] in *. apply Forall2_app_inv_l in HF as (P' & Q & HF & HQ & ->).
    apply Forall2_cons_inv_l in HQ as (p & Q' & [Hp Hpne] & ->%Forall2_nil_inv_l & ->).
    specialize (Hpne ltac:(done)).
    rewrite ends_with_nl_free by done. rewrite unlines_snoc, <- str_app_assoc, ends_with_app.
    cbn [negb andb]. rewrite str_length_app.
    replace (String.length (unlines P' +:+ p) + String.length nl - 1)
      with (String.length (unlines P' +:+ p)) by (cbn; lia).
    rewrite take_bytes_app, lines_unlines; [|by eapply (Forall2_char_free (λ l l', l ≠ "" → l' ≠ ""))|done].
    apply Forall2_app; [apply Forall2_same_line_strip|].
    destruct p; [done|]. repeat constructor.
Qed.

(** Ticking the checklist changes exactly the marks asked for. For every plan
    text, column and choice of row numbers, reading the rewritten text gives the
    rows of the original text in the same order and with the same criteria,
    where the chosen rows have the new mark in that column and every other mark
    is kept. Rows are numbered from 1 in the order of the first checklist
    section, rows without criterion text included. *)
Lemma rewrite_changes_selected_marks (body : string) (column : Column) (checked : bool)
    (should_rewrite : N → bool) :
  counted_rows (rewrite_marks_where body column checked should_rewrite)
    = imap (λ i row, if should_rewrite (N.of_nat (S i) `mod` (u32_max + 1))%N
                     then set_mark column checked row else row) (counted_rows body)
  ∧ parse_dual_rows (rewrite_marks_where body column checked should_rewrite)
    = bfilter named (counted_rows (rewrite_marks_where body column checked should_rewrite)).
Proof.
  split; [|apply parse_counted_go]. unfold counted_rows.
  rewrite <- (counted_go_same None _ _ (rewrite_lines body column checked should_rewrite)).
  by rewrite counted_rewrite_go.
Qed.

(** The number a reader of the parsed table gives a row is not the number the
    rewriter uses once a row has no criterion text: accepting criterion 2 of
    this plan leaves it unaccepted. *)
Definition unnamed_row_plan : string :=
  join nl ["## Acceptance checklist"; "| [x] | [ ] | a |"; "| [x] | [ ] |  |"; "| [x] | [ ] | b |"; ""].

Lemma unnamed_row_shifts_numbers :
  criterion <$> parse_dual_rows unnamed_row_plan = ["a"; "b"]
  ∧ audit <$> parse_dual_rows (rewrite_audit_marks_for_criteria unnamed_row_plan [2%N] true) = [false; false].
Proof. split; vm_compute; reflexivity. Qed.

(** An item numbered [1)] whose text has a full stop is not taken as a criterion. *)
Lemma paren_item_with_period_dropped :
  extract_numbered_acceptance_criteria
    (join nl ["## Acceptance criteria"; "1) Prints a."; "2) Prints b"]) = ["Prints b"].
Proof. vm_compute. reflexivity. Qed.

(** The escape of a pipe is not undone by the table reader. *)
Lemma escaped_pipe_is_split :
  criterion <$> parse_dual_rows (ensure_dual_checklist_section
    (join nl ["## Acceptance criteria"; "1. a|b"])) = ["a\ | b"].
Proof. vm_compute. reflexivity. Qed.

(** ** The gate *)

Lemma find_none_all {A} (f : A → bool) l : List.find f l = None ↔ ∀ x, x ∈ l → f x = false.
Proof.
  split.
  - intros H x Hx. apply (find_none f l H). by apply list_elem_of_In.
  - intros H. destruct (List.find f l) as [x|] eqn:E; [|done].
    apply find_some in E as [Hx Hf]. rewrite (H x) in Hf; [done|by apply list_elem_of_In].
Qed.

(** A plan whose checklist has rows, all of them claimed. *)
Definition claimed_plan (body : string) : Prop :=
  parse_dual_rows body ≠ [] ∧ ∀ r, r ∈ parse_dual_rows body → exec r = true.

(** The completion gate opens exactly when the plan can be read, has a
    checklist, and every row's Exec mark is ticked; otherwise its message names
    the first open criterion. *)
Lemma exec_gate_iff_all_claimed (path : string) (read : result string string) :
  (require_exec_complete path read = Ok tt ↔ ∃ body, read = Ok body ∧ claimed_plan body)
  ∧ ∀ body, read = Ok body → all_exec_checked body = false → parse_dual_rows body ≠ [] →
      ∃ open msg, first_unchecked_exec body = Some open
        ∧ require_exec_complete path read = Err (msg +:+ open).
Proof.
  unfold require_exec_complete, all_exec_checked, first_unchecked_exec, claimed_plan. split.
  - destruct read as [body|e]; [|split; [done|by intros (? & ? & _)]].
    destruct (is_nil (parse_dual_rows body)) eqn:E.
    { apply is_nil_true in E. split; [done|]. by intros (b & [= <-] & Hne & _). }
    assert (parse_dual_rows body ≠ []) as Hne by (intros Hn; by rewrite Hn in E).
    destruct (List.find _ _) as [pending|] eqn:Hf.
    + split; [done|]. intros (b & [= <-] & _ & Hall). apply find_some in Hf as [Hin Hx].
      apply list_elem_of_In in Hin. by rewrite Hall in Hx.
    + split; [|done]. intros _. exists body. split_and!; [done..|]. intros r Hr.
      rewrite find_none_all in Hf. specialize (Hf r Hr). by apply negb_false_iff.
  - intros body -> Ha Hne.
    assert (is_nil (parse_dual_rows body) = false) as E by by destruct (parse_dual_rows body).
    rewrite E in *. cbn [negb andb] in Ha. apply all_false in Ha as (r & Hr & Hx).
    destruct (List.find _ _) as [pending|] eqn:Hf.
    + exists (criterion pending). eexists. split; [done|]. by rewrite <- !str_app_assoc.
    + rewrite find_none_all in Hf. specialize (Hf r Hr). by rewrite Hx in Hf.
Qed.
