(* ===== verification/PlanWrite.v ===== *)
(** * Concurrent writers of a plan file ([goal_plan_write.rs])

    Every harness update of [plan.md] is a read-modify-write under a lock of its
    path. Several writers run at once; the lock table is created on first use
    and only held while a lock is looked up. This file models the writers as a
    step relation over the shared files, the lock table and the held locks, and
    shows that their rewrites take effect one after the other. *)

From Stdlib Require Import String.
From S2P Require Import Prelude.
From stdpp Require Import options.

(** A plan write: the path, and what the closure does to the body it reads. *)
Record PlanWriter : Type := mkWriter {
  path : string;
  rewrite : string → string;
}.

(** Where a writer is in [with_plan_lock]. *)
Inductive WriterState : Type :=
| Idle                              (* before lock_for *)
| Waiting (lock : nat)              (* has the Arc, not the guard *)
| Locked (lock : nat)               (* holds the guard, has not read *)
| Modifying (lock : nat) (body : string)  (* has read the body *)
| Releasing (lock : nat)            (* write done, guard not dropped *)
| Finished.

#[export] Instance WriterState_eq_dec : EqDecision WriterState.
Proof. solve_decision. Defined.

Record PlanSystem : Type := mkSystem {
  files : gmap string string;
  locks : gmap string nat;          (* PLAN_LOCKS *)
  held : gset nat;
  states : list WriterState;
  log : list nat;                   (* writers whose rewrite took effect, in order *)
}.

(** [lock_for]: the entry of the path, a fresh lock when there is none. *)
Definition lock_for (locks : gmap string nat) (p : string) : nat * gmap string nat :=
  match locks !! p with
  | Some l => (l, locks)
  | None => let l := size locks in (l, <[p := l]> locks)
  end.

Section writers.
Context (writers : list PlanWriter).

(** One step of writer [i]. *)
Definition step_writer (s : PlanSystem) (i : nat) : option PlanSystem :=
  match writers !! i, states s !! i with
  | Some w, Some Idle =>
      let '(l, locks') := lock_for (locks s) (path w) in
      Some (mkSystem (files s) locks' (held s) (<[i := Waiting l]> (states s)) (log s))
  | Some w, Some (Waiting l) =>
      if decide (l ∈ held s) then None
      else Some (mkSystem (files s) (locks s) ({[l]} ∪ held s) (<[i := Locked l]> (states s)) (log s))
  | Some w, Some (Locked l) =>
      match files s !! path w with
      | Some body =>
          Some (mkSystem (files s) (locks s) (held s) (<[i := Modifying l body]> (states s)) (log s))
      | None => (* reading fails, the closure returns the error *)
          Some (mkSystem (files s) (locks s) (held s) (<[i := Releasing l]> (states s)) (log s))
      end
  | Some w, Some (Modifying l body) =>
      let updated := rewrite w body in
      let files' := if decide (updated = body) then files s else <[path w := updated]> (files s) in
      Some (mkSystem files' (locks s) (held s) (<[i := Releasing l]> (states s)) (log s ++ [i]))
  | Some w, Some (Releasing l) =>
      Some (mkSystem (files s) (locks s) (held s ∖ {[l]}) (<[i := Finished]> (states s)) (log s))
  | _, _ => None
  end.

Definition plan_step (s s' : PlanSystem) : Prop := ∃ i, step_writer s i = Some s'.

Definition plan_init (files0 : gmap string string) : PlanSystem :=
  mkSystem files0 ∅ ∅ (replicate (length writers) Idle) [].

(** The lock a writer refers to, and whether it holds it. *)
Definition lock_of (st : WriterState) : option nat :=
  match st with
  | Waiting l | Locked l | Modifying l _ | Releasing l => Some l
  | _ => None
  end.
Definition holds (st : WriterState) : bool :=
  match st with Locked _ | Modifying _ _ | Releasing _ => true | _ => false end.
(** Writers whose rewrite is in the log. *)
Definition logged (st : WriterState) : bool :=
  match st with Releasing _ | Finished => true | _ => false end.

(** The rewrites of the log, in order, restricted to one path. *)
Definition apply_log (p : string) (l : list nat) (body : string) : string :=
  foldl (λ b i, match writers !! i with
                | Some w => if decide (path w = p) then rewrite w b else b
                | None => b
                end) body l.

Record plan_inv (files0 : gmap string string) (s : PlanSystem) : Prop := mkPlanInv {
  inv_length : length (states s) = length writers;
  inv_locks_inj : ∀ p q l, locks s !! p = Some l → locks s !! q = Some l → p = q;
  inv_locks_lt : ∀ p l, locks s !! p = Some l → l < size (locks s);
  inv_lock : ∀ i w st l, writers !! i = Some w → states s !! i = Some st →
    lock_of st = Some l → locks s !! path w = Some l;
  inv_holds : ∀ i st l, states s !! i = Some st → lock_of st = Some l → holds st = true → l ∈ held s;
  inv_excl : ∀ i j st su l, states s !! i = Some st → states s !! j = Some su →
    lock_of st = Some l → lock_of su = Some l → holds st = true → holds su = true → i = j;
  inv_held : ∀ l, l ∈ held s → ∃ i st, states s !! i = Some st ∧ lock_of st = Some l ∧ holds st = true;
  inv_body : ∀ i w l body, writers !! i = Some w → states s !! i = Some (Modifying l body) →
    files s !! path w = Some body;
  inv_files : ∀ p, files s !! p = apply_log p (log s) <$> files0 !! p;
  inv_log : NoDup (log s) ∧ ∀ i, i ∈ log s → ∃ st, states s !! i = Some st ∧ logged st = true;
}.

Lemma plan_init_inv files0 : plan_inv files0 (plan_init files0).
Proof.
  assert (∀ i st, replicate (length writers) Idle !! i = Some st → st = Idle) as Hidle.
  { intros i st [-> _]%lookup_replicate. done. }
  split; cbn.
  - apply length_replicate.
  - intros p q l Hp. by rewrite lookup_empty in Hp.
  - intros p l Hp. by rewrite lookup_empty in Hp.
  - by intros i w st l _ ->%Hidle.
  - by intros i st l ->%Hidle.
  - by intros i j st su l ->%Hidle.
  - intros l Hl. set_solver.
  - by intros i w l body _ ?%Hidle.
  - intros p. by destruct (files0 !! p).
  - split; [constructor|]. intros i Hi. by apply elem_of_nil in Hi.
Qed.

Lemma lock_for_spec ls p l ls' :
  lock_for ls p = (l, ls') →
  ls' !! p = Some l ∧ ((ls !! p = Some l ∧ ls' = ls) ∨ (ls !! p = None ∧ l = size ls ∧ ls' = <[p := l]> ls)).
Proof.
  unfold lock_for. destruct (ls !! p) as [m|] eqn:E; intros [= <- <-].
  - split; [done|by left].
  - split; [apply lookup_insert_eq|by right].
Qed.

(** Replacing the state of writer [i]: facts about the others carry over. *)
Lemma states_insert (sts : list WriterState) i st j su :
  <[i := st]> sts !! j = Some su → (j = i ∧ su = st) ∨ (j ≠ i ∧ sts !! j = Some su).
Proof.
  intros H. destruct (decide (j = i)) as [->|Hne].
  - pose proof (lookup_lt_Some _ _ _ H) as Hl. rewrite length_insert in Hl.
    rewrite list_lookup_insert_eq in H by done. left. by simplify_eq.
  - rewrite list_lookup_insert_ne in H by done. by right.
Qed.

Lemma apply_log_snoc p l i body :
  apply_log p (l ++ [i]) body =
    match writers !! i with
    | Some w => if decide (path w = p) then rewrite w (apply_log p l body) else apply_log p l body
    | None => apply_log p l body
    end.
Proof. unfold apply_log. rewrite foldl_app. done. Qed.

(** Case analysis on the writers named by looked-up states. *)
Ltac on_states :=
  repeat match goal with
  | H : <[_ := _]> _ !! _ = Some _ |- _ => apply states_insert in H as [[-> ?]|[? H]]; simplify_eq/=; try done
  end; cbn in *; simplify_eq/=.

Lemma inv_step_lock files0 s i w l ls' :
  plan_inv files0 s → writers !! i = Some w → states s !! i = Some Idle →
  lock_for (locks s) (path w) = (l, ls') →
  plan_inv files0 (mkSystem (files s) ls' (held s) (<[i := Waiting l]> (states s)) (log s)).
Proof.
  intros [Hlen Hinj Hlt Hlock Hholds Hex Hheld Hbody Hfiles [Hnd Hlog]] Hw Hst Hl.
  apply lock_for_spec in Hl as [Hl Hcase].
  assert (∀ p m, locks s !! p = Some m → ls' !! p = Some m) as Hmono.
  { intros p m Hp. destruct Hcase as [[_ ->]|(Hn & _ & ->)]; [done|].
    rewrite lookup_insert_ne; [done|]. intros <-. congruence. }
  split; cbn; [by rewrite length_insert|..].
  - destruct Hcase as [[_ ->]|(Hn & -> & ->)]; [done|]. intros p q m Hp Hq.
    rewrite !lookup_insert in *. repeat case_decide; simplify_eq;
      first [done | by eapply Hinj | apply Hlt in Hq; lia | apply Hlt in Hp; lia].
  - destruct Hcase as [[_ ->]|(Hn & -> & ->)]; [done|]. intros p m Hp.
    rewrite map_size_insert_None by done. rewrite lookup_insert in Hp. case_decide; simplify_eq; [lia|].
    apply Hlt in Hp. lia.
  - intros j v st m Hv Hj Hm. on_states. by eauto.
  - intros j st m Hj Hm Hh. on_states. eauto.
  - intros j k st su m Hj Hk Hm Hm' Hh Hh'. on_states. by eapply (Hex j k).
  - intros m Hm. destruct (Hheld m Hm) as (j & st & Hj & ? & ?). exists j, st.
    split; [|done]. rewrite list_lookup_insert_ne; [done|]. intros <-. by simplify_eq.
  - intros j v m body Hv Hj. on_states. by eapply Hbody.
  - done.
  - split; [done|]. intros j Hj. destruct (Hlog j Hj) as (st & Hs & ?). exists st.
    split; [|done]. rewrite list_lookup_insert_ne; [done|]. intros <-. by simplify_eq.
Qed.

(** Steps that move writer [i] along without touching the lock table: what the
    new state must satisfy. *)
Lemma inv_step_acquire files0 s i w l :
  plan_inv files0 s → writers !! i = Some w → states s !! i = Some (Waiting l) → l ∉ held s →
  plan_inv files0 (mkSystem (files s) (locks s) ({[l]} ∪ held s) (<[i := Locked l]> (states s)) (log s)).
Proof.
  intros [Hlen Hinj Hlt Hlock Hholds Hex Hheld Hbody Hfiles [Hnd Hlog]] Hw Hst Hl.
  split; cbn; [by rewrite length_insert|done|done|..].
  - intros j v st m Hv Hj Hm. on_states; [|by eauto]. by eapply (Hlock i).
  - intros j st m Hj Hm Hh. on_states; set_solver.
  - intros j k st su m Hj Hk Hm Hm' Hh Hh'. on_states;
      first [done | by eapply (Hex j k) | exfalso; apply Hl; first [by eapply (Hholds j) | by eapply (Hholds k)]].
  - intros m [->%elem_of_singleton|Hm]%elem_of_union.
    + exists i, (Locked l). split; [|done]. apply list_lookup_insert_eq. by eapply lookup_lt_Some.
    + destruct (Hheld m Hm) as (j & st & Hj & ? & ?). exists j, st.
      split; [|done]. rewrite list_lookup_insert_ne; [done|]. intros <-. by simplify_eq.
  - intros j v m body Hv Hj. on_states. by eapply Hbody.
  - done.
  - split; [done|]. intros j Hj. destruct (Hlog j Hj) as (st & Hs & ?). exists st.
    split; [|done]. rewrite list_lookup_insert_ne; [done|]. intros <-. by simplify_eq.
Qed.

(** A holder of the lock that stays one: reading the body, or failing to. *)
Lemma inv_step_read files0 s i w l st' :
  plan_inv files0 s → writers !! i = Some w → states s !! i = Some (Locked l) →
  (st' = Releasing l ∨ ∃ body, files s !! path w = Some body ∧ st' = Modifying l body) →
  plan_inv files0 (mkSystem (files s) (locks s) (held s) (<[i := st']> (states s)) (log s)).
Proof.
  intros [Hlen Hinj Hlt Hlock Hholds Hex Hheld Hbody Hfiles [Hnd Hlog]] Hw Hst Hst'.
  assert (lock_of st' = Some l ∧ holds st' = true) as [Hl' Hh'] by naive_solver.
  split; cbn; [by rewrite length_insert|done|done|..].
  - intros j v st m Hv Hj Hm. on_states; [|by eauto]. by eapply (Hlock i).
  - intros j st m Hj Hm Hh. on_states; [|by eauto]. by eapply (Hholds i).
  - intros j k st su m Hj Hk Hm Hm' ??. on_states;
      first [done | by eapply (Hex j k) | by eapply (Hex i k) | by eapply (Hex j i)].
  - intros m Hm. destruct (Hheld m Hm) as (j & st & Hj & ? & ?). destruct (decide (j = i)) as [->|].
    + exists i, st'. simplify_eq/=. split; [|done]. apply list_lookup_insert_eq. by eapply lookup_lt_Some.
    + exists j, st. by rewrite list_lookup_insert_ne.
  - intros j v m body Hv Hj. destruct Hst' as [->|(b & Hb & ->)]; on_states; eauto.
  - done.
  - split; [done|]. intros j Hj. destruct (Hlog j Hj) as (st & Hs & ?). exists st.
    split; [|done]. rewrite list_lookup_insert_ne; [done|]. intros <-. by simplify_eq.
Qed.

Lemma inv_step_write files0 s i w l body files' :
  plan_inv files0 s → writers !! i = Some w → states s !! i = Some (Modifying l body) →
  (∀ p, files' !! p = if decide (p = path w) then Some (rewrite w body) else files s !! p) →
  plan_inv files0 (mkSystem files' (locks s) (held s) (<[i := Releasing l]> (states s)) (log s ++ [i])).
Proof.
  intros [Hlen Hinj Hlt Hlock Hholds Hex Hheld Hbody Hfiles [Hnd Hlog]] Hw Hst Hf.
  split; cbn; [by rewrite length_insert|done|done|..].
  - intros j v st m Hv Hj Hm. on_states; [|by eauto]. by eapply (Hlock i).
  - intros j st m Hj Hm Hh. on_states; [|by eauto]. by eapply (Hholds i).
  - intros j k st su m Hj Hk Hm Hm' ??. on_states;
      first [done | by eapply (Hex j k) | by eapply (Hex i k) | by eapply (Hex j i)].
  - intros m Hm. destruct (Hheld m Hm) as (j & st & Hj & ? & ?). destruct (decide (j = i)) as [->|].
    + exists i, (Releasing l). simplify_eq/=. split; [|done]. apply list_lookup_insert_eq. by eapply lookup_lt_Some.
    + exists j, st. by rewrite list_lookup_insert_ne.
  - intros j v m b Hv Hj. on_states. rewrite Hf. destruct (decide (path v = path w)) as [E|]; [|by eapply Hbody].
    exfalso. pose proof (Hlock j v _ m Hv Hj eq_refl) as Hlj. pose proof (Hlock i w _ l Hw Hst eq_refl) as Hli.
    rewrite E in Hlj. simplify_eq. assert (j = i) as -> by (by eapply (Hex j i _ _ m)). done.
  - intros p. rewrite Hf, (Hfiles p). destruct (decide (p = path w)) as [->|Hne].
    + pose proof (Hbody i w l body Hw Hst) as Hb. rewrite Hfiles in Hb.
      destruct (files0 !! path w); [|done]. cbn in *. rewrite apply_log_snoc, Hw, decide_True by done. by simplify_eq.
    + destruct (files0 !! p); [|done]. cbn. rewrite apply_log_snoc, Hw. by rewrite decide_False.
  - split.
    + apply NoDup_app. split_and!; [done| |repeat constructor; set_solver].
      intros j Hj ->%list_elem_of_singleton. destruct (Hlog i Hj) as (st & Hs & Hlg). by simplify_eq.
    + intros j [Hj| ->%list_elem_of_singleton]%elem_of_app.
      * destruct (Hlog j Hj) as (st & Hs & ?). exists st. split; [|done].
        rewrite list_lookup_insert_ne; [done|]. intros <-. by simplify_eq.
      * exists (Releasing l). split; [|done]. apply list_lookup_insert_eq. by eapply lookup_lt_Some.
Qed.

Lemma inv_step_release files0 s i w l :
  plan_inv files0 s → writers !! i = Some w → states s !! i = Some (Releasing l) →
  plan_inv files0 (mkSystem (files s) (locks s) (held s ∖ {[l]}) (<[i := Finished]> (states s)) (log s)).
Proof.
  intros [Hlen Hinj Hlt Hlock Hholds Hex Hheld Hbody Hfiles [Hnd Hlog]] Hw Hst.
  split; cbn; [by rewrite length_insert|done|done|..].
  - intros j v st m Hv Hj Hm. on_states. by eauto.
  - intros j st m Hj Hm Hh. on_states. apply elem_of_difference. split; [by eauto|].
    intros ->%elem_of_singleton. assert (j = i) as -> by (by eapply (Hex j i)). done.
  - intros j k st su m Hj Hk Hm Hm' ??. on_states. by eapply (Hex j k).
  - intros m [Hm Hml]%elem_of_difference. destruct (Hheld m Hm) as (j & st & Hj & ? & ?).
    exists j, st. rewrite list_lookup_insert_ne; [done|]. intros <-. simplify_eq/=. set_solver.
  - intros j v m b Hv Hj. on_states. by eapply Hbody.
  - done.
  - split; [done|]. intros j Hj. destruct (Hlog j Hj) as (st & Hs & ?). destruct (decide (j = i)) as [->|].
    + exists Finished. split; [|done]. apply list_lookup_insert_eq. by eapply lookup_lt_Some.
    + exists st. by rewrite list_lookup_insert_ne.
Qed.

Lemma plan_step_inv files0 s s' : plan_inv files0 s → plan_step s s' → plan_inv files0 s'.
Proof.
  intros Hinv [i Hs]. unfold step_writer in Hs.
  destruct (writers !! i) as [w|] eqn:Hw; [|done].
  destruct (states s !! i) as [[|l|l|l body|l|]|] eqn:Hst; try done.
  - destruct (lock_for (locks s) (path w)) as [l ls'] eqn:Hl. injection Hs as <-.
    by eapply inv_step_lock.
  - case_decide; [done|]. injection Hs as <-. by eapply inv_step_acquire.
  - destruct (files s !! path w) as [body|] eqn:Hf; injection Hs as <-;
      eapply inv_step_read; eauto.
  - injection Hs as <-. eapply inv_step_write; [done..|]. intros p.
    pose proof (inv_body _ _ Hinv i w l body Hw Hst) as Hb.
    case_decide as Hu; [rewrite Hu; by case_decide; subst|].
    rewrite lookup_insert. repeat case_decide; congruence.
  - injection Hs as <-. by eapply inv_step_release.
Qed.

Lemma plan_reachable_inv files0 s : rtc plan_step (plan_init files0) s → plan_inv files0 s.
Proof.
  intros Hr. pose proof (plan_init_inv files0) as Hi. revert Hi.
  induction Hr as [|s s' s'' Hs _ IH]; eauto using plan_step_inv.
Qed.

(** Plan writes are serialized. However the writers of any number of plan
    files interleave, every file holds what running the rewrites one after the
    other gives, in the order they took effect, so no mark another writer set
    or cleared is lost; each writer takes effect at most once, and at most one
    writer at a time is inside the read-modify-write of a path. *)
Lemma plan_writes_serialize (files0 : gmap string string) (s : PlanSystem) :
  rtc plan_step (plan_init files0) s →
  (∀ p, files s !! p = apply_log p (log s) <$> files0 !! p) ∧ NoDup (log s)
  ∧ ∀ i j w v st su, writers !! i = Some w → writers !! j = Some v → path w = path v →
      states s !! i = Some st → states s !! j = Some su → holds st = true → holds su = true → i = j.
Proof.
  intros Hr%plan_reachable_inv. split_and!; [apply Hr|apply Hr|].
  intros i j w v st su Hw Hv Hp Hi Hj Hhi Hhj.
  destruct (lock_of st) as [l|] eqn:Hl; [|by destruct st].
  destruct (lock_of su) as [m|] eqn:Hm; [|by destruct su].
  pose proof (inv_lock _ _ Hr i w st l Hw Hi Hl) as Hli.
  pose proof (inv_lock _ _ Hr j v su m Hv Hj Hm) as Hlj.
  rewrite Hp in Hli. simplify_eq. by eapply (inv_excl _ _ Hr i j).
Qed.

Lemma writer_can_step s i w st :
  writers !! i = Some w → states s !! i = Some st → st ≠ Finished →
  (∀ l, st = Waiting l → l ∉ held s) → is_Some (step_writer s i).
Proof.
  intros Hw Hst Hne Hwait. unfold step_writer. rewrite Hw, Hst.
  destruct st as [|l|l|l body|l|]; [by destruct (lock_for _ _)|..|done]; eauto.
  - rewrite decide_False by by apply Hwait. eauto.
  - destruct (files s !! path w); eauto.
Qed.

(** Plan writes do not deadlock. In every reachable state some writer can
    take a step until all of them have finished; a writer that waits for a lock
    waits for one that another writer holds and can release. *)
Lemma plan_writes_progress (files0 : gmap string string) (s : PlanSystem) :
  rtc plan_step (plan_init files0) s →
  (∀ st, st ∈ states s → st = Finished) ∨ ∃ s', plan_step s s'.
Proof.
  intros Hr%plan_reachable_inv.
  destruct (decide (Forall (λ st, st = Finished) (states s))) as [Hall|Hall].
  { left. by rewrite Forall_forall in Hall. }
  right. apply not_Forall_Exists in Hall; [|apply _].
  apply Exists_exists in Hall as (st & Hst & Hnf). apply list_elem_of_lookup in Hst as [i Hi].
  assert (∀ k u, states s !! k = Some u → is_Some (writers !! k)) as Hwr.
  { intros k u Hk. apply lookup_lt_is_Some. rewrite <- (inv_length _ _ Hr). by eapply lookup_lt_Some. }
  assert (∀ k u l, states s !! k = Some u → lock_of u = Some l → holds u = true → ∃ s', plan_step s s') as Hgo.
  { intros k u l Hk Hl Hh. destruct (Hwr k u Hk) as [w Hw].
    destruct (writer_can_step s k w u) as [s' Hs']; [done..|by intros ->|by intros ? ->|].
    by exists s', k. }
  destruct (Hwr i st Hi) as [w Hw].
  assert (is_Some (step_writer s i) ∨ ∃ l, st = Waiting l ∧ l ∈ held s) as [[s' Hs']|(l & -> & Hl)].
  { destruct st as [|l|l|l b|l|]; try (left; by eapply writer_can_step).
    destruct (decide (l ∈ held s)); [right; by exists l|left]. eapply writer_can_step; try done.
    by intros ? [= <-]. }
  - by exists s', i.
  - destruct (inv_held _ _ Hr l Hl) as (k & u & Hk & Hlk & Hhk). by eapply Hgo.
Qed.

End writers.

(** ** A run with two writers *)

Definition demo_writers : list PlanWriter :=
  [mkWriter "plan.md" (λ b, b +:+ "1"); mkWriter "plan.md" (λ b, b +:+ "2")].

Fixpoint run_writers (ws : list PlanWriter) (schedule : list nat) (s : PlanSystem) : option PlanSystem :=
  match schedule with
  | [] => Some s
  | i :: schedule => match step_writer ws s i with
                     | Some s' => run_writers ws schedule s'
                     | None => None
                     end
  end.

Lemma run_writers_reachable ws schedule s s' :
  run_writers ws schedule s = Some s' → rtc (plan_step ws) s s'.
Proof.
  revert s. induction schedule as [|i schedule IH]; intros s; cbn; [by intros [= ->]|].
  destruct (step_writer ws s i) as [t|] eqn:E; [|done]. intros Ht%IH.
  eapply rtc_l; [by exists i|done].
Qed.

(** Both look the lock up, writer 1 goes first, writer 0 waits for it. *)
Definition demo_schedule : list nat := [0; 1; 1; 1; 1; 1; 0; 0; 0; 0].

Definition demo_files : gmap string string := {["plan.md" := "x"]}.
Definition demo_state : PlanSystem :=
  match run_writers demo_writers demo_schedule (plan_init demo_writers demo_files) with
  | Some s => s
  | None => plan_init demo_writers demo_files
  end.

Lemma demo_reachable : rtc (plan_step demo_writers) (plan_init demo_writers demo_files) demo_state.
Proof. apply (run_writers_reachable _ demo_schedule). vm_compute. reflexivity. Qed.

Lemma demo_run : files demo_state !! "plan.md" = Some "x21" ∧ log demo_state = [1; 0].
Proof. split; vm_compute; reflexivity. Qed.

Lemma plan_writes_serialize_witness :
  files demo_state !! "plan.md" = apply_log demo_writers "plan.md" [1; 0] <$> demo_files !! "plan.md".
Proof.
  destruct (plan_writes_serialize demo_writers demo_files demo_state demo_reachable) as (H & _).
  exact (H "plan.md").
Defined.

Lemma plan_writes_progress_witness :
  (∀ st, st ∈ states demo_state → st = Finished) ∨ ∃ s', plan_step demo_writers demo_state s'.
Proof. exact (plan_writes_progress demo_writers demo_files demo_state demo_reachable). Defined.
