(* ===== verification/CriteriaView.v ===== *)
(** * The projected criteria ([CriterionView] of goal_tracker.rs, [with_dependents]
    and [build_criteria_view] of goal_criterion_graph.rs)

    One row per acceptance criterion, joining the checklist, the dependency
    table and the list of what the run gave up on; and the set of criteria a
    rejection takes down with it. *)

From Stdlib Require Import String Sorted.
From S2P Require Import Prelude RustStr Checklist CriterionGraph GraphSchedule.
From stdpp Require Import options.

Record CriterionView : Type := mkView {
  cv_number : N;
  text : string;
  cv_exec : bool;
  cv_audit : bool;
  cv_depends_on : list N;
  cv_write_scope : list string;
  wave : option N;
  deferred : bool;
}.

#[export] Instance CriterionView_eq_dec : EqDecision CriterionView.
Proof. solve_decision. Defined.

Record DeferredCriterion : Type := mkDeferred {
  dc_criterion : option N;
  dc_reason : string;
}.

#[export] Instance DeferredCriterion_eq_dec : EqDecision DeferredCriterion.
Proof. solve_decision. Defined.

(** [a == b] on [Option<u32>]. *)
Definition opt_eqb (a b : option N) : bool := bool_decide (a = b).

(** ** What a rejection invalidates *)

(** One pass of the loop of [with_dependents]: rows are tested and pushed in order. *)
Fixpoint invalidate_pass (criteria : list CriterionView) (invalid : list N) : list N :=
  match criteria with
  | [] => invalid
  | c :: criteria =>
      if negb (contains (cv_number c) invalid) && any (λ d, contains d invalid) (cv_depends_on c)
      then invalidate_pass criteria (invalid ++ [cv_number c])
      else invalidate_pass criteria invalid
  end.

(** Every pass but the last adds a criterion, so the fuel is one pass per row
    and one more. *)
Fixpoint invalidate_loop (fuel : nat) (criteria : list CriterionView) (invalid : list N) : list N :=
  match fuel with
  | O => invalid
  | S fuel =>
      let invalid' := invalidate_pass criteria invalid in
      if (length invalid' =? length invalid)%nat then invalid'
      else invalidate_loop fuel criteria invalid'
  end.

(** [v.dedup()] *)
Fixpoint dedup {A} `{EqDecision A} (l : list A) : list A :=
  match l with
  | [] => []
  | x :: l =>
      match dedup l with
      | [] => [x]
      | y :: l' => if decide (x = y) then y :: l' else x :: y :: l'
      end
  end.

Definition with_dependents (criteria : list CriterionView) (refuted : list N) : list N :=
  dedup (merge_sort N.le (invalidate_loop (S (length criteria)) criteria refuted)).

(** ** The projection *)

Definition wave_of (waves : option (list (list N))) (n : N) : option N :=
  match waves with
  | None => None
  | Some ws =>
      if any (λ w, 1 <? length w) ws
      then as_u32 <$> position (contains n) ws
      else None
  end.

Definition view_row (graph : CriterionGraph) (deferrals : list DeferredCriterion)
    (i : nat) (row : DualRow) : CriterionView :=
  let number := u32_succ (as_u32 i) in
  let node := find_node graph number in
  {| cv_number := number;
     text := criterion row;
     cv_exec := exec row;
     cv_audit := audit row;
     cv_depends_on := match node with Some n => depends_on n | None => [] end;
     cv_write_scope := match node with Some n => write_scope n | None => [] end;
     wave := wave_of (parallel_waves graph) number;
     deferred := any (λ d, opt_eqb (dc_criterion d) None) deferrals
                 || any (λ d, opt_eqb (dc_criterion d) (Some number)) deferrals |}.

Definition build_criteria_view (body : string) (deferrals : list DeferredCriterion) : list CriterionView :=
  let rows := parse_dual_rows body in
  if is_nil rows then []
  else
    let graph := load_criterion_graph body (length rows) in
    imap (view_row graph deferrals) rows.

(** ** Facts *)

Section invalidation.
Context (criteria : list CriterionView).

(** Criterion [x] is declared to depend on [d]. *)
Definition built_on (d x : N) : Prop :=
  ∃ c, c ∈ criteria ∧ cv_number c = x ∧ d ∈ cv_depends_on c.

(** Rows the loop may still add. *)
Definition pending (invalid : list N) : nat :=
  length (bfilter (λ c, negb (contains (cv_number c) invalid)) criteria).

Lemma pass_spec cs invalid :
  ∃ added, invalidate_pass cs invalid = (invalid ++ added)
    ∧ (∀ x, x ∈ added → (x ∉ invalid) ∧ ∃ c, c ∈ cs ∧ cv_number c = x).
Proof.
  revert invalid. induction cs as [|c cs IH]; intros invalid; cbn [invalidate_pass].
  { exists []. rewrite app_nil_r. split; [done|]. by intros x ?%elem_of_nil. }
  destruct (negb _ && _) eqn:E.
  - apply andb_true_iff in E as [Hn _]. apply negb_true_iff, contains_false in Hn.
    destruct (IH (invalid ++ [cv_number c])) as (added & -> & Hadd).
    exists (cv_number c :: added). rewrite <- app_assoc. split; [done|].
    intros x [->|Hx]%elem_of_cons.
    + split; [done|]. exists c. split; [left|done].
    + destruct (Hadd x Hx) as (Hni & k & Hk & Hkx). split; [set_solver|].
      exists k. split; [by right|done].
  - destruct (IH invalid) as (added & -> & Hadd). exists added. split; [done|].
    intros x Hx. destruct (Hadd x Hx) as (? & k & ? & ?). split; [done|]. exists k. split; [by right|done].
Qed.

(** Everything in the result is built on something that was there before. *)
Lemma pass_sound cs invalid x :
  (∀ c, c ∈ cs → c ∈ criteria) → x ∈ invalidate_pass cs invalid →
  ∃ r, r ∈ invalid ∧ rtc built_on r x.
Proof.
  revert invalid. induction cs as [|c cs IH]; intros invalid Hcs Hx; [by exists x|].
  cbn [invalidate_pass] in Hx. destruct (negb _ && _) eqn:E; [|apply IH; [set_solver|done]].
  apply andb_true_iff in E as [_ (d & Hd & Hi%contains_spec)%any_spec].
  destruct (IH (invalid ++ [cv_number c])) as (r & Hr & Hrx); [set_solver|done|].
  apply elem_of_app in Hr as [Hr| ->%list_elem_of_singleton]; [by exists r|].
  exists d. split; [done|]. eapply rtc_l; [|exact Hrx]. exists c. split_and!; [|done..]. apply Hcs. left.
Qed.

(** A pass that adds nothing left nothing to add. *)
Lemma pass_closed cs invalid :
  invalidate_pass cs invalid = invalid →
  ∀ c d, c ∈ cs → d ∈ cv_depends_on c → d ∈ invalid → cv_number c ∈ invalid.
Proof.
  revert invalid. induction cs as [|c0 cs IH]; intros invalid Hp c d Hc Hd Hi; [by apply elem_of_nil in Hc|].
  cbn [invalidate_pass] in Hp. destruct (negb _ && _) eqn:E.
  - destruct (pass_spec cs (invalid ++ [cv_number c0])) as (added & Ha & _). rewrite Ha in Hp.
    apply (f_equal length) in Hp. rewrite !length_app in Hp. cbn in Hp. lia.
  - apply elem_of_cons in Hc as [->|Hc]; [|by eapply IH].
    apply andb_false_iff in E as [E|E].
    + apply negb_false_iff in E. by apply contains_spec.
    + exfalso. apply not_true_iff_false in E. apply E. apply any_spec. exists d.
      split; [done|]. by apply contains_spec.
Qed.

Lemma pass_pending invalid :
  invalidate_pass criteria invalid ≠ invalid → pending (invalidate_pass criteria invalid) < pending invalid.
Proof.
  destruct (pass_spec criteria invalid) as (added & -> & Hadd). intros Hne.
  destruct added as [|x added]; [by rewrite app_nil_r in Hne|].
  destruct (Hadd x ltac:(left)) as (Hni & c & Hc & <-).
  unfold pending. apply (bfilter_length_lt _ _ _ c); [|done|..].
  - intros k. rewrite contains_app. by destruct (contains (cv_number k) invalid); cbn.
  - by apply negb_true_iff, contains_false.
  - apply negb_false_iff, contains_spec, elem_of_app. right. left.
Qed.

Lemma pass_length invalid :
  length (invalidate_pass criteria invalid) = length invalid → invalidate_pass criteria invalid = invalid.
Proof.
  destruct (pass_spec criteria invalid) as ([|x added] & -> & _); [by rewrite app_nil_r|].
  rewrite length_app. cbn. intros. lia.
Qed.

Lemma loop_spec fuel invalid :
  pending invalid < fuel →
  let out := invalidate_loop fuel criteria invalid in
  (∀ x, x ∈ invalid → x ∈ out)
  ∧ (∀ d x, d ∈ out → built_on d x → x ∈ out)
  ∧ (∀ x, x ∈ out → ∃ r, r ∈ invalid ∧ rtc built_on r x).
Proof.
  revert invalid. induction fuel as [|fuel IH]; intros invalid Hf; [lia|]. cbn [invalidate_loop].
  destruct (Nat.eqb_spec (length (invalidate_pass criteria invalid)) (length invalid)) as [Hl|Hl].
  - rewrite (pass_length _ Hl). split_and!; [done| |intros x Hx; by exists x].
    intros d x Hd (c & Hc & <- & Hdc). by eapply (pass_closed criteria invalid); [apply pass_length|..].
  - assert (invalidate_pass criteria invalid ≠ invalid) as Hne by congruence.
    pose proof (pass_pending _ Hne).
    destruct (IH (invalidate_pass criteria invalid)) as (Hmono & Hclosed & Hsound); [lia|].
    split_and!; [|done|].
    + intros x Hx. apply Hmono. destruct (pass_spec criteria invalid) as (added & -> & _). set_solver.
    + intros x (r & Hr & Hrx)%Hsound. apply pass_sound in Hr as (q & Hq & Hqr); [|done].
      exists q. split; [done|]. by etrans.
Qed.

Lemma pending_bound invalid : pending invalid ≤ length criteria.
Proof. apply bfilter_length. Qed.
End invalidation.

Lemma elem_of_dedup {A} `{EqDecision A} (x : A) l : x ∈ dedup l ↔ x ∈ l.
Proof.
  induction l as [|y l IH]; [done|]. cbn [dedup]. rewrite elem_of_cons, <- IH.
  destruct (dedup l) as [|z l']; [set_solver|]. destruct (decide (y = z)); set_solver.
Qed.

Lemma dedup_sorted (l : list N) : Sorted N.le l → Sorted N.lt (dedup l).
Proof.
  induction 1 as [|x l Hs IH Hh]; [constructor|]. cbn [dedup].
  assert (∀ y, y ∈ dedup l → (x ≤ y)%N) as Hle.
  { intros y Hy. rewrite elem_of_dedup in Hy.
    assert (StronglySorted N.le (x :: l)) as Hss.
    { apply Sorted_StronglySorted; [apply _|by constructor]. }
    inversion Hss as [|? ? _ Hall]; subst. rewrite Forall_forall in Hall. by apply Hall. }
  destruct (dedup l) as [|z l'] eqn:E; [by repeat constructor|].
  destruct (decide (x = z)) as [->|Hne]; [done|]. constructor; [done|]. constructor.
  specialize (Hle z ltac:(left)). lia.
Qed.

(** A refuted criterion takes down exactly what was built on it. The result of
    [with_dependents] is strictly increasing, so free of duplicates, and holds a
    criterion if and only if a chain of declared dependencies, possibly empty,
    leads from it down to a refuted one; a dependency cycle does not make the
    expansion loop or miss a member. *)
Lemma with_dependents_closure (criteria : list CriterionView) (refuted : list N) :
  Sorted N.lt (with_dependents criteria refuted)
  ∧ ∀ x, x ∈ with_dependents criteria refuted ↔
      ∃ r, r ∈ refuted ∧ rtc (built_on criteria) r x.
Proof.
  split; [apply dedup_sorted, Sorted_merge_sort; intros ? ?; lia|].
  intros x. unfold with_dependents. rewrite elem_of_dedup, merge_sort_Permutation.
  destruct (loop_spec criteria (S (length criteria)) refuted) as (Hmono & Hclosed & Hsound).
  { pose proof (pending_bound criteria refuted). lia. }
  split; [apply Hsound|]. intros (r & Hr & Hrx). apply Hmono in Hr. clear Hmono Hsound.
  induction Hrx as [|y z w Hyz _ IH]; [done|]. apply IH. by eapply Hclosed.
Qed.

(** ** The projected rows *)

Lemma u32_succ_as_u32 i k : i < k → (N.of_nat k ≤ u32_max)%N → u32_succ (as_u32 i) = N.of_nat (S i).
Proof.
  intros Hi Hk. rewrite as_u32_small by lia. unfold u32_succ. rewrite N.mod_small; lia.
Qed.

Lemma load_lookup body k i :
  i < k → (N.of_nat k ≤ u32_max)%N →
  let g := load_criterion_graph body k in
  ∃ n, nodes g !! i = Some n ∧ number n = N.of_nat (S i) ∧ find_node g (N.of_nat (S i)) = Some n.
Proof.
  intros Hi Hk g. destruct (load_sound body k Hk) as (Hlen & Hv & _). fold g in Hlen, Hv.
  apply validate_nil in Hv as (Hnum & _). apply numbering_violations_nil in Hnum as [Hw _]; [|done].
  destruct (lookup_lt_is_Some_2 (nodes g) i) as [n Hn]; [by rewrite Hlen|].
  exists n. pose proof (well_numbered_lookup _ _ _ _ Hw Hn) as Hnn. split_and!; [done..|].
  rewrite <- Hnn. apply find_node_NoDup; [by eapply well_numbered_NoDup|by eapply list_elem_of_lookup_2].
Qed.

Lemma view_lookup body ds i v :
  build_criteria_view body ds !! i = Some v →
  ∃ row, parse_dual_rows body !! i = Some row
    ∧ v = view_row (load_criterion_graph body (length (parse_dual_rows body))) ds i row.
Proof.
  unfold build_criteria_view. destruct (is_nil _) eqn:E; [done|].
  rewrite list_lookup_imap. destruct (parse_dual_rows body !! i) as [row|] eqn:Hr; [|done].
  intros [= <-]. by exists row.
Qed.

(** Row [v] of the view at index [i], read against the plan. *)
Lemma view_row_spec body ds i v :
  let k := length (parse_dual_rows body) in
  let g := load_criterion_graph body k in
  (N.of_nat k ≤ u32_max)%N → build_criteria_view body ds !! i = Some v →
  cv_number v = N.of_nat (S i) ∧
  ∃ n, n ∈ nodes g ∧ number n = cv_number v ∧ cv_depends_on v = depends_on n
    ∧ cv_write_scope v = write_scope n ∧ wave v = wave_of (parallel_waves g) (cv_number v).
Proof.
  intros k g Hk (row & Hrow & ->)%view_lookup. pose proof (lookup_lt_Some _ _ _ Hrow) as Hi.
  destruct (load_lookup body k i Hi Hk) as (n & Hn & Hnum & Hf). fold g in Hn, Hf.
  unfold view_row. fold k g. rewrite (u32_succ_as_u32 i k Hi Hk).
  cbn [cv_number cv_depends_on cv_write_scope wave]. split; [done|].
  exists n. rewrite Hf. split_and!; try done. by eapply list_elem_of_lookup_2.
Qed.

Lemma wave_of_Some waves n w :
  wave_of waves n = Some w → ∃ ws i l, waves = Some ws ∧ w = as_u32 i ∧ ws !! i = Some l ∧ n ∈ l.
Proof.
  unfold wave_of. destruct waves as [ws|]; [|done]. destruct (any _ ws); [|done].
  intros (i & Hi & ->)%fmap_Some. apply position_Some in Hi as [(l & Hl & Hn%contains_spec) _].
  by exists ws, i, l.
Qed.

Lemma layering_length done ns ws : layering done ns ws → length ws ≤ length ns.
Proof.
  induction 1 as [|done ns ws Hr _ IH]; [done|]. cbn.
  pose proof (bfilter_split (deps_done done) ns).
  destruct (bfilter (deps_done done) ns); [done|]. cbn in *. lia.
Qed.

(** What the reader of the criteria view sees is the plan. The view has one
    row per checklist row, in order and numbered from 1, with its text and both
    marks, and a row is shown as deferred exactly when the whole goal or its
    number was. *)
Lemma view_shows_the_checklist (body : string) (ds : list DeferredCriterion) :
  (N.of_nat (length (parse_dual_rows body)) ≤ u32_max)%N →
  map (λ v, mkDualRow (cv_exec v) (cv_audit v) (text v)) (build_criteria_view body ds)
    = parse_dual_rows body
  ∧ map cv_number (build_criteria_view body ds)
    = map N.of_nat (seq 1 (length (parse_dual_rows body)))
  ∧ ∀ v, v ∈ build_criteria_view body ds →
      deferred v = true ↔ ∃ d, d ∈ ds ∧ (dc_criterion d = None ∨ dc_criterion d = Some (cv_number v)).
Proof.
  intros Hk. unfold build_criteria_view. set (g := load_criterion_graph _ _).
  assert (is_nil (parse_dual_rows body) = true → parse_dual_rows body = []) as Hnil by apply is_nil_true.
  destruct (is_nil (parse_dual_rows body)) eqn:E; [rewrite Hnil by done|clear Hnil].
  { split_and!; [done..|]. intros v Hv. by apply elem_of_nil in Hv. }
  split_and!.
  - apply list_eq. intros i. rewrite list_lookup_fmap, list_lookup_imap.
    destruct (parse_dual_rows body !! i) as [[e a c]|]; done.
  - apply list_eq. intros i. rewrite !list_lookup_fmap, list_lookup_imap.
    destruct (parse_dual_rows body !! i) as [row|] eqn:Hr; cbn.
    + pose proof (lookup_lt_Some _ _ _ Hr) as Hi. rewrite lookup_seq_lt by done. cbn.
      by rewrite (u32_succ_as_u32 i _ Hi Hk).
    + apply lookup_ge_None in Hr. by rewrite lookup_seq_ge.
  - intros v (i & row & -> & _)%elem_of_lookup_imap. cbn. rewrite orb_true_iff, !any_spec.
    unfold opt_eqb. setoid_rewrite bool_decide_eq_true. naive_solver.
Qed.

(** Criteria shown in one wave may be worked on at the same time, whatever the
    plan says. Two rows of the view with the same wave number neither depend on
    each other through any chain of the scheduled graph, nor share a file:
    both declare write scopes and no file lies in a scope of each. *)
Lemma same_wave_rows_are_independent (body : string) (ds : list DeferredCriterion)
    (a b : CriterionView) (w : N) :
  let k := length (parse_dual_rows body) in
  let g := load_criterion_graph body k in
  (N.of_nat k ≤ u32_max)%N →
  a ∈ build_criteria_view body ds → b ∈ build_criteria_view body ds →
  wave a = Some w → wave b = Some w → cv_number a ≠ cv_number b →
  ¬ tc (dep_edge g) (cv_number a) (cv_number b) ∧ ¬ tc (dep_edge g) (cv_number b) (cv_number a)
  ∧ scopes_disjoint (cv_write_scope a) (cv_write_scope b).
Proof.
  intros k g Hk (i & Hi)%list_elem_of_lookup (j & Hj)%list_elem_of_lookup Hwa Hwb Hne.
  destruct (view_row_spec body ds i a Hk Hi) as (_ & n & Hn & Hna & _ & Hsa & Hwva).
  destruct (view_row_spec body ds j b Hk Hj) as (_ & m & Hm & Hmb & _ & Hsb & Hwvb).
  fold k g in Hn, Hm, Hwva, Hwvb.
  rewrite Hwva in Hwa. rewrite Hwvb in Hwb.
  apply wave_of_Some in Hwa as (ws & x & la & Hws & -> & Hla & Hina).
  apply wave_of_Some in Hwb as (ws' & y & lb & Hws' & Hxy & Hlb & Hinb).
  rewrite Hws in Hws'. injection Hws' as <-.
  destruct (load_sound body k Hk) as (Hlen & Hv & _). fold g in Hlen, Hv.
  assert (length ws ≤ k) as Hwsk.
  { rewrite <- Hlen. eapply layering_length. by apply parallel_waves_layering. }
  apply lookup_lt_Some in Hla as Hx. apply lookup_lt_Some in Hlb as Hy.
  rewrite !as_u32_small in Hxy by lia. apply Nat2N.inj in Hxy as ->.
  rewrite Hla in Hlb. injection Hlb as <-.
  rewrite <- Hna, <- Hmb, Hsa, Hsb in *.
  eapply (clean_wave_independent g k ws la); try done. by eapply list_elem_of_lookup_2.
Qed.

(** A plan with a fan-out: 1 first, then 2 and 3 side by side. *)
Definition fan_out_plan : string :=
  join nl ["## Acceptance checklist"; "| [x] | [ ] | a |"; "| [ ] | [ ] | b |"; "| [ ] | [ ] | c |";
           "## Criterion dependencies"; "| # | Depends on | Write scope |";
           "| 1 | - | src/a.rs |"; "| 2 | 1 | src/b.rs |"; "| 3 | 1 | src/c/ |"; ""].

Lemma view_shows_the_checklist_witness :
  map cv_number (build_criteria_view fan_out_plan []) = map N.of_nat (seq 1 3).
Proof.
  destruct (view_shows_the_checklist fan_out_plan []) as (_ & H & _); [by vm_compute|].
  rewrite H. by vm_compute.
Defined.

Definition fan_out_view (i : nat) : CriterionView :=
  match build_criteria_view fan_out_plan [] !! i with
  | Some v => v
  | None => mkView 0 "" false false [] [] None false
  end.

Lemma fan_out_view_elem i : i < 3 → fan_out_view i ∈ build_criteria_view fan_out_plan [].
Proof.
  intros Hi. apply list_elem_of_lookup. exists i. unfold fan_out_view.
  destruct i as [|[|[|i]]]; [by vm_compute..|lia].
Qed.

Lemma same_wave_rows_are_independent_witness :
  cv_write_scope (fan_out_view 1) = ["src/b.rs"] ∧ cv_write_scope (fan_out_view 2) = ["src/c/"]
  ∧ scopes_disjoint (cv_write_scope (fan_out_view 1)) (cv_write_scope (fan_out_view 2)).
Proof.
  split_and!; [by vm_compute..|].
  apply (same_wave_rows_are_independent fan_out_plan [] (fan_out_view 1) (fan_out_view 2) 1%N);
    [by vm_compute|apply fan_out_view_elem; lia..|by vm_compute|by vm_compute|by vm_compute].
Defined.
