(* ===== verification/Fanout.v ===== *)
(** * Parallel waves of criterion workers ([goal_fanout.rs])

    Which criteria a round may hand to workers, what a worker is told, how the
    results are merged and what is reported. Spawning a worker and applying a
    worktree are other components: here they are parameters. *)

From Stdlib Require Import Ascii String Sorted.
From S2P Require Import Prelude RustStr Checklist CriterionGraph GraphSchedule CriteriaView.
From stdpp Require Import options.

Definition GOAL_FANOUT_MAX_DEFAULT : N := 3.
Definition GOAL_FANOUT_MAX_CEILING : N := 5.
Definition GOAL_FANOUT_MIN_CRITERIA : nat := 2.

Inductive FanoutDeclined : Type :=
| Disabled
| NotEnoughReady (ready : nat)
| NoRepo
| WorktreesDisposed.

Definition declined_as_const_str (d : FanoutDeclined) : string :=
  match d with
  | Disabled => "disabled"
  | NotEnoughReady _ => "not_enough_ready"
  | NoRepo => "no_repo"
  | WorktreesDisposed => "worktrees_disposed"
  end.

(** The closure [claimed] of [plan_wave]. *)
Definition claimed (criteria : list CriterionView) (n : N) : bool :=
  any (λ c, (cv_number c =? n)%N && (cv_exec c || cv_audit c)) criteria.

Definition is_ready (criteria : list CriterionView) (c : CriterionView) : bool :=
  negb (cv_exec c) && negb (cv_audit c) && negb (deferred c)
  && all (claimed criteria) (cv_depends_on c).

Definition plan_wave (criteria : list CriterionView) (fanout_max : N)
    (repo_available worktrees_disposed : bool) : result (list CriterionView) FanoutDeclined :=
  if (fanout_max <=? 1)%N then Err Disabled
  else if negb repo_available then Err NoRepo
  else if worktrees_disposed then Err WorktreesDisposed
  else
    let ready := take (N.to_nat fanout_max) (bfilter (is_ready criteria) criteria) in
    if length ready <? GOAL_FANOUT_MIN_CRITERIA then Err (NotEnoughReady (length ready))
    else Ok ready.

(** ** Workers *)

Record WorkerOutcome : Type := mkOutcome {
  wo_criterion : N;
  wo_summary : string;
  worktree : option string;
  wo_error : option string;
}.

Inductive MergeOutcome : Type :=
| Landed (criterion : N) (files : list string)
| Conflicted (criterion : N) (conflicts : list string)
| Skipped (criterion : N) (why : string).

Definition merge_criterion (m : MergeOutcome) : N :=
  match m with Landed c _ | Conflicted c _ | Skipped c _ => c end.

Definition landed (m : MergeOutcome) : bool :=
  match m with Landed _ _ => true | _ => false end.

Definition written_paths (m : MergeOutcome) : list string :=
  match m with Landed _ files => files | Conflicted _ conflicts => conflicts | Skipped _ _ => [] end.

Definition observed_writes (merges : list MergeOutcome) : list (N * list string) :=
  map (λ m, (merge_criterion m, written_paths m))
    (bfilter (λ m, negb (is_nil (written_paths m))) merges).

Definition worker_prompt (objective : string) (c : CriterionView) : string :=
  let scope := if is_nil (cv_write_scope c)
    then "Not declared — stay as close as possible to the files this criterion is about."
    else join ", " (cv_write_scope c) in
  "You are implementing ONE acceptance criterion of a larger goal, in your own isolated worktree, at the same time as other agents implementing the other criteria." +:+ nl +:+ nl
  +:+ "Overall objective (context only — do NOT try to satisfy all of it):" +:+ nl +:+ objective +:+ nl +:+ nl
  +:+ "Your criterion (#" +:+ pretty (cv_number c) +:+ ") — this and only this is your job:" +:+ nl
  +:+ trim (text c) +:+ nl +:+ nl
  +:+ "Files you may write: " +:+ scope +:+ nl +:+ nl
  +:+ "Rules:" +:+ nl
  +:+ "- Write ONLY inside the files above. Another agent is editing the rest right now, in its own checkout, and it cannot see your edits: touching its files produces a merge conflict that throws away one of the two rounds." +:+ nl
  +:+ "- Do not refactor, reformat, or 'improve' anything your criterion does not require." +:+ nl
  +:+ "- You cannot see or update the goal's acceptance checklist, and you must not try to declare the goal complete. Your work is verified independently after it is merged." +:+ nl
  +:+ "- Finish by stating, in a few lines, what you changed and how the criterion is observable in the code you wrote. That text is the only thing the coordinating agent will see." +:+ nl.

(** What came back from the subagent coordinator for one worker. *)
Record SubagentResult : Type := mkSubagentResult {
  success : bool;
  cancelled : bool;
  sr_error : option string;
  output : string;
  worktree_path : option string;
}.

Inductive SpawnReply : Type :=
| SpawnClosed                     (* the coordinator channel is closed *)
| SpawnDropped                    (* the result channel was dropped *)
| SpawnResult (r : SubagentResult).

(** [ChannelWorkerSpawner::spawn_worker], from the reply on. *)
Definition worker_outcome (criterion : N) (reply : SpawnReply) : WorkerOutcome :=
  let failed e := mkOutcome criterion "" None (Some e) in
  match reply with
  | SpawnClosed => failed "subagent coordinator channel closed"
  | SpawnDropped => failed "subagent result channel dropped"
  | SpawnResult r =>
      if negb (success r) then
        let e := match sr_error r with
                 | Some e => e
                 | None => if cancelled r then "cancelled" else "unknown error"
                 end in
        mkOutcome criterion (output r) (worktree_path r) (Some e)
      else mkOutcome criterion (output r) (worktree_path r) None
  end.

Section merge.
(** [apply_worktree] of the workspace crate, in [Merge] mode: it changes the
    repository and says what it did. *)
Inductive ApplyWorktreeResponse : Type :=
| ApplySuccess (files : list string)
| ApplyConflicts (conflicts : list string).

Context {Repo : Type}.
Variable apply_worktree : Repo → string → Repo * result ApplyWorktreeResponse string.
(** The reply of a worker given its id, criterion and prompt. *)
Variable spawn : N → string → SpawnReply.

(** [run_wave]: all workers are awaited together, the outcomes keep the
    order of the wave. *)
Definition run_wave (objective : string) (wave : list CriterionView) : list WorkerOutcome :=
  map (λ c, worker_outcome (cv_number c) (spawn (cv_number c) (worker_prompt objective c))) wave.

Definition merge_worker (repo : Repo) (outcome : WorkerOutcome) : Repo * MergeOutcome :=
  let criterion := wo_criterion outcome in
  match wo_error outcome with
  | Some err => (repo, Skipped criterion ("worker failed: " +:+ err))
  | None =>
      match worktree outcome with
      | None => (repo, Skipped criterion "worker left no worktree to merge")
      | Some w =>
          let '(repo, r) := apply_worktree repo w in
          (repo, match r with
                 | Ok (ApplySuccess files) => Landed criterion files
                 | Ok (ApplyConflicts conflicts) => Conflicted criterion conflicts
                 | Err e => Skipped criterion ("merge failed: " +:+ e)
                 end)
      end
  end.

(** [sort_by_key]: a stable sort. *)
Definition by_criterion (a b : WorkerOutcome) : Prop := (wo_criterion a ≤ wo_criterion b)%N.
#[export] Instance by_criterion_dec : RelDecision by_criterion.
Proof. intros a b. unfold by_criterion. apply _. Defined.

Fixpoint merge_all (repo : Repo) (workers : list WorkerOutcome) : Repo * list MergeOutcome :=
  match workers with
  | [] => (repo, [])
  | w :: workers =>
      let '(repo, m) := merge_worker repo w in
      let '(repo, ms) := merge_all repo workers in
      (repo, m :: ms)
  end.

Definition merge_wave (repo : Repo) (workers : list WorkerOutcome) : Repo * list MergeOutcome :=
  merge_all repo (stable_sort by_criterion workers).
End merge.

(** ** The report *)

Definition WORKER_SUMMARY_MAX : nat := 240.

Definition one_line (s : string) : string :=
  let flat := join " " (bfilter (λ l, negb (is_empty l)) (map trim (lines s))) in
  if char_count flat <=? WORKER_SUMMARY_MAX then flat
  else take_chars (WORKER_SUMMARY_MAX - 1) flat +:+ "…".

Definition numbers (ns : list N) : string := join ", " (map pretty ns).

Definition report_line (workers : list WorkerOutcome) (m : MergeOutcome) : string :=
  let n := pretty (merge_criterion m) in
  let summary := match List.find (λ w, (wo_criterion w =? merge_criterion m)%N) workers with
                 | Some w => one_line (wo_summary w)
                 | None => EmptyString
                 end in
  match m with
  | Landed _ files =>
      "- criterion " +:+ n +:+ ": merged (" +:+ pretty (length files) +:+ " file(s)). " +:+ summary +:+ nl
  | Conflicted _ conflicts =>
      "- criterion " +:+ n +:+ ": NOT merged — conflicts in " +:+ join ", " conflicts
      +:+ ". Its work is still in the worker's worktree only; redo it here or resolve the conflict. "
      +:+ summary +:+ nl
  | Skipped _ why =>
      "- criterion " +:+ n +:+ ": nothing landed — " +:+ why +:+ ". " +:+ summary +:+ nl
  end.

Definition render_wave_report (workers : list WorkerOutcome) (merges : list MergeOutcome) : string :=
  let ok := map merge_criterion (bfilter landed merges) in
  let open := map merge_criterion (bfilter (λ m, negb (landed m)) merges) in
  foldl (λ out m, out +:+ report_line workers m)
    ("Parallel implementation round finished. Each criterion below was implemented by a separate agent in its own worktree; results are already merged into the working tree." +:+ nl) merges
  +:+ (if negb (is_nil ok)
       then "Exec marks for criterion(s) " +:+ numbers ok +:+ " are set; they still need independent audit." +:+ nl
       else "")
  +:+ (if negb (is_nil open)
       then "Criterion(s) " +:+ numbers open +:+ " did not land and remain your work." +:+ nl
       else "")
  +:+ "Review the merged result as a whole before requesting verification: the parts were written independently and may not fit together."
  +:+ nl +:+ nl.

(** ** Planning a wave *)

Lemma claimed_spec criteria n :
  claimed criteria n = true ↔ ∃ c, c ∈ criteria ∧ cv_number c = n ∧ (cv_exec c = true ∨ cv_audit c = true).
Proof.
  unfold claimed. rewrite any_spec. setoid_rewrite andb_true_iff. setoid_rewrite orb_true_iff.
  setoid_rewrite N.eqb_eq. naive_solver.
Qed.

Lemma is_ready_spec criteria c :
  is_ready criteria c = true ↔
    cv_exec c = false ∧ cv_audit c = false ∧ deferred c = false
    ∧ ∀ d, d ∈ cv_depends_on c → claimed criteria d = true.
Proof. unfold is_ready. rewrite !andb_true_iff, !negb_true_iff, all_spec. naive_solver. Qed.

Lemma plan_wave_Ok criteria m repo disposed wave :
  plan_wave criteria m repo disposed = Ok wave ↔
    (1 < m)%N ∧ repo = true ∧ disposed = false ∧
    wave = take (N.to_nat m) (bfilter (is_ready criteria) criteria) ∧ 2 ≤ length wave.
Proof.
  unfold plan_wave, GOAL_FANOUT_MIN_CRITERIA. destruct (N.leb_spec m 1); [split; [done|lia]|].
  destruct repo; [|naive_solver]. destruct disposed; [naive_solver|]. cbn [negb].
  destruct (Nat.ltb_spec (length (take (N.to_nat m) (bfilter (is_ready criteria) criteria))) 2).
  - split; [done|]. intros (_ & _ & _ & -> & ?). lia.
  - split; [intros [= <-]; done|]. by intros (_ & _ & _ & -> & _).
Qed.

Lemma plan_wave_members criteria m repo disposed wave c :
  plan_wave criteria m repo disposed = Ok wave → c ∈ wave → c ∈ criteria ∧ is_ready criteria c = true.
Proof.
  intros (_ & _ & _ & -> & _)%plan_wave_Ok Hc. apply elem_of_take in Hc as (i & Hi & _).
  apply elem_of_bfilter. by eapply list_elem_of_lookup_2.
Qed.

(** A round fans out to exactly the ready criteria. When fan-out is enabled,
    there is a repository and worktrees survive, the wave is the first
    [fanout_max] rows, in order, that are neither claimed, accepted nor deferred
    and whose declared dependencies are all claimed; with fewer than two of
    them, or when a condition fails, the round is declined with that reason. *)
Lemma wave_is_the_ready_rows (criteria : list CriterionView) (fanout_max : N) (repo disposed : bool) :
  let ready := take (N.to_nat fanout_max) (bfilter (is_ready criteria) criteria) in
  plan_wave criteria fanout_max repo disposed =
    (if decide (fanout_max ≤ 1)%N then Err Disabled
     else if decide (repo = false) then Err NoRepo
     else if decide (disposed = true) then Err WorktreesDisposed
     else if decide (length ready < 2) then Err (NotEnoughReady (length ready)) else Ok ready)
  ∧ ∀ c, c ∈ bfilter (is_ready criteria) criteria ↔ c ∈ criteria
      ∧ cv_exec c = false ∧ cv_audit c = false ∧ deferred c = false
      ∧ ∀ d, d ∈ cv_depends_on c → ∃ k, k ∈ criteria ∧ cv_number k = d ∧ (cv_exec k = true ∨ cv_audit k = true).
Proof.
  intros ready. split.
  - unfold plan_wave, GOAL_FANOUT_MIN_CRITERIA. fold ready.
    destruct (N.leb_spec fanout_max 1); [by rewrite decide_True|rewrite decide_False by lia].
    destruct repo; [rewrite decide_False by done|done].
    destruct disposed; [done|rewrite decide_False by done]. cbn [negb].
    destruct (Nat.ltb_spec (length ready) 2); [by rewrite decide_True|by rewrite decide_False by lia].
  - intros c. rewrite elem_of_bfilter, is_ready_spec. by setoid_rewrite claimed_spec.
Qed.

(** ** Members of a fanned-out wave *)

(** Claims are in dependency order: a claimed row's dependencies are claimed. *)
Definition claims_closed (criteria : list CriterionView) : Prop :=
  ∀ c d, c ∈ criteria → (cv_exec c = true ∨ cv_audit c = true) → d ∈ cv_depends_on c →
    claimed criteria d = true.

Definition claims_closed_b (criteria : list CriterionView) : bool :=
  all (λ c, negb (cv_exec c || cv_audit c) || all (claimed criteria) (cv_depends_on c)) criteria.

Lemma claims_closed_b_spec criteria : claims_closed_b criteria = true → claims_closed criteria.
Proof.
  unfold claims_closed_b, claims_closed. rewrite all_spec. intros H c d Hc Hcl Hd.
  specialize (H c Hc). apply orb_true_iff in H as [H|H].
  - apply negb_true_iff, orb_false_iff in H as [? ?]. destruct Hcl; congruence.
  - rewrite all_spec in H. by apply H.
Qed.

Lemma dep_edge_view body ds c d :
  let k := length (parse_dual_rows body) in
  (N.of_nat k ≤ u32_max)%N → c ∈ build_criteria_view body ds →
  dep_edge (load_criterion_graph body k) (cv_number c) d ↔ d ∈ cv_depends_on c.
Proof.
  intros k Hk (i & Hi)%list_elem_of_lookup.
  destruct (view_row_spec body ds i c Hk Hi) as (_ & n & Hn & Hnum & Hdep & _ & _). fold k in Hn.
  destruct (load_sound body k Hk) as (_ & Hv & _). apply validate_nil in Hv as (Hv & _).
  apply numbering_violations_nil in Hv as [Hw _]; [|done]. apply well_numbered_NoDup in Hw.
  unfold dep_edge. rewrite <- Hnum, (find_node_NoDup _ _ Hw Hn), Hdep. naive_solver.
Qed.

Lemma claims_closed_tc body ds a x :
  let k := length (parse_dual_rows body) in
  let criteria := build_criteria_view body ds in
  (N.of_nat k ≤ u32_max)%N → claims_closed criteria →
  a ∈ criteria → (∀ d, d ∈ cv_depends_on a → claimed criteria d = true) →
  tc (dep_edge (load_criterion_graph body k)) (cv_number a) x → claimed criteria x = true.
Proof.
  intros k criteria Hk Hcl Ha Hd Ht. remember (cv_number a) as y eqn:Hy. revert a Hy Ha Hd.
  induction Ht as [y z Hyz|y z w Hyz _ IH]; intros a -> Ha Hd;
    apply (dep_edge_view body ds a z Hk Ha) in Hyz; [by apply Hd|].
  pose proof (Hd z Hyz) as (c & Hc & <- & Hcc)%claimed_spec.
  apply (IH c); [done..|]. intros d Hdc. by eapply Hcl.
Qed.

Lemma build_view_unique body ds a b :
  (N.of_nat (length (parse_dual_rows body)) ≤ u32_max)%N →
  a ∈ build_criteria_view body ds → b ∈ build_criteria_view body ds → cv_number a = cv_number b → a = b.
Proof.
  intros Hk (i & Hi)%list_elem_of_lookup (j & Hj)%list_elem_of_lookup E.
  destruct (view_row_spec body ds i a Hk Hi) as (Hna & _).
  destruct (view_row_spec body ds j b Hk Hj) as (Hnb & _).
  assert (i = j) as -> by lia. congruence.
Qed.

(** Workers of one round cannot collide inside their scopes. When the
    implementer's claims respect the dependencies (a claimed criterion's
    dependencies are claimed), any two different criteria a round fans out are
    unordered in the scheduled graph and have disjoint declared write scopes. *)
Lemma fanned_out_rows_are_independent (body : string) (ds : list DeferredCriterion)
    (fanout_max : N) (repo disposed : bool) (members : list CriterionView) (a b : CriterionView) :
  let k := length (parse_dual_rows body) in
  let criteria := build_criteria_view body ds in
  let g := load_criterion_graph body k in
  (N.of_nat k ≤ u32_max)%N → claims_closed criteria →
  plan_wave criteria fanout_max repo disposed = Ok members →
  a ∈ members → b ∈ members → a ≠ b →
  ¬ tc (dep_edge g) (cv_number a) (cv_number b) ∧ ¬ tc (dep_edge g) (cv_number b) (cv_number a)
  ∧ scopes_disjoint (cv_write_scope a) (cv_write_scope b).
Proof.
  intros k criteria g Hk Hcl Hp Ha Hb Hne.
  destruct (plan_wave_members _ _ _ _ _ _ Hp Ha) as [Hain (Hae & Haa & _ & Had)%is_ready_spec].
  destruct (plan_wave_members _ _ _ _ _ _ Hp Hb) as [Hbin (Hbe & Hba & _ & Hbd)%is_ready_spec].
  assert (∀ x y, x ∈ criteria → y ∈ criteria → cv_exec y = false → cv_audit y = false →
    (∀ d, d ∈ cv_depends_on x → claimed criteria d = true) → ¬ tc (dep_edge g) (cv_number x) (cv_number y)) as Hno.
  { intros x y Hx Hy Hye Hya Hxd Ht.
    apply (claims_closed_tc body ds x _ Hk Hcl Hx Hxd) in Ht as (c & Hc & Hcn & Hcc)%claimed_spec.
    apply (build_view_unique body ds c y Hk Hc Hy) in Hcn as ->. destruct Hcc; congruence. }
  split_and!; [by apply Hno..|].
  apply list_elem_of_lookup in Hain as Hi. destruct Hi as [i Hi].
  apply list_elem_of_lookup in Hbin as Hj. destruct Hj as [j Hj].
  destruct (view_row_spec body ds i a Hk Hi) as (_ & n & Hn & Hna & _ & -> & _).
  destruct (view_row_spec body ds j b Hk Hj) as (_ & m & Hm & Hmb & _ & -> & _). fold k g in Hn, Hm.
  destruct (load_sound body k Hk) as (_ & Hv & _). apply validate_nil in Hv as (_ & _ & Hc).
  destruct (scope_conflicts_nil_pair g n m) as [Ho|Hd]; [done..| | |done].
  - rewrite Hna, Hmb. intros E. by apply Hne, (build_view_unique body ds).
  - apply ordered_spec in Ho. rewrite Hna, Hmb in Ho.
    destruct Ho as [Ho|Ho]; [by apply Hno in Ho|by apply Hno in Ho].
Qed.

Definition fan_out_wave : list CriterionView := [fan_out_view 1; fan_out_view 2].

Lemma fanned_out_rows_are_independent_witness :
  plan_wave (build_criteria_view fan_out_plan []) 3 true false = Ok fan_out_wave
  ∧ scopes_disjoint (cv_write_scope (fan_out_view 1)) (cv_write_scope (fan_out_view 2)).
Proof.
  assert (plan_wave (build_criteria_view fan_out_plan []) 3 true false = Ok fan_out_wave) as Hp
    by by vm_compute.
  split; [done|].
  apply (fanned_out_rows_are_independent fan_out_plan [] 3 true false fan_out_wave
    (fan_out_view 1) (fan_out_view 2));
    [by vm_compute|apply claims_closed_b_spec; by vm_compute|done|left|right; left|].
  intros E. apply (f_equal cv_number) in E. by vm_compute in E.
Defined.

(** With an out-of-order claim (2 is ticked before 1) the wave pairs criterion 1
    with 3, which depends on it through 2 and may write the same file. *)
Definition out_of_order_plan : string :=
  join nl ["## Acceptance checklist"; "| [ ] | [ ] | a |"; "| [x] | [ ] | b |"; "| [ ] | [ ] | c |";
           "## Criterion dependencies"; "| 1 | - | src/a.rs |"; "| 2 | 1 | src/b.rs |";
           "| 3 | 2 | src/a.rs |"; ""].

Lemma out_of_order_claim_races :
  match plan_wave (build_criteria_view out_of_order_plan []) 3 true false with
  | Ok [a; b] => cv_number a = 1%N ∧ cv_number b = 3%N ∧ cv_write_scope a = cv_write_scope b
                 ∧ reaches (load_criterion_graph out_of_order_plan 3) 3 1 = true
  | _ => False
  end.
Proof. vm_compute. done. Qed.

(** ** Landing *)

Section landing.
Context {Repo : Type} (apply_worktree : Repo → string → Repo * result ApplyWorktreeResponse string).

Lemma merge_wave_sorted workers :
  StronglySorted by_criterion (stable_sort by_criterion workers)
  ∧ stable_sort by_criterion workers ≡ₚ workers.
Proof.
  split; [|apply stable_sort_Permutation]. apply stable_sort_StronglySorted.
  - intros x y z. unfold by_criterion. lia.
  - intros x y. unfold by_criterion. lia.
Qed.

Lemma NoDup_criterion_inj workers x y :
  NoDup (map wo_criterion workers) → x ∈ workers → y ∈ workers → wo_criterion x = wo_criterion y → x = y.
Proof.
  intros Hnd (i & Hi)%list_elem_of_lookup (j & Hj)%list_elem_of_lookup E.
  assert (i = j) as ->; [|congruence]. apply (NoDup_lookup _ i j (wo_criterion x) Hnd);
    rewrite list_lookup_fmap; [by rewrite Hi|by rewrite Hj, E].
Qed.

Lemma merge_all_criteria repo ws :
  map merge_criterion (merge_all apply_worktree repo ws).2 = map wo_criterion ws.
Proof.
  revert repo. induction ws as [|w ws IH]; intros repo; [done|]. cbn [merge_all map].
  assert (merge_criterion (merge_worker apply_worktree repo w).2 = wo_criterion w) as Hm.
  { unfold merge_worker. destruct (wo_error w); [done|]. destruct (worktree w) as [p|]; [|done].
    destruct (apply_worktree repo p) as [? [[]|]]; done. }
  destruct (merge_worker apply_worktree repo w) as [r m]. cbn [snd] in Hm.
  specialize (IH r). destruct (merge_all apply_worktree r ws) as [r' ms]. cbn [snd map] in *.
  by rewrite Hm, IH.
Qed.

Lemma sorted_distinct ws :
  StronglySorted by_criterion ws → NoDup (map wo_criterion ws) →
  StronglySorted N.lt (map wo_criterion ws).
Proof.
  induction 1 as [|w ws Hs IH Hall]; cbn [map]; [constructor|].
  intros [Hni Hnd]%NoDup_cons. constructor; [by apply IH|].
  apply Forall_forall. intros x Hx. pose proof Hx as (v & -> & Hv)%list_elem_of_fmap.
  rewrite Forall_forall in Hall. specialize (Hall v Hv). unfold by_criterion in Hall.
  assert (wo_criterion w ≠ wo_criterion v) by (intros E; by rewrite E in Hni). lia.
Qed.

(** The merged result does not depend on which worker finished first. For
    workers of distinct criteria, merging any reordering of their outcomes
    leaves the same repository and the same list of merge outcomes, which runs
    through the criteria in increasing order. *)
Lemma merge_order_independent (repo : Repo) (workers workers' : list WorkerOutcome) :
  workers ≡ₚ workers' → NoDup (map wo_criterion workers) →
  merge_wave apply_worktree repo workers = merge_wave apply_worktree repo workers'
  ∧ StronglySorted N.lt (map merge_criterion (merge_wave apply_worktree repo workers).2).
Proof.
  intros Hp Hnd. destruct (merge_wave_sorted workers) as [Hs1 Hp1].
  destruct (merge_wave_sorted workers') as [Hs2 Hp2]. unfold merge_wave. split.
  - f_equal. apply (StronglySorted_unique_strong by_criterion); [|done..|by rewrite Hp1, Hp2].
    intros x y Hx Hy ? ?. apply (NoDup_criterion_inj workers); [done|..].
    + by rewrite <- Hp1.
    + by rewrite Hp, <- Hp2.
    + unfold by_criterion in *. lia.
  - rewrite merge_all_criteria. apply sorted_distinct; [done|]. by rewrite Hp1.
Qed.

(** A worker that failed is never merged, although its worktree is kept for
    the merge to decide about. *)
Lemma failed_worker_is_skipped repo c s w e :
  merge_worker apply_worktree repo (mkOutcome c s (Some w) (Some e))
  = (repo, Skipped c ("worker failed: " +:+ e)).
Proof. reflexivity. Qed.
End landing.

(** Two workers that touched one file: the later criterion conflicts. *)
Definition demo_apply (repo : list string) (w : string) : list string * result ApplyWorktreeResponse string :=
  if contains w repo then (repo, Ok (ApplyConflicts [w])) else (repo ++ [w], Ok (ApplySuccess [w])).

Definition demo_workers : list WorkerOutcome :=
  [mkOutcome 3 "c" (Some "lib.rs") None; mkOutcome 1 "a" (Some "lib.rs") None; mkOutcome 2 "b" None (Some "died")].

Lemma merge_order_independent_witness :
  merge_wave demo_apply [] demo_workers
    = (["lib.rs"], [Landed 1 ["lib.rs"]; Skipped 2 "worker failed: died"; Conflicted 3 ["lib.rs"]])
  ∧ merge_wave demo_apply [] demo_workers = merge_wave demo_apply [] (reverse demo_workers).
Proof.
  split; [by vm_compute|].
  apply (merge_order_independent demo_apply [] demo_workers (reverse demo_workers)).
  - by rewrite reverse_Permutation.
  - by apply (bool_decide_eq_true_1 (NoDup (map wo_criterion demo_workers))).
Defined.
