(* ===== verification/GoalTracker.v ===== *)
(** * The goal tracker ([goal_tracker.rs])

    The persisted state of a goal and every operation that changes it: the
    lifecycle (create, pause, resume, complete, budget limit, clear, restore),
    the clock of active time, and the counters of the verification loop (stall
    streak, strategist, deferrals, amender budget, infra retries). Time, fresh
    ids and the file system are arguments. *)

From Stdlib Require Import Ascii String ZArith.
From S2P Require Import Prelude RustStr CriteriaView.
From stdpp Require Import options.

Definition GOAL_CLASSIFIER_STALL_THRESHOLD : N := 2.
Definition GOAL_STRATEGIST_CAP_BONUS : N := 3.
Definition GOAL_STRATEGIST_STALL_THRESHOLD : N :=
  GOAL_CLASSIFIER_STALL_THRESHOLD + GOAL_STRATEGIST_CAP_BONUS.
Definition GOAL_HISTORY_MAX : nat := 64.

Inductive GoalPhase : Type := GIdle | GPlanning | GExecuting.

Inductive GoalStatus : Type :=
| Active | UserPaused | BackOffPaused | NoProgressPaused | InfraPaused | Blocked
| BudgetLimited | Complete.

#[export] Instance GoalPhase_eq_dec : EqDecision GoalPhase.
Proof. solve_decision. Defined.
#[export] Instance GoalStatus_eq_dec : EqDecision GoalStatus.
Proof. solve_decision. Defined.

(** [GoalStatus::from_wire_str] *)
Definition from_wire_str (s : string) : GoalStatus :=
  if contains s ["active"; "Active"] then Active
  else if contains s ["user_paused"; "paused"; "Paused"] then UserPaused
  else if contains s ["doom_loop_paused"] then UserPaused
  else if contains s ["back_off_paused"] then BackOffPaused
  else if contains s ["no_progress_paused"] then NoProgressPaused
  else if contains s ["infra_paused"] then InfraPaused
  else if contains s ["blocked"] then Blocked
  else if contains s ["budget_limited"; "BudgetLimited"] then BudgetLimited
  else if contains s ["complete"; "Complete"] then Complete
  else UserPaused.

(** What [#[serde(rename_all = "snake_case")]] writes. *)
Definition to_wire_str (s : GoalStatus) : string :=
  match s with
  | Active => "active" | UserPaused => "user_paused" | BackOffPaused => "back_off_paused"
  | NoProgressPaused => "no_progress_paused" | InfraPaused => "infra_paused"
  | Blocked => "blocked" | BudgetLimited => "budget_limited" | Complete => "complete"
  end.

Definition is_paused (s : GoalStatus) : bool :=
  match s with
  | UserPaused | BackOffPaused | NoProgressPaused | InfraPaused | Blocked => true
  | _ => false
  end.

Inductive GoalPauseReason : Type :=
| PauseUser | PauseBackOff | PauseNoProgress | PauseVerification | PauseInfra.

Definition to_status (r : GoalPauseReason) : GoalStatus :=
  match r with
  | PauseUser => UserPaused
  | PauseBackOff => BackOffPaused
  | PauseNoProgress => NoProgressPaused
  | PauseVerification => Blocked
  | PauseInfra => InfraPaused
  end.

Definition halts_unattended_run (r : GoalPauseReason) : bool :=
  match r with
  | PauseUser | PauseInfra | PauseVerification => true
  | PauseBackOff | PauseNoProgress => false
  end.

Definition history_detail (r : GoalPauseReason) : string :=
  match r with
  | PauseUser => "user" | PauseBackOff => "back_off" | PauseNoProgress => "no_progress"
  | PauseVerification => "blocked" | PauseInfra => "infra"
  end.

Inductive GoalClassifierVerdict : Type := Achieved | NotAchieved.

Inductive GoalEvent : Type :=
| GoalCreated | PlanningStarted | PlanningCompleted | PlanningFailed
| WorkerStarted | WorkerCompleted | WorkerFailed | ContextRotated
| GoalPaused | GoalResumed | GoalCompleted | GoalCleared | BudgetExceeded
| PrematureStopDetected | EventUnknown.

Record GoalHistoryEntry : Type := mkEntry {
  timestamp : string;
  event : GoalEvent;
  detail : option string;
  round : option N;
  tokens_used : option Z;
  unmet : list string;
}.

(** The instant and the wall-clock string of one call. *)
Record Clock : Type := mkClock {
  instant : N;      (* milliseconds of [Instant] *)
  rfc3339 : string;
}.

Definition entry_now (c : Clock) (e : GoalEvent) (d : option string) : GoalHistoryEntry :=
  {| timestamp := rfc3339 c; event := e; detail := d; round := None; tokens_used := None; unmet := [] |}.

Record ClassifierFinding : Type := mkClassifierFinding {
  cf_criterion : option N;
  cf_message : string;
}.

Record GoalRoleModel : Type := mkRoleModel { role_model : string; role_agent_type : string }.

Record GoalOrchestration : Type := mkGoal {
  goal_id : string;
  objective : string;
  status : GoalStatus;
  phase : GoalPhase;
  token_budget : option Z;
  elapsed_ms : N;
  created_at : string;
  current_subagent_id : option string;
  current_subagent_role : option string;
  total_worker_rounds : N;
  total_verify_rounds : N;
  budget_limit_reported : bool;
  token_baseline : Z;
  tokens_used_high_water : Z;
  parent_tokens_spent : Z;
  last_session_tokens_seen : option Z;
  history : list GoalHistoryEntry;
  pause_message : option string;
  verifier_id : string;
  classifier_runs_attempted : N;
  amender_runs : N;
  rounds_since_verify : N;
  classifier_max_runs : option N;
  last_classifier_verdict : option GoalClassifierVerdict;
  last_classifier_details_path : option string;
  last_classifier_at : option string;
  last_classifier_gaps : option string;
  last_classifier_findings : list ClassifierFinding;
  deferred_criteria : list DeferredCriterion;
  criteria_view : list CriterionView;
  criteria_view_mtime : option N;
  first_final_response : option string;
  skeptic0_session_id : option string;
  skeptic_model_assignment : list GoalRoleModel;
  last_gap_fingerprint : option string;
  classifier_stall_count : N;
  consecutive_not_achieved : N;
  last_strategist_fired_at : N;
  strategist_cap_bonus : N;
  last_strategy_path : option string;
  last_strategy_recommendation : option string;
  changes_baseline_commit : option string;
  plan_file : option string;
  plan_baseline_file : option string;
  scratch_dir_ready : bool;
  live_subagent_tokens : N;
  live_tokens_by_model : list (string * N);
  infra_retry_streak : N;
  live_context_window : N;
  live_context_pct : N;
  live_turn_count : N;
  live_tool_call_count : N;
  planning_in_flight : bool;
  verifying_in_flight : bool;
}.

#[export] Instance GoalOrchestration_settable : Settable GoalOrchestration := λ x,
  mkGoal (goal_id x) (objective x) (status x) (phase x) (token_budget x) (elapsed_ms x)
    (created_at x) (current_subagent_id x) (current_subagent_role x) (total_worker_rounds x)
    (total_verify_rounds x) (budget_limit_reported x) (token_baseline x) (tokens_used_high_water x)
    (parent_tokens_spent x) (last_session_tokens_seen x) (history x) (pause_message x)
    (verifier_id x) (classifier_runs_attempted x) (amender_runs x) (rounds_since_verify x)
    (classifier_max_runs x) (last_classifier_verdict x) (last_classifier_details_path x)
    (last_classifier_at x) (last_classifier_gaps x) (last_classifier_findings x)
    (deferred_criteria x) (criteria_view x) (criteria_view_mtime x) (first_final_response x)
    (skeptic0_session_id x) (skeptic_model_assignment x) (last_gap_fingerprint x)
    (classifier_stall_count x) (consecutive_not_achieved x) (last_strategist_fired_at x)
    (strategist_cap_bonus x) (last_strategy_path x) (last_strategy_recommendation x)
    (changes_baseline_commit x) (plan_file x) (plan_baseline_file x) (scratch_dir_ready x)
    (live_subagent_tokens x) (live_tokens_by_model x) (infra_retry_streak x)
    (live_context_window x) (live_context_pct x) (live_turn_count x) (live_tool_call_count x)
    (planning_in_flight x) (verifying_in_flight x).

Record GoalTracker : Type := mkTracker {
  orchestration : option GoalOrchestration;
  session_dir : string;
  active_since : option N;
}.

#[export] Instance GoalTracker_settable : Settable GoalTracker := λ x,
  mkTracker (orchestration x) (session_dir x) (active_since x).

Definition tracker_new (dir : string) : GoalTracker := mkTracker None dir None.

(** [if let Some(o) = &mut self.orchestration { .. }] *)
Definition update_goal (f : GoalOrchestration → GoalOrchestration) (t : GoalTracker) : GoalTracker :=
  t <| orchestration := f <$> orchestration t |>.

Definition reset_strategist_fields (o : GoalOrchestration) : GoalOrchestration :=
  o <| consecutive_not_achieved := 0%N |> <| last_strategist_fired_at := 0%N |>
    <| strategist_cap_bonus := 0%N |> <| last_strategy_path := None |>
    <| last_strategy_recommendation := None |>.

Definition reset_classifier_stall_fields (o : GoalOrchestration) : GoalOrchestration :=
  o <| last_gap_fingerprint := None |> <| classifier_stall_count := 0%N |>.

(** ** Reading the tracker *)

Definition tracker_status (t : GoalTracker) : option GoalStatus := status <$> orchestration t.
Definition tracker_is_active (t : GoalTracker) : bool :=
  match orchestration t with Some o => bool_decide (status o = Active) | None => false end.

Definition goal_dir (t : GoalTracker) : string := path_join (session_dir t) "goal".
Definition plan_path (t : GoalTracker) : string := path_join (goal_dir t) "plan.md".
Definition plan_baseline_path (t : GoalTracker) : string := path_join (goal_dir t) "plan.baseline.md".
Definition strategy_path (t : GoalTracker) : string := path_join (goal_dir t) "strategy.md".

(** ** History *)

Definition append_history (entry : GoalHistoryEntry) : GoalTracker → GoalTracker :=
  update_goal (λ o,
    let h := history o ++ [entry] in
    let overflow := length h - GOAL_HISTORY_MAX in
    o <| history := if 0 <? overflow then drop overflow h else h |>).

Definition record_event (c : Clock) (e : GoalEvent) (d : option string) : GoalTracker → GoalTracker :=
  append_history (entry_now c e d).

(** ** Paths and the scratch directory *)

Inductive MkdirResult : Type := MkdirOk | MkdirExists | MkdirFailed.

(** The calls of [std::fs] the tracker makes, on an abstract file system. *)
Record FileSystem (Fs : Type) : Type := mkFs {
  temp_dir : string;
  euid : N;
  symlink_metadata : Fs → string → option (bool * N);   (* is a directory, owner *)
  mkdir_0700 : Fs → string → Fs * MkdirResult;
  set_mode_0700 : Fs → string → Fs * bool;
  create_dir_all : Fs → string → Fs * bool;
  remove_dir_all : Fs → string → Fs;
  fs_rename : Fs → string → string → Fs * bool;
  copy_new : Fs → string → string → Fs * bool;
  read_dir : Fs → string → option (list string);
  file_len : Fs → string → option N;
  read_to_string : Fs → string → option string;
  can_append : Fs → string → bool;
  append_text : Fs → string → string → Fs * bool;
}.
Arguments temp_dir {_} _.
Arguments euid {_} _.
Arguments symlink_metadata {_} _ _ _.
Arguments mkdir_0700 {_} _ _ _.
Arguments set_mode_0700 {_} _ _ _.
Arguments create_dir_all {_} _ _ _.
Arguments remove_dir_all {_} _ _ _.
Arguments fs_rename {_} _ _ _ _.
Arguments copy_new {_} _ _ _ _.
Arguments read_dir {_} _ _ _.
Arguments file_len {_} _ _ _.
Arguments read_to_string {_} _ _ _.
Arguments can_append {_} _ _ _.
Arguments append_text {_} _ _ _ _.

Definition GOAL_VERIFIER_PANEL_MAX_BYTES : N := 524288.

(** [s.rsplit_once(p)] *)
Fixpoint rsplit_once (p s : string) : option (string * string) :=
  match s with
  | EmptyString => match strip_prefix p s with Some t => Some (EmptyString, t) | None => None end
  | String c s' =>
      match rsplit_once p s' with
      | Some (h, t) => Some (String c h, t)
      | None => match strip_prefix p s with Some t => Some (EmptyString, t) | None => None end
      end
  end.

Definition parse_skeptic_report_order (name : string) : option (N * N) :=
  stem ← strip_suffix ".md" name;
  '(head, idx) ← rsplit_once "-skeptic-" stem;
  '(_, attempt) ← rsplit_once "-" head;
  a ← parse_u32 attempt;
  i ← parse_u32 idx;
  Some (a, i).

Section filesystem.
Context {Fs : Type} (ops : FileSystem Fs).

Definition goal_scratch_root (vid : string) : string :=
  path_join (temp_dir ops) ("grok-goal-" +:+ vid).

Definition implementer_scratch_dir (vid : string) : string :=
  path_join (goal_scratch_root vid) "implementer".

Definition skeptic_scratch_dir (vid : string) (idx : N) : string :=
  path_join (goal_scratch_root vid) ("skeptic-" +:+ pretty idx).

Definition amendment_proposal_file (vid : string) : string :=
  path_join (goal_scratch_root vid) "amendment.json".

Definition verify_owned_real_dir (fs : Fs) (p : string) : bool :=
  match symlink_metadata ops fs p with
  | Some (is_dir, uid) => is_dir && (uid =? euid ops)%N
  | None => false
  end.

(** [Some root] for [Ok(root)]. *)
Definition ensure_goal_scratch_root (fs : Fs) (vid : string) : Fs * option string :=
  let root := goal_scratch_root vid in
  let '(fs, r) := mkdir_0700 ops fs root in
  match r with
  | MkdirOk => (fs, Some root)
  | MkdirExists =>
      if verify_owned_real_dir fs root then
        let '(fs, ok) := set_mode_0700 ops fs root in
        (fs, if ok then Some root else None)
      else (fs, None)
  | MkdirFailed => (fs, None)
  end.

(** Secure the root, then create the implementer's directory under it. *)
Definition prepare_scratch (fs : Fs) (vid : string) : Fs * bool :=
  let '(fs, root) := ensure_goal_scratch_root fs vid in
  match root with
  | Some _ => create_dir_all ops fs (implementer_scratch_dir vid)
  | None => (fs, false)
  end.

(** Attempt descending, skeptic ascending. *)
Definition report_le (a b : (N * N) * string) : Prop :=
  let '((att_a, i_a), _) := a in let '((att_b, i_b), _) := b in
  (att_b < att_a)%N ∨ (att_a = att_b ∧ (i_a ≤ i_b)%N).
#[export] Instance report_le_dec : RelDecision report_le.
Proof. intros [[a i] p] [[b j] q]. unfold report_le. apply _. Defined.

Definition report_header (name : string) : string :=
  nl +:+ nl +:+ "---" +:+ nl +:+ "## Inlined skeptic report: " +:+ name +:+ nl +:+ nl.

Definition elision_marker : string :=
  nl +:+ nl +:+ "---" +:+ nl +:+ "(remaining skeptic reports elided: rescue budget reached)" +:+ nl.

Fixpoint append_reports_go (fs : Fs) (dest root : string) (budget : N)
    (reports : list ((N * N) * string)) : Fs :=
  match reports with
  | [] => fs
  | (_, name) :: reports =>
      let report := path_join root name in
      let header := report_header name in
      match file_len ops fs report with
      | None => append_reports_go fs dest root budget reports
      | Some len =>
          if (budget <? N.of_nat (String.length header) + len)%N
          then (append_text ops fs dest elision_marker).1
          else match read_to_string ops fs report with
               | None => append_reports_go fs dest root budget reports
               | Some body =>
                   let budget :=
                     (budget - (N.of_nat (String.length header) + N.of_nat (String.length body)))%N in
                   let '(fs, ok) := append_text ops fs dest header in
                   if negb ok then fs
                   else let '(fs, ok) := append_text ops fs dest body in
                        if negb ok then fs else append_reports_go fs dest root budget reports
               end
      end
  end.

Definition append_skeptic_reports (fs : Fs) (root dest : string) : Fs :=
  match read_dir ops fs root with
  | None => fs
  | Some names =>
      let reports := stable_sort report_le
        (omap (λ n, (λ o, (o, n)) <$> parse_skeptic_report_order n) names) in
      if is_nil reports then fs
      else if negb (can_append ops fs dest) then fs
      else append_reports_go fs dest root GOAL_VERIFIER_PANEL_MAX_BYTES reports
  end.

Record DeferredGoalFsCleanup : Type := mkCleanup {
  scratch_root : string;
  details_src : option string;
  cleanup_goal_dir : string;
}.

Definition rescue_classifier_details_paths (fs : Fs) (src root gdir : string) : Fs * option string :=
  if has_parent_dir src then (fs, None)
  else if negb (path_starts_with src root) then (fs, None)
  else if negb (verify_owned_real_dir fs root) then (fs, None)
  else match file_name src with
       | None => (fs, None)
       | Some name =>
           let dest := path_join gdir name in
           let '(fs, _) := create_dir_all ops fs gdir in
           let '(fs, moved) := fs_rename ops fs src dest in
           let '(fs, moved) := if moved then (fs, true) else copy_new ops fs src dest in
           if moved then (append_skeptic_reports fs root dest, Some dest) else (fs, None)
       end.

Definition rescue_details_only (fs : Fs) (job : DeferredGoalFsCleanup) : Fs * option string :=
  match details_src job with
  | None => (fs, None)
  | Some src => rescue_classifier_details_paths fs src (scratch_root job) (cleanup_goal_dir job)
  end.

(** [DeferredGoalFsCleanup::run] *)
Definition cleanup_run (fs : Fs) (job : DeferredGoalFsCleanup) : Fs * option string :=
  let '(fs, rescued) := rescue_details_only fs job in
  (remove_dir_all ops fs (scratch_root job), rescued).

Definition deferred_fs_cleanup_job (t : GoalTracker) : option DeferredGoalFsCleanup :=
  (λ o, mkCleanup (goal_scratch_root (verifier_id o)) (last_classifier_details_path o) (goal_dir t))
    <$> orchestration t.

Definition apply_rescued_details_path (dest : string) : GoalTracker → GoalTracker :=
  update_goal (λ o, o <| last_classifier_details_path := Some dest |>).

Definition rescue_classifier_details (fs : Fs) (t : GoalTracker) : Fs * GoalTracker :=
  match deferred_fs_cleanup_job t with
  | None => (fs, t)
  | Some job =>
      let '(fs, r) := rescue_details_only fs job in
      (fs, match r with Some dest => apply_rescued_details_path dest t | None => t end)
  end.

Definition remove_scratch_root (fs : Fs) (t : GoalTracker) : Fs :=
  match orchestration t with
  | Some o => remove_dir_all ops fs (goal_scratch_root (verifier_id o))
  | None => fs
  end.
End filesystem.

(** ** Lifecycle *)

Definition is_ascii_hexdigit (c : ascii) : bool :=
  let n := nat_of_ascii c in
  is_ascii_digit c || ((65 <=? n) && (n <=? 70)) || ((97 <=? n) && (n <=? 102)).

Definition canonical_verifier_id (id : string) : bool :=
  (String.length id =? 12)%nat && all_chars is_ascii_hexdigit id.

(** [generate_verifier_id]: the first 12 characters of a fresh UUID's simple form. *)
Definition generate_verifier_id (uuid : string) : string := take_bytes 12 uuid.

(** [elapsed_ms.saturating_add(since.elapsed().as_millis() as u64)] *)
Definition add_elapsed (now since elapsed : N) : N :=
  u64_saturating_add elapsed ((now - since) `mod` (u64_max + 1))%N.

(** [if let Some(since) = self.active_since.take() { o.elapsed_ms += .. }] *)
Definition stop_timer (c : Clock) (since : option N) (o : GoalOrchestration) : GoalOrchestration :=
  match since with
  | Some s => o <| elapsed_ms := add_elapsed (instant c) s (elapsed_ms o) |>
  | None => o
  end.

Section lifecycle.
Context {Fs : Type} (ops : FileSystem Fs).

Definition new_goal (id obj : string) (budget : option Z) (baseline : Z) (created : string)
    (commit : option string) (vid : string) (ready : bool) : GoalOrchestration :=
  {| goal_id := id; objective := obj; status := Active; phase := GExecuting;
     token_budget := budget; elapsed_ms := 0; created_at := created;
     current_subagent_id := None; current_subagent_role := None;
     total_worker_rounds := 0; total_verify_rounds := 0; budget_limit_reported := false;
     token_baseline := baseline; tokens_used_high_water := 0; parent_tokens_spent := 0;
     last_session_tokens_seen := Some baseline; history := []; pause_message := None;
     verifier_id := vid; classifier_runs_attempted := 0; amender_runs := 0;
     rounds_since_verify := 0; classifier_max_runs := None; last_classifier_verdict := None;
     last_classifier_details_path := None; last_classifier_at := None;
     last_classifier_gaps := None; last_classifier_findings := []; deferred_criteria := [];
     criteria_view := []; criteria_view_mtime := None; first_final_response := None;
     skeptic0_session_id := None; skeptic_model_assignment := [];
     last_gap_fingerprint := None; classifier_stall_count := 0; consecutive_not_achieved := 0;
     last_strategist_fired_at := 0; strategist_cap_bonus := 0; last_strategy_path := None;
     last_strategy_recommendation := None; changes_baseline_commit := commit;
     plan_file := None; plan_baseline_file := None; scratch_dir_ready := ready;
     live_subagent_tokens := 0; live_tokens_by_model := []; infra_retry_streak := 0;
     live_context_window := 0; live_context_pct := 0; live_turn_count := 0;
     live_tool_call_count := 0; planning_in_flight := false; verifying_in_flight := false |}.

Definition create_goal (c : Clock) (uuid : string) (fs : Fs) (t : GoalTracker)
    (id obj : string) (budget : option Z) (baseline : Z) (created : string)
    (commit : option string) : Fs * GoalTracker :=
  let '(fs, _) := create_dir_all ops fs (goal_dir t) in
  let '(fs, t) :=
    match orchestration t with
    | Some _ => let '(fs, t) := rescue_classifier_details ops fs t in
                (remove_scratch_root ops fs t, t)
    | None => (fs, t)
    end in
  let vid := generate_verifier_id uuid in
  let '(fs, ready) := prepare_scratch ops fs vid in
  let t := t <| orchestration := Some (new_goal id obj budget baseline created commit vid ready) |>
             <| active_since := Some (instant c) |> in
  (fs, record_event c GoalCreated None t).

Definition restore_phase (o : GoalOrchestration) : GoalOrchestration :=
  match phase o with
  | GPlanning | GExecuting =>
      let o := o <| phase := GIdle |> in
      let o := if bool_decide (status o = Active) then o <| status := UserPaused |> else o in
      o <| current_subagent_id := None |> <| current_subagent_role := None |>
  | GIdle => o
  end.

Definition from_snapshot (c : Clock) (uuid : string) (fs : Fs) (dir : string)
    (snapshot : GoalOrchestration) : Fs * GoalTracker :=
  let o := restore_phase snapshot in
  let o := o <| planning_in_flight := false |> <| verifying_in_flight := false |>
             <| skeptic0_session_id := None |> in
  let o := if canonical_verifier_id (verifier_id o) then o
           else o <| verifier_id := generate_verifier_id uuid |> in
  let '(fs, o) :=
    if contains (status o) [Complete; BudgetLimited]
    then (fs, o <| scratch_dir_ready := false |>)
    else let '(fs, ready) := prepare_scratch ops fs (verifier_id o) in
         (fs, o <| scratch_dir_ready := ready |>) in
  (fs, mkTracker (Some o) dir (if bool_decide (status o = Active) then Some (instant c) else None)).

Definition pause_inner (c : Clock) (r : GoalPauseReason) (msg : option string) (t : GoalTracker)
    : bool * GoalTracker :=
  match orchestration t with
  | Some o =>
      if bool_decide (status o = Active) then
        let o := stop_timer c (active_since t) o in
        let o := o <| status := to_status r |> in
        let o := match msg with Some _ => o <| pause_message := msg |> | None => o end in
        let t := t <| orchestration := Some o |> <| active_since := None |> in
        (true, record_event c GoalPaused (Some (history_detail r)) t)
      else (false, t)
  | None => (false, t)
  end.

Definition pause (c : Clock) (r : GoalPauseReason) (t : GoalTracker) : bool * GoalTracker :=
  pause_inner c r None t.

Definition pause_with_message (c : Clock) (r : GoalPauseReason) (msg : string) (t : GoalTracker)
    : bool * GoalTracker := pause_inner c r (Some msg) t.

Definition resume (c : Clock) (t : GoalTracker) : bool * GoalTracker :=
  match orchestration t with
  | Some o =>
      if is_paused (status o) then
        let o := o <| status := Active |> <| pause_message := None |>
                   <| classifier_runs_attempted := 0%N |> <| rounds_since_verify := 0%N |> in
        let o := reset_classifier_stall_fields (reset_strategist_fields o) in
        let t := t <| orchestration := Some o |> <| active_since := Some (instant c) |> in
        (true, record_event c GoalResumed None t)
      else (false, t)
  | None => (false, t)
  end.

(** What [complete_inner] and [budget_limit_inner] do to the goal. *)
Definition end_goal (c : Clock) (s : GoalStatus) (since : option N) (o : GoalOrchestration)
    : GoalOrchestration :=
  let o := stop_timer c since o in
  let o := o <| status := s |> <| phase := GIdle |> <| current_subagent_id := None |>
             <| current_subagent_role := None |> <| pause_message := None |>
             <| skeptic0_session_id := None |> <| skeptic_model_assignment := [] |>
             <| plan_baseline_file := None |> in
  reset_strategist_fields o.

Definition end_inner (s : GoalStatus) (e : GoalEvent) (defer_fs : bool) (c : Clock) (fs : Fs)
    (t : GoalTracker) : Fs * (bool * GoalTracker) :=
  match orchestration t with
  | Some o =>
      if bool_decide (status o = Active) || is_paused (status o) then
        let t := t <| orchestration := Some (end_goal c s (active_since t) o) |>
                   <| active_since := None |> in
        let '(fs, t) :=
          if negb defer_fs
          then let '(fs, t) := rescue_classifier_details ops fs t in (remove_scratch_root ops fs t, t)
          else (fs, t) in
        (fs, (true, record_event c e None t))
      else (fs, (false, t))
  | None => (fs, (false, t))
  end.

Definition complete_inner : bool → Clock → Fs → GoalTracker → Fs * (bool * GoalTracker) :=
  end_inner Complete GoalCompleted.
Definition budget_limit_inner : bool → Clock → Fs → GoalTracker → Fs * (bool * GoalTracker) :=
  end_inner BudgetLimited BudgetExceeded.

Definition complete : Clock → Fs → GoalTracker → Fs * (bool * GoalTracker) := complete_inner false.
Definition budget_limit : Clock → Fs → GoalTracker → Fs * (bool * GoalTracker) := budget_limit_inner false.

Definition complete_defer_scratch_cleanup (c : Clock) (fs : Fs) (t : GoalTracker)
    : (bool * option DeferredGoalFsCleanup) * GoalTracker :=
  let job := deferred_fs_cleanup_job ops t in
  let '(_, (applied, t)) := complete_inner true c fs t in
  ((applied, if applied then job else None), t).

Definition budget_limit_defer_scratch_cleanup (c : Clock) (fs : Fs) (t : GoalTracker)
    : (bool * option DeferredGoalFsCleanup) * GoalTracker :=
  let job := deferred_fs_cleanup_job ops t in
  let '(_, (applied, t)) := budget_limit_inner true c fs t in
  ((applied, if applied then job else None), t).

Definition clear (fs : Fs) (t : GoalTracker) : Fs * GoalTracker :=
  let '(fs, t) := rescue_classifier_details ops fs t in
  let fs := remove_scratch_root ops fs t in
  (fs, t <| orchestration := None |> <| active_since := None |>).
End lifecycle.

(** ** Fields that callers set *)

Definition set_phase (p : GoalPhase) : GoalTracker → GoalTracker :=
  update_goal (λ o, o <| phase := p |>).

Definition set_current_subagent (id role : option string) : GoalTracker → GoalTracker :=
  update_goal (λ o, o <| current_subagent_id := id |> <| current_subagent_role := role |>).

Definition update_live_progress (tokens : N) (by_model : list (string * N)) (window pct turns calls : N)
    : GoalTracker → GoalTracker :=
  update_goal (λ o, o <| live_subagent_tokens := tokens |> <| live_tokens_by_model := by_model |>
                      <| live_context_window := window |> <| live_context_pct := pct |>
                      <| live_turn_count := turns |> <| live_tool_call_count := calls |>).

Definition account_elapsed (c : Clock) (t : GoalTracker) : GoalTracker :=
  match orchestration t, active_since t with
  | Some o, Some since =>
      t <| orchestration := Some (o <| elapsed_ms := add_elapsed (instant c) since (elapsed_ms o) |>) |>
        <| active_since := Some (instant c) |>
  | _, _ => t
  end.

(** ** The verification loop's counters *)

Definition stall_threshold (o : GoalOrchestration) : N :=
  if (0 <? strategist_cap_bonus o)%N then GOAL_STRATEGIST_STALL_THRESHOLD
  else GOAL_CLASSIFIER_STALL_THRESHOLD.

Definition record_stall (fingerprint : string) (o : GoalOrchestration) : GoalOrchestration :=
  if bool_decide (last_gap_fingerprint o = Some fingerprint)
  then o <| classifier_stall_count := u32_saturating_add (classifier_stall_count o) 1 |>
  else o <| last_gap_fingerprint := Some fingerprint |> <| classifier_stall_count := 1%N |>.

Definition record_classifier_stall (fingerprint : string) (t : GoalTracker) : bool * GoalTracker :=
  match orchestration t with
  | None => (false, t)
  | Some o =>
      let o := record_stall fingerprint o in
      ((stall_threshold o <=? classifier_stall_count o)%N, t <| orchestration := Some o |>)
  end.

Definition rollback_classifier_attempt : GoalTracker → GoalTracker :=
  update_goal (λ o, o <| classifier_runs_attempted := (classifier_runs_attempted o - 1)%N |>).

Definition reset_classifier_stall : GoalTracker → GoalTracker := update_goal reset_classifier_stall_fields.

Definition record_not_achieved_streak (t : GoalTracker) : N * GoalTracker :=
  match orchestration t with
  | None => (0%N, t)
  | Some o =>
      let o := o <| consecutive_not_achieved := u32_saturating_add (consecutive_not_achieved o) 1 |> in
      (consecutive_not_achieved o, t <| orchestration := Some o |>)
  end.

Definition defer_criterion (crit : option N) (reason : string) (t : GoalTracker) : bool * GoalTracker :=
  match orchestration t with
  | None => (false, t)
  | Some o =>
      if any (λ d, opt_eqb (dc_criterion d) crit) (deferred_criteria o) then (false, t)
      else (true, t <| orchestration :=
                    Some (o <| deferred_criteria := deferred_criteria o ++ [mkDeferred crit reason] |>) |>)
  end.

(** [plan] is what the file system says about the plan: its mtime, its body. *)
Definition refresh_criteria_view (plan : option N * option string) (t : GoalTracker) : GoalTracker :=
  let '(mtime, body) := plan in
  match orchestration t with
  | None => t
  | Some o =>
      if bool_decide (is_Some mtime) && opt_eqb mtime (criteria_view_mtime o) then t
      else match body with
           | None => t
           | Some body =>
               t <| orchestration := Some (o <| criteria_view_mtime := mtime |>
                      <| criteria_view := build_criteria_view body (deferred_criteria o) |>) |>
           end
  end.

Definition force_refresh_criteria_view (plan : option N * option string) (t : GoalTracker) : GoalTracker :=
  refresh_criteria_view plan (update_goal (λ o, o <| criteria_view_mtime := None |>) t).

Definition grant_fresh_classifier_budget : GoalTracker → GoalTracker :=
  update_goal (λ o, reset_classifier_stall_fields
    (o <| classifier_runs_attempted := 0%N |> <| rounds_since_verify := 0%N |>)).

Definition all_remaining_work_deferred (total : nat) (t : GoalTracker) : bool :=
  match orchestration t with
  | None => false
  | Some o =>
      if (total =? 0) || is_nil (deferred_criteria o) then false
      else if any (λ d, opt_eqb (dc_criterion d) None) (deferred_criteria o) then true
      else
        let ds := omap dc_criterion (deferred_criteria o) in
        all (λ i, contains (N.of_nat i) ds) (seq 1 (N.to_nat (CriterionGraph.as_u32 total)))
  end.

Definition deferral_line (d : DeferredCriterion) : string :=
  match dc_criterion d with
  | Some c => "criterion " +:+ pretty c +:+ ": " +:+ dc_reason d
  | None => dc_reason d
  end.

Definition deferral_report (t : GoalTracker) : list string :=
  match orchestration t with
  | Some o => map deferral_line (deferred_criteria o)
  | None => []
  end.

Definition record_infra_failure (max_retries : N) (t : GoalTracker) : bool * GoalTracker :=
  match orchestration t with
  | Some o =>
      let o := o <| infra_retry_streak := u32_saturating_add (infra_retry_streak o) 1 |> in
      ((infra_retry_streak o <=? max_retries)%N, t <| orchestration := Some o |>)
  | None => (false, t)
  end.

Definition clear_infra_failure_streak : GoalTracker → GoalTracker :=
  update_goal (λ o, o <| infra_retry_streak := 0%N |>).

Definition strategist_should_fire (every consecutive last_fired : N) : bool :=
  (0 <? every)%N && (u32_saturating_add last_fired every <=? consecutive)%N.

Definition claim_strategist_fire (should_fire : N → N → bool) (t : GoalTracker) : option N * GoalTracker :=
  match orchestration t with
  | None => (None, t)
  | Some o =>
      if should_fire (consecutive_not_achieved o) (last_strategist_fired_at o) then
        let o := o <| last_strategist_fired_at := consecutive_not_achieved o |>
                   <| strategist_cap_bonus := GOAL_STRATEGIST_CAP_BONUS |> in
        let o := reset_classifier_stall_fields o in
        (Some (consecutive_not_achieved o), t <| orchestration := Some o |>)
      else (None, t)
  end.

Definition claim_amender_run (max_runs : N) (t : GoalTracker) : bool * GoalTracker :=
  match orchestration t with
  | None => (false, t)
  | Some o =>
      if (max_runs <=? amender_runs o)%N then (false, t)
      else (true, t <| orchestration := Some (o <| amender_runs := (amender_runs o + 1)%N |>) |>)
  end.

Definition revoke_strategist_cap_bonus : GoalTracker → GoalTracker :=
  update_goal (λ o, o <| strategist_cap_bonus := 0%N |>).

Definition reset_strategist_state : GoalTracker → GoalTracker := update_goal reset_strategist_fields.

Definition record_strategy_recommendation (p rec : string) : GoalTracker → GoalTracker :=
  update_goal (λ o, o <| last_strategy_path := Some p |> <| last_strategy_recommendation := Some rec |>).
