(* ===== verification/GoalTrackerFacts.v ===== *)
(** * Correctness of the goal tracker

    Every method of the tracker as one operation of a step function, the
    invariant all of them keep, and what holds along every sequence of calls:
    terminal goals stay terminal, the clock counts active time only, lifecycle
    changes are recorded, the budgets of the verification loop are honoured. *)

From Stdlib Require Import Ascii String ZArith.
From S2P Require Import Prelude RustStr TrimLemmas CriteriaView GoalTracker.
From stdpp Require Import options.

(** ** The operations *)

Inductive GoalOp : Type :=
| OpCreate (uuid id obj : string) (budget : option Z) (baseline : Z) (created : string) (commit : option string)
| OpPause (r : GoalPauseReason) (msg : option string)
| OpResume
| OpComplete (defer_fs : bool)
| OpBudgetLimit (defer_fs : bool)
| OpClear
| OpSetPhase (p : GoalPhase)
| OpSetSubagent (id role : option string)
| OpLive (tokens : N) (by_model : list (string * N)) (window pct turns calls : N)
| OpAccount
| OpStall (fingerprint : string)
| OpRollback
| OpResetStall
| OpNotAchieved
| OpDefer (crit : option N) (reason : string)
| OpRefresh (force : bool) (plan : option N * option string)
| OpGrant
| OpInfra (max_retries : N)
| OpClearInfra
| OpStrategist (should_fire : N → N → bool)
| OpAmender (max_runs : N)
| OpRevoke
| OpResetStrategist
| OpStrategy (path rec : string)
| OpRescued (dest : string)
| OpHistory (entry : GoalHistoryEntry).

Section ops.
Context {Fs : Type} (ops : FileSystem Fs).

Definition run_op (c : Clock) (op : GoalOp) (s : Fs * GoalTracker) : Fs * GoalTracker :=
  let '(fs, t) := s in
  match op with
  | OpCreate uuid id obj budget baseline created commit =>
      create_goal ops c uuid fs t id obj budget baseline created commit
  | OpPause r msg => (fs, (pause_inner c r msg t).2)
  | OpResume => (fs, (resume c t).2)
  | OpComplete d => let '(fs, (_, t)) := complete_inner ops d c fs t in (fs, t)
  | OpBudgetLimit d => let '(fs, (_, t)) := budget_limit_inner ops d c fs t in (fs, t)
  | OpClear => clear ops fs t
  | OpSetPhase p => (fs, set_phase p t)
  | OpSetSubagent id role => (fs, set_current_subagent id role t)
  | OpLive a b d e f g => (fs, update_live_progress a b d e f g t)
  | OpAccount => (fs, account_elapsed c t)
  | OpStall fp => (fs, (record_classifier_stall fp t).2)
  | OpRollback => (fs, rollback_classifier_attempt t)
  | OpResetStall => (fs, reset_classifier_stall t)
  | OpNotAchieved => (fs, (record_not_achieved_streak t).2)
  | OpDefer crit reason => (fs, (defer_criterion crit reason t).2)
  | OpRefresh force plan =>
      (fs, if force then force_refresh_criteria_view plan t else refresh_criteria_view plan t)
  | OpGrant => (fs, grant_fresh_classifier_budget t)
  | OpInfra n => (fs, (record_infra_failure n t).2)
  | OpClearInfra => (fs, clear_infra_failure_streak t)
  | OpStrategist f => (fs, (claim_strategist_fire f t).2)
  | OpAmender n => (fs, (claim_amender_run n t).2)
  | OpRevoke => (fs, revoke_strategist_cap_bonus t)
  | OpResetStrategist => (fs, reset_strategist_state t)
  | OpStrategy p r => (fs, record_strategy_recommendation p r t)
  | OpRescued d => (fs, apply_rescued_details_path d t)
  | OpHistory e => (fs, append_history e t)
  end.

Definition run_ops (l : list (Clock * GoalOp)) (s : Fs * GoalTracker) : Fs * GoalTracker :=
  foldl (λ s co, run_op co.1 co.2 s) s l.

End ops.

(** ** The invariant *)

Record goal_wf (o : GoalOrchestration) : Prop := mkGoalWf {
  wf_history : length (history o) ≤ GOAL_HISTORY_MAX;
  wf_stall : last_gap_fingerprint o = None ↔ classifier_stall_count o = 0%N;
  wf_fired : (last_strategist_fired_at o ≤ consecutive_not_achieved o)%N;
  wf_u32 : (consecutive_not_achieved o ≤ u32_max)%N;
  wf_bonus : strategist_cap_bonus o = 0%N ∨ strategist_cap_bonus o = GOAL_STRATEGIST_CAP_BONUS;
  wf_deferred : NoDup (map dc_criterion (deferred_criteria o));
  wf_message : is_Some (pause_message o) → is_paused (status o) = true;
}.

Definition tracker_wf (t : GoalTracker) : Prop :=
  (is_Some (active_since t) ↔ tracker_status t = Some Active)
  ∧ ∀ o, orchestration t = Some o → goal_wf o.

(** A change of the goal alone that keeps its status. *)
Lemma update_goal_wf f t :
  (∀ o, status (f o) = status o) → (∀ o, goal_wf o → goal_wf (f o)) →
  tracker_wf t → tracker_wf (update_goal f t).
Proof.
  intros Hs Hf. destruct t as [[o|] d a]; [|done]. unfold tracker_wf, tracker_status. cbn.
  rewrite Hs. intros [Ha Hg]. split; [done|]. intros o' [= <-]. by apply Hf, Hg.
Qed.

(** Setting the goal and the timer at once. *)
Lemma set_goal_wf t o a :
  (is_Some a ↔ status o = Active) → goal_wf o → tracker_wf (mkTracker (Some o) (session_dir t) a).
Proof.
  intros Ha Hg. split; [unfold tracker_status; cbn; rewrite Ha; split; [by intros ->|by intros [=]]|].
  by intros o' [= <-].
Qed.

Ltac wf_fields := intros ? []; constructor; cbn in *; try done; try lia; by left.

Lemma capped_length {A} (h : list A) m :
  length (if 0 <? length h - m then drop (length h - m) h else h) ≤ m.
Proof. destruct (Nat.ltb_spec 0 (length h - m)); rewrite ?length_drop; lia. Qed.

Lemma append_history_wf e t : tracker_wf t → tracker_wf (append_history e t).
Proof.
  apply update_goal_wf; [done|]. intros o [Hh ? ? ? ? ? ?]. constructor; try done. apply capped_length.
Qed.

Lemma new_goal_wf id obj b bl cr co vid r : goal_wf (new_goal id obj b bl cr co vid r).
Proof.
  constructor; cbn; try done; try lia; try (by left); try (by intros [? ?]); apply NoDup_nil_2.
Qed.

Lemma rescue_wf {Fs} (ops : FileSystem Fs) fs t :
  tracker_wf t → tracker_wf (rescue_classifier_details ops fs t).2.
Proof.
  intros Ht. unfold rescue_classifier_details. destruct (deferred_fs_cleanup_job ops t) as [job|]; [|done].
  destruct (rescue_details_only ops fs job) as [fs' [d|]]; [|done].
  apply update_goal_wf; [done|wf_fields|done].
Qed.

Lemma create_goal_wf {Fs} (ops : FileSystem Fs) c uuid fs t id obj b bl cr co :
  tracker_wf (create_goal ops c uuid fs t id obj b bl cr co).2.
Proof.
  unfold create_goal. destruct (create_dir_all ops fs _) as [fs1 ?].
  destruct (match orchestration t with Some _ => _ | None => _ end) as [fs2 t2].
  destruct (prepare_scratch ops fs2 _) as [fs3 ready]. cbn [snd].
  apply append_history_wf. apply set_goal_wf; [by cbn|]. apply new_goal_wf.
Qed.

Lemma status_of_to_status r : is_paused (to_status r) = true ∧ to_status r ≠ Active.
Proof. by destruct r. Qed.

Lemma pause_inner_wf c r m t : tracker_wf t → tracker_wf (pause_inner c r m t).2.
Proof.
  intros [Ha Hg]. unfold pause_inner. destruct t as [[o|] d a]; [|done]. cbn [orchestration].
  case_bool_decide as Hs; [|done]. cbn [snd]. apply append_history_wf.
  destruct (status_of_to_status r) as [Hp Hna]. specialize (Hg o eq_refl).
  apply set_goal_wf.
  - destruct m, a; cbn; split; try done; by intros [].
  - destruct Hg as [? ? ? ? ? ? ?]. destruct m, a; constructor; cbn; try done.
Qed.

Lemma resume_wf c t : tracker_wf t → tracker_wf (resume c t).2.
Proof.
  intros [Ha Hg]. unfold resume. destruct t as [[o|] d a]; [|done]. cbn [orchestration].
  destruct (is_paused (status o)) eqn:Hp; [|done]. cbn [snd]. apply append_history_wf.
  specialize (Hg o eq_refl). apply set_goal_wf; [done|].
  destruct Hg as [? ? ? ? ? ? ?]. constructor; cbn; try done; try (by left); by intros [? ?].
Qed.

Lemma end_inner_wf {Fs} (ops : FileSystem Fs) s e d c fs t :
  s ≠ Active → tracker_wf t → tracker_wf (end_inner ops s e d c fs t).2.2.
Proof.
  intros Hs [Ha Hg]. unfold end_inner. destruct t as [[o|] dir a]; [|done]. cbn [orchestration].
  destruct (_ || _); [|done].
  set (t1 := mkTracker (Some (end_goal c s a o)) dir None).
  assert (tracker_wf t1) as Ht1.
  { apply (set_goal_wf t1); [split; [by intros []|by destruct a]|].
    specialize (Hg o eq_refl). destruct Hg as [? ? ? ? ? ? ?].
    destruct a; constructor; cbn; try done; try (by left); try (by intros [? ?]). }
  change (_ <| active_since := None |>) with t1.
  destruct (negb d).
  - pose proof (rescue_wf ops fs t1 Ht1) as Hr.
    destruct (rescue_classifier_details ops fs t1) as [fs' t']. cbn in *. by apply append_history_wf.
  - cbn. by apply append_history_wf.
Qed.

Lemma refresh_wf plan t : tracker_wf t → tracker_wf (refresh_criteria_view plan t).
Proof.
  intros Ht. unfold refresh_criteria_view. destruct plan as [mt [b|]], t as [[o|] d a]; cbn; try case_if; try done.
  change (tracker_wf (update_goal (λ o, o <| criteria_view_mtime := mt |>
    <| criteria_view := build_criteria_view b (deferred_criteria o) |>) (mkTracker (Some o) d a))).
  apply update_goal_wf; [done|wf_fields|done].
Qed.

Lemma opt_eqb_spec a b : opt_eqb a b = true ↔ a = b.
Proof. apply bool_decide_eq_true. Qed.

Lemma defer_wf crit reason t : tracker_wf t → tracker_wf (defer_criterion crit reason t).2.
Proof.
  intros [Ha Hg]. unfold defer_criterion. destruct t as [[o|] d a]; [|done]. cbn [orchestration].
  destruct (any _ _) eqn:E; [done|]. cbn [snd]. specialize (Hg o eq_refl).
  apply (set_goal_wf (mkTracker None d a)).
  - cbn in *. rewrite Ha. unfold tracker_status. cbn. split; [by intros [=]|by intros ->].
  - destruct Hg as [? ? ? ? ? Hnd ?]. constructor; cbn; try done.
    rewrite map_app. apply NoDup_app. split_and!; [done| |apply NoDup_singleton].
    intros x (k & -> & Hk)%list_elem_of_fmap Hkc%list_elem_of_singleton.
    apply not_true_iff_false in E. apply E. apply any_spec. exists k. split; [done|].
    by apply opt_eqb_spec.
Qed.

Lemma stall_wf fp t : tracker_wf t → tracker_wf (record_classifier_stall fp t).2.
Proof.
  intros Ht. change (tracker_wf (record_classifier_stall fp t).2) with
    (tracker_wf (record_classifier_stall fp t).2).
  assert ((record_classifier_stall fp t).2 = update_goal (record_stall fp) t) as ->
    by by destruct t as [[o|] d a].
  apply update_goal_wf; [|..|done].
  - intros o. unfold record_stall. by case_if.
  - intros o [? Hst ? ? ? ? ?]. unfold record_stall. case_bool_decide as E; constructor; cbn; try done.
    split; [congruence|]. unfold u32_saturating_add, u32_max. lia.
Qed.

Lemma strategist_wf f t : tracker_wf t → tracker_wf (claim_strategist_fire f t).2.
Proof.
  intros [Ha Hg]. unfold claim_strategist_fire. destruct t as [[o|] d a]; [|done]. cbn [orchestration].
  case_if; [|done]. cbn [snd]. specialize (Hg o eq_refl).
  apply (set_goal_wf (mkTracker None d a)); [|revert Hg; generalize o; wf_fields].
  unfold tracker_status in Ha. cbn in *. rewrite Ha. split; [by intros [=]|by intros ->].
Qed.

Lemma amender_wf n t : tracker_wf t → tracker_wf (claim_amender_run n t).2.
Proof.
  intros [Ha Hg]. unfold claim_amender_run. destruct t as [[o|] d a]; [|done]. cbn [orchestration].
  case_if; [done|]. cbn [snd]. specialize (Hg o eq_refl).
  apply (set_goal_wf (mkTracker None d a)); [|revert Hg; generalize o; wf_fields].
  unfold tracker_status in Ha. cbn in *. rewrite Ha. split; [by intros [=]|by intros ->].
Qed.

(** Every operation keeps the invariant. *)
Lemma run_op_wf {Fs} (ops : FileSystem Fs) c op fs t :
  tracker_wf t → tracker_wf (run_op ops c op (fs, t)).2.
Proof.
  intros Ht. destruct op; cbn [run_op snd].
  - apply create_goal_wf.
  - by apply pause_inner_wf.
  - by apply resume_wf.
  - pose proof (end_inner_wf ops Complete GoalCompleted defer_fs c fs t ltac:(done) Ht) as H.
    unfold complete_inner. by destruct (end_inner _ _ _ _ _ _ _) as [? [? ?]].
  - pose proof (end_inner_wf ops BudgetLimited BudgetExceeded defer_fs c fs t ltac:(done) Ht) as H.
    unfold budget_limit_inner. by destruct (end_inner _ _ _ _ _ _ _) as [? [? ?]].
  - unfold clear. destruct (rescue_classifier_details ops fs t) as [fs' t']. cbn.
    split; [split; [by intros []|done]|done].
  - apply update_goal_wf; [done|wf_fields|done].
  - apply update_goal_wf; [done|wf_fields|done].
  - apply update_goal_wf; [done|wf_fields|done].
  - destruct t as [[o|] d [a|]]; try done. cbn. destruct Ht as [Ha Hg].
    apply (set_goal_wf (mkTracker None d None)); [|specialize (Hg o eq_refl); revert Hg; generalize o; wf_fields].
    split; [|by eauto]. intros _. unfold tracker_status in Ha. cbn in *.
    assert (Some (status o) = Some Active) as [= ?]; [|done]. apply Ha. eauto.
  - by apply stall_wf.
  - apply update_goal_wf; [done|wf_fields|done].
  - apply update_goal_wf; [done|wf_fields|done].
  - assert ((record_not_achieved_streak t).2 = update_goal (λ o, o <| consecutive_not_achieved :=
      u32_saturating_add (consecutive_not_achieved o) 1 |>) t) as -> by by destruct t as [[o|] d a].
    apply update_goal_wf; [done| |done]. intros o [? ? ? ? ? ? ?]. constructor; cbn; try done;
      unfold u32_saturating_add; lia.
  - by apply defer_wf.
  - destruct force; [|by apply refresh_wf]. apply refresh_wf, update_goal_wf; [done|wf_fields|done].
  - apply update_goal_wf; [done|wf_fields|done].
  - assert ((record_infra_failure max_retries t).2 = update_goal (λ o, o <| infra_retry_streak :=
      u32_saturating_add (infra_retry_streak o) 1 |>) t) as -> by by destruct t as [[o|] d a].
    apply update_goal_wf; [done|wf_fields|done].
  - apply update_goal_wf; [done|wf_fields|done].
  - by apply strategist_wf.
  - by apply amender_wf.
  - apply update_goal_wf; [done|wf_fields|done].
  - apply update_goal_wf; [done|wf_fields|done].
  - apply update_goal_wf; [done|wf_fields|done].
  - apply update_goal_wf; [done|wf_fields|done].
  - by apply append_history_wf.
Qed.

Lemma run_ops_wf {Fs} (ops : FileSystem Fs) l s : tracker_wf s.2 → tracker_wf (run_ops ops l s).2.
Proof.
  revert s. induction l as [|[c op] l IH]; intros s Hs; [done|].
  cbn [run_ops foldl]. apply IH. destruct s as [fs t]. by apply run_op_wf.
Qed.

Lemma tracker_new_wf dir : tracker_wf (tracker_new dir).
Proof. split; [|done]. unfold tracker_status. cbn. split; [by intros []|done]. Qed.

Lemma from_snapshot_wf {Fs} (ops : FileSystem Fs) c uuid fs dir snap :
  goal_wf snap → tracker_wf (from_snapshot ops c uuid fs dir snap).2.
Proof.
  intros Hg. unfold from_snapshot.
  set (o1 := restore_phase snap <| planning_in_flight := false |> <| verifying_in_flight := false |>
               <| skeptic0_session_id := None |>).
  assert (goal_wf o1) as H1'.
  { unfold o1, restore_phase. destruct Hg as [? ? ? ? ? ? Hm].
    destruct (phase snap); try case_bool_decide; constructor; cbn; try done. }
  set (o2 := if canonical_verifier_id (verifier_id o1) then o1 else o1 <| verifier_id := generate_verifier_id uuid |>).
  assert (goal_wf o2) as H2'.
  { unfold o2. case_if; [done|]. destruct H1'. by constructor. }
  assert (∀ b, goal_wf (o2 <| scratch_dir_ready := b |>)) as H3' by by intros b; destruct H2'; constructor.
  assert (∀ o, goal_wf o → tracker_wf (mkTracker (Some o) dir
    (if bool_decide (status o = Active) then Some (instant c) else None))) as Hend.
  { intros o Ho. apply (set_goal_wf (mkTracker None dir None)); [|done].
    case_bool_decide; split; try done; by intros []. }
  destruct (contains _ _); [by apply Hend|].
  destruct (prepare_scratch ops fs (verifier_id o2)) as [fs' r]. by apply Hend.
Qed.

(** The trackers a program can hold: a new one, one that took calls, and one that
    is restored from the goal such a tracker saved. *)
Inductive tracked {Fs} (ops : FileSystem Fs) : Fs * GoalTracker → Prop :=
| tracked_new fs dir : tracked ops (fs, tracker_new dir)
| tracked_calls s l : tracked ops s → tracked ops (run_ops ops l s)
| tracked_restored s snap c uuid fs dir :
    tracked ops s → orchestration s.2 = Some snap → tracked ops (from_snapshot ops c uuid fs dir snap).

(** C33: The tracker's invariant. Start with a new tracker, make any calls, save
    the goal at any point, restore a tracker from it in another run of the
    program, and so on: always the timer runs exactly while the goal is Active, at
    most 64 history entries are kept, a stall count stands for a remembered
    fingerprint, the strategist's last fire is not ahead of the failure streak,
    its bonus is granted once or not at all, no criterion is deferred twice, and a
    pause message is only kept while the goal is paused. (A goal is read back as
    it was saved; a file written by another program, or by hand, is not vouched
    for.) *)
Theorem tracker_invariant {Fs} (ops : FileSystem Fs) (s : Fs * GoalTracker) : tracked ops s → tracker_wf s.2.
Proof.
  induction 1 as [fs dir|[fs t] l _ IH|s snap c uuid fs dir _ IH Hs].
  - apply tracker_new_wf.
  - by apply run_ops_wf.
  - apply from_snapshot_wf. destruct IH as [_ Hg]. by apply Hg.
Qed.

(** ** Status changes *)

(** Replacing the goal is the only way out of a terminal status. *)
Definition replaces_goal (op : GoalOp) : bool :=
  match op with OpCreate _ _ _ _ _ _ _ | OpClear => true | _ => false end.

(** The lifecycle's edges. *)
Definition legal_change (s s' : GoalStatus) : Prop :=
  (s = Active ∧ is_paused s' = true) ∨ (is_paused s = true ∧ s' = Active)
  ∨ ((s = Active ∨ is_paused s = true) ∧ (s' = Complete ∨ s' = BudgetLimited)).

Definition change_event (s' : GoalStatus) : GoalEvent :=
  match s' with
  | Active => GoalResumed
  | Complete => GoalCompleted
  | BudgetLimited => BudgetExceeded
  | _ => GoalPaused
  end.

Lemma last_capped {A} (h : list A) x m :
  0 < m → last (if 0 <? length (h ++ [x]) - m then drop (length (h ++ [x]) - m) (h ++ [x]) else h ++ [x]) = Some x.
Proof.
  intros Hm. destruct (Nat.ltb_spec 0 (length (h ++ [x]) - m)); [|apply last_snoc].
  rewrite length_app in *. cbn [length] in *. rewrite drop_app_le, last_snoc; [done|lia].
Qed.

(** [o'] is [o] with another status and an entry for it. *)
Definition recorded (c : Clock) (o o' : GoalOrchestration) : Prop :=
  legal_change (status o) (status o') ∧ ∃ d, last (history o') = Some (entry_now c (change_event (status o')) d).

Lemma recorded_intro c e d o o1 s t :
  orchestration t = Some o1 → status o1 = s → legal_change (status o) s → e = change_event s →
  ∃ o', orchestration (record_event c e d t) = Some o' ∧ recorded c o o'.
Proof.
  intros Ht <- Hl ->. unfold record_event, append_history, update_goal. rewrite Ht. cbn.
  eexists. split; [done|]. split; [done|]. exists d. apply last_capped. unfold GOAL_HISTORY_MAX. lia.
Qed.

Lemma rescue_status {Fs} (ops : FileSystem Fs) fs t o :
  orchestration t = Some o →
  ∃ o', orchestration (rescue_classifier_details ops fs t).2 = Some o'
    ∧ status o' = status o ∧ elapsed_ms o' = elapsed_ms o.
Proof.
  intros Ht. unfold rescue_classifier_details, deferred_fs_cleanup_job. rewrite Ht. cbn [fmap option_fmap option_map].
  destruct (rescue_details_only _ _ _) as [fs' [dst|]]; cbn [snd].
  - unfold apply_rescued_details_path, update_goal. rewrite Ht. eexists. split; [reflexivity|]. by destruct o.
  - by exists o.
Qed.

Lemma end_inner_change {Fs} (ops : FileSystem Fs) s e d c fs t o :
  orchestration t = Some o → s = Complete ∨ s = BudgetLimited → e = change_event s →
  let t' := (end_inner ops s e d c fs t).2.2 in
  t' = t ∨ ∃ o', orchestration t' = Some o' ∧ recorded c o o'.
Proof.
  intros Ht Hs ->. unfold end_inner. rewrite Ht.
  destruct (bool_decide (status o = Active) || is_paused (status o)) eqn:Eg; [right|by left].
  assert (status o = Active ∨ is_paused (status o) = true) as Hl.
  { apply orb_true_iff in Eg as [Eg%bool_decide_eq_true|]; auto. }
  set (o1 := end_goal c s (active_since t) o).
  assert (status o1 = s) as Hst by by unfold o1, end_goal; destruct (active_since t), o.
  clearbody o1. set (t1 := t <| orchestration := Some o1 |> <| active_since := None |>).
  assert (orchestration t1 = Some o1) as Ht1 by done. clearbody t1.
  destruct (negb d).
  - destruct (rescue_status ops fs t1 o1 Ht1) as (o2 & Ho2 & Hs2 & _).
    destruct (rescue_classifier_details ops fs t1) as [fs' t2]. cbn [fst snd] in *.
    eapply (recorded_intro _ _ _ _ o2 s); [done|congruence|by right; right|done].
  - cbn [fst snd]. eapply (recorded_intro _ _ _ _ o1 s); [done|done|by right; right|done].
Qed.

Lemma pause_inner_change c r msg t o :
  orchestration t = Some o →
  ∃ o', orchestration (pause_inner c r msg t).2 = Some o' ∧ (status o' = status o ∨ recorded c o o').
Proof.
  intros Ht. unfold pause_inner. rewrite Ht. case_bool_decide as Hs; cbn [snd]; [|by exists o; auto].
  edestruct (recorded_intro c GoalPaused (Some (history_detail r)) o) as (o' & Ho' & Hrec);
    [| | | |exists o'; split; [exact Ho'|by right]].
  - done.
  - by destruct msg.
  - left. split; [done|apply status_of_to_status].
  - by destruct r.
Qed.

Lemma update_goal_status f t o :
  (∀ o, status (f o) = status o) → orchestration t = Some o →
  ∃ o', orchestration (update_goal f t) = Some o' ∧ status o' = status o.
Proof. intros Hf Ht. unfold update_goal. rewrite Ht. exists (f o). by rewrite Hf. Qed.

Lemma refresh_status plan t o :
  orchestration t = Some o →
  ∃ o', orchestration (refresh_criteria_view plan t) = Some o' ∧ status o' = status o.
Proof.
  intros Ht. unfold refresh_criteria_view. destruct plan as [mt [b|]]; rewrite Ht; case_if; eauto.
Qed.

(** The calls that are no lifecycle change keep the status. *)
Lemma run_op_plain_status {Fs} (ops : FileSystem Fs) c op fs t o :
  orchestration t = Some o →
  match op with
  | OpCreate _ _ _ _ _ _ _ | OpClear | OpPause _ _ | OpResume | OpComplete _ | OpBudgetLimit _ => True
  | _ => ∃ o', orchestration (run_op ops c op (fs, t)).2 = Some o' ∧ status o' = status o
  end.
Proof.
  intros Ht. destruct op; try done; cbn [run_op snd];
    try (apply update_goal_status; [|exact Ht]; intros ?; reflexivity).
  - unfold account_elapsed. rewrite Ht. destruct (active_since t); eauto.
  - unfold record_classifier_stall. rewrite Ht. eexists. split; [reflexivity|]. unfold record_stall. by case_if.
  - unfold record_not_achieved_streak. rewrite Ht. eexists. split; reflexivity.
  - unfold defer_criterion. rewrite Ht. case_if; eauto.
  - destruct force; [|by apply refresh_status].
    destruct (update_goal_status (λ o, o <| criteria_view_mtime := None |>) t o) as (o1 & Ho1 & Hs1); [done..|].
    destruct (refresh_status plan _ o1 Ho1) as (o2 & Ho2 & Hs2). exists o2. split; [exact Ho2|congruence].
  - unfold record_infra_failure. rewrite Ht. eexists. split; reflexivity.
  - unfold claim_strategist_fire. rewrite Ht. case_if; eauto.
  - unfold claim_amender_run. rewrite Ht. case_if; eauto.
Qed.

(** A call that is no lifecycle change keeps the status. *)
Lemma run_op_status {Fs} (ops : FileSystem Fs) c op fs t o :
  orchestration t = Some o → replaces_goal op = false →
  ∃ o', orchestration (run_op ops c op (fs, t)).2 = Some o' ∧ (status o' = status o ∨ recorded c o o').
Proof.
  intros Ht Hr. pose proof (run_op_plain_status ops c op fs t o Ht) as Hplain.
  destruct op; try done; try (destruct Hplain as (o' & ? & ?); exists o'; by auto); clear Hplain; cbn [run_op snd].
  - by apply pause_inner_change.
  - unfold resume. rewrite Ht. destruct (is_paused (status o)) eqn:Hp; cbn [snd]; [|by exists o; auto].
    edestruct (recorded_intro c GoalResumed None o) as (o' & Ho' & Hrec);
      [| | | |exists o'; split; [exact Ho'|by right]]; [done|done|by right; left|done].
  - destruct (end_inner_change ops Complete GoalCompleted defer_fs c fs t o Ht) as [E|(o' & Ho' & Hrec)]; [by left|done|..];
      unfold complete_inner; destruct (end_inner _ _ _ _ _ _ _) as [? [? t']]; cbn in *; subst; eauto.
  - destruct (end_inner_change ops BudgetLimited BudgetExceeded defer_fs c fs t o Ht) as [E|(o' & Ho' & Hrec)]; [by right|done|..];
      unfold budget_limit_inner; destruct (end_inner _ _ _ _ _ _ _) as [? [? t']]; cbn in *; subst; eauto.
Qed.

(** Every status change is a legal one and leaves its mark. A call other than
    creating or clearing the goal keeps a goal in place; when its status differs
    from before, the change is Active to paused, paused back to Active, or an
    Active or paused goal ending as Complete or BudgetLimited, and the newest
    history entry names it with the time of the call. *)
Lemma status_changes_are_recorded {Fs} (ops : FileSystem Fs) (c : Clock) (op : GoalOp)
    (fs : Fs) (t : GoalTracker) (o : GoalOrchestration) :
  orchestration t = Some o → replaces_goal op = false →
  ∃ o', orchestration (run_op ops c op (fs, t)).2 = Some o' ∧
    (status o' = status o ∨
     legal_change (status o) (status o')
     ∧ ∃ d, last (history o') = Some (entry_now c (change_event (status o')) d)).
Proof. intros Ht Hr. by apply run_op_status. Qed.

(** ** Terminal goals *)

Definition terminal (s : GoalStatus) : Prop := s = Complete ∨ s = BudgetLimited.

Lemma legal_change_not_terminal s s' : legal_change s s' → ¬ terminal s.
Proof. intros Hl [E|E]; rewrite E in Hl; destruct Hl as [[? _]|[[? _]|[[?|?] _]]]; done. Qed.

Lemma terminal_run {Fs} (ops : FileSystem Fs) l s o :
  orchestration s.2 = Some o → terminal (status o) → (∀ co, co ∈ l → replaces_goal co.2 = false) →
  ∃ o', orchestration (run_ops ops l s).2 = Some o' ∧ status o' = status o.
Proof.
  revert s o. induction l as [|[c op] l IH]; intros [fs t] o Ho Ht Hl; [by exists o|].
  destruct (run_op_status ops c op fs t o Ho) as (o1 & Ho1 & Hs); [by apply (Hl (c, op)); left|].
  assert (status o1 = status o) as Hs1.
  { destruct Hs as [|[Hleg _]]; [done|]. by apply legal_change_not_terminal in Hleg. }
  destruct (IH (run_op ops c op (fs, t)) o1) as (o2 & Ho2 & Hs2); [done|by rewrite Hs1| |].
  - intros co Hco. apply Hl. by right.
  - exists o2. split; [exact Ho2|congruence].
Qed.

(** A finished goal stays finished. Once a goal is Complete or BudgetLimited no
    sequence of calls changes its status, short of creating a new goal or
    clearing it. *)
Lemma terminal_goal_is_final {Fs} (ops : FileSystem Fs) (l : list (Clock * GoalOp)) (fs : Fs)
    (t : GoalTracker) (s : GoalStatus) :
  tracker_status t = Some s → s = Complete ∨ s = BudgetLimited →
  (∀ co, co ∈ l → replaces_goal co.2 = false) →
  tracker_status (run_ops ops l (fs, t)).2 = Some s.
Proof.
  unfold tracker_status. intros (o & Ho & ->)%fmap_Some Hs Hl.
  destruct (terminal_run ops l (fs, t) o Ho Hs Hl) as (o' & -> & Hs'). cbn. by rewrite Hs'.
Qed.

(** ** The clock *)

(** Active time on the books at [now]: what was flushed and what is running. *)
Definition accounted (t : GoalTracker) (now : N) : N :=
  match orchestration t with
  | Some o => N.min (elapsed_ms o + match active_since t with Some s => (now - s)%N | None => 0%N end) u64_max
  | None => 0
  end.

(** Active time of a run: the gaps between calls during which the goal was Active. *)
Fixpoint active_time {Fs} (ops : FileSystem Fs) (prev : N) (l : list (Clock * GoalOp))
    (s : Fs * GoalTracker) : N :=
  match l with
  | [] => 0
  | (c, op) :: l =>
      (if tracker_is_active s.2 then instant c - prev else 0)
      + active_time ops (instant c) l (run_op ops c op s)
  end.

(** Calls in order of time, none past the range of a [u64]. *)
Fixpoint ordered_from (prev : N) (l : list (Clock * GoalOp)) : Prop :=
  match l with
  | [] => True
  | (c, _) :: l => (prev ≤ instant c ≤ u64_max)%N ∧ ordered_from (instant c) l
  end.

Definition last_instant (prev : N) (l : list (Clock * GoalOp)) : N :=
  foldl (λ _ co, instant co.1) prev l.

Definition timer_before (t : GoalTracker) (now : N) : Prop :=
  ∀ s, active_since t = Some s → (s ≤ now)%N.

Lemma add_elapsed_spec now s e :
  (now ≤ u64_max)%N → add_elapsed now s e = N.min (e + (now - s)) u64_max.
Proof.
  intros Hn. unfold add_elapsed, u64_saturating_add. rewrite N.mod_small; [done|].
  unfold u64_max in *. lia.
Qed.

Lemma stop_timer_elapsed c since o :
  (instant c ≤ u64_max)%N →
  N.min (elapsed_ms (stop_timer c since o)) u64_max
  = N.min (elapsed_ms o + match since with Some s => (instant c - s)%N | None => 0%N end) u64_max.
Proof.
  intros Hc. destruct since as [s|]; cbn [stop_timer].
  - change (elapsed_ms (o <| elapsed_ms := _ |>)) with (add_elapsed (instant c) s (elapsed_ms o)).
    rewrite add_elapsed_spec by done. lia.
  - by rewrite N.add_0_r.
Qed.

(** Neither the timer nor the books change. *)
Definition same_clock (t t' : GoalTracker) : Prop :=
  active_since t' = active_since t ∧
  ∀ o, orchestration t = Some o → ∃ o', orchestration t' = Some o' ∧ elapsed_ms o' = elapsed_ms o.

Lemma same_clock_accounted t t' now :
  is_Some (orchestration t) → same_clock t t' → accounted t' now = accounted t now.
Proof.
  intros [o Ho] [Ha Hs]. destruct (Hs o Ho) as (o' & Ho' & He). unfold accounted. by rewrite Ho, Ho', Ha, He.
Qed.

Lemma update_goal_clock f t : (∀ o, elapsed_ms (f o) = elapsed_ms o) → same_clock t (update_goal f t).
Proof.
  intros Hf. split; [done|]. intros o Ho. unfold update_goal. rewrite Ho. exists (f o). by rewrite Hf.
Qed.

Lemma refresh_clock plan t : same_clock t (refresh_criteria_view plan t).
Proof.
  split; unfold refresh_criteria_view; destruct plan as [mt [b|]], (orchestration t) as [o|] eqn:E;
    try case_if; try done; intros ? [= <-]; first [by exists o | eexists; split; reflexivity].
Qed.

Lemma same_clock_trans t1 t2 t3 : same_clock t1 t2 → same_clock t2 t3 → same_clock t1 t3.
Proof.
  intros [Ha1 Hs1] [Ha2 Hs2]. split; [congruence|]. intros o Ho.
  destruct (Hs1 o Ho) as (o1 & Ho1 & He1). destruct (Hs2 o1 Ho1) as (o2 & Ho2 & He2).
  exists o2. split; [done|congruence].
Qed.

Lemma record_event_clock c e d t : same_clock t (record_event c e d t).
Proof. by apply update_goal_clock. Qed.

Lemma rescue_clock {Fs} (ops : FileSystem Fs) fs t : same_clock t (rescue_classifier_details ops fs t).2.
Proof.
  unfold rescue_classifier_details. destruct (deferred_fs_cleanup_job ops t) as [job|]; [|by split; eauto].
  destruct (rescue_details_only ops fs job) as [fs' [d|]]; [by apply update_goal_clock|by split; eauto].
Qed.

Lemma plain_clock {Fs} (ops : FileSystem Fs) c op fs t :
  match op with
  | OpCreate _ _ _ _ _ _ _ | OpClear | OpPause _ _ | OpResume | OpComplete _ | OpBudgetLimit _ | OpAccount => True
  | _ => same_clock t (run_op ops c op (fs, t)).2
  end.
Proof.
  destruct op; try done; cbn [run_op snd]; try (apply update_goal_clock; reflexivity).
  - split; unfold record_classifier_stall; destruct (orchestration t) as [o|]; try done.
    intros ? [= <-]. eexists. split; [reflexivity|]. unfold record_stall. by case_if.
  - split; unfold record_not_achieved_streak; destruct (orchestration t) as [o|]; try done.
    intros ? [= <-]. eexists. split; reflexivity.
  - split; unfold defer_criterion; destruct (orchestration t) as [o|] eqn:E; try case_if; try done;
      intros ? [= <-]; [exists o|eexists]; split; try reflexivity. exact E.
  - destruct force; [|apply refresh_clock]. eapply same_clock_trans; [|apply refresh_clock].
    by apply update_goal_clock.
  - split; unfold record_infra_failure; destruct (orchestration t) as [o|]; try done.
    intros ? [= <-]. eexists. split; reflexivity.
  - split; unfold claim_strategist_fire; destruct (orchestration t) as [o|] eqn:E; try case_if; try done;
      intros ? [= <-]; [eexists|exists o]; split; try reflexivity. exact E.
  - split; unfold claim_amender_run; destruct (orchestration t) as [o|] eqn:E; try case_if; try done;
      intros ? [= <-]; [exists o|eexists]; split; try reflexivity. exact E.
Qed.

(** One call at [instant c]: the goal stays, the timer is not in the future, and
    the books read the same. *)
Definition clock_step (c : Clock) (t t' : GoalTracker) : Prop :=
  is_Some (orchestration t') ∧ timer_before t' (instant c)
  ∧ accounted t' (instant c) = accounted t (instant c).

Lemma same_clock_step c t t' :
  is_Some (orchestration t) → timer_before t (instant c) → same_clock t t' → clock_step c t t'.
Proof.
  intros Ho Hb Hsame. split_and!.
  - destruct Ho as [o Ho], Hsame as [_ Hs]. destruct (Hs o Ho) as (o' & ? & _). by exists o'.
  - unfold timer_before. by rewrite (proj1 Hsame).
  - by apply same_clock_accounted.
Qed.

Lemma clock_step_then c t t1 t2 :
  clock_step c t t1 → same_clock t1 t2 → clock_step c t t2.
Proof.
  intros (Ho & Hb & Ha) Hs. destruct (same_clock_step c t1 t2 Ho Hb Hs) as (? & ? & Ha').
  split_and!; [done..|congruence].
Qed.

Lemma clock_step_intro c t o o' a :
  orchestration t = Some o → timer_before (mkTracker None "" a) (instant c) →
  N.min (elapsed_ms o' + match a with Some s => (instant c - s)%N | None => 0%N end) u64_max
    = accounted t (instant c) →
  clock_step c t (mkTracker (Some o') (session_dir t) a).
Proof. intros Ho Hb Ha. split_and!; [by eexists|done|]. by rewrite <- Ha. Qed.

Lemma accounted_eq t o now :
  orchestration t = Some o →
  accounted t now = N.min (elapsed_ms o + match active_since t with Some s => (now - s)%N | None => 0%N end) u64_max.
Proof. unfold accounted. by intros ->. Qed.

Lemma pause_clock c r msg t :
  (instant c ≤ u64_max)%N → is_Some (orchestration t) → timer_before t (instant c) →
  clock_step c t (pause_inner c r msg t).2.
Proof.
  intros Hc [o Ho] Hb. unfold pause_inner. rewrite Ho. case_bool_decide; cbn [snd];
    [|apply same_clock_step; [by eexists|done|by split; eauto]].
  eapply clock_step_then; [|apply record_event_clock].
  apply (clock_step_intro c t o); [done|by intros ?|].
  rewrite (accounted_eq t o), <- stop_timer_elapsed, N.add_0_r by done. by destruct msg.
Qed.

Lemma resume_clock c t :
  tracker_wf t → is_Some (orchestration t) → timer_before t (instant c) →
  clock_step c t (resume c t).2.
Proof.
  intros [Hw _] [o Ho] Hb. unfold resume. rewrite Ho. destruct (is_paused (status o)) eqn:Hp; cbn [snd];
    [|apply same_clock_step; [by eexists|done|by split; eauto]].
  eapply clock_step_then; [|apply record_event_clock].
  apply (clock_step_intro c t o); [done|by intros s [= <-]|].
  rewrite (accounted_eq t o) by done.
  assert (active_since t = None) as ->.
  { destruct (active_since t); [|done]. unfold tracker_status in Hw. rewrite Ho in Hw. cbn in Hw.
    assert (Some (status o) = Some Active) as [= E] by by apply Hw. by rewrite E in Hp. }
  rewrite N.sub_diag. by destruct o.
Qed.

Lemma end_goal_elapsed c s since o : elapsed_ms (end_goal c s since o) = elapsed_ms (stop_timer c since o).
Proof. unfold end_goal. by destruct (stop_timer c since o). Qed.

Lemma end_clock {Fs} (ops : FileSystem Fs) s e d c fs t :
  (instant c ≤ u64_max)%N → is_Some (orchestration t) → timer_before t (instant c) →
  clock_step c t (end_inner ops s e d c fs t).2.2.
Proof.
  intros Hc [o Ho] Hb. unfold end_inner. rewrite Ho. case_if; cbn [snd];
    [|apply same_clock_step; [by eexists|done|by split; eauto]].
  set (t1 := mkTracker (Some (end_goal c s (active_since t) o)) (session_dir t) None).
  change (t <| orchestration := Some (end_goal c s (active_since t) o) |> <| active_since := None |>) with t1.
  assert (clock_step c t t1) as H1'.
  { apply (clock_step_intro c t o); [done|by intros ?|].
    rewrite (accounted_eq t o), N.add_0_r, end_goal_elapsed by done. by apply stop_timer_elapsed. }
  clearbody t1. destruct (negb d).
  - pose proof (rescue_clock ops fs t1) as Hr. destruct (rescue_classifier_details ops fs t1) as [fs' t2].
    cbn [snd] in *. eapply clock_step_then; [exact H1'|].
    eapply same_clock_trans; [exact Hr|apply record_event_clock].
  - cbn [snd]. eapply clock_step_then; [exact H1'|apply record_event_clock].
Qed.

Lemma account_clock c t :
  (instant c ≤ u64_max)%N → is_Some (orchestration t) → timer_before t (instant c) →
  clock_step c t (account_elapsed c t).
Proof.
  intros Hc [o Ho] Hb. unfold account_elapsed. rewrite Ho. destruct (active_since t) as [s|] eqn:Ha.
  - apply (clock_step_intro c t o); [done|by intros ? [= <-]|].
    rewrite (accounted_eq t o), Ha, N.sub_diag, N.add_0_r by done.
    exact (stop_timer_elapsed c (Some s) o Hc).
  - apply same_clock_step; [by eexists|done|by split; eauto].
Qed.

Lemma run_op_clock {Fs} (ops : FileSystem Fs) c op fs t :
  replaces_goal op = false → (instant c ≤ u64_max)%N → tracker_wf t →
  is_Some (orchestration t) → timer_before t (instant c) → clock_step c t (run_op ops c op (fs, t)).2.
Proof.
  intros Hr Hc Hw Ho Hb. pose proof (plain_clock ops c op fs t) as Hp.
  destruct op; try done; try (by apply same_clock_step); clear Hp; cbn [run_op snd].
  - by apply pause_clock.
  - by apply resume_clock.
  - pose proof (end_clock ops Complete GoalCompleted defer_fs c fs t Hc Ho Hb) as He.
    unfold complete_inner. by destruct (end_inner _ _ _ _ _ _ _) as [? [? ?]].
  - pose proof (end_clock ops BudgetLimited BudgetExceeded defer_fs c fs t Hc Ho Hb) as He.
    unfold budget_limit_inner. by destruct (end_inner _ _ _ _ _ _ _) as [? [? ?]].
  - by apply account_clock.
Qed.

Lemma active_timer t : tracker_wf t → tracker_is_active t = bool_decide (is_Some (active_since t)).
Proof.
  intros [Hw _]. apply eq_true_iff_eq. rewrite bool_decide_eq_true, Hw.
  unfold tracker_is_active, tracker_status. destruct (orchestration t) as [o|]; cbn; [|done].
  rewrite bool_decide_eq_true. split; congruence.
Qed.

(** Waiting adds to the books exactly while the timer runs. *)
Lemma accounted_wait t prev now :
  tracker_wf t → is_Some (orchestration t) → timer_before t prev → (prev ≤ now)%N →
  accounted t now = N.min (accounted t prev + if tracker_is_active t then now - prev else 0) u64_max.
Proof.
  intros Hw [o Ho] Hb Hle. rewrite (active_timer t Hw), !(accounted_eq t o) by done.
  unfold timer_before in Hb. destruct (active_since t) as [s|] eqn:E; cbn.
  - specialize (Hb s eq_refl). lia.
  - lia.
Qed.

Lemma clock_run {Fs} (ops : FileSystem Fs) l prev s :
  (∀ co, co ∈ l → replaces_goal co.2 = false) → ordered_from prev l → tracker_wf s.2 →
  is_Some (orchestration s.2) → timer_before s.2 prev →
  accounted (run_ops ops l s).2 (last_instant prev l)
    = N.min (accounted s.2 prev + active_time ops prev l s) u64_max.
Proof.
  revert prev s. induction l as [|[c op] l IH]; intros prev [fs t] Hl Hord Hw Ho Hb.
  { cbn. unfold accounted. destruct (orchestration t); lia. }
  cbn [ordered_from] in Hord. destruct Hord as [[Hpc Hcm] Hord].
  assert (timer_before t (instant c)) as Hb' by (intros u Hu; specialize (Hb u Hu); cbn in *; lia).
  assert (replaces_goal op = false) as Hr by (apply (Hl (c, op)); left).
  destruct (run_op_clock ops c op fs t Hr Hcm Hw Ho Hb') as (Ho1 & Hb1 & Ha1).
  change (run_ops ops ((c, op) :: l) (fs, t)) with (run_ops ops l (run_op ops c op (fs, t))).
  change (last_instant prev ((c, op) :: l)) with (last_instant (instant c) l).
  cbn [active_time snd].
  rewrite (IH (instant c)); [|intros co Hco; apply Hl; by right|done|by apply run_op_wf|done|done].
  rewrite Ha1. rewrite (accounted_wait t prev) by done. cbn [snd]. destruct (tracker_is_active t); lia.
Qed.

(** The goal's clock counts active time and nothing else. From any state of the
    tracker, over any calls in order of time that keep the goal, the elapsed time
    on the books (flushed plus running, capped at the [u64] range) grows by exactly
    the sum of the periods during which the goal was Active: pausing stops it,
    resuming starts it, and flushing it neither loses nor counts time twice. *)
Lemma clock_counts_active_time {Fs} (ops : FileSystem Fs) (l : list (Clock * GoalOp))
    (prev : N) (fs : Fs) (t : GoalTracker) :
  (∀ co, co ∈ l → replaces_goal co.2 = false) → ordered_from prev l → tracker_wf t →
  is_Some (orchestration t) → timer_before t prev →
  accounted (run_ops ops l (fs, t)).2 (last_instant prev l)
    = N.min (accounted t prev + active_time ops prev l (fs, t)) u64_max.
Proof. intros. by apply clock_run. Qed.

(** ** A concrete session

    A file system on which every call succeeds and nothing can be read. *)
Definition null_fs : FileSystem unit :=
  mkFs unit "/tmp" 0 (λ _ _, None) (λ fs _, (fs, MkdirOk)) (λ fs _, (fs, true)) (λ fs _, (fs, true))
    (λ fs _, fs) (λ fs _ _, (fs, true)) (λ fs _ _, (fs, true)) (λ _ _, None) (λ _ _, None)
    (λ _ _, None) (λ _ _, false) (λ fs _ _, (fs, true)).

Definition at_ms (n : N) : Clock := mkClock n ("t" +:+ pretty n).
Definition create_op : GoalOp := OpCreate "0123456789abcdef" "g" "ship it" None 0 "t0" None.

(** Created at 10, paused from 25 to 40, completed at 60. *)
Definition session_ops : list (Clock * GoalOp) :=
  [(at_ms 25, OpPause PauseUser None); (at_ms 40, OpResume); (at_ms 50, OpAccount);
   (at_ms 60, OpComplete true)].
Definition started : unit * GoalTracker := run_op null_fs (at_ms 10) create_op (tt, tracker_new "/s").

Lemma started_wf : tracker_wf started.2.
Proof. apply (run_ops_wf null_fs [(at_ms 10, create_op)] (tt, tracker_new "/s")). apply tracker_new_wf. Qed.

Lemma session_ops_keep co : co ∈ session_ops → replaces_goal co.2 = false.
Proof. intros Hco. repeat (apply elem_of_cons in Hco as [->|Hco]; [done|]). by apply elem_of_nil in Hco. Qed.

(** A session is saved and restored, and the goal resumed. *)
Definition restored_session : unit * GoalTracker :=
  match orchestration (run_ops null_fs ((at_ms 10, create_op) :: session_ops) (tt, tracker_new "/s")).2 with
  | Some snap => run_ops null_fs [(at_ms 90, OpResume)] (from_snapshot null_fs (at_ms 80) "id" tt "/s" snap)
  | None => (tt, tracker_new "/s")
  end.
Lemma tracker_invariant_witness : tracker_wf restored_session.2 ∧ is_Some (orchestration restored_session.2).
Proof.
  unfold restored_session.
  destruct (orchestration (run_ops null_fs ((at_ms 10, create_op) :: session_ops) (tt, tracker_new "/s")).2) as [snap|] eqn:E;
    [|vm_compute in E; discriminate E].
  split; [|vm_compute in E; injection E as <-; vm_compute; eexists; reflexivity].
  apply (tracker_invariant null_fs), tracked_calls.
  eapply (tracked_restored null_fs (run_ops null_fs ((at_ms 10, create_op) :: session_ops) (tt, tracker_new "/s")));
    [apply tracked_calls, tracked_new|exact E].
Defined.

Lemma status_changes_are_recorded_witness :
  ∃ o o', orchestration started.2 = Some o
    ∧ orchestration (run_op null_fs (at_ms 25) (OpPause PauseUser None) started).2 = Some o'
    ∧ status o = Active ∧ status o' = UserPaused
    ∧ ∃ d, last (history o') = Some (entry_now (at_ms 25) (change_event UserPaused) d).
Proof.
  destruct (orchestration started.2) as [o|] eqn:Ho; [|by vm_compute in Ho].
  destruct (status_changes_are_recorded null_fs (at_ms 25) (OpPause PauseUser None) tt started.2 o Ho eq_refl)
    as (o' & Ho' & Hs).
  replace (tt, started.2) with started in Ho' by by vm_compute.
  assert (status o = Active) as Ha by (vm_compute in Ho; by injection Ho as <-).
  assert (status o' = UserPaused) as Hu by (vm_compute in Ho'; by injection Ho' as <-).
  exists o, o'. split_and!; [done..|]. rewrite Ha, Hu in Hs. destruct Hs as [|[_ Hd]]; [done|exact Hd].
Defined.

Lemma clock_counts_active_time_witness :
  accounted (run_ops null_fs session_ops (tt, started.2)).2 (last_instant 10 session_ops) = 35%N.
Proof.
  rewrite (clock_counts_active_time null_fs session_ops 10 tt started.2);
    [by vm_compute|apply session_ops_keep| |apply started_wf| |].
  - by vm_compute.
  - eexists. by vm_compute.
  - intros s Hs. vm_compute in Hs. injection Hs as <-. done.
Defined.

(** ** Hostile snapshots

    A restored snapshot is data from disk: its verifier id and its details path
    could name anything. *)

Lemma hex_char_free c id :
  is_ascii_hexdigit c = false → all_chars is_ascii_hexdigit id = true → char_free c id = true.
Proof.
  intros Hc. unfold char_free. induction id as [|d id IH]; cbn; [done|]. intros [Hd Hid]%andb_true_iff.
  rewrite IH by done. destruct (Ascii.eqb_spec c d) as [->|]; [congruence|done].
Qed.

Lemma restored_verifier_id {Fs} (ops : FileSystem Fs) c uuid fs dir snap :
  canonical_verifier_id (generate_verifier_id uuid) = true →
  ∃ o, orchestration (from_snapshot ops c uuid fs dir snap).2 = Some o
    ∧ canonical_verifier_id (verifier_id o) = true.
Proof.
  intros Hu. unfold from_snapshot.
  set (o0 := restore_phase snap <| planning_in_flight := false |> <| verifying_in_flight := false |>
               <| skeptic0_session_id := None |>). clearbody o0.
  set (o1 := if canonical_verifier_id (verifier_id o0) then o0 else _).
  assert (canonical_verifier_id (verifier_id o1) = true) as H1'.
  { unfold o1. destruct (canonical_verifier_id (verifier_id o0)) eqn:E; [exact E|exact Hu]. }
  clearbody o1. destruct (contains (status o1) _).
  - eexists. split; [reflexivity|exact H1'].
  - destruct (prepare_scratch ops fs (verifier_id o1)) as [fs' ready].
    eexists. split; [reflexivity|exact H1'].
Qed.

(** What a rescue needs before it moves anything. *)
Definition rescuable {Fs} (ops : FileSystem Fs) (fs : Fs) (src root : string) : Prop :=
  (".." ∉ path_components src)
  ∧ list_prefix (path_components root) (path_components src) = true
  ∧ verify_owned_real_dir ops fs root = true.

Lemma rescue_acts {Fs} (ops : FileSystem Fs) fs job :
  rescue_details_only ops fs job ≠ (fs, None) →
  ∃ src, details_src job = Some src ∧ rescuable ops fs src (scratch_root job).
Proof.
  unfold rescue_details_only. destruct (details_src job) as [src|]; [|done].
  unfold rescue_classifier_details_paths, has_parent_dir, path_starts_with, rescuable.
  destruct (contains _ _) eqn:Ep; [done|]. destruct (list_prefix _ _) eqn:Es; [|done].
  destruct (verify_owned_real_dir _ _ _) eqn:Eo; [|done]. intros _. exists src.
  by rewrite contains_false in Ep.
Qed.

Lemma file_name_free p name : file_name p = Some name → char_free "/" name = true.
Proof.
  unfold file_name. destruct (last (path_components p)) as [s|] eqn:El; [|done].
  destruct (contains s _) eqn:Ec; [done|]. intros [= <-].
  apply last_Some_elem_of in El. apply contains_false in Ec.
  assert (∀ x, x ∈ bfilter (λ s, negb (is_empty s) && negb (String.eqb s ".")) (split_char "/" p) → char_free "/" x = true) as Hf.
  { intros x [Hx _]%elem_of_bfilter. pose proof (split_char_pieces "/" p) as Hp. rewrite Forall_forall in Hp. by apply Hp. }
  assert (s ≠ "/" ∧ s ≠ ".") as [Hs Hd] by (rewrite !elem_of_cons in Ec; naive_solver).
  unfold path_components in El. destruct (starts_with "/" p).
  - apply elem_of_cons in El as [->|El]; [done|by apply Hf].
  - destruct (split_char "/" p) as [|s0 segs] eqn:E; [by apply Hf|].
    destruct (String.eqb s0 "."); [|by apply Hf].
    apply elem_of_cons in El as [->|El]; [done|by apply Hf].
Qed.

Lemma rescue_destination {Fs} (ops : FileSystem Fs) fs job fs' dest :
  rescue_details_only ops fs job = (fs', Some dest) →
  ∃ name, dest = path_join (cleanup_goal_dir job) name ∧ char_free "/" name = true.
Proof.
  unfold rescue_details_only, rescue_classifier_details_paths.
  destruct (details_src job) as [src|]; [|done].
  destruct (has_parent_dir src); [done|]. destruct (negb _); [done|]. destruct (negb _); [done|].
  destruct (file_name src) as [name|] eqn:En; [|done].
  destruct (create_dir_all ops fs _) as [fs1 ok]. destruct (fs_rename ops fs1 _ _) as [fs2 moved].
  destruct (if moved then _ else _) as [fs3 []]; [|done]. intros [= <- <-].
  exists name. split; [done|]. by eapply file_name_free.
Qed.

(** Where the clean-up of tracker [t] may act, if its goal's verifier id is [id]. *)
Definition contained_cleanup {Fs} (ops : FileSystem Fs) (t : GoalTracker) (id : string) : Prop :=
  ∃ src,
    let root := path_join (temp_dir ops) ("grok-goal-" +:+ id) in
    let job := mkCleanup root src (goal_dir t) in
    deferred_fs_cleanup_job ops t = Some job
    ∧ (∀ fs1, rescue_details_only ops fs1 job ≠ (fs1, None) →
        ∃ p, src = Some p ∧ rescuable ops fs1 p root)
    ∧ (∀ fs1 fs2 dest, rescue_details_only ops fs1 job = (fs2, Some dest) →
        ∃ name, dest = path_join (goal_dir t) name ∧ char_free "/" name = true).

Lemma cleanup_contained {Fs} (ops : FileSystem Fs) t o :
  orchestration t = Some o → contained_cleanup ops t (verifier_id o).
Proof.
  intros Ho. exists (last_classifier_details_path o). split; [|split].
  - unfold deferred_fs_cleanup_job. by rewrite Ho.
  - intros fs1 H. exact (rescue_acts ops fs1 _ H).
  - intros fs1 fs2 dest H. exact (rescue_destination ops fs1 _ fs2 dest H).
Qed.

(** A snapshot from disk cannot aim the clean-up elsewhere. Whatever verifier
    id and details path it carries, the restored goal's scratch directory is
    [grok-goal-] followed by twelve hexadecimal digits directly under the
    temporary directory; a details file is moved only out of that directory, only
    when its path has no parent step and the directory is a real one the process
    owns; and it lands directly in the goal's own directory. *)
Lemma hostile_snapshot_is_contained {Fs} (ops : FileSystem Fs) (c : Clock) (uuid : string)
    (fs : Fs) (dir : string) (snap : GoalOrchestration) :
  canonical_verifier_id (generate_verifier_id uuid) = true →
  ∃ id, String.length id = 12 ∧ all_chars is_ascii_hexdigit id = true ∧ char_free "/" id = true
    ∧ contained_cleanup ops (from_snapshot ops c uuid fs dir snap).2 id.
Proof.
  intros Hu. destruct (restored_verifier_id ops c uuid fs dir snap Hu) as (o & Ho & Hid).
  exists (verifier_id o). unfold canonical_verifier_id in Hid. apply andb_true_iff in Hid as [Hl%Nat.eqb_eq Hx].
  split; [exact Hl|]. split; [exact Hx|]. split; [by apply hex_char_free|]. by apply cleanup_contained.
Qed.

(** A goal directory that points outside, restored under a tampered id. *)
Definition hostile_goal : GoalOrchestration :=
  new_goal "g" "o" None 0 "t0" None "../../etc" true <| last_classifier_details_path := Some "/etc/passwd" |>.

(** ** The cached criteria view *)

(** A deferral is not a plan edit: while the plan's mtime stays, a refresh keeps
    rows that still show the deferred criterion as live. *)
Lemma refresh_keeps_stale_deferral :
  let plan := (Some 7%N, Some (join nl ["## Acceptance checklist"; "| Exec | Audit | Criterion |"; "| [ ] | [ ] | a |"])) in
  let t := refresh_criteria_view plan started.2 in
  let t' := refresh_criteria_view plan (defer_criterion (Some 1%N) "stuck" t).2 in
  (map CriteriaView.deferred ∘ criteria_view) <$> orchestration t' = Some [false]
  ∧ (map CriteriaView.deferred ∘ criteria_view) <$> orchestration (force_refresh_criteria_view plan t') = Some [true].
Proof. by vm_compute. Qed.
