(* ===== verification/DetGate.v ===== *)
(** * The deterministic gate ([goal_deterministic_gate.rs])

    Commands a plan declares under [## Deterministic checks] run before the
    skeptic panel; the first that fails rejects the claim, one that cannot be run
    decides nothing. The shell is an argument: what the [i]-th command run gives. *)

From Stdlib Require Import Ascii String ZArith.
From S2P Require Import Prelude RustStr PlanMd.
From stdpp Require Import options.

Definition CHECKS_SECTION : string := "Deterministic checks".
Definition MAX_CHECKS : nat := 6.
Definition OUTPUT_TAIL_LINES : nat := 25.

Record DeterministicCheck : Type := mkCheck {
  ck_criterion : option N;
  ck_command : string;
}.

Record CheckFailure : Type := mkFailure {
  fl_criterion : option N;
  fl_command : string;
  fl_detail : string;
}.

(** [finding_message] *)
Definition finding_message (f : CheckFailure) : string :=
  let head := match fl_criterion f with
              | Some c => "criterion " +:+ pretty c +:+ " · check · `" +:+ fl_command f +:+ "`"
              | None => "check · `" +:+ fl_command f +:+ "`"
              end in
  head +:+ " — " +:+ fl_detail f.

(** ** Parsing the table *)

(** What the loop body of [parse_checks] makes of one line of the section. *)
Definition check_row (line : string) : option DeterministicCheck :=
  match table_cells line with
  | c0 :: c1 :: c2 :: rest as cells =>
      if is_separator_row cells then None
      else match parse_u32 (trim c0) with
           | None => None
           | Some _ =>
               let command := trim (join " | " (c2 :: rest)) in
               if is_empty command then None else Some (mkCheck (parse_u32 (trim c1)) command)
           end
  | _ => None
  end.

(** [left] counts the rows still accepted. *)
Fixpoint parse_checks_go (level : option nat) (left : nat) (ls : list string) : list DeterministicCheck :=
  match ls with
  | [] => []
  | line :: ls =>
      if is_section_header line CHECKS_SECTION then parse_checks_go (Some (header_level line)) left ls
      else match level with
           | None => parse_checks_go None left ls
           | Some open =>
               if is_any_header line && (header_level line <=? open) then []
               else match check_row line with
                    | None => parse_checks_go level left ls
                    | Some c =>
                        match left with
                        | S (S _ as left) => c :: parse_checks_go level left ls
                        | _ => [c]
                        end
                    end
           end
  end.

Definition parse_checks (body : string) : list DeterministicCheck :=
  parse_checks_go None MAX_CHECKS (lines body).

(** ** Running *)

(** What [tokio::time::timeout(CHECK_TIMEOUT, cmd.output())] gave. *)
Inductive CommandResult : Type :=
| TimedOut
| SpawnFailed (e : string)
| Exited (code : option Z) (stdout stderr : string).   (* no code: a signal *)

Definition succeeded (code : option Z) : bool := bool_decide (code = Some 0%Z).

Inductive CheckOutcome : Type :=
| Passed
| Failed (f : CheckFailure)
| Unusable (why : string).

(** [tail] *)
Definition output_tail (output : string) : string :=
  let ls := bfilter (λ l, negb (is_empty (trim l))) (map trim_end (lines output)) in
  if is_nil ls then "(no output)"
  else join " / " (drop (length ls - OUTPUT_TAIL_LINES) ls).

(** [run_one] on the result of its command. *)
Definition run_one (check : DeterministicCheck) (r : CommandResult) : CheckOutcome :=
  match r with
  | TimedOut => Unusable "no result within 600s"
  | SpawnFailed e => Unusable e
  | Exited code stdout stderr =>
      if succeeded code then Passed
      else Failed (mkFailure (ck_criterion check) (ck_command check)
             ("exited " +:+ match code with Some c => pretty c | None => "(signal)" end +:+ ": "
              +:+ output_tail (stdout +:+ stderr)))
  end.

Section shell.
Context (shell : nat → string → CommandResult).

(** [run_checks] from the [i]-th command on: the commands it ran, in order, and
    the failure it reports. *)
Fixpoint run_checks_go (i : nat) (checks : list DeterministicCheck) : list string * option CheckFailure :=
  match checks with
  | [] => ([], None)
  | check :: checks =>
      match run_one check (shell i (ck_command check)) with
      | Failed f => ([ck_command check], Some f)
      | Passed | Unusable _ =>
          let '(ran, r) := run_checks_go (S i) checks in (ck_command check :: ran, r)
      end
  end.

Definition run_checks (checks : list DeterministicCheck) : list string * option CheckFailure :=
  run_checks_go 0 checks.
End shell.

Definition demo_plan : string :=
  join nl ["# Goal"; ""; "## Deterministic checks"; "| # | Criterion | Command |"; "|---|---|---|";
           "| 1 | 2 | cargo check -p foo |"; "| 2 | - | cargo test 2>&1 | tail |"; "| 3 | 1 |  |";
           "## Risks"; "| 4 | 1 | rm -rf / |"].

Example parse_checks_demo :
  parse_checks demo_plan = [mkCheck (Some 2%N) "cargo check -p foo"; mkCheck None "cargo test 2>&1 | tail"].
Proof. by vm_compute. Qed.

(** ** The gate only answers what it can *)

Definition check_decides (shell : nat → string → CommandResult) (i : nat) (c : DeterministicCheck) : bool :=
  match shell i (ck_command c) with Exited code _ _ => negb (succeeded code) | _ => false end.

Lemma run_one_failed check r f :
  run_one check r = Failed f →
  fl_criterion f = ck_criterion check ∧ fl_command f = ck_command check
  ∧ ∃ code out err, r = Exited code out err ∧ code ≠ Some 0%Z.
Proof.
  destruct r as [| |code out err]; cbn; [done..|]. unfold succeeded.
  case_bool_decide as Hc; [done|]. intros [= <-]. eauto 10.
Qed.

Lemma check_decides_spec shell i c :
  check_decides shell i c = true ↔ ∃ f, run_one c (shell i (ck_command c)) = Failed f.
Proof.
  unfold check_decides. destruct (shell i (ck_command c)) as [| |code out err]; cbn; [by split; [|intros [? ?]]..|].
  destruct (succeeded code); cbn; [naive_solver|]. split; [by eauto|done].
Qed.

Lemma run_checks_go_spec shell i checks :
  let '(ran, r) := run_checks_go shell i checks in
  match r with
  | None => ran = map ck_command checks ∧ ∀ j c, checks !! j = Some c → check_decides shell (i + j) c = false
  | Some f => ∃ j c, checks !! j = Some c ∧ ran = map ck_command (take (S j) checks)
      ∧ run_one c (shell (i + j) (ck_command c)) = Failed f
      ∧ ∀ k d, k < j → checks !! k = Some d → check_decides shell (i + k) d = false
  end.
Proof.
  revert i. induction checks as [|c checks IH]; intros i; cbn [run_checks_go]; [done|].
  destruct (run_one c (shell i (ck_command c))) as [|f|why] eqn:E.
  2: { exists 0, c. rewrite Nat.add_0_r. split; [done|]. split; [done|]. split; [done|]. intros; lia. }
  all: assert (check_decides shell i c = false) as Hd
         by (apply not_true_iff_false; rewrite check_decides_spec; intros [f0 Hf0]; congruence).
  all: specialize (IH (S i)); destruct (run_checks_go shell (S i) checks) as [ran [f|]].
  1,3: destruct IH as (j & d & Hj & -> & Hf & Hlt); exists (S j), d; rewrite Nat.add_succ_r;
    split_and!; [done|done|exact Hf|]; intros [|k] e Hk He; [rewrite Nat.add_0_r; by simplify_eq/=|];
    rewrite Nat.add_succ_r; apply (Hlt k); [lia|exact He].
  all: destruct IH as [-> Hall]; split; [done|]; intros [|k] e He;
    [rewrite Nat.add_0_r; by simplify_eq/=|rewrite Nat.add_succ_r; by apply Hall].
Qed.

(** ** Only declared rows run *)

Lemma parse_checks_go_bound level left ls : length (parse_checks_go level left ls) ≤ Nat.max 1 left.
Proof.
  revert level left. induction ls as [|l ls IH]; intros level left; cbn [parse_checks_go]; [cbn; lia|].
  destruct (is_section_header l CHECKS_SECTION); [apply IH|]. destruct level as [open|]; [|apply IH].
  destruct (is_any_header l && (header_level l <=? open)); [cbn; lia|].
  destruct (check_row l); [|apply IH]. destruct left as [|[|left]]; cbn [length]; [lia..|].
  specialize (IH (Some open) (S left)). lia.
Qed.

Lemma parse_checks_go_declared level left ls c :
  c ∈ parse_checks_go level left ls → ∃ l, l ∈ ls ∧ check_row l = Some c.
Proof.
  revert level left. induction ls as [|l ls IH]; intros level left; cbn [parse_checks_go]; [by intros ?%elem_of_nil|].
  assert (∀ lv n, c ∈ parse_checks_go lv n ls → ∃ l0, l0 ∈ l :: ls ∧ check_row l0 = Some c) as Hrec.
  { intros lv n (l0 & ? & ?)%IH. exists l0. split; [by right|done]. }
  destruct (is_section_header l CHECKS_SECTION); [apply Hrec|]. destruct level as [open|]; [|apply Hrec].
  destruct (is_any_header l && (header_level l <=? open)); [by intros ?%elem_of_nil|].
  destruct (check_row l) as [d|] eqn:E; [|apply Hrec].
  assert (c = d → ∃ l0, l0 ∈ l :: ls ∧ check_row l0 = Some c) as Hhd.
  { intros ->. exists l. split; [left|done]. }
  destruct left as [|[|left]].
  - intros ->%list_elem_of_singleton. by apply Hhd.
  - intros ->%list_elem_of_singleton. by apply Hhd.
  - intros [->|Hc]%elem_of_cons; [by apply Hhd|by eapply Hrec].
Qed.

Lemma check_row_command l c : check_row l = Some c → ck_command c ≠ "".
Proof.
  unfold check_row. destruct (table_cells l) as [|c0 [|c1 [|c2 rest]]]; [done..|].
  destruct (is_separator_row _); [done|]. destruct (parse_u32 (trim c0)); [|done].
  generalize (trim (join " | " (c2 :: rest))). intros cmd. destruct cmd; [done|]. by intros [= <-].
Qed.

(** The deterministic gate invents no verdict. It runs at most six commands,
    each a non-empty command cell of the plan, in plan order; it rejects exactly
    when some command ran and exited with a status other than zero, it then
    reports the first such row (its criterion and command) and runs nothing after
    it; a command that timed out or could not be started never rejects. *)
Lemma det_gate_decides (shell : nat → string → CommandResult) (body : string) :
  let checks := parse_checks body in
  let '(ran, r) := run_checks shell checks in
  (length checks ≤ MAX_CHECKS)
  ∧ (∀ cmd, cmd ∈ ran → cmd ≠ "" ∧ ∃ l c, l ∈ lines body ∧ check_row l = Some c ∧ ck_command c = cmd)
  ∧ match r with
    | None => ran = map ck_command checks ∧ ∀ j c, checks !! j = Some c → check_decides shell j c = false
    | Some f => ∃ j c, checks !! j = Some c ∧ check_decides shell j c = true
        ∧ fl_criterion f = ck_criterion c ∧ fl_command f = ck_command c
        ∧ ran = map ck_command (take (S j) checks)
        ∧ ∀ k d, k < j → checks !! k = Some d → check_decides shell k d = false
    end.
Proof.
  cbv zeta. unfold run_checks. pose proof (run_checks_go_spec shell 0 (parse_checks body)) as H.
  destruct (run_checks_go shell 0 (parse_checks body)) as [ran r].
  assert (∀ cmd cs, (∀ c, c ∈ cs → c ∈ parse_checks body) → cmd ∈ map ck_command cs →
    cmd ≠ "" ∧ ∃ l c, l ∈ lines body ∧ check_row l = Some c ∧ ck_command c = cmd) as Hdecl.
  { intros cmd cs Hcs (c & -> & Hc)%list_elem_of_fmap. apply Hcs in Hc.
    apply parse_checks_go_declared in Hc as (l & Hl & Hr). split; [by eapply check_row_command|eauto]. }
  split; [apply (parse_checks_go_bound None MAX_CHECKS)|]. destruct r as [f|].
  - destruct H as (j & c & Hj & -> & Hf & Hlt). split.
    + intros cmd. apply Hdecl. intros d (k & Hk & _)%elem_of_take. by eapply list_elem_of_lookup_2.
    + destruct (run_one_failed _ _ _ Hf) as (Hc1 & Hc2 & _). exists j, c. split_and!; try done.
      apply check_decides_spec. eauto.
  - destruct H as [-> Hall]. split; [|by split]. intros cmd. by apply Hdecl.
Qed.
