(* ===== verification/Replan.v ===== *)
(** * Amendments to the plan ([goal_replan.rs])

    The plan is frozen while a goal runs, except that it may grow: an amendment
    appends criteria, adds dependency edges and widens declared write scopes.
    This file models what the harness lets through ([apply_amendment] with its
    three planners), how it splices the survivors into the markdown, and how the
    amender's proposal is read. *)

From Stdlib Require Import Ascii String.
From S2P Require Import Prelude RustStr TrimLemmas PlanMd CriterionGraph Checklist AuditParse.
From stdpp Require Import options.

Definition CRITERIA_SECTION : string := "acceptance criteria".
Definition MAX_APPENDED_CRITERIA : nat := 3.
Definition GOAL_AMENDER_MAX_RUNS : N := 2.

Record NewCriterion : Type := mkNewCriterion {
  nc_text : string;
  nc_write_scope : list string;
  nc_depends_on : list N;
}.

Record PlanAmendment : Type := mkAmendment {
  am_appended : list NewCriterion;
  am_edges : list (N * N);                    (* dependent, dependency *)
  am_scopes : list (N * list string);
}.

(** [PlanAmendment::is_empty] *)
Definition amendment_is_empty (a : PlanAmendment) : bool :=
  is_nil (am_appended a) && is_nil (am_edges a) && is_nil (am_scopes a).

Inductive Rejection : Type :=
| UnknownCriterion (criterion : N)
| SelfEdge (criterion : N)
| EdgeAlreadyDeclared (criterion depends_on : N)
| EdgeWouldCycle (criterion depends_on : N)
| UndeclaredScope (criterion : N)
| ScopeAlreadyCovered (criterion : N)
| NoDependencyTable
| ChecklistMismatch (criteria rows : nat)
| DuplicateCriterion
| AppendCapReached.

Definition rejection_as_const_str (r : Rejection) : string :=
  match r with
  | UnknownCriterion _ => "unknown_criterion"
  | SelfEdge _ => "self_edge"
  | EdgeAlreadyDeclared _ _ => "edge_already_declared"
  | EdgeWouldCycle _ _ => "edge_would_cycle"
  | UndeclaredScope _ => "undeclared_scope"
  | ScopeAlreadyCovered _ => "scope_already_covered"
  | NoDependencyTable => "no_dependency_table"
  | ChecklistMismatch _ _ => "checklist_mismatch"
  | DuplicateCriterion => "duplicate_criterion"
  | AppendCapReached => "append_cap_reached"
  end.

Record AmendmentReport : Type := mkReport {
  rp_appended : list N;
  rp_edges : list (N * N);
  rp_scopes : list (N * list string);
  rp_rejected : list Rejection;
}.

(** [AmendmentReport::changed] *)
Definition report_changed (r : AmendmentReport) : bool :=
  negb (is_nil (rp_appended r)) || negb (is_nil (rp_edges r)) || negb (is_nil (rp_scopes r)).

(** [a + b] on [u32], as a release build computes it. *)
Definition u32_add (a b : N) : N := (a + b) `mod` (u32_max + 1).

(** ** Planning: what survives the checks, and what was refused *)

(** Normalised paths, the empty ones and repetitions left out. *)
Definition collect_scope (paths : list string) : list string :=
  foldl (λ acc p, let p := normalize_scope p in
           if negb (is_empty p) && negb (contains p acc) then acc ++ [p] else acc) [] paths.

(** The loop of [plan_appends]. *)
Fixpoint append_go (rows : list DualRow) (out : list NewCriterion) (wanted : list NewCriterion)
    : list NewCriterion * list Rejection :=
  match wanted with
  | [] => (out, [])
  | candidate :: wanted =>
      let text := trim (nc_text candidate) in
      if is_empty text then append_go rows out wanted
      else if MAX_APPENDED_CRITERIA <=? length out then (out, [AppendCapReached])
      else if any (λ r, eq_ignore_ascii_case (trim (criterion r)) text) rows
              || any (λ c, eq_ignore_ascii_case (nc_text c) text) out
      then let '(out, rej) := append_go rows out wanted in (out, DuplicateCriterion :: rej)
      else append_go rows
             (out ++ [mkNewCriterion text (collect_scope (nc_write_scope candidate)) (nc_depends_on candidate)])
             wanted
  end.

Definition plan_appends (body : string) (rows : list DualRow) (wanted : list NewCriterion)
    : list NewCriterion * list Rejection :=
  if is_nil wanted then ([], [])
  else
    let numbered := extract_numbered_acceptance_criteria body in
    if negb (length numbered =? length rows)
    then ([], [ChecklistMismatch (length numbered) (length rows)])
    else append_go rows [] wanted.

Definition by_number (a b : CriterionNode) : Prop := (number a ≤ number b)%N.
#[export] Instance by_number_dec : RelDecision by_number.
Proof. intros a b. unfold by_number. apply _. Defined.

(** The declared graph with a node for every number up to [total], in order. *)
Definition extended_graph (declared : CriterionGraph) (total : N) : CriterionGraph :=
  let missing := bfilter (λ n, negb (any (λ node, (number node =? n)%N) (nodes declared)))
                   (map N.of_nat (seq 1 (N.to_nat total))) in
  mkGraph (stable_sort by_number (nodes declared ++ map (λ n, mkNode n [] []) missing)).

(** Why an edge is refused on the graph so far, or the graph with it. *)
Definition try_edge (total : N) (g : CriterionGraph) (edge : N * N) : result CriterionGraph Rejection :=
  let '(criterion, dep) := edge in
  if (criterion =? dep)%N then Err (SelfEdge criterion)
  else match List.find (λ n, (n =? 0)%N || (total <? n)%N) [criterion; dep] with
       | Some unknown => Err (UnknownCriterion unknown)
       | None =>
           match find_node g criterion with
           | None => Err (UnknownCriterion criterion)
           | Some node =>
               if contains dep (depends_on node) then Err (EdgeAlreadyDeclared criterion dep)
               else
                 let g' := mkGraph (push_dependency criterion dep (nodes g)) in
                 match parallel_waves g' with
                 | None => Err (EdgeWouldCycle criterion dep)
                 | Some _ => Ok g'
                 end
           end
       end.

(** The loop of [plan_edges]. *)
Fixpoint edges_go (total : N) (g : CriterionGraph) (wanted : list (N * N))
    : CriterionGraph * list (N * N) * list Rejection :=
  match wanted with
  | [] => (g, [], [])
  | e :: wanted =>
      match try_edge total g e with
      | Ok g => let '(g, applied, rej) := edges_go total g wanted in (g, e :: applied, rej)
      | Err r => let '(g, applied, rej) := edges_go total g wanted in (g, applied, r :: rej)
      end
  end.

Definition plan_edges (declared : CriterionGraph) (total : N) (wanted : list (N * N))
    : list (N * N) * list Rejection :=
  let '(_, applied, rej) := edges_go total (extended_graph declared total) wanted in (applied, rej).

(** The paths of one entry that the scope so far does not cover. *)
Fixpoint widen_go (have : list string) (paths : list string) : list string :=
  match paths with
  | [] => []
  | p :: paths =>
      let p := normalize_scope p in
      if is_empty p || any (λ s, paths_overlap s p) have then widen_go have paths
      else p :: widen_go (have ++ [p]) paths
  end.

Definition widen (declared : CriterionGraph) (entry : N * list string)
    : result (N * list string) Rejection :=
  let '(criterion, paths) := entry in
  match find_node declared criterion with
  | None => Err (UnknownCriterion criterion)
  | Some node =>
      if is_nil (write_scope node) then Err (UndeclaredScope criterion)
      else
        let added := widen_go (write_scope node) paths in
        if is_nil added then Err (ScopeAlreadyCovered criterion) else Ok (criterion, added)
  end.

Definition plan_scopes (declared : CriterionGraph) (wanted : list (N * list string))
    : list (N * list string) * list Rejection :=
  let rs := map (widen declared) wanted in
  (omap (λ r, match r with Ok x => Some x | Err _ => None end) rs,
   omap (λ r, match r with Ok _ => None | Err e => Some e end) rs).

(** ** Markdown *)

(** [append_cell] *)
Definition append_cell (current : string) (add : list string) : string :=
  if is_nil add then trim current
  else
    let parts := foldl (λ parts a, if contains a parts then parts else parts ++ [a]) (parse_list current) add in
    if is_nil parts then "-" else join ", " parts.

Definition escape_cell (text : string) : string := replace_str "|" "\|" text.

(** The loop of [last_line_in_section]; [found] is the last hit so far. *)
Fixpoint last_line_go (name : string) (pred : string → bool) (level : option nat) (found : option nat)
    (idx : nat) (ls : list string) : option nat :=
  match ls with
  | [] => found
  | line :: ls =>
      match level with
      | None =>
          last_line_go name pred
            (if is_section_header line name then Some (header_level line) else None) found (S idx) ls
      | Some open =>
          if is_any_header line && (header_level line <=? open) then found
          else last_line_go name pred level (if pred line then Some idx else found) (S idx) ls
      end
  end.

Definition last_line_in_section (body name : string) (pred : string → bool) : option nat :=
  last_line_go name pred None None 0 (lines body).

(** This module's [numbered_item]. *)
Definition is_numbered_item (line : string) : bool :=
  let t := trim line in
  match find_char (λ c, Ascii.eqb dot c || Ascii.eqb rparen c) t with
  | None => false
  | Some i =>
      let num := take_bytes i t in
      negb (is_empty num) && all_chars is_ascii_digit num && negb (is_empty (trim (drop_bytes (i + 1) t)))
  end.

Definition is_mark (cell : string) : bool := contains (trim cell) ["[x]"; "[X]"; "[ ]"].

Definition is_checklist_row (line : string) : bool :=
  match table_cells line with
  | c0 :: c1 :: c2 :: rest => negb (is_separator_row (c0 :: c1 :: c2 :: rest)) && is_mark c0 && is_mark c1
  | _ => false
  end.

Definition is_dependency_row (line : string) : bool :=
  match table_cells line with
  | c0 :: c1 :: c2 :: rest =>
      negb (is_separator_row (c0 :: c1 :: c2 :: rest)) && bool_decide (is_Some (parse_number c0))
  | _ => false
  end.

(** [line.chars().take_while(|c| c.is_whitespace())]: what [trim_start] drops. *)
Definition indent (line : string) : string :=
  take_bytes (String.length line - String.length (trim_start line)) line.

Definition edges_of (number : N) (edges : list (N * N)) : list N :=
  map snd (bfilter (λ e, (fst e =? number)%N) edges).
Definition scope_of (number : N) (scopes : list (N * list string)) : list string :=
  mjoin (map snd (bfilter (λ e, (fst e =? number)%N) scopes)).

Definition dependency_row (indent : string) (number : N) (depends scope : string) : string :=
  indent +:+ "| " +:+ pretty number +:+ " | " +:+ depends +:+ " | " +:+ scope +:+ " |".

(** [rewrite_dependency_row] *)
Definition rewrite_dependency_row (line : string) (number : N) (edges : list (N * N))
    (scopes : list (N * list string)) : option string :=
  let new_edges := edges_of number edges in
  let new_scope := scope_of number scopes in
  if is_nil new_edges && is_nil new_scope then None
  else
    let cells := table_cells line in
    let depends := default "-" (cells !! 1) in
    let scope := default "-" (cells !! 2) in
    Some (dependency_row (indent line) number (append_cell depends (map pretty new_edges))
            (append_cell scope new_scope)).

(** One existing line of [rewrite]. *)
Definition rewrite_line (dependencies : bool) (edges : list (N * N)) (scopes : list (N * list string))
    (line : string) : string :=
  if dependencies && is_dependency_row line then
    match head (table_cells line) ≫= parse_number with
    | Some number => default line (rewrite_dependency_row line number edges scopes)
    | None => line
    end
  else line.

(** The number [rewrite] gives the [i]-th appended criterion. *)
Definition appended_number (existing : N) (i : nat) : N := u32_add existing (as_u32 i + 1).

Definition criterion_lines (existing : N) (appended : list NewCriterion) : list string :=
  imap (λ i c, pretty (N.to_nat existing + i + 1)%nat +:+ ". " +:+ nc_text c) appended.
Definition checklist_lines (appended : list NewCriterion) : list string :=
  map (λ c, "| [ ] | [ ] | " +:+ escape_cell (nc_text c) +:+ " |") appended.
Definition dependency_lines (existing : N) (edges : list (N * N)) (appended : list NewCriterion) : list string :=
  imap (λ i c, let number := appended_number existing i in
          dependency_row "" number (append_cell "-" (map pretty (edges_of number edges)))
            (append_cell "-" (nc_write_scope c))) appended.

Definition at_line (idx : nat) (o : option nat) (ls : list string) : list string :=
  if bool_decide (o = Some idx) then ls else [].

(** The lines [rewrite] prints. *)
Definition rewrite_lines_of (body : string) (existing : N) (appended : list NewCriterion)
    (edges : list (N * N)) (scopes : list (N * list string)) : list string :=
  let last_criterion := last_line_in_section body CRITERIA_SECTION is_numbered_item in
  let last_checklist := last_line_in_section body Checklist.CHECKLIST_SECTION is_checklist_row in
  let last_dependency := last_line_in_section body SECTION is_dependency_row in
  mjoin (imap (λ idx line,
    [rewrite_line (bool_decide (is_Some last_dependency)) edges scopes line]
    ++ at_line idx last_criterion (criterion_lines existing appended)
    ++ at_line idx last_checklist (checklist_lines appended)
    ++ at_line idx last_dependency (dependency_lines existing edges appended)) (lines body)).

Definition rewrite (body : string) (existing : N) (appended : list NewCriterion)
    (edges : list (N * N)) (scopes : list (N * list string)) : string :=
  let out := unlines (rewrite_lines_of body existing appended edges scopes) in
  if negb (ends_with nl body) && ends_with nl out
  then take_bytes (String.length out - 1) out else out.

(** ** The choke point *)

(** The edges the appended criteria ask for. *)
Definition appended_edges (existing : N) (appended : list NewCriterion) : list (N * N) :=
  mjoin (imap (λ i c, map (pair (appended_number existing i)) (nc_depends_on c)) appended).

(** [apply_amendment] *)
Definition apply_amendment (body : string) (a : PlanAmendment) : string * AmendmentReport :=
  let rows := parse_dual_rows body in
  let existing := as_u32 (length rows) in
  let declared := parse_criterion_graph body in
  let '(appended, rej1) := plan_appends body rows (am_appended a) in
  let total := u32_add existing (as_u32 (length appended)) in
  let wanted_edges := am_edges a ++ appended_edges existing appended in
  let '(edges, scopes, rej2) :=
    match declared with
    | Some graph =>
        let '(edges, rej_e) := plan_edges graph total wanted_edges in
        let '(scopes, rej_s) := plan_scopes graph (am_scopes a) in
        (edges, scopes, rej_e ++ rej_s)
    | None =>
        ([], [], if negb (is_nil wanted_edges) || negb (is_nil (am_scopes a)) then [NoDependencyTable] else [])
    end in
  let report := mkReport (map (λ i, appended_number existing i) (seq 0 (length appended)))
                  edges scopes (rej1 ++ rej2) in
  if negb (report_changed report) then (body, report)
  else (rewrite body existing appended edges scopes, report).

(** [amendment_from_observed_writes] *)
Definition amendment_from_observed_writes (observed : list (N * list string)) : PlanAmendment :=
  mkAmendment [] []
    (omap (λ '(criterion, paths),
       let wanted := collect_scope paths in
       if is_nil wanted then None else Some (criterion, wanted)) observed).

(** ** The amender's proposal *)

(** [lenient_number] *)
Definition lenient_number (v : Value) : option N :=
  match v with
  | Num n => n ← as_u64 n; if (n <=? u32_max)%N then Some n else None
  | Str s => parse_number s
  | _ => None
  end.

(** The derived readers of [ProposedCriterion] and [AmendmentProposal]. *)
Definition read_proposed (v : Value) : option NewCriterion :=
  match serde_fields ["text"; "write_scope"; "depends_on"] v with
  | Some [t; w; d] =>
      text ← string_field t; scope ← vec_field as_str w; deps ← vec_field Some d;
      Some (mkNewCriterion text scope (omap lenient_number deps))
  | _ => None
  end.

Definition read_proposal (v : Value) : option (list NewCriterion) :=
  match serde_fields ["criteria"] v with
  | Some [c] => vec_field read_proposed c
  | _ => None
  end.

Inductive GoalAmenderOutcome : Type :=
| Proposed (a : PlanAmendment)
| NothingProposed
| FailedOpen.

Section amender.
(** serde_json's reader, up to the tree of the document. *)
Context (read_document : string → option Value).

(** [parse_amendment_proposal] *)
Definition parse_amendment_proposal (raw : string) : option PlanAmendment :=
  let proposal :=
    match read_document raw ≫= read_proposal with
    | Some p => Some p
    | None =>
        start ← find_char (Ascii.eqb "{") raw;
        stop ← rfind_char "}" raw;
        if stop + 1 <? start then None
        else read_document (drop_bytes start (take_bytes (stop + 1) raw)) ≫= read_proposal
    end in
  criteria ← proposal;
  Some (mkAmendment
          (map (λ c, mkNewCriterion (trim (nc_text c)) (nc_write_scope c) (nc_depends_on c))
             (bfilter (λ c, negb (is_empty (trim (nc_text c)))) criteria)) [] []).

(** [run_goal_amender], on whether its spawn succeeded and on the proposal file
    it left. *)
Definition run_goal_amender (unattributed : list string) (spawned : bool) (amendment_file : option string)
    : GoalAmenderOutcome :=
  if is_nil unattributed then NothingProposed
  else if negb spawned then FailedOpen
  else match amendment_file with
       | None => FailedOpen
       | Some raw =>
           match parse_amendment_proposal raw with
           | Some a => if is_nil (am_appended a) then NothingProposed else Proposed a
           | None => FailedOpen
           end
       end.
End amender.

(** ** A run *)

Definition amended_plan : string := join nl
  ["# Plan"; "## Acceptance criteria"; "1. builds"; "2. tests pass"; "";
   "## Acceptance checklist"; "| Exec | Audit | Criterion |"; "|---|---|---|";
   "| [x] | [x] | builds |"; "| [x] | [ ] | tests pass |"; "";
   "## Criterion dependencies"; "| # | Depends on | Write scope |"; "|---|---|---|";
   "| 1 | - | src/a |"; "| 2 | 1 | src/b |"; "";
   "## Deterministic checks"; "| # | Criterion | Command |"; "|---|---|---|";
   "| 1 | 2 | cargo test 2>&1 | tee log |"].

Example amendment_demo :
  apply_amendment amended_plan (mkAmendment [mkNewCriterion "docs" ["doc/"] [2%N]] [(1%N, 2%N); (2%N, 9%N)] [])
  = (join nl
      ["# Plan"; "## Acceptance criteria"; "1. builds"; "2. tests pass"; "3. docs"; "";
       "## Acceptance checklist"; "| Exec | Audit | Criterion |"; "|---|---|---|";
       "| [x] | [x] | builds |"; "| [x] | [ ] | tests pass |"; "| [ ] | [ ] | docs |"; "";
       "## Criterion dependencies"; "| # | Depends on | Write scope |"; "|---|---|---|";
       "| 1 | - | src/a |"; "| 2 | 1 | src/b |"; "| 3 | 2 | doc |"; "";
       "## Deterministic checks"; "| # | Criterion | Command |"; "|---|---|---|";
       "| 1 | 2 | cargo test 2>&1 | tee log |"],
     mkReport [3%N] [(3%N, 2%N)] [] [EdgeWouldCycle 1 2; UnknownCriterion 9]).
Proof. by vm_compute. Qed.

(** Widening criterion 1's scope also rewrites the row numbered 1 of the table of
    deterministic checks: its cells are taken for a scope, and the command loses
    what follows its pipe. *)
Lemma amendment_rewrites_the_checks :
  let out := (apply_amendment amended_plan (mkAmendment [] [] [(1%N, ["src/c"])])).1 in
  "| 1 | 2 | cargo, test, 2>&1, src/c |" ∈ lines out ∧ "| 1 | - | src/a, src/c |" ∈ lines out.
Proof. split; apply contains_spec; vm_compute; done. Qed.

(** An appended text with line breaks in it reaches the list of criteria
    unescaped; it can open a checklist of its own there, which is then the one
    that is read. *)
Lemma multiline_text_forges_a_checklist :
  let text := join nl ["docs"; "## Acceptance checklist"; "| [x] | [x] | builds |"; "| [x] | [x] | tests pass |";
                       "## Notes"] in
  let out := (apply_amendment amended_plan (mkAmendment [mkNewCriterion text [] []] [] [])).1 in
  map (λ r, (exec r, audit r)) (parse_dual_rows amended_plan) = [(true, true); (true, false)]
  ∧ map (λ r, (exec r, audit r)) (parse_dual_rows out) = [(true, true); (true, true)].
Proof. vm_compute. done. Qed.

(** Without a list of criteria the report claims a number that reached no line. *)
Lemma append_without_section_reports_a_change :
  let '(out, r) := apply_amendment "# Plan" (mkAmendment [mkNewCriterion "docs" [] []] [] []) in
  out = "# Plan" ∧ report_changed r = true.
Proof. vm_compute. done. Qed.
