(* ===== verification/ReplanFacts.v ===== *)
(** * What an amendment may do to the contract

    Facts about [Replan]: the edges it accepts keep the graph schedulable, no
    pair of criteria it knew to conflict or to be ordered becomes concurrent,
    and the checklist keeps every row and mark that was earned. *)

From Stdlib Require Import Ascii String.
From S2P Require Import Prelude RustStr TrimLemmas PlanMd CriterionGraph GraphSchedule Checklist ChecklistFacts AuditParse Replan.
From stdpp Require Import options.

(** ** Edges *)

Lemma push_old_edges later earlier n ns :
  n ∈ ns → ∃ m, m ∈ push_dependency later earlier ns ∧ number m = number n
    ∧ write_scope m = write_scope n ∧ ∀ d, d ∈ depends_on n → d ∈ depends_on m.
Proof.
  induction ns as [|x ns IH]; [by intros ?%elem_of_nil|]. cbn [push_dependency].
  intros [->|Hn]%elem_of_cons; destruct (_ =? _)%N.
  - eexists. split; [left|]. cbn. set_solver.
  - exists x. split; [left|done].
  - exists n. split; [by right|done].
  - destruct (IH Hn) as (m & Hm & H). exists m. split; [by right|exact H].
Qed.

Lemma push_acyclic_inv g later earlier :
  is_Some (find_node g later) → acyclic (mkGraph (push_dependency later earlier (nodes g))) →
  acyclic g ∧ reaches g earlier later = false.
Proof.
  intros Hl [r Hr]. split.
  - exists r. intros n d Hn Hd. destruct (push_old_edges later earlier n _ Hn) as (n' & Hn' & Hnum & _ & Hdeps).
    destruct (Hr n' d Hn' (Hdeps d Hd)) as [|(m & Hm & Hmd & Hlt)]; [by left|]. right.
    assert (number m ∈ map number (nodes g)) as (m' & Hm' & Hin)%list_elem_of_fmap.
    { rewrite <- (push_numbers later earlier (nodes g)). apply list_elem_of_fmap. by exists m. }
    exists m'. rewrite <- Hm', <- Hnum. done.
  - apply not_true_iff_false. intros Ht%reaches_spec.
    set (g' := mkGraph (push_dependency later earlier (nodes g))) in *.
    assert (∀ x y, tc (dep_edge g) x y → tc (dep_edge g') x y) as Hmono.
    { intros x y. induction 1 as [u v Huv|u v w Huv _ IH]; [apply tc_once|eapply tc_l; [|exact IH]];
        apply push_edge; eauto. }
    assert (tc (dep_edge g') later later) as Hc.
    { eapply tc_l; [|apply Hmono, Ht]. apply push_edge; eauto. }
    apply (tc_rank r) in Hc; [lia|exact Hr].
Qed.

(** The graph that one more dependency leaves, when numbers are unique. *)
Definition with_edge (g : CriterionGraph) (e : N * N) : CriterionGraph :=
  mkGraph (push_dependency e.1 e.2 (nodes g)).

Lemma with_edge_numbers g e : map number (nodes (with_edge g e)) = map number (nodes g).
Proof. apply push_numbers. Qed.

Lemma waves_acyclic g : NoDup (map number (nodes g)) → is_Some (parallel_waves g) ↔ acyclic g.
Proof.
  intros Hnd. split.
  - intros [ws Hws%parallel_waves_layering]. exists (wave_index ws). by apply layering_ranked.
  - intros [r Hr]. by apply (waves_go_complete r).
Qed.

(** Why an edge is refused, exactly. *)
Definition refusal (total : N) (g : CriterionGraph) (e : N * N) (r : Rejection) : Prop :=
  match r with
  | SelfEdge c => c = e.1 ∧ e.1 = e.2
  | UnknownCriterion c => (c = e.1 ∨ c = e.2) ∧ (c = 0 ∨ total < c)%N
  | EdgeAlreadyDeclared c d => (c, d) = e ∧ dep_edge g c d
  | EdgeWouldCycle c d => (c, d) = e ∧ (tc (dep_edge g) d c ∨ ¬ acyclic g)
  | _ => False
  end.

(** A graph that has a row for every number up to [total]. *)
Definition covers (total : N) (g : CriterionGraph) : Prop :=
  NoDup (map number (nodes g)) ∧ ∀ n, (1 ≤ n ≤ total)%N → n ∈ map number (nodes g).

Lemma find_node_covered g n : n ∈ map number (nodes g) → is_Some (find_node g n).
Proof.
  intros (m & -> & Hm)%list_elem_of_fmap. unfold find_node.
  destruct (List.find _ _) eqn:E; [done|]. pose proof (List.find_none _ _ E m) as H.
  rewrite <- list_elem_of_In, N.eqb_refl in H. by specialize (H Hm).
Qed.

Lemma try_edge_spec total g e :
  covers total g →
  match try_edge total g e with
  | Ok g' => g' = with_edge g e ∧ (1 ≤ e.1 ≤ total)%N ∧ (1 ≤ e.2 ≤ total)%N ∧ e.1 ≠ e.2
      ∧ ¬ dep_edge g e.1 e.2 ∧ acyclic g ∧ acyclic g'
  | Err r => refusal total g e r
  end.
Proof.
  intros [Hnd Hcov]. destruct e as [c d]. unfold try_edge.
  destruct (N.eqb_spec c d) as [->|Hne]; [done|].
  destruct (List.find _ [c; d]) as [u|] eqn:Hu.
  { apply List.find_some in Hu as [Hin Hb]. cbn in Hin. cbn. split; [naive_solver|].
    apply orb_true_iff in Hb as [->%N.eqb_eq|?%N.ltb_lt]; auto. }
  assert (∀ x, x = c ∨ x = d → (1 ≤ x ≤ total)%N) as Hr.
  { intros x Hx. assert (In x [c; d]) as Hin by (cbn; naive_solver).
    pose proof (List.find_none _ _ Hu x Hin) as [H0 Hlt]%orb_false_iff.
    apply N.eqb_neq in H0. apply N.ltb_ge in Hlt. lia. }
  assert (is_Some (find_node g c)) as [node Hn] by by apply find_node_covered, Hcov, Hr; left.
  rewrite Hn. destruct (contains d (depends_on node)) eqn:Hc.
  { apply contains_spec in Hc. split; [done|]. by exists node. }
  assert (NoDup (map number (nodes (with_edge g (c, d))))) as Hnd' by by rewrite with_edge_numbers.
  change (mkGraph (push_dependency c d (nodes g))) with (with_edge g (c, d)). destruct (parallel_waves (with_edge g (c, d))) as [ws|] eqn:Hw.
  - assert (acyclic (with_edge g (c, d))) as Ha by by apply waves_acyclic; [|rewrite Hw].
    pose proof (Hr c ltac:(by left)). pose proof (Hr d ltac:(by right)). cbn [fst snd].
    split_and!; try done; try lia; [|by apply (push_acyclic_inv g c d)].
    intros (n & Hn' & Hd). apply contains_false in Hc. congruence.
  - cbn. split; [done|]. destruct (reaches g d c) eqn:E; [left; by apply reaches_spec|].
    right. intros Ha. assert (acyclic (with_edge g (c, d))) as Ha'.
    { apply push_acyclic; try done. by apply Hcov, Hr; right. }
    apply waves_acyclic in Ha'; [|done]. rewrite Hw in Ha'. by destruct Ha'.
Qed.

Lemma with_edge_covers total g e : covers total g → covers total (with_edge g e).
Proof. unfold covers. by rewrite with_edge_numbers. Qed.

Lemma edges_go_spec total wanted : ∀ g,
  covers total g →
  let '(g', applied, rej) := edges_go total g wanted in
  covers total g' ∧ map number (nodes g') = map number (nodes g)
  ∧ (acyclic g → acyclic g') ∧ (applied ≠ [] → acyclic g)
  ∧ applied `sublist_of` wanted ∧ length applied + length rej = length wanted
  ∧ (∀ c d, dep_edge g' c d ↔ dep_edge g c d ∨ (c, d) ∈ applied)
  ∧ Forall (λ e, (1 ≤ e.1 ≤ total)%N ∧ (1 ≤ e.2 ≤ total)%N ∧ e.1 ≠ e.2 ∧ ¬ dep_edge g e.1 e.2) applied.
Proof.
  induction wanted as [|e wanted IH]; intros g Hg; cbn [edges_go].
  { split_and!; try done; [|naive_solver (by apply elem_of_nil)..].
    intros c d. rewrite elem_of_nil. tauto. }
  pose proof (try_edge_spec total g e Hg) as He.
  destruct (try_edge total g e) as [g1|r].
  - destruct He as (-> & H1 & H2 & Hne & Hold & Ha & Ha').
    assert (is_Some (find_node g e.1)) as Hs by by apply find_node_covered, Hg.
    specialize (IH _ (with_edge_covers total g e Hg)).
    destruct (edges_go total (with_edge g e) wanted) as [[g' applied] rej].
    destruct IH as (Hc & Hn & Hac & _ & Hsub & Hlen & Hedge & Hall).
    rewrite with_edge_numbers in Hn. split_and!; try done; [auto|by constructor|cbn; lia| |].
    + intros c d. rewrite Hedge. unfold with_edge. rewrite push_edge by done. rewrite elem_of_cons.
      destruct e as [c0 d0]. cbn. naive_solver.
    + constructor; [done|]. eapply Forall_impl; [exact Hall|]. cbn. intros e' (? & ? & ? & Hno).
      split_and!; try lia. intros Hd. apply Hno. unfold with_edge. apply push_edge; auto.
  - specialize (IH _ Hg). destruct (edges_go total g wanted) as [[g' applied] rej].
    destruct IH as (Hc & Hn & Hac & Happ & Hsub & Hlen & Hedge & Hall).
    split_and!; try done; [by constructor|cbn; lia].
Qed.

Lemma stable_sort_numbers l : map number (stable_sort by_number l) ≡ₚ map number l.
Proof. apply Permutation_map, stable_sort_Permutation. Qed.

Lemma elem_of_numbers_upto n total : (1 ≤ n ≤ total)%N → n ∈ map N.of_nat (seq 1 (N.to_nat total)).
Proof. intros H. apply list_elem_of_fmap. exists (N.to_nat n). rewrite elem_of_seq. lia. Qed.

Lemma extended_numbers declared total :
  ∃ missing, map number (nodes (extended_graph declared total)) ≡ₚ map number (nodes declared) ++ missing
    ∧ NoDup missing ∧ (∀ n, n ∈ missing ↔ (1 ≤ n ≤ total)%N ∧ n ∉ map number (nodes declared)).
Proof.
  set (miss := bfilter (λ n, negb (any (λ node, (number node =? n)%N) (nodes declared)))
                 (map N.of_nat (seq 1 (N.to_nat total)))).
  exists miss. split_and!.
  - unfold extended_graph. cbn [nodes]. rewrite stable_sort_numbers, map_app, map_map. cbn. by rewrite map_id.
  - unfold miss, bfilter. apply NoDup_ListNoDup, List.NoDup_filter, NoDup_ListNoDup.
    apply (NoDup_fmap_2 N.of_nat), NoDup_seq.
  - intros n. unfold miss. rewrite elem_of_bfilter, negb_true_iff, <- not_true_iff_false, any_spec.
    split.
    + intros [(k & -> & Hk%elem_of_seq)%list_elem_of_fmap Hn]. split; [lia|].
      intros (m & Hm & Hin)%list_elem_of_fmap. apply Hn. exists m. split; [done|]. apply N.eqb_eq. congruence.
    + intros [Hr Hn]. split; [by apply elem_of_numbers_upto|].
      intros (m & Hm & <-%N.eqb_eq). apply Hn, list_elem_of_fmap. by exists m.
Qed.

Lemma extended_covers declared total :
  NoDup (map number (nodes declared)) → covers total (extended_graph declared total).
Proof.
  intros Hnd. destruct (extended_numbers declared total) as (miss & Hp & Hm & Hspec). split.
  - rewrite Hp. apply NoDup_app. split_and!; [done| |done]. intros x Hx Hin. by apply Hspec in Hin as [_ ?].
  - intros n Hn. rewrite Hp, elem_of_app, Hspec.
    destruct (decide (n ∈ map number (nodes declared))); auto.
Qed.

Lemma dep_edge_elem g c d :
  NoDup (map number (nodes g)) → dep_edge g c d ↔ ∃ n, n ∈ nodes g ∧ number n = c ∧ d ∈ depends_on n.
Proof.
  intros Hnd. split.
  - intros (n & Hn & Hd). apply find_node_Some in Hn as [? ?]. eauto.
  - intros (n & Hn & <- & Hd). by apply node_edge.
Qed.

Lemma extended_edges declared total c d :
  NoDup (map number (nodes declared)) →
  dep_edge (extended_graph declared total) c d ↔ dep_edge declared c d.
Proof.
  intros Hnd. rewrite !dep_edge_elem by (try apply (extended_covers declared total Hnd); done).
  unfold extended_graph. cbn [nodes]. setoid_rewrite stable_sort_Permutation. setoid_rewrite elem_of_app. split.
  - intros (n & [Hn|Hn] & <- & Hd); [by exists n|].
    apply list_elem_of_fmap in Hn as (k & -> & _). by apply elem_of_nil in Hd.
  - intros (n & Hn & <- & Hd). exists n. auto.
Qed.

(** An amendment's edges keep the contract schedulable. For a declared graph
    with distinct row numbers, the accepted edges form a subsequence of the ones
    asked for, each between two different criteria of the amended plan and not
    declared before; the resulting graph has exactly the declared edges and the
    accepted ones, and it has no cycle whenever the declared graph (with a row
    for every criterion) has none, while a graph that already has one accepts
    nothing. Every request is either accepted or recorded as refused. *)
Lemma accepted_edges_keep_schedule (declared : CriterionGraph) (total : N) (wanted : list (N * N)) :
  NoDup (map number (nodes declared)) →
  let start := extended_graph declared total in
  let '(g, applied, rejected) := edges_go total start wanted in
  plan_edges declared total wanted = (applied, rejected)
  ∧ applied `sublist_of` wanted ∧ length applied + length rejected = length wanted
  ∧ Forall (λ e, (1 ≤ e.1 ≤ total)%N ∧ (1 ≤ e.2 ≤ total)%N ∧ e.1 ≠ e.2 ∧ ¬ dep_edge declared e.1 e.2) applied
  ∧ (∀ c d, dep_edge g c d ↔ dep_edge declared c d ∨ (c, d) ∈ applied)
  ∧ (is_Some (parallel_waves start) → is_Some (parallel_waves g))
  ∧ (parallel_waves start = None → applied = []).
Proof.
  intros Hnd start. pose proof (extended_covers declared total Hnd) as Hc.
  pose proof (edges_go_spec total wanted start Hc) as H.
  assert (plan_edges declared total wanted
    = ((edges_go total start wanted).1.2, (edges_go total start wanted).2)) as Hp.
  { unfold plan_edges. fold start. by destruct (edges_go total start wanted) as [[? ?] ?]. }
  destruct (edges_go total start wanted) as [[g applied] rejected].
  destruct H as (Hcg & Hn & Hac & Happ & Hsub & Hlen & Hedge & Hall).
  assert (is_Some (parallel_waves start) ↔ acyclic start) as Hw by apply waves_acyclic, Hc.
  split_and!; try done.
  - eapply Forall_impl; [exact Hall|]. cbn. intros e. by rewrite <- (extended_edges declared total e.1 e.2).
  - intros c d. by rewrite Hedge, <- (extended_edges declared total c d).
  - intros Hs%Hw. apply waves_acyclic; [apply Hcg|auto].
  - intros Hnone. destruct applied as [|e l]; [done|].
    assert (acyclic start) as Hs%Hw by by apply Happ. rewrite Hnone in Hs. by destruct Hs.
Qed.

(** ** The checklist *)

(** A line the reader of the checklist passes over wherever it stands. *)
Definition inert (l : string) : Prop := is_any_header l = false ∧ parse_dual_row l = None.

Lemma section_header_is_header l name : is_section_header l name = true → is_any_header l = true.
Proof. unfold is_section_header, is_any_header. cbn zeta. by intros [? _]%andb_true_iff. Qed.

Lemma inert_not_section l name : inert l → is_section_header l name = false.
Proof.
  intros [Hh _]. apply not_true_iff_false. intros H%section_header_is_header. congruence.
Qed.

Lemma skip_inert level l ls : inert l → parse_dual_rows_go level (l :: ls) = parse_dual_rows_go level ls.
Proof.
  intros Hi. cbn [parse_dual_rows_go]. rewrite (inert_not_section _ _ Hi). destruct Hi as [-> ->].
  by destruct level.
Qed.

Lemma skip_inerts level xs ls : Forall inert xs → parse_dual_rows_go level (xs ++ ls) = parse_dual_rows_go level ls.
Proof. induction 1 as [|l xs Hl _ IH]; [done|]. cbn [app]. by rewrite skip_inert. Qed.

(** A body with [new] after its line number [o]; [k] is the first line's number. *)
Fixpoint splice (o : option nat) (new : list string) (k : nat) (ls : list string) : list string :=
  match ls with
  | [] => []
  | l :: ls => l :: at_line k o new ++ splice o new (S k) ls
  end.

Lemma splice_past o new k ls : (∀ j, o = Some j → j < k) → splice o new k ls = ls.
Proof.
  revert k. induction ls as [|l ls IH]; intros k Ho; [done|]. cbn [splice]. unfold at_line.
  rewrite bool_decide_eq_false_2 by (intros ->; specialize (Ho k eq_refl); lia).
  cbn. f_equal. apply IH. intros j Hj. specialize (Ho j Hj). lia.
Qed.

Lemma row_is_checklist_row l row : parse_dual_row l = Some row → is_checklist_row l = true.
Proof.
  unfold parse_dual_row, data_row, is_checklist_row. destruct (table_cells l) as [|c0 [|c1 [|c2 rest]]]; try done.
  destruct (is_separator_row _); [done|]. destruct (_ && _); [done|].
  assert (∀ c b, parse_mark c = Some b → is_mark c = true) as Hm.
  { intros c b. unfold parse_mark, is_mark. cbn [contains].
    destruct (String.eqb_spec (trim c) "[x]") as [->|]; [done|].
    destruct (String.eqb_spec (trim c) "[X]") as [->|]; [done|].
    destruct (String.eqb_spec (trim c) "[ ]") as [->|]; [done|]. done. }
  destruct (parse_mark c0) eqn:E0; [|done]. destruct (parse_mark c1) eqn:E1; [|done].
  by rewrite (Hm _ _ E0), (Hm _ _ E1).
Qed.

Lemma last_line_later name pred level found k ls :
  let o := last_line_go name pred level found k ls in o = found ∨ ∃ j, o = Some j ∧ k ≤ j.
Proof.
  revert level found k. induction ls as [|l ls IH]; intros level found k; cbn [last_line_go]; [by left|].
  destruct level as [open|].
  - destruct (_ && _); [by left|].
    destruct (IH (Some open) (if pred l then Some k else found) (S k)) as [->|(j & -> & ?)]; cbv zeta.
    + destruct (pred l); [right; eauto|by left].
    + right. exists j. split; [done|lia].
  - destruct (IH (if is_section_header l name then Some (header_level l) else None) found (S k)) as [->|(j & -> & ?)];
      cbv zeta; [by left|]. right. exists j. split; [done|lia].
Qed.

(** New rows after the last row of an open section are read after its rows. *)
Lemma splice_open open found k new rows ls :
  (∀ j, found = Some j → j < k) →
  Forall (λ l, is_section_header l Checklist.CHECKLIST_SECTION = false) ls →
  (∀ r, parse_dual_rows_go (Some open) (new ++ r) = rows ++ parse_dual_rows_go (Some open) r) →
  let o := last_line_go Checklist.CHECKLIST_SECTION is_checklist_row (Some open) found k ls in
  (o = found → parse_dual_rows_go (Some open) ls = [])
  ∧ parse_dual_rows_go (Some open) (splice o new k ls)
    = parse_dual_rows_go (Some open) ls ++ (if bool_decide (o = found) then [] else rows).
Proof.
  intros Hf Hls Hnew. revert found k Hf. induction Hls as [|l ls Hl _ IH]; intros found k Hf; cbn [last_line_go].
  { cbv zeta. by rewrite bool_decide_eq_true_2. }
  cbn [parse_dual_rows_go]. rewrite Hl. destruct (is_any_header l && (header_level l <=? open)) eqn:Hh.
  { cbv zeta. rewrite splice_past by done. rewrite bool_decide_eq_true_2 by done.
    cbn [parse_dual_rows_go]. by rewrite Hl, Hh. }
  cbv zeta. set (found' := if is_checklist_row l then Some k else found).
  assert (∀ j, found' = Some j → j < S k) as Hf'.
  { intros j. unfold found'. destruct (is_checklist_row l); [intros [= <-]; lia|].
    intros Hj. specialize (Hf j Hj). lia. }
  specialize (IH found' (S k) Hf'). cbv zeta in IH.
  pose proof (last_line_later Checklist.CHECKLIST_SECTION is_checklist_row (Some open) found' (S k) ls) as Hlater.
  cbv zeta in Hlater. set (o := last_line_go _ _ _ _ _ _) in *. destruct IH as [IH1 IH2].
  cbn [splice parse_dual_rows_go]. rewrite Hl, Hh. unfold at_line.
  destruct (is_checklist_row l) eqn:Hc; unfold found' in *.
  - assert (o ≠ found) as Hne.
    { intros E. assert (∃ j, o = Some j ∧ k ≤ j) as (j & Hj & Hle).
      { destruct Hlater as [->|(j & -> & ?)]; eexists; (split; [done|lia]). }
      rewrite E in Hj. specialize (Hf j Hj). lia. }
    split; [done|]. rewrite (bool_decide_eq_false_2 (o = found)) by done.
    destruct (decide (o = Some k)) as [Ho|Ho].
    + rewrite bool_decide_eq_true_2 by done. rewrite splice_past by (intros j; rewrite Ho; intros [= <-]; lia).
      rewrite Hnew, IH1 by done. by destruct (parse_dual_row l); rewrite ?app_nil_r.
    + rewrite bool_decide_eq_false_2 by done. cbn [app]. rewrite IH2.
      rewrite (bool_decide_eq_false_2 (o = Some k)) by done. by destruct (parse_dual_row l).
  - assert (parse_dual_row l = None) as ->.
    { destruct (parse_dual_row l) eqn:E; [|done]. apply row_is_checklist_row in E. congruence. }
    split; [done|]. destruct (decide (o = Some k)) as [Ho|Ho].
    + exfalso. destruct Hlater as [E|(j & E & ?)]; rewrite Ho in E; [specialize (Hf k); naive_solver lia|].
      injection E as <-. lia.
    + rewrite (bool_decide_eq_false_2 (o = Some k)) by done. cbn [app]. by rewrite IH2.
Qed.

(** The plan has one checklist section. *)
Definition one_checklist (ls : list string) : Prop :=
  length (bfilter (λ l, is_section_header l Checklist.CHECKLIST_SECTION) ls) ≤ 1.

Lemma splice_rows new rows k ls :
  one_checklist ls →
  (∀ open r, parse_dual_rows_go (Some open) (new ++ r) = rows ++ parse_dual_rows_go (Some open) r) →
  let o := last_line_go Checklist.CHECKLIST_SECTION is_checklist_row None None k ls in
  (o = None → parse_dual_rows_go None ls = [])
  ∧ parse_dual_rows_go None (splice o new k ls)
    = parse_dual_rows_go None ls ++ (if bool_decide (o = None) then [] else rows).
Proof.
  intros H1 Hnew. revert k H1. induction ls as [|l ls IH]; intros k H1; cbn [last_line_go]; [done|].
  cbv zeta. cbn [splice parse_dual_rows_go].
  unfold one_checklist, bfilter in *. cbn [List.filter] in H1.
  destruct (is_section_header l Checklist.CHECKLIST_SECTION) eqn:Hs; unfold at_line.
  - assert (Forall (λ l, is_section_header l Checklist.CHECKLIST_SECTION = false) ls) as Hls.
    { apply Forall_forall. intros x Hx. destruct (is_section_header x _) eqn:E; [|done]. exfalso.
      assert (x ∈ List.filter (λ l, is_section_header l Checklist.CHECKLIST_SECTION) ls) as Hin.
      { apply list_elem_of_In, List.filter_In. by split; [apply list_elem_of_In|]. }
      destruct (List.filter _ ls); [by apply elem_of_nil in Hin|cbn in H1; lia]. }
    pose proof (splice_open (header_level l) None (S k) new rows ls ltac:(done) Hls (Hnew _)) as H. cbv zeta in H.
    pose proof (last_line_later Checklist.CHECKLIST_SECTION is_checklist_row (Some (header_level l)) None (S k) ls) as Hlt.
    cbv zeta in Hlt. set (o := last_line_go _ _ _ _ _ _) in *.
    rewrite (bool_decide_eq_false_2 (o = Some k));
      [destruct H as [H H']; split; [exact H|]; cbn [app]; rewrite H'; f_equal; repeat case_bool_decide; done|]. intros E. destruct Hlt as [E'|(j & E' & ?)]; rewrite E in E'; [done|].
    injection E' as <-. lia.
  - specialize (IH (S k) H1). cbv zeta in IH.
    pose proof (last_line_later Checklist.CHECKLIST_SECTION is_checklist_row None None (S k) ls) as Hlt.
    cbv zeta in Hlt. set (o := last_line_go _ _ _ _ _ _) in *.
    rewrite (bool_decide_eq_false_2 (o = Some k)); [cbn [app]; exact IH|]. intros E. destruct Hlt as [E'|(j & E' & ?)]; rewrite E in E'; [done|].
    injection E' as <-. lia.
Qed.

(** *** Lines the amendment prints *)

Lemma glyphs_bracket g : g ∈ glyphs → char_free "[" g = false.
Proof. revert g. rewrite <- Forall_forall. repeat constructor. Qed.

Lemma no_mark_inert l c0 rest :
  is_any_header l = false → table_cells l = c0 :: rest → parse_mark c0 = None → inert l.
Proof.
  intros Hh Hc Hm. split; [done|]. unfold parse_dual_row, data_row. rewrite Hc.
  destruct rest as [|c1 [|c2 rest]]; [done..|]. destruct (is_separator_row _); [done|].
  destruct (_ && _); [done|]. by rewrite Hm.
Qed.

Lemma bracket_free_no_mark c : char_free "[" c = true → parse_mark c = None.
Proof.
  intros Hc. destruct (parse_mark c) as [b|] eqn:E; [|done].
  apply parse_mark_glyph, glyphs_bracket in E. rewrite char_free_trim in E; done.
Qed.

Lemma dependency_row_inert l : is_dependency_row l = true → inert l.
Proof.
  intros Hd. assert (is_any_header l = false) as Hh.
  { apply not_true_iff_false. intros Hh%header_no_cells. unfold is_dependency_row in Hd. by rewrite Hh in Hd. }
  unfold is_dependency_row in Hd. pose proof (table_cells_ok l) as Hok.
  destruct (table_cells l) as [|c0 [|c1 [|c2 rest]]] eqn:Hc; try done.
  apply andb_true_iff in Hd as [_ Hn%bool_decide_eq_true].
  eapply no_mark_inert; [done|exact Hc|]. destruct (parse_mark c0) as [b|] eqn:E; [|done].
  apply parse_mark_glyph in E. apply Forall_cons in Hok as [[_ Ht] _]. rewrite Ht in E.
  exfalso. clear Hc Ht. revert c0 E Hn. setoid_rewrite <- not_eq_None_Some.
  intros c0 Hg Hne. apply Hne. clear Hne. revert c0 Hg. rewrite <- Forall_forall. repeat constructor.
Qed.

Definition white (s : string) : Prop := ∃ ws, Forall (λ w, w ∈ white_space) ws ∧ s = foldr String.append "" ws.

Lemma indent_white l : white (indent l).
Proof.
  destruct (trim_start_split l) as (ws & Hs & Hws). exists ws. split; [done|]. unfold indent.
  assert (String.length l = String.length (foldr String.append "" ws) + String.length (trim_start l)) as ->
    by (rewrite Hs at 1; apply str_length_app).
  rewrite Nat.add_sub, Hs at 1. apply take_bytes_app.
Qed.

Lemma trim_start_white w s : white w → trim_start (w +:+ s) = trim_start s.
Proof.
  intros (ws & Hws & ->). induction Hws as [|x ws Hx _ IH]; [done|]. cbn [foldr].
  by rewrite str_app_assoc, trim_start_ws.
Qed.

Lemma printed_row_inert w n d s : white w → inert (dependency_row w n d s).
Proof.
  intros Hw. unfold dependency_row.
  set (mid := pretty n +:+ " | " +:+ d +:+ " | " +:+ s).
  assert (w +:+ "| " +:+ pretty n +:+ " | " +:+ d +:+ " | " +:+ s +:+ " |"
          = w +:+ "|" +:+ (" " +:+ mid +:+ " ") +:+ "|") as ->.
  { unfold mid. by rewrite !str_app_assoc, !str_app_cons, !str_app_nil_l. }
  assert (is_any_header (w +:+ "|" +:+ (" " +:+ mid +:+ " ") +:+ "|") = false) as Hh.
  { unfold is_any_header. rewrite trim_start_white by done. reflexivity. }
  assert (∃ rest, table_cells (w +:+ "|" +:+ (" " +:+ mid +:+ " ") +:+ "|")
                  = trim (" " +:+ pretty n +:+ " ") :: rest) as (rest & Hc).
  { unfold table_cells. destruct Hw as (ws & Hws & ->).
    rewrite trim_ws_many_l, trim_pipes_ends, trim_matches_pipes by done.
    assert (" " +:+ mid +:+ " " = (" " +:+ pretty n +:+ " ") +:+ String pipe "" +:+ (" " +:+ d +:+ " | " +:+ s +:+ " ")) as ->.
    { unfold mid. by rewrite !str_app_assoc, !str_app_cons, !str_app_nil_l. }
    cbn [starts_with strip_prefix]. eexists. cbn match. rewrite split_char_sep; [reflexivity|].
    unfold char_free. rewrite !all_chars_app. fold (char_free pipe (pretty n)). by rewrite pretty_N_free. }
  eapply no_mark_inert; [exact Hh|exact Hc|]. apply bracket_free_no_mark, char_free_trim.
  unfold char_free. rewrite !all_chars_app. fold (char_free "[" (pretty n)). by rewrite pretty_N_free.
Qed.

Lemma rewrite_line_reads dependencies edges scopes l :
  rewrite_line dependencies edges scopes l = l ∨ inert l ∧ inert (rewrite_line dependencies edges scopes l).
Proof.
  unfold rewrite_line. destruct (dependencies && is_dependency_row l) eqn:E; [|by left].
  apply andb_true_iff in E as [_ Hd]. destruct (head (table_cells l) ≫= parse_number) as [n|]; [|by left].
  unfold rewrite_dependency_row. destruct (_ && _); [by left|]. right.
  split; [by apply dependency_row_inert|]. apply printed_row_inert, indent_white.
Qed.

Lemma digit_line_inert d t : is_ascii_digit d = true → inert (String d t).
Proof.
  intros Hd. assert (∀ w, w ∈ white_space → starts_with w (String d t) = false) as Hws.
  { intros w Hw. assert (match w with String c _ => is_ascii_digit c = false | "" => False end) as Hc.
    { revert w Hw. rewrite <- Forall_forall. repeat constructor. }
    destruct w as [|c w]; [done|]. apply starts_with_ne. intros ->. congruence. }
  assert (trim_start (String d t) = String d t) as Hts.
  { apply drop_front_stop, find_prefix_None. exact Hws. }
  assert (d ≠ "#"%char ∧ d ≠ "|"%char) as [H1 H2] by (split; intros ->; done).
  assert (is_any_header (String d t) = false) as Hh.
  { unfold is_any_header. rewrite Hts. apply starts_with_ne. congruence. }
  split; [done|]. unfold parse_dual_row, data_row.
  assert (table_cells (String d t) = []) as ->; [|done].
  unfold table_cells, trim. rewrite Hts. destruct (trim_end_split (String d t)) as (vs & Hs & _).
  destruct (trim_end (String d t)) as [|c u]; [done|]. rewrite str_app_cons in Hs. injection Hs as <- _.
  rewrite starts_with_ne by congruence. done.
Qed.

Lemma criterion_lines_inert existing appended : Forall inert (criterion_lines existing appended).
Proof.
  apply Forall_forall. intros l Hl. unfold criterion_lines in Hl.
  apply elem_of_lookup_imap in Hl as (i & c & -> & _).
  change (pretty (N.to_nat existing + i + 1)%nat) with (pretty (N.of_nat (N.to_nat existing + i + 1))).
  destruct (pretty_N_cons (N.of_nat (N.to_nat existing + i + 1))) as (d & t & -> & Hd). by apply digit_line_inert.
Qed.

Lemma dependency_lines_inert existing edges appended : Forall inert (dependency_lines existing edges appended).
Proof.
  apply Forall_forall. intros l Hl. unfold dependency_lines in Hl.
  apply elem_of_lookup_imap in Hl as (i & c & -> & _). apply printed_row_inert. by exists [].
Qed.

(** *** Bodies that read the same *)

Definition reads_as (ls ls' : list string) : Prop :=
  ∀ level, parse_dual_rows_go level ls = parse_dual_rows_go level ls'.

#[export] Instance reads_as_equiv : Equivalence reads_as.
Proof.
  split; [by intros ls level|by intros ls ls' H level|].
  intros a b c H1 H2 level. by rewrite H1.
Qed.

#[export] Instance reads_as_cons l : Proper (reads_as ==> reads_as) (cons l).
Proof. intros ls ls' H level. cbn [parse_dual_rows_go]. by rewrite (H (Some (header_level l))), !H. Qed.

#[export] Instance reads_as_app xs : Proper (reads_as ==> reads_as) (app xs).
Proof. intros ls ls' H. induction xs as [|x xs IH]; [done|]. cbn [app]. by rewrite IH. Qed.

Lemma reads_inert xs ls : Forall inert xs → reads_as (xs ++ ls) ls.
Proof. intros Hi level. by apply skip_inerts. Qed.

Lemma reads_line l l' ls : l = l' ∨ inert l' ∧ inert l → reads_as (l :: ls) (l' :: ls).
Proof.
  intros [->|[H1 H2]]; [done|]. intros level. by rewrite !skip_inert.
Qed.

Lemma reads_same_line ls ls' : Forall2 same_line ls ls' → reads_as ls ls'.
Proof. intros H level. rewrite !parse_counted_go. by rewrite (counted_go_same _ _ _ H). Qed.

(** Without its other insertions the printed body is a splice. *)
Lemma erase_insertions o new (A B : list string) oa ob (rw : string → string) k ls :
  Forall inert A → Forall inert B → (∀ l, rw l = l ∨ inert l ∧ inert (rw l)) →
  reads_as (mjoin (imap (λ i l, [rw l] ++ at_line (k + i) oa A ++ at_line (k + i) o new ++ at_line (k + i) ob B) ls))
    (splice o new k ls).
Proof.
  intros HA HB Hrw. revert k. induction ls as [|l ls IH]; intros k; [done|].
  rewrite imap_cons. cbn [mjoin list_join splice app]. rewrite Nat.add_0_r.
  rewrite (reads_line _ l) by apply Hrw. rewrite <- !app_assoc.
  rewrite (reads_inert (at_line k oa A)) by (unfold at_line; by case_bool_decide).
  rewrite (reads_inert (at_line k ob B)) by (unfold at_line; by case_bool_decide).
  rewrite <- (IH (S k)). apply reads_as_cons, reads_as_app.
  assert (∀ X Y : list string, X = Y → reads_as X Y) as Heq by (by intros X Y ->).
  apply Heq. f_equal. apply imap_ext. intros i x _. cbn. by rewrite Nat.add_succ_r.
Qed.

(** *** Printing and reading back *)

Definition newline_free (s : string) : Prop := char_free newline s = true.

Lemma empty_inert : inert "".
Proof. done. Qed.

(** What is printed reads as the printed lines, whether or not the last line
    end is dropped. *)
Lemma printed_reads P (drop_last : bool) :
  Forall newline_free P →
  let out := unlines P in
  reads_as (lines (if drop_last && ends_with nl out then take_bytes (String.length out - 1) out else out)) P.
Proof.
  intros HP out. unfold out. clear out. destruct (drop_last && ends_with nl (unlines P)) eqn:E.
  - destruct P as [|p P _] using rev_ind; [done|]. apply Forall_app in HP as [HP [Hp _]%Forall_cons].
    rewrite unlines_snoc, <- str_app_assoc, str_length_app.
    replace (String.length (unlines P +:+ p) + String.length nl - 1) with (String.length (unlines P +:+ p))
      by (cbn; lia).
    rewrite take_bytes_app, lines_unlines; [|exact HP|exact Hp]. destruct p as [|c p]; cbn [is_empty].
    + rewrite app_nil_r. transitivity P; [symmetry; apply reads_same_line, Forall2_same_line_strip|].
      rewrite <- (app_nil_r P) at 1. apply reads_as_app. symmetry. apply (reads_inert [""] []). by repeat constructor.
    + symmetry. apply reads_same_line. apply Forall2_app; [apply Forall2_same_line_strip|]. repeat constructor.
  - rewrite <- (str_app_nil_r (unlines P)), lines_unlines; [|exact HP|done]. cbn [is_empty]. rewrite app_nil_r.
    symmetry. apply reads_same_line, Forall2_same_line_strip.
Qed.

(** *** Nothing that is printed breaks a line *)

Lemma newline_free_cells l : newline_free l → Forall newline_free (table_cells l).
Proof. apply table_cells_free. Qed.

Lemma normalize_scope_free p : newline_free p → newline_free (normalize_scope p).
Proof.
  intros Hp. unfold normalize_scope, newline_free, char_free, trim_end_char, trim_start_char, trim_start_str, replace_char.
  rewrite all_chars_rev. apply all_chars_drop_front. rewrite all_chars_rev.
  do 2 apply all_chars_drop_front. apply all_chars_map_string; [|by apply all_chars_trim].
  intros c Hc. by destruct (Ascii.eqb c backslash).
Qed.

Lemma parse_list_free cell : newline_free cell → Forall newline_free (parse_list cell).
Proof.
  intros Hc. unfold parse_list. destruct (contains _ _); [constructor|].
  apply Forall_forall. intros x [Hx _]%elem_of_bfilter. apply list_elem_of_fmap in Hx as (s & -> & Hs).
  apply all_chars_trim, all_chars_trim_matches, all_chars_trim.
  apply list_elem_of_join in Hs as (ws & Hs & Hws). apply list_elem_of_fmap in Hws as (q & -> & Hq).
  assert (newline_free q) as Hqf.
  { clear Hs. revert q Hq. apply Forall_forall. apply all_chars_split_pred, all_chars_trim_matches, all_chars_trim, Hc. }
  revert s Hs. apply Forall_forall. by apply all_chars_split_ws.
Qed.

Lemma append_cell_free current add :
  newline_free current → Forall newline_free add → newline_free (append_cell current add).
Proof.
  intros Hc Ha. unfold append_cell. destruct (is_nil add); [by apply all_chars_trim|].
  pose proof (parse_list_free current Hc) as Hl. revert Hl. generalize (parse_list current).
  induction Ha as [|x add Hx _ IH]; intros l Hl; cbn [foldl].
  - destruct (is_nil l); [done|]. by apply all_chars_join.
  - apply IH. destruct (contains x l); [done|]. apply Forall_app. by repeat constructor.
Qed.

Lemma pretty_free (n : N) : newline_free (pretty n).
Proof. by apply pretty_N_free. Qed.

Lemma dependency_row_free w n d s :
  newline_free w → newline_free d → newline_free s → newline_free (dependency_row w n d s).
Proof.
  intros Hw Hd Hs. unfold dependency_row, newline_free, char_free in *. rewrite !all_chars_app, Hw, Hd, Hs.
  fold (char_free newline (pretty n)). by rewrite pretty_free.
Qed.

Lemma take_bytes_free n s : newline_free s → newline_free (take_bytes n s).
Proof.
  unfold newline_free, char_free. revert n. induction s as [|c s IH]; intros [|n]; cbn; try done.
  intros [-> Hs]%andb_true_iff. by apply IH.
Qed.

Lemma edges_free n edges : Forall newline_free (map pretty (edges_of n edges)).
Proof. apply Forall_forall. intros x (k & -> & _)%list_elem_of_fmap. apply pretty_free. Qed.

Lemma scope_of_free n scopes :
  Forall (λ s : N * list string, Forall newline_free s.2) scopes → Forall newline_free (scope_of n scopes).
Proof.
  intros Hs. unfold scope_of. apply Forall_forall. intros x (ps & Hx & Hps)%list_elem_of_join.
  apply list_elem_of_fmap in Hps as (e & -> & [He _]%elem_of_bfilter).
  rewrite Forall_forall in Hs. specialize (Hs e He). rewrite Forall_forall in Hs. by apply Hs.
Qed.

Lemma rewrite_line_free dependencies edges scopes l :
  newline_free l → Forall (λ s : N * list string, Forall newline_free s.2) scopes →
  newline_free (rewrite_line dependencies edges scopes l).
Proof.
  intros Hl Hs. unfold rewrite_line. destruct (_ && _); [|done].
  destruct (_ ≫= _) as [n|]; [|done]. unfold rewrite_dependency_row. destruct (_ && _); [done|]. cbn.
  pose proof (newline_free_cells l Hl) as Hcells.
  assert (∀ i, newline_free (default "-" (table_cells l !! i))) as Hcell.
  { intros i. destruct (table_cells l !! i) as [c|] eqn:E; [|done]. by eapply Forall_lookup_1. }
  apply dependency_row_free; [by apply take_bytes_free|apply append_cell_free; [apply Hcell|apply edges_free]|].
  apply append_cell_free; [apply Hcell|by apply scope_of_free].
Qed.

(** ** What an amendment leaves of the checklist *)

(** Texts on one line and without a pipe, paths on one line. *)
Definition plain_amendment (a : PlanAmendment) : Prop :=
  Forall (λ c, newline_free (nc_text c) ∧ char_free pipe (nc_text c) = true
               ∧ Forall newline_free (nc_write_scope c)) (am_appended a)
  ∧ Forall (λ s, Forall newline_free s.2) (am_scopes a).

(** What [plan_appends] accepts: a wanted text, trimmed, that is new. *)
Definition accepted_text (rows : list DualRow) (wanted : list NewCriterion) (c : NewCriterion) : Prop :=
  ∃ w, w ∈ wanted ∧ nc_text c = trim (nc_text w) ∧ nc_text c ≠ ""
       ∧ nc_write_scope c = collect_scope (nc_write_scope w)
       ∧ ∀ row, row ∈ rows → eq_ignore_ascii_case (trim (criterion row)) (nc_text c) = false.

Lemma append_go_spec rows wanted : ∀ out all_wanted,
  (∀ w, w ∈ wanted → w ∈ all_wanted) → Forall (accepted_text rows all_wanted) out →
  length out ≤ MAX_APPENDED_CRITERIA →
  let '(res, _) := append_go rows out wanted in
  Forall (accepted_text rows all_wanted) res ∧ length res ≤ MAX_APPENDED_CRITERIA.
Proof.
  induction wanted as [|w wanted IH]; intros out all_wanted Hw Ho Hlen; cbn [append_go]; [done|].
  assert (∀ x, x ∈ wanted → x ∈ all_wanted) as Hw' by (intros x Hx; apply Hw; by right).
  destruct (is_empty (trim (nc_text w))) eqn:He; [by apply IH|].
  destruct (Nat.leb_spec MAX_APPENDED_CRITERIA (length out)) as [|Hlt]; [done|].
  destruct (any _ rows || any _ out) eqn:Hdup.
  - specialize (IH out all_wanted Hw' Ho Hlen). by destruct (append_go rows out wanted).
  - apply orb_false_iff in Hdup as [Hr _]. apply IH; [done| |rewrite length_app; cbn; lia].
    apply Forall_app. split; [done|]. repeat constructor. exists w. cbn. split_and!; try done; [apply Hw; by left|by intros E; rewrite E in He|].
    intros row Hrow. apply not_true_iff_false. intros Heq. apply not_true_iff_false in Hr. apply Hr, any_spec. eauto.
Qed.

Lemma plan_appends_spec body rows wanted :
  let '(res, _) := plan_appends body rows wanted in
  Forall (accepted_text rows wanted) res ∧ length res ≤ MAX_APPENDED_CRITERIA.
Proof.
  unfold plan_appends. destruct (is_nil wanted); [split; [constructor|cbn; lia]|].
  destruct (negb _); [split; [constructor|cbn; lia]|]. apply append_go_spec; [done|constructor|cbn; lia].
Qed.

Lemma collect_scope_free ps : Forall newline_free ps → Forall newline_free (collect_scope ps).
Proof.
  intros Hps. unfold collect_scope. set (step := λ acc p, _).
  assert (∀ acc, Forall newline_free acc → Forall newline_free (foldl step acc ps)) as H; [|by apply H].
  induction Hps as [|p ps Hp _ IH]; intros acc Hacc; cbn [foldl]; [done|].
  apply IH. unfold step. destruct (_ && _); [|done]. apply Forall_app. split; [done|].
  repeat constructor. by apply normalize_scope_free.
Qed.

Lemma widen_go_free have ps : Forall newline_free ps → Forall newline_free (widen_go have ps).
Proof.
  intros Hps. revert have. induction Hps as [|p ps Hp _ IH]; intros have; cbn [widen_go]; [constructor|].
  destruct (_ || _); [done|]. constructor; [by apply normalize_scope_free|done].
Qed.

Lemma plan_scopes_free declared wanted :
  Forall (λ s : N * list string, Forall newline_free s.2) wanted →
  Forall (λ s : N * list string, Forall newline_free s.2) (plan_scopes declared wanted).1.
Proof.
  intros Hw. apply Forall_forall. intros s Hs. unfold plan_scopes in Hs. cbn [fst] in Hs.
  apply list_elem_of_omap in Hs as (r & Hr & Hrs). apply list_elem_of_fmap in Hr as ([c ps] & -> & Hin).
  rewrite Forall_forall in Hw. specialize (Hw _ Hin). unfold widen in Hrs.
  destruct (find_node declared c); [|done]. destruct (is_nil (write_scope _)); [done|].
  destruct (is_nil (widen_go _ _)); [done|]. injection Hrs as <-. by apply widen_go_free.
Qed.

Lemma escape_cell_plain t : char_free pipe t = true → escape_cell t = t.
Proof.
  unfold escape_cell, replace_str, char_free. induction t as [|c t IH]; [done|].
  cbn [all_chars replace_go]. intros [Hc Ht]%andb_true_iff. rewrite starts_with_ne; [by rewrite IH|].
  intros <-. done.
Qed.

Lemma new_row_reads t : char_free pipe t = true → trim t = t → t ≠ "" →
  is_any_header ("| [ ] | [ ] | " +:+ escape_cell t +:+ " |") = false
  ∧ parse_dual_row ("| [ ] | [ ] | " +:+ escape_cell t +:+ " |") = Some (mkDualRow false false t).
Proof.
  intros Hp Ht Hne. rewrite escape_cell_plain by done.
  assert ("| [ ] | [ ] | " +:+ t +:+ " |" = render_row "[ ]" "[ ]" (trim (join bar [t]))) as ->.
  { unfold render_row. cbn [join String.concat]. by rewrite Ht. }
  split; [apply not_header_render|]. rewrite parse_dual_row_counted.
  assert ("[ ]" ∈ glyphs) as Hg by by apply contains_spec.
  rewrite (counted_render "[ ]" "[ ]" [t] false false) by (try done; by repeat constructor).
  cbn [join String.concat]. rewrite Ht. unfold named. cbn [criterion]. by destruct t.
Qed.

Lemma new_rows_read open (appended : list NewCriterion) r :
  Forall (λ c, char_free pipe (nc_text c) = true ∧ trim (nc_text c) = nc_text c ∧ nc_text c ≠ "") appended →
  parse_dual_rows_go (Some open) (checklist_lines appended ++ r)
  = map (λ c, mkDualRow false false (nc_text c)) appended ++ parse_dual_rows_go (Some open) r.
Proof.
  induction 1 as [|c cs (Hp & Ht & Hne) _ IH]; [done|]. cbn [checklist_lines map app parse_dual_rows_go].
  destruct (new_row_reads _ Hp Ht Hne) as [Hh ->].
  destruct (is_section_header _ _) eqn:E; [apply section_header_is_header in E; congruence|].
  rewrite Hh. cbn [andb app]. by rewrite <- IH.
Qed.

Lemma rewrite_reads body existing appended edges scopes :
  Forall (λ c, newline_free (nc_text c) ∧ Forall newline_free (nc_write_scope c)
    ∧ char_free pipe (nc_text c) = true) appended →
  Forall (λ s : N * list string, Forall newline_free s.2) scopes →
  reads_as (lines (rewrite body existing appended edges scopes))
    (splice (last_line_in_section body Checklist.CHECKLIST_SECTION is_checklist_row) (checklist_lines appended) 0
       (lines body)).
Proof.
  intros Ha Hs. etransitivity; [apply printed_reads|apply (erase_insertions _ _ _ _ _ _ _ 0)].
  - unfold rewrite_lines_of. apply Forall_forall. intros l (ls & Hl & Hls)%list_elem_of_join.
    apply elem_of_lookup_imap in Hls as (i & x & -> & Hx).
    assert (newline_free x) as Hxf by (eapply Forall_lookup_1; [apply lines_free|exact Hx]).
    revert l Hl. apply Forall_forall.
    assert (∀ o ls, Forall newline_free ls → Forall newline_free (at_line i o ls)) as Hat
      by (intros o ls Hls; unfold at_line; by case_bool_decide).
    rewrite Forall_forall in Ha.
    repeat (apply Forall_app; split); [|apply Hat, Forall_forall..].
    + repeat constructor. by apply rewrite_line_free.
    + intros l Hl. apply elem_of_lookup_imap in Hl as (j & c & -> & Hc%list_elem_of_lookup_2).
      destruct (Ha c Hc) as [Hf _]. unfold newline_free, char_free in *. rewrite !all_chars_app, Hf.
      change (pretty (N.to_nat existing + j + 1)%nat) with (pretty (N.of_nat (N.to_nat existing + j + 1))).
      fold (char_free newline (pretty (N.of_nat (N.to_nat existing + j + 1)))). by rewrite pretty_free.
    + intros l (c & -> & Hc)%list_elem_of_fmap. destruct (Ha c Hc) as (Hf & _ & Hp).
      rewrite escape_cell_plain by done. unfold newline_free, char_free in *. by rewrite !all_chars_app, Hf.
    + intros l Hl. apply elem_of_lookup_imap in Hl as (j & c & -> & Hc%list_elem_of_lookup_2).
      apply dependency_row_free; [done|by apply append_cell_free, edges_free|].
      apply append_cell_free; [done|]. by apply Ha.
  - apply criterion_lines_inert.
  - apply dependency_lines_inert.
  - apply rewrite_line_reads.
Qed.

Lemma accepted_plain rows wanted appended :
  Forall (λ c, newline_free (nc_text c) ∧ char_free pipe (nc_text c) = true
               ∧ Forall newline_free (nc_write_scope c)) wanted →
  Forall (accepted_text rows wanted) appended →
  Forall (λ c, (newline_free (nc_text c) ∧ Forall newline_free (nc_write_scope c)
    ∧ char_free pipe (nc_text c) = true) ∧ trim (nc_text c) = nc_text c ∧ nc_text c ≠ "") appended.
Proof.
  intros Hw Happ. eapply Forall_impl; [exact Happ|]. intros c (w & Hin & Ht & Hnt & Hsc & _).
  rewrite Forall_forall in Hw. destruct (Hw w Hin) as (H1 & H2 & H3). rewrite Hsc, Ht. split_and!.
  - by apply all_chars_trim.
  - by apply collect_scope_free.
  - by apply all_chars_trim.
  - apply trim_idem.
  - by rewrite <- Ht.
Qed.

(** An amendment never touches what was earned. For a plan with one checklist
    section that has rows, and an amendment whose texts are single-line and
    without a pipe, reading the amended plan gives every row of the old one, in
    the same order and with the same marks, followed by one row with both marks
    unticked for each criterion the report says was appended; these are at most
    three, each a trimmed, non-empty text of the amendment that repeats no
    criterion of the plan up to case. *)
Lemma amendment_keeps_earned_marks (body : string) (a : PlanAmendment) :
  plain_amendment a → one_checklist (lines body) → parse_dual_rows body ≠ [] →
  let '(out, report) := apply_amendment body a in
  ∃ texts, parse_dual_rows out = parse_dual_rows body ++ map (mkDualRow false false) texts
    ∧ length texts = length (rp_appended report) ∧ length texts ≤ MAX_APPENDED_CRITERIA
    ∧ ∀ t, t ∈ texts → t ≠ "" ∧ (∃ c, c ∈ am_appended a ∧ t = trim (nc_text c))
        ∧ ∀ row, row ∈ parse_dual_rows body → eq_ignore_ascii_case (trim (criterion row)) t = false.
Proof.
  intros [Hpa Hps] Hone Hne. unfold apply_amendment.
  pose proof (plan_appends_spec body (parse_dual_rows body) (am_appended a)) as Happ.
  destruct (plan_appends _ _ _) as [appended rej1]. destruct Happ as [Happ Hlen].
  set (edge_part := match parse_criterion_graph body with Some _ => _ | None => _ end).
  assert (Forall (λ s : N * list string, Forall newline_free s.2) edge_part.1.2) as Hscopes.
  { unfold edge_part. destruct (parse_criterion_graph body) as [g|]; [|constructor].
    pose proof (plan_scopes_free g _ Hps) as H. destruct (plan_edges _ _ _). by destruct (plan_scopes _ _). }
  destruct edge_part as [[edges scopes] rej2]. cbn [fst snd] in Hscopes. cbv zeta.
  pose proof (accepted_plain _ _ _ Hpa Happ) as Hok.
  assert (∀ t, t ∈ map nc_text appended → t ≠ "" ∧ (∃ c, c ∈ am_appended a ∧ t = trim (nc_text c))
    ∧ ∀ row, row ∈ parse_dual_rows body → eq_ignore_ascii_case (trim (criterion row)) t = false) as Htexts.
  { intros t (c & -> & Hc)%list_elem_of_fmap. rewrite Forall_forall in Happ.
    destruct (Happ c Hc) as (w & Hw & Ht & Hnt & _ & Hdup). split_and!; [done|by exists w|done]. }
  set (report := mkReport _ _ _ _). destruct (report_changed report) eqn:Hch; cbn [negb].
  - exists (map nc_text appended). split_and!; [|by cbn; rewrite !length_map, length_seq|by rewrite length_map|done].
    unfold parse_dual_rows at 1. rewrite rewrite_reads; [|by eapply Forall_impl; [exact Hok|]; intros ? [? _]|done].
    unfold last_line_in_section. pose proof (splice_rows (checklist_lines appended) (map (λ c, mkDualRow false false (nc_text c)) appended) 0
      (lines body) Hone) as Hsp.
    destruct Hsp as [Hnone Hsp].
    { intros open r. apply new_rows_read. eapply Forall_impl; [exact Hok|]. naive_solver. }
    rewrite Hsp, bool_decide_eq_false_2 by (intros E; apply Hne, Hnone, E). by rewrite map_map.
  - exists []. apply orb_false_iff in Hch as [[Hnil%negb_false_iff%is_nil_true _]%orb_false_iff _].
    cbn [rp_appended report] in *. rewrite Hnil. split_and!; [by rewrite app_nil_r|done|cbn; lia|by intros t ?%elem_of_nil].
Qed.

Definition demo_amendment : PlanAmendment :=
  mkAmendment [mkNewCriterion " docs " ["doc/"] [2%N]; mkNewCriterion "Builds" [] []] [(1%N, 2%N); (2%N, 1%N)]
    [(1%N, ["src/c"])].

Lemma amendment_keeps_earned_marks_witness :
  parse_dual_rows (apply_amendment amended_plan demo_amendment).1
  = [mkDualRow true true "builds"; mkDualRow true false "tests pass"; mkDualRow false false "docs"].
Proof.
  pose proof (amendment_keeps_earned_marks amended_plan demo_amendment) as H.
  assert (plain_amendment demo_amendment) as Hp by (split; repeat constructor).
  assert (one_checklist (lines amended_plan)) as Ho by (apply Nat.leb_le; vm_compute; reflexivity).
  specialize (H Hp Ho ltac:(by vm_compute)).
  destruct (apply_amendment amended_plan demo_amendment) as [out report] eqn:E.
  destruct H as (texts & Hrows & _). cbn [fst].
  assert (out = (apply_amendment amended_plan demo_amendment).1) as -> by by rewrite E. by vm_compute.
Defined.

Definition declared_demo : CriterionGraph := mkGraph [mkNode 1 [] ["src/a"]; mkNode 2 [1%N] ["src/b"]].

(** The second edge closes a cycle with the declared one, the last is new. *)
Lemma accepted_edges_keep_schedule_witness :
  ∃ g, edges_go 3 (extended_graph declared_demo 3) [(1%N, 2%N); (3%N, 2%N)]
       = (g, [(3%N, 2%N)], [EdgeWouldCycle 1 2]) ∧ is_Some (parallel_waves g).
Proof.
  pose proof (accepted_edges_keep_schedule declared_demo 3 [(1%N, 2%N); (3%N, 2%N)]) as H. cbv zeta in H.
  assert (NoDup (map number (nodes declared_demo))) as Hnd.
  { apply bool_decide_unpack with (dec := NoDup_dec _). by vm_compute. }
  specialize (H Hnd). destruct (edges_go _ _ _) as [[g applied] rejected] eqn:E.
  destruct H as (_ & _ & _ & _ & _ & Hw & _).
  exists g. split; [|apply Hw; vm_compute; by eexists].
  revert E. vm_compute. by intros [= <- <- <-].
Defined.
