(* ===== verification/SkepticPanel.v ===== *)
(** * The skeptic panel ([goal_classifier.rs])

    Verification asks a panel of adversarial skeptics. This file models what the
    harness makes of their answers: the verdict JSON and the terminal token, the
    vote of one skeptic with every failure path, the quorum, the gaps the
    implementer is shown, the stall fingerprint, and the stage that ties them
    together. The skeptics, the JSON reader and the file system are arguments;
    the rendering of their prompts and latencies are left out. *)

From Stdlib Require Import Ascii String.
From S2P Require Import Prelude RustStr CriterionGraph AuditParse Progress CriteriaView GoalTracker.
From stdpp Require Import options.

Definition GOAL_VERIFIER_SKEPTIC_MIN : N := 1.
Definition GOAL_VERIFIER_SKEPTIC_MAX : N := 5.

(** [expand_skeptic_assignment] *)
Definition expand_skeptic_assignment {A} (existing pool : list A) (n : nat) : list A :=
  if is_nil pool || (n <=? length existing) then existing
  else existing ++ omap (λ i, pool !! (i `mod` length pool)) (seq (length existing) (n - length existing)).

(** ** Labels *)

Inductive SkepticConfidence : Type := High | Medium | Low | Unknown.
#[export] Instance SkepticConfidence_eq_dec : EqDecision SkepticConfidence.
Proof. solve_decision. Defined.

(** [SkepticConfidence::parse] *)
Definition confidence_parse (s : string) : SkepticConfidence :=
  let t := to_ascii_lowercase (trim s) in
  if String.eqb t "high" then High
  else if String.eqb t "medium" then Medium
  else if String.eqb t "low" then Low
  else Unknown.

Definition confidence_as_const_str (c : SkepticConfidence) : string :=
  match c with High => "high" | Medium => "medium" | Low => "low" | Unknown => "unknown" end.

Definition rank (c : SkepticConfidence) : nat :=
  match c with High => 0 | Medium => 1 | Low => 2 | Unknown => 3 end.

(** [SkepticBlocking]; its [None] is [NotBlocking] here. *)
Inductive SkepticBlocking : Type := NotBlocking | Contradiction | Unverifiable.
#[export] Instance SkepticBlocking_eq_dec : EqDecision SkepticBlocking.
Proof. solve_decision. Defined.

(** [SkepticBlocking::parse] *)
Definition blocking_parse (s : string) : SkepticBlocking :=
  let t := to_ascii_lowercase (trim s) in
  if String.eqb t "contradiction" then Contradiction
  else if String.eqb t "unverifiable" then Unverifiable
  else NotBlocking.

Definition is_blocking (b : SkepticBlocking) : bool :=
  match b with NotBlocking => false | _ => true end.

Record Finding : Type := mkSkepticFinding {
  sf_kind : string;
  sf_location : string;
  sf_criterion : option N;
  sf_detail : string;
}.

(** [Finding::is_empty] *)
Definition finding_is_empty (f : Finding) : bool :=
  is_empty (trim (sf_kind f)) && is_empty (trim (sf_location f)) && is_empty (trim (sf_detail f)).

Record SkepticVerdict : Type := mkVerdict {
  sv_refuted : bool;
  sv_evidence : string;
  sv_confidence : SkepticConfidence;
  sv_blocking : SkepticBlocking;
  sv_details_md : string;
  sv_findings : list Finding;
}.

(** ** The verdict JSON *)

(** [deserialize_criterion] *)
Definition deserialize_criterion (v : Value) : option N :=
  let n := match v with
           | Num n => as_u64 n
           | Str s => first_integer s
           | _ => None
           end in
  match n with
  | Some n => if (n <=? u32_max)%N && (0 <? n)%N then Some n else None
  | None => None
  end.

(** The derived reader of [Finding]. *)
Definition read_finding (v : Value) : option Finding :=
  match serde_fields ["kind"; "location"; "criterion"; "detail"] v with
  | Some [k; l; c; d] =>
      kind ← string_field k; loc ← string_field l; detail ← string_field d;
      Some (mkSkepticFinding kind loc (c ≫= deserialize_criterion) detail)
  | _ => None
  end.

Definition read_findings (v : Value) : option (list Finding) :=
  match v with Array l => mapM read_finding l | _ => None end.

(** ** The terminal token *)

(** [parse_skeptic_terminal_response] *)
Definition parse_skeptic_terminal_response (text : string) : option bool :=
  let ls := map trim (lines text) in
  let ls := bfilter (λ l, negb (starts_with "```" l)) ls in
  let ls := map (λ l, trim (trim_end_chars ["."%char; "!"%char] (trim_matches "`"%char l))) ls in
  match bfilter (λ l, negb (is_empty l)) ls with
  | [l] => if String.eqb l "Refuted" then Some true
           else if String.eqb l "Not Refuted" then Some false
           else None
  | _ => None
  end.

(** ** One vote *)

Record SkepticResult : Type := mkResult {
  skeptic_idx : N;
  refuted : bool;
  confidence : SkepticConfidence;
  blocking : SkepticBlocking;
  sk_evidence : string;
  sk_findings : list Finding;
  fallback_note : option string;
}.

Inductive SpawnError : Type :=
| Transport (d : string)
| Runtime (message : string) (cancelled : bool).

(** What a spawned skeptic leaves behind: its terminal response, its verdict
    file if it can be read, and whether its report file is missing or blank. *)
Record SkepticReply : Type := mkReply {
  terminal : result string SpawnError;
  verdict_file : option string;
  report_blank : bool;
}.

(** [skeptic_failure] *)
Definition skeptic_failure (idx : N) (note : string) : SkepticResult :=
  mkResult idx true Unknown NotBlocking "" [] (Some note).

Definition bool_str (b : bool) : string := if b then "true" else "false".

(** ** The classifier's artifact paths *)

(** [scratch_rooted] *)
Definition scratch_rooted (temp vid file : string) : string :=
  path_join (path_join temp ("grok-goal-" +:+ vid)) file.

Definition format_details_path (temp vid : string) (attempt : N) : string :=
  scratch_rooted temp vid
    (replace_str "{attempt}" (pretty attempt)
       (replace_str "{verifier_id}" vid "goal-classifier-{verifier_id}-{attempt}.md")).
Definition format_changes_path (temp vid : string) (attempt : N) : string :=
  scratch_rooted temp vid
    (replace_str "{attempt}" (pretty attempt)
       (replace_str "{verifier_id}" vid "goal-classifier-{verifier_id}-{attempt}.patch")).
Definition format_verdict_path (temp vid : string) (attempt idx : N) : string :=
  scratch_rooted temp vid
    (replace_str "{skeptic_idx}" (pretty idx) (replace_str "{attempt}" (pretty attempt)
       (replace_str "{verifier_id}" vid "goal-verdict-{verifier_id}-{attempt}-{skeptic_idx}.json"))).
Definition format_verifier_details_path (temp vid : string) (attempt idx : N) : string :=
  scratch_rooted temp vid
    (replace_str "{skeptic_idx}" (pretty idx) (replace_str "{attempt}" (pretty attempt)
       (replace_str "{verifier_id}" vid "goal-classifier-{verifier_id}-{attempt}-skeptic-{skeptic_idx}.md"))).

Inductive PathValidationError : Type :=
| UnsafeComponent
| UnresolvedSubstitution
| OutsideAllowedPrefix.

Definition nul : string := String "000" EmptyString.

(** [validate_details_path_in_root] *)
Definition validate_details_path_in_root (path temp_root : string) : result unit PathValidationError :=
  if str_contains ".." path || str_contains nul path then Err UnsafeComponent
  else if any (λ p, starts_with p path) ["/etc"; "/proc"; "/sys"; "/dev"] then Err UnsafeComponent
  else if starts_with "~" path then Err UnsafeComponent
  else if str_contains "${" path || str_contains "{" path || str_contains "}" path
  then Err UnresolvedSubstitution
  else if negb (path_starts_with path temp_root) then Err OutsideAllowedPrefix
  else Ok tt.

Definition path_ok (path temp_root : string) : bool :=
  match validate_details_path_in_root path temp_root with Ok _ => true | Err _ => false end.

Section reader.
(** serde_json's reader, up to the tree of the document; duplicate keys are kept. *)
Context (read_document : string → option Value).

(** [parse_verdict_json] *)
Definition parse_verdict_json (body : string) : option SkepticVerdict :=
  doc ← read_document (trim body);
  match serde_fields ["refuted"; "evidence"; "confidence"; "blocking"; "details_md"; "findings"] doc with
  | Some [r; e; c; b; d; f] =>
      refuted ← opt_field as_bool r; evidence ← opt_field as_str e; confidence ← opt_field as_str c;
      blocking ← opt_field as_str b; details_md ← opt_field as_str d; findings ← opt_field read_findings f;
      refuted ← refuted; evidence ← evidence;
      if is_empty (trim evidence) then None
      else
        confidence ← confidence;
        Some (mkVerdict refuted evidence (confidence_parse confidence)
                (default NotBlocking (blocking_parse <$> blocking)) (default "" details_md)
                (bfilter (λ f, negb (finding_is_empty f)) (default [] findings)))
  | _ => None
  end.

(** [read_skeptic_verdict]: the vote, and the body written to the skeptic's
    report when it left none. *)
Definition read_skeptic_verdict (idx : N) (reply : SkepticReply) (response : string)
    : SkepticResult * option string :=
  match verdict_file reply ≫= parse_verdict_json with
  | Some v =>
      (mkResult idx (sv_refuted v) (sv_confidence v) (sv_blocking v) (sv_evidence v) (sv_findings v) None,
       if report_blank reply && negb (is_empty (trim (sv_details_md v)))
       then Some (sv_details_md v) else None)
  | None =>
      match parse_skeptic_terminal_response response with
      | Some r =>
          (mkResult idx r Unknown NotBlocking "" []
             (Some "verdict JSON missing/malformed; used terminal token"), None)
      | None =>
          (skeptic_failure idx
             ("verdict JSON missing/malformed AND terminal token unrecognised: "
              +:+ take_chars 120 response), None)
      end
  end.

(** What the panel finds outside: whether each skeptic's scratch root can be
    secured (with the error otherwise), the temporary directory, and each
    spawn's reply, cold or resumed from a session. *)
Record PanelEnv : Type := mkPanelEnv {
  pe_temp : string;
  secure_root : N → result unit string;
  spawn_classifier : N → option string → SkepticReply;
}.

(** [run_one_skeptic] *)
Definition run_one_skeptic (env : PanelEnv) (vid : string) (attempt idx : N) (resume_from : option string)
    : SkepticResult * option string :=
  match secure_root env idx with
  | Err err => (skeptic_failure idx ("internal: could not secure the goal scratch root: " +:+ err), None)
  | Ok _ =>
      if negb (path_ok (format_verifier_details_path (pe_temp env) vid attempt idx) (pe_temp env)
               && path_ok (format_verdict_path (pe_temp env) vid attempt idx) (pe_temp env))
      then (skeptic_failure idx "internal: unsafe per-skeptic file path", None)
      else
        let cold :=
          let reply := spawn_classifier env idx None in
          match terminal reply with
          | Ok response => read_skeptic_verdict idx reply response
          | Err (Transport d) => (skeptic_failure idx ("transport error: " +:+ d), None)
          | Err (Runtime message cancelled) =>
              (skeptic_failure idx ("runtime error (cancelled=" +:+ bool_str cancelled +:+ "): " +:+ message), None)
          end in
        match resume_from with
        | Some prior =>
            let reply := spawn_classifier env idx (Some prior) in
            match terminal reply with
            | Ok response => read_skeptic_verdict idx reply response
            | Err _ => cold
            end
        | None => cold
        end
  end.
End reader.

(** ** The quorum *)

(** [aggregate_skeptic_verdicts]: how many refuted, how many there are, and
    whether the quorum approves. *)
Definition aggregate_skeptic_verdicts (results : list SkepticResult) : N * N * bool :=
  let total := as_u32 (length results) in
  if (total =? 0)%N then (0%N, 0%N, false)
  else
    let refuted_count := as_u32 (length (bfilter refuted results)) in
    let '(needed, not_refuted) :=
      if (total <=? 1)%N then (1%N, (total - refuted_count)%N)
      else
        let cold_count := as_u32 (length (bfilter (λ r, (1 <=? skeptic_idx r)%N) results)) in
        let cold_not_refuted :=
          as_u32 (length (bfilter (λ r, (1 <=? skeptic_idx r)%N && negb (refuted r)) results)) in
        ((cold_count / 2 + 1)%N, cold_not_refuted) in
    (refuted_count, total, (needed <=? not_refuted)%N).

(** ** Gaps *)

Definition GAPS_EVIDENCE_MAX_CHARS : nat := 800.
Definition GAPS_MAX_FINDINGS : nat := 12.

(** [cap_chars] *)
Definition cap_chars (text : string) (max_chars : nat) : string :=
  if max_chars <? char_count text then take_chars max_chars text +:+ "…" else text.

Definition zero_width_space : string := byte_str [226; 128; 139].

(** [neutralize_reminder_tags] *)
Definition neutralize_reminder_tags (text : string) : string :=
  replace_str "<goal-state>" ("<" +:+ zero_width_space +:+ "goal-state>")
    (replace_str "</goal-state>" ("<" +:+ zero_width_space +:+ "/goal-state>")
      (replace_str "<system-reminder>" ("<" +:+ zero_width_space +:+ "system-reminder>")
        (replace_str "</system-reminder>" ("<" +:+ zero_width_space +:+ "/system-reminder>") text))).

(** [sanitize_evidence] *)
Definition sanitize_evidence (evidence : string) : string :=
  neutralize_reminder_tags (cap_chars (trim evidence) GAPS_EVIDENCE_MAX_CHARS).

(** [render_finding] *)
Definition render_finding (f : Finding) : string :=
  let loc := trim (sf_location f) in
  let detail := trim (sf_detail f) in
  let kind := if is_empty (trim (sf_kind f)) then "finding" else trim (sf_kind f) in
  let tail := match is_empty loc, is_empty detail with
              | false, false => kind +:+ " · " +:+ loc +:+ " — " +:+ detail
              | false, true => kind +:+ " · " +:+ loc
              | true, false => kind +:+ " — " +:+ detail
              | true, true => kind
              end in
  match sf_criterion f with
  | Some c => "criterion " +:+ pretty c +:+ " · " +:+ sanitize_evidence tail
  | None => sanitize_evidence tail
  end.

(** [render_refuter_bullet] *)
Definition render_refuter_bullet (r : SkepticResult) : string :=
  let header := "- [skeptic " +:+ pretty (skeptic_idx r) +:+ ", "
                +:+ confidence_as_const_str (confidence r) +:+ "]" in
  if negb (is_nil (sk_findings r)) then
    header +:+ nl +:+ join nl (map (λ f, "  - " +:+ render_finding f) (take GAPS_MAX_FINDINGS (sk_findings r)))
  else
    let evidence := trim (sk_evidence r) in
    if negb (is_empty evidence) then header +:+ " " +:+ sanitize_evidence evidence
    else match fallback_note r with
         | Some note => "- [skeptic " +:+ pretty (skeptic_idx r) +:+ "] no verdict produced: "
                        +:+ sanitize_evidence note
         | None => "- [skeptic " +:+ pretty (skeptic_idx r) +:+ "] refuted (no evidence)"
         end.

Definition by_rank (a b : SkepticResult) : Prop := rank (confidence a) ≤ rank (confidence b).
#[export] Instance by_rank_dec : RelDecision by_rank.
Proof. intros a b. unfold by_rank. apply _. Defined.

(** [refuters_by_confidence] *)
Definition refuters_by_confidence (results : list SkepticResult) : list SkepticResult :=
  stable_sort by_rank (bfilter refuted results).

(** [build_gaps_summary] *)
Definition build_gaps_summary (results : list SkepticResult) : string :=
  join nl (map render_refuter_bullet (refuters_by_confidence results)).

(** [build_gaps_findings] *)
Definition build_gaps_findings (results : list SkepticResult) : list ClassifierFinding :=
  mjoin (map (λ r, map (λ f, mkClassifierFinding (sf_criterion f) (render_finding f))
                     (take GAPS_MAX_FINDINGS (sk_findings r)))
           (refuters_by_confidence results)).

Definition PAUSE_GROUP_FIXABLE : string := "Model-fixable gaps".
Definition PAUSE_GROUP_CONTRADICTION : string := "Contradictions (objective/plan conflict)".
Definition PAUSE_GROUP_UNVERIFIABLE : string := "Unverifiable in this environment".

(** [build_pause_summary] *)
Definition build_pause_summary (results : list SkepticResult) : string :=
  let refuters := refuters_by_confidence results in
  join nl (omap (λ '(class, header),
    let bullets := map render_refuter_bullet (bfilter (λ r, bool_decide (blocking r = class)) refuters) in
    if is_nil bullets then None else Some (header +:+ ":" +:+ nl +:+ join nl bullets))
    [(NotBlocking, PAUSE_GROUP_FIXABLE); (Contradiction, PAUSE_GROUP_CONTRADICTION);
     (Unverifiable, PAUSE_GROUP_UNVERIFIABLE)]).

(** ** The stall fingerprint *)

Definition SCRATCH_MARKERS : list string := ["/tmp/"; "/var/folders/"; "/private/tmp/"].

(** [normalize_scratch_paths] *)
Definition normalize_scratch_paths (text : string) : string :=
  let marked t := any (λ m, str_contains m t) SCRATCH_MARKERS in
  if negb (marked text) then text
  else join " " (map (λ tok, if marked tok then "<scratch>" else tok) (split_whitespace text)).

Definition is_ascii_alphanumeric (c : ascii) : bool :=
  let n := nat_of_ascii c in
  ((48 <=? n) && (n <=? 57)) || ((65 <=? n) && (n <=? 90)) || ((97 <=? n) && (n <=? 122)).

(** The closure of [extract_path_line_tokens] on one word. *)
Definition path_line_token (raw : string) : option string :=
  let word := trim_matches_pred
    (λ c, negb (is_ascii_alphanumeric c) && negb (contains c ["."; "/"; "_"; "-"; ":"]%char)) raw in
  '(path, rest) ← split_once_char ":" word;
  let line := match split_once_char ":" rest with Some (l, _) => l | None => rest end in
  let path_ok := negb (is_empty path) && (str_contains "/" path || str_contains "." path) in
  let line_ok := negb (is_empty line) && all_chars is_ascii_digit line in
  if path_ok && line_ok then Some (to_ascii_lowercase path +:+ ":" +:+ line) else None.

Definition extract_path_line_tokens (text : string) : list string :=
  omap path_line_token (split_whitespace text).

(** [gap_fingerprint] *)
Definition gap_fingerprint (raw_evidence : list string) : string :=
  let normalized := map normalize_scratch_paths raw_evidence in
  let tokens := mjoin (map extract_path_line_tokens normalized) in
  let tokens := if is_nil tokens
                then bfilter (λ e, negb (is_empty e)) (map (λ e, to_ascii_lowercase (trim e)) normalized)
                else tokens in
  join nl (dedup (sort_strings tokens)).

(** [refuter_fingerprint_source] *)
Definition refuter_fingerprint_source (r : SkepticResult) : string :=
  if is_empty (trim (sk_evidence r)) then default "" (fallback_note r) else sk_evidence r.

(** ** The stage *)

Inductive GoalClassifierFailOpenReason : Type :=
| Timeout | SamplerError | Aborted | FileWriteFailed | GoalNotActiveAtResolve.

Definition fail_open_as_const_str (r : GoalClassifierFailOpenReason) : string :=
  match r with
  | Timeout => "timeout"
  | SamplerError => "sampler_error"
  | Aborted => "aborted"
  | FileWriteFailed => "file_write_failed"
  | GoalNotActiveAtResolve => "goal_not_active_at_resolve"
  end.

(** [GoalClassifierOutcome] *)
Inductive GoalClassifierOutcome : Type :=
| OutAchieved (details_path : string)
| OutNotAchieved (details_path gaps_summary : string) (gaps_findings : list ClassifierFinding)
    (pause_summary fingerprint : string)
| OutBlocked (details_path pause_summary : string)
| OutFailOpenAchieved (reason : GoalClassifierFailOpenReason) (details_path : string).

Definition by_idx (a b : SkepticResult) : Prop := (skeptic_idx a ≤ skeptic_idx b)%N.
#[export] Instance by_idx_dec : RelDecision by_idx.
Proof. intros a b. unfold by_idx. apply _. Defined.

(** [render_skeptic_panel_details], before the cap. *)
Definition panel_details_body (results : list SkepticResult) (refuted_count total : N) (achieved : bool)
    (temp vid : string) (attempt : N) : string :=
  let headline :=
    if achieved
    then "# Goal verification — Achieved" +:+ nl +:+ nl +:+ pretty refuted_count +:+ " of " +:+ pretty total
         +:+ " skeptics refuted; survives the panel." +:+ nl +:+ nl
    else "# Goal verification — Not Achieved" +:+ nl +:+ nl +:+ pretty refuted_count +:+ " of " +:+ pretty total
         +:+ " skeptics refuted; panel rejected the claim." +:+ nl +:+ nl in
  let paths := map (λ r, format_verifier_details_path temp vid attempt (skeptic_idx r))
                 (stable_sort by_idx results) in
  let gaps := build_gaps_summary results in
  headline
  +:+ (if negb achieved && negb (is_empty gaps) then "## Gaps to fix" +:+ nl +:+ nl +:+ gaps +:+ nl +:+ nl else "")
  +:+ (if is_nil paths then ""
       else (if achieved then "Per-skeptic reports: "
             else "Fix the gaps above — they are what matters. For the full reasoning behind each, open the per-skeptic report files: ")
            +:+ join ", " paths +:+ nl).

(** The loop that walks the cut back to a character boundary. *)
Fixpoint boundary_below (cut : nat) (body : string) : nat :=
  match cut with
  | O => O
  | S k => if is_char_boundary cut body then cut else boundary_below k body
  end.

(** [cap_panel_details] *)
Definition cap_panel_details (body : string) : string :=
  let max := N.to_nat GOAL_VERIFIER_PANEL_MAX_BYTES in
  if String.length body <=? max then body
  else
    let cut := boundary_below max body in
    take_bytes cut body +:+ nl +:+ "... (panel details truncated, "
    +:+ pretty (String.length body - cut) +:+ " bytes elided) ..." +:+ nl.

Definition render_skeptic_panel_details (results : list SkepticResult) (refuted_count total : N)
    (achieved : bool) (temp vid : string) (attempt : N) : string :=
  cap_panel_details (panel_details_body results refuted_count total achieved temp vid attempt).

(** What the stage finds outside before the panel: whether the scratch root can
    be secured, whether the change capture succeeded and its patch could be
    written, and whether a placeholder is on disk after a fail-open. *)
Inductive ChangesCapture : Type := ChangesWritten | ChangesUnavailable | PatchWriteFailed.

Record StageEnv : Type := mkStageEnv {
  se_panel : PanelEnv;
  root_secured : bool;
  changes_capture : ChangesCapture;
  placeholder_on_disk : bool;
  fresh_session : string;        (* the uuid of skeptic 0's session *)
}.

Record StageInputs : Type := mkStageInputs {
  si_verifier_id : string;
  si_attempt : N;
  si_skeptic_count : N;
  si_prior_skeptic0 : option string;
}.

(** [VerificationStageResult], with the files written: the panel's details, and
    the reports of skeptics that left none. *)
Record VerificationStageResult : Type := mkStageResult {
  outcome : GoalClassifierOutcome;
  vs_skeptic0_session_id : option string;
  panel_ran : bool;
  details_body : option string;
  report_writes : list (N * string);
}.

(** [record_fail_open], and the conversion to a stage result. *)
Definition stage_fail_open (env : StageEnv) (reason : GoalClassifierFailOpenReason) (resolved : bool) (details_raw : string)
    : VerificationStageResult :=
  mkStageResult
    (OutFailOpenAchieved reason (if resolved && placeholder_on_disk env then details_raw else "")) None false None [].

Section stage.
Context (read_document : string → option Value).

(** The escalating panel of [run_verification_stage]: the votes (with the report
    each one still had to be written), whether skeptic 0's refute is decisive,
    and its session. *)
Definition run_panel (env : StageEnv) (inputs : StageInputs)
    : list (SkepticResult * option string) * bool * option string :=
  let n := N.max GOAL_VERIFIER_SKEPTIC_MIN (N.min (si_skeptic_count inputs) GOAL_VERIFIER_SKEPTIC_MAX) in
  let one idx resume_from :=
    run_one_skeptic read_document (se_panel env) (si_verifier_id inputs) (si_attempt inputs) idx resume_from in
  if (1 <? n)%N then
    let first := one 0%N (si_prior_skeptic0 inputs) in
    let high_refute := refuted first.1 && bool_decide (confidence first.1 = High) in
    if high_refute && negb (is_blocking (blocking first.1))
    then ([first], true, Some (fresh_session env))
    else (first :: map (λ i, one (N.of_nat i) None) (seq 1 (N.to_nat n - 1)), high_refute, Some (fresh_session env))
  else (map (λ i, one (N.of_nat i) None) (seq 0 (N.to_nat n)), false, None).

(** The outcome the results lead to. *)
Definition panel_outcome (results : list SkepticResult) (achieved : bool) (details_raw : string)
    : GoalClassifierOutcome :=
  if achieved then OutAchieved details_raw
  else
    let refuters := bfilter refuted results in
    if negb (is_nil refuters) && all (λ r, is_blocking (blocking r)) refuters
    then OutBlocked details_raw (build_pause_summary results)
    else OutNotAchieved details_raw (build_gaps_summary results) (build_gaps_findings results)
           (build_pause_summary results) (gap_fingerprint (map refuter_fingerprint_source refuters)).

(** [run_verification_stage] *)
Definition run_verification_stage (env : StageEnv) (inputs : StageInputs) : VerificationStageResult :=
  let temp := pe_temp (se_panel env) in
  let details_raw := format_details_path temp (si_verifier_id inputs) (si_attempt inputs) in
  let changes_raw := format_changes_path temp (si_verifier_id inputs) (si_attempt inputs) in
  if negb (path_ok details_raw temp) then stage_fail_open env FileWriteFailed false ""
  else if negb (root_secured env) then stage_fail_open env FileWriteFailed false ""
  else if negb (path_ok changes_raw temp) then stage_fail_open env FileWriteFailed true details_raw
  else match changes_capture env with
       | PatchWriteFailed => stage_fail_open env FileWriteFailed true details_raw
       | ChangesWritten | ChangesUnavailable =>
           let '(votes, decisive_refute, skeptic0) := run_panel env inputs in
           let results := map fst votes in
           let '(refuted_count, total, quorum_achieved) := aggregate_skeptic_verdicts results in
           let achieved := quorum_achieved && negb decisive_refute in
           mkStageResult (panel_outcome results achieved details_raw) skeptic0 true
             (Some (render_skeptic_panel_details results refuted_count total achieved temp
                      (si_verifier_id inputs) (si_attempt inputs)))
             (omap (λ v, (λ b, (skeptic_idx v.1, b)) <$> v.2) votes)
       end.
End stage.
