(* ===== verification/SkepticPanelFacts.v ===== *)
(** * What the skeptic panel guarantees

    When the panel approves and on whose votes, that a rejection always has a
    refuter to report, when two rounds have the same stall fingerprint, and that
    the skeptics' text cannot close the frame it is quoted in. *)

From Stdlib Require Import Ascii String.
From S2P Require Import Prelude RustStr TrimLemmas CriterionGraph GraphSchedule AuditParse Progress CriteriaView GoalTracker SkepticPanel.
From stdpp Require Import options.

(** ** One vote *)

Section vote.
Context (read_document : string → option Value).

(** A skeptic spoke for the claim: its spawn ended, and its verdict file, or
    failing a readable one its terminal response, says not refuted. *)
Definition genuine_approval (env : PanelEnv) (vid : string) (attempt idx : N) (prior : option string) : Prop :=
  (∃ u, secure_root env idx = Ok u)
  ∧ ∃ resumed response, (resumed = None ∨ resumed = prior)
    ∧ let reply := spawn_classifier env idx resumed in
      terminal reply = Ok response
      ∧ match verdict_file reply ≫= parse_verdict_json read_document with
        | Some v => sv_refuted v = false ∧ trim (sv_evidence v) ≠ ""
        | None => parse_skeptic_terminal_response response = Some false
        end.

Lemma parse_verdict_evidence body v :
  parse_verdict_json read_document body = Some v → trim (sv_evidence v) ≠ "".
Proof.
  unfold parse_verdict_json. destruct (read_document (trim body)) as [doc|]; [|done]. cbn [mbind option_bind].
  destruct (serde_fields _ doc) as [[|r [|e [|c [|b [|d [|f [|]]]]]]]|]; try done.
  destruct (opt_field as_bool r) as [r'|]; [|done]; cbn [mbind option_bind].
  destruct (opt_field as_str e) as [e'|]; [|done]; cbn [mbind option_bind].
  destruct (opt_field as_str c) as [c'|]; [|done]; cbn [mbind option_bind].
  destruct (opt_field as_str b) as [b'|]; [|done]; cbn [mbind option_bind].
  destruct (opt_field as_str d) as [d'|]; [|done]; cbn [mbind option_bind].
  destruct (opt_field read_findings f) as [f'|]; [|done]; cbn [mbind option_bind].
  destruct r' as [r'|]; [|done]. destruct e' as [e'|]; [|done]. cbn [mbind option_bind].
  destruct (is_empty (trim e')) eqn:E; [done|]. destruct c' as [c'|]; [|done]. cbn [mbind option_bind].
  intros [= <-]. cbn [sv_evidence]. intros H. by rewrite H in E.
Qed.

Lemma read_verdict_idx idx reply response :
  skeptic_idx (read_skeptic_verdict read_document idx reply response).1 = idx.
Proof.
  unfold read_skeptic_verdict. destruct (verdict_file reply ≫= _); [done|].
  by destruct (parse_skeptic_terminal_response response).
Qed.

Lemma run_one_idx env vid attempt idx prior :
  skeptic_idx (run_one_skeptic read_document env vid attempt idx prior).1 = idx.
Proof.
  unfold run_one_skeptic. destruct (secure_root env idx); [|done]. destruct (negb _); [done|].
  destruct prior as [p|]; [destruct (terminal (spawn_classifier env idx (Some p)));
    [apply read_verdict_idx|]|];
    (destruct (terminal (spawn_classifier env idx None)) as [|[]]; [apply read_verdict_idx|done..]).
Qed.

Lemma read_verdict_approves idx reply response :
  refuted (read_skeptic_verdict read_document idx reply response).1 = false →
  match verdict_file reply ≫= parse_verdict_json read_document with
  | Some v => sv_refuted v = false ∧ trim (sv_evidence v) ≠ ""
  | None => parse_skeptic_terminal_response response = Some false
  end.
Proof.
  unfold read_skeptic_verdict. destruct (verdict_file reply ≫= _) as [v|] eqn:E.
  - cbn. intros H. split; [exact H|].
    destruct (verdict_file reply) as [body|]; [|done]. by apply parse_verdict_evidence in E.
  - destruct (parse_skeptic_terminal_response response); cbn; [by intros ->|done].
Qed.

Lemma run_one_approves env vid attempt idx prior :
  refuted (run_one_skeptic read_document env vid attempt idx prior).1 = false →
  genuine_approval env vid attempt idx prior.
Proof.
  unfold run_one_skeptic, genuine_approval. destruct (secure_root env idx) as [u|]; [|done].
  destruct (negb _); [done|]. intros H. split; [by exists u|]. revert H.
  assert (refuted (match terminal (spawn_classifier env idx None) with
     | Ok response => read_skeptic_verdict read_document idx (spawn_classifier env idx None) response
     | Err (Transport d) => (skeptic_failure idx ("transport error: " +:+ d), None)
     | Err (Runtime message cancelled) =>
         (skeptic_failure idx ("runtime error (cancelled=" +:+ bool_str cancelled +:+ "): " +:+ message), None)
     end).1 = false → ∃ resumed response, (resumed = None ∨ resumed = prior)
    ∧ let reply := spawn_classifier env idx resumed in
      terminal reply = Ok response
      ∧ match verdict_file reply ≫= parse_verdict_json read_document with
        | Some v => sv_refuted v = false ∧ trim (sv_evidence v) ≠ ""
        | None => parse_skeptic_terminal_response response = Some false
        end) as Hcold.
  { destruct (terminal (spawn_classifier env idx None)) as [resp|[]] eqn:E; [|done..].
    intros H%read_verdict_approves. exists None, resp. by split_and!; [left|..]. }
  destruct prior as [p|]; [|exact Hcold].
  destruct (terminal (spawn_classifier env idx (Some p))) as [resp|e] eqn:E; [|exact Hcold].
  intros H%read_verdict_approves. exists (Some p), resp. by split_and!; [right|..].
Qed.
End vote.

(** ** The quorum *)

Definition cold (r : SkepticResult) : bool := (1 <=? skeptic_idx r)%N.

Lemma aggregate_many results :
  2 ≤ length results → (N.of_nat (length results) ≤ u32_max)%N →
  (aggregate_skeptic_verdicts results).2 = true ↔
    length (bfilter cold results) < 2 * length (bfilter (λ r, cold r && negb (refuted r)) results).
Proof.
  intros H2 Hm. pose proof (bfilter_length cold results) as Hc.
  pose proof (bfilter_length (λ r, cold r && negb (refuted r)) results) as Hn.
  unfold aggregate_skeptic_verdicts. change (λ r, (1 <=? skeptic_idx r)%N) with cold.
  change (λ r, (1 <=? skeptic_idx r)%N && negb (refuted r)) with (λ r, cold r && negb (refuted r)).
  set (total := length results) in *. set (a := length (bfilter cold results)) in *.
  set (b := length (bfilter (λ r, cold r && negb (refuted r)) results)) in *.
  rewrite (as_u32_small total), (as_u32_small a), (as_u32_small b) by lia.
  destruct (N.eqb_spec (N.of_nat total) 0); [lia|].
  destruct (N.leb_spec (N.of_nat total) 1); [lia|]. cbn [snd]. rewrite N.leb_le.
  clearbody a b total. pose proof (N.div_mod (N.of_nat a) 2 ltac:(lia)) as Hd. pose proof (N.mod_lt (N.of_nat a) 2 ltac:(lia)) as Hl.
  revert Hd Hl. generalize (N.of_nat a `div` 2)%N, (N.of_nat a `mod` 2)%N. intros q r Hd Hl. lia.
Qed.

Lemma aggregate_one r : (aggregate_skeptic_verdicts [r]).2 = negb (refuted r).
Proof. unfold aggregate_skeptic_verdicts, bfilter. cbn. by destruct (refuted r). Qed.

(** ** The panel *)

Definition panel_size (inputs : StageInputs) : nat :=
  N.to_nat (N.max GOAL_VERIFIER_SKEPTIC_MIN (N.min (si_skeptic_count inputs) GOAL_VERIFIER_SKEPTIC_MAX)).

(** The checks before the panel. *)
Definition stage_ready (env : StageEnv) (inputs : StageInputs) : bool :=
  let temp := pe_temp (se_panel env) in
  path_ok (format_details_path temp (si_verifier_id inputs) (si_attempt inputs)) temp
  && root_secured env
  && path_ok (format_changes_path temp (si_verifier_id inputs) (si_attempt inputs)) temp
  && match changes_capture env with PatchWriteFailed => false | _ => true end.

Section panel.
Context (read_document : string → option Value) (env : StageEnv) (inputs : StageInputs).

(** The vote of skeptic [i], skeptic 0 being resumed where a session is kept. *)
Definition vote (i : nat) : SkepticResult :=
  (run_one_skeptic read_document (se_panel env) (si_verifier_id inputs) (si_attempt inputs) (N.of_nat i)
     (if (1 <? panel_size inputs) && (i =? 0) then si_prior_skeptic0 inputs else None)).1.

Definition high_refute : bool := refuted (vote 0) && bool_decide (confidence (vote 0) = High).

Definition short_circuit : bool := high_refute && negb (is_blocking (blocking (vote 0))).

Lemma panel_size_bounds : 1 ≤ panel_size inputs ≤ 5.
Proof. unfold panel_size, GOAL_VERIFIER_SKEPTIC_MIN, GOAL_VERIFIER_SKEPTIC_MAX. lia. Qed.

Lemma vote_idx i : skeptic_idx (vote i) = N.of_nat i.
Proof. apply run_one_idx. Qed.

(** The results of the panel in terms of the votes. *)
Lemma run_panel_results :
  let '(votes, decisive, session) := run_panel read_document env inputs in
  map fst votes = (if (1 <? panel_size inputs) && short_circuit then [vote 0]
                   else map vote (seq 0 (panel_size inputs)))
  ∧ decisive = (1 <? panel_size inputs) && high_refute
  ∧ (is_Some session ↔ (1 < panel_size inputs)).
Proof.
  unfold run_panel. fold (panel_size inputs).
  set (n := N.max _ _). assert (panel_size inputs = N.to_nat n) as Hn by done.
  destruct (N.ltb_spec 1 n) as [Hlt|Hge].
  - assert ((1 <? panel_size inputs) = true) as Hb by (apply Nat.ltb_lt; lia).
    assert ((run_one_skeptic read_document (se_panel env) (si_verifier_id inputs) (si_attempt inputs) 0
       (si_prior_skeptic0 inputs)).1 = vote 0) as H0 by (unfold vote; by rewrite Hb).
    rewrite H0, Hb. fold high_refute. cbn [andb]. fold short_circuit.
    destruct short_circuit eqn:Es.
    + cbn [map]. rewrite H0. split_and!; [done| |split; [intros _; lia|intros _; by eexists]].
      unfold short_circuit in Es. by apply andb_true_iff in Es as [-> _].
    + cbn [map]. rewrite H0. split_and!; [|done|split; [intros _; lia|intros _; by eexists]].
      rewrite Hn. destruct (N.to_nat n) as [|k] eqn:E; [lia|]. cbn [seq map]. f_equal.
      replace (S k - 1) with k by lia. rewrite map_map. apply map_ext_in.
      intros i [_ Hi]%in_seq%and_comm. unfold vote. rewrite Hb.
      destruct i as [|i]; [lia|done].
  - assert ((1 <? panel_size inputs) = false) as Hb by (apply Nat.ltb_ge; lia).
    rewrite Hb. cbn [andb]. split_and!; [|done|split; [by intros [? ?]|lia]].
    rewrite map_map, Hn. apply map_ext. intros i. unfold vote. by rewrite Hb.
Qed.

Definition cold_skeptics : list nat := seq 1 (panel_size inputs - 1).

(** The cold skeptics that did not refute. *)
Definition cold_approvals : list nat := bfilter (λ i, negb (refuted (vote i))) cold_skeptics.

Lemma bfilter_map {A B} (f : B → bool) (g : A → B) l : bfilter f (map g l) = map g (bfilter (f ∘ g) l).
Proof. unfold bfilter. induction l as [|x l IH]; cbn; [done|]. destruct (f (g x)); cbn; by rewrite IH. Qed.

Lemma bfilter_all {A} (f : A → bool) l : (∀ x, x ∈ l → f x = true) → bfilter f l = l.
Proof.
  unfold bfilter. induction l as [|x l IH]; cbn; intros H; [done|].
  rewrite H by left. f_equal. apply IH. intros y Hy. apply H. by right.
Qed.

Lemma bfilter_skip {A} (f : A → bool) x l : f x = false → bfilter f (x :: l) = bfilter f l.
Proof. unfold bfilter. cbn. by intros ->. Qed.

Lemma bfilter_ext {A} (f g : A → bool) l : (∀ x, x ∈ l → f x = g x) → bfilter f l = bfilter g l.
Proof.
  unfold bfilter. induction l as [|x l IH]; cbn; intros H; [done|].
  rewrite H by left. rewrite IH; [done|]. intros y Hy. apply H. by right.
Qed.

Lemma full_panel_quorum :
  1 < panel_size inputs →
  (aggregate_skeptic_verdicts (map vote (seq 0 (panel_size inputs)))).2 = true ↔
    length cold_skeptics < 2 * length cold_approvals.
Proof.
  intros Hn. pose proof panel_size_bounds as Hb. rewrite aggregate_many; rewrite ?length_map, ?length_seq;
    [|lia|unfold u32_max; lia].
  rewrite !bfilter_map, !length_map.
  destruct (panel_size inputs) as [|k] eqn:E; [lia|]. cbn [seq].
  assert (cold (vote 0) = false) as H0 by (unfold cold; by rewrite vote_idx).
  assert (∀ i, i ∈ seq 1 k → cold (vote i) = true) as Hc.
  { intros i [Hi _]%elem_of_seq. unfold cold. rewrite vote_idx. apply N.leb_le. lia. }
  unfold cold_approvals, cold_skeptics. rewrite E. replace (S k - 1) with k by lia.
  rewrite !bfilter_skip by (cbn; by rewrite ?H0).
  rewrite (bfilter_all (cold ∘ vote)) by done.
  rewrite (bfilter_ext _ (λ i, negb (refuted (vote i))) (seq 1 k)); [done|].
  intros i Hi. cbn. by rewrite Hc.
Qed.
End panel.

(** ** Approving *)

Section approval.
Context (read_document : string → option Value) (env : StageEnv) (inputs : StageInputs).

Local Abbreviation vote_of := (vote read_document env inputs).

Lemma not_ready_fails_open :
  stage_ready env inputs = false →
  ∃ d, outcome (run_verification_stage read_document env inputs) = OutFailOpenAchieved FileWriteFailed d
    ∧ panel_ran (run_verification_stage read_document env inputs) = false.
Proof.
  unfold stage_ready, run_verification_stage.
  destruct (path_ok (format_details_path _ _ _) _); cbn [negb andb]; [|by intros _; eexists].
  destruct (root_secured env); cbn [negb andb]; [|by intros _; eexists].
  destruct (path_ok (format_changes_path _ _ _) _); cbn [negb andb]; [|by intros _; eexists].
  destruct (changes_capture env); [done..|]. intros _. by eexists.
Qed.

(** The panel's results, its approval, and the outcome. *)
Definition panel_results : list SkepticResult :=
  if (1 <? panel_size inputs) && short_circuit read_document env inputs then [vote_of 0]
  else map vote_of (seq 0 (panel_size inputs)).

Definition panel_approves : bool :=
  (aggregate_skeptic_verdicts panel_results).2
  && negb ((1 <? panel_size inputs) && high_refute read_document env inputs).

Lemma ready_outcome :
  stage_ready env inputs = true →
  let details := format_details_path (pe_temp (se_panel env)) (si_verifier_id inputs) (si_attempt inputs) in
  outcome (run_verification_stage read_document env inputs) = panel_outcome panel_results panel_approves details
  ∧ panel_ran (run_verification_stage read_document env inputs) = true.
Proof.
  unfold stage_ready, run_verification_stage. intros H. bools.
  repeat match goal with Hb : _ = true |- _ => rewrite Hb; clear Hb; cbn [negb] end.
  pose proof (run_panel_results read_document env inputs) as Hp.
  destruct (run_panel read_document env inputs) as [[votes decisive] session].
  destruct Hp as (Hv & Hd & _). fold panel_results in Hv. rewrite Hv, Hd. unfold panel_approves.
  destruct (aggregate_skeptic_verdicts panel_results) as [[rc total] q].
  by destruct (changes_capture env).
Qed.

Lemma panel_outcome_achieved results b d d' :
  panel_outcome results b d = OutAchieved d' ↔ b = true ∧ d' = d.
Proof.
  unfold panel_outcome. destruct b; [split; [by intros [= <-]|by intros [_ ->]]|].
  by destruct (_ && _); split; [|intros [? _]| |intros [? _]].
Qed.

Lemma panel_approves_spec :
  panel_approves = true ↔
    if 1 <? panel_size inputs
    then high_refute read_document env inputs = false
         ∧ length (cold_skeptics inputs) < 2 * length (cold_approvals read_document env inputs)
    else refuted (vote_of 0) = false.
Proof.
  unfold panel_approves, panel_results, short_circuit. pose proof (panel_size_bounds inputs) as Hb.
  destruct (Nat.ltb_spec 1 (panel_size inputs)) as [Hlt|Hge].
  - destruct (high_refute read_document env inputs); cbn [negb andb].
    + rewrite andb_false_r. naive_solver.
    + rewrite andb_true_r, full_panel_quorum by done. naive_solver.
  - cbn [andb negb]. replace (panel_size inputs) with 1 by lia. cbn [seq map].
    by rewrite aggregate_one, andb_true_r, negb_true_iff.
Qed.

(** A panel that does not approve has a refuter. *)
Lemma rejected_has_refuter : panel_approves = false → bfilter refuted panel_results ≠ [].
Proof.
  intros Hr Hnil. assert (∀ r, r ∈ panel_results → refuted r = false) as Hno.
  { intros r Hin. apply not_true_iff_false. intros Ht.
    assert (r ∈ bfilter refuted panel_results) as Hb by (by apply elem_of_bfilter).
    rewrite Hnil in Hb. by apply elem_of_nil in Hb. }
  apply not_true_iff_false in Hr. apply Hr. apply panel_approves_spec.
  pose proof (panel_size_bounds inputs) as Hb.
  assert (vote_of 0 ∈ panel_results) as H0.
  { unfold panel_results. destruct (_ && _); [left|]. apply list_elem_of_fmap_2. apply elem_of_seq. lia. }
  apply Hno in H0. assert (high_refute read_document env inputs = false) as Hh by (unfold high_refute; by rewrite H0).
  destruct (Nat.ltb_spec 1 (panel_size inputs)) as [Hlt|]; [|done]. split; [done|].
  assert (cold_approvals read_document env inputs = cold_skeptics inputs) as ->.
  { unfold cold_approvals. apply bfilter_all. intros i [Hi1 Hi2]%elem_of_seq. apply negb_true_iff, Hno.
    unfold panel_results, short_circuit. rewrite Hh, andb_false_r. apply list_elem_of_fmap_2, elem_of_seq. lia. }
  unfold cold_skeptics. rewrite length_seq. lia.
Qed.

(** What it takes for the stage to approve. *)
Definition stage_approves : Prop :=
  stage_ready env inputs = true
  ∧ if 1 <? panel_size inputs
    then high_refute read_document env inputs = false
         ∧ length (cold_skeptics inputs) < 2 * length (cold_approvals read_document env inputs)
    else refuted (vote_of 0) = false.

Lemma stage_achieves (d : string) :
  outcome (run_verification_stage read_document env inputs) = OutAchieved d ↔
    d = format_details_path (pe_temp (se_panel env)) (si_verifier_id inputs) (si_attempt inputs)
    ∧ stage_approves.
Proof.
  unfold stage_approves. destruct (stage_ready env inputs) eqn:Hr.
  - destruct (ready_outcome Hr) as [-> _]. rewrite panel_outcome_achieved, panel_approves_spec. naive_solver.
  - destruct (not_ready_fails_open Hr) as (d' & -> & _). naive_solver.
Qed.

(** C8: Approval takes an honest majority. The stage answers Achieved exactly when
    its paths, scratch root and patch are in order and, for a panel of two or
    more, skeptic 0 did not refute with high confidence and more than half of the
    other skeptics did not refute - skeptic 0's own approval counts for nothing -
    while a lone judge must not refute. A skeptic counts as not refuting only if
    its session ended and it said so, in a readable verdict file with non-blank
    evidence or, failing one, with the exact terminal token: no spawn error,
    unreadable answer or unsecured directory ever approves. *)
Theorem panel_approval (d : string) :
  (outcome (run_verification_stage read_document env inputs) = OutAchieved d ↔
    d = format_details_path (pe_temp (se_panel env)) (si_verifier_id inputs) (si_attempt inputs)
    ∧ stage_ready env inputs = true
    ∧ if 1 <? panel_size inputs
      then high_refute read_document env inputs = false
           ∧ length (cold_skeptics inputs) < 2 * length (cold_approvals read_document env inputs)
      else refuted (vote_of 0) = false)
  ∧ ∀ i, refuted (vote_of i) = false →
      genuine_approval read_document (se_panel env) (si_verifier_id inputs) (si_attempt inputs) (N.of_nat i)
        (if (1 <? panel_size inputs) && (i =? 0) then si_prior_skeptic0 inputs else None).
Proof. split; [apply stage_achieves|intros i; apply run_one_approves]. Qed.

(** A rejection names its reason. When the panel ran and did not approve, the
    outcome is Blocked exactly when every refuter's blocker is one the model
    cannot fix; either way some skeptic refuted and the gaps summary has one
    bullet per refuter, so it is not empty, and every structured finding passed
    on is one that some refuter made, with the criterion that refuter gave it. *)
Lemma rejection_is_explained :
  stage_ready env inputs = true → panel_approves = false →
  let refuters := bfilter refuted panel_results in
  refuters ≠ [] ∧ length (refuters_by_confidence panel_results) = length refuters
  ∧ match outcome (run_verification_stage read_document env inputs) with
    | OutBlocked _ _ => ∀ r, r ∈ refuters → is_blocking (blocking r) = true
    | OutNotAchieved _ gaps findings _ _ =>
        gaps ≠ "" ∧ (∃ r, r ∈ refuters ∧ is_blocking (blocking r) = false)
        ∧ ∀ f, f ∈ findings → ∃ r s, r ∈ refuters ∧ s ∈ sk_findings r
            ∧ cf_criterion f = sf_criterion s ∧ cf_message f = render_finding s
    | _ => False
    end.
Proof.
  intros Hready Hr. cbv zeta. pose proof (rejected_has_refuter Hr) as Hne. destruct (ready_outcome Hready) as [-> _].
  rewrite Hr. unfold panel_outcome. split; [done|].
  assert (refuters_by_confidence panel_results ≡ₚ bfilter refuted panel_results) as Hp
    by apply stable_sort_Permutation.
  split; [by rewrite Hp|]. replace (is_nil (bfilter refuted panel_results)) with false
    by (by destruct (bfilter refuted panel_results)). cbn [negb andb].
  destruct (all _ _) eqn:Ea; [by apply all_spec|]. split; [|split].
  - intros Hg. unfold build_gaps_summary in Hg.
    destruct (refuters_by_confidence panel_results) as [|r rs]; [by apply Permutation_nil_l in Hp|].
    assert (∃ s, render_refuter_bullet r = "-" +:+ s) as [s Hs].
    { unfold render_refuter_bullet. destruct (negb _); [by eexists|]. destruct (negb _); [by eexists|].
      destruct (fallback_note r); by eexists. }
    cbn [map] in Hg. destruct (map render_refuter_bullet rs); [|rewrite join_cons in Hg]; cbn in Hg; by rewrite Hs in Hg.
  - by apply all_false in Ea.
  - intros f Hf. apply list_elem_of_join in Hf as (l & Hfl & (r & -> & Hr')%list_elem_of_fmap).
    apply list_elem_of_fmap in Hfl as (s & -> & (k & Hs & _)%elem_of_take). rewrite Hp in Hr'.
    exists r, s. split; [done|]. split; [by eapply list_elem_of_lookup_2|done].
Qed.
End approval.

(** ** The stall fingerprint *)

(** The [path:line] citations of a round's evidence. *)
Definition citations (evidence : list string) : list string :=
  mjoin (map extract_path_line_tokens (map normalize_scratch_paths evidence)).

Lemma dedup_strongly_sorted {A} `{EqDecision A} (R : relation A) `{!AntiSymm (=) R} l :
  StronglySorted R l → StronglySorted R (dedup l) ∧ NoDup (dedup l).
Proof.
  induction 1 as [|x l Hs [IHs IHn] Hall]; [by repeat constructor|]. cbn [dedup].
  assert (∀ y, y ∈ dedup l → R x y) as Hle.
  { intros y Hy. rewrite elem_of_dedup in Hy. rewrite Forall_forall in Hall. by apply Hall. }
  destruct (dedup l) as [|y l'] eqn:E; [split; [by repeat constructor|apply NoDup_singleton]|].
  destruct (decide (x = y)) as [->|Hne]; [done|]. split.
  - constructor; [done|]. apply Forall_forall. exact Hle.
  - apply NoDup_cons. split; [|done]. intros [->|Hx]%elem_of_cons; [done|].
    apply Hne. apply (anti_symm R); [apply Hle; left|].
    apply StronglySorted_inv in IHs as [_ Hy]. rewrite Forall_forall in Hy. by apply Hy.
Qed.

Lemma canonical_set l l' :
  dedup (sort_strings l) = dedup (sort_strings l') ↔ ∀ x, x ∈ l ↔ x ∈ l'.
Proof.
  assert (∀ k x, x ∈ dedup (sort_strings k) ↔ x ∈ k) as Hel.
  { intros k x. unfold sort_strings. by rewrite elem_of_dedup, merge_sort_Permutation. }
  assert (∀ k, StronglySorted String.le (dedup (sort_strings k)) ∧ NoDup (dedup (sort_strings k))) as Hs.
  { intros k. apply dedup_strongly_sorted; [apply _|]. apply StronglySorted_merge_sort; apply _. }
  split; [intros E x; by rewrite <- (Hel l), <- (Hel l'), E|].
  intros H. destruct (Hs l) as [Hs1 Hn1], (Hs l') as [Hs2 Hn2].
  apply (StronglySorted_unique String.le); [done..|]. apply NoDup_Permutation; [done..|].
  intros x. rewrite !Hel. apply H.
Qed.

Lemma char_free_drop_while c f s : char_free c s = true → char_free c (drop_while f s) = true.
Proof.
  unfold char_free. induction s as [|d s IH]; cbn; [done|]. intros [Hd Hs]%andb_true_iff.
  destruct (f d); [by apply IH|]. cbn. by rewrite Hd, Hs.
Qed.

Lemma char_free_trim_pred c f s : char_free c s = true → char_free c (trim_matches_pred f s) = true.
Proof.
  intros H. unfold trim_matches_pred. rewrite char_free_rev. apply char_free_drop_while.
  rewrite char_free_rev. by apply char_free_drop_while.
Qed.

Lemma char_free_split_once c d s h t :
  split_once_char d s = Some (h, t) → char_free c s = true → char_free c h = true ∧ char_free c t = true.
Proof.
  unfold char_free. revert h. induction s as [|a s IH]; intros h; cbn; [done|].
  destruct (Ascii.eqb a d); [intros [= <- <-] [_ Hs]%andb_true_iff; by split|].
  destruct (split_once_char d s) as [[h' t']|]; [|done]. intros [= <- ->] [Ha Hs]%andb_true_iff.
  destruct (IH h' eq_refl Hs) as [H1' H2']. cbn. by rewrite Ha, H1'.
Qed.

Lemma newline_free_lower s :
  char_free newline s = true → char_free newline (to_ascii_lowercase s) = true.
Proof.
  unfold char_free, to_ascii_lowercase. induction s as [|c s IH]; cbn [all_chars map_string]; [done|].
  intros [Hc Hs]%andb_true_iff. rewrite IH by done. rewrite andb_true_r. revert Hc.
  destruct c as [[] [] [] [] [] [] [] []]; vm_compute; done.
Qed.

Lemma split_ws_newline_free cur skip s w :
  char_free newline cur = true → w ∈ split_ws_go cur skip s → char_free newline w = true.
Proof.
  revert cur skip. induction s as [|c s IH]; intros cur skip Hcur; cbn [split_ws_go].
  - destruct (is_empty cur); [by intros ?%elem_of_nil|by intros ->%list_elem_of_singleton].
  - destruct skip as [|k]; [|by apply IH].
    destruct (find_prefix white_space (String c s)) as [e|] eqn:E.
    + destruct (is_empty cur); [by apply IH|]. intros [->|Hw]%elem_of_cons; [done|]. eapply IH; [|exact Hw]. done.
    + apply IH. unfold char_free in *. rewrite all_chars_app, Hcur. cbn [all_chars andb]. rewrite andb_true_r.
      apply negb_true_iff, not_true_iff_false. intros <-%Ascii.eqb_eq.
      rewrite find_prefix_None in E. specialize (E nl). unfold starts_with in E. cbn in E.
      assert (nl ∈ white_space) as Hnl by (apply contains_spec; by vm_compute).
      specialize (E Hnl). by destruct s.
Qed.

Lemma citation_newline_free evidence x : x ∈ citations evidence → char_free newline x = true.
Proof.
  unfold citations. intros (l & Hx & (e & -> & _)%list_elem_of_fmap)%list_elem_of_join.
  unfold extract_path_line_tokens in Hx. apply list_elem_of_omap in Hx as (w & Hw & Htok).
  apply split_ws_newline_free in Hw; [|done]. unfold path_line_token in Htok.
  match type of Htok with context [trim_matches_pred ?f w] =>
    pose proof (char_free_trim_pred newline f w Hw) as Ht; generalize dependent (trim_matches_pred f w) end.
  intros word Htok Ht. destruct (split_once_char ":" word) as [[path rest]|] eqn:E; [|done].
  cbn [mbind option_bind] in Htok. destruct (char_free_split_once newline _ _ _ _ E Ht) as [Hp Hr].
  assert (char_free newline (match split_once_char ":" rest with Some (l, _) => l | None => rest end) = true) as Hl.
  { destruct (split_once_char ":" rest) as [[l' r']|] eqn:E2; [|done].
    by destruct (char_free_split_once newline _ _ _ _ E2 Hr). }
  revert Htok Hl. generalize (match split_once_char ":" rest with Some (l, _) => l | None => rest end).
  intros line Htok Hl. destruct (_ && _); [|done]. injection Htok as <-.
  unfold char_free in *. rewrite !all_chars_app, Hl.
  fold (char_free newline (to_ascii_lowercase path)). by rewrite newline_free_lower.
Qed.

Lemma join_newline_inj l l' :
  (∀ x, x ∈ l → char_free newline x = true) → (∀ x, x ∈ l' → char_free newline x = true) →
  l ≠ [] → l' ≠ [] → join nl l = join nl l' → l = l'.
Proof.
  intros Hl Hl' Hn Hn' E. apply (f_equal (split_char newline)) in E. unfold nl in E.
  rewrite !split_char_join in E; [done|..]; try done; by apply Forall_forall.
Qed.

(** The stall detector compares what is cited, nothing else. For two
    rejections that both cite code, the fingerprints are equal exactly when the
    two sets of [path:line] citations are: the order of the skeptics, their
    confidence, their wording and repeated citations cannot hide a stall, and a
    new or resolved citation always shows. *)
Lemma fingerprint_iff_same_citations (evidence evidence' : list string) :
  citations evidence ≠ [] → citations evidence' ≠ [] →
  gap_fingerprint evidence = gap_fingerprint evidence' ↔ (∀ x, x ∈ citations evidence ↔ x ∈ citations evidence').
Proof.
  intros Hn Hn'. unfold gap_fingerprint. fold (citations evidence) (citations evidence').
  assert (is_nil (citations evidence) = false) as -> by (by destruct (citations evidence)).
  assert (is_nil (citations evidence') = false) as -> by (by destruct (citations evidence')).
  rewrite <- canonical_set. split; [|by intros ->].
  assert (∀ e, citations e ≠ [] → dedup (sort_strings (citations e)) ≠ []) as Hne.
  { intros e He Hd. destruct (citations e) as [|x l] eqn:E; [done|].
    assert (x ∈ dedup (sort_strings (x :: l))) as Hx
      by (unfold sort_strings; rewrite elem_of_dedup, merge_sort_Permutation; left).
    rewrite Hd in Hx. by apply elem_of_nil in Hx. }
  assert (∀ e x, x ∈ dedup (sort_strings (citations e)) → char_free newline x = true) as Hf.
  { intros e x. unfold sort_strings. rewrite elem_of_dedup, merge_sort_Permutation. apply citation_newline_free. }
  apply join_newline_inj; [apply Hf|apply Hf|by apply Hne|by apply Hne].
Qed.

(** ** The frame the gaps are quoted in *)

Definition REMINDER_TAGS : list string :=
  ["</system-reminder>"; "<system-reminder>"; "</goal-state>"; "<goal-state>"].

Definition tag_free (s : string) : Prop := ∀ t, t ∈ REMINDER_TAGS → str_contains t s = false.

Lemma str_contains_cons p c s : str_contains p (String c s) = starts_with p (String c s) || str_contains p s.
Proof. unfold str_contains. cbn [find]. destruct (starts_with p _); [done|]. by destruct (find p s). Qed.

Lemma str_contains_nil p : p ≠ "" → str_contains p "" = false.
Proof. by destruct p. Qed.

(** [p] begins with a character that occurs nowhere else in it. *)
Lemma str_contains_free_app a p x y :
  char_free a x = true → str_contains (String a p) (x +:+ y) = str_contains (String a p) y.
Proof.
  unfold char_free. induction x as [|c x IH]; [done|]. cbn [all_chars]. intros [Hc Hx]%andb_true_iff.
  rewrite str_app_cons, str_contains_cons, IH by done.
  rewrite starts_with_ne; [done|]. intros ->. by rewrite Ascii.eqb_refl in Hc.
Qed.

Lemma str_contains_app_r p x y : str_contains p (x +:+ y) = false → str_contains p y = false.
Proof.
  induction x as [|c x IH]; [done|]. rewrite str_app_cons, str_contains_cons.
  by intros [_ H]%orb_false_iff; apply IH.
Qed.

(** A separator outside the pattern splits the search. *)
Lemma starts_with_sep c p x y :
  char_free c p = true → starts_with p (x +:+ String c y) = starts_with p x.
Proof.
  revert p. induction x as [|d x IH]; intros [|a p] Hp; try done.
  - unfold char_free in Hp. cbn in Hp. apply andb_true_iff in Hp as [Hc _].
    rewrite str_app_nil_l. apply starts_with_ne. intros ->. by rewrite Ascii.eqb_refl in Hc.
  - rewrite str_app_cons, !starts_with_cons. unfold char_free in Hp. cbn in Hp.
    apply andb_true_iff in Hp as [_ Hp]. by rewrite IH.
Qed.

Lemma str_contains_sep c p x y :
  p ≠ "" → char_free c p = true →
  str_contains p (x +:+ String c y) = str_contains p x || str_contains p y.
Proof.
  intros Hne Hp. induction x as [|d x IH].
  - pose proof (starts_with_sep c p "" y Hp) as E. rewrite str_app_nil_l in *.
    rewrite str_contains_cons, E. by destruct p.
  - rewrite str_app_cons, !str_contains_cons, IH, <- str_app_cons, starts_with_sep by done.
    by rewrite orb_assoc.
Qed.

Lemma replace_go_skip p r k s : replace_go p r k s = replace_go p r 0 (drop_bytes k s).
Proof. revert k. induction s as [|c s IH]; intros [|k]; try done. cbn [replace_go drop_bytes]. apply IH. Qed.

Lemma replace_str_hit p r s : p ≠ "" → replace_str p r (p +:+ s) = r +:+ replace_str p r s.
Proof.
  intros Hp. destruct p as [|a p]; [done|]. unfold replace_str. rewrite str_app_cons.
  cbn [replace_go]. rewrite <- str_app_cons, starts_with_app, replace_go_skip. cbn [String.length].
  replace (S (String.length p) - 1) with (String.length p) by lia. by rewrite drop_bytes_app.
Qed.

Lemma replace_str_miss p r c s :
  starts_with p (String c s) = false → replace_str p r (String c s) = String c (replace_str p r s).
Proof. intros H. unfold replace_str. cbn [replace_go]. by rewrite H. Qed.

Section neutralize.
Context (lt : ascii) (u z : string).
Hypothesis u_free : char_free lt u = true.
Hypothesis z_free : char_free lt z = true.
Let p : string := String lt u.
Let r : string := String lt (z +:+ u).

(** What follows an opening character is not changed by the replacement. *)
Lemma starts_with_replace w s :
  char_free lt w = true → starts_with w (replace_str p r s) = true → starts_with w s = true.
Proof using Type.
  revert s. induction w as [|a w IH]; intros s Hw; [by destruct s|].
  unfold char_free in Hw. cbn in Hw. apply andb_true_iff in Hw as [Ha Hw].
  destruct s as [|c s]; [done|]. destruct (starts_with p (String c s)) eqn:Ep.
  - apply starts_with_spec in Ep as [s' ->]. rewrite replace_str_hit by done.
    unfold r. rewrite str_app_cons, starts_with_cons.
    intros [E%Ascii.eqb_eq _]%andb_true_iff. subst a. by rewrite Ascii.eqb_refl in Ha.
  - rewrite replace_str_miss by done. rewrite !starts_with_cons.
    intros [-> H]%andb_true_iff. by apply IH.
Qed.

Lemma replace_removes t s :
  t ≠ "" → char_free lt t = true → (∀ y, starts_with t (z +:+ u +:+ y) = false) →
  (t = u ∨ str_contains (String lt t) s = false) →
  str_contains (String lt t) (replace_str p r s) = false.
Proof using u_free z_free.
  intros Hne Ht Hz Hs. remember (String.length s) as n eqn:En.
  revert s Hs En. induction n as [n IH] using lt_wf_ind. intros s Hs En.
  destruct (starts_with p s) eqn:Ep.
  - apply starts_with_spec in Ep as [s' ->]. rewrite replace_str_hit by done.
    unfold r. rewrite str_app_cons, str_contains_cons, starts_with_cons, Ascii.eqb_refl.
    rewrite str_app_assoc, Hz. cbn [andb orb]. rewrite !str_contains_free_app by done.
    eapply (IH (String.length s')); [|destruct Hs as [|Hs]; [by left|right]|done].
    + subst n. rewrite str_length_app. unfold p. cbn. lia.
    + by eapply str_contains_app_r.
  - destruct s as [|c s]; [by apply str_contains_nil|]. rewrite replace_str_miss by done.
    rewrite str_contains_cons. apply orb_false_iff. split.
    + rewrite starts_with_cons. apply not_true_iff_false. intros [E%Ascii.eqb_eq H]%andb_true_iff. subst c.
      apply starts_with_replace in H; [|done]. destruct Hs as [->|Hs].
      * unfold p in Ep. rewrite starts_with_cons, Ascii.eqb_refl, H in Ep. done.
      * rewrite str_contains_cons, starts_with_cons, Ascii.eqb_refl, H in Hs. done.
    + eapply (IH (String.length s)); [subst n; cbn; lia| |done]. destruct Hs as [|Hs]; [by left|right].
      rewrite str_contains_cons in Hs. by apply orb_false_iff in Hs as [_ ?].
Qed.
End neutralize.

Lemma neutralize_tag_free s : tag_free (neutralize_reminder_tags s).
Proof.
  assert (∀ t u s, t ∈ ["/system-reminder>"; "system-reminder>"; "/goal-state>"; "goal-state>"] →
    u ∈ ["/system-reminder>"; "system-reminder>"; "/goal-state>"; "goal-state>"] →
    t = u ∨ str_contains (String "<" t) s = false →
    str_contains (String "<" t) (replace_str (String "<" u) (String "<" (zero_width_space +:+ u)) s) = false) as Hr.
  { intros t u s' Ht Hu. apply replace_removes.
    - repeat (apply elem_of_cons in Hu as [->|Hu]; [by vm_compute|]). by apply elem_of_nil in Hu.
    - by vm_compute.
    - repeat (apply elem_of_cons in Ht as [->|Ht]; [done|]). by apply elem_of_nil in Ht.
    - repeat (apply elem_of_cons in Ht as [->|Ht]; [by vm_compute|]). by apply elem_of_nil in Ht.
    - intros y. repeat (apply elem_of_cons in Ht as [->|Ht]; [done|]). by apply elem_of_nil in Ht. }
  unfold tag_free, neutralize_reminder_tags.
  change ("<" +:+ zero_width_space +:+ "goal-state>") with (String "<" (zero_width_space +:+ "goal-state>")).
  change ("<" +:+ zero_width_space +:+ "/goal-state>") with (String "<" (zero_width_space +:+ "/goal-state>")).
  change ("<" +:+ zero_width_space +:+ "system-reminder>") with (String "<" (zero_width_space +:+ "system-reminder>")).
  change ("<" +:+ zero_width_space +:+ "/system-reminder>") with (String "<" (zero_width_space +:+ "/system-reminder>")).
  set (s1 := replace_str "</system-reminder>" _ s). set (s2 := replace_str "<system-reminder>" _ s1).
  set (s3 := replace_str "</goal-state>" _ s2).
  assert (str_contains "</system-reminder>" s1 = false) as A1 by (apply Hr; [set_solver..|by left]).
  assert (str_contains "</system-reminder>" s2 = false) as A2 by (apply Hr; [set_solver..|by right]).
  assert (str_contains "<system-reminder>" s2 = false) as B2 by (apply Hr; [set_solver..|by left]).
  assert (str_contains "</system-reminder>" s3 = false) as A3 by (apply Hr; [set_solver..|by right]).
  assert (str_contains "<system-reminder>" s3 = false) as B3 by (apply Hr; [set_solver..|by right]).
  assert (str_contains "</goal-state>" s3 = false) as C3 by (apply Hr; [set_solver..|by left]).
  intros t Ht. repeat (apply elem_of_cons in Ht as [->|Ht]; [apply Hr; [set_solver..|]; first [by left|by right]|]).
  by apply elem_of_nil in Ht.
Qed.

Lemma tag_free_app x y : char_free "<" x = true → tag_free y → tag_free (x +:+ y).
Proof.
  intros Hx Hy t Ht. specialize (Hy t Ht).
  repeat (apply elem_of_cons in Ht as [->|Ht]; [by rewrite str_contains_free_app|]). by apply elem_of_nil in Ht.
Qed.

Lemma tag_free_plain x : char_free "<" x = true → tag_free x.
Proof.
  intros H. rewrite <- (str_app_nil_r x). apply tag_free_app; [done|].
  intros t Ht. repeat (apply elem_of_cons in Ht as [->|Ht]; [done|]). by apply elem_of_nil in Ht.
Qed.

Lemma tag_free_join ls : (∀ l, l ∈ ls → tag_free l) → tag_free (join nl ls).
Proof.
  induction ls as [|l ls IH]; intros H; [by apply tag_free_plain|].
  destruct ls as [|l' ls]; [apply H; left|]. rewrite join_cons. intros t Ht.
  unfold nl at 1. rewrite str_app_cons, str_app_nil_l, str_contains_sep.
  - apply orb_false_iff. split; [apply H; [left|done]|]. apply IH; [|done]. intros x Hx. apply H. by right.
  - repeat (apply elem_of_cons in Ht as [->|Ht]; [done|]). by apply elem_of_nil in Ht.
  - repeat (apply elem_of_cons in Ht as [->|Ht]; [done|]). by apply elem_of_nil in Ht.
Qed.

Lemma sanitize_tag_free s : tag_free (sanitize_evidence s).
Proof. apply neutralize_tag_free. Qed.

Lemma render_finding_tag_free f : tag_free (render_finding f).
Proof.
  unfold render_finding. destruct (sf_criterion f) as [c|]; [|apply sanitize_tag_free].
  apply tag_free_app; [done|]. apply tag_free_app; [by apply pretty_N_free|].
  apply tag_free_app; [done|]. apply sanitize_tag_free.
Qed.

Lemma bullet_tag_free r : tag_free (render_refuter_bullet r).
Proof.
  unfold render_refuter_bullet.
  set (header := "- [skeptic " +:+ _).
  assert (char_free "<" header = true) as Hh.
  { unfold header. apply char_free_app; [done|]. apply char_free_app; [by apply pretty_N_free|].
    by destruct (confidence r). }
  destruct (negb _).
  - apply tag_free_app; [done|]. apply (tag_free_app nl); [done|]. apply tag_free_join.
    intros l (f & -> & _)%list_elem_of_fmap. apply tag_free_app; [done|]. apply render_finding_tag_free.
  - destruct (negb _).
    + apply tag_free_app; [done|]. apply tag_free_app; [done|]. apply sanitize_tag_free.
    + destruct (fallback_note r) as [note|]; apply tag_free_app; try done;
        (apply tag_free_app; [by apply pretty_N_free|]).
      * apply tag_free_app; [done|]. apply sanitize_tag_free.
      * by apply tag_free_plain.
Qed.

(** What the skeptics write cannot close the frame it is quoted in. Whatever
    text a panel produced, the gaps summary, the pause summary and every finding
    message handed to the implementer's prompt contain none of the reminder and
    goal-state tags, neither literally nor pieced together across bullets. *)
Lemma gaps_keep_the_frame (results : list SkepticResult) :
  tag_free (build_gaps_summary results) ∧ tag_free (build_pause_summary results)
  ∧ ∀ f, f ∈ build_gaps_findings results → tag_free (cf_message f).
Proof.
  split; [|split].
  - apply tag_free_join. intros l (r & -> & _)%list_elem_of_fmap. apply bullet_tag_free.
  - apply tag_free_join. intros l ([class header] & Hin & Hc)%list_elem_of_omap.
    cbv zeta in Hc. case_match; [done|]. injection Hc as <-.
    assert (char_free "<" header = true) as Hh.
    { repeat (apply elem_of_cons in Hin as [[= -> ->]|Hin]; [done|]). by apply elem_of_nil in Hin. }
    apply tag_free_app; [done|]. apply tag_free_app; [done|]. apply (tag_free_app nl); [done|]. apply tag_free_join.
    intros l' (r & -> & _)%list_elem_of_fmap. apply bullet_tag_free.
  - intros f Hf. apply list_elem_of_join in Hf as (l & Hfl & (r & -> & _)%list_elem_of_fmap).
    apply list_elem_of_fmap in Hfl as (s & -> & _). apply render_finding_tag_free.
Qed.

(** ** A concrete panel *)

(** Skeptics that answer with the terminal token alone. *)
Definition token_panel (verdicts : list bool) : PanelEnv :=
  mkPanelEnv "/tmp" (λ _, Ok tt)
    (λ i _, mkReply (Ok (if default true (verdicts !! N.to_nat i) then "Refuted" else "`Not Refuted.`")) None true).

Definition token_stage (verdicts : list bool) : StageEnv :=
  mkStageEnv (token_panel verdicts) true ChangesWritten true "session".

Definition demo_inputs : StageInputs := mkStageInputs "0123456789ab" 1 3 None.

(** Skeptic 0 refutes without high confidence, the two others approve. *)
Example token_panel_approves :
  outcome (run_verification_stage (λ _, None) (token_stage [true; false; false]) demo_inputs)
  = OutAchieved "/tmp/grok-goal-0123456789ab/goal-classifier-0123456789ab-1.md".
Proof. by vm_compute. Qed.

Lemma rejection_is_explained_witness :
  bfilter refuted (panel_results (λ _, None) (token_stage [false; false; true]) demo_inputs) ≠ []
  ∧ match outcome (run_verification_stage (λ _, None) (token_stage [false; false; true]) demo_inputs) with
    | OutNotAchieved _ gaps _ _ _ => gaps ≠ ""
    | _ => False
    end.
Proof.
  destruct (rejection_is_explained (λ _, None) (token_stage [false; false; true]) demo_inputs)
    as (Hne & _ & Ho); [by vm_compute|by vm_compute|].
  split; [exact Hne|].
  destruct (outcome (run_verification_stage (λ _, None) (token_stage [false; false; true]) demo_inputs)) eqn:E;
    [by vm_compute in E|apply Ho|by vm_compute in E|by vm_compute in E].
Defined.

Lemma fingerprint_iff_same_citations_witness :
  gap_fingerprint ["see src/A.rs:12:5 and (src/b.rs:3)"; "again src/a.rs:12"]
  = gap_fingerprint ["`src/b.rs:3`, SRC/a.rs:12!"]
  ∧ gap_fingerprint ["src/a.rs:12"] ≠ gap_fingerprint ["src/a.rs:13"].
Proof.
  split.
  - apply fingerprint_iff_same_citations; [by vm_compute|by vm_compute|].
    intros x. replace (citations ["see src/A.rs:12:5 and (src/b.rs:3)"; "again src/a.rs:12"])
      with ["src/a.rs:12"; "src/b.rs:3"; "src/a.rs:12"] by (by vm_compute).
    replace (citations ["`src/b.rs:3`, SRC/a.rs:12!"]) with ["src/b.rs:3"; "src/a.rs:12"] by (by vm_compute).
    rewrite !elem_of_cons, elem_of_nil. naive_solver.
  - rewrite fingerprint_iff_same_citations by (by vm_compute). intros H.
    assert ("src/a.rs:12" ∈ citations ["src/a.rs:13"]) as Hin
      by (apply H; apply contains_spec; by vm_compute).
    apply contains_spec in Hin. by vm_compute in Hin.
Defined.

(** ** Blind spot

    A refuter that gave evidence but no structured finding adds nothing to the
    findings, so a rejection can look fully attributed to criterion 2 although
    another skeptic's refutation names no criterion. *)
Definition attributed_refuter : SkepticResult :=
  mkResult 1 true High NotBlocking "tests/a.rs:4" [mkSkepticFinding "bug" "tests/a.rs:4" (Some 2%N) "fails"] None.
Definition evidence_only_refuter : SkepticResult :=
  mkResult 2 true High NotBlocking "src/main.rs:9 does not compile" [] None.

Lemma evidence_only_refuter_is_dropped :
  bfilter refuted [attributed_refuter; evidence_only_refuter] = [attributed_refuter; evidence_only_refuter]
  ∧ map cf_criterion (build_gaps_findings [attributed_refuter; evidence_only_refuter]) = [Some 2%N].
Proof. by vm_compute. Qed.

(** A token in backticks is read with its full stop inside them, not after. *)
Lemma backticked_token_with_period :
  parse_skeptic_terminal_response "`Not Refuted.`" = Some false
  ∧ parse_skeptic_terminal_response "`Not Refuted`." = None.
Proof. by vm_compute. Qed.
