(* ===== verification/UpdateGoal.v ===== *)
(** * The [update_goal] tool ([update_goal/mod.rs])

    The model reports on its goal by calling a tool; the call travels to the
    session as an envelope and the session answers it with an acknowledgement.
    This file holds the messages, the errors, and what the tool makes of the
    answer; the session's side is [Drain]. *)

From Stdlib Require Import Ascii String.
From S2P Require Import Prelude RustStr.
From stdpp Require Import options.

Record UpdateGoalInput : Type := mkUpdateGoal {
  completed : option bool;
  ug_message : option string;
  blocked_reason : option string;
}.

Inductive RejectReason : Type :=
| BlockSeenInDrain
| BlockedAgainstNonActive
| PostCap
| NonActive
| HarnessDisabled
| PendingQueueEvicted
| DroppedAfterPauseInDrain
| OrchestrationVanished
| StatusChangedDuringClassifier
| InFlightOrchestrationVanished
| ExecChecklistIncomplete.

#[export] Instance RejectReason_eq_dec : EqDecision RejectReason.
Proof. solve_decision. Defined.

Definition error_code (r : RejectReason) : string :=
  match r with
  | BlockSeenInDrain => "goal_update_block_seen"
  | BlockedAgainstNonActive => "goal_update_blocked_against_non_active"
  | PostCap => "goal_update_post_cap"
  | NonActive => "goal_update_non_active"
  | HarnessDisabled => "goal_update_harness_disabled"
  | PendingQueueEvicted => "goal_update_evicted"
  | DroppedAfterPauseInDrain => "goal_update_dropped_after_pause"
  | OrchestrationVanished => "goal_update_no_orchestration"
  | StatusChangedDuringClassifier => "goal_update_status_changed"
  | InFlightOrchestrationVanished => "goal_update_in_flight_orchestration_vanished"
  | ExecChecklistIncomplete => "goal_update_exec_checklist_incomplete"
  end.

Inductive UpdateGoalAck : Type :=
| Accepted (summary : string)
| ClassifierAchieved (details_path : string)
| ClassifierFailOpenAchieved (reason : string)
| ClassifierNotAchieved (details_path : string) (attempt max_runs : N)
| ClassifierCapReached (details_path : string) (attempt : N)
| ClassifierStalled (details_path : string) (attempt : N)
| ClassifierBlocked (details_path : string)
| CompletedWithoutClassifier
| ClassifierConcurrentInFlight (details_path : string) (attempt max_runs : N)
| DeferredToTurnEnd (pending_depth : N)
| RejectedAck (reason : RejectReason) (detail : string).

(** [UpdateGoalEnvelope]: the input and the oneshot its answer goes to, by number. *)
Definition Envelope : Type := N * UpdateGoalInput.

Record ToolError : Type := mkToolError { te_kind : string; te_message : string }.

(** [UpdateGoalOutput] of a call that succeeded is its summary. *)
Definition render_ack_into_output (ack : UpdateGoalAck) : result string ToolError :=
  match ack with
  | Accepted summary => Ok summary
  | CompletedWithoutClassifier => Ok "Goal marked complete."
  | ClassifierAchieved p => Ok ("Goal classifier verdict: Achieved. Goal complete. See " +:+ p)
  | ClassifierFailOpenAchieved reason =>
      Ok ("Goal marked complete via fail-open (reason: " +:+ reason +:+ "). No classifier verdict was produced.")
  | ClassifierNotAchieved p attempt max_runs =>
      Err (mkToolError "goal_classifier_not_achieved"
        ("Goal classifier rejected this completion attempt (" +:+ pretty attempt +:+ "/" +:+ pretty max_runs
         +:+ "). Review " +:+ p +:+ " and continue working; another attempt is available."))
  | ClassifierCapReached p attempt =>
      let pointer := if is_empty (trim p) then "" else " See " +:+ p in
      Err (mkToolError "goal_classifier_cap_reached"
        ("Goal classifier rejected completion " +:+ pretty attempt +:+ " times — goal auto-paused." +:+ pointer))
  | ClassifierStalled p attempt =>
      Err (mkToolError "goal_classifier_stalled"
        ("Goal verification saw no change in the flagged gaps across " +:+ pretty attempt
         +:+ " attempts — goal auto-paused. Review " +:+ p +:+ "; the user must resume."))
  | ClassifierBlocked p =>
      Err (mkToolError "goal_classifier_blocked"
        ("Goal verification found no model-fixable path (objective/plan contradiction or evidence that cannot be captured here) — goal paused for your decision. See " +:+ p))
  | ClassifierConcurrentInFlight p attempt max_runs =>
      let pointer := if is_empty (trim p) then "" else "; see " +:+ p in
      Err (mkToolError "goal_classifier_in_flight"
        ("Goal classifier is still verifying a previous completion — do NOT call update_goal(completed: true) again until you receive a verdict reminder. This attempt was recorded as Not Achieved ("
         +:+ pretty attempt +:+ "/" +:+ pretty max_runs +:+ ")" +:+ pointer))
  | DeferredToTurnEnd depth =>
      Ok ("Goal completion queued for classifier verification at end of turn (pending_depth=" +:+ pretty depth
          +:+ "). The verdict will be delivered as a system reminder before your next reply; do NOT call update_goal again until you see it.")
  | RejectedAck reason detail => Err (mkToolError (error_code reason) detail)
  end.

Definition build_summary (input : UpdateGoalInput) : string :=
  let parts :=
    (if bool_decide (completed input = Some true) then ["Goal marked complete"] else [])
    ++ match blocked_reason input with Some r => ["Goal blocked: " +:+ r] | None => [] end
    ++ match ug_message input with Some m => [m] | None => [] end in
  if is_nil parts then "Goal updated." else join ". " parts +:+ ".".

(** What a call meets: no handle in the resources, a closed channel, or a
    session that answers or drops the oneshot. *)
Inductive Delivery : Type :=
| NoHandle
| ChannelClosed
| AckDropped
| Acked (ack : UpdateGoalAck).

(** [UpdateGoalTool::run] *)
Definition run_update_goal (d : Delivery) (input : UpdateGoalInput) : result string ToolError :=
  let fallback_summary := build_summary input in
  match d with
  | NoHandle => Err (mkToolError "goal_not_active" "No active goal to update (GoalUpdateHandle not registered)")
  | ChannelClosed =>
      Err (mkToolError "goal_channel_closed" "Goal update channel closed — the session may be shutting down")
  | AckDropped =>
      Err (mkToolError "harness_no_ack"
        ("Goal-update harness dropped the response channel before producing an ack. This is a harness-side bug; the goal may not have been updated. Original intent: "
         +:+ fallback_summary))
  | Acked ack => render_ack_into_output ack
  end.

(** The error codes tell the reasons apart. *)
Lemma error_code_inj : Inj (=) (=) error_code.
Proof. by intros [] []. Qed.

(** What an answer says happened, as the kind of its error tells it. *)
Inductive Cause : Type :=
| CauseNoHandle | CauseClosed | CauseDropped | CauseNotAchieved | CauseCap | CauseStalled | CauseBlocked
| CauseInFlight | CauseRejected (r : RejectReason).

#[export] Instance Cause_eq_dec : EqDecision Cause.
Proof. solve_decision. Defined.

Definition cause (d : Delivery) : option Cause :=
  match d with
  | NoHandle => Some CauseNoHandle
  | ChannelClosed => Some CauseClosed
  | AckDropped => Some CauseDropped
  | Acked (ClassifierNotAchieved _ _ _) => Some CauseNotAchieved
  | Acked (ClassifierCapReached _ _) => Some CauseCap
  | Acked (ClassifierStalled _ _) => Some CauseStalled
  | Acked (ClassifierBlocked _) => Some CauseBlocked
  | Acked (ClassifierConcurrentInFlight _ _ _) => Some CauseInFlight
  | Acked (RejectedAck r _) => Some (CauseRejected r)
  | Acked _ => None
  end.

(** The tool's errors can be told apart. A call fails exactly when the channel
    or the answer is one of the failures, and two failing calls have the same
    error kind exactly when they fail for the same cause: the four ways to reach
    no answer, each kind of verdict against the claim, and each reason of a
    rejection have a kind of their own. *)
Lemma error_kinds_name_the_cause (d d' : Delivery) (i i' : UpdateGoalInput) :
  match run_update_goal d i, run_update_goal d' i' with
  | Err e, Err e' => te_kind e = te_kind e' ↔ cause d = cause d'
  | Ok _, Ok _ => cause d = None ∧ cause d' = None
  | Ok _, Err _ => cause d = None ∧ is_Some (cause d')
  | Err _, Ok _ => is_Some (cause d) ∧ cause d' = None
  end.
Proof.
  destruct d as [| | |[]], d' as [| | |[]]; cbn -[pretty trim]; try (split; [done|by eauto]); try (split; by eauto); try done;
    repeat match goal with r : RejectReason |- _ => destruct r end; cbn -[pretty trim]; try done;
    split; try done; congruence.
Qed.
