(* ===== verification/GateSession.v ===== *)
(** * The session the goal machinery works on

    The part of [SessionActor] that the completion gate (doggy_gate.rs) and the
    drain of [update_goal] calls (goal.rs) share: the tracker, the machine and
    the ledger of a prompt, the plan file, the queue of deferred completions and
    the flags around it; the token meter of goal_support.rs; and the steps both
    take on it - emitting an update, pausing a goal, deferring work. Messages to
    the user interface, to the model, to waiting tools and to telemetry are
    collected in an outbox. *)

From Stdlib Require Import Ascii String ZArith.
From S2P Require Import Prelude RustStr CriterionGraph Replan SkepticPanel Checklist CriteriaView TaskState Progress Decide UpdateGoal GoalTracker.
From stdpp Require Import options.

(** ** Token accounting ([goal_tokens]) *)

Definition i64_max : Z := 9223372036854775807.
Definition i64_min : Z := -9223372036854775808.
Definition i64_saturating_add (a b : Z) : Z := (Z.max i64_min (Z.min (a + b) i64_max))%Z.
(** A subtraction of [i64]s wraps in a release build. *)
Definition i64_wrap (z : Z) : Z := (((z - i64_min) mod 18446744073709551616) + i64_min)%Z.

Record SubagentTokenRecord : Type := mkTokenRecord {
  tr_goal_id : option string;
  resume_anchor_cumulative : N;
  last_cumulative_reported : N;
  model : option string;
  finished : bool;
}.

Definition marginal (r : SubagentTokenRecord) : N :=
  (last_cumulative_reported r - resume_anchor_cumulative r)%N.

(** [i64::try_from(d).unwrap_or(i64::MAX)] *)
Definition marginal_i64 (r : SubagentTokenRecord) : Z := Z.min (Z.of_N (marginal r)) i64_max.

(** One record's part in the totals: all subagents, and the finished ones. *)
Definition add_record (gid : string) (acc : Z * Z) (p : string * SubagentTokenRecord) : Z * Z :=
  let '(all, fin) := acc in
  let '(_, r) := p in
  if bool_decide (tr_goal_id r = Some gid) then
    let d := marginal_i64 r in
    (i64_saturating_add all d, if finished r then i64_saturating_add fin d else fin)
  else (all, fin).

Definition token_sums (gid : string) (records : list (string * SubagentTokenRecord)) : Z * Z :=
  foldl (add_record gid) (0, 0)%Z records.

Definition ratchet_tokens (current subagents : Z) (o : GoalOrchestration) : GoalOrchestration :=
  let last_seen := match last_session_tokens_seen o with Some n => n | None => token_baseline o end in
  let spent := if (last_seen <? current)%Z
               then i64_saturating_add (parent_tokens_spent o) (i64_wrap (current - last_seen))
               else parent_tokens_spent o in
  o <| parent_tokens_spent := spent |> <| last_session_tokens_seen := Some current |>
    <| tokens_used_high_water := Z.max (tokens_used_high_water o) (i64_saturating_add spent subagents) |>.

Definition goal_tokens (current : Z) (records : list (string * SubagentTokenRecord)) (t : GoalTracker)
    : (Z * Z) * GoalTracker :=
  match orchestration t with
  | None => ((0, 0)%Z, t)
  | Some o =>
      let '(all, fin) := token_sums (goal_id o) records in
      let o := ratchet_tokens current all o in
      ((tokens_used_high_water o, fin), t <| orchestration := Some o |>)
  end.

(** ** The session *)

(** The events of the verification loop (events.rs). *)
Inductive GateEvent : Type :=
| EvDroppedAfterCap (attempts_seen : N)
| EvFailOpen (reason : GoalClassifierFailOpenReason) (attempt : N)
| EvFailClosedInFlight
| EvFailClosedQueueFull
| EvMidTurnDeferred (pending_depth : N)
| EvPendingQueueCleared (dropped : N)
| EvCapReached (attempt : N)
| EvDeterministicGateFailed (attempt : N) (criterion : option N)
| EvPlanAmended (report : AmendmentReport)
| EvAmenderRan (unattributed proposed : nat) (failed_open : bool).

Inductive Output : Type :=
| CompletionUi (completion : string) (fs : list AuditFinding)
| GoalUpdated
| GoalCleared
| InjectMessage (body : string)
| SlashOutput (msg : string)
| RunFsCleanup (job : DeferredGoalFsCleanup)
| RunSummarizer (attempt : N)
| GoalAutoPaused (reason : GoalPauseReason)
| AckSent (id : N) (ack : UpdateGoalAck)
| StageRan (attempt : N) (res : VerificationStageResult)
| FileWritten (path body : string)
| EventEmitted (e : GateEvent).

(** The plan file as a refresh sees it: its mtime and its body. *)
Definition PlanFile : Type := option N * option string.

Record Session : Type := mkSession {
  tracker : GoalTracker;
  machine : TaskMachine;
  ledger : RoundLedger;
  records : list (string * SubagentTokenRecord);
  plan : PlanFile;
  outbox : list Output;
  pending : list UpdateGoalInput;          (* pending_classifier_completions *)
  blocked_streak : N;                      (* goal_blocked_streak *)
  in_flight : bool;                        (* goal_classifier_in_flight *)
  update_rx : option (list Envelope);      (* goal_update_rx: taken when the drainer task starts *)
}.

#[export] Instance Session_settable : Settable Session := λ x,
  mkSession (tracker x) (machine x) (ledger x) (records x) (plan x) (outbox x) (pending x)
    (blocked_streak x) (in_flight x) (update_rx x).

(** What a step reads from outside the session. *)
Record RoundEnv : Type := mkEnv {
  clock : Clock;
  harness_enabled : bool;
  posture : bool;                         (* goal_posture when the round is judged *)
  posture_after_claim : bool;             (* and after a requested verification *)
  current_tokens : Z;
  round_tools : list string;
  workspace_changes : option (list string);
  env_fs_temp : string;                   (* the temporary directory *)
}.

(** ** Steps both sides take *)

Definition emit (o : Output) (s : Session) : Session := s <| outbox := outbox s ++ [o] |>.

Definition on_tracker (f : GoalTracker → GoalTracker) (s : Session) : Session :=
  s <| tracker := f (tracker s) |>.

Definition force_refresh (s : Session) : Session :=
  on_tracker (force_refresh_criteria_view (plan s)) s.

Definition view_of (s : Session) : list CriterionView :=
  match orchestration (tracker s) with Some o => criteria_view o | None => [] end.

Definition ses_status (s : Session) : option GoalStatus := tracker_status (tracker s).

Definition goal_active (t : GoalTracker) : bool := bool_decide (tracker_status t = Some Active).

(** [self.goal_tokens(..)] *)
Definition session_goal_tokens (env : RoundEnv) (s : Session) : (Z * Z) * Session :=
  let '(r, t) := goal_tokens (current_tokens env) (records s) (tracker s) in
  (r, s <| tracker := t |>).

(** [emit_goal_updated] *)
Definition emit_goal_updated (env : RoundEnv) (s : Session) : Session :=
  let s := on_tracker (λ t, refresh_criteria_view (plan s) (account_elapsed (clock env) t)) s in
  match orchestration (tracker s) with Some _ => emit GoalUpdated s | None => s end.

(** [clear_pending_classifier_completions] *)
Definition clear_pending_classifier_completions (s : Session) : Session := s <| pending := [] |>.

(** ** The deferral ladder (goal.rs) *)

(** [acceptance_criteria_total] *)
Definition acceptance_criteria_total (p : PlanFile) : nat :=
  match p.2 with
  | None => 0
  | Some body =>
      let rows := length (parse_dual_rows body) in
      if 0 <? rows then rows else length (extract_numbered_acceptance_criteria body)
  end.

(** [open_criteria] *)
Definition open_criteria (p : PlanFile) : list N :=
  match p.2 with
  | None => []
  | Some body =>
      omap (λ x, x) (imap (λ i r, if exec r && audit r then None else Some (u32_succ (CriterionGraph.as_u32 i)))
                       (parse_dual_rows body))
  end.

(** [has_reachable_open_criterion] *)
Definition has_reachable_open_criterion (open : list N) (g : option GoalOrchestration) : bool :=
  match g with
  | None => false
  | Some o =>
      if any (λ d, opt_eqb (dc_criterion d) None) (deferred_criteria o) then false
      else any (λ n, negb (any (λ d, opt_eqb (dc_criterion d) (Some n)) (deferred_criteria o))) open
  end.

(** [auto_pause_goal_if_active_with_message] *)
Definition auto_pause_goal_if_active_with_message (env : RoundEnv) (r : GoalPauseReason) (msg : string)
    (s : Session) : bool * Session :=
  if negb (halts_unattended_run r) then (false, s)
  else if negb (goal_active (tracker s)) then (false, s)
  else
    let s := on_tracker (λ t, (pause_with_message (clock env) r msg t).2) s in
    let s := clear_pending_classifier_completions s in
    let '(_, s) := session_goal_tokens env s in
    (true, emit (GoalAutoPaused r) (emit_goal_updated env s)).

Definition deferral_list (report : list string) : string := join nl (map (λ l, "- " +:+ l) report).

Definition continue_ack : string :=
  "Blocker recorded as deferred. Continue with the acceptance criteria that are still reachable; the deferral is reported when the goal ends.".
Definition ended_ack : string :=
  "Blocker recorded. No reachable criteria remain, so the goal stopped and the deferrals were reported.".

(** [defer_blocker_or_end_run]: [Some (run_ended, ack)]. *)
Definition defer_blocker_or_end_run (env : RoundEnv) (blocker : string) (s : Session)
    : option (bool * string) * Session :=
  let total := acceptance_criteria_total (plan s) in
  if negb (goal_active (tracker s)) then (None, s)
  else
    let s := on_tracker (λ t, (defer_criterion None blocker t).2) s in
    let report := deferral_report (tracker s) in
    if negb (all_remaining_work_deferred total (tracker s)) then (Some (false, continue_ack), s)
    else
      let msg := "Goal stopped: no reachable acceptance criteria remain." +:+ nl +:+ "Deferred:" +:+ nl
                 +:+ deferral_list report in
      let '(_, s) := auto_pause_goal_if_active_with_message env PauseVerification msg s in
      (Some (true, ended_ack), s).

(** [format_goal_pause_message] *)
Definition format_goal_pause_message (headline pause_summary details_path : string) : string :=
  let has_path := negb (is_empty (trim details_path)) in
  match is_empty (trim pause_summary), has_path with
  | true, true => headline +:+ " See " +:+ details_path
  | true, false => headline
  | false, true => headline +:+ nl +:+ pause_summary +:+ nl +:+ "See " +:+ details_path
  | false, false => headline +:+ nl +:+ pause_summary
  end.

(** [defer_refuted_or_end_run]: whether the run ended. *)
Definition defer_refuted_or_end_run (env : RoundEnv) (fs : list ClassifierFinding)
    (why details_path pause_summary : string) (attempt : N) (s : Session) : bool * Session :=
  let refuted := omap cf_criterion fs in
  let localized := negb (is_nil fs) && (length refuted =? length fs) in
  let total := acceptance_criteria_total (plan s) in
  let open := open_criteria (plan s) in
  let s := if localized
           then on_tracker (λ t, foldl (λ t c, (defer_criterion (Some c) why t).2) t refuted) s
           else on_tracker (λ t, (defer_criterion None why t).2) s in
  let exhausted := all_remaining_work_deferred total (tracker s)
                   || negb (has_reachable_open_criterion open (orchestration (tracker s))) in
  if negb exhausted then (false, on_tracker grant_fresh_classifier_budget s)
  else
    let msg := format_goal_pause_message
      ("Goal stopped after " +:+ pretty attempt
       +:+ " verification attempts: no reachable acceptance criteria remain." +:+ nl +:+ "Deferred:" +:+ nl
       +:+ deferral_list (deferral_report (tracker s))) pause_summary details_path in
    let '(_, s) := auto_pause_goal_if_active_with_message env PauseVerification msg s in
    (true, s).

(** ** What the drain promises to the gate

    The gate hands claims to the drain and looks at the session afterwards. It
    relies on two things only: a drain never completes a goal, and it leaves the
    ledger alone. *)
Class DrainLaws (drain : list Envelope → Session → Session) : Prop := {
  drain_completes_nothing extra s : ses_status (drain extra s) = Some Complete → ses_status s = Some Complete;
  drain_keeps_ledger extra s : ledger (drain extra s) = ledger s;
}.
