(* ===== verification/GateSessionFacts.v ===== *)
(** * Facts about the session

    What the steps of [GateSession] leave of the goal's status, of the plan and
    of the ledger, and the deferral ladder: when a blocked or refuted goal goes
    on and when it is stopped. *)

From Stdlib Require Import Ascii String ZArith.
From S2P Require Import Prelude RustStr CriterionGraph GraphSchedule UpdateGoal GateSession Checklist CriteriaView TaskState Progress Decide GoalTracker.
From stdpp Require Import options.

(** ** What each step leaves of the status and of the plan *)

Lemma update_keeps_status f t :
  (∀ o, GoalTracker.status (f o) = GoalTracker.status o) → tracker_status (update_goal f t) = tracker_status t.
Proof. intros Hf. destruct t as [[o|] ? ?]; [|done]. unfold tracker_status. cbn. by rewrite Hf. Qed.

Lemma ratchet_status c n o : GoalTracker.status (ratchet_tokens c n o) = GoalTracker.status o.
Proof. by destruct o. Qed.

Lemma goal_tokens_status c r t : tracker_status (goal_tokens c r t).2 = tracker_status t.
Proof.
  unfold goal_tokens. destruct t as [[o|] d a]; [|done]. cbn [orchestration].
  destruct (token_sums _ _) as [all fin]. unfold tracker_status.
  cbn [orchestration snd fmap option_fmap option_map set_field]. by rewrite ratchet_status.
Qed.

Lemma refresh_view_status p t : tracker_status (refresh_criteria_view p t) = tracker_status t.
Proof.
  unfold refresh_criteria_view. destruct p as [m [b|]], t as [[o|] d a]; cbn [orchestration]; try done;
    by destruct (bool_decide _ && _).
Qed.

Lemma force_refresh_status p t : tracker_status (force_refresh_criteria_view p t) = tracker_status t.
Proof. unfold force_refresh_criteria_view. rewrite refresh_view_status. by apply update_keeps_status. Qed.

Lemma account_status c t : tracker_status (account_elapsed c t) = tracker_status t.
Proof. unfold account_elapsed. by destruct t as [[o|] d [a|]]. Qed.

Lemma defer_status c r t : tracker_status (defer_criterion c r t).2 = tracker_status t.
Proof.
  unfold defer_criterion. destruct t as [[o|] d a]; [|done]. cbn [orchestration].
  by destruct (any _ _).
Qed.

Lemma grant_status t : tracker_status (grant_fresh_classifier_budget t) = tracker_status t.
Proof. by apply update_keeps_status. Qed.

Lemma session_goal_tokens_status env s : ses_status (session_goal_tokens env s).2 = ses_status s.
Proof.
  unfold session_goal_tokens. pose proof (goal_tokens_status (current_tokens env) (records s) (tracker s)) as H.
  destruct (goal_tokens _ _ _) as [r t]. exact H.
Qed.

Lemma emit_goal_updated_status env s : ses_status (emit_goal_updated env s) = ses_status s.
Proof.
  unfold emit_goal_updated, ses_status.
  set (t := refresh_criteria_view (plan s) (account_elapsed (clock env) (tracker s))).
  assert (tracker_status t = tracker_status (tracker s)) as <- by (unfold t; by rewrite refresh_view_status, account_status).
  change (on_tracker _ s) with (s <| tracker := t |>). cbn [tracker set_field].
  by destruct (orchestration t).
Qed.

Lemma force_refresh_ses_status s : ses_status (force_refresh s) = ses_status s.
Proof. apply force_refresh_status. Qed.

Lemma record_event_status c e d t : tracker_status (record_event c e d t) = tracker_status t.
Proof. by apply update_keeps_status. Qed.

Lemma goal_active_spec t : goal_active t = true ↔ tracker_status t = Some Active.
Proof. unfold goal_active. apply bool_decide_eq_true. Qed.

Lemma pause_status c r msg t :
  tracker_status (pause_inner c r msg t).2
  = if goal_active t then Some (to_status r) else tracker_status t.
Proof.
  unfold pause_inner. destruct t as [[o|] d a]; [|done]. cbn [orchestration active_since].
  destruct (goal_active _) eqn:Ha.
  - apply goal_active_spec in Ha. unfold tracker_status in Ha. cbn in Ha. injection Ha as Ha.
    rewrite bool_decide_eq_true_2 by done. cbn [snd]. rewrite record_event_status.
    unfold tracker_status. cbn [orchestration set_field fmap option_fmap option_map]. by destruct msg.
  - rewrite bool_decide_eq_false_2; [done|]. intros E.
    apply not_true_iff_false in Ha. apply Ha. apply goal_active_spec. unfold tracker_status. cbn. by rewrite E.
Qed.

Lemma auto_pause_status env r msg s :
  auto_pause_goal_if_active_with_message env r msg s
    = (halts_unattended_run r && goal_active (tracker s),
       (auto_pause_goal_if_active_with_message env r msg s).2)
  ∧ ses_status (auto_pause_goal_if_active_with_message env r msg s).2
    = if halts_unattended_run r && goal_active (tracker s) then Some (to_status r) else ses_status s.
Proof.
  unfold auto_pause_goal_if_active_with_message.
  destruct (halts_unattended_run r); [|done]. destruct (goal_active (tracker s)) eqn:Ha; [|done].
  cbn [negb andb].
  set (s0 := clear_pending_classifier_completions _).
  pose proof (session_goal_tokens_status env s0) as Hs.
  destruct (session_goal_tokens env s0) as [x s']. cbn [snd fst] in *. split; [done|].
  change (ses_status (emit_goal_updated env s') = Some (to_status r)).
  rewrite emit_goal_updated_status, Hs. unfold ses_status, s0, clear_pending_classifier_completions, on_tracker. cbn [tracker set_field].
  unfold pause_with_message. by rewrite pause_status, Ha.
Qed.

(** A blocker that names no criterion leaves nothing of a plan that has one. *)
Lemma defer_none_exhausts r t total :
  is_Some (orchestration t) →
  all_remaining_work_deferred total (defer_criterion None r t).2 = negb (total =? 0).
Proof.
  intros [o Ho]. unfold all_remaining_work_deferred, defer_criterion. rewrite Ho.
  destruct (any _ (deferred_criteria o)) eqn:Ea; cbn [snd].
  - rewrite Ho. destruct (total =? 0); [done|]. cbn [orb negb].
    destruct (deferred_criteria o) as [|d ds]; [done|]. cbn [is_nil]. by rewrite Ea.
  - cbn [orchestration set_field deferred_criteria]. destruct (total =? 0); [done|].
    cbn [orb negb]. replace (is_nil _) with false by (by destruct (deferred_criteria o)).
    unfold any. by rewrite existsb_app, orb_true_r.
Qed.

Lemma session_goal_tokens_ledger env s : ledger (session_goal_tokens env s).2 = ledger s.
Proof. unfold session_goal_tokens. by destruct (goal_tokens _ _ _). Qed.

Lemma emit_goal_updated_ledger env s : ledger (emit_goal_updated env s) = ledger s.
Proof. unfold emit_goal_updated. by destruct (orchestration _). Qed.

Lemma auto_pause_ledger env r msg s :
  ledger (auto_pause_goal_if_active_with_message env r msg s).2 = ledger s.
Proof.
  unfold auto_pause_goal_if_active_with_message. destruct (halts_unattended_run r); [|done].
  destruct (goal_active _); [|done]. cbn [negb]. set (s0 := clear_pending_classifier_completions _).
  pose proof (session_goal_tokens_ledger env s0) as Hs. destruct (session_goal_tokens env s0) as [x s'].
  cbn [snd] in *. change (ledger (emit_goal_updated env s') = ledger s). by rewrite emit_goal_updated_ledger, Hs.
Qed.

Lemma defer_blocker_ledger env b s : ledger (defer_blocker_or_end_run env b s).2 = ledger s.
Proof.
  unfold defer_blocker_or_end_run. destruct (goal_active _); [|done]. cbn [negb].
  set (s1 := on_tracker _ s). destruct (all_remaining_work_deferred _ _); [|done]. cbn [negb].
  pose proof (auto_pause_ledger env PauseVerification
    ("Goal stopped: no reachable acceptance criteria remain." +:+ nl +:+ "Deferred:" +:+ nl
     +:+ deferral_list (deferral_report (tracker s1))) s1) as H.
  destruct (auto_pause_goal_if_active_with_message _ _ _ _) as [x s2]. cbn [snd] in *. by rewrite H.
Qed.

(** The ladder's outcome for a blocker the run reports about itself. *)
Lemma defer_blocker_outcome env b s :
  goal_active (tracker s) = true →
  let '(out, s') := defer_blocker_or_end_run env b s in
  if acceptance_criteria_total (plan s) =? 0
  then out = Some (false, continue_ack) ∧ ses_status s' = Some Active
  else out = Some (true, ended_ack) ∧ ses_status s' = Some (to_status PauseVerification).
Proof.
  intros Ha. unfold defer_blocker_or_end_run. rewrite Ha. cbn [negb].
  set (s1 := on_tracker _ s).
  assert (ses_status s1 = Some Active) as Hs1.
  { unfold ses_status, s1, on_tracker. cbn [tracker set_field]. rewrite defer_status. by apply goal_active_spec. }
  assert (all_remaining_work_deferred (acceptance_criteria_total (plan s)) (tracker s1)
          = negb (acceptance_criteria_total (plan s) =? 0)) as ->.
  { unfold s1, on_tracker. cbn [tracker set_field]. apply defer_none_exhausts.
    apply goal_active_spec in Ha. unfold tracker_status in Ha. by destruct (orchestration _). }
  rewrite negb_involutive. destruct (acceptance_criteria_total (plan s) =? 0); [done|].
  pose proof (auto_pause_status env PauseVerification
    ("Goal stopped: no reachable acceptance criteria remain." +:+ nl +:+ "Deferred:" +:+ nl
     +:+ deferral_list (deferral_report (tracker s1))) s1) as [_ Hp].
  destruct (auto_pause_goal_if_active_with_message _ _ _ _) as [x s2]. cbn [snd] in Hp.
  split; [done|]. rewrite Hp. by rewrite (proj2 (goal_active_spec (tracker s1))).
Qed.

Lemma session_goal_tokens_plan env s : plan (session_goal_tokens env s).2 = plan s.
Proof. unfold session_goal_tokens. by destruct (goal_tokens _ _ _). Qed.

Lemma defer_blocker_plan env b s : plan (defer_blocker_or_end_run env b s).2 = plan s.
Proof.
  unfold defer_blocker_or_end_run. destruct (goal_active (tracker s)); [|done]. cbn [negb].
  set (s1 := on_tracker _ s). destruct (all_remaining_work_deferred _ _); [|done]. cbn [negb].
  assert (∀ msg, plan (auto_pause_goal_if_active_with_message env PauseVerification msg s1).2 = plan s) as H.
  { intros msg. unfold auto_pause_goal_if_active_with_message. cbn [halts_unattended_run negb].
    destruct (goal_active (tracker s1)); [|done]. cbn [negb]. set (s2 := clear_pending_classifier_completions _).
    pose proof (session_goal_tokens_plan env s2) as Hs. destruct (session_goal_tokens env s2) as [x s3].
    cbn [snd] in *. change (plan (emit_goal_updated env s3) = plan s). rewrite <- (Hs : plan s3 = plan s).
    unfold emit_goal_updated. by destruct (orchestration _). }
  pose proof (H ("Goal stopped: no reachable acceptance criteria remain." +:+ nl +:+ "Deferred:" +:+ nl
     +:+ deferral_list (deferral_report (tracker s1)))) as Hm.
  destruct (auto_pause_goal_if_active_with_message _ _ _ _) as [x s2]. exact Hm.
Qed.


(** ** Giving up on refuted criteria *)

Definition given_up (t : GoalTracker) : list (option N) :=
  match orchestration t with Some o => map dc_criterion (deferred_criteria o) | None => [] end.

Lemma any_deferred x ds : any (λ d, opt_eqb (dc_criterion d) x) ds = true ↔ x ∈ map dc_criterion ds.
Proof.
  rewrite any_spec, list_elem_of_fmap. unfold opt_eqb. setoid_rewrite bool_decide_eq_true. naive_solver.
Qed.

Lemma defer_given_up x why t y :
  is_Some (orchestration t) →
  y ∈ given_up (defer_criterion x why t).2 ↔ y = x ∨ y ∈ given_up t.
Proof.
  intros [o Ho]. unfold defer_criterion, given_up. rewrite Ho.
  destruct (any _ (deferred_criteria o)) eqn:Ea; cbn [snd].
  - apply any_deferred in Ea. rewrite Ho. naive_solver.
  - cbn [orchestration set_field deferred_criteria]. rewrite map_app, elem_of_app. cbn [map dc_criterion].
    rewrite list_elem_of_singleton. naive_solver.
Qed.

Lemma defer_all_given_up ns why : ∀ t y,
  is_Some (orchestration t) →
  is_Some (orchestration (foldl (λ t c, (defer_criterion (Some c) why t).2) t ns))
  ∧ tracker_status (foldl (λ t c, (defer_criterion (Some c) why t).2) t ns) = tracker_status t
  ∧ (y ∈ given_up (foldl (λ t c, (defer_criterion (Some c) why t).2) t ns)
     ↔ (∃ n, y = Some n ∧ n ∈ ns) ∨ y ∈ given_up t).
Proof.
  induction ns as [|n ns IH]; intros t y Ht; cbn [foldl].
  - split_and!; [done..|]. setoid_rewrite elem_of_nil. naive_solver.
  - assert (is_Some (orchestration (defer_criterion (Some n) why t).2)) as Ht1.
    { destruct Ht as [o Ho]. unfold defer_criterion. rewrite Ho. destruct (any _ _); cbn [snd]; eauto. }
    destruct (IH _ y Ht1) as (H1' & H2' & H3'). split_and!; [done|by rewrite H2', defer_status|].
    rewrite H3', defer_given_up by done. setoid_rewrite elem_of_cons. naive_solver.
Qed.

Lemma all_deferred_spec total t :
  (N.of_nat total ≤ u32_max)%N →
  all_remaining_work_deferred total t = true →
  total ≠ 0 ∧ (None ∈ given_up t ∨ ∀ n, (1 ≤ n ≤ N.of_nat total)%N → Some n ∈ given_up t).
Proof.
  intros Hn. unfold all_remaining_work_deferred, given_up. destruct (orchestration t) as [o|]; [|done].
  destruct (Nat.eqb_spec total 0) as [|E]; [done|]. destruct (is_nil _); [done|]. cbn [orb].
  intros H. split; [done|]. destruct (any _ _) eqn:Ea; [left; by apply any_deferred|right].
  rewrite as_u32_small in H by done. rewrite all_spec in H. intros n Hin.
  specialize (H (N.to_nat n)). rewrite elem_of_seq, N2Nat.id, contains_spec in H.
  apply list_elem_of_omap in H as (d & Hd & Hc); [|lia].
  rewrite <- Hc. by apply list_elem_of_fmap_2.
Qed.

Lemma reachable_spec open t :
  has_reachable_open_criterion open (orchestration t) = true ↔
    is_Some (orchestration t) ∧ (None ∉ given_up t) ∧ ∃ n, n ∈ open ∧ Some n ∉ given_up t.
Proof.
  unfold has_reachable_open_criterion, given_up. destruct (orchestration t) as [o|].
  - destruct (any _ (deferred_criteria o)) eqn:Ea.
    + apply any_deferred in Ea. naive_solver.
    + apply not_true_iff_false in Ea. rewrite any_deferred in Ea. rewrite any_spec.
      
      split.
      * intros (n & Hn & Hx%negb_true_iff%not_true_iff_false). rewrite any_deferred in Hx. eauto.
      * intros (_ & _ & n & Hn & Hx). exists n. split; [done|].
        apply negb_true_iff, not_true_iff_false. by rewrite any_deferred.
  - split; [done|]. by intros [[] _].
Qed.

Lemma open_in_range p n :
  (N.of_nat (acceptance_criteria_total p) ≤ u32_max)%N → n ∈ open_criteria p →
  (1 ≤ n ≤ N.of_nat (acceptance_criteria_total p))%N.
Proof.
  unfold open_criteria, acceptance_criteria_total. destruct (p.2) as [body|]; [|by intros _ ?%elem_of_nil].
  intros Ht Hn. apply list_elem_of_omap in Hn as (x & Hx & ->).
  apply elem_of_lookup_imap in Hx as (i & r & Hi & Hr). apply lookup_lt_Some in Hr.
  destruct (Nat.ltb_spec 0 (length (parse_dual_rows body))); [|lia].
  destruct (exec r && audit r); [done|]. injection Hi as ->. rewrite u32_succ_as_u32 with (k := length (parse_dual_rows body)) by done.
  lia.
Qed.

(** What the ladder holds as given up once the findings [fs] are deferred. *)
Definition localized (fs : list ClassifierFinding) : bool :=
  negb (is_nil fs) && (length (omap cf_criterion fs) =? length fs).

Lemma omap_full {A B} (f : A → option B) l : length (omap f l) = length l ↔ ∀ x, x ∈ l → is_Some (f x).
Proof.
  induction l as [|x l IH]; [split; [by intros _ ? ?%elem_of_nil|done]|].
  assert (length (omap f l) ≤ length l) as Hle.
  { clear. induction l as [|y l IH]; cbn; [done|]. destruct (f y); cbn; lia. }
  cbn. destruct (f x) as [y|] eqn:E; cbn; setoid_rewrite elem_of_cons.
  - rewrite Nat.succ_inj_wd, IH. naive_solver.
  - split; [lia|]. intros H. destruct (H x) as [? ?]; [by left|congruence].
Qed.

Lemma localized_spec fs :
  localized fs = true ↔ fs ≠ [] ∧ ∀ f, f ∈ fs → is_Some (cf_criterion f).
Proof.
  unfold localized. rewrite andb_true_iff, Nat.eqb_eq, omap_full, negb_true_iff.
  destruct fs as [|f fs]; cbn [is_nil]; naive_solver.
Qed.

(** The tracker once the findings are recorded as given up. *)
Definition after_deferral (fs : list ClassifierFinding) (why : string) (t : GoalTracker) : GoalTracker :=
  if localized fs then foldl (λ t c, (defer_criterion (Some c) why t).2) t (omap cf_criterion fs)
  else (defer_criterion None why t).2.

Lemma after_deferral_spec fs why t :
  is_Some (orchestration t) →
  is_Some (orchestration (after_deferral fs why t))
  ∧ tracker_status (after_deferral fs why t) = tracker_status t
  ∧ (None ∈ given_up (after_deferral fs why t) ↔ localized fs = false ∨ None ∈ given_up t)
  ∧ (localized fs = true → ∀ n,
      Some n ∈ given_up (after_deferral fs why t) ↔ n ∈ omap cf_criterion fs ∨ Some n ∈ given_up t).
Proof.
  intros Ht. unfold after_deferral. destruct (localized fs).
  - destruct (defer_all_given_up (omap cf_criterion fs) why t None Ht) as (H1' & H2' & H3').
    split_and!; [done|done|rewrite H3'; naive_solver|]. intros _ n.
    destruct (defer_all_given_up (omap cf_criterion fs) why t (Some n) Ht) as (_ & _ & ->). naive_solver.
  - split_and!; [|apply defer_status|rewrite defer_given_up by done; naive_solver|done].
    destruct Ht as [o Ho]. unfold defer_criterion. rewrite Ho. destruct (any _ _); cbn [snd]; eauto.
Qed.

Lemma exhausted_spec total open t :
  is_Some (orchestration t) → (N.of_nat total ≤ u32_max)%N →
  (∀ n, n ∈ open → (1 ≤ n ≤ N.of_nat total)%N) →
  all_remaining_work_deferred total t || negb (has_reachable_open_criterion open (orchestration t)) = false ↔
    (None ∉ given_up t) ∧ ∃ n, n ∈ open ∧ Some n ∉ given_up t.
Proof.
  intros Ht Hk Hopen. rewrite orb_false_iff, negb_false_iff, reachable_spec. split; [naive_solver|].
  intros (Hn & n & Hno & Hng). split; [|by eauto].
  apply not_true_iff_false. intros [_ [?|Hall]]%all_deferred_spec; [done| |done].
  by apply Hng, Hall, Hopen.
Qed.

(** The deferral ladder after a refuted claim. When the panel refutes an
    Active goal's claim once too often, the run goes on exactly when every
    finding names a criterion (and there is one), nothing was ever given up for
    the goal as a whole, and some open criterion of the checklist was neither
    named now nor given up before; the goal then stays Active with its
    verification attempts reset. Otherwise the goal is left Blocked. *)
Lemma refuted_claim_ladder (env : RoundEnv) (fs : list ClassifierFinding) (why : string)
    (details_path pause_summary : string) (attempt : N) (s : Session) :
  ses_status s = Some Active → (N.of_nat (acceptance_criteria_total (plan s)) ≤ u32_max)%N →
  let '(ended, s') := defer_refuted_or_end_run env fs why details_path pause_summary attempt s in
  (ended = false ↔
     (fs ≠ [] ∧ ∀ f, f ∈ fs → is_Some (cf_criterion f)) ∧ (None ∉ given_up (tracker s))
     ∧ ∃ n, n ∈ open_criteria (plan s) ∧ (n ∉ omap cf_criterion fs) ∧ Some n ∉ given_up (tracker s))
  ∧ if ended then ses_status s' = Some Blocked
    else ses_status s' = Some Active
         ∧ classifier_runs_attempted <$> orchestration (tracker s') = Some 0%N.
Proof.
  intros Ha Hk. assert (is_Some (orchestration (tracker s))) as Ht.
  { unfold ses_status, tracker_status in Ha. by destruct (orchestration (tracker s)). }
  destruct (after_deferral_spec fs why (tracker s) Ht) as (Ht1 & Hs1 & Hnone & Hsome).
  set (t1 := after_deferral fs why (tracker s)) in *.
  pose proof (exhausted_spec _ _ t1 Ht1 Hk (λ n, open_in_range (plan s) n Hk)) as Hex.
  unfold defer_refuted_or_end_run. fold (localized fs).
  set (s1 := if localized fs then _ else _).
  assert (tracker s1 = t1) as E by (unfold s1, t1, after_deferral; by destruct (localized fs)).
  clearbody s1. rewrite E.
  destruct (all_remaining_work_deferred _ t1 || _) eqn:Ee; cbn [negb].
  - match goal with |- context [auto_pause_goal_if_active_with_message _ _ ?m _] =>
      pose proof (auto_pause_status env PauseVerification m s1) as [_ Hp] end.
    destruct (auto_pause_goal_if_active_with_message _ _ _ _) as [x s2]. cbn [snd] in Hp. split.
    + split; [done|]. intros (Hl%localized_spec & Hn & n & Ho & Hnf & Hng). exfalso.
      cut (true = false); [done|]. apply Hex. rewrite Hnone, Hl. split; [naive_solver|].
      exists n. rewrite Hsome by done. naive_solver.
    + rewrite Hp. rewrite (proj2 (goal_active_spec (tracker s1))); [done|]. rewrite E, Hs1. exact Ha.
  - split.
    + split; [intros _|done]. destruct (proj1 Hex eq_refl) as (Hn & n & Ho & Hng). rewrite Hnone in Hn.
      destruct (localized fs) eqn:El; [|naive_solver]. rewrite Hsome in Hng by done.
      split; [by apply localized_spec|]. naive_solver.
    + unfold ses_status, on_tracker. cbn [tracker set_field]. rewrite grant_status, E, Hs1. split; [exact Ha|].
      destruct Ht1 as [o1 Ho1]. unfold grant_fresh_classifier_budget, update_goal. by rewrite Ho1.
Qed.


(** ** Concrete sessions *)

(** A second refutation of a criterion that is already given up refills the
    verification budget again although nothing new is given up: the grant is
    not paid for by a deferral. *)
Definition gate_goal : GoalOrchestration := new_goal "g" "ship it" (Some 1000%Z) 0 "t0" None "0123456789ab" true.

Definition plan_with (a b : string) : PlanFile :=
  (Some 7%N, Some (join nl
    ["# Plan"; "## Acceptance checklist"; "| Exec | Audit | Criterion |"; "|---|---|---|";
     "| [" +:+ a +:+ "] | [ ] | builds |"; "| [" +:+ b +:+ "] | [ ] | tests pass |"])).

Definition gate_session (a b : string) : Session :=
  mkSession (mkTracker (Some gate_goal) "/s" (Some 5%N)) (machine_start machine_new) ledger_new [] (plan_with a b) [] [] 0 false None.

Definition gate_env (tokens : Z) (tools : list string) : RoundEnv :=
  mkEnv (mkClock 10 "t1") true true true tokens tools (Some []) "/tmp".

Definition refute_one : list ClassifierFinding := [mkClassifierFinding (Some 1%N) "does not build"].

Definition spent_attempts (s : Session) : Session :=
  on_tracker (update_goal (λ o, o <| classifier_runs_attempted := 3%N |>)) s.

Lemma regrant_costs_nothing :
  let s1 := (defer_refuted_or_end_run (gate_env 0 []) refute_one "refuted" "/d" "" 3 (gate_session "x" "x")).2 in
  let '(ended, s2) := defer_refuted_or_end_run (gate_env 0 []) refute_one "refuted" "/d" "" 3 (spent_attempts s1) in
  ended = false ∧ given_up (tracker s2) = given_up (tracker s1)
  ∧ classifier_runs_attempted <$> orchestration (tracker (spent_attempts s1)) = Some 3%N
  ∧ classifier_runs_attempted <$> orchestration (tracker s2) = Some 0%N.
Proof. vm_compute. done. Qed.

Lemma refuted_claim_ladder_witness :
  let '(ended, s') := defer_refuted_or_end_run (gate_env 0 []) refute_one "refuted" "/d" "" 3 (gate_session "x" "x") in
  ended = false ∧ ses_status s' = Some Active.
Proof.
  pose proof (refuted_claim_ladder (gate_env 0 []) refute_one "refuted" "/d" "" 3 (gate_session "x" "x")
    eq_refl ltac:(by vm_compute)) as H.
  assert ((defer_refuted_or_end_run (gate_env 0 []) refute_one "refuted" "/d" "" 3 (gate_session "x" "x")).1
          = false) as He by by vm_compute.
  destruct (defer_refuted_or_end_run _ _ _ _ _) as [ended s']. cbn [fst] in He. subst ended.
  split; [done|apply H].
Defined.

