(* ===== verification/DoggyGate.v ===== *)
(** * The completion gate's host ([doggy_gate.rs])

    What runs after every model round: drain the model's claims, enforce the
    token budget, ask for acceptance, measure the round, decide, and carry the
    decision out on the goal tracker. The drain is an argument with the interface
    [DrainLaws]; [Drain] implements it. *)

From Stdlib Require Import Ascii String ZArith.
From S2P Require Import Prelude RustStr UpdateGoal GateSession Checklist CriteriaView TaskState Progress Decide GoalTracker.
From stdpp Require Import options.

(** ** What the criteria say *)

Definition unclaimed_criteria (criteria : list CriterionView) : list OpenItem :=
  map (λ c, mkOpenItem (Some (pretty (cv_number c)))
              ("criterion " +:+ pretty (cv_number c) +:+ ": " +:+ text c))
    (bfilter (λ c, negb (cv_exec c) && negb (CriteriaView.deferred c)) criteria).

Definition acceptance_is_claimed (criteria : list CriterionView) : bool :=
  let live := bfilter (λ c, negb (CriteriaView.deferred c)) criteria in
  negb (is_nil live) && all cv_exec live && all (λ c, negb (cv_audit c)) criteria.

Definition pick (f : CriterionView → bool) (criteria : list CriterionView) : list N :=
  map cv_number (bfilter f criteria).

(** The criteria and the file list a round is measured by. *)
Definition round_activity (changed : option (list string)) (tools : list string)
    (criteria : list CriterionView) : RoundActivity :=
  {| changed_files := changed; tools_called := tools;
     execed := pick cv_exec criteria; verified := pick cv_audit criteria;
     TaskState.deferred := pick CriteriaView.deferred criteria |}.

Definition default_rejection : string :=
  "Verification rejected the completion claim; fix gaps and re-verify.".

(** [doggy_verification_outcome] on the goal. *)
Definition verification_outcome (g : option GoalOrchestration) : VerificationOutcome :=
  match g with
  | None => Pending
  | Some o =>
      match last_classifier_verdict o with
      | Some GoalTracker.Achieved => TaskState.Achieved
      | Some NotAchieved =>
          if negb (is_nil (last_classifier_findings o)) then
            Rejected (map (λ f, mkFinding (Some "error") (cf_criterion f) (cf_message f))
                        (last_classifier_findings o))
          else
            let message := match last_classifier_gaps o with
                           | Some s => let t := trim s in if is_empty t then default_rejection else t
                           | None => default_rejection
                           end in
            Rejected [mkFinding (Some "error") None message]
      | None => Pending
      end
  end.

(** ** What the model is told *)

Definition moved_line (label : string) (tail : string) (ns : list N) : list string :=
  if is_nil ns then [] else [label +:+ number_list ", " ns +:+ tail].

Definition doggy_render_delta (d : RoundDelta) : string :=
  let first := "Round " +:+ pretty (TaskState.round d) +:+ " just ended." in
  if moved_nothing d then
    join nl [first; "Nothing changed: no tools were called and no acceptance criterion moved."]
  else
    join nl ([first; "- workspace: " +:+ workspace_line d; "- tools used: " +:+ tool_usage_line d]
      ++ moved_line "- you marked criteria " " done (awaiting verification)" (newly_execed d)
      ++ moved_line "- verification accepted criteria " "" (newly_verified d)
      ++ moved_line "- criteria " " were recorded as blocked and will not be retried" (newly_deferred d)
      ++ (if is_nil (newly_execed d) && is_nil (newly_verified d) && is_nil (newly_deferred d)
          then ["- no acceptance criterion moved"] else [])).

Definition fix_line (i : nat) (f : AuditFinding) : string :=
  pretty (i + 1)%nat +:+ ". "
  +:+ match severity f with Some s => "[" +:+ s +:+ "] " | None => "" end +:+ message f.

Definition stall_diagnosis (repeats : N) (reason : StallReason) : string :=
  match reason with
  | Idle => "you produced " +:+ pretty repeats +:+ " round(s) without calling a single tool. Describing what you are about to do is not doing it"
  | Repeated => "the last " +:+ pretty repeats +:+ " rounds were indistinguishable: same open criteria, same verification state, same tools. Restating the plan is not progress"
  end.

(** The body [doggy_inject] sends. *)
Definition inject_body (i : Injection) : string :=
  match i with
  | InjContinue open_summary d =>
      "Doggy completion gate — task is NOT done." +:+ nl +:+ nl
      +:+ doggy_render_delta d +:+ nl +:+ nl
      +:+ "Remaining work:" +:+ nl +:+ open_summary +:+ nl +:+ nl
      +:+ "Continue implementing. Completion is decided by the plan's acceptance checklist, not by your todo list: tick the Exec box for each criterion as you finish it. The gate requests verification on its own once every Exec is ticked."
  | InjFix fs =>
      "Doggy verification REJECTED — task is NOT done." +:+ nl +:+ nl
      +:+ "Findings to fix:" +:+ nl
      +:+ (if is_nil fs then "- (no detailed findings; re-check the goal and workspace diff)"
           else join nl (imap fix_line fs)) +:+ nl +:+ nl
      +:+ "Address every finding, then call update_goal(completed: true) again. Completion is only granted after verification Achieved."
  | InjReapproach repeats reason open_summary d =>
      "Doggy completion gate — " +:+ stall_diagnosis repeats reason +:+ "." +:+ nl +:+ nl
      +:+ doggy_render_delta d +:+ nl +:+ nl
      +:+ "Remaining work:" +:+ nl +:+ open_summary +:+ nl +:+ nl
      +:+ "Do exactly one of these in this round, starting with a tool call:" +:+ nl
      +:+ "1. Make a concrete change — write a file, run a command, fix a failing test — then tick that criterion's Exec box in the plan." +:+ nl
      +:+ "2. If a criterion is already satisfied, tick its Exec box now; the gate requests verification itself once all of them are ticked." +:+ nl
      +:+ "3. If it cannot be done in this environment, call update_goal(blocked_reason: ...) naming the blocker." +:+ nl +:+ nl
      +:+ "Do not re-plan, do not re-summarise, and do not re-read files you have already read. Further rounds like this one end the run."
  end.

Inductive DoggyRoundAction : Type := ActContinue | ActEndTurn.

(** ** Rounds *)

(** The claim the gate writes on the model's behalf; nobody waits for its answer. *)
Definition acceptance_claim : UpdateGoalInput :=
  mkUpdateGoal (Some true)
    (Some "Requested by the completion gate: every Exec mark on the acceptance checklist is ticked.") None.

(** How a model round ends, as far as the prompt loop looks at it; the tools a
    completed round called are the environment's [round_tools]. *)
Inductive RoundResult : Type :=
| RoundCompleted (refusal : bool)
| RoundNotCompleted.

(** Where the prompt loop breaks. *)
Inductive PromptExit : Type :=
| ExitNotCompleted
| ExitRefusal
| ExitFreeChat
| ExitGate
| ExitRoundCap.

Section gate.
(** [drain_goal_updates_with_extra] at the end of a turn: the model's pending
    [update_goal] calls and the extra ones given. *)
Variable drain : list Envelope → Session → Session.

(** [doggy_task_bound] *)
Definition doggy_task_bound (harness posture : bool) (s : Session) : bool :=
  harness && posture && goal_active (tracker s).

(** [doggy_emit_completion_ui] *)
Definition doggy_emit_completion_ui (env : RoundEnv) (completion : string) (fs : list AuditFinding)
    (s : Session) : Session :=
  let '(_, s) := session_goal_tokens env s in
  match orchestration (tracker s) with
  | Some _ => emit (CompletionUi completion fs) s
  | None => s
  end.

(** Stamp the path the details file is about to be moved to. *)
Definition stamp_rescued (job : DeferredGoalFsCleanup) (t : GoalTracker) : GoalTracker :=
  match details_src job with
  | Some src => match file_name src with
                | Some name => apply_rescued_details_path (path_join (cleanup_goal_dir job) name) t
                | None => t
                end
  | None => t
  end.

(** The state-only end of a goal, shared by the budget stop and by Done; the
    file-system job is queued. *)
Definition end_goal_deferred (env : RoundEnv) (s : GoalStatus) (e : GoalEvent) (ses : Session)
    : option DeferredGoalFsCleanup * Session :=
  let job := (λ o, mkCleanup (path_join (env_fs_temp env) ("grok-goal-" +:+ verifier_id o))
                     (last_classifier_details_path o) (goal_dir (tracker ses)))
               <$> orchestration (tracker ses) in
  match orchestration (tracker ses) with
  | Some o =>
      if bool_decide (GoalTracker.status o = Active) || is_paused (GoalTracker.status o) then
        let t := tracker ses <| orchestration := Some (end_goal (clock env) s (active_since (tracker ses)) o) |>
                   <| active_since := None |> in
        let t := record_event (clock env) e None t in
        (job, emit_goal_updated env (ses <| tracker := t |>))
      else (None, ses)
  | None => (None, ses)
  end.

Definition queue_cleanup (job : option DeferredGoalFsCleanup) (s : Session) : Session :=
  match job with
  | Some j => emit (RunFsCleanup j) (on_tracker (stamp_rescued j) s)
  | None => s
  end.

Definition budget_message (used budget : Z) : string :=
  "Goal token budget reached (" +:+ pretty used +:+ " of " +:+ pretty budget
  +:+ " tokens) — goal stopped. Use /goal clear, then /goal <objective> to start a new one.".

(** [enforce_goal_token_budget] *)
Definition enforce_goal_token_budget (env : RoundEnv) (s : Session) : bool * Session :=
  let '((used, _), s) := session_goal_tokens env s in
  match orchestration (tracker s) with
  | None => (false, s)
  | Some o =>
      match token_budget o with
      | None => (false, s)
      | Some budget =>
          if (used <? budget)%Z then (false, s)
          else
            let '(job, s) := end_goal_deferred env BudgetLimited BudgetExceeded s in
            (true, emit (SlashOutput (budget_message used budget))
                     (clear_pending_classifier_completions (queue_cleanup job s)))
      end
  end.

(** [doggy_mark_task_done] *)
Definition doggy_mark_task_done (env : RoundEnv) (s : Session) : Session :=
  let '(_, s) := session_goal_tokens env s in
  let s := match orchestration (tracker s) with
           | Some o => s <| records :=
               filter (λ p, tr_goal_id p.2 ≠ Some (goal_id o)) (records s) |>
           | None => s
           end in
  let '(job, s) := if goal_active (tracker s)
                   then end_goal_deferred env Complete GoalCompleted s
                   else (None, s) in
  let attempt := match orchestration (tracker s) with
                 | Some o => classifier_runs_attempted o
                 | None => 0%N
                 end in
  let s := doggy_emit_completion_ui env "done" [] s in
  emit (RunSummarizer attempt) (queue_cleanup job s).

(** ** Acceptance *)

(** [doggy_request_acceptance_if_claimed] *)
Definition doggy_request_acceptance_if_claimed (s : Session) : bool * Session :=
  let s := force_refresh s in
  if acceptance_is_claimed (view_of s) then
    let execed := pick cv_exec (view_of s) in
    if verification_already_requested_for (ledger s) execed then (false, s)
    else
      let s := s <| ledger := mark_verification_requested (ledger s) execed |> in
      (true, drain [(0%N, acceptance_claim)] s)
  else (false, s).

(** [doggy_snapshot_open_items] *)
Definition doggy_snapshot_open_items (s : Session) : OpenItemsSnapshot * Session :=
  let s := force_refresh s in
  (mkSnapshot (unclaimed_criteria (view_of s)) (goal_active (tracker s)), s).

(** ** The round *)

Definition cut_off_blocker (repeats : N) (reason : StallReason) : string :=
  match reason with
  | Idle => pretty repeats +:+ " consecutive rounds ended without a single tool call — the run is narrating rather than implementing"
  | Repeated => pretty repeats +:+ " consecutive rounds left the open criteria, the verification verdict and the tools used identical — retrying this is not converging"
  end.

Definition cut_off_message (repeats : N) (ack : string) : string :=
  "Doggy completion gate — " +:+ pretty repeats
  +:+ " rounds with no progress, so the harness stopped retrying that work and recorded it as blocked." +:+ nl +:+ nl
  +:+ ack +:+ nl +:+ nl
  +:+ "Pick up a different criterion. Repeating the previous approach will be cut off again.".

(** [doggy_cut_off_stalled_work] *)
Definition doggy_cut_off_stalled_work (env : RoundEnv) (repeats : N) (reason : StallReason) (s : Session)
    : DoggyRoundAction * Session :=
  let '(outcome, s) := defer_blocker_or_end_run env (cut_off_blocker repeats reason) s in
  match outcome with
  | None => (ActEndTurn, doggy_emit_completion_ui env "paused" [] s)
  | Some (true, _) => (ActEndTurn, doggy_emit_completion_ui env "paused" [] s)
  | Some (false, ack) =>
      let s := s <| ledger := reset_streaks (ledger s) |> in
      let s := doggy_emit_completion_ui env "executing" [] s in
      (ActContinue, emit (InjectMessage (cut_off_message repeats ack)) s)
  end.

(** The part of [run_doggy_round_end] that carries a decision out. *)
Definition perform_decision (env : RoundEnv) (d : TaskDecision) (s : Session) : DoggyRoundAction * Session :=
  match d with
  | TaskPaused (NoProgress repeats reason) => doggy_cut_off_stalled_work env repeats reason s
  | RunAnotherRound injection =>
      let fs := match injection with InjFix fs => fs | _ => [] end in
      let s := if negb (is_nil fs) then doggy_emit_completion_ui env "fixing" fs s
               else doggy_emit_completion_ui env "executing" [] s in
      let s := emit (InjectMessage (inject_body injection)) s in
      (ActContinue, s <| machine := mark_executing (machine s) |>)
  | TaskDone => (ActEndTurn, doggy_mark_task_done env s)
  | TaskPaused _ => (ActEndTurn, doggy_emit_completion_ui env "paused" [] s)
  end.

(** What the round is judged by. *)
Definition measure_round (env : RoundEnv) (s : Session) : TaskDecision * Session :=
  let '(open, s) := doggy_snapshot_open_items s in
  let verification := verification_outcome (orchestration (tracker s)) in
  let s := force_refresh s in
  let activity := round_activity (workspace_changes env) (round_tools env) (view_of s) in
  let '(l, (level, delta)) := observe (ledger s) open verification activity in
  let s := s <| ledger := l |> in
  let decision := decide_after_round
    {| round_ok := true; open_items := open; user_cancel := false; budget_hit := false;
       verification := verification; stall := level; delta := delta |} in
  (decision, s <| machine := machine_apply (machine s) decision |>).

Definition pause_turn (env : RoundEnv) (reason : PauseReason) (s : Session) : DoggyRoundAction * Session :=
  let s := s <| machine := machine_apply (machine s) (TaskPaused reason) |> in
  (ActEndTurn, doggy_emit_completion_ui env "paused" [] s).

(** [run_doggy_round_end] *)
Definition run_doggy_round_end (env : RoundEnv) (s : Session) : DoggyRoundAction * Session :=
  let s := drain [] s in
  let s := doggy_emit_completion_ui env "checking" [] s in
  let '(over_budget, s) := enforce_goal_token_budget env s in
  if over_budget then pause_turn env BudgetExhausted s
  else if negb (doggy_task_bound (harness_enabled env) (posture env) s) then pause_turn env InfraError s
  else
    let '(requested, s) := doggy_request_acceptance_if_claimed s in
    if requested && negb (doggy_task_bound (harness_enabled env) (posture_after_claim env) s)
    then (ActEndTurn, doggy_emit_completion_ui env "done" [] s)
    else
      let '(decision, s) := measure_round env s in
      perform_decision env decision s.

(** [doggy_end_run_at_round_cap] *)
Definition doggy_end_run_at_round_cap (env : RoundEnv) (rounds : N) (s : Session) : Session :=
  let '(outcome, s) := defer_blocker_or_end_run env
    ("ran " +:+ pretty rounds +:+ " rounds in a single prompt without the goal being accepted") s in
  let ended := match outcome with Some (e, _) => e | None => false end in
  let s := if ended then s else
    emit (SlashOutput ("Goal stopped after " +:+ pretty rounds
      +:+ " rounds in one prompt without acceptance. Nothing could be recorded as blocked, which usually means the plan has no parseable acceptance criteria — check plan.md before resuming.")) s in
  doggy_emit_completion_ui env "paused" [] s.
(** ** The prompt loop (turn.rs) *)

Definition DOGGY_MAX_ROUNDS_PER_PROMPT : N := 100.

(** [process_conversation_turn_with_recovery]: what the model does in the
    given round of the prompt, with the environment the round's end reads. *)
Variable model_round : N → Session → RoundResult * RoundEnv * Session.

(** One iteration of the loop: it breaks out, or goes on with the next round. *)
Definition prompt_round (rounds : N) (s : Session) : (PromptExit * N * Session) + (N * Session) :=
  let '(res, env, s) := model_round rounds s in
  match res with
  | RoundNotCompleted => inl (ExitNotCompleted, rounds, s)
  | RoundCompleted true => inl (ExitRefusal, rounds, s)
  | RoundCompleted false =>
      if negb (doggy_task_bound (harness_enabled env) (posture env) s) then inl (ExitFreeChat, rounds, s)
      else
        let s := if bool_decide (Decide.status (machine s) = StatusActive) then s
                 else s <| machine := machine_start (machine s) |> in
        match run_doggy_round_end env s with
        | (ActEndTurn, s) => inl (ExitGate, rounds, s)
        | (ActContinue, s) =>
            let rounds := (rounds + 1)%N in
            if (DOGGY_MAX_ROUNDS_PER_PROMPT <=? rounds)%N
            then inl (ExitRoundCap, rounds, doggy_end_run_at_round_cap env rounds s)
            else inr (rounds, s)
        end
  end.

Fixpoint prompt_loop (fuel : nat) (rounds : N) (s : Session) : option (PromptExit * N * Session) :=
  match fuel with
  | 0 => None
  | S fuel =>
      match prompt_round rounds s with
      | inl r => Some r
      | inr (rounds, s) => prompt_loop fuel rounds s
      end
  end.

(** A prompt starts with a fresh machine and a fresh ledger. *)
Definition run_prompt (fuel : nat) (harness posture : bool) (s : Session)
    : option (PromptExit * N * Session) :=
  let s := s <| machine := machine_new |> <| ledger := ledger_new |> in
  let s := if doggy_task_bound harness posture s
           then s <| machine := machine_start (machine s) |> else s in
  prompt_loop fuel 0 s.
End gate.
