(* ===== verification/DoggyGateFacts.v ===== *)
(** * What the completion gate guarantees

    Facts about [DoggyGate]: who may complete a goal, what a spent budget and a
    stalled run lead to, that one claim is judged once, that the prompts of a
    run differ from round to round, and that a prompt is bounded. *)

From Stdlib Require Import Ascii String ZArith.
From S2P Require Import Prelude RustStr TrimLemmas UpdateGoal GateSession GateSessionFacts Checklist CriteriaView TaskState Progress Decide GoalTracker DoggyGate.
From stdpp Require Import options.

(** ** What each step leaves of the goal's status *)

Lemma stamp_status j t : tracker_status (stamp_rescued j t) = tracker_status t.
Proof.
  unfold stamp_rescued. destruct (details_src j) as [src|]; [|done].
  destruct (file_name src); [|done]. by apply update_keeps_status.
Qed.

Lemma completion_ui_status env c fs s : ses_status (doggy_emit_completion_ui env c fs s) = ses_status s.
Proof.
  unfold doggy_emit_completion_ui. rewrite <- (session_goal_tokens_status env s).
  destruct (session_goal_tokens env s) as [r s']. by destruct (orchestration (tracker s')).
Qed.

Lemma queue_cleanup_status j s : ses_status (queue_cleanup j s) = ses_status s.
Proof. destruct j as [j|]; [|done]. apply (stamp_status j (tracker s)). Qed.

Lemma end_goal_status c s since o : GoalTracker.status (end_goal c s since o) = s.
Proof. unfold end_goal. by destruct since, o. Qed.

(** The goals that may still be ended. *)
Definition endable (t : GoalTracker) : bool :=
  match orchestration t with
  | Some o => bool_decide (GoalTracker.status o = Active) || is_paused (GoalTracker.status o)
  | None => false
  end.

Lemma end_goal_deferred_status env s e ses :
  ses_status (end_goal_deferred env s e ses).2
  = if endable (tracker ses) then Some s else ses_status ses.
Proof.
  unfold end_goal_deferred, endable. destruct (orchestration (tracker ses)) as [o|] eqn:Ho; [|done].
  destruct (_ || _); [|done]. cbn [snd]. rewrite emit_goal_updated_status. unfold ses_status.
  cbn [tracker set_field]. rewrite record_event_status. unfold tracker_status.
  cbn [orchestration set_field fmap option_fmap option_map]. by rewrite end_goal_status.
Qed.

Lemma goal_active_endable t : goal_active t = true → endable t = true.
Proof.
  rewrite goal_active_spec. unfold tracker_status, endable.
  destruct (orchestration t) as [o|]; [|done]. cbn. intros [= ->]. by rewrite bool_decide_eq_true_2.
Qed.

(** ** Accepting *)

Lemma mark_task_done_status env s :
  goal_active (tracker s) = true → ses_status (doggy_mark_task_done env s) = Some Complete.
Proof.
  intros Ha. unfold doggy_mark_task_done. pose proof (session_goal_tokens_status env s) as Hs.
  destruct (session_goal_tokens env s) as [r s1]. cbn [snd] in Hs.
  set (s2 := match orchestration (tracker s1) with Some _ => _ | None => _ end).
  assert (tracker s2 = tracker s1) as Ht by (unfold s2; by destruct (orchestration (tracker s1))).
  assert (goal_active (tracker s2) = true) as Ha2.
  { rewrite Ht. apply goal_active_spec. apply goal_active_spec in Ha. unfold ses_status in Hs. congruence. }
  rewrite Ha2. pose proof (end_goal_deferred_status env Complete GoalCompleted s2) as He.
  rewrite goal_active_endable in He by done.
  destruct (end_goal_deferred env Complete GoalCompleted s2) as [j s3]. cbn [snd] in He.
  change (ses_status (queue_cleanup j (doggy_emit_completion_ui env "done" [] s3)) = Some Complete).
  by rewrite queue_cleanup_status, completion_ui_status.
Qed.

(** ** The cut-off *)

Lemma completion_ui_ledger env c fs s : ledger (doggy_emit_completion_ui env c fs s) = ledger s.
Proof.
  unfold doggy_emit_completion_ui. rewrite <- (session_goal_tokens_ledger env s).
  destruct (session_goal_tokens env s) as [r s']. by destruct (orchestration (tracker s')).
Qed.

Lemma completion_ui_machine env c fs s : machine (doggy_emit_completion_ui env c fs s) = machine s.
Proof.
  unfold doggy_emit_completion_ui, session_goal_tokens. destruct (goal_tokens _ _ _) as [r t].
  by destruct (orchestration _).
Qed.

Lemma cut_off_outcome (env : RoundEnv) (repeats : N) (reason : StallReason) (s : Session) :
  ses_status s = Some Active →
  let '(action, s') := doggy_cut_off_stalled_work env repeats reason s in
  if acceptance_criteria_total (plan s) =? 0
  then action = ActContinue ∧ ses_status s' = Some Active ∧ ledger s' = reset_streaks (ledger s)
  else action = ActEndTurn ∧ ses_status s' = Some Blocked.
Proof.
  intros Ha%goal_active_spec. unfold doggy_cut_off_stalled_work.
  pose proof (defer_blocker_outcome env (cut_off_blocker repeats reason) s Ha) as H.
  pose proof (defer_blocker_ledger env (cut_off_blocker repeats reason) s) as Hl.
  destruct (defer_blocker_or_end_run _ _ _) as [out s1]. cbn [snd] in Hl.
  destruct (_ =? 0); destruct H as [-> Hs].
  - set (s2 := s1 <| ledger := _ |>). split; [done|].
    change (ses_status (doggy_emit_completion_ui env "executing" [] s2) = Some Active
            ∧ ledger (doggy_emit_completion_ui env "executing" [] s2) = reset_streaks (ledger s)).
    rewrite completion_ui_status, completion_ui_ledger. unfold s2. cbn [ledger set_field]. by rewrite Hl.
  - split; [done|]. by rewrite completion_ui_status, Hs.
Qed.

(** The cut-off ends a run that has a plan. When the gate gives up on stalled
    work of an Active goal whose plan names at least one criterion, the turn ends
    and the goal is left Blocked, because the deferral it records covers every
    criterion; only a goal without a parseable criterion is granted further
    rounds, with the stall streaks cleared. *)
Lemma cut_off_ends_planned_run (env : RoundEnv) (repeats : N) (reason : StallReason) (s : Session) :
  ses_status s = Some Active →
  let '(action, s') := doggy_cut_off_stalled_work env repeats reason s in
  if acceptance_criteria_total (plan s) =? 0
  then action = ActContinue ∧ ses_status s' = Some Active ∧ ledger s' = reset_streaks (ledger s)
  else action = ActEndTurn ∧ ses_status s' = Some Blocked.
Proof. apply cut_off_outcome. Qed.

(** ** The judged session *)

(** The session the decision is taken on, when the round gets that far. *)
Definition judged (drain : list Envelope → Session → Session)
    (env : RoundEnv) (s : Session) : option Session :=
  let s := doggy_emit_completion_ui env "checking" [] (drain [] s) in
  let '(over_budget, s) := enforce_goal_token_budget env s in
  if over_budget || negb (doggy_task_bound (harness_enabled env) (posture env) s) then None
  else
    let '(requested, s) := doggy_request_acceptance_if_claimed drain s in
    if requested && negb (doggy_task_bound (harness_enabled env) (posture_after_claim env) s)
    then None else Some s.

Lemma pause_turn_status env r s : ses_status (pause_turn env r s).2 = ses_status s.
Proof. unfold pause_turn. cbn [snd]. by rewrite completion_ui_status. Qed.

Lemma measure_round_status env s : ses_status (measure_round env s).2 = ses_status s.
Proof.
  unfold measure_round, doggy_snapshot_open_items.
  destruct (observe _ _ _ _) as [l [lv d]]. cbn [snd].
  change (ses_status (force_refresh (force_refresh s)) = ses_status s).
  by rewrite !force_refresh_ses_status.
Qed.

Lemma perform_other_status env d s :
  d ≠ TaskDone → ses_status (perform_decision env d s).2 = Some Complete → ses_status s = Some Complete.
Proof.
  intros Hd. destruct d as [inj| |r]; [|done|].
  - cbn [perform_decision snd]. destruct (negb _);
      set (s1 := doggy_emit_completion_ui _ _ _ _);
      change (ses_status s1 = Some Complete → ses_status s = Some Complete);
      unfold s1; by rewrite completion_ui_status.
  - destruct r as [| | |n r]; cbn [perform_decision snd]; try by rewrite completion_ui_status.
    unfold doggy_cut_off_stalled_work. destruct (goal_active (tracker s)) eqn:Ha.
    + pose proof (defer_blocker_outcome env (cut_off_blocker n r) s Ha) as Hd'.
      destruct (defer_blocker_or_end_run _ _ _) as [out s']. destruct (_ =? 0), Hd' as [-> Hs']; cbn [snd].
      * change (ses_status (doggy_emit_completion_ui env "executing" [] (s' <| ledger := reset_streaks (ledger s') |>))
                = Some Complete → ses_status s = Some Complete).
        rewrite completion_ui_status. change (ses_status s' = Some Complete → ses_status s = Some Complete). by rewrite Hs'.
      * by rewrite completion_ui_status, Hs'.
    + unfold defer_blocker_or_end_run. rewrite Ha. cbn [negb snd]. by rewrite completion_ui_status.
Qed.

Lemma budget_status env s :
  let '(over, s') := enforce_goal_token_budget env s in
  if over then ses_status s' = if endable (tracker (session_goal_tokens env s).2) then Some BudgetLimited
                               else ses_status s
  else s' = (session_goal_tokens env s).2.
Proof.
  unfold enforce_goal_token_budget. pose proof (session_goal_tokens_status env s) as Hs.
  destruct (session_goal_tokens env s) as [[used fin] s1]. cbn [snd] in *.
  destruct (orchestration (tracker s1)) as [o|]; [|done].
  destruct (token_budget o) as [b|]; [|done]. destruct (used <? b)%Z; [done|].
  pose proof (end_goal_deferred_status env BudgetLimited BudgetExceeded s1) as He.
  destruct (end_goal_deferred _ _ _ _) as [j s2]. cbn [snd] in He.
  change (ses_status (queue_cleanup j s2) = if endable (tracker s1) then Some BudgetLimited else ses_status s).
  rewrite queue_cleanup_status, He. by destruct (endable _).
Qed.

Lemma request_status drain s :
  let '(requested, s') := doggy_request_acceptance_if_claimed drain s in
  if requested then ∃ s0, ses_status s0 = ses_status s ∧ s' = drain [(0%N, acceptance_claim)] s0
  else s' = force_refresh s.
Proof.
  unfold doggy_request_acceptance_if_claimed. destruct (acceptance_is_claimed _); [|done].
  destruct (verification_already_requested_for _ _); [done|]. eexists. split; [|reflexivity].
  change (ses_status (force_refresh s) = ses_status s). apply force_refresh_ses_status.
Qed.

Lemma bound_active h p s : doggy_task_bound h p s = true → ses_status s = Some Active.
Proof. unfold doggy_task_bound. intros [_ Ha]%andb_true_iff. by apply goal_active_spec. Qed.

Lemma judged_active drain env s sj : judged drain env s = Some sj → ses_status sj = Some Active.
Proof.
  unfold judged. destruct (enforce_goal_token_budget _ _) as [over s1].
  destruct over; [done|]. cbn [orb]. destruct (doggy_task_bound _ _ s1) eqn:Hb; [|done]. cbn [negb].
  pose proof (request_status drain s1) as Hr. destruct (doggy_request_acceptance_if_claimed _ _) as [req s2].
  destruct req; cbn [andb].
  - destruct (doggy_task_bound _ _ s2) eqn:Hb2; [|done]. intros [= <-]. by eapply bound_active.
  - intros [= <-]. rewrite Hr, force_refresh_ses_status. by eapply bound_active.
Qed.

(** The round end is the decision on the judged session, or no decision at all. *)
Lemma round_end_judged drain env s sj :
  judged drain env s = Some sj →
  run_doggy_round_end drain env s = perform_decision env (measure_round env sj).1 (measure_round env sj).2.
Proof.
  unfold judged, run_doggy_round_end. destruct (enforce_goal_token_budget _ _) as [over s1].
  destruct over; [done|]. cbn [orb]. destruct (negb _); [done|].
  destruct (doggy_request_acceptance_if_claimed _ _) as [req s2]. destruct (req && _); [done|].
  intros [= <-]. by destruct (measure_round _ _).
Qed.

Lemma round_end_not_judged drain `{!DrainLaws drain} env s :
  judged drain env s = None →
  ses_status (run_doggy_round_end drain env s).2 = Some Complete → ses_status s = Some Complete.
Proof.
  unfold judged, run_doggy_round_end.
  set (s0 := doggy_emit_completion_ui env "checking" [] (drain [] s)).
  assert (ses_status s0 = Some Complete → ses_status s = Some Complete) as H0.
  { unfold s0. rewrite completion_ui_status. apply drain_completes_nothing. }
  pose proof (budget_status env s0) as Hb. pose proof (session_goal_tokens_status env s0) as Hs.
  destruct (enforce_goal_token_budget env s0) as [over s1]. destruct over; cbn [orb].
  - intros _. rewrite pause_turn_status, Hb. by destruct (endable _).
  - subst s1. set (s1 := (session_goal_tokens env s0).2) in *. destruct (negb _).
    + intros _. rewrite pause_turn_status, Hs. done.
    + pose proof (request_status drain s1) as Hr.
      destruct (doggy_request_acceptance_if_claimed _ _) as [req s2]. destruct req; cbn [andb]; [|done].
      destruct (negb _); [|done]. intros _. cbn [snd]. rewrite completion_ui_status.
      destruct Hr as (s' & Hs' & ->). intros H%drain_completes_nothing. apply H0. rewrite <- Hs, <- Hs'. exact H.
Qed.

Lemma unclaimed_nil view :
  unclaimed_criteria view = [] ↔ ∀ c, c ∈ view → cv_exec c = true ∨ CriteriaView.deferred c = true.
Proof.
  unfold unclaimed_criteria. rewrite <- is_nil_true. set (f := λ c, negb (cv_exec c) && _).
  transitivity (∀ c, c ∈ view → f c = false).
  - split.
    + intros H c Hc. destruct (f c) eqn:E; [|done]. exfalso.
      assert (c ∈ bfilter f view) as Hin by by apply elem_of_bfilter.
      destruct (bfilter f view); [by apply elem_of_nil in Hin|done].
    + intros H. destruct (bfilter f view) as [|c l] eqn:E; [done|].
      assert (c ∈ bfilter f view) as [Hc Hf]%elem_of_bfilter by (rewrite E; left).
      by rewrite H in Hf.
  - unfold f. split; intros H c Hc; specialize (H c Hc); destruct (cv_exec c), (CriteriaView.deferred c); naive_solver.
Qed.

(** The goal and the checklist a decision is taken on. *)
Definition accepted_session (m : Session) : Prop :=
  verification_outcome (orchestration (tracker m)) = TaskState.Achieved
  ∧ ∀ c, c ∈ view_of m → cv_exec c = true ∨ CriteriaView.deferred c = true.

Lemma measure_done env s : (measure_round env s).1 = TaskDone ↔ accepted_session (force_refresh s).
Proof.
  unfold measure_round, doggy_snapshot_open_items. destruct (observe _ _ _ _) as [l [lv d]]. cbn [fst].
  rewrite after_round_done. unfold accepted, accepted_session.
  cbn [user_cancel budget_hit round_ok open_items verification items]. rewrite unclaimed_nil. naive_solver.
Qed.

(** A round completes a goal exactly on an accepted session. *)
Lemma round_end_completes (drain : list Envelope → Session → Session) `{!DrainLaws drain} env s :
  ses_status s ≠ Some Complete →
  ses_status (run_doggy_round_end drain env s).2 = Some Complete ↔
    ∃ sj, judged drain env s = Some sj ∧ accepted_session (force_refresh sj).
Proof.
  intros Hs. destruct (judged drain env s) as [sj|] eqn:Hj.
  - pose proof (judged_active _ _ _ _ Hj) as Ha. rewrite (round_end_judged _ _ _ _ Hj).
    pose proof (measure_done env sj) as Hm. pose proof (measure_round_status env sj) as Hst.
    destruct (measure_round env sj) as [d sm]. cbn [fst snd] in *. split.
    + intros H. exists sj. split; [done|]. apply Hm. destruct d; try done.
      all: apply perform_other_status in H; [congruence|done].
    + intros (sj' & [= <-] & Hacc). apply Hm in Hacc as ->. cbn [perform_decision snd].
      apply mark_task_done_status, goal_active_spec. unfold ses_status in *. congruence.
  - split; [|by intros (? & ? & _)]. intros H. by apply round_end_not_judged in H.
Qed.

(** C2: Who completes a goal. For every drain that keeps the interface the gate
    relies on - it completes no goal and leaves the ledger alone - a round end
    leaves a goal Complete exactly when the round reached a decision and at that
    point verification stood at Achieved and every criterion of the freshly read
    checklist was claimed or deferred; neither the model's words nor the stall
    measure can do it. *)
Theorem goal_completes_only_when_accepted
    (drain : list Envelope → Session → Session) `{!DrainLaws drain}
    (env : RoundEnv) (s : Session) :
  ses_status s ≠ Some Complete →
  ses_status (run_doggy_round_end drain env s).2 = Some Complete ↔
    ∃ sj, judged drain env s = Some sj ∧ accepted_session (force_refresh sj).
Proof. apply round_end_completes. done. Qed.

(** ** The token budget *)

(** A spent budget stops the round before anything else is asked. When the
    tokens measured at the end of a round reach the budget of a goal that is not
    finished, the goal ends as BudgetLimited, the machine is paused for it, the
    turn ends, and no acceptance request is made: the panel's answer to one is
    irrelevant. *)
Lemma spent_budget_stops_round
    (drain drain' : list Envelope → Session → Session)
    (env : RoundEnv) (s : Session) (o : GoalOrchestration) (budget : Z) :
  let s0 := doggy_emit_completion_ui env "checking" [] (drain [] s) in
  let '((used, _), s1) := session_goal_tokens env s0 in
  orchestration (tracker s1) = Some o → endable (tracker s1) = true →
  token_budget o = Some budget → (budget ≤ used)%Z →
  let r := run_doggy_round_end drain env s in
  r.1 = ActEndTurn ∧ ses_status r.2 = Some BudgetLimited
  ∧ machine r.2 = mkMachine PhasePaused StatusPaused (Some BudgetExhausted)
  ∧ (drain' [] s = drain [] s → run_doggy_round_end drain' env s = r).
Proof.
  intros s0. destruct (session_goal_tokens env s0) as [[used fin] s1] eqn:Ht. intros Ho He Hb Hu.
  assert (enforce_goal_token_budget env s0 =
    (true, emit (SlashOutput (budget_message used budget))
             (clear_pending_classifier_completions
                (queue_cleanup (end_goal_deferred env BudgetLimited BudgetExceeded s1).1
                   (end_goal_deferred env BudgetLimited BudgetExceeded s1).2)))) as Heq.
  { unfold enforce_goal_token_budget. rewrite Ht, Ho, Hb. destruct (Z.ltb_spec used budget); [lia|].
    by destruct (end_goal_deferred _ _ _ _). }
  assert (∀ d, d [] s = drain [] s →
    run_doggy_round_end d env s = pause_turn env BudgetExhausted (enforce_goal_token_budget env s0).2) as Hrun.
  { intros d Hd. unfold run_doggy_round_end. rewrite Hd. fold s0. by rewrite Heq. }
  pose proof (budget_status env s0) as Hs. rewrite Heq, Ht in Hs. cbn [snd] in Hs. rewrite He in Hs.
  cbv zeta. rewrite (Hrun drain) by done. rewrite Heq. cbn [snd].
  set (s2 := emit _ _) in *. split; [done|]. split_and!.
  - change (ses_status (pause_turn env BudgetExhausted s2).2 = Some BudgetLimited). by rewrite pause_turn_status.
  - unfold pause_turn. apply completion_ui_machine.
  - intros Hd. rewrite (Hrun drain'); [by rewrite Heq|exact Hd].
Qed.

(** *** The meter *)

(** Measurements in order: the session's counter and the subagents' records. *)
Definition meter (ms : list (Z * list (string * SubagentTokenRecord))) (t : GoalTracker) : GoalTracker :=
  foldl (λ t m, (goal_tokens m.1 m.2 t).2) t ms.

(** What each measurement has to show: every climb of the counter so far, plus
    the subagents. *)
Fixpoint usages (gid : string) (base spent : Z) (ms : list (Z * list (string * SubagentTokenRecord))) : list Z :=
  match ms with
  | [] => []
  | (c, rs) :: ms =>
      let spent := (spent + Z.max 0 (c - base))%Z in
      Z.min (spent + (token_sums gid rs).1) i64_max :: usages gid c spent ms
  end.

Lemma token_sums_nonneg gid rs : (0 ≤ (token_sums gid rs).1)%Z.
Proof.
  unfold token_sums.
  assert (∀ rs acc, (0 ≤ acc.1)%Z → (0 ≤ (foldl (add_record gid) acc rs).1)%Z) as H; [|by apply H].
  clear rs. induction rs as [|[k r] rs IH]; intros [a b] Ha; [done|]. cbn [foldl]. apply IH.
  unfold add_record. case_bool_decide; [|done]. cbn [fst] in *.
  assert (0 ≤ marginal_i64 r)%Z by (unfold marginal_i64, i64_max; lia).
  unfold i64_saturating_add, i64_max, i64_min. lia.
Qed.

Lemma meter_run gid ms : ∀ t o spent,
  orchestration t = Some o → goal_id o = gid →
  Forall (λ m : Z * _, (0 ≤ m.1 ≤ i64_max)%Z) ms →
  (0 ≤ default (token_baseline o) (last_session_tokens_seen o))%Z → (0 ≤ spent)%Z →
  parent_tokens_spent o = Z.min spent i64_max →
  ∃ o', orchestration (meter ms t) = Some o'
    ∧ tokens_used_high_water o'
      = foldl Z.max (tokens_used_high_water o)
          (usages gid (default (token_baseline o) (last_session_tokens_seen o)) spent ms).
Proof.
  induction ms as [|[c rs] ms IH]; intros t o spent Ht Hg Hms Hb Hsp Hp; [by exists o|].
  apply Forall_cons in Hms as [Hc Hms]. cbn [fst] in Hc. cbn [meter foldl usages fst snd].
  set (base := default _ _) in *.
  pose proof (token_sums_nonneg gid rs) as Hn.
  set (o1 := ratchet_tokens c (token_sums gid rs).1 o).
  assert ((goal_tokens c rs t).2 = t <| orchestration := Some o1 |>) as ->.
  { unfold goal_tokens. rewrite Ht, Hg. unfold o1. by destruct (token_sums gid rs). }
  assert (parent_tokens_spent o1 = Z.min (spent + Z.max 0 (c - base)) i64_max) as Hp1.
  { unfold o1, ratchet_tokens. fold base.
    change (match last_session_tokens_seen o with Some n => n | None => token_baseline o end) with base.
    change (parent_tokens_spent _) with
      (if (base <? c)%Z then i64_saturating_add (parent_tokens_spent o) (i64_wrap (c - base)) else parent_tokens_spent o).
    rewrite Hp. destruct (Z.ltb_spec base c); [|f_equal; lia].
    assert (i64_wrap (c - base) = c - base)%Z as ->.
    { unfold i64_wrap, i64_min, i64_max in *. rewrite Z.mod_small; lia. }
    unfold i64_saturating_add, i64_min, i64_max in *. lia. }
  destruct (IH (t <| orchestration := Some o1 |>) o1 (spent + Z.max 0 (c - base))%Z) as (o' & Ho' & Hh);
    [done|by rewrite <- Hg; destruct o|done|by cbn; lia|lia|done|].
  exists o'. split; [exact Ho'|]. rewrite Hh.
  change (default (token_baseline o1) (last_session_tokens_seen o1)) with c. f_equal.
  change (tokens_used_high_water o1)
    with (Z.max (tokens_used_high_water o) (i64_saturating_add (parent_tokens_spent o1) (token_sums gid rs).1)).
  f_equal. rewrite Hp1. unfold i64_saturating_add, i64_min, i64_max in *. lia.
Qed.

(** The budget's meter counts climbs and never falls. Over any measurements
    of a goal, the tokens reported as used are the running maximum, capped at
    [i64::MAX], of the session counter's climbs since the goal's baseline plus
    what its subagents used; a counter that drops (the conversation was
    compacted) costs nothing and forgives nothing. *)
Lemma token_meter_counts_climbs (t : GoalTracker) (o : GoalOrchestration)
    (ms : list (Z * list (string * SubagentTokenRecord))) :
  let base := default (token_baseline o) (last_session_tokens_seen o) in
  orchestration t = Some o → Forall (λ m, (0 ≤ m.1 ≤ i64_max)%Z) ms →
  (0 ≤ base)%Z → (0 ≤ parent_tokens_spent o ≤ i64_max)%Z →
  ∃ o', orchestration (meter ms t) = Some o'
    ∧ tokens_used_high_water o'
      = foldl Z.max (tokens_used_high_water o) (usages (goal_id o) base (parent_tokens_spent o) ms).
Proof.
  intros base Ht Hms Hb Hp. eapply meter_run; [exact Ht|done|done|done|lia|].
  by rewrite Z.min_l by lia.
Qed.

(** ** One verdict per claim *)

Definition request_mark (s : Session) : option (list N) := verification_requested_for (ledger s).

Lemma completion_ui_mark env c fs s : request_mark (doggy_emit_completion_ui env c fs s) = request_mark s.
Proof. unfold request_mark. by rewrite completion_ui_ledger. Qed.

Lemma budget_ledger env s : ledger (enforce_goal_token_budget env s).2 = ledger s.
Proof.
  unfold enforce_goal_token_budget. pose proof (session_goal_tokens_ledger env s) as Hs.
  destruct (session_goal_tokens env s) as [[used fin] s1]. cbn [snd] in Hs.
  destruct (orchestration (tracker s1)) as [o|] eqn:Ho; [|done]. destruct (token_budget o); [|done].
  destruct (used <? _)%Z; [done|].
  assert (ledger (end_goal_deferred env BudgetLimited BudgetExceeded s1).2 = ledger s1) as He.
  { unfold end_goal_deferred. rewrite Ho. destruct (_ || _); [|done]. cbn [snd]. by rewrite emit_goal_updated_ledger. }
  destruct (end_goal_deferred _ _ _ _) as [j s2]. cbn [snd] in *. rewrite <- Hs, <- He. by destruct j.
Qed.

Lemma measure_round_mark env s : request_mark (measure_round env s).2 = request_mark s.
Proof. reflexivity. Qed.

Lemma mark_task_done_ledger env s : ledger (doggy_mark_task_done env s) = ledger s.
Proof.
  unfold doggy_mark_task_done. pose proof (session_goal_tokens_ledger env s) as Hs.
  destruct (session_goal_tokens env s) as [x s1]. cbn [snd] in Hs.
  set (s2 := match orchestration (tracker s1) with Some _ => _ | None => _ end).
  assert (ledger s2 = ledger s) as H2 by (unfold s2; by destruct (orchestration (tracker s1))).
  assert (ledger (if goal_active (tracker s2) then end_goal_deferred env Complete GoalCompleted s2 else (None, s2)).2
          = ledger s2) as H3.
  { clearbody s2. destruct (goal_active (tracker s2)); [|done]. unfold end_goal_deferred.
    destruct (orchestration (tracker s2)) as [o|]; [|done].
    destruct (_ || _); [|done]. cbn [snd]. by rewrite emit_goal_updated_ledger. }
  destruct (if goal_active _ then _ else _) as [j s3]. cbn [snd] in H3.
  change (ledger (queue_cleanup j (doggy_emit_completion_ui env "done" [] s3)) = ledger s).
  rewrite <- H2, <- H3, <- (completion_ui_ledger env "done" [] s3). by destruct j.
Qed.

Lemma perform_mark env d s : request_mark (perform_decision env d s).2 = request_mark s.
Proof.
  destruct d as [inj| |r]; cbn [perform_decision snd].
  - destruct (negb _); apply completion_ui_mark.
  - unfold request_mark. by rewrite mark_task_done_ledger.
  - destruct r as [| | |n r]; cbn [snd]; try apply completion_ui_mark.
    unfold doggy_cut_off_stalled_work.
    pose proof (defer_blocker_ledger env (cut_off_blocker n r) s) as Hl.
    destruct (defer_blocker_or_end_run _ _ _) as [[[[] ack]|] s1]; cbn [snd] in *;
      try (by rewrite completion_ui_mark; unfold request_mark; rewrite Hl).
    set (s2 := s1 <| ledger := _ |>). change (request_mark (doggy_emit_completion_ui env "executing" [] s2) = request_mark s).
    rewrite completion_ui_mark. change (request_mark s2) with (request_mark s1). unfold request_mark. by rewrite Hl.
Qed.

(** The same claim is not judged twice. If the set of criteria whose Exec box
    is ticked at the end of a round is the set the gate last asked a verdict for,
    the round end asks for none: it is the same for every panel, and the mark
    stays. A panel is therefore asked again only after the set has changed. *)
Lemma same_claim_is_judged_once
    (drain drain' : list Envelope → Session → Session) `{!DrainLaws drain}
    (env : RoundEnv) (s : Session) (claim : list N) :
  let s1 := (enforce_goal_token_budget env
               (doggy_emit_completion_ui env "checking" [] (drain [] s))).2 in
  request_mark s = Some claim → pick cv_exec (view_of (force_refresh s1)) = claim →
  drain' [] s = drain [] s →
  run_doggy_round_end drain' env s = run_doggy_round_end drain env s
  ∧ request_mark (run_doggy_round_end drain env s).2 = Some claim.
Proof.
  intros s1 Hm Hp Hd.
  assert (request_mark s1 = Some claim) as Hm1.
  { rewrite <- Hm. unfold s1, request_mark. by rewrite budget_ledger, completion_ui_ledger, drain_keeps_ledger. }
  assert (∀ d, doggy_request_acceptance_if_claimed d s1 = (false, force_refresh s1)) as Hr.
  { intros d. unfold doggy_request_acceptance_if_claimed. destruct (acceptance_is_claimed _); [|done].
    rewrite Hp. unfold verification_already_requested_for.
    change (verification_requested_for (ledger (force_refresh s1))) with (request_mark s1).
    by rewrite Hm1, bool_decide_eq_true_2. }
  unfold run_doggy_round_end. rewrite Hd. unfold s1 in *.
  destruct (enforce_goal_token_budget _ _) as [over s2]. cbn [snd] in *.
  destruct over; [split; [done|]|].
  { unfold pause_turn. cbn [snd]. rewrite completion_ui_mark. exact Hm1. }
  destruct (negb _); [split; [done|]|].
  { unfold pause_turn. cbn [snd]. rewrite completion_ui_mark. exact Hm1. }
  rewrite !Hr. cbn [andb]. split; [done|].
  pose proof (measure_round_mark env (force_refresh s2)) as Hmm.
  destruct (measure_round _ _) as [d s3]. cbn [snd] in Hmm. rewrite perform_mark, Hmm. exact Hm1.
Qed.

(** ** The prompts of a run *)

(** The delta a prompt shows; a [Fix] prompt shows none. *)
Definition prompt_delta (i : Injection) : option RoundDelta :=
  match i with
  | InjContinue _ d | InjReapproach _ _ _ d => Some d
  | InjFix _ => None
  end.

Lemma char_free_prefix c a b x y :
  char_free c a = true → char_free c b = true → a +:+ String c x = b +:+ String c y → a = b ∧ x = y.
Proof.
  revert b. induction a as [|d a IH]; intros [|e b] Ha Hb; rewrite ?str_app_cons, ?str_app_nil_l; intros [=]; subst.
  - done.
  - unfold char_free in Hb. cbn in Hb. by rewrite Ascii.eqb_refl in Hb.
  - unfold char_free in Ha. cbn in Ha. by rewrite Ascii.eqb_refl in Ha.
  - destruct (IH b) as [-> ->]; unfold char_free in *; cbn in Ha, Hb; bools; done.
Qed.

Lemma number_prefix (n m : N) x y :
  pretty n +:+ String " " x = pretty m +:+ String " " y → n = m ∧ x = y.
Proof. intros [->%(inj pretty) ?]%char_free_prefix; [done|by apply pretty_N_free..]. Qed.

Lemma number_prefix_app (n m : N) t x y :
  pretty n +:+ String " " t +:+ x = pretty m +:+ String " " t +:+ y → n = m ∧ x = y.
Proof. rewrite !str_app_cons. intros [-> H]%number_prefix. by apply (inj (String.append t)) in H. Qed.

Lemma join_cons_shape x xs : xs ≠ [] → ∃ t, join nl (x :: xs) = x +:+ t.
Proof. destruct xs as [|y xs]; [done|]. intros _. by eexists. Qed.

Lemma render_delta_shape d : ∃ t, doggy_render_delta d = "Round " +:+ pretty (TaskState.round d) +:+ String " " ("just ended." +:+ t).
Proof.
  assert (∃ xs, xs ≠ [] ∧
    doggy_render_delta d = join nl (("Round " +:+ pretty (TaskState.round d) +:+ " just ended.") :: xs))
    as (xs & Hne & ->).
  { unfold doggy_render_delta. destruct (moved_nothing d); eexists; split; [|reflexivity|..|reflexivity]; done. }
  destruct (join_cons_shape ("Round " +:+ pretty (TaskState.round d) +:+ " just ended.") xs Hne) as [t ->].
  exists t. by rewrite !str_app_assoc.
Qed.

Lemma render_delta_round d e x y :
  doggy_render_delta d +:+ x = doggy_render_delta e +:+ y → TaskState.round d = TaskState.round e.
Proof.
  destruct (render_delta_shape d) as [t ->], (render_delta_shape e) as [u ->].
  rewrite !str_app_assoc, !str_app_cons. intros H%(inj (String.append "Round ")).
  by apply number_prefix in H as [-> _].
Qed.

Lemma diagnosis_prefix n r m r' x y :
  stall_diagnosis n r +:+ x = stall_diagnosis m r' +:+ y → r = r' ∧ x = y.
Proof.
  destruct r, r'; cbn [stall_diagnosis]; rewrite ?str_app_assoc; intros H.
  - apply (inj (String.append "the last ")) in H.
    by apply number_prefix_app in H as [_ ->].
  - apply (f_equal (String.get 0)) in H. by vm_compute in H.
  - apply (f_equal (String.get 0)) in H. by vm_compute in H.
  - apply (inj (String.append "you produced ")) in H.
    by apply number_prefix_app in H as [_ ->].
Qed.

Lemma inject_body_round i j d e :
  prompt_delta i = Some d → prompt_delta j = Some e → inject_body i = inject_body j →
  TaskState.round d = TaskState.round e.
Proof.
  destruct i as [o1 d1| |n1 r1 o1 d1], j as [o2 d2| |n2 r2 o2 d2]; try done;
    intros [= ->] [= ->]; cbn [inject_body]; intros H.
  - apply (inj (String.append _)) in H. do 2 apply (inj (String.append nl)) in H. by eapply render_delta_round.
  - destruct r2; apply (f_equal (String.get 28)) in H; by vm_compute in H.
  - destruct r1; apply (f_equal (String.get 28)) in H; by vm_compute in H.
  - apply (inj (String.append _)) in H. apply diagnosis_prefix in H as [_ H].
    apply (inj (String.append ".")) in H. do 2 apply (inj (String.append nl)) in H.
    by eapply render_delta_round.
Qed.

Lemma gate_prompt_delta h i ok cancel budget inj d :
  gate_decision h i ok cancel budget = RunAnotherRound inj → prompt_delta inj = Some d →
  d = observed_delta h i.
Proof.
  unfold gate_decision, decide_after_round, decide_completion. intros H Hd. revert H.
  cbn [user_cancel budget_hit round_ok open_items verification stall delta gate_view].
  destruct cancel, budget, ok; cbn [negb]; try done.
  destruct (has_explicit_work _); [|destruct (in_verification i)]; try done;
    destruct (observed_level h i); intros [= <-]; cbn in Hd; naive_solver.
Qed.

(** No two prompts of a run that report a round are the same text. The bodies
    the gate sends after two different rounds of one ledger - to continue or to
    try another approach - differ, however little happened in between, because
    each names its round; the ledger's [u32] counter is not exhausted. *)
Lemma round_prompts_differ (h newer : list ledger_event) (i j : RoundInput)
    (ok cancel budget ok' cancel' budget' : bool) (inj1 inj2 : Injection) :
  gate_decision h i ok cancel budget = RunAnotherRound inj1 →
  gate_decision (newer ++ EvObserve i :: h) j ok' cancel' budget' = RunAnotherRound inj2 →
  is_Some (prompt_delta inj1) → is_Some (prompt_delta inj2) →
  (rounds_spec (EvObserve j :: newer ++ EvObserve i :: h) ≤ u32_max)%N →
  inject_body inj1 ≠ inject_body inj2.
Proof.
  intros H1' H2' [d Hd] [e He] Hn Heq.
  pose proof (inject_body_round _ _ _ _ Hd He Heq) as Hr.
  apply (gate_prompt_delta _ _ _ _ _ _ _ H1') in Hd as ->.
  apply (gate_prompt_delta _ _ _ _ _ _ _ H2') in He as ->.
  rewrite !observed_delta_round in Hr.
  assert (∀ l, (rounds_spec (EvObserve i :: h) ≤ rounds_spec (l ++ EvObserve i :: h))%N) as Hmono.
  { induction l as [|[k|k|] l IH]; cbn in *; lia. }
  specialize (Hmono newer). cbn [rounds_spec] in *. unfold cap in Hr. lia.
Qed.

(** ** When a turn goes on *)

Lemma perform_active env d s :
  ses_status s = Some Active → (∀ r, d = TaskPaused r → ∃ n why, r = NoProgress n why) →
  (perform_decision env d s).1 = ActContinue ↔ ses_status (perform_decision env d s).2 = Some Active.
Proof.
  intros Ha Hr. destruct d as [inj| |r].
  - cbn [perform_decision fst snd]. split; [intros _|done].
    destruct (negb _); set (s1 := doggy_emit_completion_ui _ _ _ _);
      change (ses_status s1 = Some Active); unfold s1; by rewrite completion_ui_status.
  - cbn [perform_decision fst snd]. split; [done|]. rewrite mark_task_done_status; [done|]. by apply goal_active_spec.
  - destruct (Hr r eq_refl) as (n & why & ->). cbn [perform_decision].
    pose proof (cut_off_outcome env n why s Ha) as Hc.
    destruct (doggy_cut_off_stalled_work _ _ _ _) as [act s']. cbn [fst snd].
    destruct (_ =? 0); [destruct Hc as (-> & -> & _)|destruct Hc as (-> & ->)]; done.
Qed.

Lemma measure_pauses env s r : (measure_round env s).1 = TaskPaused r → ∃ n why, r = NoProgress n why.
Proof.
  unfold measure_round, doggy_snapshot_open_items. destruct (observe _ _ _ _) as [l [lv d]]. cbn [fst].
  unfold decide_after_round, decide_completion. cbn [user_cancel budget_hit round_ok negb].
  destruct (has_explicit_work _); cbn [stall open_items delta];
    [|destruct (TaskState.verification _)]; cbn [stall]; try done; destruct lv; try done;
    intros [= <-]; eauto.
Qed.

Lemma judged_continues drain env s sj :
  judged drain env s = Some sj →
  (run_doggy_round_end drain env s).1 = ActContinue
    ↔ ses_status (run_doggy_round_end drain env s).2 = Some Active.
Proof.
  intros Hj. rewrite (round_end_judged _ _ _ _ Hj). apply perform_active.
  - rewrite measure_round_status. by eapply judged_active.
  - apply measure_pauses.
Qed.

(** A round that is not judged ends the turn; with the run bound to its task, it
    does so because the goal is not Active. *)
Lemma not_judged_ends drain env s :
  judged drain env s = None →
  (run_doggy_round_end drain env s).1 = ActEndTurn
  ∧ (harness_enabled env && posture env && posture_after_claim env = true →
     ses_status (run_doggy_round_end drain env s).2 ≠ Some Active).
Proof.
  unfold judged, run_doggy_round_end. set (s0 := doggy_emit_completion_ui env "checking" [] _).
  pose proof (budget_status env s0) as Hb. pose proof (session_goal_tokens_status env s0) as Hs.
  destruct (enforce_goal_token_budget env s0) as [over s1]. destruct over; cbn [orb].
  - intros _. split; [done|]. intros _. rewrite pause_turn_status, Hb.
    destruct (endable _) eqn:He; [done|]. rewrite <- Hs. intros Ha%goal_active_spec.
    apply goal_active_endable in Ha. congruence.
  - destruct (doggy_task_bound (harness_enabled env) (posture env) s1) eqn:Hbd; cbn [negb].
    + destruct (doggy_request_acceptance_if_claimed _ _) as [req s2]. destruct req; cbn [andb]; [|done].
      destruct (doggy_task_bound (harness_enabled env) (posture_after_claim env) s2) eqn:Hbd2; [done|].
      intros _. split; [done|]. intros Hp. cbn [snd negb]. rewrite completion_ui_status. intros Ha%goal_active_spec.
      unfold doggy_task_bound in Hbd2. rewrite Ha in Hbd2. by destruct (harness_enabled env), (posture env), (posture_after_claim env).
    + intros _. split; [done|]. intros Hp. rewrite pause_turn_status. intros Ha%goal_active_spec.
      unfold doggy_task_bound in Hbd. rewrite Ha in Hbd. by destruct (harness_enabled env), (posture env).
Qed.

Lemma turn_active drain env s :
  harness_enabled env && posture env && posture_after_claim env = true →
  (run_doggy_round_end drain env s).1 = ActContinue
    ↔ ses_status (run_doggy_round_end drain env s).2 = Some Active.
Proof.
  intros Hp. destruct (judged drain env s) as [sj|] eqn:Hj; [by eapply judged_continues|].
  destruct (not_judged_ends _ _ _ Hj) as [-> Ha]. split; [done|]. intros H. by destruct (Ha Hp).
Qed.

(** The turn goes on exactly while the goal is Active. In a session that
    stays bound to its task, a round end answers Continue if and only if it
    leaves the goal Active: no Active goal is abandoned in the middle of a run,
    and no round is granted to a goal that is done, paused or out of budget. *)
Lemma turn_continues_iff_active
    (drain : list Envelope → Session → Session)
    (env : RoundEnv) (s : Session) :
  harness_enabled env && posture env && posture_after_claim env = true →
  (run_doggy_round_end drain env s).1 = ActContinue
    ↔ ses_status (run_doggy_round_end drain env s).2 = Some Active.
Proof. apply turn_active. Qed.

(** ** The prompt *)

Lemma completion_ui_plan env c fs s : plan (doggy_emit_completion_ui env c fs s) = plan s.
Proof.
  unfold doggy_emit_completion_ui. rewrite <- (session_goal_tokens_plan env s).
  destruct (session_goal_tokens env s) as [r s']. by destruct (orchestration (tracker s')).
Qed.

Lemma round_cap_status env n s :
  ses_status s = Some Active →
  let s' := doggy_end_run_at_round_cap env n s in
  plan s' = plan s ∧ (ses_status s' = Some Active → acceptance_criteria_total (plan s) = 0).
Proof.
  intros Ha%goal_active_spec s'. unfold s', doggy_end_run_at_round_cap.
  set (b := "ran " +:+ _).
  pose proof (defer_blocker_outcome env b s Ha) as Ho. pose proof (defer_blocker_plan env b s) as Hp.
  destruct (defer_blocker_or_end_run env b s) as [out s1]. cbn [snd] in Hp.
  rewrite completion_ui_plan, completion_ui_status.
  destruct (Nat.eqb_spec (acceptance_criteria_total (plan s)) 0) as [E|E]; destruct Ho as [-> Hs1]; [by split|].
  split; [done|]. by rewrite Hs1.
Qed.

Section prompt.
Context (drain : list Envelope → Session → Session).
Context (model_round : N → Session → RoundResult * RoundEnv * Session).

(** The session is bound to its task throughout a round: the harness is on and
    the goal posture is selected, before and after the claims are judged. *)
Definition stays_bound (env : RoundEnv) : bool :=
  harness_enabled env && posture env && posture_after_claim env.

(** What a loop's exit promises when its last round was bound. *)
Definition good_status (exit : PromptExit) (s : Session) : Prop :=
  match exit with
  | ExitNotCompleted | ExitRefusal => True
  | ExitFreeChat | ExitGate => ses_status s ≠ Some Active
  | ExitRoundCap => ses_status s = Some Active → acceptance_criteria_total (plan s) = 0
  end.

Lemma prompt_round_count n s : (n < DOGGY_MAX_ROUNDS_PER_PROMPT)%N →
  match prompt_round drain model_round n s with
  | inl (exit, rounds, _) => (rounds ≤ DOGGY_MAX_ROUNDS_PER_PROMPT)%N
                             ∧ (exit = ExitRoundCap → rounds = DOGGY_MAX_ROUNDS_PER_PROMPT)
  | inr (n', _) => n' = (n + 1)%N ∧ (n' < DOGGY_MAX_ROUNDS_PER_PROMPT)%N
  end.
Proof.
  intros Hn. unfold prompt_round. destruct (model_round n s) as [[res env] s1].
  destruct res as [[]|]; [by split; [lia|]| |by split; [lia|]]. case_if; [by split; [lia|]|].
  set (s2 := if bool_decide _ then s1 else _). clearbody s2.
  destruct (run_doggy_round_end drain env s2) as [act s3]. destruct act; [|by split; [lia|]].
  destruct (N.leb_spec DOGGY_MAX_ROUNDS_PER_PROMPT (n + 1)); [|done]. split; [lia|]. intros _. lia.
Qed.

Lemma prompt_round_status n s exit rounds s' :
  prompt_round drain model_round n s = inl (exit, rounds, s') → stays_bound (model_round n s).1.2 = true →
  good_status exit s'.
Proof.
  intros Hr Hb. revert Hr. unfold prompt_round. destruct (model_round n s) as [[res env] s1]. cbn [fst snd] in Hb.
  destruct res as [[]|]; [by intros [= <- _ _]| |by intros [= <- _ _]].
  destruct (negb _) eqn:Ebd.
  { intros [= <- _ <-]. intros Ha%goal_active_spec. unfold doggy_task_bound in Ebd. rewrite Ha in Ebd.
    unfold stays_bound in Hb. by destruct (harness_enabled env), (posture env). }
  set (s2 := if bool_decide _ then s1 else _). clearbody s2.
  pose proof (turn_active drain env s2 Hb) as Hc.
  destruct (run_doggy_round_end drain env s2) as [act s3]. cbn [fst snd] in Hc. destruct act.
  - case_if; [|done]. intros [= <- <- <-]. pose proof (round_cap_status env (n + 1) s3 (proj1 Hc eq_refl)) as [Hp Hs].
    cbn [good_status]. by rewrite Hp.
  - intros [= <- _ <-]. intros Ha. by apply Hc in Ha.
Qed.

Lemma prompt_loop_ends fuel : ∀ n s, (n + N.of_nat fuel = DOGGY_MAX_ROUNDS_PER_PROMPT)%N → fuel ≠ 0 →
  ∃ exit rounds s', prompt_loop drain model_round fuel n s = Some (exit, rounds, s')
    ∧ (rounds ≤ DOGGY_MAX_ROUNDS_PER_PROMPT)%N ∧ (exit = ExitRoundCap → rounds = DOGGY_MAX_ROUNDS_PER_PROMPT)
    ∧ ∃ m s1, prompt_round drain model_round m s1 = inl (exit, rounds, s').
Proof.
  induction fuel as [|fuel IH]; intros n s Hn Hf; [done|]. cbn [prompt_loop].
  pose proof (prompt_round_count n s ltac:(lia)) as Hg.
  destruct (prompt_round drain model_round n s) as [[[exit rounds] s']|[n' s']] eqn:E; [naive_solver|].
  destruct Hg as [-> Hlt]. apply IH; [lia|]. intros ->. lia.
Qed.
End prompt.

(** C3: A prompt ends. Whatever the model does in its rounds, whatever the panel
    answers and whatever becomes of the posture, the prompt's loop breaks within
    100 granted rounds, and at the cap after exactly 100. What it leaves depends
    on its last round alone. If the harness was on and the goal posture selected
    throughout that round, then after the gate broke the loop the goal is not
    Active, and after the round cap did, it is Active only if its plan names no
    criterion at all. (Without the posture, which the user may switch off in the
    middle, the goal is left Active on purpose; and a turn that was not completed
    or was refused promises nothing.) *)
Theorem prompt_is_bounded
    (drain : list Envelope → Session → Session)
    (model_round : N → Session → RoundResult * RoundEnv * Session)
    (harness posture : bool) (s : Session) :
  ∃ exit rounds s', run_prompt drain model_round 100 harness posture s = Some (exit, rounds, s')
    ∧ (rounds ≤ DOGGY_MAX_ROUNDS_PER_PROMPT)%N
    ∧ (exit = ExitRoundCap → rounds = DOGGY_MAX_ROUNDS_PER_PROMPT)
    ∧ ∃ n s1, prompt_round drain model_round n s1 = inl (exit, rounds, s')
        ∧ (stays_bound (model_round n s1).1.2 = true →
           match exit with
           | ExitNotCompleted | ExitRefusal => True
           | ExitFreeChat | ExitGate => ses_status s' ≠ Some Active
           | ExitRoundCap => ses_status s' = Some Active → acceptance_criteria_total (plan s') = 0
           end).
Proof.
  unfold run_prompt. cbv zeta.
  match goal with |- context [prompt_loop _ _ _ _ ?s0] =>
    destruct (prompt_loop_ends drain model_round 100 0 s0 eq_refl ltac:(done)) as (exit & rounds & s' & Hr & Hle & Hcap & n & s1 & Hl) end.
  exists exit, rounds, s'. split_and!; [exact Hr|done|done|]. exists n, s1. split; [done|]. by eapply prompt_round_status.
Qed.

(** ** Giving up on refuted criteria *)

(** ** Concrete runs *)

(** A panel that accepts every completion claim, and one that never speaks. *)
Definition accepting_drain (extra : list Envelope) (s : Session) : Session :=
  if is_nil extra then s
  else on_tracker (update_goal (λ o, o <| last_classifier_verdict := Some GoalTracker.Achieved |>)) s.
Definition silent_drain (extra : list Envelope) (s : Session) : Session := s.

#[export] Instance accepting_drain_laws : DrainLaws accepting_drain.
Proof.
  split; intros extra s; unfold accepting_drain; destruct (is_nil extra); try done.
  unfold ses_status, on_tracker. cbn [tracker set_field]. by rewrite update_keeps_status.
Qed.
#[export] Instance silent_drain_laws : DrainLaws silent_drain.
Proof. by split. Qed.

Lemma cut_off_ends_planned_run_witness :
  let '(action, s') := doggy_cut_off_stalled_work (gate_env 0 []) 6 Repeated (gate_session "x" " ") in
  action = ActEndTurn ∧ ses_status s' = Some Blocked.
Proof.
  pose proof (cut_off_ends_planned_run (gate_env 0 []) 6 Repeated (gate_session "x" " ") eq_refl) as H.
  destruct (doggy_cut_off_stalled_work _ _ _ _) as [action s'].
  replace (acceptance_criteria_total _ =? 0) with false in H by by vm_compute. exact H.
Defined.

Lemma goal_completes_only_when_accepted_witness :
  ses_status (run_doggy_round_end accepting_drain (gate_env 0 ["bash"]) (gate_session "x" "x")).2 = Some Complete
  ∧ ses_status (run_doggy_round_end accepting_drain (gate_env 0 ["bash"]) (gate_session "x" " ")).2 = Some Active
  ∧ ∃ sj, judged accepting_drain (gate_env 0 ["bash"]) (gate_session "x" "x") = Some sj
          ∧ accepted_session (force_refresh sj).
Proof.
  assert (ses_status (run_doggy_round_end accepting_drain (gate_env 0 ["bash"]) (gate_session "x" "x")).2
          = Some Complete) as Hc by by vm_compute.
  split; [exact Hc|]. split; [by vm_compute|].
  apply (goal_completes_only_when_accepted accepting_drain (gate_env 0 ["bash"]) (gate_session "x" "x"));
    [by vm_compute|exact Hc].
Defined.

Lemma spent_budget_stops_round_witness :
  (run_doggy_round_end accepting_drain (gate_env 1500 ["bash"]) (gate_session "x" "x")).1 = ActEndTurn
  ∧ ses_status (run_doggy_round_end accepting_drain (gate_env 1500 ["bash"]) (gate_session "x" "x")).2
    = Some BudgetLimited.
Proof.
  pose proof (spent_budget_stops_round accepting_drain silent_drain (gate_env 1500 ["bash"]) (gate_session "x" "x")
    (ratchet_tokens 1500 0 (ratchet_tokens 1500 0 gate_goal)) 1000) as H. cbv zeta in H.
  assert (session_goal_tokens (gate_env 1500 ["bash"])
    (doggy_emit_completion_ui (gate_env 1500 ["bash"]) "checking" []
       (accepting_drain [] (gate_session "x" "x")))
    = ((1500%Z, 0%Z), (session_goal_tokens (gate_env 1500 ["bash"])
        (doggy_emit_completion_ui (gate_env 1500 ["bash"]) "checking" []
          (accepting_drain [] (gate_session "x" "x")))).2)) as E by by vm_compute.
  rewrite E in H. specialize (H ltac:(by vm_compute) ltac:(by vm_compute) ltac:(by vm_compute) ltac:(lia)).
  destruct H as (Ha & Hs & _). split; [exact Ha|exact Hs].
Defined.

(** The counter climbs, is compacted, and climbs again. *)
Lemma token_meter_counts_climbs_witness :
  ∃ o', orchestration (meter [(400%Z, []); (100%Z, []); (300%Z, [])] (tracker (gate_session "x" "x"))) = Some o'
    ∧ tokens_used_high_water o' = 600%Z.
Proof.
  destruct (token_meter_counts_climbs (tracker (gate_session "x" "x")) gate_goal
    [(400%Z, []); (100%Z, []); (300%Z, [])]) as (o' & Ho' & Hu); [done|by repeat constructor|done|done|].
  exists o'. split; [exact Ho'|]. rewrite Hu. by vm_compute.
Defined.

(** Both boxes were ticked when a verdict was asked for, and the panel stayed silent. *)
Definition asked_session : Session :=
  gate_session "x" "x" <| ledger := mark_verification_requested ledger_new [1%N; 2%N] |>.

Lemma same_claim_is_judged_once_witness :
  run_doggy_round_end silent_drain (gate_env 0 ["bash"]) asked_session
  = run_doggy_round_end accepting_drain (gate_env 0 ["bash"]) asked_session
  ∧ ses_status (run_doggy_round_end accepting_drain (gate_env 0 ["bash"]) asked_session).2 = Some Active.
Proof.
  split; [|by vm_compute].
  apply (same_claim_is_judged_once accepting_drain silent_drain (gate_env 0 ["bash"]) asked_session [1%N; 2%N]);
    [done|by vm_compute|done].
Defined.

Definition busy_input : RoundInput :=
  {| in_open := acceptance_only; in_verification := Pending;
     in_activity := mkActivity (Some []) ["bash"] [1%N] [] [] |}.

Lemma round_prompts_differ_witness :
  inject_body (InjContinue acceptance_prompt (observed_delta [] busy_input))
  ≠ inject_body (InjContinue acceptance_prompt (observed_delta [EvObserve busy_input] busy_input)).
Proof.
  apply (round_prompts_differ [] [] busy_input busy_input true false false true false false);
    [by vm_compute|by vm_compute|done|done|by vm_compute].
Defined.

Lemma turn_continues_iff_active_witness :
  (run_doggy_round_end silent_drain (gate_env 0 ["bash"]) (gate_session "x" " ")).1 = ActContinue.
Proof. apply turn_continues_iff_active; by vm_compute. Defined.

(** A model that narrates: it calls no tool in any round. *)
Definition narrating_model (n : N) (s : Session) : RoundResult * RoundEnv * Session :=
  (RoundCompleted false, gate_env 0 [], s).

(** The model that narrates without working is stopped by the gate after two
    rounds, with its goal no longer Active. *)
Lemma narrator_is_stopped :
  match run_prompt silent_drain narrating_model 100 true true (gate_session "x" " ") with
  | Some (exit, rounds, s') => exit = ExitGate ∧ rounds = 2%N ∧ ses_status s' ≠ Some Active
  | None => False
  end.
Proof. vm_compute. split_and!; done. Qed.

