(* ===== verification/Drain.v ===== *)
(** * The drain of [update_goal] calls (goal.rs)

    The session's side of the [update_goal] tool: every call that is pending or
    just arrived is answered here, and a claim of completion is verified - the
    deterministic gate first, then the skeptic panel - and its outcome applied to
    the goal. Verification takes long: while it is awaited other tasks of the
    session run, among them the drainer with further calls, which the guards of
    this file have to stand. What the subagents, the shell and the file system
    answer are arguments, as functions of the session they are asked in. *)

From Stdlib Require Import Ascii String ZArith.
From S2P Require Import Prelude RustStr AuditParse CriterionGraph DetGate Replan SkepticPanel Checklist CriteriaView TaskState Progress Decide UpdateGoal GoalTracker GateSession.
From stdpp Require Import options.

Inductive DrainPurpose : Type := TurnEnd | MidTurn.

Inductive DrainSource : Type :=
| SourcePending (input : UpdateGoalInput)
| SourceChannel (envelope : Envelope).

Definition into_parts (src : DrainSource) : UpdateGoalInput * option N :=
  match src with
  | SourcePending i => (i, None)
  | SourceChannel (ack, i) => (i, Some ack)
  end.

Definition GOAL_CLASSIFIER_PENDING_QUEUE_CAP : nat := 4.
Definition FIRST_FINAL_RESPONSE_MAX_CHARS : nat := 4096.

Record GoalClassifierPolicy : Type := mkPolicy { enabled : bool; max_runs : N }.

(** What another task of the session does while a verification is awaited. *)
Inductive Interlude : Type :=
| IvDrain (extra : list Envelope)   (* the drainer task with calls of the model *)
| IvPause                           (* /goal pause *)
| IvClear.                          (* /goal clear *)

(** The configuration, and what the outside answers. *)
Record DrainEnv : Type := mkDrainEnv {
  de_round : RoundEnv;
  goal_classifier_enabled : bool;
  goal_classifier_max_runs : N;
  verifier_skeptic_count : N;
  strategist_every : N;
  skeptic_pool : list GoalRoleModel;
  use_current_model_only : bool;
  debug_assertions : bool;                             (* of the build *)
  has_coordinator : bool;                              (* a subagent channel exists *)
  read_document : string → option Value;               (* serde_json's reader *)
  touch : PlanFile → string → option N;                (* the plan's mtime after a write *)
  plan_read_error : string;                            (* why a missing plan cannot be read *)
  other_file : string → option string;                 (* a plan file elsewhere *)
  details_writable : Session → bool;                   (* the scratch root is secured and written *)
  shell : Session → nat → string → CommandResult;      (* the plan's deterministic checks *)
  stage_env : Session → StageEnv;                      (* the panel *)
  final_response : Session → string;                   (* the implementer's last answer *)
  amender : Session → bool * option string;            (* spawned, and its proposal file *)
  strategist : Session → option (string * string);     (* its note and recommendation *)
  interlude : Session → list Interlude;                (* what runs during an await *)
}.

Section drain.
Context (d : DrainEnv).
Let env := de_round d.

(** ** Small steps *)

Definition send_ack (id : N) (ack : UpdateGoalAck) : Session → Session := emit (AckSent id ack).

(** [try_send_ack]: nothing for a call that was answered when it was deferred. *)
Definition try_send_ack (id : option N) (ack : UpdateGoalAck) (s : Session) : Session :=
  match id with Some id => send_ack id ack s | None => s end.

Definition emit_event (e : GateEvent) : Session → Session := emit (EventEmitted e).

(** A read-modify-write of the plan under its lock. *)
Definition update_plan (f : string → string) (s : Session) : Session :=
  match (plan s).2 with
  | None => s
  | Some body =>
      let updated := f body in
      if String.eqb updated body then s else s <| plan := (touch d (plan s) updated, Some updated) |>
  end.

Definition mark_plan (setter : option (string → string)) (s : Session) : Session :=
  match setter with Some f => update_plan f s | None => s end.

(** [emit_goal_updated] with the token counts of [goal_tokens]. *)
Definition notify_updated (s : Session) : Session :=
  let '(_, s) := session_goal_tokens env s in emit_goal_updated env s.

Inductive GapsUpdate : Type :=
| GapsSet (summary : string) (findings : list ClassifierFinding)
| GapsClear
| GapsPreserve.

Definition record_verdict_on_orchestration (verdict : GoalClassifierVerdict) (details_path : option string)
    (gaps : GapsUpdate) : GoalTracker → GoalTracker :=
  update_goal (λ o,
    let o := o <| last_classifier_verdict := Some verdict |> in
    let o := match details_path with Some p => o <| last_classifier_details_path := Some p |> | None => o end in
    let o := match gaps with
             | GapsSet summary findings =>
                 o <| last_classifier_gaps := Some summary |> <| last_classifier_findings := findings |>
             | GapsClear => o <| last_classifier_gaps := None |> <| last_classifier_findings := [] |>
             | GapsPreserve => o
             end in
    o <| last_classifier_at := Some (rfc3339 (clock env)) |>).

Definition resolve_goal_classifier_policy (s : Session) : GoalClassifierPolicy :=
  let bonus := match orchestration (tracker s) with Some o => strategist_cap_bonus o | None => 0%N end in
  mkPolicy (goal_classifier_enabled d) (u32_saturating_add (goal_classifier_max_runs d) bonus).

(** [reserve_classifier_attempt_slot] *)
Definition reserve_classifier_attempt_slot (policy : GoalClassifierPolicy) (s : Session) : option N * Session :=
  match orchestration (tracker s) with
  | None => (None, s)
  | Some o =>
      let attempt := u32_saturating_add (classifier_runs_attempted o) 1 in
      (Some attempt,
       on_tracker (update_goal (λ o, o <| classifier_runs_attempted := attempt |>
         <| classifier_max_runs := Some (max_runs policy) |> <| rounds_since_verify := 0%N |>)) s)
  end.

Definition cap_just_reached (s : Session) : bool :=
  match orchestration (tracker s) with
  | Some o => bool_decide (status o = BackOffPaused)
              && match classifier_max_runs o with
                 | Some cap => (cap <=? classifier_runs_attempted o)%N
                 | None => false
                 end
  | None => false
  end.

Definition goal_is_paused (s : Session) : bool :=
  match ses_status s with Some st => is_paused st | None => false end.

Definition format_blocked_chat_notification (reason : string) (detail : option string) : string :=
  "Goal paused — verification blocked." +:+ nl +:+ "Reason: " +:+ reason +:+ nl
  +:+ match detail with Some t => t +:+ nl | None => "" end
  +:+ nl +:+ "Type /goal resume to continue after you've addressed it.".

(** [emit_goal_verifying] *)
Definition emit_goal_verifying (s : Session) : Session :=
  if negb (harness_enabled env) then s
  else
    let '(_, s) := session_goal_tokens env s in
    let s := on_tracker (account_elapsed (clock env)) s in
    match orchestration (tracker s) with
    | None => s
    | Some _ => emit GoalUpdated (on_tracker (update_goal (λ o, o <| verifying_in_flight := true |>)) s)
    end.

(** [InFlightGuard] and the drop of the verifying latch. *)
Definition set_in_flight (b : bool) (s : Session) : Session := s <| in_flight := b |>.
Definition clear_verifying : Session → Session :=
  on_tracker (update_goal (λ o, o <| verifying_in_flight := false |>)).

(** What the slot guard does when it is dropped armed. *)
Definition refund_slot (s : Session) : Session :=
  match ses_status s with
  | Some (BackOffPaused | NoProgressPaused | Blocked) => s
  | _ => on_tracker rollback_classifier_attempt s
  end.

(** ** A rejection without a panel *)

(** [NotAchievedSyntheticReason], its one case being a verification in flight. *)
Definition synthetic_details_body (attempt max_runs : N) : string :=
  "# Goal classifier — Not Achieved (synthetic)" +:+ nl +:+ nl
  +:+ "**Attempt:** " +:+ pretty attempt +:+ " of " +:+ pretty max_runs +:+ nl
  +:+ "**Reason:** ConcurrentInFlight" +:+ nl +:+ nl
  +:+ "The harness short-circuited this `update_goal(completed: true)` call because a classifier was already in flight for the previous completion attempt. The second attempt was accounted as Not Achieved (counting toward `classifier_max_runs`) to bound model retry spam."
  +:+ nl +:+ nl +:+ "No sampler call was made; no token cost was incurred for this attempt." +:+ nl.

Definition synthetic_gaps_summary : string :=
  "- a verification was already running for the previous completion attempt; this duplicate `completed: true` was rejected without re-running the panel".

(** [account_not_achieved_without_sampler] *)
Definition account_not_achieved_without_sampler (policy : GoalClassifierPolicy) (s : Session)
    : option (N * string * bool) * Session :=
  match orchestration (tracker s) with
  | None => (None, s)
  | Some o =>
      let attempt := u32_saturating_add (classifier_runs_attempted o) 1 in
      let s := on_tracker (update_goal (λ o, o <| classifier_runs_attempted := attempt |>
                 <| classifier_max_runs := Some (max_runs policy) |>)) s in
      let details_path := format_details_path (env_fs_temp env) (verifier_id o) attempt in
      let wrote := details_writable d s in
      let s := if wrote then emit (FileWritten details_path (synthetic_details_body attempt (max_runs policy))) s else s in
      let details_ptr := if wrote then Some details_path else None in
      let s := on_tracker (record_verdict_on_orchestration NotAchieved details_ptr GapsPreserve) s in
      let s := on_tracker (λ t, (record_not_achieved_streak t).2) s in
      let cap_reached := (max_runs policy <=? attempt)%N in
      let s :=
        if cap_reached then
          let s := emit_event (EvCapReached attempt) s in
          (defer_refuted_or_end_run env []
             ("verification could not complete in " +:+ pretty attempt +:+ " attempts")
             (default "" details_ptr) (PAUSE_GROUP_FIXABLE +:+ ":" +:+ nl +:+ synthetic_gaps_summary) attempt s).2
        else notify_updated s in
      (Some (attempt, default "" details_ptr, cap_reached), s)
  end.

(** ** The loop *)

Record LoopState : Type := mkLoop {
  block_seen : bool;
  auto_paused_mid_drain : bool;
  cap_dropped : N;
}.

Definition reject (r : RejectReason) (detail : string) : UpdateGoalAck := RejectedAck r detail.

Section commands.
(** The branch that verifies a claim: it answers, and tells whether the goal was
    left paused. *)
Context (fire : option N → GoalClassifierPolicy → Session → bool * Session).

(** A call with a [blocked_reason]; whether the run ended. *)
Definition drain_blocked (input : UpdateGoalInput) (reason : string) (ack : option N) (s : Session)
    : option bool * Session :=
  let streak := u32_succ (blocked_streak s) in
  let s := s <| blocked_streak := streak |> in
  if (streak <? 3)%N then
    (None, try_send_ack ack
       (Accepted ("Blocked attempt " +:+ pretty streak
          +:+ "/3 recorded. The harness needs 3 consecutive blocked attempts before pausing the goal — continue retrying or refining the approach.")) s)
  else
    let chat_text := format_blocked_chat_notification reason (ug_message input) in
    let blocker := match ug_message input with Some t => reason +:+ nl +:+ t | None => reason end in
    match defer_blocker_or_end_run env blocker s with
    | (Some (run_ended, text), s) =>
        let s := emit (SlashOutput chat_text) s in
        let s := s <| blocked_streak := 0%N |> in
        (Some run_ended, try_send_ack ack (Accepted text) s)
    | (None, s) =>
        (None, try_send_ack ack (reject BlockedAgainstNonActive "Goal is not Active; blocked_reason ignored") s)
    end.

(** The classifier is off: the claim is taken at its word, and the gate decides. *)
Definition drain_without_classifier (ack : option N) (s : Session) : Session :=
  let '(_, s) := session_goal_tokens env s in
  let s := clear_pending_classifier_completions s in
  let s := mark_plan (set_all_audit_marks true) s in
  let s := on_tracker (record_verdict_on_orchestration GoalTracker.Achieved None GapsClear) s in
  let s := on_tracker reset_strategist_state s in
  try_send_ack ack CompletedWithoutClassifier (emit_goal_updated env s).

(** Guard 1: the goal is not Active. *)
Definition reject_non_active (ack : option N) (s : Session) : Session :=
  let '(attempts_seen, post_cap) :=
    match orchestration (tracker s) with
    | Some o => (classifier_runs_attempted o,
                 bool_decide (status o = BackOffPaused)
                 && match classifier_max_runs o with
                    | Some cap => (cap <=? classifier_runs_attempted o)%N
                    | None => false
                    end)
    | None => (0%N, false)
    end in
  if post_cap then
    try_send_ack ack
      (reject PostCap ("Classifier cap already reached (" +:+ pretty attempts_seen
         +:+ " attempts); goal is BackOff-paused. Do not call update_goal again until the user resumes."))
      (emit_event (EvDroppedAfterCap attempts_seen) s)
  else
    try_send_ack ack (reject NonActive "Goal is not Active; cannot mark complete")
      (emit_event (EvFailOpen GoalNotActiveAtResolve attempts_seen) s).

(** Guard 2: in the middle of a turn the claim waits for its end. *)
Definition defer_to_turn_end (input : UpdateGoalInput) (ack : option N) (s : Session) : Session :=
  let s := if GOAL_CLASSIFIER_PENDING_QUEUE_CAP <=? length (pending s)
           then emit_event EvFailClosedQueueFull (s <| pending := tail (pending s) |>) else s in
  let s := s <| pending := pending s ++ [input] |> in
  let depth := as_u32 (length (pending s)) in
  try_send_ack ack (DeferredToTurnEnd depth) (emit_event (EvMidTurnDeferred depth) s).

(** Guard 3: a verification is already running; whether the rest is to be dropped. *)
Definition reject_in_flight (policy : GoalClassifierPolicy) (ack : option N) (s : Session) : bool * Session :=
  let s := emit_event EvFailClosedInFlight s in
  match account_not_achieved_without_sampler policy s with
  | (Some (attempt, details_path, cap_reached), s) =>
      if cap_reached
      then (cap_just_reached s, try_send_ack ack (ClassifierCapReached details_path attempt) s)
      else (false, try_send_ack ack (ClassifierConcurrentInFlight details_path attempt (max_runs policy)) s)
  | (None, s) =>
      (false, try_send_ack ack (reject InFlightOrchestrationVanished
                "Goal orchestration vanished during in-flight short-circuit") s)
  end.

(** A call with [completed: true]; whether the rest is to be dropped. *)
Definition drain_completed (purpose : DrainPurpose) (input : UpdateGoalInput) (ack : option N) (s : Session)
    : bool * Session :=
  let s := s <| blocked_streak := 0%N |> in
  let path := plan_path (tracker s) in
  let s := update_plan ensure_dual_checklist_on_disk s in
  match require_exec_complete path (match (plan s).2 with Some b => Ok b | None => Err (plan_read_error d) end) with
  | Err detail => (false, try_send_ack ack (reject ExecChecklistIncomplete detail) s)
  | Ok _ =>
      let policy := resolve_goal_classifier_policy s in
      if negb (enabled policy) then (false, drain_without_classifier ack s)
      else if negb (goal_active (tracker s)) then (false, reject_non_active ack s)
      else match purpose with
           | MidTurn => (false, defer_to_turn_end input ack s)
           | TurnEnd => if in_flight s then reject_in_flight policy ack s else fire ack policy s
           end
  end.

(** One turn of the loop. *)
Definition drain_one (purpose : DrainPurpose) (src : DrainSource) (st : LoopState) (s : Session)
    : LoopState * Session :=
  let '(input, ack) := into_parts src in
  if auto_paused_mid_drain st then
    (mkLoop (block_seen st) true (u32_saturating_add (cap_dropped st) 1),
     try_send_ack ack (reject DroppedAfterPauseInDrain
       "Goal auto-paused during verification; this completion was dropped without further verification") s)
  else if block_seen st then
    (st, try_send_ack ack (reject BlockSeenInDrain
           "Goal just transitioned to Blocked by a prior update in this drain") s)
  else match blocked_reason input with
       | Some reason =>
           let '(ended, s) := drain_blocked input reason ack s in
           (mkLoop (default false ended) false (cap_dropped st), s)
       | None =>
           if negb (bool_decide (completed input = Some true)) then
             let summary := match ug_message input with Some m => m +:+ "." | None => "Goal updated." end in
             (st, try_send_ack ack (Accepted summary) (notify_updated s))
           else
             let '(paused, s) := drain_completed purpose input ack s in
             (mkLoop false paused (cap_dropped st), s)
       end.

Fixpoint drain_loop (purpose : DrainPurpose) (cmds : list DrainSource) (st : LoopState) (s : Session)
    : LoopState * Session :=
  match cmds with
  | [] => (st, s)
  | src :: cmds => let '(st, s) := drain_one purpose src st s in drain_loop purpose cmds st s
  end.

Definition harness_disabled_ack : UpdateGoalAck :=
  reject HarnessDisabled
    "Goal mode is not active for this session (no /goal run in progress); update_goal has no effect.".

(** [drain_goal_updates_with_extra] *)
Definition drain_goal_updates_with_extra (purpose : DrainPurpose) (extra : list Envelope) (s : Session) : Session :=
  let queued := default [] (update_rx s) in
  let received := extra ++ queued in
  let s := s <| update_rx := (λ _, []) <$> update_rx s |> in
  if negb (harness_enabled env) then
    foldl (λ s e, send_ack e.1 harness_disabled_ack s) s received
  else
    let '(deferred, s) := match purpose with
                          | TurnEnd => (pending s, s <| pending := [] |>)
                          | MidTurn => ([], s)
                          end in
    let '(st, s) := drain_loop purpose (map SourcePending deferred ++ map SourceChannel received)
                      (mkLoop false false 0) s in
    if (0 <? cap_dropped st)%N then emit_event (EvPendingQueueCleared (cap_dropped st)) s else s.
End commands.

(** ** What runs while a verification is awaited *)

(** [GoalTracker::clear], as far as the tracker goes. *)
Definition clear_tracker (t : GoalTracker) : GoalTracker :=
  t <| orchestration := None |> <| active_since := None |>.

Definition user_pause_message (st : option GoalStatus) : string :=
  match st with
  | Some Active => "Goal paused. Use /goal resume to continue."
  | Some (UserPaused | BackOffPaused | NoProgressPaused | InfraPaused | Blocked) => "Goal is already paused."
  | Some Complete => "Goal is already complete."
  | Some BudgetLimited => "Goal is budget-limited."
  | None => "No goal is currently set."
  end.

(** [/goal pause] and [/goal clear] (slash_exec.rs). The tracker is paused inside a
    [debug_assert!], which a build without debug assertions does not evaluate. *)
Definition goal_pause_command (s : Session) : Session :=
  let st := ses_status s in
  let s := if bool_decide (st = Some Active) then
             let s := if debug_assertions d
                      then on_tracker (λ t, (pause (clock env) PauseUser t).2) s else s in
             notify_updated (clear_pending_classifier_completions s)
           else s in
  emit (SlashOutput (user_pause_message st)) s.

Definition goal_clear_command (s : Session) : Session :=
  let s := on_tracker clear_tracker s in
  let s := s <| blocked_streak := 0%N |> <| records := [] |> in
  emit (SlashOutput "Goal cleared.") (emit GoalCleared (clear_pending_classifier_completions s)).

(** While a verification runs its flag is set, so a drain of that time never
    verifies: its branch for that cannot be reached. *)
Definition unreachable_fire (ack : option N) (policy : GoalClassifierPolicy) (s : Session) : bool * Session :=
  (false, s).

Definition interlude_step (s : Session) (i : Interlude) : Session :=
  match i with
  | IvDrain extra => drain_goal_updates_with_extra unreachable_fire MidTurn extra s
  | IvPause => goal_pause_command s
  | IvClear => goal_clear_command s
  end.

Definition awaiting (s : Session) : Session := foldl interlude_step s (interlude d s).

(** ** Verifying a claim *)

(** The goal's plan file, which is the tracker's unless the goal names another. *)
Definition read_plan_file (path : string) (s : Session) : option string :=
  if String.eqb path (plan_path (tracker s)) then (plan s).2 else other_file d path.

Definition gate_details_body (attempt max_runs : N) (f : CheckFailure) : string :=
  "# Goal verification — deterministic gate (attempt " +:+ pretty attempt +:+ "/" +:+ pretty max_runs +:+ ")"
  +:+ nl +:+ nl
  +:+ "A check declared in the plan's `## Deterministic checks` failed, so the skeptic panel was not run."
  +:+ nl +:+ nl +:+ "- command: `" +:+ fl_command f +:+ "`" +:+ nl +:+ "- criterion: "
  +:+ match fl_criterion f with Some c => pretty c | None => "goal-wide" end
  +:+ nl +:+ nl +:+ "## Output tail" +:+ nl +:+ nl +:+ "```" +:+ nl +:+ fl_detail f +:+ nl +:+ "```" +:+ nl.

(** [deterministic_gate_rejection]; [plan_file] is the goal's, [None] before one
    is recorded. *)
Definition deterministic_gate_rejection (plan_file : option string) (verifier_id : string) (attempt max_runs : N)
    (s : Session) : option GoalClassifierOutcome * Session :=
  match plan_file ≫= (λ p, read_plan_file p s) with
  | None => (None, s)
  | Some body =>
      let checks := parse_checks body in
      if is_nil checks then (None, s)
      else
        let failure := (run_checks (shell d s) checks).2 in
        let s := awaiting s in
        match failure with
        | None => (None, s)
        | Some f =>
            let message := finding_message f in
            let details_path := format_details_path (env_fs_temp env) verifier_id attempt in
            let s := if details_writable d s
                     then emit (FileWritten details_path (gate_details_body attempt max_runs f)) s else s in
            let s := emit_event (EvDeterministicGateFailed attempt (fl_criterion f)) s in
            (Some (OutNotAchieved details_path message [mkClassifierFinding (fl_criterion f) message]
                     (PAUSE_GROUP_FIXABLE +:+ ":" +:+ nl +:+ "- " +:+ message) (gap_fingerprint [message])), s)
        end
  end.

(** [compose_verifier_final_response]: what is sent, and what is kept of it. *)
Definition compose_verifier_final_response (first : option string) (current : string) : string * option string :=
  match first with
  | None => (current, if is_empty (trim current) then None
                      else Some (take_chars FIRST_FINAL_RESPONSE_MAX_CHARS current))
  | Some anchor =>
      let note := trim current in
      (if is_empty note || String.eqb note (trim anchor) then anchor
       else anchor +:+ nl +:+ nl +:+ "## Changes this round" +:+ nl +:+ note, None)
  end.

(** [run_verification_stage_for_drain] *)
Definition run_verification_stage_for_drain (attempt max_runs : N) (s : Session)
    : GoalClassifierOutcome * Session :=
  match orchestration (tracker s) with
  | None => (OutFailOpenAchieved GoalNotActiveAtResolve "", s)
  | Some o =>
      match deterministic_gate_rejection (plan_file o) (verifier_id o) attempt max_runs s with
      | (Some outcome, s) => (outcome, s)
      | (None, s) =>
          let '(_, anchor) := compose_verifier_final_response (first_final_response o) (final_response d s) in
          if negb (has_coordinator d) then (OutFailOpenAchieved SamplerError "", s)
          else
            let n := N.max GOAL_VERIFIER_SKEPTIC_MIN (N.min (verifier_skeptic_count d) GOAL_VERIFIER_SKEPTIC_MAX) in
            let s := if use_current_model_only d then s
                     else on_tracker (update_goal (λ o, o <| skeptic_model_assignment :=
                            expand_skeptic_assignment (skeptic_model_assignment o) (skeptic_pool d) (N.to_nat n) |>)) s in
            let result := run_verification_stage (read_document d) (stage_env d s)
                            (mkStageInputs (verifier_id o) attempt (verifier_skeptic_count d) (skeptic0_session_id o)) in
            let s := awaiting (emit (StageRan attempt result) s) in
            let s := if panel_ran result
                     then on_tracker (update_goal (λ o,
                            let o := o <| skeptic0_session_id := vs_skeptic0_session_id result |> in
                            match anchor with Some a => o <| first_final_response := Some a |> | None => o end)) s
                     else s in
            (outcome result, s)
      end
  end.

(** ** The amender and the strategist *)

(** [amend_plan_for_unattributed_findings] *)
Definition amend_plan_for_unattributed_findings (fs : list ClassifierFinding) (s : Session) : Session :=
  let unattributed := map cf_message (bfilter (λ f, bool_decide (cf_criterion f = None)) fs) in
  if is_nil unattributed then s
  else if negb (has_coordinator d) then s
  else
    let '(claimed, t) := claim_amender_run GOAL_AMENDER_MAX_RUNS (tracker s) in
    let s := s <| tracker := t |> in
    if negb claimed then s
    else if negb (bool_decide (is_Some (plan s).1) || bool_decide (is_Some (plan s).2)) then s
    else
      let '(spawned, proposal) := amender d s in
      let result := run_goal_amender (read_document d) unattributed spawned proposal in
      let s := awaiting s in
      let '(proposed, failed_open) :=
        match result with
        | Proposed a => (length (am_appended a), false)
        | NothingProposed => (0, false)
        | FailedOpen => (0, true)
        end in
      let s := emit_event (EvAmenderRan (length unattributed) proposed failed_open) s in
      match result with
      | Proposed a =>
          match (plan s).2 with
          | None => s
          | Some body =>
              let '(_, report) := apply_amendment body a in
              let s := update_plan (λ body, (apply_amendment body a).1) s in
              if report_changed report then force_refresh (emit_event (EvPlanAmended report) s) else s
          end
      | _ => s
      end.

(** [maybe_run_goal_strategist] *)
Definition maybe_run_goal_strategist (s : Session) : Session :=
  if negb (has_coordinator d) then on_tracker revoke_strategist_cap_bonus s
  else match orchestration (tracker s) with
       | None => on_tracker revoke_strategist_cap_bonus s
       | Some _ =>
           let advice := strategist d s in
           let s := awaiting s in
           match advice with
           | Some (file, recommendation) => on_tracker (record_strategy_recommendation file recommendation) s
           | None => on_tracker revoke_strategist_cap_bonus s
           end
       end.

(** ** The outcome *)

(** The marks a rejection clears: those of the refuted criteria and of what
    builds on them when every finding names one, all of them otherwise. *)
Definition clear_refuted_marks (fs : list ClassifierFinding) (s : Session) : Session :=
  let refuted := omap cf_criterion fs in
  let localized := negb (is_nil fs) && (length refuted =? length fs) in
  if localized
  then mark_plan (set_audit_marks_for_criteria (with_dependents (view_of s) refuted) false) s
  else mark_plan (set_all_audit_marks false) s.

(** The stall check: whether the gap repeats, and whether a strategy was tried. *)
Definition check_stall (fingerprint : string) (s : Session) : bool * bool * Session :=
  let '(stalled, t) := if is_empty fingerprint then (false, tracker s)
                       else record_classifier_stall fingerprint (tracker s) in
  let s := s <| tracker := t |> in
  let tried := match orchestration (tracker s) with
               | Some o => (0 <? strategist_cap_bonus o)%N
               | None => false
               end in
  (stalled, tried, s).

(** The end of the rejection arm: the strategist when it is due, and the answer. *)
Definition after_rejection (policy : GoalClassifierPolicy) (attempt : N) (details_path : string)
    (force_strategist : bool) (s : Session) : UpdateGoalAck * Session :=
  let '(claimed, t) := claim_strategist_fire
    (λ consecutive last_fired, force_strategist
       || strategist_should_fire (strategist_every d) consecutive last_fired) (tracker s) in
  let s := s <| tracker := t |> in
  let s := match claimed with Some _ => maybe_run_goal_strategist s | None => s end in
  (ClassifierNotAchieved details_path attempt (max_runs policy), emit_goal_updated env s).

(** The stall rung of the rejection arm. *)
Definition stall_rung (policy : GoalClassifierPolicy) (attempt : N) (details_path pause_summary fingerprint : string)
    (fs : list ClassifierFinding) (s : Session) : UpdateGoalAck * Session :=
  let '(stalled, tried, s) := check_stall fingerprint s in
  if stalled && tried then
    let '(ended, s) := defer_refuted_or_end_run env fs "the same gap survived a change of strategy"
                         details_path pause_summary attempt s in
    if ended then (ClassifierStalled details_path attempt, s)
    else after_rejection policy attempt details_path false s
  else after_rejection policy attempt details_path (stalled && negb tried) s.

(** [apply_classifier_outcome] *)
Definition apply_classifier_outcome (policy : GoalClassifierPolicy) (attempt : N) (o : GoalClassifierOutcome)
    (s : Session) : UpdateGoalAck * Session :=
  let '(_, s) := session_goal_tokens env s in
  match o with
  | OutAchieved details_path =>
      let s := clear_pending_classifier_completions s in
      let s := mark_plan (set_all_audit_marks true) s in
      let s := on_tracker (record_verdict_on_orchestration GoalTracker.Achieved (Some details_path) GapsClear) s in
      let s := on_tracker reset_strategist_state s in
      let p := default details_path (orchestration (tracker s) ≫= last_classifier_details_path) in
      (ClassifierAchieved p, emit_goal_updated env s)
  | OutNotAchieved details_path gaps_summary gaps_findings pause_summary fingerprint =>
      let s := on_tracker (refresh_criteria_view (plan s)) s in
      let s := clear_refuted_marks gaps_findings s in
      let s := amend_plan_for_unattributed_findings gaps_findings s in
      let s := on_tracker (record_verdict_on_orchestration NotAchieved (Some details_path)
                 (GapsSet gaps_summary gaps_findings)) s in
      let s := on_tracker (λ t, (record_not_achieved_streak t).2) s in
      if (max_runs policy <=? attempt)%N then
        let s := emit_event (EvCapReached attempt) s in
        let '(ended, s) := defer_refuted_or_end_run env gaps_findings
          ("verification refuted it " +:+ pretty attempt +:+ " times without progress; see " +:+ details_path)
          details_path pause_summary attempt s in
        if ended then (ClassifierCapReached details_path attempt, s)
        else stall_rung policy attempt details_path pause_summary fingerprint gaps_findings s
      else stall_rung policy attempt details_path pause_summary fingerprint gaps_findings s
  | OutBlocked details_path pause_summary =>
      let s := on_tracker (record_verdict_on_orchestration NotAchieved (Some details_path) GapsClear) s in
      let s := on_tracker (λ t, reset_strategist_state (reset_classifier_stall (rollback_classifier_attempt t))) s in
      let msg := format_goal_pause_message
        "Goal verification found no model-fixable path — paused for your decision." pause_summary details_path in
      (ClassifierBlocked details_path, (auto_pause_goal_if_active_with_message env PauseVerification msg s).2)
  | OutFailOpenAchieved reason details_path =>
      let s := clear_pending_classifier_completions s in
      let fail_msg := "Verification infrastructure failed (" +:+ fail_open_as_const_str reason
        +:+ "); task is NOT complete. Retry verification after fixing environment issues." in
      let s := on_tracker (record_verdict_on_orchestration NotAchieved
                 (if is_empty details_path then None else Some details_path) (GapsSet fail_msg [])) s in
      let s := on_tracker (λ t, (record_not_achieved_streak t).2) s in
      let s := mark_plan (set_all_audit_marks false) s in
      (ClassifierFailOpenAchieved (fail_open_as_const_str reason), emit_goal_updated env s)
  end.

(** The branch of the loop that verifies. *)
Definition fire_classifier (ack : option N) (policy : GoalClassifierPolicy) (s : Session) : bool * Session :=
  let s := set_in_flight true s in
  match reserve_classifier_attempt_slot policy s with
  | (None, s) =>
      let s := emit_event (EvFailOpen GoalNotActiveAtResolve 0) s in
      (false, set_in_flight false (try_send_ack ack
                (reject OrchestrationVanished "Goal orchestration vanished before classifier could start") s))
  | (Some attempt, s) =>
      let s := emit_goal_verifying s in
      let '(o, s) := run_verification_stage_for_drain attempt (max_runs policy) s in
      let s := clear_verifying s in
      if negb (goal_active (tracker s)) then
        let s := emit_event (EvFailOpen GoalNotActiveAtResolve attempt) s in
        let s := try_send_ack ack (reject StatusChangedDuringClassifier
                   "Goal transitioned to non-Active during classifier run") s in
        (false, set_in_flight false (refund_slot s))
      else
        let '(a, s) := apply_classifier_outcome policy attempt o s in
        (goal_is_paused s, set_in_flight false (try_send_ack ack a s))
  end.

(** The drain as the gate runs it at the end of a turn, and as the drainer task
    runs it in the middle of one. *)
Definition drain_turn_end : list Envelope → Session → Session :=
  drain_goal_updates_with_extra fire_classifier TurnEnd.
Definition drain_mid_turn : list Envelope → Session → Session :=
  drain_goal_updates_with_extra fire_classifier MidTurn.
End drain.
