(* ===== verification/DrainFacts.v ===== *)
(** * What the drain guarantees

    Facts about [Drain]: it obeys the interface the gate relies on, a goal's
    verdict is Achieved only after a panel's approval, every call is answered,
    and the queue of deferred claims is bounded. *)

From Stdlib Require Import Ascii String ZArith.
From S2P Require Import Prelude RustStr AuditParse CriterionGraph DetGate Replan SkepticPanel SkepticPanelFacts Checklist CriteriaView TaskState Progress Decide UpdateGoal GoalTracker GateSession GateSessionFacts Drain.
From stdpp Require Import options.

(** ** Functions that leave status and verdict alone *)

Definition verdict_of (t : GoalTracker) : option GoalClassifierVerdict :=
  orchestration t ≫= last_classifier_verdict.

Definition verdict (s : Session) : option GoalClassifierVerdict := verdict_of (tracker s).

Class Keeps (f : GoalTracker → GoalTracker) : Prop :=
  keeps t : tracker_status (f t) = tracker_status t ∧ verdict_of (f t) = verdict_of t.

Class KeepsGoal (f : GoalOrchestration → GoalOrchestration) : Prop :=
  keeps_goal o : GoalTracker.status (f o) = GoalTracker.status o
                 ∧ last_classifier_verdict (f o) = last_classifier_verdict o.

#[export] Instance update_keeps f : KeepsGoal f → Keeps (update_goal f).
Proof.
  intros Hf t. unfold tracker_status, verdict_of, update_goal. destruct t as [[o|] ? ?]; [|done].
  cbn [orchestration set_field fmap option_fmap option_map mbind option_bind]. destruct (Hf o) as [-> ->]. done.
Qed.

#[export] Instance compose_keeps f g : Keeps f → Keeps g → Keeps (λ t, f (g t)).
Proof. intros Hf Hg t. destruct (Hf (g t)) as [-> ->]. apply Hg. Qed.

#[export] Instance account_keeps c : Keeps (account_elapsed c).
Proof. intros t. unfold account_elapsed. by destruct t as [[[]|] d [a|]]. Qed.

#[export] Instance refresh_keeps p : Keeps (refresh_criteria_view p).
Proof.
  intros t. unfold refresh_criteria_view. destruct p as [m [b|]], t as [[[]|] d a]; cbn [orchestration]; try done;
    by destruct (bool_decide _ && _).
Qed.

#[export] Instance force_refresh_keeps p : Keeps (force_refresh_criteria_view p).
Proof.
  unfold force_refresh_criteria_view. apply compose_keeps; [apply _|]. apply update_keeps. by intros [].
Qed.

#[export] Instance defer_keeps c r : Keeps (λ t, (defer_criterion c r t).2).
Proof.
  intros t. unfold defer_criterion. destruct t as [[[]|] d a]; [|done]. cbn [orchestration]. by destruct (any _ _).
Qed.

#[export] Instance defer_all_keeps why ns : Keeps (λ t, foldl (λ t c, (defer_criterion (Some c) why t).2) t ns).
Proof.
  induction ns as [|n ns IH]; [done|]. intros t. cbn [foldl]. destruct (IH (defer_criterion (Some n) why t).2) as [-> ->].
  apply (defer_keeps (Some n) why).
Qed.

#[export] Instance grant_keeps : Keeps grant_fresh_classifier_budget.
Proof. apply update_keeps. by intros []. Qed.

#[export] Instance streak_keeps : Keeps (λ t, (record_not_achieved_streak t).2).
Proof. intros t. unfold record_not_achieved_streak. by destruct t as [[[]|] d a]. Qed.

#[export] Instance rollback_keeps : Keeps rollback_classifier_attempt.
Proof. apply update_keeps. by intros []. Qed.
#[export] Instance reset_stall_keeps : Keeps reset_classifier_stall.
Proof. apply update_keeps. by intros []. Qed.
#[export] Instance reset_strategist_keeps : Keeps reset_strategist_state.
Proof. apply update_keeps. by intros []. Qed.
#[export] Instance revoke_keeps : Keeps revoke_strategist_cap_bonus.
Proof. apply update_keeps. by intros []. Qed.
#[export] Instance recommendation_keeps p r : Keeps (record_strategy_recommendation p r).
Proof. apply update_keeps. by intros []. Qed.

#[export] Instance stall_keeps f : Keeps (λ t, (record_classifier_stall f t).2).
Proof.
  intros t. unfold record_classifier_stall. destruct t as [[o|] d a]; [|done]. cbn [orchestration].
  unfold tracker_status, verdict_of. cbn [snd orchestration set_field fmap option_fmap option_map mbind option_bind].
  unfold record_stall. destruct o. by case_bool_decide.
Qed.

#[export] Instance claim_fire_keeps f : Keeps (λ t, (claim_strategist_fire f t).2).
Proof. intros t. unfold claim_strategist_fire. destruct t as [[[]|] d a]; [|done]. cbn [orchestration]. by destruct (f _ _). Qed.

#[export] Instance claim_amender_keeps n : Keeps (λ t, (claim_amender_run n t).2).
Proof.
  intros t. unfold claim_amender_run. destruct t as [[[]|] d a]; [|done]. cbn [orchestration].
  by destruct (n <=? _)%N.
Qed.

#[export] Instance tokens_keep c r : Keeps (λ t, (goal_tokens c r t).2).
Proof.
  intros t. unfold goal_tokens. destruct t as [[o|] d a]; [|done]. cbn [orchestration].
  destruct (token_sums _ _) as [x y]. by destruct o.
Qed.

Lemma clear_verifying_keeps : Keeps (update_goal (λ o, o <| verifying_in_flight := false |>)).
Proof. apply update_keeps. by intros []. Qed.

Lemma pause_verdict c r msg t : verdict_of (pause_inner c r msg t).2 = verdict_of t.
Proof.
  unfold pause_inner. destruct t as [[o|] d a]; [|done]. cbn [orchestration active_since].
  case_bool_decide; [|done]. by destruct o, a, msg.
Qed.

(** ** What a drain may do to a session *)

Create HintDb step.

(** The moves of a goal's status: it may be paused, and it may be cleared. *)
Definition moves (x y : option GoalStatus) : Prop :=
  y = x ∨ y = None ∨ x = Some Active ∧ (y = Some UserPaused ∨ y = Some Blocked).

Section steps.
Context (d : DrainEnv).
Let env := de_round d.

(** A verdict Achieved is earned by an approving panel, or not asked for. *)
Definition earned (out : list Output) : Prop :=
  goal_classifier_enabled d = false
  ∨ ∃ senv inputs, stage_approves (read_document d) senv inputs
      ∧ StageRan (si_attempt inputs) (run_verification_stage (read_document d) senv inputs) ∈ out.

Record Step (s s' : Session) : Prop := mkStep {
  step_outbox : ∃ out, outbox s' = outbox s ++ out;
  step_ledger : ledger s' = ledger s;
  step_machine : machine s' = machine s;
  step_in_flight : in_flight s' = in_flight s;
  step_status : moves (ses_status s) (ses_status s');
  step_verdict : verdict s' = Some Achieved → verdict s = Some Achieved ∨ earned (outbox s');
  step_pending : length (pending s) ≤ GOAL_CLASSIFIER_PENDING_QUEUE_CAP →
                 length (pending s') ≤ GOAL_CLASSIFIER_PENDING_QUEUE_CAP;
}.

Lemma earned_grows out more : earned out → earned (out ++ more).
Proof. unfold earned. setoid_rewrite elem_of_app. naive_solver. Qed.

#[export] Instance step_preorder : PreOrder Step.
Proof.
  split.
  - intros s. constructor; [by exists []; rewrite app_nil_r|done..| |by left|done]. by left.
  - intros x y z [[o1 O1] L1 M1 F1 S1 V1 P1] [[o2 O2] L2 M2 F2 S2 V2 P2].
    constructor; [|congruence..| | |by auto].
    + exists (o1 ++ o2). by rewrite O2, O1, app_assoc.
    + unfold moves in *. destruct S2 as [->| [->|[E ?]]]; [done|by auto|]. rewrite E in S1. naive_solver.
    + intros [Hy|]%V2; [|by auto]. destruct (V1 Hy); [by left|]. right. rewrite O2. by apply earned_grows.
Qed.

(** A step that touches nothing of interest but the tracker and the outbox. *)
Lemma step_quiet s0 s t out p b q rs u :
  Step s0 s → tracker_status t = ses_status s → verdict_of t = verdict s → (p = pending s ∨ p = []) →
  Step s0 (mkSession t (machine s) (ledger s) rs q (outbox s ++ out) p b (in_flight s) u).
Proof.
  intros H Hs Hv Hp. etrans; [exact H|]. constructor; cbn; [by eexists|done..| | |].
  - left. exact Hs.
  - rewrite <- Hv. by left.
  - destruct Hp as [->| ->]; [done|]. cbn. lia.
Qed.

Lemma step_silent s0 s t p b q rs u :
  Step s0 s → tracker_status t = ses_status s → verdict_of t = verdict s → (p = pending s ∨ p = []) →
  Step s0 (mkSession t (machine s) (ledger s) rs q (outbox s) p b (in_flight s) u).
Proof. intros. rewrite <- (app_nil_r (outbox s)). by apply step_quiet. Qed.

Lemma step_emit s0 s o : Step s0 s → Step s0 (emit o s).
Proof. intros. apply step_quiet; auto. Qed.

Lemma step_event s0 s e : Step s0 s → Step s0 (emit_event e s).
Proof. apply step_emit. Qed.

Lemma step_ack s0 s id a : Step s0 s → Step s0 (try_send_ack id a s).
Proof. intros. destruct id; [by apply step_emit|done]. Qed.

Lemma step_tracker f `{!Keeps f} s0 s : Step s0 s → Step s0 (on_tracker f s).
Proof. intros. destruct (keeps (f:=f) (tracker s)) as [Hs Hv]. apply step_silent; auto. Qed.

Lemma step_retrack {A} (f : GoalTracker → A * GoalTracker) `{!Keeps (λ t, (f t).2)} s0 s :
  Step s0 s → Step s0 (s <| tracker := (f (tracker s)).2 |>).
Proof. apply (step_tracker (λ t, (f t).2)). Qed.

Lemma step_clear_pending s0 s : Step s0 s → Step s0 (clear_pending_classifier_completions s).
Proof. intros. apply step_silent; auto. Qed.

Lemma step_streak s0 s n : Step s0 s → Step s0 (s <| blocked_streak := n |>).
Proof. intros. apply step_silent; auto. Qed.

Lemma step_plan s0 s p : Step s0 s → Step s0 (s <| plan := p |>).
Proof. intros. apply step_silent; auto. Qed.

Hint Resolve step_emit step_event step_ack step_clear_pending step_streak step_plan : step.
Hint Extern 2 (Step _ (on_tracker _ _)) => apply step_tracker; [apply _|] : step.
Hint Extern 5 (Step ?s ?s) => reflexivity : step.

Lemma step_tokens s0 s : Step s0 s → Step s0 (session_goal_tokens env s).2.
Proof.
  intros H. unfold session_goal_tokens. pose proof (step_retrack (goal_tokens (current_tokens env) (records s)) s0 s H).
  by destruct (goal_tokens _ _ _).
Qed.

Lemma step_updated s0 s : Step s0 s → Step s0 (emit_goal_updated env s).
Proof.
  intros H. unfold emit_goal_updated.
  assert (Step s0 (on_tracker (λ t, refresh_criteria_view (plan s) (account_elapsed (clock env) t)) s)) as H1 by auto with step.
  destruct (orchestration _); auto with step.
Qed.
Hint Resolve step_tokens step_updated : step.

Lemma step_auto_pause s0 s msg :
  Step s0 s → Step s0 (auto_pause_goal_if_active_with_message env PauseVerification msg s).2.
Proof.
  intros H. unfold auto_pause_goal_if_active_with_message. cbn [halts_unattended_run negb].
  destruct (goal_active (tracker s)) eqn:Ha; [|done]. cbn [negb].
  set (s1 := clear_pending_classifier_completions _).
  assert (Step s0 s1) as H1.
  { subst s1. apply step_clear_pending. etrans; [exact H|]. unfold on_tracker, pause_with_message.
    constructor; cbn; [by exists []; rewrite app_nil_r|done..| | |done].
    - unfold ses_status. cbn. rewrite pause_status, Ha. apply goal_active_spec in Ha. right. right. auto.
    - unfold verdict. cbn. rewrite pause_verdict. by left. }
  pose proof (step_tokens s0 s1 H1). destruct (session_goal_tokens env s1) as [x s2]. cbn [snd] in *. auto with step.
Qed.
Hint Resolve step_auto_pause : step.

(** Runs the next paired operation of the goal [Step s0 _], keeping what it did. *)
Ltac run s0 :=
  match goal with
  | |- context [let '(_, _) := ?e in _] =>
      let H := fresh "Hrun" in
      assert (Step s0 e.2) as H by auto with step; destruct e as [? ?]; cbn [snd] in H
  end.

Lemma step_defer_blocker s0 s b : Step s0 s → Step s0 (defer_blocker_or_end_run env b s).2.
Proof.
  intros H. unfold defer_blocker_or_end_run. destruct (goal_active (tracker s)); [|done]. cbn [negb].
  assert (Step s0 (on_tracker (λ t, (defer_criterion None b t).2) s)) as H1 by auto with step.
  destruct (all_remaining_work_deferred _ _); [|done]. cbn [negb]. by run s0.
Qed.

Lemma step_defer_refuted s0 s fs why p m a : Step s0 s → Step s0 (defer_refuted_or_end_run env fs why p m a s).2.
Proof.
  intros H. unfold defer_refuted_or_end_run. set (s1 := if negb (is_nil fs) && _ then _ else on_tracker _ s).
  assert (Step s0 s1) as H1 by (subst s1; destruct (_ && _); auto with step). clearbody s1.
  destruct (negb (_ || _)); [cbn [snd]; auto with step|]. by run s0.
Qed.

Lemma step_update_plan s0 s f : Step s0 s → Step s0 (update_plan d f s).
Proof. intros H. unfold update_plan. destruct ((plan s).2); [|done]. destruct (String.eqb _ _); auto with step. Qed.

Lemma step_mark_plan s0 s f : Step s0 s → Step s0 (mark_plan d f s).
Proof. intros H. destruct f; [by apply step_update_plan|done]. Qed.

Lemma step_notify s0 s : Step s0 s → Step s0 (notify_updated d s).
Proof. intros H. unfold notify_updated. run s0. auto with step. Qed.

Lemma step_refund s0 s : Step s0 s → Step s0 (refund_slot s).
Proof. intros H. unfold refund_slot. destruct (ses_status s) as [[]|]; auto with step. Qed.

Lemma step_verifying s0 s : Step s0 s → Step s0 (emit_goal_verifying d s).
Proof.
  intros H. unfold emit_goal_verifying. destruct (negb _); [done|]. run s0.
  match goal with |- context [orchestration (tracker ?x)] => assert (Step s0 x) by auto with step end.
  destruct (orchestration _); [|done]. apply step_emit, step_tracker; [|done]. apply update_keeps. by intros [].
Qed.
Hint Resolve step_defer_blocker step_defer_refuted step_update_plan step_mark_plan step_notify step_refund
  step_verifying : step.

(** A rejection records its verdict; an approval has to be earned. *)
Lemma step_record v p g s0 s :
  (v = Achieved → earned (outbox s)) → Step s0 s → Step s0 (on_tracker (record_verdict_on_orchestration d v p g) s).
Proof.
  intros Hv H. etrans; [exact H|]. constructor; cbn; [by exists []; rewrite app_nil_r|done..| | |done].
  - left. unfold ses_status, on_tracker. cbn. apply update_keeps_status. intros o. by destruct o, p, g.
  - unfold verdict, on_tracker. cbn. destruct (tracker s) as [[o|] ? ?]; cbn; [|by auto].
    destruct o, p, g; cbn; intros [= ->]; auto.
Qed.

Lemma step_reject v p g s0 s :
  v ≠ Achieved → Step s0 s → Step s0 (on_tracker (record_verdict_on_orchestration d v p g) s).
Proof. intros. by apply step_record. Qed.
Hint Resolve step_reject : step.
Hint Extern 1 (_ ≠ _) => discriminate : step.

Lemma step_account policy s0 s : Step s0 s → Step s0 (account_not_achieved_without_sampler d policy s).2.
Proof.
  intros H. unfold account_not_achieved_without_sampler. destruct (orchestration (tracker s)) as [o|]; [|done].
  cbn [snd]. set (s1 := on_tracker _ s).
  assert (Step s0 s1) as H1 by (apply step_tracker; [apply update_keeps; by intros []|done]). clearbody s1.
  destruct (details_writable d s1); destruct (max_runs policy <=? _)%N; auto 10 with step.
Qed.
Hint Resolve step_account : step.

(** ** The loop *)

Lemma step_drain_blocked s0 s input reason ack : Step s0 s → Step s0 (drain_blocked d input reason ack s).2.
Proof.
  intros H. unfold drain_blocked. destruct (_ <? 3)%N; [cbn [snd]; auto with step|].
  match goal with |- context [defer_blocker_or_end_run ?e ?b ?s1] =>
    assert (Step s0 (defer_blocker_or_end_run e b s1).2) as H1 by auto with step;
    destruct (defer_blocker_or_end_run e b s1) as [[[] |] s2] end; cbn [snd] in *; auto with step.
Qed.

Lemma step_unclassified s0 s ack :
  goal_classifier_enabled d = false → Step s0 s → Step s0 (drain_without_classifier d ack s).
Proof.
  intros He H. unfold drain_without_classifier. run s0. apply step_ack, step_updated, step_tracker; [apply _|].
  apply step_record; [by left|]. auto with step.
Qed.

Lemma step_non_active s0 s ack : Step s0 s → Step s0 (reject_non_active ack s).
Proof.
  intros H. unfold reject_non_active. destruct (match orchestration _ with Some _ => _ | None => _ end) as [n []];
    auto with step.
Qed.

Lemma step_defer_completion s0 s input ack : Step s0 s → Step s0 (defer_to_turn_end input ack s).
Proof.
  intros H. unfold defer_to_turn_end. apply step_ack, step_event. etrans; [exact H|].
  destruct (Nat.leb_spec GOAL_CLASSIFIER_PENDING_QUEUE_CAP (length (pending s))) as [Hl|Hl].
  all: constructor; cbn; [first [by exists []; rewrite app_nil_r|by eexists]|done..|by left|by left|].
  all: rewrite length_app; cbn; intros Hle.
  - destruct (pending s); unfold GOAL_CLASSIFIER_PENDING_QUEUE_CAP in *; cbn [tail length] in *; lia.
  - unfold GOAL_CLASSIFIER_PENDING_QUEUE_CAP in *; lia.
Qed.

Lemma step_reject_in_flight s0 s policy ack : Step s0 s → Step s0 (reject_in_flight d policy ack s).2.
Proof.
  intros H. unfold reject_in_flight.
  match goal with |- context [account_not_achieved_without_sampler ?e ?b ?s1] =>
    assert (Step s0 (account_not_achieved_without_sampler e b s1).2) as H1 by auto with step;
    destruct (account_not_achieved_without_sampler e b s1) as [[[[] []]|] s2] end; cbn [snd] in *; auto with step.
Qed.
Hint Resolve step_drain_blocked step_unclassified step_non_active step_defer_completion step_reject_in_flight : step.

Section loop.
Context (fire : option N → GoalClassifierPolicy → Session → bool * Session).
Hypothesis fire_step : ∀ s0 ack policy s, in_flight s = false → Step s0 s → Step s0 (fire ack policy s).2.

Lemma step_drain_completed purpose s0 s input ack :
  Step s0 s → Step s0 (drain_completed d fire purpose input ack s).2.
Proof using fire_step.
  intros H. unfold drain_completed. set (s1 := update_plan _ _ _).
  assert (Step s0 s1) as H1 by (subst s1; auto with step). clearbody s1.
  destruct (require_exec_complete _ _); [|cbn [snd]; by auto with step].
  destruct (enabled _) eqn:He; cbn [negb]; [|cbn [snd]; by auto with step].
  destruct (goal_active _); cbn [negb]; [|cbn [snd]; by auto with step].
  destruct purpose; [|cbn [snd]; by auto with step]. destruct (in_flight s1) eqn:Hf; auto with step.
Qed.
Hint Resolve step_drain_completed : step.

Lemma step_drain_one purpose src st s0 s : Step s0 s → Step s0 (drain_one d fire purpose src st s).2.
Proof using fire_step.
  intros H. unfold drain_one. destruct (into_parts src) as [input ack].
  destruct (auto_paused_mid_drain st); [cbn [snd]; by auto with step|].
  destruct (block_seen st); [cbn [snd]; by auto with step|].
  destruct (blocked_reason input); [by run s0|].
  destruct (negb _); [cbn [snd]; by auto with step|by run s0].
Qed.

Lemma step_drain_loop purpose cmds : ∀ st s0 s, Step s0 s → Step s0 (drain_loop d fire purpose cmds st s).2.
Proof using fire_step.
  induction cmds as [|src cmds IH]; intros st s0 s H; [done|]. cbn [drain_loop].
  pose proof (step_drain_one purpose src st s0 s H). destruct (drain_one _ _ _ _ _ _). by apply IH.
Qed.

Lemma step_drain purpose extra s0 s :
  Step s0 s → Step s0 (drain_goal_updates_with_extra d fire purpose extra s).
Proof using fire_step.
  intros H. unfold drain_goal_updates_with_extra.
  set (s1 := s <| update_rx := _ |>). assert (Step s0 s1) as H1 by (apply step_silent; auto).
  generalize (extra ++ default [] (update_rx s)). intros received. clearbody s1. destruct (negb _).
  - revert s1 H1. induction received as [|e received IH]; intros s1 H1; [done|]. cbn [foldl].
    by apply IH, step_emit.
  - assert (∀ cmds s2, Step s0 s2 → Step s0
      (let '(st, s) := drain_loop d fire purpose cmds (mkLoop false false 0) s2 in
       if (0 <? cap_dropped st)%N then emit_event (EvPendingQueueCleared (cap_dropped st)) s else s)) as Hc.
    { intros cmds s2 H2. pose proof (step_drain_loop purpose cmds (mkLoop false false 0) s0 s2 H2).
      destruct (drain_loop _ _ _ _ _ _) as [st s3]. cbn [snd] in *. destruct (_ <? _)%N; auto with step. }
    destruct purpose; apply Hc; [|done]. by apply step_clear_pending.
Qed.
End loop.

(** ** Verifying a claim *)

Lemma step_pause_command s0 s : Step s0 s → Step s0 (goal_pause_command d s).
Proof.
  intros H. unfold goal_pause_command. apply step_emit. destruct (bool_decide _) eqn:Ha; [|done].
  apply step_notify, step_clear_pending. destruct (debug_assertions d); [|done].
  apply bool_decide_eq_true in Ha. etrans; [exact H|]. unfold on_tracker, pause.
  constructor; cbn; [by exists []; rewrite app_nil_r|done..| | |done].
  - unfold ses_status at 2. cbn. rewrite pause_status, (proj2 (goal_active_spec (tracker s))) by done. right. right. auto.
  - unfold verdict. cbn. rewrite pause_verdict. by left.
Qed.

Lemma step_clear_command s0 s : Step s0 s → Step s0 (goal_clear_command s).
Proof.
  intros H. unfold goal_clear_command. apply step_emit, step_emit, step_clear_pending. etrans; [exact H|].
  constructor; cbn; [by exists []; rewrite app_nil_r|done..|by right; left|done|done].
Qed.
Hint Resolve step_pause_command step_clear_command : step.

Lemma step_awaiting s0 s : Step s0 s → Step s0 (awaiting d s).
Proof.
  unfold awaiting. generalize (interlude d s). intros ivs. revert s.
  induction ivs as [|i ivs IH]; intros s H; [done|]. cbn [foldl]. apply IH.
  destruct i; cbn [interlude_step]; auto with step. by apply step_drain.
Qed.
Hint Resolve step_awaiting : step.

Lemma earned_step s s' : Step s s' → earned (outbox s) → earned (outbox s').
Proof. intros [[out ->]]. apply earned_grows. Qed.

Lemma step_det_gate s0 s pf vid a m : Step s0 s → Step s0 (deterministic_gate_rejection d pf vid a m s).2.
Proof.
  intros H. unfold deterministic_gate_rejection. destruct (pf ≫= _) as [body|]; [|done].
  destruct (is_nil _); [done|]. destruct (run_checks _ _).2; [|cbn [snd]; by auto with step].
  cbn [snd]. destruct (details_writable _ _); auto with step.
Qed.

Lemma det_gate_never_achieves pf vid a m s p :
  (deterministic_gate_rejection d pf vid a m s).1 ≠ Some (OutAchieved p).
Proof.
  unfold deterministic_gate_rejection. destruct (pf ≫= _); [|done]. destruct (is_nil _); [done|].
  by destruct (run_checks _ _).2.
Qed.

(** The stage's answer Achieved comes with the panel's run in the outbox. *)
Lemma step_stage s0 s a m :
  Step s0 s →
  Step s0 (run_verification_stage_for_drain d a m s).2
  ∧ ∀ p, (run_verification_stage_for_drain d a m s).1 = OutAchieved p →
      earned (outbox (run_verification_stage_for_drain d a m s).2).
Proof.
  intros H. unfold run_verification_stage_for_drain. destruct (orchestration (tracker s)) as [o|]; [|done].
  pose proof (step_det_gate s0 s (plan_file o) (verifier_id o) a m H) as H1.
  pose proof (det_gate_never_achieves (plan_file o) (verifier_id o) a m s) as Hn.
  destruct (deterministic_gate_rejection _ _ _ _ _ _) as [[out|] s1]; cbn [fst snd] in *; [naive_solver|].
  destruct (compose_verifier_final_response _ _) as [x anchor].
  destruct (has_coordinator d); [|done]. cbn [negb].
  set (s2 := if use_current_model_only d then s1 else _). assert (Step s0 s2) as H2.
  { subst s2. destruct (use_current_model_only d); [done|]. apply step_tracker; [apply update_keeps; by intros []|done]. }
  clearbody s2. set (inputs := mkStageInputs _ _ _ _). set (res := run_verification_stage _ _ _).
  set (s3 := awaiting d _). assert (Step (emit (StageRan a res) s2) s3) as H3 by (apply step_awaiting; done).
  set (s4 := if panel_ran res then _ else s3). assert (Step s3 s4) as H4.
  { subst s4. destruct (panel_ran res); [|done]. apply step_tracker; [|done]. apply update_keeps.
    intros []. by destruct anchor. }
  cbn [fst snd]. split.
  - rewrite <- H4, <- H3. by apply step_emit.
  - intros p Hp. apply (earned_step _ _ H4), (earned_step _ _ H3). right. exists (stage_env d s2), inputs. split.
    + by apply stage_achieves in Hp as [_ Hp].
    + cbn. rewrite elem_of_app, list_elem_of_singleton. by right.
Qed.

(** ** The outcome *)

Lemma step_amend fs s0 s : Step s0 s → Step s0 (amend_plan_for_unattributed_findings d fs s).
Proof.
  intros H. unfold amend_plan_for_unattributed_findings. destruct (is_nil _); [done|].
  destruct (has_coordinator d); [|done]. cbn [negb].
  pose proof (step_retrack (claim_amender_run GOAL_AMENDER_MAX_RUNS) s0 s H) as H1.
  destruct (claim_amender_run _ _) as [claimed t]. cbn [snd] in H1. destruct claimed; [|done]. cbn [negb].
  destruct (negb _); [done|]. destruct (amender d _) as [spawned proposal].
  set (result := run_goal_amender _ _ _ _).
  destruct (match result with Proposed _ => _ | NothingProposed => _ | FailedOpen => _ end) as [n b].
  set (s2 := emit_event _ _). assert (Step s0 s2) as H2 by (subst s2; auto with step).
  destruct result as [am| |]; [|done..]. destruct ((plan s2).2) as [body|]; [|done].
  destruct (apply_amendment _ _) as [new report]. destruct (report_changed _); [|by auto with step].
  unfold force_refresh. auto with step.
Qed.

Lemma step_strategist s0 s : Step s0 s → Step s0 (maybe_run_goal_strategist d s).
Proof.
  intros H. unfold maybe_run_goal_strategist. destruct (has_coordinator d); cbn [negb]; [|by auto with step].
  destruct (orchestration _); [|by auto with step]. destruct (strategist d s) as [[? ?]|]; auto with step.
Qed.

Lemma step_clear_marks fs s0 s : Step s0 s → Step s0 (clear_refuted_marks d fs s).
Proof. intros H. unfold clear_refuted_marks. destruct (_ && _); auto with step. Qed.

Lemma step_after_rejection policy a p b s0 s : Step s0 s → Step s0 (after_rejection d policy a p b s).2.
Proof.
  intros H. unfold after_rejection. set (f := λ _ _, _).
  pose proof (step_retrack (claim_strategist_fire f) s0 s H) as H1.
  destruct (claim_strategist_fire _ _) as [[c|] t]; cbn [snd] in *; apply step_updated; [|done].
  by apply step_strategist.
Qed.

Lemma step_stall_rung policy a p ps fp fs s0 s : Step s0 s → Step s0 (stall_rung d policy a p ps fp fs s).2.
Proof.
  intros H. unfold stall_rung, check_stall.
  destruct (if is_empty fp then _ else _) as [stalled t] eqn:E.
  assert (Step s0 (s <| tracker := t |>)) as H1.
  { destruct (is_empty fp); [by injection E as <- <-; apply step_silent; auto|].
    pose proof (step_retrack (record_classifier_stall fp) s0 s H) as H1. by rewrite E in H1. }
  destruct (stalled && _); [|by apply step_after_rejection].
  run s0. match goal with b : bool |- _ => destruct b end; [done|]. by apply step_after_rejection.
Qed.
Hint Resolve step_amend step_clear_marks step_stall_rung : step.

Lemma step_outcome policy a o s0 s :
  (∀ p, o = OutAchieved p → earned (outbox s)) → Step s0 s → Step s0 (apply_classifier_outcome d policy a o s).2.
Proof.
  intros He H. unfold apply_classifier_outcome.
  assert (Step s (session_goal_tokens (de_round d) s).2) as Ht by (apply step_tokens; done).
  destruct (session_goal_tokens _ s) as [x s1]. cbn [snd] in Ht.
  assert (Step s0 s1) as H1 by (by rewrite <- Ht). destruct o as [p|p gs fs ps fp|p ps|r p]; cbn [snd].
  - apply step_updated, step_tracker; [apply _|]. apply step_record; [|by auto with step].
    intros _. eapply earned_step; [|by eapply He]. etrans; [exact Ht|]. auto with step.
  - set (s2 := on_tracker _ (on_tracker _ (amend_plan_for_unattributed_findings _ _ _))).
    assert (Step s0 s2) as H2 by (subst s2; auto 10 with step). clearbody s2.
    destruct (max_runs policy <=? a)%N; [|by auto with step]. run s0.
    match goal with b : bool |- _ => destruct b end; auto with step.
  - apply step_auto_pause, step_tracker; [|by auto with step].
    apply (compose_keeps reset_strategist_state), (compose_keeps reset_classifier_stall); apply _.
  - apply step_updated, step_mark_plan, step_tracker; [apply _|]. auto with step.
Qed.

Lemma step_flag s0 s s' : in_flight s = false → Step s0 s → Step (set_in_flight true s) s' → Step s0 (set_in_flight false s').
Proof.
  intros Hf H [O L M F S V P]. etrans; [exact H|]. constructor; [exact O|exact L|exact M|done|exact S|exact V|exact P].
Qed.

Lemma step_fire s0 ack policy s : in_flight s = false → Step s0 s → Step s0 (fire_classifier d ack policy s).2.
Proof.
  intros Hf H. unfold fire_classifier. set (s1 := set_in_flight true s).
  assert (Step s1 (reserve_classifier_attempt_slot policy s1).2) as H1.
  { unfold reserve_classifier_attempt_slot. destruct (orchestration _); [|done].
    apply step_tracker; [apply update_keeps; by intros []|done]. }
  destruct (reserve_classifier_attempt_slot policy s1) as [[a|] s2]; cbn [snd] in *.
  - destruct (step_stage s1 (emit_goal_verifying d s2) a (max_runs policy)) as [H2 He]; [by auto with step|].
    destruct (run_verification_stage_for_drain _ _ _ _) as [o s3]. cbn [fst snd] in *.
    set (s4 := clear_verifying s3). assert (Step s1 s4) as H4 by (apply step_tracker; [apply clear_verifying_keeps|done]).
    destruct (goal_active _); cbn [negb snd].
    + pose proof (step_outcome policy a o s1 s4 He H4). destruct (apply_classifier_outcome _ _ _ _ _) as [x s5].
      cbn [snd] in *. apply (step_flag _ s); auto with step.
    + apply (step_flag _ s); auto with step.
  - apply (step_flag _ s); auto with step.
Qed.

Lemma step_drain_turn_end extra s : Step s (drain_turn_end d extra s).
Proof. apply step_drain; [apply step_fire|done]. Qed.
Lemma step_drain_mid_turn extra s : Step s (drain_mid_turn d extra s).
Proof. apply step_drain; [apply step_fire|done]. Qed.

#[export] Instance drain_laws : DrainLaws (drain_turn_end d).
Proof.
  split; intros extra s; destruct (step_drain_turn_end extra s) as [_ L _ _ S _ _]; [|done].
  destruct S as [->|[->|[_ [->| ->]]]]; done.
Qed.
End steps.

(** ** Every call is answered *)

Definition ack_id (o : Output) : option N := match o with AckSent id _ => Some id | _ => None end.

(** The calls answered so far, in order. *)
Definition answered (s : Session) : list N := omap ack_id (outbox s).

Section answers.
Context (d : DrainEnv).
Let env := de_round d.

Definition Quiet (f : Session → Session) : Prop := ∀ s, answered (f s) = answered s.

Lemma answered_emit o s : answered (emit o s) = answered s ++ option_list (ack_id o).
Proof. unfold answered, emit. cbn. rewrite omap_app. cbn. by destruct (ack_id o). Qed.

Lemma answered_quiet o s : ack_id o = None → answered (emit o s) = answered s.
Proof. intros Ho. by rewrite answered_emit, Ho, app_nil_r. Qed.

Lemma answered_ack id a s : answered (try_send_ack id a s) = answered s ++ option_list id.
Proof. destruct id; [apply answered_emit|by rewrite app_nil_r]. Qed.

Lemma answered_event e s : answered (emit_event e s) = answered s.
Proof. by apply answered_quiet. Qed.

Lemma answered_tracker f s : answered (on_tracker f s) = answered s.
Proof. done. Qed.

Lemma answered_tokens s : answered (session_goal_tokens env s).2 = answered s.
Proof. unfold session_goal_tokens. by destruct (goal_tokens _ _ _). Qed.

Lemma answered_updated s : answered (emit_goal_updated env s) = answered s.
Proof. unfold emit_goal_updated. destruct (orchestration _); [by rewrite answered_quiet|done]. Qed.

Lemma answered_auto_pause r msg s : answered (auto_pause_goal_if_active_with_message env r msg s).2 = answered s.
Proof.
  unfold auto_pause_goal_if_active_with_message. destruct (negb _); [done|]. destruct (negb _); [done|].
  set (s1 := clear_pending_classifier_completions _). pose proof (answered_tokens s1) as Ht.
  destruct (session_goal_tokens env s1) as [x s2]. cbn [snd] in *. by rewrite answered_quiet, answered_updated, Ht.
Qed.

Lemma answered_defer_blocker b s : answered (defer_blocker_or_end_run env b s).2 = answered s.
Proof.
  unfold defer_blocker_or_end_run. destruct (negb _); [done|]. destruct (negb _); [done|].
  match goal with |- context [auto_pause_goal_if_active_with_message ?e ?r ?m ?s1] =>
    pose proof (answered_auto_pause r m s1) as H; fold env in H |- *;
    destruct (auto_pause_goal_if_active_with_message e r m s1) end. exact H.
Qed.

Lemma answered_defer_refuted fs why p m a s : answered (defer_refuted_or_end_run env fs why p m a s).2 = answered s.
Proof.
  unfold defer_refuted_or_end_run. set (s1 := if negb (is_nil fs) && _ then _ else on_tracker _ s).
  assert (answered s1 = answered s) as <- by (subst s1; by destruct (_ && _)). clearbody s1.
  destruct (negb (_ || _)); [done|].
  match goal with |- context [auto_pause_goal_if_active_with_message ?e ?r ?m ?s1] =>
    pose proof (answered_auto_pause r m s1) as H;
    destruct (auto_pause_goal_if_active_with_message e r m s1) end. exact H.
Qed.

Lemma answered_update_plan f s : answered (update_plan d f s) = answered s.
Proof. unfold update_plan. destruct ((plan s).2); [|done]. by destruct (String.eqb _ _). Qed.

Lemma answered_mark_plan f s : answered (mark_plan d f s) = answered s.
Proof. destruct f; [apply answered_update_plan|done]. Qed.

Lemma answered_notify s : answered (notify_updated d s) = answered s.
Proof.
  unfold notify_updated. pose proof (answered_tokens s) as Ht. unfold env in Ht.
  destruct (session_goal_tokens _ s) as [x s2]. cbn [snd] in Ht. rewrite <- Ht. apply answered_updated.
Qed.

Lemma answered_account policy s : answered (account_not_achieved_without_sampler d policy s).2 = answered s.
Proof.
  unfold account_not_achieved_without_sampler. destruct (orchestration (tracker s)); [|done]. cbn [snd].
  destruct (details_writable d _), (_ <=? _)%N;
    rewrite ?answered_defer_refuted, ?answered_notify, ?answered_event, ?answered_tracker, ?answered_quiet by done; done.
Qed.

Lemma answered_blocked input reason ack s :
  answered (drain_blocked d input reason ack s).2 = answered s ++ option_list ack.
Proof.
  unfold drain_blocked. destruct (_ <? 3)%N; [cbn [snd]; by rewrite answered_ack|].
  match goal with |- context [defer_blocker_or_end_run ?e ?b ?s1] =>
    pose proof (answered_defer_blocker b s1) as H; unfold env in H;
    destruct (defer_blocker_or_end_run e b s1) as [[[] |] s2] end; cbn [snd] in *; rewrite answered_ack.
  1: change (answered s2 = answered s) in H; rewrite <- H; f_equal; by apply answered_quiet.
  by rewrite H.
Qed.

Lemma answered_unclassified ack s : answered (drain_without_classifier d ack s) = answered s ++ option_list ack.
Proof.
  unfold drain_without_classifier. pose proof (answered_tokens s) as H. unfold env in H.
  destruct (session_goal_tokens _ s) as [x s2]. cbn [snd] in H.
  by rewrite answered_ack, answered_updated, !answered_tracker, answered_mark_plan, <- H.
Qed.

Lemma answered_non_active ack s : answered (reject_non_active ack s) = answered s ++ option_list ack.
Proof.
  unfold reject_non_active. destruct (match orchestration _ with Some _ => _ | None => _ end) as [n []];
    by rewrite answered_ack, answered_event.
Qed.

Lemma answered_deferred input ack s : answered (defer_to_turn_end input ack s) = answered s ++ option_list ack.
Proof.
  unfold defer_to_turn_end. destruct (_ <=? _); rewrite answered_ack, answered_event; f_equal.
  apply (answered_event EvFailClosedQueueFull s).
Qed.

Lemma answered_in_flight policy ack s :
  answered (reject_in_flight d policy ack s).2 = answered s ++ option_list ack.
Proof.
  unfold reject_in_flight.
  match goal with |- context [account_not_achieved_without_sampler ?e ?b ?s1] =>
    pose proof (answered_account b s1) as H; rewrite answered_event in H;
    destruct (account_not_achieved_without_sampler e b s1) as [[[[] []]|] s2] end; cbn [snd] in *;
    by rewrite answered_ack, H.
Qed.

Section loop.
Context (purpose : DrainPurpose) (fire : option N → GoalClassifierPolicy → Session → bool * Session).
Hypothesis fire_answers : purpose = TurnEnd → ∀ ack policy s,
  answered (fire ack policy s).2 = answered s ++ option_list ack.

Lemma answered_completed input ack s :
  answered (drain_completed d fire purpose input ack s).2 = answered s ++ option_list ack.
Proof using fire_answers.
  unfold drain_completed. set (s1 := update_plan _ _ _).
  assert (answered s1 = answered s) as <- by (subst s1; by rewrite answered_update_plan). clearbody s1.
  destruct (require_exec_complete _ _); [|apply answered_ack].
  destruct (negb _); [apply answered_unclassified|]. destruct (negb _); [apply answered_non_active|].
  destruct purpose; [|apply answered_deferred].
  destruct (in_flight s1); [apply answered_in_flight|by apply fire_answers].
Qed.

Lemma answered_one src st s :
  answered (drain_one d fire purpose src st s).2 = answered s ++ option_list (into_parts src).2.
Proof using fire_answers.
  unfold drain_one. destruct (into_parts src) as [input ack].
  destruct (auto_paused_mid_drain st); [apply answered_ack|]. destruct (block_seen st); [apply answered_ack|].
  destruct (blocked_reason input) as [r|].
  - pose proof (answered_blocked input r ack s) as H. by destruct (drain_blocked _ _ _ _ _).
  - destruct (negb _); [cbn [snd]; by rewrite answered_ack, answered_notify|].
    pose proof (answered_completed input ack s) as H. by destruct (drain_completed _ _ _ _ _ _).
Qed.

Lemma answered_loop cmds : ∀ st s,
  answered (drain_loop d fire purpose cmds st s).2 = answered s ++ omap (λ c, (into_parts c).2) cmds.
Proof using fire_answers.
  induction cmds as [|c cmds IH]; intros st s; [by rewrite app_nil_r|]. cbn [drain_loop].
  pose proof (answered_one c st s) as H. destruct (drain_one _ _ _ _ _ _) as [st' s']. cbn [snd] in H.
  rewrite IH, H, <- app_assoc. cbn. by destruct (into_parts c).2.
Qed.

Lemma answered_drain extra s :
  answered (drain_goal_updates_with_extra d fire purpose extra s)
  = answered s ++ map fst (extra ++ default [] (update_rx s)).
Proof using fire_answers.
  unfold drain_goal_updates_with_extra. set (s1 := s <| update_rx := _ |>).
  change (answered s) with (answered s1). generalize (extra ++ default [] (update_rx s)). intros received.
  clearbody s1. destruct (negb _).
  - revert s1. induction received as [|[id i] received IH]; intros s1; cbn [foldl map fst]; [by rewrite app_nil_r|].
    rewrite IH. unfold send_ack. by rewrite answered_emit, <- app_assoc.
  - assert (∀ pend s2, answered (let '(st, s) := drain_loop d fire purpose
        (map SourcePending pend ++ map SourceChannel received) (mkLoop false false 0) s2 in
       if (0 <? cap_dropped st)%N then emit_event (EvPendingQueueCleared (cap_dropped st)) s else s)
       = answered s2 ++ map fst received) as Hc.
    { intros pend s2. pose proof (answered_loop (map SourcePending pend ++ map SourceChannel received)
        (mkLoop false false 0) s2) as H. destruct (drain_loop _ _ _ _ _ _) as [st s3]. cbn [snd] in H.
      rewrite omap_app in H. replace (omap _ (map SourcePending pend)) with (@nil N) in H
        by (clear; induction pend as [|i pend IH]; [done|exact IH]).
      replace (omap _ (map SourceChannel received)) with (map fst received) in H
        by (clear; induction received as [|[] received IH]; [done|cbn; by f_equal]).
      rewrite app_nil_l in H. rewrite <- H. destruct (_ <? _)%N; [by rewrite answered_event|done]. }
    destruct purpose; [exact (Hc (pending s1) (s1 <| pending := [] |>))|exact (Hc [] s1)].
Qed.
End loop.

Context (Hquiet : ∀ s, interlude d s = []).

Lemma awaiting_quiet s : awaiting d s = s.
Proof using Hquiet. unfold awaiting. by rewrite Hquiet. Qed.

Lemma answered_stage a m s : answered (run_verification_stage_for_drain d a m s).2 = answered s.
Proof using Hquiet.
  unfold run_verification_stage_for_drain. destruct (orchestration (tracker s)) as [o|]; [|done].
  assert (answered (deterministic_gate_rejection d (plan_file o) (verifier_id o) a m s).2 = answered s) as Hg.
  { unfold deterministic_gate_rejection. destruct (_ ≫= _); [|done]. destruct (is_nil _); [done|].
    rewrite awaiting_quiet. destruct (run_checks _ _).2; [|done]. cbn [snd].
    destruct (details_writable d s); rewrite answered_event, ?answered_quiet by done; done. }
  destruct (deterministic_gate_rejection _ _ _ _ _ _) as [[out|] s1]; cbn [snd] in *; [done|].
  destruct (compose_verifier_final_response _ _). destruct (negb _); [done|]. cbn [snd].
  rewrite awaiting_quiet. rewrite <- Hg. destruct (panel_ran _), (use_current_model_only d);
    rewrite ?answered_tracker, answered_quiet by done; done.
Qed.

Lemma answered_amend fs s : answered (amend_plan_for_unattributed_findings d fs s) = answered s.
Proof using Hquiet.
  unfold amend_plan_for_unattributed_findings. destruct (is_nil _); [done|]. destruct (negb _); [done|].
  destruct (claim_amender_run _ _) as [[] t]; [|done]. cbn [negb]. destruct (negb _); [done|].
  destruct (amender d _) as [spawned proposal]. rewrite awaiting_quiet.
  destruct (run_goal_amender _ _ _ _) as [am| |]; [|by rewrite answered_event..].
  match goal with |- context [(plan ?x).2] => destruct ((plan x).2) as [body|] end; [|by rewrite answered_event].
  destruct (apply_amendment _ _) as [new report].
  destruct (report_changed _); unfold force_refresh;
    rewrite ?answered_tracker, ?answered_event, answered_update_plan, answered_event; done.
Qed.

Lemma answered_strategist s : answered (maybe_run_goal_strategist d s) = answered s.
Proof using Hquiet.
  unfold maybe_run_goal_strategist. destruct (negb _); [done|]. destruct (orchestration _); [|done].
  rewrite awaiting_quiet. by destruct (strategist d s) as [[]|].
Qed.

Lemma answered_after_rejection policy a p b s : answered (after_rejection d policy a p b s).2 = answered s.
Proof using Hquiet.
  unfold after_rejection. destruct (claim_strategist_fire _ _) as [[c|] t]; cbn [snd];
    by rewrite answered_updated, ?answered_strategist.
Qed.

Lemma answered_stall_rung policy a p ps fp fs s : answered (stall_rung d policy a p ps fp fs s).2 = answered s.
Proof using Hquiet.
  unfold stall_rung, check_stall. destruct (if is_empty fp then _ else _) as [stalled t].
  destruct (stalled && _); [|by rewrite answered_after_rejection].
  match goal with |- context [defer_refuted_or_end_run ?e ?f ?w ?q ?m ?n ?s1] =>
    pose proof (answered_defer_refuted f w q m n s1) as H; unfold env in H;
    destruct (defer_refuted_or_end_run e f w q m n s1) as [[] s2] end; [exact H|].
  by rewrite answered_after_rejection.
Qed.

Lemma answered_outcome policy a o s : answered (apply_classifier_outcome d policy a o s).2 = answered s.
Proof using Hquiet.
  unfold apply_classifier_outcome. pose proof (answered_tokens s) as Ht. unfold env in Ht.
  destruct (session_goal_tokens _ s) as [x s1]. cbn [snd] in Ht. rewrite <- Ht.
  destruct o as [p|p gs fs ps fp|p ps|r p]; cbn [snd].
  - by rewrite answered_updated, !answered_tracker, answered_mark_plan.
  - set (s2 := on_tracker _ (on_tracker _ (amend_plan_for_unattributed_findings _ _ _))).
    assert (answered s2 = answered s1) as <-.
    { subst s2. rewrite !answered_tracker, answered_amend. unfold clear_refuted_marks.
      destruct (_ && _); by rewrite answered_mark_plan. }
    clearbody s2. destruct (_ <=? _)%N; [|by rewrite answered_stall_rung].
    match goal with |- context [defer_refuted_or_end_run ?e ?f ?w ?q ?m ?n ?s3] =>
      pose proof (answered_defer_refuted f w q m n s3) as H; unfold env in H; rewrite answered_event in H;
      destruct (defer_refuted_or_end_run e f w q m n s3) as [[] s4] end; [exact H|].
    by rewrite answered_stall_rung.
  - by rewrite answered_auto_pause.
  - by rewrite answered_updated, answered_mark_plan.
Qed.

Lemma answered_fire ack policy s :
  answered (fire_classifier d ack policy s).2 = answered s ++ option_list ack.
Proof using Hquiet.
  unfold fire_classifier. change (answered s) with (answered (set_in_flight true s)).
  set (s1 := set_in_flight true s).
  assert (answered (reserve_classifier_attempt_slot policy s1).2 = answered s1) as <-
    by (unfold reserve_classifier_attempt_slot; by destruct (orchestration _)).
  destruct (reserve_classifier_attempt_slot policy s1) as [[a|] s2]; cbn [snd].
  - assert (answered (emit_goal_verifying d s2) = answered s2) as Hv.
    { unfold emit_goal_verifying. destruct (negb _); [done|]. pose proof (answered_tokens s2) as Ht. unfold env in Ht.
      destruct (session_goal_tokens _ s2) as [x s3]. cbn [snd] in Ht. rewrite <- Ht.
      destruct (orchestration _); [by rewrite answered_quiet|done]. }
    pose proof (answered_stage a (max_runs policy) (emit_goal_verifying d s2)) as Hs. rewrite Hv in Hs.
    destruct (run_verification_stage_for_drain _ _ _ _) as [o s3]. cbn [snd] in Hs. rewrite <- Hs.
    destruct (negb _); cbn [snd].
    + change (answered (set_in_flight false ?x)) with (answered x).
      transitivity (answered (try_send_ack ack (reject StatusChangedDuringClassifier
        "Goal transitioned to non-Active during classifier run")
        (emit_event (EvFailOpen GoalNotActiveAtResolve a) (clear_verifying s3)))).
      * unfold refund_slot. by destruct (ses_status _) as [[]|].
      * by rewrite answered_ack, answered_event.
    + pose proof (answered_outcome policy a o (clear_verifying s3)) as Ho.
      destruct (apply_classifier_outcome _ _ _ _ _) as [x s5]. cbn [snd] in *.
      change (answered (set_in_flight false ?x)) with (answered x). by rewrite answered_ack, Ho.
  - change (answered (set_in_flight false ?x)) with (answered x). by rewrite answered_ack, answered_event.
Qed.
End answers.

(** ** The guarantees *)

(** In the middle of a turn the branch that verifies is not reached. *)
Lemma mid_turn_ignores_fire d fire fire' extra s :
  drain_goal_updates_with_extra d fire MidTurn extra s = drain_goal_updates_with_extra d fire' MidTurn extra s.
Proof.
  assert (∀ cmds st s, drain_loop d fire MidTurn cmds st s = drain_loop d fire' MidTurn cmds st s) as H.
  { induction cmds as [|c cmds IH]; intros st s0; [done|]. cbn [drain_loop].
    replace (drain_one d fire' MidTurn c st s0) with (drain_one d fire MidTurn c st s0) by done.
    destruct (drain_one _ _ _ _ _ _). apply IH. }
  unfold drain_goal_updates_with_extra. destruct (negb _); [done|]. by rewrite H.
Qed.

(** C12: Every call is answered. A drain answers each call it receives - those
    handed in, then those waiting in the channel - exactly once and in order,
    whatever the guards, the gate, the panel and the deferral ladder decide, and
    also when the harness is off or the goal was paused half way; a claim
    deferred earlier, which was answered then, is not answered again. (At the
    end of a turn: when nothing else runs while a verification is awaited.) *)
Theorem every_call_is_answered (d : DrainEnv) (purpose : DrainPurpose) (extra : list Envelope) (s : Session) :
  (purpose = TurnEnd → ∀ s, interlude d s = []) →
  answered (drain_goal_updates_with_extra d (fire_classifier d) purpose extra s)
  = answered s ++ map fst (extra ++ default [] (update_rx s)).
Proof. intros Hq. apply answered_drain. intros Hp ack policy s'. apply answered_fire. auto. Qed.

(** A drain only pauses. Whatever is called, whatever the panel answers and
    whatever runs meanwhile, a drain leaves the goal's status as it is, or pauses
    an Active goal (by the user, or Blocked), or finds it cleared - it never
    completes, resumes or reopens one. It leaves the ledger and the machine
    alone, releases the in-flight flag it took, and only adds to the outbox. *)
Lemma drain_only_pauses (d : DrainEnv) (purpose : DrainPurpose) (extra : list Envelope) (s : Session) :
  let s' := drain_goal_updates_with_extra d (fire_classifier d) purpose extra s in
  (ses_status s' = ses_status s ∨ ses_status s' = None
   ∨ ses_status s = Some Active ∧ (ses_status s' = Some UserPaused ∨ ses_status s' = Some Blocked))
  ∧ ledger s' = ledger s ∧ machine s' = machine s ∧ in_flight s' = in_flight s
  ∧ ∃ out, outbox s' = outbox s ++ out.
Proof.
  cbv zeta. destruct (step_drain d _ (step_fire d) purpose extra s s) as [O L M F S _ _]; [done|].
  split_and!; [exact S|done..].
Qed.

(** An approval is earned. When a drain leaves the verdict Achieved on a goal
    that did not have it, verification is switched off in the configuration, or
    the panel was run for it and approved: its stage was ready, and more than half
    of the skeptics that started cold did not refute, skeptic 0 not objecting with
    high confidence (or the lone judge did not refute). No infrastructure failure,
    queue overflow, duplicate or late call gets there. *)
Lemma approval_is_earned (d : DrainEnv) (purpose : DrainPurpose) (extra : list Envelope) (s : Session) :
  let s' := drain_goal_updates_with_extra d (fire_classifier d) purpose extra s in
  verdict s' = Some Achieved → verdict s ≠ Some Achieved →
  goal_classifier_enabled d = false
  ∨ ∃ senv inputs,
      StageRan (si_attempt inputs) (run_verification_stage (read_document d) senv inputs) ∈ outbox s'
      ∧ stage_ready senv inputs = true
      ∧ if 1 <? panel_size inputs
        then high_refute (read_document d) senv inputs = false
             ∧ length (cold_skeptics inputs) < 2 * length (cold_approvals (read_document d) senv inputs)
        else refuted (vote (read_document d) senv inputs 0) = false.
Proof.
  cbv zeta. intros Hv Hn. destruct (step_drain d _ (step_fire d) purpose extra s s) as [_ _ _ _ _ V _]; [done|].
  destruct (V Hv) as [|[|(senv & inputs & [Hr Ha] & Hin)]]; [done|by left|]. right. exists senv, inputs. auto.
Qed.

(** The queue of deferred claims is bounded. It never holds more than four;
    a claim made in the middle of a turn is put at its end, and when it is full
    the oldest one makes room. *)
Lemma deferred_claims_are_bounded (d : DrainEnv) (s : Session) :
  length (pending s) ≤ GOAL_CLASSIFIER_PENDING_QUEUE_CAP →
  (∀ purpose extra, length (pending (drain_goal_updates_with_extra d (fire_classifier d) purpose extra s))
     ≤ GOAL_CLASSIFIER_PENDING_QUEUE_CAP)
  ∧ ∀ input ack, pending (defer_to_turn_end input ack s)
      = drop (length (pending s ++ [input]) - GOAL_CLASSIFIER_PENDING_QUEUE_CAP) (pending s ++ [input]).
Proof.
  intros Hl. split.
  - intros purpose extra. destruct (step_drain d _ (step_fire d) purpose extra s s) as [_ _ _ _ _ _ P]; [done|auto].
  - intros input ack. unfold defer_to_turn_end. destruct s as [t m l r p o ps b f u]. cbn [pending] in *.
    unfold GOAL_CLASSIFIER_PENDING_QUEUE_CAP in *.
    destruct ps as [|p1 [|p2 [|p3 [|p4 [|]]]]]; cbn in Hl; try (exfalso; lia); by destruct ack.
Qed.

(** Pausing from the prompt depends on the build. For an Active goal
    [/goal pause] answers that the goal is paused and drops the deferred claims
    in every build, but the goal is only paused in a build with debug assertions;
    in any other it stays Active. *)
Lemma pause_command_needs_assertions (d : DrainEnv) (s : Session) :
  ses_status s = Some Active →
  let s' := goal_pause_command d s in
  ses_status s' = Some (if debug_assertions d then UserPaused else Active)
  ∧ last (outbox s') = Some (SlashOutput "Goal paused. Use /goal resume to continue.")
  ∧ pending s' = [].
Proof.
  intros Ha. cbv zeta. unfold goal_pause_command. rewrite Ha, bool_decide_eq_true_2 by done.
  set (s1 := if debug_assertions d then _ else s).
  assert (ses_status s1 = Some (if debug_assertions d then UserPaused else Active)) as H1.
  { subst s1. destruct (debug_assertions d); [|done]. unfold ses_status, on_tracker, pause. cbn [tracker set_field].
    by rewrite pause_status, (proj2 (goal_active_spec (tracker s))). }
  clearbody s1. set (s2 := clear_pending_classifier_completions s1).
  assert (ses_status (notify_updated d s2) = ses_status s2 ∧ pending (notify_updated d s2) = pending s2) as [Hs Hp].
  { unfold notify_updated. pose proof (session_goal_tokens_status (de_round d) s2) as Ht.
    assert (pending (session_goal_tokens (de_round d) s2).2 = pending s2) as Hq
      by (unfold session_goal_tokens; by destruct (goal_tokens _ _ _)).
    destruct (session_goal_tokens _ s2) as [x s3]. cbn [snd] in *. rewrite emit_goal_updated_status, Ht, <- Hq.
    split; [done|]. unfold emit_goal_updated. by destruct (orchestration _). }
  split_and!.
  - change (ses_status (notify_updated d s2) = Some (if debug_assertions d then UserPaused else Active)).
    rewrite Hs. exact H1.
  - cbn. by rewrite last_snoc.
  - exact Hp.
Qed.

(** ** Concrete drains *)

(** Skeptics with fixed verdicts; [ivs] is what runs while they are awaited. *)
Definition demo_drain (verdicts : list bool) (ivs : list Interlude) : DrainEnv :=
  mkDrainEnv (gate_env 0 []) true 3 3 0 [] true false true (λ _, None) (λ _ _, Some 9%N) "not found"
    (λ _, None) (λ _, true) (λ _ _ _, Exited (Some 0%Z) EmptyString EmptyString) (λ _, token_stage verdicts) (λ _, "done")
    (λ _, (false, None)) (λ _, None) (λ _, ivs).

Definition claim_input : UpdateGoalInput := mkUpdateGoal (Some true) None None.
Definition stuck_input : UpdateGoalInput := mkUpdateGoal None None (Some "no network").

Lemma every_call_is_answered_witness :
  answered (drain_turn_end (demo_drain [true; false; false] []) [(7%N, claim_input); (8%N, stuck_input)]
    (gate_session "x" "x")) = [7%N; 8%N].
Proof.
  exact (every_call_is_answered (demo_drain [true; false; false] []) TurnEnd
    [(7%N, claim_input); (8%N, stuck_input)] (gate_session "x" "x") (λ _ _, eq_refl)).
Defined.

(** The claim is approved although the user pauses the goal meanwhile, which in
    this build does not pause it, and although a second claim arrives. *)
Definition busy_drain : DrainEnv := demo_drain [true; false; false] [IvDrain [(8%N, claim_input)]; IvPause].

Local Abbreviation busy_end :=
  (drain_goal_updates_with_extra busy_drain (fire_classifier busy_drain) TurnEnd [(7%N, claim_input)] (gate_session "x" "x")).

Lemma approval_is_earned_witness :
  verdict busy_end = Some Achieved
  ∧ ∃ senv inputs, StageRan (si_attempt inputs) (run_verification_stage (read_document busy_drain) senv inputs)
      ∈ outbox busy_end.
Proof.
  assert (verdict busy_end = Some Achieved) as Hv by (vm_compute; reflexivity).
  split; [exact Hv|].
  destruct (approval_is_earned busy_drain TurnEnd [(7%N, claim_input)] (gate_session "x" "x") Hv)
    as [Hd|(senv & inputs & H & _)]; [vm_compute; discriminate|vm_compute in Hd; discriminate|].
  exists senv, inputs. exact H.
Defined.

Lemma deferred_claims_are_bounded_witness :
  let inputs := [claim_input; stuck_input; claim_input; claim_input] in
  pending (defer_to_turn_end stuck_input None (gate_session "x" "x" <| pending := inputs |>))
  = [stuck_input; claim_input; claim_input; stuck_input].
Proof.
  exact (proj2 (deferred_claims_are_bounded (demo_drain [] []) (gate_session "x" "x" <| pending :=
    [claim_input; stuck_input; claim_input; claim_input] |>) (le_n 4)) stuck_input None).
Defined.

Lemma pause_command_needs_assertions_witness :
  ses_status (goal_pause_command (demo_drain [] []) (gate_session "x" "x")) = Some Active.
Proof. exact (proj1 (pause_command_needs_assertions (demo_drain [] []) (gate_session "x" "x") eq_refl)). Defined.
