(* ===== verification/Composition.v ===== *)
(** * The gate and the drain together

    [DoggyGate] runs the rounds of a prompt against any drain with the interface
    [DrainLaws], [Drain] implements one. Here the two are put together: over a
    whole prompt, a goal that ends Complete was approved by a panel. *)

From Stdlib Require Import Ascii String ZArith.
From S2P Require Import Prelude RustStr AuditParse CriterionGraph SkepticPanel SkepticPanelFacts Checklist CriteriaView TaskState Progress Decide UpdateGoal GoalTracker GateSession GateSessionFacts DoggyGate DoggyGateFacts Drain DrainFacts.
From stdpp Require Import options.

Section earning.
Context (d : DrainEnv).

(** What every part of a round keeps: the outbox only grows, and a verdict
    Achieved that appears is earned. *)
Record Earns (s s' : Session) : Prop := mkEarns {
  earns_outbox : ∃ out, outbox s' = outbox s ++ out;
  earns_verdict : verdict s' = Some Achieved → verdict s = Some Achieved ∨ earned d (outbox s');
}.

#[export] Instance earns_preorder : PreOrder Earns.
Proof.
  split.
  - intros s. split; [exists []; by rewrite app_nil_r|by left].
  - intros x y z [[o1 O1] V1] [[o2 O2] V2]. split; [exists (o1 ++ o2); by rewrite O2, O1, app_assoc|].
    intros [Hy|]%V2; [|by auto]. destruct (V1 Hy); [by left|]. right. rewrite O2. by apply earned_grows.
Qed.

Lemma step_earns s s' : Step d s s' → Earns s s'.
Proof. by intros [O _ _ _ _ V _]. Qed.

(** A part of the round that only writes and sends. *)
Lemma earns_quiet s s' : (∃ out, outbox s' = outbox s ++ out) → verdict s' = verdict s → Earns s s'.
Proof. intros Ho Hv. split; [done|]. rewrite Hv. by left. Qed.

Lemma earns_tokens env s : Earns s (session_goal_tokens env s).2.
Proof.
  unfold session_goal_tokens. destruct (tokens_keep (current_tokens env) (records s) (tracker s)) as [_ Hv].
  destruct (goal_tokens _ _ _) as [r t]. apply earns_quiet; [exists []; by rewrite app_nil_r|exact Hv].
Qed.

Lemma earns_emit o s : Earns s (emit o s).
Proof. apply earns_quiet; [by eexists|done]. Qed.

Lemma earns_tracker f `{!Keeps f} s : Earns s (on_tracker f s).
Proof. apply earns_quiet; [exists []; by rewrite app_nil_r|apply (keeps (f:=f))]. Qed.

Lemma earns_completion_ui env c fs s : Earns s (doggy_emit_completion_ui env c fs s).
Proof.
  unfold doggy_emit_completion_ui. pose proof (earns_tokens env s) as H.
  destruct (session_goal_tokens env s) as [x s1]. cbn [snd] in H.
  destruct (orchestration _); [etrans; [exact H|apply earns_emit]|exact H].
Qed.

Lemma earns_updated env s : Earns s (emit_goal_updated env s).
Proof.
  unfold emit_goal_updated. match goal with |- context [on_tracker ?f s] =>
    assert (Earns s (on_tracker f s)) as H by (apply earns_tracker; apply _) end.
  destruct (orchestration _); [etrans; [exact H|apply earns_emit]|exact H].
Qed.

Lemma earns_end_goal env st e s : Earns s (end_goal_deferred env st e s).2.
Proof.
  unfold end_goal_deferred. destruct (orchestration (tracker s)) as [o|] eqn:Ho; [|done].
  destruct (bool_decide _ || _); [|done]. cbn [snd]. set (s1 := s <| tracker := _ |>).
  assert (Earns s s1) as ->; [|apply earns_updated].
  apply earns_quiet; [exists []; by rewrite app_nil_r|]. unfold verdict, verdict_of, s1. cbn. rewrite Ho. cbn.
  unfold end_goal, stop_timer. destruct (active_since _); by destruct o.
Qed.

Lemma earns_cleanup j s : Earns s (queue_cleanup j s).
Proof.
  destruct j as [j|]; [|done]. unfold queue_cleanup. etrans; [|apply earns_emit]. apply earns_quiet; [exists []; by rewrite app_nil_r|].
  unfold verdict, on_tracker. cbn. unfold stamp_rescued. destruct (details_src j) as [src|]; [|done].
  destruct (file_name src) as [name|]; [|done]. unfold apply_rescued_details_path, update_goal, verdict_of.
  by destruct (tracker s) as [[[]|] ? ?].
Qed.

Lemma earns_budget env s : Earns s (enforce_goal_token_budget env s).2.
Proof.
  unfold enforce_goal_token_budget. pose proof (earns_tokens env s) as H.
  destruct (session_goal_tokens env s) as [[used fin] s1]. cbn [snd] in H.
  destruct (orchestration (tracker s1)) as [o|]; [|done]. destruct (token_budget o) as [b|]; [|done].
  destruct (used <? b)%Z; [done|]. pose proof (earns_end_goal env BudgetLimited BudgetExceeded s1) as He.
  destruct (end_goal_deferred _ _ _ _) as [job s2]. cbn [snd] in *. etrans; [exact H|]. etrans; [exact He|].
  etrans; [apply (earns_cleanup job)|]. etrans; [|apply earns_emit]. apply earns_quiet; [exists []; by rewrite app_nil_r|done].
Qed.

Lemma earns_done env s : Earns s (doggy_mark_task_done env s).
Proof.
  unfold doggy_mark_task_done. pose proof (earns_tokens env s) as H.
  destruct (session_goal_tokens env s) as [x s1]. cbn [snd] in H. etrans; [exact H|]. clear H.
  set (s2 := match orchestration (tracker s1) with Some _ => _ | None => _ end).
  assert (Earns s1 s2) as H.
  { subst s2. destruct (orchestration _); [|done]. apply earns_quiet; [exists []; by rewrite app_nil_r|done]. }
  etrans; [exact H|]. clear H.
  assert (Earns s2 (if goal_active (tracker s2) then end_goal_deferred env Complete GoalCompleted s2 else (None, s2)).2) as H
    by (destruct (goal_active _); [apply earns_end_goal|done]).
  destruct (if goal_active _ then _ else _) as [job s3]. cbn [snd] in *. etrans; [exact H|].
  etrans; [apply earns_completion_ui|]. etrans; [apply earns_cleanup|apply earns_emit].
Qed.

(** The drain's environment, seen from a round with an environment of its own. *)
Definition with_round (env : RoundEnv) : DrainEnv :=
  mkDrainEnv env (goal_classifier_enabled d) (goal_classifier_max_runs d) (verifier_skeptic_count d)
    (strategist_every d) (skeptic_pool d) (use_current_model_only d) (debug_assertions d) (has_coordinator d)
    (read_document d) (touch d) (plan_read_error d) (other_file d) (details_writable d) (shell d) (stage_env d)
    (final_response d) (amender d) (strategist d) (interlude d).

Lemma earns_blocker env b s : Earns s (defer_blocker_or_end_run env b s).2.
Proof.
  destruct (step_defer_blocker (with_round env) s s b) as [O _ _ _ _ V _]; [done|].
  split; [exact O|exact V].
Qed.

Lemma earns_perform env dec s : Earns s (perform_decision env dec s).2.
Proof.
  destruct dec as [inj| |[| | |n r]]; cbn [perform_decision snd];
    [|apply earns_done|apply earns_completion_ui..|].
  - set (s1 := if negb _ then _ else _).
    assert (Earns s s1) as H by (subst s1; destruct (negb _); apply earns_completion_ui).
    etrans; [exact H|]. etrans; [apply earns_emit|]. apply earns_quiet; [exists []; by rewrite app_nil_r|done].
  - unfold doggy_cut_off_stalled_work. pose proof (earns_blocker env (cut_off_blocker n r) s) as H.
    destruct (defer_blocker_or_end_run _ _ _) as [[[[] ack]|] s1]; cbn [snd] in *;
      (etrans; [exact H|]); try apply earns_completion_ui.
    etrans; [|apply earns_emit]. etrans; [|apply earns_completion_ui].
    apply earns_quiet; [exists []; by rewrite app_nil_r|done].
Qed.

Lemma earns_measure env s : Earns s (measure_round env s).2.
Proof.
  unfold measure_round, doggy_snapshot_open_items. destruct (observe _ _ _ _) as [l [lv dl]]. cbn [snd].
  transitivity (force_refresh (force_refresh s)); [|apply earns_quiet; [exists []; by rewrite app_nil_r|done]].
  unfold force_refresh. etrans; apply earns_tracker; apply _.
Qed.

(** ** A round, with a drain whose environment changes as the session goes on *)

Context (de : Session → DrainEnv).
Hypothesis same : ∀ s, goal_classifier_enabled (de s) = goal_classifier_enabled d ∧ read_document (de s) = read_document d.

Definition session_drain (extra : list Envelope) (s : Session) : Session := drain_turn_end (de s) extra s.

#[export] Instance session_drain_laws : DrainLaws session_drain.
Proof using Type. split; intros extra s; apply drain_laws. Qed.

Lemma earns_drain extra s : Earns s (session_drain extra s).
Proof using same.
  destruct (step_drain_turn_end (de s) extra s) as [O _ _ _ _ V _]. split; [exact O|].
  intros [Hv|He]%V; [by left|right]. destruct (same s) as [H1 H2]. unfold earned in *. by rewrite H1, H2 in He.
Qed.

Lemma earns_request s : Earns s (doggy_request_acceptance_if_claimed session_drain s).2.
Proof using same.
  unfold doggy_request_acceptance_if_claimed.
  assert (Earns s (force_refresh s)) as H by (apply earns_tracker; apply _).
  destruct (acceptance_is_claimed _); [|exact H]. destruct (verification_already_requested_for _ _); [exact H|].
  cbn [snd]. etrans; [exact H|]. etrans; [|apply earns_drain]. apply earns_quiet; [exists []; by rewrite app_nil_r|done].
Qed.

Lemma earns_pause_turn env r s : Earns s (pause_turn env r s).2.
Proof using Type.
  unfold pause_turn. cbn [snd]. etrans; [|apply earns_completion_ui].
  apply earns_quiet; [exists []; by rewrite app_nil_r|done].
Qed.

(** Up to the judged session, and through the whole round. *)
Lemma earns_judged env s sj : judged session_drain env s = Some sj → Earns s sj.
Proof using same.
  unfold judged. set (s0 := doggy_emit_completion_ui env "checking" [] (session_drain [] s)).
  assert (Earns s s0) as H0 by (etrans; [apply earns_drain|apply earns_completion_ui]).
  pose proof (earns_budget env s0) as Hb. destruct (enforce_goal_token_budget env s0) as [over s1]. cbn [snd] in Hb.
  destruct (over || _); [done|]. pose proof (earns_request s1) as Hr.
  destruct (doggy_request_acceptance_if_claimed _ _) as [req s2]. cbn [snd] in Hr.
  destruct (req && _); [done|]. intros [= <-]. etrans; [exact H0|]. by etrans.
Qed.

Lemma earns_round env s : Earns s (run_doggy_round_end session_drain env s).2.
Proof using same.
  unfold run_doggy_round_end. set (s0 := doggy_emit_completion_ui env "checking" [] (session_drain [] s)).
  assert (Earns s s0) as H0 by (etrans; [apply earns_drain|apply earns_completion_ui]).
  pose proof (earns_budget env s0) as Hb. destruct (enforce_goal_token_budget env s0) as [over s1]. cbn [snd] in Hb.
  etrans; [exact H0|]. etrans; [exact Hb|]. destruct over; [apply earns_pause_turn|].
  destruct (negb _); [apply earns_pause_turn|]. pose proof (earns_request s1) as Hr.
  destruct (doggy_request_acceptance_if_claimed _ _) as [req s2]. cbn [snd] in Hr. etrans; [exact Hr|].
  destruct (req && _); [apply earns_completion_ui|]. pose proof (earns_measure env s2) as Hm.
  destruct (measure_round env s2) as [dec s3]. cbn [snd] in Hm. etrans; [exact Hm|]. apply earns_perform.
Qed.

(** ** The prompt *)

(** A verdict Achieved, and a completed goal, are backed for in the outbox. *)
Definition backed (s : Session) : Prop :=
  verdict s = Some GoalTracker.Achieved ∨ ses_status s = Some Complete → earned d (outbox s).

Lemma earns_grow s s' : Earns s s' → earned d (outbox s) → earned d (outbox s').
Proof using Type. intros [[out ->] _]. apply earned_grows. Qed.

Lemma earns_accounted s s' :
  Earns s s' → (ses_status s' = Some Complete → ses_status s = Some Complete) → backed s → backed s'.
Proof using Type.
  intros He Hs Ha. assert (earned d (outbox s) → earned d (outbox s')) by by apply earns_grow.
  intros [Hv|Hc]; [|by auto 6 using or_intror]. apply (earns_verdict _ _ He) in Hv as [Hv|]; [|done]. unfold backed in Ha. auto.
Qed.

Lemma accepted_verdict s : accepted_session (force_refresh s) → verdict s = Some GoalTracker.Achieved.
Proof using Type.
  intros [Hv _]. assert (verdict (force_refresh s) = verdict s) as <- by apply (keeps (f:=force_refresh_criteria_view (plan s))).
  unfold verification_outcome, verdict, verdict_of in *. destruct (orchestration _) as [o|]; [|done]. cbn.
  destruct (last_classifier_verdict o) as [[]|]; [done| |done]. by destruct (negb _).
Qed.

Lemma round_accounted env s : backed s → backed (run_doggy_round_end session_drain env s).2.
Proof using same.
  intros Ha. pose proof (earns_round env s) as He.
  destruct (decide (ses_status s = Some Complete)) as [Hc|Hc].
  { apply (earns_accounted s); [done|by intros _|done]. }
  intros [Hv|Hd].
  { apply (earns_verdict _ _ He) in Hv as [Hv|]; [|done]. apply (earns_grow s); [done|]. apply Ha. by left. }
  apply round_end_completes in Hd as (sj & Hj & Hacc); [|apply _|done].
  apply (earns_grow sj).
  - rewrite (round_end_judged _ _ _ _ Hj). etrans; [apply earns_measure|apply earns_perform].
  - pose proof (earns_judged _ _ _ Hj) as Hsj. apply accepted_verdict, (earns_verdict _ _ Hsj) in Hacc as [Hv|]; [|done].
    apply (earns_grow s); [done|]. apply Ha. by left.
Qed.

Lemma round_cap_accounted env n s : backed s → backed (doggy_end_run_at_round_cap env n s).
Proof using Type.
  unfold doggy_end_run_at_round_cap. match goal with |- context [defer_blocker_or_end_run env ?b s] =>
    pose proof (earns_blocker env b s) as He; pose proof (step_status _ _ _ (step_defer_blocker (with_round env) s s b ltac:(done))) as Hm;
    cbn [de_round with_round] in Hm; destruct (defer_blocker_or_end_run env b s) as [out s1] end. cbn [snd] in *.
  match goal with |- context [doggy_emit_completion_ui env "paused" [] ?x] => set (s2 := x) end. intros Ha.
  assert (Earns s s2 ∧ ses_status s2 = ses_status s1) as [H2 Hs2].
  { subst s2. destruct (match out with Some _ => _ | None => _ end); [done|]. split; [|done].
    etrans; [exact He|apply earns_emit]. }
  apply (earns_accounted s); [etrans; [exact H2|apply earns_completion_ui]| |done].
  rewrite completion_ui_status, Hs2. destruct Hm as [->|[->|[_ [->| ->]]]]; done.
Qed.

Context (model_round : N → Session → RoundResult * RoundEnv * Session).
Hypothesis honest : ∀ n s, backed s → backed (model_round n s).2.

Lemma prompt_accounted fuel : ∀ n s r,
  backed s → prompt_loop session_drain model_round fuel n s = Some r → backed r.2.
Proof using same honest.
  induction fuel as [|fuel IH]; intros n s r Ha; [done|]. cbn [prompt_loop].
  assert (match prompt_round session_drain model_round n s with inl r => backed r.2 | inr (_, s') => backed s' end) as H.
  { unfold prompt_round. pose proof (honest n s Ha) as Hm. destruct (model_round n s) as [[res env] s1]. cbn [snd] in Hm.
    destruct res as [[]|]; [done| |done]. destruct (negb _); [done|].
    set (s2 := if bool_decide _ then s1 else _). assert (backed s2) as H2 by (subst s2; by destruct (bool_decide _)).
    pose proof (round_accounted env s2 H2) as H3. destruct (run_doggy_round_end _ _ _) as [[] s3]; cbn [snd] in H3; [|done].
    destruct (_ <=? _)%N; [by apply round_cap_accounted|done]. }
  destruct (prompt_round _ _ _ _) as [r'|[n' s']]; [by intros [= <-]|by apply IH].
Qed.
End earning.

(** C1: A completed goal was approved. Run a prompt with the gate on top of the
    real drain, whose environment (files, shell, panel, configuration of roles)
    may change with every step, and let the model's rounds do anything that
    neither completes the goal nor writes the verdict behind the drain's back.
    If the goal then stands Complete, verification was switched off in the
    configuration, or the outbox holds a run of the panel that approved. *)
Theorem completed_goal_was_approved
    (d : DrainEnv) (de : Session → DrainEnv) (model_round : N → Session → RoundResult * RoundEnv * Session)
    (harness posture : bool) (s : Session) (exit : PromptExit) (rounds : N) (s' : Session) :
  (∀ s, goal_classifier_enabled (de s) = goal_classifier_enabled d ∧ read_document (de s) = read_document d) →
  (∀ n s, backed d s → backed d (model_round n s).2) →
  backed d s →
  run_prompt (session_drain de) model_round 100 harness posture s = Some (exit, rounds, s') →
  ses_status s' = Some Complete →
  goal_classifier_enabled d = false
  ∨ ∃ senv inputs, stage_approves (read_document d) senv inputs
      ∧ StageRan (si_attempt inputs) (run_verification_stage (read_document d) senv inputs) ∈ outbox s'.
Proof.
  intros Hsame Hh Ha Hr Hc. unfold run_prompt in Hr.
  apply (prompt_accounted d de Hsame model_round Hh) in Hr; [apply Hr; by right|]. by destruct (doggy_task_bound _ _ _).
Qed.

(** The model claims completion; skeptic 0 objects, the others approve. *)
Definition claiming_model (n : N) (s : Session) : RoundResult * RoundEnv * Session :=
  (RoundCompleted false, gate_env 0 ["edit"], s <| update_rx := Some [(7%N, claim_input)] |>).

Definition majority_drain (s : Session) : DrainEnv := demo_drain [true; false; false] [].

Lemma majority_same s :
  goal_classifier_enabled (majority_drain s) = goal_classifier_enabled (demo_drain [] [])
  ∧ read_document (majority_drain s) = read_document (demo_drain [] []).
Proof. split; reflexivity. Qed.

Lemma claiming_honest n s : backed (demo_drain [] []) s → backed (demo_drain [] []) (claiming_model n s).2.
Proof. intros H. exact H. Qed.

Lemma fresh_accounted a b : backed (demo_drain [] []) (gate_session a b).
Proof. intros [H|H]; discriminate H. Qed.

Lemma completed_goal_was_approved_witness :
  ∃ exit rounds s', run_prompt (session_drain majority_drain) claiming_model 100 true true (gate_session "x" "x")
      = Some (exit, rounds, s')
    ∧ ses_status s' = Some Complete
    ∧ ∃ senv inputs, stage_approves (λ _, None) senv inputs
      ∧ StageRan (si_attempt inputs) (run_verification_stage (λ _, None) senv inputs) ∈ outbox s'.
Proof.
  assert ((λ r, ses_status r.2) <$> run_prompt (session_drain majority_drain) claiming_model 100 true true
      (gate_session "x" "x") = Some (Some Complete)) as H by (vm_compute; reflexivity).
  destruct (run_prompt _ _ _ _ _ _) as [[[exit rounds] s']|] eqn:Hr; [|discriminate H].
  exists exit, rounds, s'. split; [reflexivity|].
  assert (ses_status s' = Some Complete) as Hc by (by injection H).
  split; [exact Hc|].
  destruct (completed_goal_was_approved (demo_drain [] []) majority_drain claiming_model true true
    (gate_session "x" "x") exit rounds s' majority_same claiming_honest (fresh_accounted _ _) Hr Hc) as [He|Ha].
  - discriminate He.
  - exact Ha.
Defined.
