(* ===== verification/CircuitBreaker.v ===== *)
(** * The circuit breaker (xai-circuit-breaker)

    A breaker sheds the requests to an upstream that keeps failing. Its handle
    is shared between threads: the state, two time stamps, a probe counter and a
    mirror flag are atomics, the window of samples is behind a lock. Each method
    is a program over these atomic accesses; it runs alone ([run]) or interleaved
    with others ([conf_step]). Accesses are taken as sequentially consistent. *)

From Stdlib Require Import Ascii String ZArith SpecFloat.
From S2P Require Import Prelude RustStr.
From stdpp Require Import options.

(** ** Time (std): [Duration] and [Instant] in nanoseconds *)

Definition NANOS_PER_SEC : N := 1000000000.
Definition NANOS_PER_MILLI : N := 1000000.
Definition from_secs (s : N) : N := (s * NANOS_PER_SEC)%N.
Definition from_millis (ms : N) : N := (ms * NANOS_PER_MILLI)%N.
(** [as_millis() as u64] *)
Definition as_millis_u64 (d : N) : N := ((d / NANOS_PER_MILLI) mod (u64_max + 1))%N.

(** ** [f64] (std) *)

Definition f64_of_usize (n : N) : spec_float := binary_normalize 53 1024 (Z.of_N n) 0 false.
Definition f64_div : spec_float → spec_float → spec_float := SFdiv 53 1024.
Definition f64_ge (a b : spec_float) : bool := SFleb b a.
Definition f64_zero : spec_float := S754_zero false.
Definition f64_half : spec_float := f64_div (f64_of_usize 1) (f64_of_usize 2).

(** ** The sliding window (window.rs) *)

Definition MAX_WINDOW_ENTRIES : nat := N.to_nat 10000.

Record SlidingWindow : Type := mkWindow {
  entries : list (N * bool);          (* when, and whether it failed; oldest first *)
  failures : N;
}.

Definition window_new : SlidingWindow := mkWindow [] 0.

(** A [usize] decrement wraps in a release build. *)
Definition usize_pred (n : N) : N := if (n =? 0)%N then u64_max else (n - 1)%N.
Definition usize_succ (n : N) : N := if (n =? u64_max)%N then 0%N else (n + 1)%N.

(** [pop_front], with the count of failures kept. *)
Definition pop_counted (w : SlidingWindow) : SlidingWindow :=
  match entries w with
  | [] => w
  | (_, was_failure) :: es => mkWindow es (if was_failure then usize_pred (failures w) else failures w)
  end.

Definition push (is_failure : bool) (at_ : N) (w : SlidingWindow) : SlidingWindow :=
  let w := if MAX_WINDOW_ENTRIES <=? length (entries w) then pop_counted w else w in
  mkWindow (entries w ++ [(at_, is_failure)]) (if is_failure then usize_succ (failures w) else failures w).

(** The loop of [evict]; the entries only get fewer. *)
Fixpoint evict_go (es : list (N * bool)) (failures : N) (cutoff : N) : SlidingWindow :=
  match es with
  | [] => mkWindow [] failures
  | (ts, was_failure) :: rest =>
      if (ts <? cutoff)%N then evict_go rest (if was_failure then usize_pred failures else failures) cutoff
      else mkWindow es failures
  end.

(** [now.checked_sub(window)] fails before the clock's origin. *)
Definition evict (window now : N) (w : SlidingWindow) : SlidingWindow :=
  if (now <? window)%N then w else evict_go (entries w) (failures w) (now - window).

Definition window_error_rate (w : SlidingWindow) : spec_float :=
  if is_nil (entries w) then f64_zero
  else f64_div (f64_of_usize (failures w)) (f64_of_usize (N.of_nat (length (entries w)))).

Definition sample_count (w : SlidingWindow) : nat := length (entries w).

(** ** State and configuration *)

Inductive BreakerState : Type := Closed | Open | HalfOpen.

Definition state_as_u8 (s : BreakerState) : N := match s with Closed => 0 | Open => 1 | HalfOpen => 2 end.
(** A discriminant that is none is read as [Closed] where debug assertions are off. *)
Definition from_u8 (v : N) : BreakerState :=
  match v with 0%N => Closed | 1%N => Open | 2%N => HalfOpen | _ => Closed end.

Inductive Outcome : Type := Success | Failure.

Record BreakerConfig : Type := mkBreakerConfig {
  window_duration : N;
  min_samples : nat;
  error_rate_threshold : spec_float;
  open_duration : N;
  half_open_max_probes : N;
  failure_codes : gset N;
  cb_enabled : bool;
}.

Definition DEFAULT_FAILURE_CODES : list N := [429; 500; 502; 503; 504]%N.

Definition default_failure_codes : gset N := list_to_set DEFAULT_FAILURE_CODES.

(** [BreakerConfig::server] and [BreakerConfig::client] *)
Definition server : BreakerConfig :=
  mkBreakerConfig (from_secs 60) 10 f64_half (from_secs 10) 1 default_failure_codes true.
Definition client : BreakerConfig :=
  mkBreakerConfig (from_secs 60) 5 f64_half (from_secs 60) 1 {[ 401%N ]} true.

Definition is_failure_status (c : BreakerConfig) (status : N) : bool := bool_decide (status ∈ failure_codes c).

Definition parse_failure_codes (s : string) : gset N :=
  list_to_set (omap (λ c, parse_uint 65535 (trim c)) (split_char "," s)).

Definition lookup_or {T} (parse : string → option T) (get : string → option string) (key : string) (default : T) : T :=
  match get key with
  | Some v => match parse v with Some parsed => parsed | None => default end
  | None => default
  end.

(** [bool]'s [FromStr] *)
Definition parse_bool (s : string) : option bool :=
  if String.eqb s "true" then Some true else if String.eqb s "false" then Some false else None.

(** [from_lookup_with_prefix]; [parse_f64] is [f64]'s [FromStr]. A [Duration] is
    made of whole seconds. *)
Definition from_lookup_with_prefix (parse_f64 : string → option spec_float) (prefix : string)
    (get : string → option string) : BreakerConfig :=
  let key k := prefix +:+ k in
  let failure_codes :=
    match get (key "FAILURE_CODES") with
    | Some raw => let codes := parse_failure_codes raw in
                  if bool_decide (codes = ∅) then default_failure_codes else codes
    | None => default_failure_codes
    end in
  mkBreakerConfig
    (from_secs (lookup_or parse_u64 get (key "WINDOW_SECS") 60%N))
    (N.to_nat (lookup_or parse_u64 get (key "MIN_SAMPLES") 10%N))
    (lookup_or parse_f64 get (key "ERROR_RATE_THRESHOLD") f64_half)
    (from_secs (lookup_or parse_u64 get (key "OPEN_DURATION_SECS") 10%N))
    (N.max (lookup_or parse_u64 get (key "HALF_OPEN_MAX_PROBES") 1%N) 1%N)
    failure_codes
    (lookup_or parse_bool get (key "ENABLED") true).

(** ** Atomic accesses *)

(** What the observer is told. *)
Inductive Observation : Type :=
| OnStateChange (from to : BreakerState) (reason : string)
| OnProbeAdmission (admitted : bool)
| OnOutcome (o : Outcome) (new_state : BreakerState).

Inductive Atomic : Type → Type :=
| LoadState : Atomic N
| StoreState (v : N) : Atomic unit
| CasState (from to : N) : Atomic bool
| LoadOpened : Atomic N
| StoreOpened (ms : N) : Atomic unit
| FetchAddProbes : Atomic N
| FetchSubProbes : Atomic N
| StoreProbes (n : N) : Atomic unit
| LoadClaimed : Atomic N
| StoreClaimed (ms : N) : Atomic unit
| CasClaimed (from to : N) : Atomic bool
| LoadFast : Atomic bool
| StoreFast (b : bool) : Atomic unit
| WithWindow {A} (f : SlidingWindow → A * SlidingWindow) : Atomic A     (* a critical section *)
| Now : Atomic N
| Observe (e : Observation) : Atomic unit.

Inductive prog (A : Type) : Type :=
| Ret (a : A)
| Act {X} (op : Atomic X) (k : X → prog A).
Arguments Ret {_} _.
Arguments Act {_ _} _ _.

#[export] Instance prog_ret : MRet prog := @Ret.
#[export] Instance prog_bind : MBind prog :=
  λ A B f, fix bind p := match p with Ret a => f a | Act op k => Act op (λ x, bind (k x)) end.

Definition do_ {X} (op : Atomic X) : prog X := Act op Ret.

(** The memory the handle's clones share ([CircuitBreakerInner]). *)
Record Shared : Type := mkShared {
  sh_state : N;
  opened_at_millis : N;
  half_open_probes : N;
  probe_claimed_at_millis : N;
  is_open_fast : bool;
  window : SlidingWindow;
  observed : list Observation;
}.

#[export] Instance Shared_settable : Settable Shared := λ x,
  mkShared (sh_state x) (opened_at_millis x) (half_open_probes x) (probe_claimed_at_millis x) (is_open_fast x)
    (window x) (observed x).

Definition shared_new : Shared := mkShared (state_as_u8 Closed) 0 0 0 false window_new [].

(** One access at time [now]. *)
Definition exec {X} (now : N) (op : Atomic X) (s : Shared) : X * Shared :=
  match op in Atomic X return X * Shared with
  | LoadState => (sh_state s, s)
  | StoreState v => (tt, s <| sh_state := v |>)
  | CasState from to => if (sh_state s =? from)%N then (true, s <| sh_state := to |>) else (false, s)
  | LoadOpened => (opened_at_millis s, s)
  | StoreOpened ms => (tt, s <| opened_at_millis := ms |>)
  | FetchAddProbes => (half_open_probes s, s <| half_open_probes := usize_succ (half_open_probes s) |>)
  | FetchSubProbes => (half_open_probes s, s <| half_open_probes := usize_pred (half_open_probes s) |>)
  | StoreProbes n => (tt, s <| half_open_probes := n |>)
  | LoadClaimed => (probe_claimed_at_millis s, s)
  | StoreClaimed ms => (tt, s <| probe_claimed_at_millis := ms |>)
  | CasClaimed from to =>
      if (probe_claimed_at_millis s =? from)%N then (true, s <| probe_claimed_at_millis := to |>) else (false, s)
  | LoadFast => (is_open_fast s, s)
  | StoreFast b => (tt, s <| is_open_fast := b |>)
  | WithWindow f => let '(x, w) := f (window s) in (x, s <| window := w |>)
  | Now => (now, s)
  | Observe e => (tt, s <| observed := observed s ++ [e] |>)
  end.

(** A program on its own, the clock standing still. *)
Fixpoint run {A} (now : N) (p : prog A) (s : Shared) : A * Shared :=
  match p with
  | Ret a => (a, s)
  | Act op k => let '(x, s) := exec now op s in run now (k x) s
  end.

(** ** The breaker (breaker.rs) *)

Section breaker.
Context (config : BreakerConfig) (baseline : N).

(** [with_clock] keeps at least one probe slot. *)
Definition max_probes : N := N.max (half_open_max_probes config) 1.

Definition state : prog BreakerState := v ← do_ LoadState; mret (from_u8 v).

Definition is_open : prog bool := do_ LoadFast.

Definition error_rate : prog spec_float :=
  now ← do_ Now;
  do_ (WithWindow (λ w, let w := evict (window_duration config) now w in (window_error_rate w, w))).

Definition elapsed_at (now : N) : N := as_millis_u64 (now - baseline).

Definition elapsed_millis : prog N := now ← do_ Now; mret (elapsed_at now).

Definition cas_state (from to : BreakerState) : prog bool := do_ (CasState (state_as_u8 from) (state_as_u8 to)).

Definition trip (prev : BreakerState) (reason : string) : prog unit :=
  _ ← do_ (StoreState (state_as_u8 Open));
  now ← elapsed_millis;
  _ ← do_ (StoreOpened now);
  _ ← do_ (StoreProbes 0);
  _ ← do_ (StoreFast true);
  match prev with Open => mret tt | _ => do_ (Observe (OnStateChange prev Open reason)) end.

Definition close (prev : BreakerState) (reason : string) : prog unit :=
  _ ← do_ (StoreState (state_as_u8 Closed));
  _ ← do_ (WithWindow (λ _, (tt, window_new)));
  _ ← do_ (StoreProbes 0);
  _ ← do_ (StoreFast false);
  match prev with Closed => mret tt | _ => do_ (Observe (OnStateChange prev Closed reason)) end.

Definition HALF_OPEN_PROBE_BACKOFF : N := from_millis 50.

(** [Err] carries [retry_after]. *)
Definition try_half_open_probe : prog (result unit N) :=
  now ← elapsed_millis;
  prev ← do_ FetchAddProbes;
  if (prev <? max_probes)%N then
    _ ← do_ (StoreClaimed now);
    _ ← do_ (Observe (OnProbeAdmission true));
    mret (Ok tt)
  else
    _ ← do_ FetchSubProbes;
    claimed ← do_ LoadClaimed;
    taken ← (if (as_millis_u64 (open_duration config) <=? now - claimed)%N
             then do_ (CasClaimed claimed now) else mret false);
    if (taken : bool) then
      _ ← do_ (Observe (OnProbeAdmission true));
      mret (Ok tt)
    else
      _ ← do_ (Observe (OnProbeAdmission false));
      mret (Err (N.min HALF_OPEN_PROBE_BACKOFF (open_duration config))).

Definition check_open : prog (result unit N) :=
  opened ← do_ LoadOpened;
  now ← elapsed_millis;
  let elapsed := from_millis (now - opened) in
  if (open_duration config <=? elapsed)%N then
    won ← cas_state Open HalfOpen;
    if (won : bool) then
      _ ← do_ (StoreFast false);
      _ ← do_ (Observe (OnStateChange Open HalfOpen "open_elapsed"));
      try_half_open_probe
    else
      st ← state;
      match st with
      | Closed => mret (Ok tt)
      | HalfOpen => try_half_open_probe
      | Open =>
          opened ← do_ LoadOpened;
          now ← elapsed_millis;
          mret (Err (open_duration config - from_millis (now - opened))%N)
      end
  else mret (Err (open_duration config - elapsed)%N).

Definition check : prog (result unit N) :=
  if negb (cb_enabled config) then mret (Ok tt)
  else
    st ← state;
    match st with
    | Closed => mret (Ok tt)
    | Open => check_open
    | HalfOpen => try_half_open_probe
    end.

Definition is_failure (o : Outcome) : bool := match o with Failure => true | Success => false end.

Definition record (outcome : Outcome) : prog unit :=
  if negb (cb_enabled config) then mret tt
  else
    now ← do_ Now;
    prev ← state;
    _ ← match prev with
        | Closed =>
            should_trip ← do_ (WithWindow (λ w,
              let w := evict (window_duration config) now (push (is_failure outcome) now w) in
              ((min_samples config <=? sample_count w) && f64_ge (window_error_rate w) (error_rate_threshold config), w)));
            if (should_trip : bool) then trip prev "trip" else mret tt
        | HalfOpen => if is_failure outcome then trip prev "probe_failure" else close prev "probe_success"
        | Open =>
            do_ (WithWindow (λ w, (tt, evict (window_duration config) now (push (is_failure outcome) now w))))
        end;
    new_state ← state;
    do_ (Observe (OnOutcome outcome new_state)).

(** ** Threads *)

Inductive Call : Type := CallCheck | CallRecord (o : Outcome) | CallIsOpen | CallErrorRate.

Inductive Reply : Type :=
| ReplyCheck (r : result unit N)
| ReplyUnit
| ReplyBool (b : bool)
| ReplyRate (f : spec_float).

Definition call (c : Call) : prog Reply :=
  match c with
  | CallCheck => r ← check; mret (ReplyCheck r)
  | CallRecord o => _ ← record o; mret ReplyUnit
  | CallIsOpen => b ← is_open; mret (ReplyBool b)
  | CallErrorRate => f ← error_rate; mret (ReplyRate f)
  end.
End breaker.

(** A configuration of running threads: the clock, the memory, the threads. *)
Record Conf : Type := mkConf { cf_now : N; cf_mem : Shared; cf_threads : list (prog Reply) }.

Inductive conf_step : Conf → Conf → Prop :=
| step_clock t t' s ts : (t ≤ t')%N → conf_step (mkConf t s ts) (mkConf t' s ts)
| step_access t s ts i X (op : Atomic X) k :
    ts !! i = Some (Act op k) →
    conf_step (mkConf t s ts) (mkConf t (exec t op s).2 (<[i := k (exec t op s).1]> ts)).

(** A schedule names who runs next, or sets the clock. *)
Definition schedule_one (c : Conf) (e : N + nat) : Conf :=
  match e with
  | inl t => mkConf (N.max (cf_now c) t) (cf_mem c) (cf_threads c)
  | inr i =>
      match cf_threads c !! i with
      | Some (Act op k) =>
          let '(x, s) := exec (cf_now c) op (cf_mem c) in
          mkConf (cf_now c) s (<[i := k x]> (cf_threads c))
      | _ => c
      end
  end.

Definition run_schedule (es : list (N + nat)) (c : Conf) : Conf := foldl schedule_one c es.

Definition replies (c : Conf) : list (option Reply) :=
  map (λ p, match p with Ret r => Some r | Act _ _ => None end) (cf_threads c).

(** ** The registry (registry.rs)

    One breaker per key, made when it is first asked for; a handle is the
    position of its memory. *)

Record Registry : Type := mkRegistry {
  rg_config : BreakerConfig;
  rg_breakers : gmap string nat;
  rg_memory : list Shared;
}.

Definition registry_new (config : BreakerConfig) : Registry := mkRegistry config ∅ [].

(** [CircuitBreakerRegistry::get] *)
Definition registry_get (key : string) (r : Registry) : option nat * Registry :=
  if negb (cb_enabled (rg_config r)) then (None, r)
  else match rg_breakers r !! key with
       | Some cb => (Some cb, r)
       | None =>
           let cb := length (rg_memory r) in
           (Some cb, mkRegistry (rg_config r) (<[key := cb]> (rg_breakers r)) (rg_memory r ++ [shared_new]))
       end.

(** ** What to do with a response (retry_policy.rs) *)

Inductive Disposition : Type := Retryable | AuthRefresh | Terminal.

Record RetryPolicy : Type := mkRetryPolicy {
  retryable : list N;
  auth_refresh : list N;
  terminal : list N;
  default_disposition : Disposition;
}.

Definition classify (p : RetryPolicy) (status : N) : option Disposition :=
  if (200 <=? status)%N && (status <? 300)%N then None
  else if contains status (auth_refresh p) then Some AuthRefresh
  else if contains status (terminal p) then Some Terminal
  else if contains status (retryable p) || ((500 <=? status)%N && (status <? 600)%N) then Some Retryable
  else Some (default_disposition p).

Definition should_retry (p : RetryPolicy) (status : N) : bool :=
  match classify p status with Some Retryable => true | _ => false end.

(** [RetryPolicy::server] and [RetryPolicy::client_storage] *)
Definition server_policy : RetryPolicy := mkRetryPolicy [429]%N [] [] Terminal.
Definition client_storage : RetryPolicy := mkRetryPolicy [] [401]%N [400; 403; 404]%N Retryable.
