(* ===== verification/CircuitBreakerFacts.v ===== *)
(** * What the circuit breaker guarantees

    Alone, its methods implement a three-state machine; interleaved with any
    number of other calls they keep the shared memory well formed, and bound the
    probes they admit. Three interleavings show where the guarantees end. *)

From Stdlib Require Import Ascii String ZArith SpecFloat.
From S2P Require Import Prelude RustStr CircuitBreaker.
From stdpp Require Import options.

(** ** The window *)

Definition count_failures (es : list (N * bool)) : N := N.of_nat (length (bfilter snd es)).

Definition window_wf (w : SlidingWindow) : Prop :=
  failures w = count_failures (entries w) ∧ length (entries w) ≤ MAX_WINDOW_ENTRIES.

Lemma count_cons t (b : bool) es : count_failures ((t, b) :: es) = ((if b then 1 else 0) + count_failures es)%N.
Proof. unfold count_failures, bfilter. destruct b; cbn [List.filter snd length]; lia. Qed.

Lemma count_snoc es t (b : bool) : count_failures (es ++ [(t, b)]) = (count_failures es + if b then 1 else 0)%N.
Proof.
  induction es as [|[t' b'] es IH]; [by destruct b|].
  rewrite <- app_comm_cons, !count_cons, IH. lia.
Qed.

Lemma count_le es : (count_failures es ≤ N.of_nat (length es))%N.
Proof. induction es as [|[t b] es IH]; [done|]. rewrite count_cons. cbn [length]. destruct b; lia. Qed.

Lemma max_entries : (0 < MAX_WINDOW_ENTRIES) ∧ (N.of_nat MAX_WINDOW_ENTRIES < u64_max)%N.
Proof. unfold MAX_WINDOW_ENTRIES. rewrite N2Nat.id. split; [lia|reflexivity]. Qed.

Lemma usize_pred_pos n : (0 < n)%N → usize_pred n = (n - 1)%N.
Proof. intros H. unfold usize_pred. by destruct (N.eqb_spec n 0); [lia|]. Qed.

Lemma usize_succ_small n : (n < u64_max)%N → usize_succ n = (n + 1)%N.
Proof. intros H. unfold usize_succ. by destruct (N.eqb_spec n u64_max); [lia|]. Qed.

Lemma window_new_wf : window_wf window_new.
Proof. split; [done|]. cbn. lia. Qed.

Lemma push_wf b t w : window_wf w → window_wf (push b t w).
Proof.
  intros [Hf Hl]. destruct max_entries as [Hp Hm]. unfold push.
  set (w' := if MAX_WINDOW_ENTRIES <=? _ then pop_counted w else w).
  assert (failures w' = count_failures (entries w') ∧ length (entries w') < MAX_WINDOW_ENTRIES) as [Hf' Hl'].
  { subst w'. destruct (Nat.leb_spec MAX_WINDOW_ENTRIES (length (entries w))); [|split; [done|lia]].
    unfold pop_counted. destruct w as [[|[t' []] es] f]; cbn [entries failures length] in *; [lia|..];
      rewrite count_cons in Hf; subst f; (split; [|lia]); [|lia]. rewrite usize_pred_pos; lia. }
  clearbody w'. split; cbn [entries failures].
  - rewrite count_snoc, Hf'. pose proof (count_le (entries w')). destruct b; [|lia]. apply usize_succ_small. lia.
  - rewrite length_app. cbn. lia.
Qed.

Lemma evict_go_wf es cutoff :
  length es ≤ MAX_WINDOW_ENTRIES → window_wf (evict_go es (count_failures es) cutoff).
Proof.
  induction es as [|[t b] es IH]; cbn [evict_go length]; intros Hl; [split; [done|cbn; lia]|].
  destruct (t <? cutoff)%N; [|split; [done|done]].
  replace (if b then usize_pred (count_failures ((t, b) :: es)) else count_failures ((t, b) :: es))
    with (count_failures es); [apply IH; lia|].
  rewrite count_cons. destruct b; [|lia]. rewrite usize_pred_pos; lia.
Qed.

Lemma evict_wf d now w : window_wf w → window_wf (evict d now w).
Proof. intros [Hf Hl]. unfold evict. destruct (now <? d)%N; [done|]. rewrite Hf. by apply evict_go_wf. Qed.

(** ** Well-typed programs *)

Definition valid_op {X} (op : Atomic X) : Prop :=
  match op with
  | StoreState v => (v ≤ 2)%N
  | CasState _ to => (to ≤ 2)%N
  | WithWindow f => ∀ w, window_wf w → window_wf (f w).2
  | _ => True
  end.

Fixpoint valid_prog {A} (p : prog A) : Prop :=
  match p with
  | Ret _ => True
  | Act op k => valid_op op ∧ ∀ x, valid_prog (k x)
  end.

Lemma valid_bind {A B} (p : prog A) (f : A → prog B) :
  valid_prog p → (∀ a, valid_prog (f a)) → valid_prog (p ≫= f).
Proof. intros Hp Hf. induction p as [a|X op k IH]; [apply Hf|]. destruct Hp as [Ho Hk]. split; [done|]. intros x. by apply IH. Qed.

Definition typed (s : Shared) : Prop := (sh_state s ≤ 2)%N ∧ window_wf (window s).

Lemma exec_typed {X} now (op : Atomic X) s : valid_op op → typed s → typed (exec now op s).2.
Proof.
  intros Ho [Hs Hw]. destruct op; cbn in *; try done.
  - by destruct (_ =? _)%N.
  - by destruct (_ =? _)%N.
  - specialize (Ho _ Hw). by destruct (f (window s)).
Qed.

Lemma valid_call config baseline c : valid_prog (call config baseline c).
Proof.
  assert (valid_prog (try_half_open_probe config baseline)) as Hprobe.
  { unfold try_half_open_probe, elapsed_millis. cbn. split; [done|]. intros now. split; [done|]. intros prev.
    destruct (_ <? _)%N; cbn; split_and!; try done. intros _. split; [done|]. intros claimed.
    destruct (_ <=? _)%N; cbn; [split; [done|]; intros []|]; done. }
  assert (∀ prev r, valid_prog (trip baseline prev r)) as Htrip.
  { intros prev r. unfold trip, elapsed_millis. cbn. split_and!; try done. intros _. split; [done|]. intros now.
    split; [done|]. intros _. split; [done|]. intros _. split; [done|]. intros _. by destruct prev. }
  assert (∀ prev r, valid_prog (close prev r)) as Hclose.
  { intros prev r. unfold close. cbn. split; [lia|]. intros _. split; [intros; apply window_new_wf|]. intros _.
    split; [done|]. intros _. split; [done|]. intros _. by destruct prev. }
  assert (∀ b t w, window_wf w → window_wf (evict (window_duration config) t (push b t w))) as Hpush
    by (intros; by apply evict_wf, push_wf).
  destruct c; cbn [call]; apply valid_bind; try done.
  - unfold check. destruct (negb _); [done|]. unfold state. cbn. split; [done|]. intros v.
    destruct (from_u8 v); [done| |done]. unfold check_open, elapsed_millis. cbn. split; [done|]. intros opened.
    split; [done|]. intros now. destruct (_ <=? _)%N; [|done]. cbn. split; [lia|]. intros [].
    + cbn. split; [done|]. intros _. split; [done|]. intros _. exact Hprobe.
    + cbn. split; [done|]. intros v'. by destruct (from_u8 v').
  - unfold record. destruct (negb _); [done|]. unfold state. cbn. split; [done|]. intros now. split; [done|]. intros v.
    apply (valid_bind (A:=())); [|done]. destruct (from_u8 v).
    + cbn. split; [intros w Hw; by apply Hpush|]. intros []; [exact (Htrip Closed "trip")|done].
    + cbn. split; [|done]. intros w Hw. by apply Hpush.
    + destruct (is_failure o); [exact (Htrip HalfOpen "probe_failure")|exact (Hclose HalfOpen "probe_success")].
  - unfold error_rate. cbn. split; [done|]. intros now. split; [|done]. intros w Hw. by apply evict_wf.
Qed.

(** A breaker in use: some calls, none of them started. *)
Definition start (config : BreakerConfig) (baseline now : N) (s : Shared) (cs : list Call) : Conf :=
  mkConf now s (map (call config baseline) cs).

Lemma step_typed c c' :
  conf_step c c' → typed (cf_mem c) ∧ Forall valid_prog (cf_threads c) →
  typed (cf_mem c') ∧ Forall valid_prog (cf_threads c').
Proof.
  intros [t t' s ts Ht|t s ts i X op k Hi] [Hs Hts]; [done|]. cbn [cf_mem cf_threads] in *.
  pose proof (Forall_lookup_1 _ _ _ _ Hts Hi) as [Ho Hk]. split; [by apply exec_typed|].
  by apply Forall_insert.
Qed.

Lemma reach_typed config baseline now s cs c :
  typed s → rtc conf_step (start config baseline now s cs) c → typed (cf_mem c).
Proof.
  intros Hs H. assert (typed (cf_mem (start config baseline now s cs)) ∧ Forall valid_prog (cf_threads (start config baseline now s cs))) as H0.
  { split; [done|]. apply Forall_map, Forall_true. intros. apply valid_call. }
  revert H0. induction H as [c|c c1 c2 Hstep _ IH]; [by intros [? _]|]. intros H0. apply IH. by eapply step_typed.
Qed.

(** C40: The breaker's memory is well typed. However the calls on a new breaker are
    interleaved, the state cell holds the discriminant of one of the three states,
    so that reading it back never meets its fallback, and the count of failures
    is the number of failed samples in a window of at most ten thousand, so that
    counting down never wraps. *)
Theorem breaker_memory_is_typed (config : BreakerConfig) (baseline now : N) (cs : list Call) (c : Conf) :
  rtc conf_step (start config baseline now shared_new cs) c →
  sh_state (cf_mem c) = state_as_u8 (from_u8 (sh_state (cf_mem c)))
  ∧ failures (window (cf_mem c)) = count_failures (entries (window (cf_mem c)))
  ∧ length (entries (window (cf_mem c))) ≤ MAX_WINDOW_ENTRIES.
Proof.
  intros H. apply reach_typed in H as [Hs [Hf Hl]]; [|split; [done|apply window_new_wf]].
  split_and!; [|done..]. destruct (sh_state _) as [|[[]|[]|]]; cbn; lia.
Qed.

(** ** Concurrent probes

    Ghost phases follow a call of [check]: it may win a probe slot, be about to
    give a slot back that it found exhausted, or take over an abandoned claim. *)

Inductive Phase : Type := Idle | Losing | Won | Took.

Definition phase_eqb (p q : Phase) : bool :=
  match p, q with Idle, Idle | Losing, Losing | Won, Won | Took, Took => true | _, _ => false end.

Definition in_phase (p : Phase) (phs : list Phase) : nat := length (bfilter (phase_eqb p) phs).

Definition is_phase (p q : Phase) : nat := if phase_eqb p q then 1 else 0.

Lemma in_phase_cons p q phs : in_phase p (q :: phs) = is_phase p q + in_phase p phs.
Proof. unfold in_phase, is_phase, bfilter. cbn [List.filter]. by destruct (phase_eqb p q). Qed.

Lemma in_phase_insert p q r phs i :
  phs !! i = Some q → in_phase p (<[i := r]> phs) + is_phase p q = in_phase p phs + is_phase p r.
Proof.
  revert i. induction phs as [|x phs IH]; intros [|i]; [done..| |].
  - intros [= ->]. change (<[0:=r]> (q :: phs)) with (r :: phs). rewrite !in_phase_cons. lia.
  - intros H%IH. change (<[S i:=r]> (x :: phs)) with (x :: <[i:=r]> phs). rewrite !in_phase_cons. lia.
Qed.

Lemma in_phase_pos p phs i : phs !! i = Some p → 0 < in_phase p phs.
Proof.
  revert i. induction phs as [|x phs IH]; intros [|i]; [done..| |]; rewrite in_phase_cons.
  - intros [= ->]. destruct p; cbn; lia.
  - intros H%IH. lia.
Qed.

Lemma in_phase_sum phs : in_phase Won phs + in_phase Losing phs ≤ length phs.
Proof. induction phs as [|x phs IH]; [done|]. rewrite !in_phase_cons. destruct x; cbn [is_phase phase_eqb length]; lia. Qed.

Section probes.
Context (config : BreakerConfig) (baseline t0 t1 : N).

(** The clock moves from [t0] to [t1], by less than the lease of a claim. *)
Let e0 := elapsed_at baseline t0.
Let e1 := elapsed_at baseline t1.
Let lease := as_millis_u64 (open_duration config).
Hypothesis no_wrap : ((t1 - baseline) / NANOS_PER_MILLI ≤ u64_max)%N.
Hypothesis short : (e1 < e0 + lease)%N.

Definition fresh (ms : N) : Prop := (e0 ≤ ms ≤ e1)%N.

Lemma elapsed_fresh t : (t0 ≤ t ≤ t1)%N → fresh (elapsed_at baseline t).
Proof using no_wrap.
  clear short lease. intros Ht. unfold fresh, e0, e1, elapsed_at, as_millis_u64.
  pose proof (N.Div0.div_le_mono (t - baseline) (t1 - baseline) NANOS_PER_MILLI ltac:(lia)).
  pose proof (N.Div0.div_le_mono (t0 - baseline) (t - baseline) NANOS_PER_MILLI ltac:(lia)).
  rewrite !N.mod_small by lia. lia.
Qed.

(** What a call may do in each phase, which answers it can get, and where the
    access leads. *)
Definition allowed {X} (ph : Phase) (op : Atomic X) : Prop :=
  match op with
  | LoadState | LoadOpened | LoadClaimed | Now | StoreFast _ | Observe _ => True
  | CasState from to => from = 1%N ∧ to = 2%N
  | FetchAddProbes => ph = Idle
  | FetchSubProbes => ph = Losing
  | StoreClaimed ms => ph = Won ∧ fresh ms
  | CasClaimed from to => ph = Idle ∧ fresh to ∧ (from + lease ≤ to)%N
  | _ => False
  end.

Definition possible {X} (op : Atomic X) : X → Prop :=
  match op in Atomic X return X → Prop with
  | LoadState => λ v, v = 1%N ∨ v = 2%N
  | Now => λ t, (t0 ≤ t ≤ t1)%N
  | _ => λ _, True
  end.

Definition next_phase {X} (ph : Phase) (op : Atomic X) : X → Phase :=
  match op in Atomic X return X → Phase with
  | FetchAddProbes => λ prev, if (prev <? max_probes config)%N then Won else Losing
  | FetchSubProbes => λ _, Idle
  | CasClaimed _ _ => λ won, if (won : bool) then Took else Idle
  | _ => λ _, ph
  end.

Fixpoint follows (ph : Phase) (p : prog Reply) : Prop :=
  match p with
  | Ret r => r = ReplyCheck (Ok tt) → ph = Won ∨ ph = Took
  | Act op k => allowed ph op ∧ ∀ x, possible op x → follows (next_phase ph op x) (k x)
  end.

Lemma probe_follows f : (∀ r, f r = Ret (ReplyCheck r)) → follows Idle (try_half_open_probe config baseline ≫= f).
Proof using no_wrap short.
  intros Hf. unfold try_half_open_probe, elapsed_millis. cbn. split; [done|]. intros t Ht. split; [done|].
  intros prev _. destruct (prev <? max_probes config)%N; cbn.
  - split; [split; [done|by apply elapsed_fresh]|]. intros _ _. split; [done|]. intros _ _. rewrite Hf. cbn. by left.
  - split; [done|]. intros _ _. split; [done|]. intros claimed _. fold lease.
    assert (∀ r, r ≠ Ok tt → follows Idle (f r)) as Hno by (intros r Hr; rewrite Hf; cbn; intros [=]; done).
    destruct (N.leb_spec lease (elapsed_at baseline t - claimed)) as [Hl|Hl].
    + cbn. split.
      * split_and!; [done|by apply elapsed_fresh|]. assert (0 < lease)%N; [|lia].
        pose proof (elapsed_fresh t Ht). unfold fresh in *. lia.
      * intros [] _; cbn; (split; [done|]); intros _ _; [rewrite Hf; cbn; by right|by apply Hno].
    + cbn. split; [done|]. intros _ _. by apply Hno.
Qed.

Lemma check_follows : cb_enabled config = true → follows Idle (call config baseline CallCheck).
Proof using no_wrap short.
  intros He. cbn [call]. unfold check. rewrite He. cbn. split; [done|].
  intros v [-> | ->]; cbn; [|by apply probe_follows]. split; [done|]. intros opened _. split; [done|].
  intros t Ht. destruct (_ <=? _)%N; [|cbn; done]. cbn. split; [done|]. intros [] _; cbn.
  - split; [done|]. intros _ _. split; [done|]. intros _ _. by apply probe_follows.
  - split; [done|]. intros v [-> | ->]; cbn; [|by apply probe_follows].
    split; [done|]. intros opened' _. split; [done|]. by intros.
Qed.

Context (c0 : N).

(** The memory and the phases of the calls. *)
Record admits (now : N) (s : Shared) (phs : list Phase) : Prop := mkAdmits {
  ad_now : (t0 ≤ now ≤ t1)%N;
  ad_state : sh_state s = 1%N ∨ sh_state s = 2%N;
  ad_many : (N.of_nat (length phs) < u64_max)%N;
  ad_probes : half_open_probes s = N.of_nat (in_phase Won phs + in_phase Losing phs);
  ad_won : (N.of_nat (in_phase Won phs) ≤ max_probes config)%N;
  ad_claim : probe_claimed_at_millis s = c0 ∨ fresh (probe_claimed_at_millis s);
  ad_took : in_phase Took phs = 0 ∨ in_phase Took phs = 1 ∧ fresh (probe_claimed_at_millis s) ∧ (c0 + lease ≤ e1)%N;
}.

Lemma exec_possible {X} now (op : Atomic X) s phs ph :
  admits now s phs → allowed ph op → possible op (exec now op s).1.
Proof using Type. intros [Hn Hs _ _ _ _ _]. destruct op; cbn; try done. Qed.

(** Accesses that leave probes and claim alone, in an unchanged phase. *)
Lemma admits_same now s s' phs :
  admits now s phs → sh_state s' = 1%N ∨ sh_state s' = 2%N → half_open_probes s' = half_open_probes s →
  probe_claimed_at_millis s' = probe_claimed_at_millis s → admits now s' phs.
Proof using Type. intros [Hn Hs Hm Hp Hw Hc Ht] Hs' Ep Ec. constructor; rewrite ?Ep, ?Ec; done. Qed.

Lemma exec_admits {X} now (op : Atomic X) s phs i ph :
  admits now s phs → phs !! i = Some ph → allowed ph op →
  admits now (exec now op s).2 (<[i := next_phase ph op (exec now op s).1]> phs).
Proof using no_wrap short.
  intros H Hi Ho. assert (next_phase ph op (exec now op s).1 = ph → admits now (exec now op s).2 phs →
    admits now (exec now op s).2 (<[i := next_phase ph op (exec now op s).1]> phs)) as Hsame
    by (intros ->; by rewrite list_insert_id).
  pose proof (λ p, in_phase_insert p _ (next_phase ph op (exec now op s).1) _ _ Hi) as Hcount.
  pose proof (in_phase_sum phs) as Hsum. pose proof (in_phase_pos _ _ _ Hi) as Hpos.
  destruct H as [Hn Hs Hm Hp Hw Hc Ht].
  destruct op; cbn in Ho; try done; try (apply Hsame; [done|by apply (admits_same now s)]).
  - destruct Ho as [-> ->]. apply Hsame; [done|]. cbn. by destruct (_ =? _)%N; apply (admits_same now s); cbn; auto.
  - subst ph. cbn in *. pose proof (Hcount Won) as HW. pose proof (Hcount Losing) as HL. pose proof (Hcount Took) as HT.
    assert (half_open_probes s < u64_max)%N by lia. rewrite usize_succ_small in * by done.
    constructor; cbn [sh_state half_open_probes probe_claimed_at_millis set_field]; rewrite ?length_insert; try done.
    all: destruct (N.ltb_spec (half_open_probes s) (max_probes config)); unfold is_phase in *; cbn in *;
      first [lia|destruct Ht as [Ht|[Ht ?]]; [left; lia|right; split; [lia|done]]].
  - subst ph. cbn in *. pose proof (Hcount Won) as HW. pose proof (Hcount Losing) as HL. pose proof (Hcount Took) as HT.
    unfold is_phase in *. cbn in *. rewrite usize_pred_pos in * by lia.
    constructor; cbn [sh_state half_open_probes probe_claimed_at_millis set_field]; rewrite ?length_insert; try done; try lia.
    destruct Ht as [Ht|[Ht ?]]; [left; lia|right; split; [lia|done]].
  - destruct Ho as [-> Hf]. apply Hsame; [done|]. constructor; cbn; try done; [by right|].
    destruct Ht as [Ht|(Ht & _ & ?)]; [by left|by right].
  - destruct Ho as (-> & Hf & Hl). cbn in *. pose proof (Hcount Won) as HW. pose proof (Hcount Losing) as HL.
    pose proof (Hcount Took) as HT. destruct (N.eqb_spec (probe_claimed_at_millis s) from) as [E|E]; cbn in *.
    + assert (in_phase Took phs = 0 ∧ probe_claimed_at_millis s = c0) as [H0 H1].
      { unfold fresh in *. destruct Hc; [|lia]. split; [|done]. destruct Ht as [|(_ & ? & _)]; [done|lia]. }
      unfold is_phase in *. cbn in *.
      constructor; cbn; rewrite ?length_insert; try done; try lia; [by right|]. right. unfold fresh in *. split_and!; lia.
    + apply Hsame; [done|]. by constructor.
Qed.

Definition conf_admits (c : Conf) (phs : list Phase) : Prop :=
  admits (cf_now c) (cf_mem c) phs ∧ Forall2 follows phs (cf_threads c).

Lemma step_admits c c' phs :
  conf_step c c' → (cf_now c' ≤ t1)%N → conf_admits c phs → ∃ phs', conf_admits c' phs'.
Proof using no_wrap short.
  intros [t t' s ts Ht|t s ts i X op k Hi] Hn [Ha Hf]; cbn [cf_now cf_mem cf_threads] in *.
  - exists phs. split; [|done]. destruct Ha. constructor; cbn in *; try done. lia.
  - destruct (Forall2_lookup_r _ _ _ _ _ Hf Hi) as (ph & Hph & Ho & Hk).
    exists (<[i := next_phase ph op (exec t op s).1]> phs). split; cbn.
    + by eapply exec_admits.
    + apply Forall2_insert; [done|]. apply Hk. by eapply exec_possible.
Qed.

Lemma step_now c c' : conf_step c c' → (cf_now c ≤ cf_now c')%N.
Proof using Type. by intros [t t' s ts Ht|]. Qed.

Lemma reach_admits c c' phs :
  rtc conf_step c c' → (cf_now c' ≤ t1)%N → conf_admits c phs → ∃ phs', conf_admits c' phs'.
Proof using no_wrap short.
  intros H. revert phs. induction H as [c|c c1 c2 Hs Hr IH]; intros phs Hn Ha; [by exists phs|].
  assert (cf_now c1 ≤ cf_now c2)%N as Hle.
  { clear -Hr. induction Hr as [c|x y z Hs _ IH]; [done|]. apply step_now in Hs. lia. }
  destruct (step_admits c c1 phs Hs) as [phs1 H1]; [lia|done|]. by eapply IH.
Qed.

Definition admitted (c : Conf) : nat :=
  length (bfilter (λ p, match p with Ret (ReplyCheck (Ok _)) => true | _ => false end) (cf_threads c)).

Lemma admitted_bound c phs :
  Forall2 follows phs (cf_threads c) → admitted c ≤ in_phase Won phs + in_phase Took phs.
Proof using Type.
  clear no_wrap short. unfold admitted. induction 1 as [|ph p phs ps Hp _ IH]; [done|]. rewrite !in_phase_cons. unfold bfilter in *.
  cbn [List.filter]. destruct p as [[[[]|]| | |]|]; cbn [length]; try lia.
  destruct (Hp eq_refl) as [-> | ->]; cbn [is_phase phase_eqb]; lia.
Qed.
End probes.

(** C39: Concurrent probes are bounded. Let any number of threads call [check] on a
    breaker that is open, or half-open with no probe under way, and let them be
    interleaved in any way while less than the open duration passes. Then no more
    are admitted than there are probe slots, and at most one more, which is
    possible only if the claim of the probe before is old enough to be taken for
    abandoned. *)
Theorem concurrent_probes_are_bounded (config : BreakerConfig) (baseline t0 t1 : N) (s : Shared) (n : nat) (c : Conf) :
  cb_enabled config = true →
  (sh_state s = state_as_u8 Open ∨ sh_state s = state_as_u8 HalfOpen) → half_open_probes s = 0%N →
  (N.of_nat n < u64_max)%N → ((t1 - baseline) / NANOS_PER_MILLI ≤ u64_max)%N →
  (elapsed_at baseline t1 < elapsed_at baseline t0 + as_millis_u64 (open_duration config))%N →
  rtc conf_step (start config baseline t0 s (replicate n CallCheck)) c → (t0 ≤ t1)%N → (cf_now c ≤ t1)%N →
  (N.of_nat (admitted c) ≤ max_probes config
     + if (probe_claimed_at_millis s + as_millis_u64 (open_duration config) <=? elapsed_at baseline t1)%N then 1 else 0)%N.
Proof.
  intros He Hs Hp Hn Hw Hshort Hr Ht01 Hnow.
  assert (∀ p, p ≠ Idle → in_phase p (replicate n Idle) = 0) as Hidle.
  { intros p Hi. clear -Hi. induction n as [|n IH]; [done|]. cbn [replicate]. rewrite in_phase_cons, IH. by destruct p. }
  destruct (reach_admits config baseline t0 t1 Hw Hshort (probe_claimed_at_millis s)
    (start config baseline t0 s (replicate n CallCheck)) c (replicate n Idle)) as (phs & Ha & Hf); [done|done|..].
  - split; cbn [start cf_now cf_mem cf_threads].
    + constructor; rewrite ?length_replicate, ?Hidle by done; try done; [lia|left|left]; done.
    + rewrite fmap_replicate. apply Forall2_replicate. by apply check_follows.
  - apply admitted_bound in Hf. destruct Ha as [_ _ _ _ Hwon _ Htook].
    destruct (N.leb_spec (probe_claimed_at_millis s + as_millis_u64 (open_duration config)) (elapsed_at baseline t1));
      destruct Htook as [|(? & _ & ?)]; lia.
Qed.

(** ** Alone: a three-state machine

    The specification has one datum per state; the mirror flag and the cells that
    are idle in a state are not part of it. *)

Inductive Spec : Type :=
| SpecClosed
| SpecOpen (since : N)
| SpecHalfOpen (used claimed : N).

Section alone.
Context (config : BreakerConfig) (baseline : N).

Definition spec_check (now : N) (a : Spec * SlidingWindow) : result unit N * (Spec * SlidingWindow) :=
  let ms := elapsed_at baseline now in
  if negb (cb_enabled config) then (Ok tt, a)
  else match a.1 with
       | SpecClosed => (Ok tt, a)
       | SpecOpen since =>
           let elapsed := from_millis (ms - since) in
           if (open_duration config <=? elapsed)%N then (Ok tt, (SpecHalfOpen 1 ms, a.2))
           else (Err (open_duration config - elapsed)%N, a)
       | SpecHalfOpen used claimed =>
           if (used <? max_probes config)%N then (Ok tt, (SpecHalfOpen (used + 1) ms, a.2))
           else if (as_millis_u64 (open_duration config) <=? ms - claimed)%N then (Ok tt, (SpecHalfOpen used ms, a.2))
           else (Err (N.min HALF_OPEN_PROBE_BACKOFF (open_duration config)), a)
       end.

Definition trips (w : SlidingWindow) : bool :=
  (min_samples config <=? sample_count w) && f64_ge (window_error_rate w) (error_rate_threshold config).

Definition spec_record (now : N) (o : Outcome) (a : Spec * SlidingWindow) : Spec * SlidingWindow :=
  let ms := elapsed_at baseline now in
  let sampled := evict (window_duration config) now (push (is_failure o) now a.2) in
  if negb (cb_enabled config) then a
  else match a.1 with
       | SpecClosed => (if trips sampled then SpecOpen ms else SpecClosed, sampled)
       | SpecOpen since => (SpecOpen since, sampled)
       | SpecHalfOpen _ _ => if is_failure o then (SpecOpen ms, a.2) else (SpecClosed, window_new)
       end.

Definition spec_call (now : N) (c : Call) (a : Spec * SlidingWindow) : Reply * (Spec * SlidingWindow) :=
  match c with
  | CallCheck => let '(r, a) := spec_check now a in (ReplyCheck r, a)
  | CallRecord o => (ReplyUnit, spec_record now o a)
  | CallIsOpen => (ReplyBool (match a.1 with SpecOpen _ => true | _ => false end), a)
  | CallErrorRate => let w := evict (window_duration config) now a.2 in (ReplyRate (window_error_rate w), (a.1, w))
  end.

Fixpoint run_calls {S R} (step : N → Call → S → R * S) (cs : list (N * Call)) (s : S) : list R * S :=
  match cs with
  | [] => ([], s)
  | (now, c) :: cs => let '(r, s) := step now c s in let '(rs, s) := run_calls step cs s in (r :: rs, s)
  end.

(** What the memory stands for. *)
Definition abs (s : Shared) : Spec * SlidingWindow :=
  (match from_u8 (sh_state s) with
   | Closed => SpecClosed
   | Open => SpecOpen (opened_at_millis s)
   | HalfOpen => SpecHalfOpen (half_open_probes s) (probe_claimed_at_millis s)
   end, window s).

(** Memory between calls. *)
Record quiet (s : Shared) : Prop := mkQuiet {
  quiet_state : sh_state s = 0%N ∨ sh_state s = 1%N ∨ sh_state s = 2%N;
  quiet_mirror : is_open_fast s = (sh_state s =? 1)%N;
  quiet_probes : if (sh_state s =? 2)%N then (half_open_probes s ≤ max_probes config)%N else half_open_probes s = 0%N;
}.

Hypothesis usize_probes : (half_open_max_probes config ≤ u64_max)%N.

Lemma usize_pred_succ n : (n ≤ u64_max)%N → usize_pred (usize_succ n) = n.
Proof using Type.
  clear usize_probes. intros H. unfold usize_succ. destruct (N.eqb_spec n u64_max) as [->|]; [done|].
  rewrite usize_pred_pos; lia.
Qed.

Lemma max_probes_usize : (0 < max_probes config ≤ u64_max)%N.
Proof using usize_probes. unfold max_probes. split; [lia|]. apply N.max_lub; [done|]. by vm_compute. Qed.

(** A probe, on memory that is half-open. *)
Lemma run_probe now s :
  sh_state s = 2%N → is_open_fast s = false → (half_open_probes s ≤ max_probes config)%N →
  let '(r, s') := run now (try_half_open_probe config baseline) s in
  quiet s' ∧ (r, abs s') =
    if (half_open_probes s <? max_probes config)%N
    then (Ok tt, (SpecHalfOpen (half_open_probes s + 1) (elapsed_at baseline now), window s))
    else if (as_millis_u64 (open_duration config) <=? elapsed_at baseline now - probe_claimed_at_millis s)%N
         then (Ok tt, (SpecHalfOpen (half_open_probes s) (elapsed_at baseline now), window s))
         else (Err (N.min HALF_OPEN_PROBE_BACKOFF (open_duration config)), abs s).
Proof using usize_probes.
  intros Hs Hf Hp. pose proof max_probes_usize as Hmax. destruct s as [st op pr cl fast w obs]. cbn in Hs, Hf, Hp. subst st fast.
  unfold try_half_open_probe, elapsed_millis. cbn. destruct (N.ltb_spec pr (max_probes config)) as [Hlt|Hge]; cbn.
  - rewrite usize_succ_small by lia. split; [|done]. constructor; cbn; [auto|done|lia].
  - rewrite usize_pred_succ by lia.
    destruct (as_millis_u64 (open_duration config) <=? elapsed_at baseline now - cl)%N; cbn; [rewrite N.eqb_refl; cbn|];
      (split; [constructor; cbn; auto|done]).
Qed.

Lemma run_bind {A B} now (p : prog A) (f : A → prog B) s :
  run now (p ≫= f) s = let '(a, s') := run now p s in run now (f a) s'.
Proof using Type.
  revert s. induction p as [a|X op k IH]; intros s; [done|]. cbn [run mbind prog_bind].
  destruct (exec now op s) as [x s1]. apply IH.
Qed.

Local Opaque try_half_open_probe.

Lemma sim_check now s :
  quiet s → let '(r, s') := run now (check config baseline) s in quiet s' ∧ (r, abs s') = spec_check now (abs s).
Proof using usize_probes.
  intros Hq. unfold check, spec_check. destruct (cb_enabled config); [|done]. cbn [negb].
  destruct s as [st op pr cl fast w obs]. destruct (Hq) as [Hs Hf Hp]. cbn in Hs, Hf, Hp.
  destruct Hs as [-> |[-> | ->]]; cbn in *.
  - done.
  - destruct (open_duration config <=? from_millis (elapsed_at baseline now - op))%N eqn:E; cbn; [|done].
    subst pr. match goal with |- context [run now _ ?x] => pose proof (run_probe now x eq_refl eq_refl) as H end.
    cbn in H. specialize (H ltac:(lia)).
    pose proof max_probes_usize as Hmax. destruct (N.ltb_spec 0 (max_probes config)) in H; [|lia]. exact H.
  - set (s1 := mkShared 2 op pr cl fast w obs). exact (run_probe now s1 eq_refl Hf Hp).
Qed.

Lemma sim_record now o s :
  quiet s → quiet (run now (record config baseline o) s).2
            ∧ abs (run now (record config baseline o) s).2 = spec_record now o (abs s).
Proof using Type.
  clear usize_probes. intros [Hs Hf Hp]. unfold record, spec_record. destruct (cb_enabled config); [|done]. cbn [negb].
  destruct s as [st op pr cl fast w obs]. cbn in Hs, Hf, Hp. destruct Hs as [-> |[-> | ->]]; cbn in *; subst.
  - unfold trips. destruct (_ && _); cbn; (split; [constructor; cbn; auto|done]).
  - split; [constructor; cbn; auto|done].
  - destruct (is_failure o); cbn; (split; [constructor; cbn; auto|done]).
Qed.

Lemma sim_call now c s :
  quiet s → let '(r, s') := run now (call config baseline c) s in quiet s' ∧ (r, abs s') = spec_call now c (abs s).
Proof using usize_probes.
  intros Hq. destruct c as [|o| |]; cbn [call spec_call].
  - rewrite run_bind. pose proof (sim_check now s Hq) as H. destruct (run now (check config baseline) s) as [r s'].
    destruct H as [Hq' <-]. done.
  - rewrite run_bind. destruct (sim_record now o s Hq) as [Hq' <-]. by destruct (run now (record config baseline o) s).
  - destruct Hq as [Hs Hf Hp]. cbn. split; [by constructor|]. rewrite Hf.
    destruct Hs as [E|[E|E]]; by rewrite E.
  - destruct Hq as [Hs Hf Hp]. cbn. split; [by constructor|done].
Qed.

Lemma sim_calls cs s :
  quiet s →
  let '(rs, s') := run_calls (λ now c s, run now (call config baseline c) s) cs s in
  quiet s' ∧ (rs, abs s') = run_calls spec_call cs (abs s).
Proof using usize_probes.
  revert s. induction cs as [|[now c] cs IH]; intros s Hq; [done|]. cbn [run_calls].
  pose proof (sim_call now c s Hq) as H. destruct (run now (call config baseline c) s) as [r s1].
  destruct H as [Hq1 <-]. specialize (IH s1 Hq1). destruct (run_calls _ cs s1) as [rs s2].
  destruct IH as [Hq2 <-]. done.
Qed.
End alone.

(** C38: A breaker used by one caller at a time implements its specification. Over
    any sequence of checks, recorded outcomes and readings at any times, starting
    from a new breaker, the atomics give exactly the answers of the three-state
    machine: closed until enough of the window's samples failed, then refusing
    with the rest of the cool-down as the time to wait, then admitting probes up
    to their number, then closed with an empty window or open again by the next
    recorded outcome. The lock-free flag agrees with the state after every call. *)
Theorem breaker_refines_spec (config : BreakerConfig) (baseline : N) (cs : list (N * Call)) :
  (half_open_max_probes config ≤ u64_max)%N →
  let '(rs, s) := run_calls (λ now c s, run now (call config baseline c) s) cs shared_new in
  (rs, abs s) = run_calls (spec_call config baseline) cs (SpecClosed, window_new)
  ∧ (is_open_fast s = true ↔ sh_state s = state_as_u8 Open).
Proof.
  intros Hm. pose proof (sim_calls config baseline Hm cs shared_new) as H.
  destruct (run_calls _ cs shared_new) as [rs s]. destruct H as [[_ Hf _] H]; [constructor; cbn; auto|].
  split; [exact H|]. rewrite Hf. apply N.eqb_eq.
Qed.

(** The breaker recovers. When the cool-down of an open breaker is over, the
    next check is admitted, and then a success closes the breaker with an empty
    window while a failure starts a new cool-down. If the probe admitted is lost
    and nothing is ever recorded for it, a check is admitted again once another
    open duration has passed. *)
Lemma breaker_recovers (config : BreakerConfig) (baseline now : N) (s : Shared) :
  quiet config s → (half_open_max_probes config ≤ u64_max)%N → cb_enabled config = true →
  sh_state s = state_as_u8 Open →
  (open_duration config ≤ from_millis (elapsed_at baseline now - opened_at_millis s))%N →
  let '(r, s1) := run now (check config baseline) s in
  r = Ok tt
  ∧ (∀ later, abs (run later (record config baseline Success) s1).2 = (SpecClosed, window_new))
  ∧ (∀ later, abs (run later (record config baseline Failure) s1).2 = (SpecOpen (elapsed_at baseline later), window s))
  ∧ ∀ later, (as_millis_u64 (open_duration config) ≤ elapsed_at baseline later - elapsed_at baseline now)%N →
      (run later (check config baseline) s1).1 = Ok tt.
Proof.
  intros Hq Hm He Hs Hc. pose proof (sim_check config baseline Hm now s Hq) as H.
  destruct (run now (check config baseline) s) as [r s1]. destruct H as [Hq1 H].
  assert (abs s = (SpecOpen (opened_at_millis s), window s)) as E by (unfold abs; by rewrite Hs).
  unfold spec_check in H. rewrite He, E in H. cbn [negb fst snd] in H.
  rewrite (proj2 (N.leb_le _ _) Hc) in H.
  assert (abs s1 = (SpecHalfOpen 1 (elapsed_at baseline now), window s)) as Habs by congruence.
  split; [congruence|]. split_and!.
  - intros later. destruct (sim_record config baseline later Success s1 Hq1) as [_ ->].
    unfold spec_record. rewrite He, Habs. done.
  - intros later. destruct (sim_record config baseline later Failure s1 Hq1) as [_ ->].
    unfold spec_record. rewrite He, Habs. done.
  - intros later Hl. pose proof (sim_check config baseline Hm later s1 Hq1) as H2.
    destruct (run later (check config baseline) s1) as [r' s2]. destruct H2 as [_ H2].
    unfold spec_check in H2. rewrite He, Habs in H2. cbn [negb fst snd] in H2.
    rewrite (proj2 (N.leb_le _ _) Hl) in H2. destruct (_ <? _)%N; cbn [fst]; congruence.
Qed.

(** ** Interleavings the code does not stand

    A breaker that trips on its first failure and cools down for ten seconds, in
    use since time zero. *)
Definition touchy : BreakerConfig :=
  mkBreakerConfig (from_secs 60) 1 f64_half (from_secs 10) 1 default_failure_codes true.

Definition threads (now : N) (s : Shared) (cs : list Call) : Conf := start touchy 0 now s cs.

(** Steps of one thread. *)
Definition go (i n : nat) : list (N + nat) := replicate n (inr i).

(** [trip] publishes the state before the time: a check in between compares the
    clock with the time of the cool-down before (here none) and is let through
    at the very moment the breaker opens. What [trip] then writes leaves the
    lock-free flag saying open in a half-open breaker. *)
Lemma cool_down_is_skipped :
  let c := run_schedule (go 0 4 ++ go 1 20 ++ go 0 20) (threads (from_secs 100) shared_new [CallRecord Failure; CallCheck]) in
  replies c = [Some ReplyUnit; Some (ReplyCheck (Ok tt))]
  ∧ sh_state (cf_mem c) = state_as_u8 HalfOpen ∧ is_open_fast (cf_mem c) = true.
Proof. vm_compute. repeat split. Qed.

(** A half-open breaker, its slot free, whose last claim is old. *)
Definition cooled_memory : Shared := mkShared (state_as_u8 Open) 20000 0 0 true window_new [].

(** The winner of the only slot writes the time of its claim after the slot: a
    loser in between sees the old claim and takes it for abandoned, so that two
    probes are admitted. *)
Lemma slot_is_claimed_twice :
  let c := run_schedule (go 0 8 ++ go 1 20 ++ go 0 20) (threads (from_secs 100) cooled_memory [CallCheck; CallCheck]) in
  replies c = [Some (ReplyCheck (Ok tt)); Some (ReplyCheck (Ok tt))].
Proof. vm_compute. repeat split. Qed.

(** A probe is under way. *)
Definition probing_memory : Shared := mkShared (state_as_u8 HalfOpen) 20000 1 99000 false window_new [].

(** A check that found no slot gives it back after a failed probe has reset the
    counter: the counter wraps, and no slot can be claimed until it is reset. *)
Lemma probe_counter_wraps :
  let c := run_schedule (go 0 3 ++ go 1 20 ++ go 0 20) (threads (from_secs 100) probing_memory [CallCheck; CallRecord Failure]) in
  half_open_probes (cf_mem c) = u64_max ∧ sh_state (cf_mem c) = state_as_u8 Open.
Proof. vm_compute. repeat split. Qed.

Lemma schedule_reaches es c : rtc conf_step c (run_schedule es c).
Proof.
  revert c. induction es as [|e es IH]; intros c; [done|]. unfold run_schedule in *. cbn [foldl].
  etrans; [|apply IH]. clear IH. destruct c as [t s ts], e as [t'|i]; cbn [schedule_one cf_now cf_mem cf_threads].
  - apply rtc_once. constructor. lia.
  - destruct (ts !! i) as [[r|X op k]|] eqn:E; [done| |done].
    pose proof (step_access t s ts i X op k E) as Hstep. destruct (exec t op s) as [x s']. by apply rtc_once.
Qed.

Lemma breaker_memory_is_typed_witness :
  let c := run_schedule (go 0 4 ++ go 1 20 ++ go 0 20) (threads (from_secs 100) shared_new [CallRecord Failure; CallCheck]) in
  failures (window (cf_mem c)) = count_failures (entries (window (cf_mem c))).
Proof.
  exact (proj1 (proj2 (breaker_memory_is_typed touchy 0 (from_secs 100) [CallRecord Failure; CallCheck] _
    (schedule_reaches (go 0 4 ++ go 1 20 ++ go 0 20) _)))).
Defined.

Lemma concurrent_probes_are_bounded_witness :
  let c := run_schedule (go 0 8 ++ go 1 20 ++ go 2 20 ++ go 0 20)
             (threads (from_secs 100) cooled_memory (replicate 3 CallCheck)) in
  admitted c = 2 ∧ (N.of_nat (admitted c) ≤ 1 + 1)%N.
Proof.
  intros c. split; [vm_compute; reflexivity|].
  pose proof (concurrent_probes_are_bounded touchy 0 (from_secs 100) (from_secs 101) cooled_memory 3 c
    eq_refl (or_introl eq_refl) eq_refl eq_refl ltac:(by vm_compute) eq_refl (schedule_reaches _ _)
    ltac:(by vm_compute) ltac:(by vm_compute)) as H.
  exact H.
Defined.

Lemma breaker_refines_spec_witness :
  (run_calls (λ now c s, run now (call touchy 0 c) s)
     [(from_secs 1, CallRecord Failure); (from_secs 3, CallCheck); (from_secs 12, CallCheck)] shared_new).1
  = [ReplyUnit; ReplyCheck (Err (from_secs 8)); ReplyCheck (Ok tt)].
Proof.
  pose proof (breaker_refines_spec touchy 0
    [(from_secs 1, CallRecord Failure); (from_secs 3, CallCheck); (from_secs 12, CallCheck)] ltac:(by vm_compute)) as H.
  destruct (run_calls _ _ shared_new) as [rs s]. destruct H as [[= -> _ _] _]. vm_compute. reflexivity.
Defined.

Lemma breaker_recovers_witness :
  (run (from_secs 100) (check touchy 0) cooled_memory).1 = Ok tt.
Proof.
  pose proof (breaker_recovers touchy 0 (from_secs 100) cooled_memory) as H.
  destruct (run (from_secs 100) (check touchy 0) cooled_memory) as [r s1].
  apply H; [constructor; cbn; auto|by vm_compute|done|done|by vm_compute].
Defined.

(** ** Configuration, registry and policies *)

Lemma from_lookup_usable parse_f64 prefix get :
  let c := from_lookup_with_prefix parse_f64 prefix get in
  (1 ≤ half_open_max_probes c)%N ∧ failure_codes c ≠ ∅.
Proof.
  cbv zeta. unfold from_lookup_with_prefix. cbn [half_open_max_probes failure_codes]. split; [lia|].
  assert (default_failure_codes ≠ ∅) as Hd by set_solver.
  destruct (get _) as [raw|]; [|done]. by case_bool_decide.
Qed.

(** Handles are given out once per key, and never twice to different keys. *)
Definition registry_wf (r : Registry) : Prop :=
  (∀ k i, rg_breakers r !! k = Some i → i < length (rg_memory r))
  ∧ ∀ k k' i, rg_breakers r !! k = Some i → rg_breakers r !! k' = Some i → k = k'.

Lemma registry_get_spec key r :
  registry_wf r → cb_enabled (rg_config r) = true →
  ∃ cb r', registry_get key r = (Some cb, r') ∧ registry_wf r' ∧ rg_breakers r' !! key = Some cb
    ∧ rg_breakers r ⊆ rg_breakers r' ∧ registry_get key r' = (Some cb, r').
Proof.
  intros [Hb Hi] He. unfold registry_get. rewrite He. cbn [negb].
  destruct (rg_breakers r !! key) as [cb|] eqn:E.
  - exists cb, r. rewrite He, E. done.
  - eexists _, _. split; [reflexivity|]. cbn [rg_config rg_breakers rg_memory]. rewrite He, lookup_insert_eq. cbn [negb].
    split_and!; [|done|by apply insert_subseteq|done]. split; cbn [rg_breakers rg_memory].
    + intros k i. rewrite length_app, lookup_insert_Some. cbn. intros [[_ <-]|[_ H%Hb]]; lia.
    + intros k k' i. rewrite !lookup_insert_Some. intros [[<- <-]|[H1 H]] [[<- Hk]|[H2 H']]; [done| | |by eapply Hi].
      * apply Hb in H'. lia.
      * subst i. apply Hb in H. lia.
Qed.

(** The server retries exactly on 429 and the 5xx; storage clients also on
    everything they do not drop or refresh credentials for. *)
Lemma policies_retry status :
  (should_retry server_policy status = true ↔ status = 429%N ∨ (500 ≤ status < 600)%N)
  ∧ (should_retry client_storage status = true ↔
       ¬ (200 ≤ status < 300)%N ∧ status ∉ [400; 401; 403; 404]%N).
Proof.
  unfold should_retry, classify, server_policy, client_storage. cbn [auth_refresh terminal retryable default_disposition].
  unfold contains. split.
  all: destruct (N.leb_spec 200 status), (N.ltb_spec status 300), (N.leb_spec 500 status), (N.ltb_spec status 600);
    cbn [andb orb]; repeat case_bool_decide; cbn [orb];
    rewrite ?elem_of_cons, ?elem_of_nil in *; naive_solver lia.
Qed.
