(* ===== verification/Disk.v ===== *)
(** * File systems

    The agent reaches files through the trait [AsyncFileSystem]: one of the tools
    crate (computer/types.rs), one of the workspace crate
    (xai-grok-workspace/src/file_system/fs.rs). Each is a class of operations on
    a state; the laws say what the operations that succeed do to the files a
    state holds, which are keyed by the paths' components. The in-memory file
    systems both crates keep for their tests ([MockFs]) are instances. *)

From Stdlib Require Import Ascii String.
From S2P Require Import Prelude RustStr.
From stdpp Require Import options.

Definition Files : Type := gmap string string.

(** A path as its components: two spellings of them are one key. *)
Definition canon (p : string) : string := path_of (path_components p).

(** The files a state holds. *)
Class HasFiles (S : Type) : Type := files : S → Files.

(** ** The tools' file system

    [create_dir_all] is not a method of the trait: the tool calls it on the
    local disk. *)
Class ToolFs (S : Type) : Type := {
  read_file : string → S → result string string;
  write_file : string → string → S → result () string * S;
  delete_file : string → S → result () string * S;
  make_dirs : string → S → result () string * S;
}.

Class ToolFsLaws (S : Type) `{HasFiles S, ToolFs S} : Prop := {
  read_file_ok p s b : read_file p s = Ok b → files s !! canon p = Some b;
  write_file_ok p b s s' : write_file p b s = (Ok (), s') → files s' = <[canon p := b]> (files s);
  delete_file_ok p s s' : delete_file p s = (Ok (), s') → files s' = delete (canon p) (files s);
  make_dirs_ok p s s' : make_dirs p s = (Ok (), s') → files s' = files s;
}.

(** ** The workspace's file system *)

Class WorkFs (S : Type) : Type := {
  try_read_file : string → S → result (option string) string;
  exists_file : string → S → result bool string;
  restore_file : string → string → S → result () string * S;
  remove_file : string → S → result () string * S;
}.

Class WorkFsLaws (S : Type) `{HasFiles S, WorkFs S} : Prop := {
  try_read_file_ok p s o : try_read_file p s = Ok o → files s !! canon p = o;
  exists_file_ok p s b : exists_file p s = Ok b → b = bool_decide (is_Some (files s !! canon p));
  restore_file_ok p b s s' : restore_file p b s = (Ok (), s') → files s' = <[canon p := b]> (files s);
  remove_file_ok p s s' : remove_file p s = (Ok (), s') → files s' = delete (canon p) (files s);
}.

(** ** The in-memory file systems *)

#[export] Instance mock_files : HasFiles Files := id.

#[export] Instance MockToolFs : ToolFs Files := {
  read_file p s := ok_or (s !! canon p) ("IO Error: File not found: " +:+ p);
  write_file p b s := (Ok (), <[canon p := b]> s);
  delete_file p s := (Ok (), delete (canon p) s);
  make_dirs p s := (Ok (), s);
}.

#[export] Instance MockWorkFs : WorkFs Files := {
  try_read_file p s := Ok (s !! canon p);
  exists_file p s := Ok (bool_decide (is_Some (s !! canon p)));
  restore_file p b s := (Ok (), <[canon p := b]> s);
  remove_file p s := (Ok (), delete (canon p) s);
}.

#[export] Instance mock_tool_laws : ToolFsLaws Files.
Proof.
  split; cbn.
  - intros p s b. unfold files, mock_files, id. destruct (s !! canon p); cbn; congruence.
  - by intros p b s s' [= <-].
  - by intros p s s' [= <-].
  - by intros p s s' [= <-].
Qed.

#[export] Instance mock_work_laws : WorkFsLaws Files.
Proof.
  split; cbn.
  - by intros p s o [= <-].
  - by intros p s b [= <-].
  - by intros p b s s' [= <-].
  - by intros p s s' [= <-].
Qed.
