(* ===== verification/PathLemmas.v ===== *)
(** * Paths and their components

    The canonical spelling of a path has its components, and joining a relative
    path to an absolute root appends them. *)

From Stdlib Require Import Ascii String.
From S2P Require Import Prelude RustStr TrimLemmas Disk.
From stdpp Require Import options.

(** A component other than the root and a leading dot. *)
Definition segment (s : string) : bool := negb (is_empty s) && negb (String.eqb s ".") && char_free "/" s.
Definition norm_segs (p : string) : list string :=
  bfilter (λ s, negb (is_empty s) && negb (String.eqb s ".")) (split_char "/" p).

Lemma norm_segs_ok p : Forall (λ s, segment s = true) (norm_segs p).
Proof.
  apply Forall_forall. intros s [Hs Hf]%elem_of_bfilter. unfold segment. rewrite Hf. cbn [andb].
  pose proof (split_char_pieces "/" p) as H. rewrite Forall_forall in H. by apply H.
Qed.

Lemma segs_filter l : Forall (λ s, segment s = true) l → bfilter (λ s, negb (is_empty s) && negb (String.eqb s ".")) l = l.
Proof.
  induction 1 as [|s l Hs _ IH]; [done|]. unfold bfilter in *. cbn [List.filter]. unfold segment in Hs. bools.
  rewrite H, H1. cbn. by f_equal.
Qed.

Lemma norm_segs_join l : Forall (λ s, segment s = true) l → norm_segs (join "/" l) = l.
Proof.
  intros Hl. unfold norm_segs. destruct l as [|s l]; [done|]. rewrite (split_char_join "/"); [by apply segs_filter|done|].
  eapply Forall_impl; [exact Hl|]. intros x Hx. unfold segment in Hx. by bools.
Qed.

Lemma split_char_sep_app c s t : split_char c (s +:+ String c t) = split_char c s ++ split_char c t.
Proof.
  unfold split_char. induction s as [|d s IH]; rewrite ?str_app_nil_l, ?str_app_cons; cbn [split_pred].
  - by rewrite Ascii.eqb_refl.
  - rewrite IH. destruct (Ascii.eqb c d); [done|].
    destruct (split_char_cons c s) as (h & r & E). unfold split_char in E. by rewrite E.
Qed.

Lemma norm_segs_app s t : norm_segs (s +:+ String "/" t) = norm_segs s ++ norm_segs t.
Proof. unfold norm_segs, bfilter. by rewrite split_char_sep_app, List.filter_app. Qed.

Lemma components_abs p : starts_with "/" p = true → path_components p = "/" :: norm_segs p.
Proof. intros H. unfold path_components. by rewrite H. Qed.

(** A relative path's components: its segments, with a leading dot if it has
    one. *)
Lemma components_rel p : starts_with "/" p = false → ∃ dot : bool, path_components p = (if dot then ["."] else []) ++ norm_segs p.
Proof.
  intros H. unfold path_components. rewrite H. destruct (split_char "/" p) as [|s segs] eqn:E.
  - exists false. unfold norm_segs. by rewrite E.
  - exists (String.eqb s "."). unfold norm_segs. rewrite E. by destruct (String.eqb s ".").
Qed.

Lemma starts_slash_segment s t : segment s = true → starts_with "/" (s +:+ t) = false.
Proof.
  intros Hs. unfold segment in Hs. bools. destruct s as [|a s]; [done|]. rewrite str_app_cons. apply starts_with_ne.
  unfold char_free in H0. cbn [all_chars] in H0. bools. by apply Ascii.eqb_neq.
Qed.

Lemma starts_slash_join l : Forall (λ s, segment s = true) l → starts_with "/" (join "/" l) = false.
Proof.
  intros Hl. destruct Hl as [|s l Hs Hl]; [done|]. destruct l as [|t l].
  - rewrite <- (str_app_nil_r (join "/" [s])). by apply starts_slash_segment.
  - rewrite join_cons. by apply starts_slash_segment.
Qed.

(** The spelling a list of components has is read back as these components. *)
Lemma components_path_of_abs l :
  Forall (λ s, segment s = true) l → path_components (path_of ("/" :: l)) = "/" :: l.
Proof.
  intros Hl. cbn [path_of]. rewrite components_abs by done. change ("/" +:+ join "/" l) with ("" +:+ String "/" (join "/" l)).
  by rewrite norm_segs_app, norm_segs_join.
Qed.

Lemma path_of_segs l : Forall (λ s, segment s = true) l → path_of l = join "/" l.
Proof.
  intros Hl. destruct Hl as [|s l Hs _]; [done|]. unfold segment in Hs. bools. cbn [path_of].
  destruct s as [|a s]; [done|]. unfold char_free in H0. cbn [all_chars] in H0. bools.
  destruct a as [[] [] [] [] [] [] [] []]; try done.
Qed.

Lemma components_path_of_rel l (dot : bool) :
  Forall (λ s, segment s = true) l →
  path_components (path_of ((if dot then ["."] else []) ++ l)) = (if dot then ["."] else []) ++ l.
Proof.
  intros Hl. destruct dot; cbn [app].
  - cbn [path_of]. destruct l as [|s l]; [done|]. rewrite join_cons. unfold path_components. cbn [starts_with].
    replace (starts_with "/" ("." +:+ "/" +:+ join "/" (s :: l))) with false by reflexivity.
    change ("." +:+ "/" +:+ join "/" (s :: l)) with ("." +:+ String "/" (join "/" (s :: l))).
    rewrite split_char_sep_app. cbn [app]. change (split_char "/" ".") with ["."]. cbn [app].
    unfold bfilter. cbn [List.filter]. cbn [String.eqb]. cbn -[join split_char segment].
    fold (bfilter (λ s, negb (is_empty s) && negb (String.eqb s ".")) (split_char "/" (join "/" (s :: l)))).
    fold (norm_segs (join "/" (s :: l))). by rewrite norm_segs_join.
  - rewrite path_of_segs by done. unfold path_components. rewrite starts_slash_join by done.
    fold (norm_segs (join "/" l)). rewrite norm_segs_join by done. destruct Hl as [|s l Hs Hl]; [done|].
    rewrite (split_char_join "/"); [|done|].
    + assert (String.eqb s "." = false) as ->; [|done]. unfold segment in Hs. by bools.
    + eapply Forall_impl; [exact (Forall_cons_2 _ _ _ Hs Hl)|]. intros x Hx. unfold segment in Hx. by bools.
Qed.

(** Two spellings of one path have the same components. *)
Lemma components_canon p : path_components (canon p) = path_components p.
Proof.
  unfold canon. destruct (starts_with "/" p) eqn:E.
  - rewrite (components_abs p) by done. apply components_path_of_abs, norm_segs_ok.
  - destruct (components_rel p E) as [dot ->]. apply components_path_of_rel, norm_segs_ok.
Qed.

Lemma canon_idem p : canon (canon p) = canon p.
Proof. unfold canon at 1 3. by rewrite components_canon. Qed.

Lemma canon_eq p q : canon p = canon q ↔ path_components p = path_components q.
Proof. split; intros H; [by rewrite <- components_canon, H, components_canon|unfold canon; by rewrite H]. Qed.

(** Joining to an absolute root appends the segments. *)
Lemma join_components root l :
  starts_with "/" root = true → Forall (λ s, segment s = true) l →
  path_components (path_join root (path_of l)) = path_components root ++ l.
Proof.
  intros Hr Hl. rewrite path_of_segs by done. unfold path_join. rewrite starts_slash_join by done.
  destruct (is_empty root) eqn:He; [by destruct root|]. cbn [orb].
  assert (∀ t, starts_with "/" (root +:+ t) = true) as Ha.
  { intros t. apply starts_with_spec in Hr as [u ->]. by apply starts_with_spec; exists (u +:+ t); rewrite str_app_assoc. }
  rewrite (components_abs root) by done. destruct (ends_with "/" root) eqn:Hend.
  - rewrite components_abs by done. cbn [app]. f_equal.
    assert (∃ d, root = d +:+ String "/" "") as [d Hd].
    { unfold ends_with, strip_suffix in Hend. destruct (strip_prefix _ (String.rev root)) as [t|] eqn:E; [|done].
      apply strip_prefix_Some in E. apply (f_equal String.rev) in E. rewrite rev_involutive, rev_app_distr in E. by exists (String.rev t). }
    rewrite Hd, str_app_assoc. rewrite str_app_cons, str_app_nil_l, !norm_segs_app, norm_segs_join by done.
    change (norm_segs "") with (@nil string). by rewrite app_nil_r.
  - change ("/" +:+ join "/" l) with (String "/" (join "/" l)). rewrite components_abs by done. cbn [app]. f_equal.
    by rewrite norm_segs_app, norm_segs_join.
Qed.
