(* ===== verification/PatchParser.v ===== *)
(** * The patch parser (codex/apply_patch/parser.rs)

    A patch is a list of file operations between two marker lines. The parser
    works on lines: it checks the envelope (after taking off a here-document
    wrapper), then takes one operation after the other from the front and counts
    the lines it consumed, for the error messages. [None] is what the code must
    not do: index a slice out of range, which panics, or run a loop out of fuel,
    one unit per line. *)

From Stdlib Require Import Ascii String.
From S2P Require Import Prelude RustStr TrimLemmas.
From stdpp Require Import options.

(** ** Data *)

Definition BEGIN_PATCH_MARKER : string := "*** Begin Patch".
Definition END_PATCH_MARKER : string := "*** End Patch".
Definition ADD_FILE_MARKER : string := "*** Add File: ".
Definition DELETE_FILE_MARKER : string := "*** Delete File: ".
Definition UPDATE_FILE_MARKER : string := "*** Update File: ".
Definition MOVE_TO_MARKER : string := "*** Move to: ".
Definition EOF_MARKER : string := "*** End of File".
Definition CHANGE_CONTEXT_MARKER : string := "@@ ".
Definition EMPTY_CHANGE_CONTEXT_MARKER : string := "@@".
Definition PARSE_IN_STRICT_MODE : bool := false.

Inductive ParseError : Type :=
| InvalidPatchError (message : string)
| InvalidHunkError (message : string) (line_number : nat).

Record UpdateFileChunk : Type := mkChunk {
  change_context : option string;
  old_lines : list string;
  new_lines : list string;
  is_end_of_file : bool;
}.
#[export] Instance settable_UpdateFileChunk : Settable UpdateFileChunk :=
  λ c, mkChunk (change_context c) (old_lines c) (new_lines c) (is_end_of_file c).

Inductive Hunk : Type :=
| AddFile (path contents : string)
| DeleteFile (path : string)
| UpdateFile (path : string) (move_path : option string) (chunks : list UpdateFileChunk).

Record ParsedPatch : Type := mkParsed { hunks : list Hunk; patch : string }.

Inductive ParseMode : Type := Strict | Lenient.

(** [&slice[a..b]] and [&slice[a..]], which panic out of range. *)
Definition slice {A} (a b : nat) (l : list A) : option (list A) :=
  if (a <=? b) && (b <=? length l) then Some (take (b - a) (drop a l)) else None.
Definition slice_from {A} (a : nat) (l : list A) : option (list A) := slice a (length l) l.

(** ** The envelope *)

Definition check_start_and_end_lines_strict (first_line last_line : option string) : result () ParseError :=
  match trim <$> first_line, trim <$> last_line with
  | Some first, Some last =>
      if String.eqb first BEGIN_PATCH_MARKER && String.eqb last END_PATCH_MARKER then Ok ()
      else if negb (String.eqb first BEGIN_PATCH_MARKER)
      then Err (InvalidPatchError "The first line of the patch must be '*** Begin Patch'")
      else Err (InvalidPatchError "The last line of the patch must be '*** End Patch'")
  | Some first, None =>
      if negb (String.eqb first BEGIN_PATCH_MARKER)
      then Err (InvalidPatchError "The first line of the patch must be '*** Begin Patch'")
      else Err (InvalidPatchError "The last line of the patch must be '*** End Patch'")
  | None, _ => Err (InvalidPatchError "The last line of the patch must be '*** End Patch'")
  end.

Definition check_patch_boundaries_strict (ls : list string) : result () ParseError :=
  check_start_and_end_lines_strict (head ls) (last ls).

Definition quote : string := String "034" "".

Definition check_patch_boundaries_lenient (ls : list string) (original_parse_error : ParseError)
    : option (result (list string) ParseError) :=
  match ls, last ls with
  | first :: _ :: _, Some last_line =>
      if (String.eqb first "<<EOF" || String.eqb first "<<'EOF'"
          || String.eqb first ("<<" +:+ quote +:+ "EOF" +:+ quote))
         && ends_with "EOF" last_line && (4 <=? length ls)
      then slice 1 (length ls - 1) ls ≫= λ inner_lines,
           Some (let? _ := check_patch_boundaries_strict inner_lines in Ok inner_lines)
      else Some (Err original_parse_error)
  | _, _ => Some (Err original_parse_error)
  end.

(** ** One chunk of an update *)

Definition NO_LINES : string := "Update hunk does not contain any lines".

Fixpoint chunk_lines (line_number : nat) (ls : list string) (chunk : UpdateFileChunk) (parsed_lines : nat)
    : result (UpdateFileChunk * nat) ParseError :=
  match ls with
  | [] => Ok (chunk, parsed_lines)
  | line :: ls =>
      if String.eqb line EOF_MARKER then
        if Nat.eqb parsed_lines 0 then Err (InvalidHunkError NO_LINES (line_number + 1))
        else Ok (chunk <| is_end_of_file := true |>, parsed_lines + 1)
      else
        match line with
        | "" =>
            chunk_lines line_number ls
              (chunk <| old_lines := old_lines chunk ++ [""] |> <| new_lines := new_lines chunk ++ [""] |>)
              (parsed_lines + 1)
        | String " "%char rest =>
            chunk_lines line_number ls
              (chunk <| old_lines := old_lines chunk ++ [rest] |> <| new_lines := new_lines chunk ++ [rest] |>)
              (parsed_lines + 1)
        | String "+"%char rest =>
            chunk_lines line_number ls (chunk <| new_lines := new_lines chunk ++ [rest] |>) (parsed_lines + 1)
        | String "-"%char rest =>
            chunk_lines line_number ls (chunk <| old_lines := old_lines chunk ++ [rest] |>) (parsed_lines + 1)
        | _ =>
            if Nat.eqb parsed_lines 0
            then Err (InvalidHunkError
                        ("Unexpected line found in update hunk: '" +:+ line +:+ "'. "
                         +:+ "Every line should start with ' ' (context line), "
                         +:+ "'+' (added line), or '-' (removed line)") (line_number + 1))
            else Ok (chunk, parsed_lines)
        end
  end.

Definition parse_update_file_chunk (ls : list string) (line_number : nat) (allow_missing_context : bool)
    : result (UpdateFileChunk * nat) ParseError :=
  match ls with
  | [] => Err (InvalidHunkError NO_LINES line_number)
  | first :: _ =>
      let? (change_context, start_index) :=
        if String.eqb first EMPTY_CHANGE_CONTEXT_MARKER then Ok (None, 1)
        else match strip_prefix CHANGE_CONTEXT_MARKER first with
             | Some context => Ok (Some context, 1)
             | None =>
                 if allow_missing_context then Ok (None, 0)
                 else Err (InvalidHunkError
                             ("Expected update hunk to start with a @@ context marker, got: '" +:+ first +:+ "'")
                             line_number)
             end in
      if length ls <=? start_index then Err (InvalidHunkError NO_LINES (line_number + 1))
      else
        let? (chunk, parsed_lines) :=
          chunk_lines line_number (drop start_index ls) (mkChunk change_context [] [] false) 0 in
        Ok (chunk, parsed_lines + start_index)
  end.

(** ** One file operation *)

Fixpoint add_lines (ls : list string) (contents : string) (parsed_lines : nat) : string * nat :=
  match ls with
  | add_line :: ls =>
      match strip_prefix "+" add_line with
      | Some line_to_add => add_lines ls (contents +:+ line_to_add +:+ nl) (parsed_lines + 1)
      | None => (contents, parsed_lines)
      end
  | [] => (contents, parsed_lines)
  end.

(** The [while] loop over the chunks of an update. *)
Fixpoint update_chunks (fuel : nat) (remaining : list string) (line_number parsed_lines : nat)
    (chunks : list UpdateFileChunk) : option (result (list UpdateFileChunk * nat) ParseError) :=
  match remaining with
  | [] => Some (Ok (chunks, parsed_lines))
  | first :: rest =>
      match fuel with
      | O => None
      | S fuel =>
          if is_empty (trim first) then update_chunks fuel rest line_number (parsed_lines + 1) chunks
          else if starts_with "***" first then Some (Ok (chunks, parsed_lines))
          else match parse_update_file_chunk remaining (line_number + parsed_lines) (is_nil chunks) with
               | Err e => Some (Err e)
               | Ok (chunk, n) =>
                   slice_from n remaining ≫= λ remaining,
                   update_chunks fuel remaining line_number (parsed_lines + n) (chunks ++ [chunk])
               end
      end
  end.

Definition parse_one_hunk (ls : list string) (line_number : nat) : option (result (Hunk * nat) ParseError) :=
  match ls with
  | [] => None
  | first :: rest =>
      let first_line := trim first in
      match strip_prefix ADD_FILE_MARKER first_line with
      | Some path => let '(contents, n) := add_lines rest "" 1 in Some (Ok (AddFile path contents, n))
      | None =>
          match strip_prefix DELETE_FILE_MARKER first_line with
          | Some path => Some (Ok (DeleteFile path, 1))
          | None =>
              match strip_prefix UPDATE_FILE_MARKER first_line with
              | Some path =>
                  let move_path := head rest ≫= strip_prefix MOVE_TO_MARKER in
                  let '(remaining, parsed_lines) :=
                    match move_path with Some _ => (drop 1 rest, 2) | None => (rest, 1) end in
                  update_chunks (length remaining) remaining line_number parsed_lines [] ≫= λ r,
                  Some (let? (chunks, n) := r in
                        if is_nil chunks
                        then Err (InvalidHunkError ("Update file hunk for path '" +:+ path +:+ "' is empty")
                                    line_number)
                        else Ok (UpdateFile path move_path chunks, n))
              | None =>
                  Some (Err (InvalidHunkError
                               ("'" +:+ first_line +:+ "' is not a valid hunk header. Valid hunk headers: "
                                +:+ "'*** Add File: {path}', '*** Delete File: {path}', '*** Update File: {path}'")
                               line_number))
              end
          end
      end
  end.

(** ** The whole patch *)

Fixpoint parse_hunks (fuel : nat) (remaining : list string) (line_number : nat) (acc : list Hunk)
    : option (result (list Hunk) ParseError) :=
  match remaining with
  | [] => Some (Ok acc)
  | _ =>
      match fuel with
      | O => None
      | S fuel =>
          parse_one_hunk remaining line_number ≫= λ r,
          match r with
          | Err e => Some (Err e)
          | Ok (hunk, n) =>
              slice_from n remaining ≫= λ remaining, parse_hunks fuel remaining (line_number + n) (acc ++ [hunk])
          end
      end
  end.

Definition parse_patch_text (patch : string) (mode : ParseMode) : option (result ParsedPatch ParseError) :=
  let ls := lines (trim patch) in
  let checked :=
    match check_patch_boundaries_strict ls with
    | Ok _ => Some (Ok ls)
    | Err e => match mode with Strict => Some (Err e) | Lenient => check_patch_boundaries_lenient ls e end
    end in
  checked ≫= λ r,
  match r with
  | Err e => Some (Err e)
  | Ok ls =>
      slice 1 (length ls - 1) ls ≫= λ remaining,
      parse_hunks (length remaining) remaining 2 [] ≫= λ r,
      Some (let? hs := r in Ok (mkParsed hs (join nl ls)))
  end.

Definition parse_patch (patch : string) : option (result ParsedPatch ParseError) :=
  parse_patch_text patch (if PARSE_IN_STRICT_MODE then Strict else Lenient).

Example parse_sample :
  parse_patch (join nl ["*** Begin Patch"; "*** Add File: a"; "+x"; "*** Update File: b"; "*** Move to: c"; "@@ f"; " k"; "-o"; "+n"; "*** End of File"; "*** End Patch"])
  = Some (Ok (mkParsed [AddFile "a" ("x" +:+ nl); UpdateFile "b" (Some "c") [mkChunk (Some "f") ["k"; "o"] ["k"; "n"] true]]
      (join nl ["*** Begin Patch"; "*** Add File: a"; "+x"; "*** Update File: b"; "*** Move to: c"; "@@ f"; " k"; "-o"; "+n"; "*** End of File"; "*** End Patch"]))).
Proof. vm_compute. reflexivity. Qed.
