(* ===== verification/PatchParserFacts.v ===== *)
(** * The patch parser: totality and round trip

    The parser answers every text, and reads a patch that follows the documented
    format as exactly what it says. *)

From Stdlib Require Import Ascii String.
From S2P Require Import Prelude RustStr TrimLemmas PatchParser.
From stdpp Require Import options.

(** ** Every text is answered *)

Lemma slice_from_le {A} n (l : list A) : n ≤ length l → slice_from n l = Some (drop n l).
Proof.
  intros Hn. unfold slice_from, slice. rewrite (proj2 (Nat.leb_le _ _) Hn), Nat.leb_refl. cbn [andb].
  f_equal. apply take_ge. by rewrite length_drop.
Qed.

Lemma slice_inner {A} (l : list A) : 2 ≤ length l → slice 1 (length l - 1) l = Some (take (length l - 2) (drop 1 l)).
Proof.
  intros Hl. unfold slice. rewrite !(proj2 (Nat.leb_le _ _)) by lia. cbn [andb]. do 2 f_equal. lia.
Qed.

Lemma chunk_lines_count k ls : ∀ c p c' p',
  chunk_lines k ls c p = Ok (c', p') → p ≤ p' ≤ p + length ls ∧ (ls ≠ [] → 1 ≤ p').
Proof.
  induction ls as [|l ls IH]; intros c p c' p'; cbn [chunk_lines].
  { intros [= <- <-]. split; [cbn; lia|done]. }
  assert (∀ d, chunk_lines k ls d (p + 1) = Ok (c', p') → p ≤ p' ≤ p + length (l :: ls) ∧ (l :: ls ≠ [] → 1 ≤ p'))
    as Hrec.
  { intros d Hd. apply IH in Hd as [Hd _]. cbn. split; [lia|]. lia. }
  destruct (String.eqb l EOF_MARKER).
  { destruct p; cbn; [done|]. intros [= <- <-]. split; [lia|]. lia. }
  assert ((if Nat.eqb p 0 then Err (InvalidHunkError
             ("Unexpected line found in update hunk: '" +:+ l +:+ "'. "
                         +:+ "Every line should start with ' ' (context line), "
                         +:+ "'+' (added line), or '-' (removed line)") (k + 1)) else Ok (c, p)) = Ok (c', p')
    → p ≤ p' ≤ p + length (l :: ls) ∧ (l :: ls ≠ [] → 1 ≤ p')) as Hstop.
  { destruct p; cbn; [done|]. intros [= <- <-]. split; [lia|]. lia. }
  destruct l as [|a l]; [apply Hrec|].
  destruct a as [[] [] [] [] [] [] [] []]; first [apply Hstop | apply Hrec].
Qed.

Lemma chunk_count ls k b c n :
  parse_update_file_chunk ls k b = Ok (c, n) → 1 ≤ n ≤ length ls.
Proof.
  unfold parse_update_file_chunk. destruct ls as [|l ls]; [done|].
  assert (∀ ctx i, i ≤ 1 → (if length (l :: ls) <=? i then Err (InvalidHunkError NO_LINES (k + 1))
     else let? (chunk, parsed_lines) := chunk_lines k (drop i (l :: ls)) (mkChunk ctx [] [] false) 0 in
          Ok (chunk, parsed_lines + i)) = Ok (c, n) → 1 ≤ n ≤ length (l :: ls)) as Hrun.
  { intros ctx i Hi. destruct (length (l :: ls) <=? i) eqn:Hle; [done|]. apply Nat.leb_gt in Hle.
    destruct (chunk_lines _ _ _ _) as [[d p]|e] eqn:Hc; cbn [result_bind]; [|done]. intros [= <- <-].
    apply chunk_lines_count in Hc as [Hp Hne]. rewrite length_drop in Hp.
    assert (1 ≤ p); [|lia]. apply Hne. intros H%(f_equal length). rewrite length_drop in H. cbn [length] in *. lia. }
  destruct (String.eqb l EMPTY_CHANGE_CONTEXT_MARKER); [apply Hrun; lia|].
  destruct (strip_prefix _ l); [apply Hrun; lia|]. destruct b; [|done]. apply Hrun. lia.
Qed.

Lemma add_lines_count ls : ∀ s p, p ≤ (add_lines ls s p).2 ≤ p + length ls.
Proof.
  induction ls as [|l ls IH]; intros s p; cbn [add_lines length snd]; [lia|].
  destruct (strip_prefix "+" l) as [x|]; [|cbn [snd]; lia]. specialize (IH (s +:+ x +:+ nl) (p + 1)). lia.
Qed.

(** A loop over the lines: it answers, and stays within them. *)
Definition answers {A} (r : option (result (A * nat) ParseError)) (lo hi : nat) : Prop :=
  match r with
  | None => False
  | Some (Err _) => True
  | Some (Ok (_, n)) => lo ≤ n ≤ hi
  end.

Lemma update_chunks_answers fuel : ∀ ls k p cs,
  length ls ≤ fuel → answers (update_chunks fuel ls k p cs) p (p + length ls).
Proof.
  induction fuel as [|fuel IH]; intros [|l ls] k p cs Hf; cbn [update_chunks length] in *; [cbn; lia|lia|cbn; lia|].
  assert (∀ q (r : option (result (list UpdateFileChunk * nat) ParseError)), answers r (p + q) (p + q + (S (length ls) - q)) → 1 ≤ q ≤ S (length ls) →
    answers r p (p + S (length ls))) as Hmono.
  { intros q [[[]|]|]; cbn; [lia|done|done]. }
  destruct (is_empty _).
  { apply (Hmono 1); [|lia]. replace (S (length ls) - 1) with (length ls) by lia. apply IH. lia. }
  destruct (starts_with _ _); [cbn; lia|].
  destruct (parse_update_file_chunk _ _ _) as [[c n]|e] eqn:Hc; [|done]. apply chunk_count in Hc.
  rewrite slice_from_le by lia. cbn [mbind option_bind]. apply (Hmono n); [|done].
  change (S (length ls)) with (length (l :: ls)). rewrite <- length_drop. apply IH. rewrite length_drop. cbn [length]. lia.
Qed.

Lemma one_hunk_answers ls k : ls ≠ [] → answers (parse_one_hunk ls k) 1 (length ls).
Proof.
  destruct ls as [|l ls]; [done|]. intros _. cbn [parse_one_hunk].
  destruct (strip_prefix ADD_FILE_MARKER _) as [p|].
  { pose proof (add_lines_count ls "" 1) as Hn. destruct (add_lines ls "" 1). cbn in *. lia. }
  destruct (strip_prefix DELETE_FILE_MARKER _); [cbn; lia|].
  destruct (strip_prefix UPDATE_FILE_MARKER _) as [p|]; [|done].
  assert (∀ (r : option (result (list UpdateFileChunk * nat) ParseError)) q mv, answers r q (length (l :: ls)) → 1 ≤ q → answers (r ≫= λ r,
      Some (let? (chunks, n) := r in
            if is_nil chunks then Err (InvalidHunkError ("Update file hunk for path '" +:+ p +:+ "' is empty") k)
            else Ok (UpdateFile p mv chunks, n))) 1 (length (l :: ls))) as Hfin.
  { intros [[[cs n]|]|] q mv; cbn -[length]; [|done..]. intros Hn Hq. destruct (is_nil cs); cbn -[length]; [done|lia]. }
  destruct (head ls ≫= strip_prefix MOVE_TO_MARKER) as [mv|] eqn:Hmv.
  - destruct ls as [|m ls]; [done|]. cbn [drop]. apply (Hfin _ 2); [|lia].
    replace (length (l :: m :: ls)) with (2 + length ls) by (cbn; lia). by apply update_chunks_answers.
  - apply (Hfin _ 1); [|lia]. cbn [length]. by apply update_chunks_answers.
Qed.

Lemma parse_hunks_answers fuel : ∀ ls k acc,
  length ls ≤ fuel → ∃ r, parse_hunks fuel ls k acc = Some r.
Proof.
  induction fuel as [|fuel IH]; intros [|l ls] k acc Hf; cbn [parse_hunks length] in *; try (by eexists); [lia|].
  pose proof (one_hunk_answers (l :: ls) k ltac:(done)) as Ha.
  destruct (parse_one_hunk _ _) as [[[h n]|e]|]; cbn [mbind option_bind] in *; [|by eexists|done].
  cbn [answers] in Ha. rewrite slice_from_le by lia. cbn [mbind option_bind]. apply IH. rewrite length_drop. cbn [length] in *. lia.
Qed.

Lemma boundaries_length ls : check_patch_boundaries_strict ls = Ok () → 2 ≤ length ls.
Proof.
  unfold check_patch_boundaries_strict, check_start_and_end_lines_strict.
  destruct ls as [|a [|b ls]]; cbn [head last fmap option_fmap option_map length]; [done| |lia].
  destruct (String.eqb (trim a) BEGIN_PATCH_MARKER) eqn:E; cbn [andb negb]; [|done].
  apply String.eqb_eq in E as ->. done.
Qed.

Lemma checked_lines_parse ls :
  check_patch_boundaries_strict ls = Ok () →
  ∃ r, (slice 1 (length ls - 1) ls ≫= λ remaining,
        parse_hunks (length remaining) remaining 2 [] ≫= λ r,
        Some (let? hs := r in Ok (mkParsed hs (join nl ls)))) = Some r.
Proof.
  intros Hl%boundaries_length. rewrite slice_inner by done. cbn [mbind option_bind].
  set (body := take _ _). destruct (parse_hunks_answers (length body) body 2 [] ltac:(done)) as [r ->].
  by eexists.
Qed.

Lemma parse_total (text : string) (mode : ParseMode) : ∃ r, parse_patch_text text mode = Some r.
Proof.
  unfold parse_patch_text. destruct (check_patch_boundaries_strict _) as [[]|e] eqn:Hs.
  { cbn [mbind option_bind]. by apply checked_lines_parse. }
  destruct mode; [by eexists|]. unfold check_patch_boundaries_lenient.
  destruct (lines _) as [|a [|b ls]] eqn:Hls; [by eexists..|].
  destruct (last _) as [z|]; [|by eexists].
  destruct ((String.eqb a "<<EOF" || _ || _) && _ && _) eqn:Hw; [|by eexists].
  rewrite slice_inner by (cbn; lia). cbn [mbind option_bind]. set (inner := take _ _).
  destruct (check_patch_boundaries_strict inner) as [[]|e'] eqn:Hi; [|by eexists].
  cbn [result_bind]. by apply checked_lines_parse.
Qed.

(** ** The documented format

    What a patch says, apart from its spelling: every chunk is a sequence of
    kept, removed and inserted lines. *)

Inductive DiffLine : Type :=
| Keep (s : string)
| Remove (s : string)
| Insert (s : string).

Record ChunkText : Type := mkChunkText { ct_context : option string; ct_diff : list DiffLine; ct_eof : bool }.

Inductive HunkText : Type :=
| AddText (path : string) (content : list string)
| DeleteText (path : string)
| UpdateText (path : string) (move : option string) (changes : list ChunkText).

Definition show_line (d : DiffLine) : string :=
  match d with
  | Keep s => " " +:+ s
  | Remove s => "-" +:+ s
  | Insert s => "+" +:+ s
  end.

Definition show_context (c : option string) : string :=
  match c with Some s => "@@ " +:+ s | None => "@@" end.

Definition show_chunk (c : ChunkText) : list string :=
  show_context (ct_context c) :: map show_line (ct_diff c) ++ if ct_eof c then [EOF_MARKER] else [].

Definition show_hunk (h : HunkText) : list string :=
  match h with
  | AddText p ls => (ADD_FILE_MARKER +:+ p) :: map (λ l, "+" +:+ l) ls
  | DeleteText p => [DELETE_FILE_MARKER +:+ p]
  | UpdateText p mv cs =>
      (UPDATE_FILE_MARKER +:+ p) :: map (λ m, MOVE_TO_MARKER +:+ m) (option_list mv) ++ concat (map show_chunk cs)
  end.

Definition show_patch_lines (hs : list HunkText) : list string :=
  BEGIN_PATCH_MARKER :: concat (map show_hunk hs) ++ [END_PATCH_MARKER].
Definition show_patch (hs : list HunkText) : string := join nl (show_patch_lines hs).

(** What the parser should make of it. *)
Definition old_line (d : DiffLine) : list string := match d with Keep s | Remove s => [s] | Insert _ => [] end.
Definition new_line (d : DiffLine) : list string := match d with Keep s | Insert s => [s] | Remove _ => [] end.
Definition olds (ds : list DiffLine) : list string := concat (map old_line ds).
Definition news (ds : list DiffLine) : list string := concat (map new_line ds).

Definition read_chunk (c : ChunkText) : UpdateFileChunk :=
  mkChunk (ct_context c) (olds (ct_diff c)) (news (ct_diff c)) (ct_eof c).

Definition read_hunk (h : HunkText) : Hunk :=
  match h with
  | AddText p ls => AddFile p (unlines ls)
  | DeleteText p => DeleteFile p
  | UpdateText p mv cs => UpdateFile p mv (map read_chunk cs)
  end.

(** What can be written down: a line has no line break in it, a path is not
    blank at its end, and an update changes something. *)
Definition clean (s : string) : bool := char_free newline s && String.eqb (strip_cr s) s.
Definition clean_path (p : string) : bool := clean p && negb (is_empty p) && String.eqb (trim_end p) p.
Definition line_text (d : DiffLine) : string := match d with Keep s | Remove s | Insert s => s end.
Definition clean_chunk (c : ChunkText) : bool :=
  all clean (option_list (ct_context c)) && all (λ d, clean (line_text d)) (ct_diff c) && negb (is_nil (ct_diff c)).
Definition clean_hunk (h : HunkText) : bool :=
  match h with
  | AddText p ls => clean_path p && all clean ls
  | DeleteText p => clean_path p
  | UpdateText p mv cs => clean_path p && all clean (option_list mv) && all clean_chunk cs && negb (is_nil cs)
  end.

(** ** The round trip *)

(** A chunk's lines end at a line that is none of them. *)
Definition stops (ls : list string) : bool :=
  match ls with
  | [] => true
  | l :: _ => negb (String.eqb l EOF_MARKER)
              && match l with String c _ => negb (any (Ascii.eqb c) [" "; "+"; "-"]%char) | "" => false end
  end.

Lemma chunk_lines_stop k ls c p : stops ls = true → 1 ≤ p → chunk_lines k ls c p = Ok (c, p).
Proof.
  intros Hs Hp. destruct ls as [|l ls]; [done|]. cbn [stops chunk_lines] in *. apply andb_true_iff in Hs as [He Hc].
  apply negb_true_iff in He as ->. destruct l as [|a l]; [done|]. destruct p; [lia|]. cbn [Nat.eqb].
  destruct a as [[] [] [] [] [] [] [] []]; first [reflexivity | discriminate Hc].
Qed.

Lemma chunk_lines_diff k ds : ∀ c p tail,
  (1 ≤ p ∨ ds ≠ []) → stops tail = true →
  ∀ eof : bool,
  chunk_lines k (map show_line ds ++ (if eof then [EOF_MARKER] else []) ++ tail) c p
  = Ok (mkChunk (change_context c) (old_lines c ++ olds ds) (new_lines c ++ news ds) (eof || is_end_of_file c),
        p + length ds + if eof then 1 else 0).
Proof.
  induction ds as [|d ds IH]; intros c p tail Hp Hs eof.
  - cbn [map app olds news concat length]. destruct Hp as [Hp|]; [|done]. rewrite !app_nil_r, Nat.add_0_r. destruct eof.
    + cbn [app chunk_lines]. rewrite String.eqb_refl. destruct p; [lia|]. cbn [Nat.eqb orb]. by destruct c.
    + cbn [app]. rewrite chunk_lines_stop by done. cbn [orb]. destruct c. by rewrite Nat.add_0_r.
  - assert (∀ c', change_context c' = change_context c → is_end_of_file c' = is_end_of_file c →
      old_lines c' = old_lines c ++ old_line d → new_lines c' = new_lines c ++ new_line d →
      chunk_lines k (map show_line ds ++ (if eof then [EOF_MARKER] else []) ++ tail) c' (p + 1)
      = Ok (mkChunk (change_context c) (old_lines c ++ olds (d :: ds)) (new_lines c ++ news (d :: ds))
              (eof || is_end_of_file c), p + length (d :: ds) + if eof then 1 else 0)) as Hrec.
    { intros c' H1 H2 H3 H4. rewrite IH by (lia || done). rewrite H1, H2, H3, H4. unfold olds, news.
      cbn [map concat length]. rewrite <- !app_assoc. do 2 f_equal. lia. }
    destruct d as [s|s|s]; cbn [map show_line app]; rewrite str_app_cons, str_app_nil_l; cbn [chunk_lines];
      (destruct (String.eqb (String _ s) EOF_MARKER) eqn:E; [by apply String.eqb_eq in E|]);
      apply Hrec; cbn; by rewrite ?app_nil_r.
Qed.

Lemma chunk_read c tail k b :
  clean_chunk c = true → stops tail = true →
  parse_update_file_chunk (show_chunk c ++ tail) k b = Ok (read_chunk c, length (show_chunk c)).
Proof.
  intros Hc Hs. unfold clean_chunk in Hc. bools.
  assert (ct_diff c ≠ []) as Hne by (intros E; rewrite E in *; done).
  assert (∀ ctx first, first = show_context (ct_context c) → ctx = ct_context c →
    (if length (first :: map show_line (ct_diff c) ++ (if ct_eof c then [EOF_MARKER] else []) ++ tail) <=? 1
     then Err (InvalidHunkError NO_LINES (k + 1))
     else let? (chunk, n) := chunk_lines k (drop 1 (first :: map show_line (ct_diff c)
                 ++ (if ct_eof c then [EOF_MARKER] else []) ++ tail)) (mkChunk ctx [] [] false) 0 in Ok (chunk, n + 1))
    = Ok (read_chunk c, length (show_chunk c))) as Hrun.
  { intros ctx first -> ->. destruct (_ <=? 1) eqn:Hl.
    { apply Nat.leb_le in Hl. destruct (ct_diff c); [done|]. cbn in Hl. lia. }
    cbn [skipn]. rewrite drop_0, chunk_lines_diff by auto. cbn [result_bind]. unfold read_chunk, show_chunk. cbn.
    rewrite orb_false_r, length_app, length_map. destruct (ct_eof c); cbn; do 2 f_equal; lia. }
  unfold show_chunk at 1, parse_update_file_chunk. cbn [app]. rewrite <- app_assoc.
  destruct (ct_context c) as [s|] eqn:Hctx; cbn [show_context] in *.
  - change (String.eqb ("@@ " +:+ s) EMPTY_CHANGE_CONTEXT_MARKER) with false. cbn iota.
    change "@@ " with CHANGE_CONTEXT_MARKER at 1. rewrite strip_prefix_app. by apply Hrun.
  - by apply (Hrun None).
Qed.

Lemma stops_context c ls : stops (show_context c :: ls) = true.
Proof. destruct c as [s|]; reflexivity. Qed.

Lemma update_chunks_end fuel tail k p cs :
  (∀ l ls, tail = l :: ls → is_empty (trim l) = false ∧ starts_with "***" l = true) →
  length tail ≤ fuel → update_chunks fuel tail k p cs = Some (Ok (cs, p)).
Proof.
  intros Ht Hf. destruct tail as [|l ls]; [by destruct fuel|]. destruct fuel; [cbn in Hf; lia|].
  destruct (Ht l ls eq_refl) as [He Hst]. cbn [update_chunks]. by rewrite He, Hst.
Qed.

(** A header line starts like a marker and is none of a chunk's lines. *)
Definition headed (ls : list string) : Prop :=
  ∀ l rest, ls = l :: rest → is_empty (trim l) = false ∧ starts_with "***" l = true
                             ∧ stops ls = true ∧ starts_with "+" l = false.

Lemma trim_start_context c : trim_start (show_context c) = show_context c.
Proof. destruct c as [s|]; reflexivity. Qed.

Lemma trim_end_app p s :
  no_overlap_bytes rev_white_space (String.rev p) = true → trim_end s = s → s ≠ "" →
  trim_end (p +:+ s) = p +:+ s.
Proof.
  intros Hp Hs Hne. rewrite trim_end_eq in *. rewrite rev_app_distr, drop_front_app;
    auto using rev_white_space_ne, rev_white_space_free.
  apply (f_equal String.rev) in Hs. rewrite rev_involutive in Hs. rewrite Hs.
  destruct (String.rev s) as [|a t] eqn:E; [by apply rev_nil in E|]. cbn [is_empty].
  by rewrite <- E, <- rev_app_distr, rev_involutive.
Qed.

Lemma trim_start_many ws : Forall (λ w, w ∈ white_space) ws → trim_start (foldr String.append "" ws) = "".
Proof. induction 1 as [|w ws Hw _ IH]; [done|]. cbn [foldr]. by rewrite trim_start_ws. Qed.

Lemma visible_line s : trim_start s = s → s ≠ "" → is_empty (trim s) = false.
Proof.
  intros Hs Hne. unfold trim. rewrite Hs. destruct (trim_end s) as [|c t] eqn:E; [|done].
  destruct (trim_end_split s) as (ws & Hw & Hall). rewrite E, str_app_nil_l in Hw.
  destruct Hne. by rewrite <- Hs, Hw, trim_start_many.
Qed.

Lemma headed_stops ls : headed ls → stops ls = true.
Proof. intros H. destruct ls as [|l ls]; [done|]. by destruct (H l ls eq_refl) as (_ & _ & ? & _). Qed.

Lemma chunks_stop cs tail : headed tail → stops (concat (map show_chunk cs) ++ tail) = true.
Proof. intros Ht. destruct cs as [|c cs]; [by apply headed_stops|]. apply stops_context. Qed.

Lemma update_chunks_read cs : ∀ fuel tail k p acc,
  all clean_chunk cs = true → headed tail → length (concat (map show_chunk cs) ++ tail) ≤ fuel →
  update_chunks fuel (concat (map show_chunk cs) ++ tail) k p acc
  = Some (Ok (acc ++ map read_chunk cs, p + length (concat (map show_chunk cs)))).
Proof.
  induction cs as [|c cs IH]; intros fuel tail k p acc Hc Ht Hf.
  { cbn in *. rewrite app_nil_r, Nat.add_0_r. apply update_chunks_end; [|done]. intros l ls H. by destruct (Ht l ls H) as (? & ? & _). }
  cbn [map concat] in *. rewrite <- app_assoc in *. rewrite length_app in *. cbn [all forallb] in Hc.
  apply andb_true_iff in Hc as [Hc Hcs].
  pose proof (chunk_read c (concat (map show_chunk cs) ++ tail) (k + p) (is_nil acc) Hc (chunks_stop cs tail Ht)) as Hr.
  remember (show_chunk c) as ls eqn:Hls. destruct ls as [|l ls]; [done|].
  destruct fuel as [|fuel]; [cbn in Hf; lia|]. cbn [app update_chunks].
  assert (l = show_context (ct_context c)) as -> by (unfold show_chunk in Hls; congruence).
  rewrite visible_line; [|apply trim_start_context|by destruct (ct_context c)].
  replace (starts_with "***" _) with false by (by destruct (ct_context c)).
  cbn [app] in Hr. rewrite Hr, slice_from_le; [|cbn; rewrite length_app; lia]. cbn [mbind option_bind].
  change (show_context (ct_context c) :: ls ++ ?t) with ((show_context (ct_context c) :: ls) ++ t).
  rewrite drop_app_length, IH; [|done..|cbn in Hf; lia]. by rewrite <- app_assoc, Nat.add_assoc.
Qed.

Lemma add_lines_read ls tail : ∀ s p,
  (∀ l rest, tail = l :: rest → starts_with "+" l = false) →
  add_lines (map (λ l, "+" +:+ l) ls ++ tail) s p = (s +:+ unlines ls, p + length ls).
Proof.
  induction ls as [|l ls IH]; intros s p Ht.
  - cbn [map app unlines foldr length]. rewrite str_app_nil_r, Nat.add_0_r. destruct tail as [|t tail]; [done|].
    cbn [add_lines]. specialize (Ht t tail eq_refl). unfold starts_with in Ht. by destruct (strip_prefix "+" t).
  - cbn [map app add_lines]. rewrite strip_prefix_app, IH by done. cbn [unlines foldr length].
    rewrite !str_app_assoc. f_equal. lia.
Qed.

Lemma clean_path_trim m p :
  clean_path p = true → no_overlap_bytes rev_white_space (String.rev m) = true →
  trim_start (m +:+ p) = m +:+ p → trim (m +:+ p) = m +:+ p.
Proof.
  intros Hp Hm Hs. unfold clean_path in Hp. bools. unfold trim. rewrite Hs. apply trim_end_app; [done| |].
  - by apply String.eqb_eq.
  - by intros ->.
Qed.

Lemma hunk_headed h tail : clean_hunk h = true → headed (show_hunk h ++ tail).
Proof.
  intros _ l rest. destruct h as [p ls|p|p mv cs]; cbn [show_hunk app]; intros [= <- _].
  all: split; [by apply visible_line|]; by split_and!.
Qed.

Lemma hunks_headed hs : all clean_hunk hs = true → headed (concat (map show_hunk hs)).
Proof.
  destruct hs as [|h hs]; cbn [map concat all forallb]; [done|]. intros [Hh _]%andb_true_iff. by apply hunk_headed.
Qed.

Lemma one_hunk_read h tail k :
  clean_hunk h = true → headed tail →
  parse_one_hunk (show_hunk h ++ tail) k = Some (Ok (read_hunk h, length (show_hunk h))).
Proof.
  intros Hh Ht. destruct h as [p ls|p|p mv cs]; cbn [clean_hunk] in Hh; bools; cbn [show_hunk app parse_one_hunk].
  - rewrite clean_path_trim, strip_prefix_app, add_lines_read by
      (try done; intros l rest ->; by destruct (Ht l rest eq_refl) as (_ & _ & _ & ?)).
    rewrite str_app_nil_l. cbn [length]. by rewrite length_map.
  - rewrite clean_path_trim by done.
    change (strip_prefix ADD_FILE_MARKER (DELETE_FILE_MARKER +:+ p)) with (@None string). by rewrite strip_prefix_app.
  - rewrite clean_path_trim by done.
    change (strip_prefix ADD_FILE_MARKER (UPDATE_FILE_MARKER +:+ p)) with (@None string).
    change (strip_prefix DELETE_FILE_MARKER (UPDATE_FILE_MARKER +:+ p)) with (@None string). rewrite strip_prefix_app.
    rewrite <- app_assoc. destruct mv as [m|].
    + change (map _ (option_list _) ++ ?r) with ((MOVE_TO_MARKER +:+ m) :: r). cbn [hd_error mbind option_bind].
      rewrite strip_prefix_app. cbn [skipn app]. rewrite drop_0, update_chunks_read by done. cbn [mbind option_bind result_bind app].
      by destruct cs.
    + change (map _ (option_list _) ++ ?r) with r. destruct cs as [|c cs]; [done|]. set (rest := concat _ ++ tail).
      replace (head rest ≫= strip_prefix MOVE_TO_MARKER) with (@None string) by (by destruct c as [[s|] ? ?]).
      unfold rest. by rewrite update_chunks_read.
Qed.

Lemma parse_hunks_read hs : ∀ fuel k acc,
  all clean_hunk hs = true → length (concat (map show_hunk hs)) ≤ fuel →
  parse_hunks fuel (concat (map show_hunk hs)) k acc = Some (Ok (acc ++ map read_hunk hs)).
Proof.
  induction hs as [|h hs IH]; intros fuel k acc Hc Hf; cbn [map concat].
  { rewrite app_nil_r. by destruct fuel. }
  cbn [all forallb] in Hc. apply andb_true_iff in Hc as [Hh Hhs]. cbn [map concat] in Hf. rewrite length_app in Hf.
  pose proof (one_hunk_read h (concat (map show_hunk hs)) k Hh (hunks_headed hs Hhs)) as Hr.
  assert (∃ l ls, show_hunk h = l :: ls) as (l & ls & Hl) by (destruct h; eauto). rewrite Hl in *. cbn [app length] in *.
  destruct fuel as [|fuel]; [lia|]. cbn [parse_hunks]. rewrite Hr. cbn [mbind option_bind].
  rewrite slice_from_le by (cbn; rewrite length_app; lia). cbn [mbind option_bind skipn].
  rewrite drop_app_length, IH; [|done|lia]. by rewrite <- app_assoc.
Qed.

(** *** From the text to its lines *)

Lemma lines_join ls :
  ls ≠ [] → Forall (λ l, clean l = true) ls → (∀ l, last ls = Some l → l ≠ "") → lines (join nl ls) = ls.
Proof.
  intros Hne Hall Hlast. unfold lines, nl. rewrite split_char_join; [|done|].
  - destruct (exists_last Hne) as (init & l & ->). rewrite finish_lines_app. rewrite last_snoc in Hlast.
    specialize (Hlast l eq_refl). destruct l as [|c l]; [done|]. cbn [is_empty]. f_equal.
    apply Forall_app in Hall as [Hall _]. rewrite <- (map_id init) at 2. apply map_ext_in. intros x Hx%list_elem_of_In.
    rewrite Forall_forall in Hall. specialize (Hall x Hx). unfold clean in Hall. bools. by apply String.eqb_eq.
  - eapply Forall_impl; [exact Hall|]. intros x Hx. unfold clean in Hx. by bools.
Qed.

Lemma strip_cr_app p s : strip_cr p = p → strip_cr s = s → strip_cr (p +:+ s) = p +:+ s.
Proof.
  unfold strip_cr, strip_suffix. rewrite rev_app_distr. intros Hp Hs.
  destruct (String.rev s) as [|c t] eqn:E; [by rewrite str_app_nil_l; apply rev_nil in E as ->; rewrite str_app_nil_r|].
  rewrite str_app_cons. cbn [strip_prefix String.rev String.rev_app] in *.
  change (String.rev (String carriage "")) with (String carriage "") in *. cbn [strip_prefix] in *.
  destruct (Ascii.eqb carriage c) eqn:Hc; [|done]. cbn [option_map fmap option_fmap] in *. apply Ascii.eqb_eq in Hc as <-.
  exfalso. apply (f_equal String.rev) in E. rewrite rev_involutive in E.
  rewrite E, rev_cons in Hs. apply (f_equal String.length) in Hs. rewrite str_length_app in Hs. cbn in Hs. lia.
Qed.

Lemma clean_app p s : clean p = true → clean s = true → clean (p +:+ s) = true.
Proof.
  unfold clean, char_free. intros Hp Hs. bools. apply String.eqb_eq in H0, H2. rewrite all_chars_app, H, H1.
  cbn [andb]. apply String.eqb_eq. by apply strip_cr_app.
Qed.

Lemma show_hunk_clean h : clean_hunk h = true → Forall (λ l, clean l = true) (show_hunk h).
Proof.
  assert (∀ c, clean_chunk c = true → Forall (λ l, clean l = true) (show_chunk c)) as Hchunk.
  { intros [ctx ds eof]. unfold clean_chunk, show_chunk. cbn. intros Hc. bools. constructor.
    - destruct ctx as [s|]; [|done]. cbn in H |- *. bools. by apply clean_app.
    - apply Forall_app. split; [|by destruct eof; repeat constructor]. apply Forall_fmap, Forall_forall. intros d Hd.
      rewrite all_spec in H1. specialize (H1 d Hd). by destruct d; apply clean_app. }
  destruct h as [p ls|p|p mv cs]; cbn [clean_hunk show_hunk]; intros Hh; unfold clean_path in Hh; bools.
  - constructor; [by apply clean_app|]. apply Forall_fmap, Forall_forall. intros l Hl. rewrite all_spec in H0.
    apply clean_app; [done|]. by apply H0.
  - constructor; [by apply clean_app|constructor].
  - constructor; [by apply clean_app|]. apply Forall_app. split.
    + destruct mv as [m|]; [|constructor]. cbn in *. bools. constructor; [by apply clean_app|constructor].
    + rewrite Forall_concat. apply Forall_fmap, Forall_forall. intros c Hc. apply Hchunk.
      match goal with H : all clean_chunk cs = true |- _ => rewrite all_spec in H; by apply H end.
Qed.

Lemma join_last l y : ∃ s, join nl (l ++ [y]) = s +:+ y.
Proof.
  induction l as [|x l (s & IH)]; [by exists ""|]. exists (x +:+ nl +:+ s). rewrite !str_app_assoc, <- IH.
  destruct l; apply join_cons.
Qed.

Lemma join_first x l : ∃ t, join nl (x :: l) = x +:+ t.
Proof. destruct l as [|y l]; [exists ""; by rewrite str_app_nil_r|]. exists (nl +:+ join nl (y :: l)). apply join_cons. Qed.

Lemma trim_envelope x y l :
  (∀ t, trim_start (x +:+ t) = x +:+ t) → (∀ s, trim_end (s +:+ y) = s +:+ y) →
  trim (join nl (x :: l ++ [y])) = join nl (x :: l ++ [y]).
Proof.
  intros Hx Hy. unfold trim. destruct (join_first x (l ++ [y])) as [t Ht]. rewrite Ht, Hx, <- Ht.
  destruct (join_last (x :: l) y) as [s Hs]. cbn [app] in Hs. by rewrite Hs, Hy.
Qed.

Lemma trim_end_visible s y :
  find_prefix rev_white_space (String.rev y +:+ String.rev s) = None → trim_end (s +:+ y) = s +:+ y.
Proof. intros Hf. by rewrite trim_end_eq, rev_app_distr, drop_front_stop, <- rev_app_distr, rev_involutive. Qed.

Lemma envelope_lines x y l :
  (∀ t, trim_start (x +:+ t) = x +:+ t) → (∀ s, trim_end (s +:+ y) = s +:+ y) → y ≠ "" →
  Forall (λ l, clean l = true) (x :: l ++ [y]) → lines (trim (join nl (x :: l ++ [y]))) = x :: l ++ [y].
Proof.
  intros Hx Hy Hne Hall. rewrite trim_envelope by done. apply lines_join; [done..|].
  intros z. rewrite app_comm_cons, last_snoc. by intros [= <-].
Qed.

Lemma show_patch_clean hs : all clean_hunk hs = true → Forall (λ l, clean l = true) (show_patch_lines hs).
Proof.
  intros Hhs. constructor; [done|]. apply Forall_app. split; [|by repeat constructor]. rewrite Forall_concat.
  apply Forall_fmap, Forall_forall. intros h Hh. apply show_hunk_clean. rewrite all_spec in Hhs. by apply Hhs.
Qed.

Lemma slice_between {A} (x y : A) l : slice 1 (length (x :: l ++ [y]) - 1) (x :: l ++ [y]) = Some l.
Proof.
  assert (length (x :: l ++ [y]) = 2 + length l) as Hl by (cbn; rewrite length_app; cbn; lia).
  rewrite slice_inner by lia. rewrite Hl. replace (2 + length l - 2) with (length l) by lia.
  cbn [skipn]. by rewrite drop_0, take_app_length.
Qed.

Lemma shown_lines_parse hs :
  all clean_hunk hs = true →
  (slice 1 (length (show_patch_lines hs) - 1) (show_patch_lines hs) ≫= λ remaining,
   parse_hunks (length remaining) remaining 2 [] ≫= λ r,
   Some (let? hs' := r in Ok (mkParsed hs' (join nl (show_patch_lines hs)))))
  = Some (Ok (mkParsed (map read_hunk hs) (show_patch hs))).
Proof.
  intros Hhs. pose proof (slice_between BEGIN_PATCH_MARKER END_PATCH_MARKER (concat (map show_hunk hs))) as Hs.
  fold (show_patch_lines hs) in Hs. rewrite Hs. cbn [mbind option_bind].
  by rewrite parse_hunks_read.
Qed.

Lemma lenient_unwraps x y l e :
  x ∈ ["<<EOF"; "<<'EOF'"; "<<" +:+ quote +:+ "EOF" +:+ quote] → ends_with "EOF" y = true → 2 ≤ length l →
  check_patch_boundaries_strict l = Ok () → check_patch_boundaries_lenient (x :: l ++ [y]) e = Some (Ok l).
Proof.
  intros Hx Hy Hl Hs. destruct l as [|b l]; [cbn in Hl; lia|]. unfold check_patch_boundaries_lenient.
  pose proof (slice_between x y (b :: l)) as Hsl. cbn [app] in *. rewrite Hsl.
  assert (last (x :: b :: l ++ [y]) = Some y) as -> by (rewrite !app_comm_cons; apply last_snoc).
  assert ((4 <=? length (x :: b :: l ++ [y])) = true) as ->.
  { apply Nat.leb_le. cbn in *. rewrite length_app. cbn. lia. }
  rewrite Hy. cbn [mbind option_bind]. rewrite Hs.
  rewrite !elem_of_cons in Hx. by destruct Hx as [->|[->|[->|?%elem_of_nil]]].
Qed.

(** C31: A patch that is written down as the parser takes it is read as what it
    says. Take any list of file operations - added files, deletions, updates with
    their moves, context lines, kept, removed and inserted lines and end-of-file
    markers - in which ([clean_hunk]) no path, context or line holds a line break
    or ends in a carriage return, a path is not empty and has no blanks at its
    end, every update has at least one chunk, and every chunk its own @@ line, at
    most one context, and at least one changed or kept line. The parser returns
    exactly these operations, each chunk split into its old and its new lines in
    order; blank space around the patch and a here-document wrapper make no
    difference. (The grammar in the source's header is wider: a pure rename and
    several @@ lines in a row are in it and are refused,
    [pure_rename_is_refused] and [stacked_contexts_are_refused].) *)
Theorem written_patch_is_read (hs : list HunkText) (before after : list string) (opening : string) :
  all clean_hunk hs = true →
  Forall (λ w, w ∈ white_space) before → Forall (λ w, w ∈ white_space) after →
  opening ∈ ["<<EOF"; "<<'EOF'"; "<<" +:+ quote +:+ "EOF" +:+ quote] →
  let read := Some (Ok (mkParsed (map read_hunk hs) (show_patch hs))) in
  parse_patch (foldr String.append "" before +:+ show_patch hs +:+ foldr String.append "" after) = read
  ∧ parse_patch (join nl (opening :: show_patch_lines hs ++ ["EOF"])) = read.
Proof.
  intros Hhs Hb Ha Ho. pose proof (show_patch_clean hs Hhs) as Hclean.
  assert (check_patch_boundaries_strict (show_patch_lines hs) = Ok ()) as Hcheck.
  { unfold check_patch_boundaries_strict, show_patch_lines. by rewrite app_comm_cons, last_snoc. }
  split; unfold parse_patch, parse_patch_text; cbn [PARSE_IN_STRICT_MODE].
  - rewrite trim_ws_many_l, trim_ws_many_r by done.
    assert (lines (trim (show_patch hs)) = show_patch_lines hs) as ->.
    { apply envelope_lines; [done|intros s; by apply trim_end_visible|done|done]. }
    rewrite Hcheck. cbn [mbind option_bind]. by apply shown_lines_parse.
  - rewrite envelope_lines.
    2: { intros t. rewrite !elem_of_cons in Ho. by destruct Ho as [->|[->|[->|?%elem_of_nil]]]. }
    2: { intros s. by apply trim_end_visible. }
    2: done.
    2: { constructor; [|by apply Forall_app; split; [|repeat constructor]].
         rewrite !elem_of_cons in Ho. by destruct Ho as [->|[->|[->|?%elem_of_nil]]]. }
    assert (check_patch_boundaries_strict (opening :: show_patch_lines hs ++ ["EOF"])
            = Err (InvalidPatchError "The first line of the patch must be '*** Begin Patch'")) as ->.
    { unfold check_patch_boundaries_strict. rewrite app_comm_cons, last_snoc.
      rewrite !elem_of_cons in Ho. by destruct Ho as [->|[->|[->|?%elem_of_nil]]]. }
    assert (check_patch_boundaries_lenient (opening :: show_patch_lines hs ++ ["EOF"])
       (InvalidPatchError "The first line of the patch must be '*** Begin Patch'") = Some (Ok (show_patch_lines hs))) as ->.
    { apply lenient_unwraps; [done|done| |done]. cbn. rewrite length_app. cbn. lia. }
    cbn [mbind option_bind]. by apply shown_lines_parse.
Qed.

Definition sample_hunks : list HunkText :=
  [AddText "a.txt" ["x"; ""]; DeleteText "b c.txt";
   UpdateText "d.rs" (Some "e.rs") [mkChunkText (Some "fn f") [Keep "k"; Remove "*** End of File"; Insert ""] false;
                                    mkChunkText None [Insert "last"] true]].

Lemma written_patch_is_read_witness :
  parse_patch (foldr String.append "" [nl; " "] +:+ show_patch sample_hunks +:+ foldr String.append "" [nl])
    = Some (Ok (mkParsed (map read_hunk sample_hunks) (show_patch sample_hunks)))
  ∧ parse_patch (join nl ("<<EOF" :: show_patch_lines sample_hunks ++ ["EOF"]))
    = Some (Ok (mkParsed (map read_hunk sample_hunks) (show_patch sample_hunks))).
Proof.
  apply (written_patch_is_read sample_hunks [nl; " "] [nl] "<<EOF").
  - vm_compute. reflexivity.
  - apply Forall_forall. intros w Hw. apply contains_spec. revert Hw. rewrite !elem_of_cons, elem_of_nil.
    intros [->|[->|[]]]; vm_compute; reflexivity.
  - apply Forall_singleton. apply contains_spec. vm_compute. reflexivity.
  - left.
Defined.

(** ** Blind spots *)

(** The tool's description tells the model to narrow a chunk down with several
    [@@] lines in a row; the parser refuses the second one. *)
Lemma stacked_contexts_are_refused :
  parse_patch (join nl ["*** Begin Patch"; "*** Update File: a.py"; "@@ class BaseClass"; "@@ def method():"; "-x"; "+y"; "*** End Patch"])
  = Some (Err (InvalidHunkError
      ("Unexpected line found in update hunk: '@@ def method():'. Every line should start with ' ' (context line), "
       +:+ "'+' (added line), or '-' (removed line)") 4)).
Proof. vm_compute. reflexivity. Qed.

(** The grammar allows an update that only moves its file; the parser does not. *)
Lemma pure_rename_is_refused :
  parse_patch (join nl ["*** Begin Patch"; "*** Update File: a.py"; "*** Move to: b.py"; "*** End Patch"])
  = Some (Err (InvalidHunkError "Update file hunk for path 'a.py' is empty" 2)).
Proof. vm_compute. reflexivity. Qed.

(** The line an error names is counted from the chunk's [@@] line also when
    there is none: the third line is at fault, the fourth is named. *)
Lemma missing_context_shifts_the_line :
  parse_patch (join nl ["*** Begin Patch"; "*** Update File: a.py"; "x = 1"; "*** End Patch"])
  = Some (Err (InvalidHunkError
      ("Unexpected line found in update hunk: 'x = 1'. Every line should start with ' ' (context line), "
       +:+ "'+' (added line), or '-' (removed line)") 4)).
Proof. vm_compute. reflexivity. Qed.
