(* ===== verification/PatchApply.v ===== *)
(** * Applying a patch to a file's text (codex/apply_patch/seek_sequence.rs, apply.rs)

    A chunk names lines to find and lines to put in their place. The matcher
    tries four readings of "the same line", from exact to forgiving; the chunks
    are turned into replacements (start, number of old lines, new lines), sorted,
    and carried out from the last to the first. *)

From Stdlib Require Import Ascii String.
From S2P Require Import Prelude RustStr TrimLemmas PatchParser.
From stdpp Require Import options.

(** ** The matcher *)

(** The characters [normalise] maps to ASCII, by their UTF-8 encodings. *)
Definition punctuation : list (string * ascii) :=
  Eval vm_compute in
  map (λ e, (byte_str e, "-"%char))
    [[226; 128; 144]; [226; 128; 145]; [226; 128; 146]; [226; 128; 147]; [226; 128; 148]; [226; 128; 149];
     [226; 136; 146]]
  ++ map (λ e, (byte_str e, "'"%char)) [[226; 128; 152]; [226; 128; 153]; [226; 128; 154]; [226; 128; 155]]
  ++ map (λ e, (byte_str e, "034"%char)) [[226; 128; 156]; [226; 128; 157]; [226; 128; 158]; [226; 128; 159]]
  ++ map (λ e, (byte_str e, " "%char))
    [[194; 160]; [226; 128; 130]; [226; 128; 131]; [226; 128; 132]; [226; 128; 133]; [226; 128; 134];
     [226; 128; 135]; [226; 128; 136]; [226; 128; 137]; [226; 128; 138]; [226; 128; 175]; [226; 129; 159];
     [227; 128; 128]].

(** [chars().map(..).collect()]; [skip] counts the bytes left of a character
    that has been mapped. *)
Fixpoint map_punctuation (skip : nat) (s : string) : string :=
  match s with
  | EmptyString => EmptyString
  | String b s' =>
      match skip with
      | S k => map_punctuation k s'
      | O => match List.find (λ e, starts_with e.1 s) punctuation with
             | Some (w, c) => String c (map_punctuation (String.length w - 1) s')
             | None => String b (map_punctuation 0 s')
             end
      end
  end.

Definition normalise (s : string) : string := map_punctuation 0 (trim s).

(** The four readings of "the same line", in the order they are tried. *)
Definition readings : list (string → string) := [λ s, s; trim_end; trim; normalise].

(** The block at position [i] against the pattern, line by line. *)
Fixpoint block_matches (read : string → string) (ls pattern : list string) {struct pattern} : bool :=
  match pattern, ls with
  | [], _ => true
  | p :: pattern, l :: ls => String.eqb (read l) (read p) && block_matches read ls pattern
  | _ :: _, [] => false
  end.

(** One pass: the first position from [start] on where the block matches. *)
Definition find_block (read : string → string) (ls pattern : list string) (start : nat) : option nat :=
  List.find (λ i, block_matches read (drop i ls) pattern) (seq start (length ls - length pattern + 1 - start)).

Fixpoint first_pass (rs : list (string → string)) (ls pattern : list string) (start : nat) : option nat :=
  match rs with
  | [] => None
  | read :: rs =>
      match find_block read ls pattern start with
      | Some i => Some i
      | None => first_pass rs ls pattern start
      end
  end.

Definition seek_sequence (ls pattern : list string) (start : nat) (eof : bool) : option nat :=
  if is_nil pattern then Some start
  else if length ls <? length pattern then None
  else
    let search_start := if eof && (length pattern <=? length ls) then length ls - length pattern else start in
    first_pass readings ls pattern search_start.

(** ** From chunks to replacements *)

Inductive ApplyPatchError : Type :=
| Parse (e : ParseError)
| ComputeReplacements (message : string)
| Io (context message : string) (path : option string).

Definition Replacement : Type := nat * nat * list string.

Definition not_found_context (ctx path : string) : string :=
  "Failed to find context '" +:+ ctx +:+ "' in " +:+ path.
Definition not_found_lines (path : string) (old : list string) : string :=
  "Failed to find expected lines in " +:+ path +:+ ":" +:+ nl +:+ join nl old.

Definition ends_blank (ls : list string) : bool :=
  match last ls with Some l => is_empty l | None => false end.

(** Where a chunk's old lines are: the start, how many lines of the file they
    cover, and what replaces them. A trailing blank line of the pattern is given
    up when the whole pattern is not found. *)
Definition locate (c : UpdateFileChunk) (ls : list string) (line_index : nat) : option Replacement :=
  match seek_sequence ls (old_lines c) line_index (is_end_of_file c) with
  | Some i => Some (i, length (old_lines c), new_lines c)
  | None =>
      if ends_blank (old_lines c) then
        let pattern := removelast (old_lines c) in
        let new_slice := if ends_blank (new_lines c) then removelast (new_lines c) else new_lines c in
        match seek_sequence ls pattern line_index (is_end_of_file c) with
        | Some i => Some (i, length pattern, new_slice)
        | None => None
        end
      else None
  end.

Definition find_context (c : UpdateFileChunk) (path : string) (ls : list string) (line_index : nat)
    : result nat ApplyPatchError :=
  match change_context c with
  | None => Ok line_index
  | Some ctx =>
      match seek_sequence ls [ctx] line_index false with
      | Some idx => Ok (idx + 1)
      | None => Err (ComputeReplacements (not_found_context ctx path))
      end
  end.

Fixpoint replacements_go (ls : list string) (path : string) (chunks : list UpdateFileChunk) (line_index : nat)
    (acc : list Replacement) : result (list Replacement) ApplyPatchError :=
  match chunks with
  | [] => Ok acc
  | c :: chunks =>
      let? line_index := find_context c path ls line_index in
      if is_nil (old_lines c) then
        let insertion_idx := if ends_blank ls then length ls - 1 else length ls in
        replacements_go ls path chunks line_index (acc ++ [(insertion_idx, 0, new_lines c)])
      else
        match locate c ls line_index with
        | Some (start_idx, n, new) =>
            replacements_go ls path chunks (start_idx + n) (acc ++ [(start_idx, n, new)])
        | None => Err (ComputeReplacements (not_found_lines path (old_lines c)))
        end
  end.

Definition starts_before (a b : Replacement) : Prop := (a.1.1 ≤ b.1.1)%nat.
#[export] Instance starts_before_dec : RelDecision starts_before.
Proof. intros a b. unfold starts_before. apply _. Defined.

Definition compute_replacements (original_lines : list string) (path : string) (chunks : list UpdateFileChunk)
    : result (list Replacement) ApplyPatchError :=
  let? replacements := replacements_go original_lines path chunks 0 [] in
  Ok (stable_sort starts_before replacements).

(** ** Carrying the replacements out

    [Vec::remove] is guarded by the code; [Vec::insert] panics behind the end:
    [None]. *)

Definition vec_insert (i : nat) (x : string) (l : list string) : option (list string) :=
  if i <=? length l then Some (take i l ++ x :: drop i l) else None.

Fixpoint remove_lines (n i : nat) (l : list string) : list string :=
  match n with
  | O => l
  | S n => remove_lines n i (if i <? length l then take i l ++ drop (S i) l else l)
  end.

Fixpoint insert_lines (i : nat) (new : list string) (l : list string) : option (list string) :=
  match new with
  | [] => Some l
  | x :: new => vec_insert i x l ≫= insert_lines (S i) new
  end.

Definition apply_one (r : Replacement) (l : list string) : option (list string) :=
  let '(i, n, new) := r in insert_lines i new (remove_lines n i l).

Definition apply_replacements (l : list string) (rs : list Replacement) : option (list string) :=
  foldl (λ l r, l ≫= apply_one r) (Some l) (reverse rs).

(** ** A file's text *)

Definition split_lines (content : string) : list string :=
  let ls := split_char newline content in
  if ends_blank ls then removelast ls else ls.

Definition join_lines (ls : list string) : string :=
  join nl (if ends_blank ls then ls else ls ++ [""]).

Definition derive_new_contents (original_content path : string) (chunks : list UpdateFileChunk)
    : option (result string ApplyPatchError) :=
  let original_lines := split_lines original_content in
  match compute_replacements original_lines path chunks with
  | Err e => Some (Err e)
  | Ok rs => (λ new_lines, Ok (join_lines new_lines)) <$> apply_replacements original_lines rs
  end.

Definition chunk (ctx : option string) (old new : list string) : UpdateFileChunk := mkChunk ctx old new false.

Example interleaved_changes :
  derive_new_contents (join nl ["a"; "b"; "c"; "d"; "e"; "f"; ""]) "x"
    [chunk None ["a"; "b"] ["a"; "B"]; chunk None ["c"; "d"; "e"] ["c"; "d"; "E"]; mkChunk None ["f"] ["f"; "g"] true]
  = Some (Ok (join nl ["a"; "B"; "c"; "d"; "E"; "f"; "g"; ""])).
Proof. vm_compute. reflexivity. Qed.

(** ** What applying a patch does to a file

    The matcher finds the first block under the strictest reading that matches
    anywhere; carrying the replacements out never panics; and for chunks in the
    file's order the sorted, backwards application is one pass over the file from
    top to bottom that leaves everything else alone. *)

(** *** The matcher *)

Lemma block_matches_spec read pattern : ∀ ls,
  block_matches read ls pattern = true ↔
  length pattern ≤ length ls ∧ ∀ k l p, ls !! k = Some l → pattern !! k = Some p → read l = read p.
Proof.
  induction pattern as [|p pattern IH]; intros ls; cbn [block_matches length].
  { split; [|done]. intros _. split; [lia|]. intros k l p _ Hp. by rewrite lookup_nil in Hp. }
  destruct ls as [|l ls]; cbn [length]; [split; [done|lia]|]. rewrite andb_true_iff, String.eqb_eq, IH. split.
  - intros [Hl [Hlen Hk]]. split; [lia|]. intros [|k] l' p' H1 H2; [by simplify_eq/=|]. by eapply Hk.
  - intros [Hlen Hk]. split; [by apply (Hk 0)|]. split; [lia|]. intros k l' p' H1 H2. by apply (Hk (S k)).
Qed.

Lemma find_seq (f : nat → bool) n : ∀ s,
  match List.find f (seq s n) with
  | Some i => s ≤ i < s + n ∧ f i = true ∧ ∀ j, s ≤ j < i → f j = false
  | None => ∀ j, s ≤ j < s + n → f j = false
  end.
Proof.
  induction n as [|n IH]; intros s; cbn [seq List.find]; [intros j ?; lia|].
  destruct (f s) eqn:E; [split; [lia|]; split; [done|]; lia|]. specialize (IH (S s)).
  destruct (List.find f (seq (S s) n)) as [i|].
  - destruct IH as (? & ? & Hmin). split; [lia|]. split; [done|]. intros j Hj. destruct (decide (j = s)) as [->|]; [done|].
    apply Hmin. lia.
  - intros j Hj. destruct (decide (j = s)) as [->|]; [done|]. apply IH. lia.
Qed.

(** The pattern reads like the file at position [i]. *)
Definition reads_at (read : string → string) (ls pattern : list string) (i : nat) : Prop :=
  i + length pattern ≤ length ls ∧ ∀ k l p, ls !! (i + k) = Some l → pattern !! k = Some p → read l = read p.

Lemma reads_at_spec read ls pattern i :
  pattern ≠ [] → block_matches read (drop i ls) pattern = true ↔ reads_at read ls pattern i.
Proof.
  intros Hne. unfold reads_at. rewrite block_matches_spec, length_drop. setoid_rewrite lookup_drop.
  destruct pattern; [done|]. cbn [length]. split; intros [? ?]; split; (done || lia).
Qed.

(** One pass under one reading: the first position, or none. *)
Lemma find_block_spec read ls pattern start :
  pattern ≠ [] →
  match find_block read ls pattern start with
  | Some i => start ≤ i ∧ reads_at read ls pattern i ∧ ∀ j, start ≤ j < i → ¬ reads_at read ls pattern j
  | None => ∀ j, start ≤ j → ¬ reads_at read ls pattern j
  end.
Proof.
  intros Hne. unfold find_block.
  pose proof (find_seq (λ i, block_matches read (drop i ls) pattern) (length ls - length pattern + 1 - start) start) as H.
  cbn beta in H. destruct (List.find _ _) as [i|].
  - destruct H as (? & Hi & Hmin). rewrite reads_at_spec in Hi by done. split; [lia|]. split; [done|].
    intros j Hj Hr. apply reads_at_spec in Hr; [|done]. rewrite Hmin in Hr by done. done.
  - intros j Hj Hr. pose proof Hr as [Hb _]. apply reads_at_spec in Hr; [|done]. rewrite H in Hr by lia. done.
Qed.

(** A pass over the passes: the first reading that matches anywhere decides. *)
Definition best_match (ls pattern : list string) (start : nat) (r : option nat) : Prop :=
  match r with
  | Some i => ∃ k read, readings !! k = Some read
      ∧ start ≤ i ∧ reads_at read ls pattern i ∧ (∀ j, start ≤ j < i → ¬ reads_at read ls pattern j)
      ∧ ∀ k' read', k' < k → readings !! k' = Some read' → ∀ j, start ≤ j → ¬ reads_at read' ls pattern j
  | None => ∀ read j, read ∈ readings → start ≤ j → ¬ reads_at read ls pattern j
  end.

Lemma first_pass_spec ls pattern start : pattern ≠ [] →
  best_match ls pattern start (first_pass readings ls pattern start).
Proof.
  intros Hne. assert (∀ done rs, readings = done ++ rs →
    (∀ k' read', done !! k' = Some read' → ∀ j, start ≤ j → ¬ reads_at read' ls pattern j) →
    best_match ls pattern start (first_pass rs ls pattern start)) as Hgen; [|by apply (Hgen [])].
  intros dn rs. revert dn. induction rs as [|read rs IH]; intros dn Hrs Hdn; cbn [first_pass].
  - rewrite app_nil_r in Hrs. intros read j Hin. rewrite Hrs in Hin. apply list_elem_of_lookup in Hin as [k Hk]. by eapply Hdn.
  - pose proof (find_block_spec read ls pattern start Hne) as Hf. destruct (find_block _ _ _ _) as [i|].
    + destruct Hf as (? & ? & ?). exists (length dn), read. rewrite Hrs. split; [by apply list_lookup_middle|].
      split_and!; [done..|]. intros k' read' Hk' Hr. rewrite lookup_app_l in Hr by done. by eapply Hdn.
    + apply (IH (dn ++ [read])); [by rewrite <- app_assoc|]. intros k' read' Hk'.
      apply lookup_app_Some in Hk' as [Hk'|[_ Hk']]; [by eapply Hdn|].
      apply list_lookup_singleton_Some in Hk' as [_ <-]. done.
Qed.

(** A block of lines is found where it should be. Searching a non-empty
    pattern from a line on, the matcher answers with a position exactly when the
    pattern reads like the file somewhere from there on under one of the four
    readings; the strictest reading that matches anywhere decides, and under it
    the first position. *)
Lemma seek_finds_best_match (ls pattern : list string) (start : nat) :
  pattern ≠ [] → best_match ls pattern start (seek_sequence ls pattern start false).
Proof.
  intros Hne. unfold seek_sequence. destruct (is_nil pattern) eqn:E; [by apply is_nil_true in E|].
  destruct (length ls <? length pattern) eqn:Hlen; cbn [andb]; [|by apply first_pass_spec].
  apply Nat.ltb_lt in Hlen. intros read j _ _ [Hb _]. lia.
Qed.

Lemma seek_finds_best_match_witness :
  ["- a"] ≠ [] ∧ best_match ["x"; "- a "; "- a"] ["- a"] 1 (seek_sequence ["x"; "- a "; "- a"] ["- a"] 1 false).
Proof. split; [done|]. by apply (seek_finds_best_match ["x"; "- a "; "- a"] ["- a"] 1). Defined.

Lemma first_pass_bound rs ls pattern start i :
  first_pass rs ls pattern start = Some i → length pattern ≤ length ls → start ≤ i ∧ i + length pattern ≤ length ls.
Proof.
  intros Hf Hlen. induction rs as [|read rs IH]; cbn [first_pass] in Hf; [done|].
  pose proof (find_seq (λ i, block_matches read (drop i ls) pattern) (length ls - length pattern + 1 - start) start) as H.
  unfold find_block in Hf. destruct (List.find _ _) as [j|]; [|by apply IH].
  injection Hf as <-. lia.
Qed.

Lemma seek_bound ls pattern start eof i :
  start ≤ length ls → seek_sequence ls pattern start eof = Some i →
  i + length pattern ≤ length ls ∧ (eof = false → start ≤ i).
Proof.
  unfold seek_sequence. intros Hs. destruct (is_nil pattern) eqn:E.
  { apply is_nil_true in E as ->. intros [= <-]. cbn. split; [lia|done]. }
  destruct (length ls <? length pattern) eqn:Hl; [done|]. apply Nat.ltb_ge in Hl. intros Hf.
  apply first_pass_bound in Hf as [H1 H2]; [|done]. split; [done|]. by intros ->.
Qed.

(** Searching from a line on is searching what is left of the file. *)
Lemma find_map_seq (f : nat → bool) a n : ∀ s,
  List.find f (seq (a + s) n) = Nat.add a <$> List.find (λ i, f (a + i)) (seq s n).
Proof.
  induction n as [|n IH]; intros s; [done|]. cbn [seq List.find]. destruct (f (a + s)); [done|].
  rewrite <- Nat.add_succ_r. apply IH.
Qed.

Lemma first_pass_shift rs pre rest pattern :
  length pattern ≤ length (pre ++ rest) → 1 ≤ length pattern →
  first_pass rs (pre ++ rest) pattern (length pre)
  = if length rest <? length pattern then None else Nat.add (length pre) <$> first_pass rs rest pattern 0.
Proof.
  rewrite length_app. intros Hl Hp. induction rs as [|read rs IH]; cbn [first_pass]; [by destruct (_ <? _)|].
  assert (find_block read (pre ++ rest) pattern (length pre)
    = if length rest <? length pattern then None else Nat.add (length pre) <$> find_block read rest pattern 0) as ->.
  { unfold find_block. rewrite length_app. destruct (length rest <? length pattern) eqn:E.
    - apply Nat.ltb_lt in E. by replace (length pre + length rest - length pattern + 1 - length pre) with 0 by lia.
    - apply Nat.ltb_ge in E.
      replace (length pre + length rest - length pattern + 1 - length pre) with (length rest - length pattern + 1 - 0) by lia.
      rewrite <- (Nat.add_0_r (length pre)) at 1. rewrite find_map_seq. f_equal.
      generalize (seq 0 (length rest - length pattern + 1 - 0)). intros l. induction l as [|i l IHl]; [done|].
      cbn [List.find]. by rewrite drop_app_add', IHl. }
  rewrite IH. destruct (length rest <? length pattern); [done|]. by destruct (find_block read rest pattern 0).
Qed.

Lemma seek_shift pre rest pattern :
  seek_sequence (pre ++ rest) pattern (length pre) false = Nat.add (length pre) <$> seek_sequence rest pattern 0 false.
Proof.
  unfold seek_sequence. destruct (is_nil pattern) eqn:E; [cbn; by rewrite Nat.add_0_r|]. cbn [andb].
  assert (1 ≤ length pattern) by (destruct pattern; [done|cbn; lia]).
  destruct (length (pre ++ rest) <? length pattern) eqn:Hl.
  - apply Nat.ltb_lt in Hl. rewrite length_app in Hl. by rewrite (proj2 (Nat.ltb_lt _ _)) by lia.
  - apply Nat.ltb_ge in Hl. rewrite first_pass_shift by done. by destruct (_ <? _).
Qed.

Lemma context_shift c path pre rest :
  find_context c path (pre ++ rest) (length pre)
  = let? n := find_context c path rest 0 in Ok (length pre + n).
Proof.
  unfold find_context. destruct (change_context c) as [ctx|]; cbn [result_bind]; [|by rewrite Nat.add_0_r].
  rewrite seek_shift. destruct (seek_sequence rest [ctx] 0 false); cbn; [by rewrite Nat.add_assoc|done].
Qed.

Definition shift (k : nat) (r : Replacement) : Replacement := (k + r.1.1, r.1.2, r.2).

Lemma locate_shift c pre rest :
  is_end_of_file c = false →
  locate c (pre ++ rest) (length pre) = shift (length pre) <$> locate c rest 0.
Proof.
  intros He. unfold locate. rewrite He, !seek_shift.
  destruct (seek_sequence rest (old_lines c) 0 false); [done|]. cbn [fmap option_fmap option_map].
  destruct (ends_blank _); [|done]. by destruct (seek_sequence rest _ 0 false).
Qed.

Lemma context_bound c path ls k n :
  k ≤ length ls → find_context c path ls k = Ok n → k ≤ n ≤ length ls.
Proof.
  unfold find_context. intros Hk. destruct (change_context c) as [ctx|]; [|intros [= <-]; lia].
  destruct (seek_sequence ls [ctx] k false) as [i|] eqn:E; [|done]. intros [= <-].
  apply seek_bound in E as [H1 H2]; [|done]. specialize (H2 eq_refl). cbn in H1. lia.
Qed.

Lemma locate_bound c ls k i n new :
  k ≤ length ls → locate c ls k = Some (i, n, new) → i + n ≤ length ls ∧ (is_end_of_file c = false → k ≤ i).
Proof.
  unfold locate. intros Hk. destruct (seek_sequence ls (old_lines c) _ _) as [j|] eqn:E.
  { intros [= <- <- <-]. by apply seek_bound in E. }
  destruct (ends_blank (old_lines c)); [|done]. cbv zeta. destruct (seek_sequence ls (removelast (old_lines c)) _ _) as [j|] eqn:E'; [|done].
  intros [= <- <- <-]. by apply seek_bound in E'.
Qed.

(** *** Carrying out replacements *)

Lemma remove_lines_spec n i : ∀ l, i ≤ length l → remove_lines n i l = take i l ++ drop (i + n) l.
Proof.
  induction n as [|n IH]; intros l Hi; cbn [remove_lines].
  { by rewrite Nat.add_0_r, take_drop. }
  destruct (i <? length l) eqn:E.
  - apply Nat.ltb_lt in E. rewrite IH by (rewrite length_app, length_take, length_drop; lia).
    rewrite take_app_length' by (rewrite length_take; lia).
    rewrite drop_app_add' by (rewrite length_take; lia). rewrite drop_drop. do 2 f_equal. lia.
  - apply Nat.ltb_ge in E. rewrite IH by done. by rewrite !(drop_ge l) by lia.
Qed.

Lemma insert_lines_spec new : ∀ i l, i ≤ length l → insert_lines i new l = Some (take i l ++ new ++ drop i l).
Proof.
  induction new as [|x new IH]; intros i l Hi; cbn [insert_lines app]; [by rewrite take_drop|].
  unfold vec_insert. rewrite (proj2 (Nat.leb_le _ _) Hi). cbn [mbind option_bind].
  assert (length (take i l) = i) as Hlen by (rewrite length_take; lia).
  rewrite IH by (rewrite length_app; cbn; lia). f_equal.
  replace (S i) with (length (take i l ++ [x])) by (rewrite length_app; cbn; lia).
  change (x :: drop i l) with ([x] ++ drop i l). rewrite (app_assoc (take i l)), take_app_length, drop_app_length.
  by rewrite <- app_assoc.
Qed.

Lemma apply_one_spec i n new l :
  i ≤ length l → apply_one (i, n, new) l = Some (take i l ++ new ++ drop (i + n) l).
Proof.
  intros Hi. unfold apply_one. rewrite remove_lines_spec by done.
  assert (length (take i l) = i) as Hlen by (rewrite length_take; lia).
  rewrite insert_lines_spec by (rewrite length_app; lia).
  by rewrite take_app_length', drop_app_length'.
Qed.

Lemma apply_cons l r rs : apply_replacements l (r :: rs) = apply_replacements l rs ≫= apply_one r.
Proof. unfold apply_replacements. by rewrite reverse_cons, foldl_app. Qed.

(** Backwards application never inserts behind the end, and leaves what is
    before the first replacement alone. *)
Lemma apply_sorted l rs :
  StronglySorted starts_before rs → Forall (λ r : Replacement, r.1.1 ≤ length l) rs →
  ∃ l', apply_replacements l rs = Some l' ∧
    ∀ s, Forall (λ r : Replacement, s ≤ r.1.1) rs → s ≤ length l → s ≤ length l' ∧ take s l' = take s l.
Proof.
  intros Hs Hb. induction Hs as [|[[i n] new] rs Hs IH Hall]; [by exists l|].
  apply Forall_cons in Hb as [Hi Hb]. cbn in Hi. destruct (IH Hb) as (l1 & Hl1 & Hk).
  destruct (Hk i) as [Hlen Htake]; [|done|].
  { eapply Forall_impl; [exact Hall|]. intros r Hr. apply Hr. }
  exists (take i l1 ++ new ++ drop (i + n) l1). split.
  { rewrite apply_cons, Hl1. cbn [mbind option_bind]. by apply apply_one_spec. }
  intros s Hle Hsl. apply Forall_cons in Hle as [Hsi _]. cbn in Hsi.
  rewrite Htake, length_app, length_take. split; [lia|]. rewrite take_app_le by (rewrite length_take; lia).
  rewrite take_take. f_equal. lia.
Qed.

Lemma replacements_in_range ls path cs : ∀ k acc rs,
  k ≤ length ls → Forall (λ r : Replacement, r.1.1 ≤ length ls) acc →
  replacements_go ls path cs k acc = Ok rs → Forall (λ r : Replacement, r.1.1 ≤ length ls) rs.
Proof.
  induction cs as [|c cs IH]; intros k acc rs Hk Hacc; cbn [replacements_go]; [by intros [= <-]|].
  destruct (find_context c path ls k) as [k'|e] eqn:Hc; cbn [result_bind]; [|done].
  apply context_bound in Hc; [|done]. destruct (is_nil (old_lines c)).
  { intros H. eapply IH; [| |exact H]; [lia|]. apply Forall_app. split; [done|]. apply Forall_singleton. cbn.
    destruct (ends_blank ls); lia. }
  destruct (locate c ls k') as [[[i n] new]|] eqn:Hl; [|done]. apply locate_bound in Hl; [|lia].
  intros H. eapply IH; [| |exact H]; [lia|]. apply Forall_app. split; [done|]. apply Forall_singleton. cbn. lia.
Qed.

#[export] Instance starts_before_trans : Transitive starts_before.
Proof. intros a b c. unfold starts_before. lia. Qed.

Lemma starts_before_total a b : starts_before a b ∨ starts_before b a.
Proof. unfold starts_before. lia. Qed.

Lemma derive_total (content path : string) (chunks : list UpdateFileChunk) :
  ∃ r, derive_new_contents content path chunks = Some r.
Proof.
  unfold derive_new_contents, compute_replacements.
  destruct (replacements_go _ path chunks 0 []) as [rs|e] eqn:Hr; cbn [result_bind]; [|by eexists].
  apply replacements_in_range in Hr; [|lia|done].
  destruct (apply_sorted (split_lines content) (stable_sort starts_before rs)) as (l & -> & _).
  - apply stable_sort_StronglySorted; [apply _|apply starts_before_total].
  - by rewrite stable_sort_Permutation.
  - by eexists.
Qed.

(** *** One pass over the file

    The reference: walk down the file, chunk by chunk. A chunk keeps the lines up
    to its context and up to its block, puts its new lines in the block's place
    and hands the rest of the file to the next chunk. Pure additions are
    collected for the end. *)
Fixpoint edit (path : string) (cs : list UpdateFileChunk) (rest : list string)
    : result (list string * list string) ApplyPatchError :=
  match cs with
  | [] => Ok (rest, [])
  | c :: cs =>
      let? n := find_context c path rest 0 in
      let below := drop n rest in
      let? (out, added) :=
        if is_nil (old_lines c)
        then let? (out, added) := edit path cs below in Ok (out, new_lines c ++ added)
        else match locate c below 0 with
             | Some (i, k, new) =>
                 let? (out, added) := edit path cs (drop (i + k) below) in Ok (take i below ++ new ++ out, added)
             | None => Err (ComputeReplacements (not_found_lines path (old_lines c)))
             end in
      Ok (take n rest ++ out, added)
  end.

(** A chunk that is not tied to the end of the file and looks for more than a
    blank line. *)
Definition plain_chunk (c : UpdateFileChunk) : bool :=
  negb (is_end_of_file c) && negb (bool_decide (old_lines c = [""])).

(** Replacements in the file's order, and what they make of the lines from
    [pos] on. *)
Fixpoint splice (pos : nat) (ls : list string) (rs : list Replacement) : list string :=
  match rs with
  | [] => ls
  | (i, n, new) :: rs => take (i - pos) ls ++ new ++ splice (i + n) (drop (i + n - pos) ls) rs
  end.

Fixpoint in_order (pos : nat) (rs : list Replacement) : Prop :=
  match rs with
  | [] => True
  | (i, n, _) :: rs => pos ≤ i ∧ in_order (i + n) rs
  end.

Lemma in_order_from pos rs : in_order pos rs → Forall (λ r : Replacement, pos ≤ r.1.1) rs.
Proof.
  revert pos. induction rs as [|[[i n] new] rs IH]; intros pos; [done|]. cbn. intros [Hi Hrs]. constructor; [done|].
  eapply Forall_impl; [by apply IH|]. cbn. lia.
Qed.

Lemma in_order_sorted pos rs : in_order pos rs → StronglySorted starts_before rs.
Proof.
  revert pos. induction rs as [|[[i n] new] rs IH]; intros pos; cbn; [constructor|]. intros [Hi Hrs]. constructor; [by eapply IH|].
  eapply Forall_impl; [by apply in_order_from|]. unfold starts_before. cbn. lia.
Qed.

Lemma splice_lines pre ls rs : ∀ pos,
  pos = length pre → in_order pos rs → Forall (λ r : Replacement, r.1.1 + r.1.2 ≤ length (pre ++ ls)) rs →
  apply_replacements (pre ++ ls) rs = Some (pre ++ splice pos ls rs).
Proof.
  revert pre ls. induction rs as [|[[i n] new] rs IH]; intros pre ls pos -> Ho Hb; [done|]. cbn in Ho. destruct Ho as [Hi Ho].
  apply Forall_cons in Hb as [Hin Hb]. cbn in Hin. rewrite length_app in Hin. rewrite apply_cons.
  assert (∃ a b, ls = a ++ b ∧ length pre + length a = i + n ∧ length (take (i - length pre) ls) = i - length pre)
    as (a & b & -> & Ha & Ht).
  { exists (take (i + n - length pre) ls), (drop (i + n - length pre) ls). rewrite take_drop, !length_take. split; [done|]. lia. }
  rewrite app_assoc in Hb |- *. assert (length (pre ++ a) = i + n) as Hpa by (rewrite length_app; lia).
  rewrite (IH (pre ++ a) b (i + n)) by done. cbn [mbind option_bind]. rewrite apply_one_spec by (rewrite length_app; lia).
  f_equal. cbn [splice]. rewrite (drop_app_length' (pre ++ a)), (drop_app_length' a) by lia.
  rewrite (take_app_le (pre ++ a)), (take_app_le a), take_app_ge by lia. by rewrite <- app_assoc.
Qed.

Lemma splice_skip pos n ls rs :
  in_order (pos + n) rs → n ≤ length ls → splice pos ls rs = take n ls ++ splice (pos + n) (drop n ls) rs.
Proof.
  intros Ho Hn. destruct rs as [|[[i k] new] rs]; cbn [splice in_order] in *; [by rewrite take_drop|].
  destruct Ho as [Hi _]. rewrite (app_assoc (take n ls)). f_equal.
  - replace (i - pos) with (n + (i - (pos + n))) by lia. by rewrite take_take_drop.
  - rewrite drop_drop. do 3 f_equal. lia.
Qed.

(** Pure additions go behind everything else, in their order. *)
Definition early (e : nat) (r : Replacement) : bool := r.1.1 <? e.
Definition late (e : nat) (r : Replacement) : bool := negb (early e r).

Lemma sort_split e rs :
  StronglySorted starts_before (bfilter (early e) rs) → Forall (λ r, early e r = false → r.1.1 = e) rs →
  stable_sort starts_before rs = bfilter (early e) rs ++ bfilter (late e) rs.
Proof.
  induction rs as [|x rs IH]; [done|]. intros Hs Hl. apply Forall_cons in Hl as [Hx Hl].
  assert (∀ y, y ∈ bfilter (late e) rs → y.1.1 = e) as Hlate.
  { intros y [Hy Hf]%elem_of_bfilter. rewrite Forall_forall in Hl. apply Hl; [done|]. by apply negb_true_iff. }
  cbn [stable_sort foldr]. fold (stable_sort starts_before rs). unfold bfilter in *. cbn [List.filter] in *. unfold late at 1.
  destruct (early e x) eqn:Ex; cbn [negb].
  - apply StronglySorted_inv in Hs as [Hs Hall]. rewrite IH by done. apply Nat.ltb_lt in Ex.
    destruct (List.filter (early e) rs) as [|y fl]; cbn [app].
    + destruct (List.filter (late e) rs) as [|z ll]; [done|]. cbn [insert_before]. rewrite decide_True; [done|].
      unfold starts_before. rewrite (Hlate z) by left. lia.
    + cbn [insert_before]. apply Forall_cons in Hall as [Hy _]. by rewrite decide_True.
  - rewrite IH by done. specialize (Hx eq_refl).
    assert (Forall (λ y, early e y = true) (List.filter (early e) rs)) as Hf.
    { apply Forall_forall. intros y Hy. by apply (elem_of_bfilter (early e)) in Hy as [_ ?]. }
    clear IH Hs. revert Hf. generalize (List.filter (early e) rs). intros fl Hf.
    induction Hf as [|y fl Hy Hf IHf]; cbn [app insert_before].
    + destruct (List.filter (late e) rs) as [|z ll]; [done|]. cbn [insert_before]. rewrite decide_True; [done|].
      unfold starts_before. rewrite (Hlate z) by left. lia.
    + rewrite decide_False; [by rewrite IHf|].
      unfold starts_before, early in *. apply Nat.ltb_lt in Hy. lia.
Qed.

Lemma locate_length c ls k i n new :
  is_nil (old_lines c) = false → plain_chunk c = true → locate c ls k = Some (i, n, new) → 1 ≤ n.
Proof.
  unfold plain_chunk, locate. intros Hne Hp. bools. apply bool_decide_eq_false in H0.
  destruct (seek_sequence ls (old_lines c) _ _); [intros [= <- <- <-]; destruct (old_lines c); [done|cbn; lia]|].
  destruct (ends_blank (old_lines c)) eqn:Hb; [|done]. cbv zeta.
  destruct (seek_sequence ls (removelast (old_lines c)) _ _); [|done]. intros [= <- <- <-].
  destruct (old_lines c) as [|x [|y old]]; [done| |cbn; lia].
  unfold ends_blank in Hb. cbn in Hb. by destruct x.
Qed.

Definition edited (ls : list string) (path : string) (cs : list UpdateFileChunk) (k : nat) (acc : list Replacement)
    : Prop :=
  match edit path cs (drop k ls) with
  | Err err => replacements_go ls path cs k acc = Err err
  | Ok (out, added) => ∃ rs, replacements_go ls path cs k acc = Ok (acc ++ rs)
      ∧ Forall (λ r, early (length ls) r = false → r.1.1 = length ls) rs
      ∧ Forall (λ r : Replacement, r.1.1 + r.1.2 ≤ length ls) rs
      ∧ in_order k (bfilter (early (length ls)) rs)
      ∧ splice k (drop k ls) (bfilter (early (length ls)) rs) = out
      ∧ concat (map snd (bfilter (late (length ls)) rs)) = added
  end.

Lemma in_order_weaken k k' rs : k ≤ k' → in_order k' rs → in_order k rs.
Proof. destruct rs as [|[[i n] new] rs]; cbn; [done|]. intros ? [? ?]. split; [lia|done]. Qed.

Lemma go_edit ls path cs : ends_blank ls = false → all plain_chunk cs = true → ∀ k acc, k ≤ length ls → edited ls path cs k acc.
Proof.
  intros Hb. induction cs as [|c cs IH]; intros Hp k acc Hk; unfold edited; cbn [edit replacements_go].
  { exists []. rewrite app_nil_r. by split_and!. }
  cbn [all forallb] in Hp. apply andb_true_iff in Hp as [Hc Hp]. specialize (IH Hp). unfold edited in IH.
  pose proof (context_shift c path (take k ls) (drop k ls)) as Hctx.
  rewrite take_drop, length_take, Nat.min_l in Hctx by done. rewrite Hctx. clear Hctx.
  destruct (find_context c path (drop k ls) 0) as [n|err] eqn:Hctx; cbn [result_bind]; [|done].
  apply context_bound in Hctx; [|lia]. rewrite length_drop in Hctx. rewrite Hb, drop_drop.
  destruct (is_nil (old_lines c)) eqn:Hold.
  - specialize (IH (k + n) (acc ++ [(length ls, 0, new_lines c)]) ltac:(lia)).
    destruct (edit path cs (drop (k + n) ls)) as [[out added]|err]; cbn [result_bind]; [|done].
    destruct IH as (rs & -> & H1 & H2 & H3 & <- & <-). exists ((length ls, 0, new_lines c) :: rs).
    assert (early (length ls) (length ls, 0, new_lines c) = false) as Hel by (apply Nat.ltb_ge; done).
    rewrite <- app_assoc. unfold bfilter, late in *. cbn [List.filter]. rewrite Hel. cbn [negb map concat snd].
    split_and!; [done|by constructor|constructor; [cbn; lia|done]|by eapply in_order_weaken; [|exact H3]; lia| |done].
    rewrite (splice_skip k n), drop_drop by (done || rewrite length_drop; lia). done.
  - pose proof (locate_shift c (take (k + n) ls) (drop (k + n) ls)) as Hloc.
    rewrite take_drop, length_take, Nat.min_l in Hloc by lia.
    unfold plain_chunk in Hc. rewrite Hloc by by bools. clear Hloc. fold (plain_chunk c) in Hc.
    destruct (locate c (drop (k + n) ls) 0) as [[[i m] new]|] eqn:Hl; cbn [fmap option_fmap option_map]; [|done].
    pose proof (locate_length _ _ _ _ _ _ Hold Hc Hl) as Hm. apply locate_bound in Hl as [Hl _]; [|lia].
    rewrite length_drop in Hl. unfold shift. cbn [fst snd]. rewrite drop_drop.
    specialize (IH (k + n + i + m) (acc ++ [(k + n + i, m, new)]) ltac:(lia)).
    replace (k + n + (i + m)) with (k + n + i + m) by lia.
    destruct (edit path cs (drop (k + n + i + m) ls)) as [[out added]|err]; cbn [result_bind]; [|done].
    destruct IH as (rs & -> & H1 & H2 & H3 & <- & <-). exists ((k + n + i, m, new) :: rs).
    assert (early (length ls) (k + n + i, m, new) = true) as Hel by (apply Nat.ltb_lt; cbn; lia).
    rewrite <- app_assoc. unfold bfilter, late in *. cbn [List.filter]. rewrite Hel. cbn [negb].
    split_and!; [done|constructor; [congruence|done]|constructor; [cbn; lia|done]|by cbn; split; [lia|]| |done].
    rewrite (splice_skip k n), drop_drop; [|cbn; split; [lia|done]|rewrite length_drop; lia]. cbn [splice].
    rewrite drop_drop. do 2 f_equal; [f_equal; lia|]. do 3 f_equal. lia.
Qed.

Lemma splice_append e front back : ∀ pos rest,
  pos + length rest = e → in_order pos front → Forall (λ r : Replacement, r.1.1 + r.1.2 ≤ e) (front ++ back) →
  Forall (λ r : Replacement, r.1.1 = e) back →
  in_order pos (front ++ back) ∧ splice pos rest (front ++ back) = splice pos rest front ++ concat (map snd back).
Proof.
  induction front as [|[[i n] new] front IH]; intros pos rest He Ho Hb Hl; cbn [app in_order splice] in *.
  - revert pos rest He. induction Hl as [|[[i n] new] back Hi _ IHl]; intros pos rest He; cbn [in_order splice map concat].
    { by rewrite app_nil_r. }
    apply Forall_cons in Hb as [Hn Hb]. cbn in Hi, Hn. destruct (IHl Hb (i + n) []) as [H1 H2]; [cbn; lia|].
    split; [split; [lia|done]|]. rewrite (take_ge rest), (drop_ge rest) by lia. by rewrite H2.
  - apply Forall_cons in Hb as [Hn Hb]. cbn in Hn. destruct Ho as [Hi Ho].
    destruct (IH (i + n) (drop (i + n - pos) rest)) as [H1 H2]; [rewrite length_drop; lia|done..|].
    split; [done|]. by rewrite H2, <- !app_assoc.
Qed.

(** C29: A patch is one pass over the file. For chunks that are not tied to the
    end of the file and look for more than one blank line, on a file that does
    not end in a blank line, computing the replacements, sorting them and
    carrying them out backwards is the reference editor: it walks down the file
    once, puts each chunk's new lines in the place of the block it finds below
    the previous one, keeps every other line, and adds the pure additions at the
    end; it fails exactly where the code fails, with the same error. *)
Theorem patch_is_one_pass (content path : string) (chunks : list UpdateFileChunk) :
  all plain_chunk chunks = true → ends_blank (split_lines content) = false →
  derive_new_contents content path chunks
  = Some (let? (out, added) := edit path chunks (split_lines content) in Ok (join_lines (out ++ added))).
Proof.
  intros Hp Hb. unfold derive_new_contents, compute_replacements. generalize dependent (split_lines content). intros ls Hb.
  pose proof (go_edit ls path chunks Hb Hp 0 [] ltac:(lia)) as He. unfold edited in He. rewrite drop_0 in He.
  destruct (edit path chunks ls) as [[out added]|err]; [|by rewrite He].
  destruct He as (rs & -> & Hlate & Hbound & Hord & <- & <-). cbn [result_bind app].
  rewrite (sort_split (length ls)) by (done || by eapply in_order_sorted).
  assert (Forall (λ r : Replacement, r.1.1 + r.1.2 ≤ length ls) (bfilter (early (length ls)) rs ++ bfilter (late (length ls)) rs)) as Hall.
  { apply Forall_forall. intros r [Hr|Hr]%elem_of_app; apply elem_of_bfilter in Hr as [Hr _];
      rewrite Forall_forall in Hbound; by apply Hbound. }
  destruct (splice_append (length ls) (bfilter (early (length ls)) rs) (bfilter (late (length ls)) rs) 0 ls) as [Ho Hs]; [done..| |].
  { apply Forall_forall. intros r [Hr Hl]%elem_of_bfilter. rewrite Forall_forall in Hlate. apply Hlate; [done|].
    by apply negb_true_iff. }
  rewrite (splice_lines [] ls _ 0) by done. cbn [app fmap option_fmap option_map]. by rewrite Hs.
Qed.

Lemma patch_is_one_pass_witness :
  derive_new_contents (join nl ["a"; "b"; "c"; "b"; ""]) "x"
    [chunk (Some "a") [] ["z"]; chunk None ["b"] ["B"; "B"]; chunk None ["b "] []]
  = Some (let? (out, added) := edit "x" [chunk (Some "a") [] ["z"]; chunk None ["b"] ["B"; "B"]; chunk None ["b "] []]
                                 (split_lines (join nl ["a"; "b"; "c"; "b"; ""])) in Ok (join_lines (out ++ added))).
Proof. apply (patch_is_one_pass (join nl ["a"; "b"; "c"; "b"; ""]) "x"); vm_compute; reflexivity. Defined.

(** *** Blind spots *)

(** A search from the end does not fall back to the start. *)
Lemma end_of_file_has_no_fallback : seek_sequence ["a"; "b"] ["a"] 0 true = None.
Proof. vm_compute. reflexivity. Qed.

(** A chunk at the end of the file is found also above the previous chunk: both
    take the same lines away and a line is lost. *)
Lemma end_of_file_chunk_overlaps :
  derive_new_contents (join nl ["a"; "b"; ""]) "x" [chunk None ["a"; "b"] ["a"; "c"]; mkChunk None ["b"] ["B"; "d"] true]
  = Some (Ok (join nl ["a"; "c"; "d"; ""])).
Proof. vm_compute. reflexivity. Qed.

(** Lines added before a final blank line are lost when another chunk covers
    that blank line. *)
Lemma addition_before_blank_end_is_lost :
  derive_new_contents (join nl ["a"; ""; ""]) "x" [chunk None ["a"; ""] ["b"]; chunk None [] ["new"]]
  = Some (Ok (join nl ["b"; ""])).
Proof. vm_compute. reflexivity. Qed.

(** Additions below a context line go to the end of the file. *)
Lemma context_does_not_place_additions :
  derive_new_contents (join nl ["fn f"; "fn g"; ""]) "x" [chunk (Some "fn f") [] ["new"]]
  = Some (Ok (join nl ["fn f"; "fn g"; "new"; ""])).
Proof. vm_compute. reflexivity. Qed.

(** A context line that matches loosely is replaced by the patch's spelling of
    it, and a block of a file with CRLF line ends comes out with LF. *)
Lemma loose_context_is_rewritten :
  derive_new_contents (join nl ["	k "; "x"; ""]) "x" [chunk None ["k"; "x"] ["k"; "y"]] = Some (Ok (join nl ["k"; "y"; ""])).
Proof. vm_compute. reflexivity. Qed.

Lemma line_ends_are_changed :
  derive_new_contents (join nl ["a" +:+ String carriage ""; "b" +:+ String carriage ""; ""]) "x" [chunk None ["a"] ["c"]]
  = Some (Ok (join nl ["c"; "b" +:+ String carriage ""; ""])).
Proof. vm_compute. reflexivity. Qed.
