(* ===== verification/PatchTool.v ===== *)
(** * The apply_patch tool (codex/apply_patch/tool.rs)

    A call parses the patch, works out every change in memory and only then
    writes: file after file, each write followed by a notification that carries
    what the file held before. *)

From Stdlib Require Import Ascii String.
From S2P Require Import Prelude RustStr Disk PatchParser PatchParserFacts PatchApply.
From stdpp Require Import options.

(** ** Data *)

Inductive FileChange : Type :=
| Add (path content : string)
| Delete (path original_content : string)
| Update (path original_content new_content : string)
| Move (source_path dest_path original_content new_content : string).

Record FileWritten : Type := mkWritten {
  tool_call_id : string;
  absolute_path : string;
  content : string;
  previous_content : option string;
  is_new_file : bool;
}.

Record ApplyPatchFileResult : Type := mkFileResult {
  fr_path : string;
  action : string;
  old_text : option string;
  new_text : string;
  move_to : option string;
}.

Inductive ApplyPatchOutput : Type :=
| Success (file_results : list ApplyPatchFileResult) (tool_output_for_prompt : string)
| ParseFailed (message : string)
| ApplicationError (message : string)
| EmptyPatch (message : string).

Inductive ToolError : Type := Execution (message : string).

(** What [compute_all_changes] makes of an error of the engine. *)
Definition ParseError_display (e : ParseError) : string :=
  match e with
  | InvalidPatchError m => "invalid patch: " +:+ m
  | InvalidHunkError m n => "invalid hunk at line " +:+ pretty (N.of_nat n) +:+ ", " +:+ m
  end.
Definition error_message (e : ApplyPatchError) : string :=
  match e with
  | ComputeReplacements msg => msg
  | Parse e => ParseError_display e
  | Io context message _ => context +:+ ": " +:+ message
  end.

Definition parse_error_message (e : ParseError) : string :=
  match e with
  | InvalidPatchError m => "Invalid patch: " +:+ m
  | InvalidHunkError message line_number =>
      "Invalid patch hunk on line " +:+ pretty (N.of_nat line_number) +:+ ": " +:+ message
  end.

(** [build_summary] *)
Definition summary_line (r : ApplyPatchFileResult) : string :=
  let prefix := if String.eqb (action r) "added" then "A"
                else if String.eqb (action r) "deleted" then "D"
                else if String.eqb (action r) "moved" then "M" else "M" in
  prefix +:+ " " +:+ fr_path r +:+ nl.
Definition build_summary (results : list ApplyPatchFileResult) : string :=
  "Success. Updated the following files:" +:+ nl +:+ foldr (λ r s, summary_line r +:+ s) "" results.

Section tool.
Context {S : Type} `{ToolFs S}.

(** ** Phase 2: working out the changes *)

Definition read_file_as_string (path : string) (s : S) : result string string :=
  let? bytes := read_file path s in Ok (from_utf8_lossy bytes).

Definition compute_change (cwd : string) (s : S) (h : Hunk) : option (result FileChange string) :=
  match h with
  | AddFile path contents => Some (Ok (Add (path_join cwd path) contents))
  | DeleteFile path =>
      let resolved := path_join cwd path in
      Some (let? original_content :=
              map_err (λ e, "Failed to read file: " +:+ resolved +:+ ", " +:+ e) (read_file_as_string resolved s) in
            Ok (Delete resolved original_content))
  | UpdateFile path move_path chunks =>
      let resolved := path_join cwd path in
      match map_err (λ e, "Failed to read file to update: " +:+ resolved +:+ ", " +:+ e)
              (read_file_as_string resolved s) with
      | Err e => Some (Err e)
      | Ok original_content =>
          derive_new_contents original_content resolved chunks ≫= λ r,
          Some (let? new_content := map_err error_message r in
                Ok (match move_path with
                    | Some dest => Move resolved (path_join cwd dest) original_content new_content
                    | None => Update resolved original_content new_content
                    end))
      end
  end.

Fixpoint compute_all_changes (cwd : string) (s : S) (hs : list Hunk) : option (result (list FileChange) string) :=
  match hs with
  | [] => Some (Ok [])
  | h :: hs =>
      compute_change cwd s h ≫= λ r,
      match r with
      | Err e => Some (Err e)
      | Ok c => compute_all_changes cwd s hs ≫= λ r, Some (let? cs := r in Ok (c :: cs))
      end
  end.

(** ** Phase 3: writing them *)

Record World : Type := mkWorld { disk : S; sent : list FileWritten }.

(** A call of the file system whose error ends the tool. *)
Definition on_disk (op : S → result () string * S) (w : World) : result () ToolError * World :=
  let '(r, s) := op (disk w) in (map_err Execution r, mkWorld s (sent w)).
Definition send_file_written (n : FileWritten) (w : World) : World := mkWorld (disk w) (sent w ++ [n]).

Notation "'do?' r 'then' k" := (let '(x, w) := r in match x with Ok _ => k w | Err e => (Err e, w) end)
  (at level 10, r at level 100, k at level 200).

Definition ensure_parent_dirs (path : string) (w : World) : result () ToolError * World :=
  match path_parent path with
  | Some parent => if is_empty parent then (Ok (), w) else on_disk (make_dirs parent) w
  | None => (Ok (), w)
  end.

Definition apply_change (id : string) (c : FileChange) (w : World)
    : result ApplyPatchFileResult ToolError * World :=
  match c with
  | Add path content =>
      do? ensure_parent_dirs path w then λ w,
      do? on_disk (write_file path content) w then λ w,
      (Ok (mkFileResult path "added" None content None),
       send_file_written (mkWritten id path content None true) w)
  | Delete path original =>
      do? on_disk (delete_file path) w then λ w,
      (Ok (mkFileResult path "deleted" (Some original) "" None),
       send_file_written (mkWritten id path "" (Some original) false) w)
  | Update path original new =>
      do? on_disk (write_file path new) w then λ w,
      (Ok (mkFileResult path "modified" (Some original) new None),
       send_file_written (mkWritten id path new (Some original) false) w)
  | Move source dest original new =>
      do? ensure_parent_dirs dest w then λ w,
      do? on_disk (write_file dest new) w then λ w,
      do? on_disk (delete_file source) w then λ w,
      (Ok (mkFileResult source "moved" (Some original) new (Some dest)),
       send_file_written (mkWritten id source "" (Some original) false)
         (send_file_written (mkWritten id dest new None true) w))
  end.

Fixpoint apply_changes (id : string) (cs : list FileChange) (w : World)
    : result (list ApplyPatchFileResult) ToolError * World :=
  match cs with
  | [] => (Ok [], w)
  | c :: cs =>
      let '(r, w) := apply_change id c w in
      match r with
      | Err e => (Err e, w)
      | Ok fr => let '(rs, w) := apply_changes id cs w in (let? rs := rs in Ok (fr :: rs), w)
      end
  end.

(** ** The call *)

Definition run (cwd id patch_text : string) (w : World) : option (result ApplyPatchOutput ToolError * World) :=
  parse_patch patch_text ≫= λ parsed,
  match parsed with
  | Err e => Some (Ok (ParseFailed (parse_error_message e)), w)
  | Ok p =>
      if is_nil (hunks p) then Some (Ok (EmptyPatch "No files were modified."), w)
      else
        compute_all_changes cwd (disk w) (hunks p) ≫= λ r,
        match r with
        | Err msg => Some (Ok (ApplicationError msg), w)
        | Ok changes =>
            let '(rs, w) := apply_changes id changes w in
            Some (let? rs := rs in Ok (Success rs (build_summary rs)), w)
        end
  end.
End tool.
Arguments World : clear implicits.

(** ** What a call of apply_patch leaves behind

    A patch that cannot be parsed or applied writes nothing; one that succeeds
    has made exactly its changes, in order, and announced each of them. *)

(** What a change does to the files, and how it is announced. *)
Definition effect (fs : Files) (c : FileChange) : Files :=
  match c with
  | Add p b | Update p _ b => <[canon p := b]> fs
  | Delete p _ => delete (canon p) fs
  | Move src dest _ b => delete (canon src) (<[canon dest := b]> fs)
  end.

Definition notices (id : string) (c : FileChange) : list FileWritten :=
  match c with
  | Add p b => [mkWritten id p b None true]
  | Delete p old => [mkWritten id p "" (Some old) false]
  | Update p old b => [mkWritten id p b (Some old) false]
  | Move src dest old b => [mkWritten id dest b None true; mkWritten id src "" (Some old) false]
  end.

Section tool.
Context {S : Type} `{ToolFsLaws S}.
#[local] Set Default Proof Using "All".

Lemma on_disk_ok (op : S → result () string * S) (w w' : World S) :
  on_disk op w = (Ok (), w') → op (disk w) = (Ok (), disk w') ∧ sent w' = sent w.
Proof. unfold on_disk. destruct (op (disk w)) as [[[]|e] s]; cbn; [|done]. by intros [= <-]. Qed.

Lemma on_disk_sent (op : S → result () string * S) (w : World S) : sent (on_disk op w).2 = sent w.
Proof. unfold on_disk. by destruct (op (disk w)). Qed.

Lemma ensure_parent_ok p (w w' : World S) :
  ensure_parent_dirs p w = (Ok (), w') → files (disk w') = files (disk w) ∧ sent w' = sent w.
Proof.
  unfold ensure_parent_dirs. destruct (path_parent p) as [q|]; [destruct (is_empty q)|]; [by intros [= <-]| |by intros [= <-]].
  intros [Hd Hs]%on_disk_ok. split; [by apply make_dirs_ok in Hd|done].
Qed.

Lemma ensure_parent_sent p (w : World S) : sent (ensure_parent_dirs p w).2 = sent w.
Proof. unfold ensure_parent_dirs. destruct (path_parent p) as [q|]; [destruct (is_empty q)|]; [done|apply on_disk_sent|done]. Qed.

(** The steps of a change, one after the other: all succeed, or the first error
    ends it with nothing announced. *)
Ltac disk_step :=
  match goal with
  | |- context [ensure_parent_dirs ?p ?w] =>
      let E := fresh "E" in pose proof (ensure_parent_sent p w); destruct (ensure_parent_dirs p w) as [[[]|?] ?] eqn:E;
      [apply ensure_parent_ok in E as [? ?]|]
  | |- context [on_disk ?op ?w] =>
      let E := fresh "E" in pose proof (on_disk_sent op w); destruct (on_disk op w) as [[[]|?] ?] eqn:E;
      [apply on_disk_ok in E as [E ?]; first [apply write_file_ok in E|apply delete_file_ok in E]|]
  end; cbn [snd] in *.

Lemma change_applied id c (w : World S) :
  match apply_change id c w with
  | (Ok _, w') => files (disk w') = effect (files (disk w)) c ∧ sent w' = sent w ++ notices id c
  | (Err _, w') => sent w' = sent w
  end.
Proof.
  destruct c; cbn [apply_change effect notices]; repeat disk_step; cbn [send_file_written disk sent];
    rewrite <- ?app_assoc; cbn [app]; try (split; congruence); congruence.
Qed.

(** A move in its two stages. *)
Lemma move_stages id src dest old b (w w' : World S) fr :
  apply_change id (Move src dest old b) w = (Ok fr, w') →
  ∃ s1 : S, files s1 = <[canon dest := b]> (files (disk w)) ∧ files (disk w') = delete (canon src) (files s1).
Proof.
  cbn [apply_change]. repeat disk_step; try done. intros [= _ <-]. cbn [send_file_written disk].
  eexists. split; [|eassumption]. congruence.
Qed.

Lemma changes_applied id cs : ∀ w : World S,
  match apply_changes id cs w with
  | (Ok _, w') => files (disk w') = foldl effect (files (disk w)) cs
                  ∧ sent w' = sent w ++ concat (map (notices id) cs)
  | (Err _, w') => ∃ k, k < length cs ∧ sent w' = sent w ++ concat (map (notices id) (take k cs))
  end.
Proof.
  induction cs as [|c cs IH]; intros w; cbn [apply_changes foldl map concat]; [by rewrite app_nil_r|].
  pose proof (change_applied id c w) as Hc. destruct (apply_change id c w) as [[fr|e] w1].
  - destruct Hc as [Hf Hs]. specialize (IH w1). destruct (apply_changes id cs w1) as [[rs|e] w2]; cbn [result_bind].
    + destruct IH as [-> ->]. rewrite Hf, Hs. by rewrite <- app_assoc.
    + destruct IH as (k & Hk & ->). exists (Datatypes.S k). split; [cbn; lia|]. cbn [take map concat]. by rewrite Hs, <- app_assoc.
  - exists 0. split; [cbn; lia|]. cbn. by rewrite app_nil_r.
Qed.

Lemma change_total cwd s h : ∃ r, compute_change cwd s h = Some r.
Proof.
  destruct h as [p b|p|p mv cs]; cbn [compute_change]; [by eexists..|].
  destruct (map_err _ (read_file_as_string _ s)) as [b|e]; [|by eexists].
  destruct (derive_total b (path_join cwd p) cs) as [r ->]. by eexists.
Qed.

Lemma all_changes_total cwd s hs : ∃ r, compute_all_changes cwd s hs = Some r.
Proof.
  induction hs as [|h hs [r IH]]; cbn [compute_all_changes]; [by eexists|].
  destruct (change_total cwd s h) as [[c|e] ->]; cbn [mbind option_bind]; [|by eexists].
  rewrite IH. by eexists.
Qed.

(** C36: A patch is applied whole or not at all, up to the disk. Every call of
    the tool returns. A patch that does not parse, names no file or cannot be
    applied leaves the world as it was; a successful call has read every file
    before the first write, made exactly the patch's changes in their order and
    announced each of them; only an error of the file system itself can stop
    halfway, after a proper prefix of the changes has been announced. *)
Theorem patch_is_whole_or_nothing (cwd id text : string) (w : World S) :
  ∃ r w', run cwd id text w = Some (r, w') ∧
    match r with
    | Ok (Success results _) => ∃ p changes,
        parse_patch text = Some (Ok p) ∧ compute_all_changes cwd (disk w) (hunks p) = Some (Ok changes)
        ∧ files (disk w') = foldl effect (files (disk w)) changes
        ∧ sent w' = sent w ++ concat (map (notices id) changes)
    | Ok _ => w' = w
    | Err _ => ∃ p changes k,
        parse_patch text = Some (Ok p) ∧ compute_all_changes cwd (disk w) (hunks p) = Some (Ok changes)
        ∧ k < length changes ∧ sent w' = sent w ++ concat (map (notices id) (take k changes))
    end.
Proof.
  unfold run. destruct (parse_total text (if PARSE_IN_STRICT_MODE then Strict else Lenient)) as [parsed Hp].
  fold (parse_patch text) in Hp. rewrite Hp. cbn [mbind option_bind].
  destruct parsed as [p|e]; [|by eexists _, _]. destruct (is_nil (hunks p)); [by eexists _, _|].
  destruct (all_changes_total cwd (disk w) (hunks p)) as [r Hr]. rewrite Hr. cbn [mbind option_bind].
  destruct r as [changes|msg]; [|by eexists _, _].
  pose proof (changes_applied id changes w) as Ha. destruct (apply_changes id changes w) as [[rs|e] w']; cbn [result_bind].
  - destruct Ha as [Hf Hs]. eexists _, _. split; [done|]. cbn beta iota. by exists p, changes.
  - destruct Ha as (k & Hk & Hs). eexists _, _. split; [done|]. by exists p, changes, k.
Qed.
End tool.

(** *** Calls on the in-memory file system *)

Definition patch_text (body : list string) : string := join nl ("*** Begin Patch" :: body ++ ["*** End Patch"]).
Definition on_files (l : list (string * string)) : World Files := mkWorld (list_to_map l) [].
Definition outcome (r : option (result ApplyPatchOutput ToolError * World Files)) : option (bool * list (string * string) * list (string * option string)) :=
  (λ '(r, w), (match r with Ok (Success _ _) => true | _ => false end, map_to_list (disk w),
               map (λ n, (absolute_path n, previous_content n)) (sent w))) <$> r.

Lemma patch_is_whole_or_nothing_witness :
  ∃ r w', run "/w" "call" (patch_text ["*** Update File: a"; "@@"; "-x"; "+y"; "*** Delete File: b"]) (on_files [("/w/a", "x" +:+ nl)]) = Some (r, w') ∧
    match r with
    | Ok (Success results _) => ∃ p changes,
        parse_patch (patch_text ["*** Update File: a"; "@@"; "-x"; "+y"; "*** Delete File: b"]) = Some (Ok p)
        ∧ compute_all_changes "/w" (disk (on_files [("/w/a", "x" +:+ nl)])) (hunks p) = Some (Ok changes)
        ∧ files (disk w') = foldl effect (files (disk (on_files [("/w/a", "x" +:+ nl)]))) changes
        ∧ sent w' = sent (on_files [("/w/a", "x" +:+ nl)]) ++ concat (map (notices "call") changes)
    | Ok _ => w' = on_files [("/w/a", "x" +:+ nl)]
    | Err _ => ∃ p changes k,
        parse_patch (patch_text ["*** Update File: a"; "@@"; "-x"; "+y"; "*** Delete File: b"]) = Some (Ok p)
        ∧ compute_all_changes "/w" (disk (on_files [("/w/a", "x" +:+ nl)])) (hunks p) = Some (Ok changes)
        ∧ k < length changes
        ∧ sent w' = sent (on_files [("/w/a", "x" +:+ nl)]) ++ concat (map (notices "call") (take k changes))
    end.
Proof. apply (patch_is_whole_or_nothing (S := Files)). Defined.

Example updated :
  outcome (run "/w" "call" (patch_text ["*** Update File: a"; "@@"; "-x"; "+y"]) (on_files [("/w/a", "x" +:+ nl)]))
  = Some (true, [("/w/a", "y" +:+ nl)], [("/w/a", Some ("x" +:+ nl))]).
Proof. vm_compute. reflexivity. Qed.

(** *** Blind spots *)

(** Every change is worked out on the files as they were: of two updates of one
    file the second one undoes the first, and both are reported as made. *)
Lemma second_update_undoes_the_first :
  outcome (run "/w" "call" (patch_text ["*** Update File: a"; "@@"; "-x"; "+X"; "*** Update File: a"; "@@"; "-y"; "+Y"])
             (on_files [("/w/a", join nl ["x"; "y"; ""])]))
  = Some (true, [("/w/a", join nl ["x"; "Y"; ""])],
          [("/w/a", Some (join nl ["x"; "y"; ""])); ("/w/a", Some (join nl ["x"; "y"; ""]))]).
Proof. vm_compute. reflexivity. Qed.

(** A file moved onto itself is written, then deleted. *)
Lemma move_onto_itself_deletes :
  outcome (run "/w" "call" (patch_text ["*** Update File: a"; "*** Move to: a"; "@@"; "-x"; "+y"]) (on_files [("/w/a", "x" +:+ nl)]))
  = Some (true, [], [("/w/a", None); ("/w/a", Some ("x" +:+ nl))]).
Proof. vm_compute. reflexivity. Qed.

(** An added file, or the target of a move, may exist: it is overwritten and
    announced as new, with nothing before it. *)
Lemma added_file_may_exist :
  outcome (run "/w" "call" (patch_text ["*** Add File: a"; "+y"]) (on_files [("/w/a", "precious")]))
  = Some (true, [("/w/a", "y" +:+ nl)], [("/w/a", None)]).
Proof. vm_compute. reflexivity. Qed.

(** Bytes of a file that are not UTF-8 are replaced by an update, wherever they
    are. *)
Lemma other_encodings_are_damaged :
  outcome (run "/w" "call" (patch_text ["*** Update File: a"; "@@"; "-x"; "+y"]) (on_files [("/w/a", byte_str [120; 10; 233; 10])]))
  = Some (true, [("/w/a", "y" +:+ nl +:+ replacement_char +:+ nl)], [("/w/a", Some ("x" +:+ nl +:+ replacement_char +:+ nl))]).
Proof. vm_compute. reflexivity. Qed.
