(* ===== verification/Rewind.v ===== *)
(** * Undoing a prompt (xai-grok-workspace/src/session/file_state.rs, xai-grok-paths)

    While a prompt is worked on, the tracker keeps for every file that is touched
    what it held before; a rewind to a prompt puts the earliest of these back.
    The points of earlier runs of a session are loaded when a rewind first needs
    them. The order in which a [HashMap] is iterated is a parameter, and so is
    the reader of a line of JSON. *)

From Stdlib Require Import Ascii String.
From S2P Require Import Prelude RustStr Disk.
From stdpp Require Import options.

(** ** Paths (xai-grok-paths/src/lib.rs)

    A path stands for all its spellings with the same components, which is
    [Path]'s equality: what is kept is the canonical spelling. *)

Definition is_absolute (p : string) : bool := starts_with "/" p.

(** [Path::strip_prefix] *)
Definition strip_path_prefix (root p : string) : option string :=
  if path_starts_with p root
  then Some (path_of (drop (length (path_components root)) (path_components p)))
  else None.

Definition rel_new (p : string) : option string := if is_absolute p then None else Some (canon p).

Definition rel_from_absolute (root abs_path : string) : option string := strip_path_prefix root abs_path ≫= rel_new.

Definition to_relative_path (root abs_path : string) : string := default abs_path (strip_path_prefix root abs_path).

Definition from_relative_path (root rel_path : string) : string :=
  if is_absolute rel_path then rel_path else path_join root rel_path.

(** The components with [.] and [..] resolved; [stack] holds them in reverse. *)
Definition push_component (stack : list string) (c : string) : list string :=
  if String.eqb c "." then stack
  else if String.eqb c ".." then
    match stack with
    | top :: rest => if String.eqb top ".." then c :: stack else if String.eqb top "/" then stack else rest
    | [] => [c]
    end
  else c :: stack.

Definition normalize_lexically (p : string) : string :=
  match reverse (foldl push_component [] (path_components p)) with
  | [] => "."
  | cs => path_of cs
  end.

Definition contains_path (dir p : string) : bool := path_starts_with (normalize_lexically p) dir.

(** ** Flexible paths *)

Inductive FlexiblePath : Type := Relative (p : string) | Absolute (p : string).
#[export] Instance FlexiblePath_eq_dec : EqDecision FlexiblePath.
Proof. solve_decision. Defined.
#[export] Instance FlexiblePath_countable : Countable FlexiblePath.
Proof.
  refine (inj_countable' (λ p, match p with Relative s => inl s | Absolute s => inr s end)
            (λ x, match x with inl s => Relative s | inr s => Absolute s end) _).
  by intros [].
Defined.

Definition as_path (p : FlexiblePath) : string := match p with Relative s | Absolute s => s end.

Definition to_absolute (root : string) (p : FlexiblePath) : string :=
  match p with Relative s => path_join root s | Absolute s => s end.

Definition try_to_relative (root : string) (p : FlexiblePath) : FlexiblePath :=
  match p with
  | Relative s => Relative s
  | Absolute s => match rel_from_absolute root s with Some rel => Relative rel | None => Absolute s end
  end.

Definition is_relative (p : FlexiblePath) : bool := match p with Relative _ => true | Absolute _ => false end.

(** Written to and read from the session's file. *)
Definition flexible_from_str (s : string) : FlexiblePath :=
  match rel_new s with Some rel => Relative rel | None => Absolute (canon s) end.

(** ** Snapshots and points *)

Record FileSnapshot : Type := mkSnapshot {
  snap_path : FlexiblePath;
  snap_content : option string;
  captured_at : N;
}.

Record RewindPoint : Type := mkPoint {
  prompt_index : nat;
  created_at : N;
  file_snapshots : gmap FlexiblePath FileSnapshot;
  after_snapshots : gmap FlexiblePath FileSnapshot;
}.
#[export] Instance settable_RewindPoint : Settable RewindPoint :=
  λ p, mkPoint (prompt_index p) (created_at p) (file_snapshots p) (after_snapshots p).

Definition point_new (now : N) (i : nat) : RewindPoint := mkPoint i now ∅ ∅.

(** [entry(key).or_insert(v)] *)
Definition or_insert {K A} `{Countable K} (k : K) (v : A) (m : gmap K A) : gmap K A :=
  match m !! k with Some _ => m | None => <[k := v]> m end.

Definition add_snapshot (s : FileSnapshot) (p : RewindPoint) : RewindPoint :=
  p <| file_snapshots := or_insert (snap_path s) s (file_snapshots p) |>.

Definition set_after_snapshot (s : FileSnapshot) (p : RewindPoint) : RewindPoint :=
  p <| after_snapshots := <[snap_path s := s]> (after_snapshots p) |>.

Record RewindPointMeta : Type := mkMeta { meta_index : nat; meta_created : N; num_file_snapshots : nat }.
Definition meta_of (p : RewindPoint) : RewindPointMeta := mkMeta (prompt_index p) (created_at p) (size (file_snapshots p)).

(** ** Points on disk: one line of JSON each; a line that does not parse is skipped *)

Definition read_rewind_jsonl_lines {T} (from_str : string → option T) (file : result (option string) string)
    : result (list T) string :=
  let? text := file in
  match text with
  | None => Ok []
  | Some text => Ok (omap from_str (bfilter (λ l, negb (is_empty l)) (map trim (split_char newline text))))
  end.

Definition by_index (p q : RewindPoint) : Prop := (prompt_index p ≤ prompt_index q)%nat.
#[export] Instance by_index_dec : RelDecision by_index.
Proof. intros p q. unfold by_index. apply _. Defined.

Definition by_meta_index (p q : RewindPointMeta) : Prop := (meta_index p ≤ meta_index q)%nat.
#[export] Instance by_meta_index_dec : RelDecision by_meta_index.
Proof. intros p q. unfold by_meta_index. apply _. Defined.

(** [dedup_by_key]: of consecutive points with one index the first is kept. *)
Fixpoint dedup_points (l : list RewindPoint) : list RewindPoint :=
  match l with
  | [] => []
  | p :: l =>
      p :: match dedup_points l with
           | q :: rest => if Nat.eqb (prompt_index p) (prompt_index q) then rest else q :: rest
           | [] => []
           end
  end.

Definition absorb (previous merged : RewindPoint) : RewindPoint :=
  previous <| file_snapshots := file_snapshots previous ∪ file_snapshots merged |>
           <| after_snapshots := after_snapshots merged ∪ after_snapshots previous |>.

(** The points below the target, the one just before it taking the others in. *)
Definition merge_rewind_points_from (points : list RewindPoint) (target_index : nat) : list RewindPoint :=
  match target_index with
  | O => []
  | S before =>
      let points := dedup_points (stable_sort by_index points) in
      let kept := bfilter (λ p, prompt_index p <? target_index) points in
      let to_merge := bfilter (λ p, negb (prompt_index p <? target_index)) points in
      map (λ p, if Nat.eqb (prompt_index p) before then foldl absorb p to_merge else p) kept
  end.

(** ** The tracker *)

Record FileStateTracker : Type := mkTracker {
  rewind_points : gmap nat RewindPoint;
  current_prompt_index : option nat;
  lazy_source : option string;
}.
#[export] Instance settable_FileStateTracker : Settable FileStateTracker :=
  λ t, mkTracker (rewind_points t) (current_prompt_index t) (lazy_source t).

Definition tracker_new : FileStateTracker := mkTracker ∅ None None.
Definition with_lazy_source (path : string) : FileStateTracker := mkTracker ∅ None (Some path).

(** Rebuilding the map of the points. *)
Definition index_points (l : list RewindPoint) : gmap nat RewindPoint := foldl (λ m p, <[prompt_index p := p]> m) ∅ l.

Definition begin_prompt (now : N) (i : nat) (t : FileStateTracker) : FileStateTracker :=
  t <| current_prompt_index := Some i |> <| rewind_points := or_insert i (point_new now i) (rewind_points t) |>.

(** [get_mut(&i)] and a change of the point, if it is there. *)
Definition at_point (i : nat) (f : RewindPoint → RewindPoint) (t : FileStateTracker) : FileStateTracker :=
  t <| rewind_points := alter f i (rewind_points t) |>.

Definition add_before_snapshot_for_prompt (now : N) (i : nat) (path cwd : string) (content : option string)
    (t : FileStateTracker) : FileStateTracker :=
  match rel_from_absolute cwd path with
  | None => t
  | Some rel =>
      let t := t <| rewind_points := or_insert i (point_new now i) (rewind_points t) |> in
      at_point i (add_snapshot (mkSnapshot (Relative rel) content now)) t
  end.

Definition get_rewind_point (i : nat) (t : FileStateTracker) : option RewindPoint := rewind_points t !! i.

Inductive ConflictType : Type := DeletedExternally | CreatedExternally | ModifiedExternally.

Record FileRewindResponse : Type := mkResponse {
  rw_success : bool;
  rw_target : nat;
  reverted_files : list string;
  clean_files : list string;
  conflicts : list (string * ConflictType);
  rw_error : option string;
}.

Section operations.
Context {S : Type} `{WorkFs S} (root : string).
(** The session's file of points, and the iteration order of a [HashMap]. *)
Context (load : string → result (list RewindPoint) string)
        (scan : string → result (list RewindPointMeta) string)
        (iter : ∀ A : Type, gmap FlexiblePath A → list (FlexiblePath * A)).
Arguments iter {_} _.

(** [AsyncFsWrapper] resolves a path against the root. *)
Definition wrapped_read (p : FlexiblePath) (s : S) : result (option string) string := try_read_file (to_absolute root p) s.

(** [bytes_to_string], strict, as opposed to the tools' lossy reading; the error's
    text leaves out where the first wrong byte is. *)
Definition bytes_to_string (b : string) : result string string :=
  ok_or (from_utf8 b) "invalid utf-8 sequence".

Definition read_text (p : FlexiblePath) (s : S) : result (option string) string :=
  let? o := wrapped_read p s in
  match o with
  | None => Ok None
  | Some b => let? t := bytes_to_string b in Ok (Some t)
  end.

Definition capture_file_state_with_fs (now : N) (path cwd : string) (s : S) (t : FileStateTracker)
    : result () string * FileStateTracker :=
  match rel_from_absolute cwd path with
  | None => (Ok (), t)
  | Some rel =>
      match current_prompt_index t with
      | None => (Ok (), t)
      | Some i =>
          match (let? o := try_read_file path s in
                 match o with
                 | None => Ok None
                 | Some b => let? c := bytes_to_string b in Ok (Some c)
                 end) with
          | Err e => (Err e, t)
          | Ok content => (Ok (), at_point i (add_snapshot (mkSnapshot (Relative rel) content now)) t)
          end
      end
  end.

Definition end_prompt (now : N) (i : nat) (s : S) (t : FileStateTracker) : FileStateTracker :=
  let t := t <| current_prompt_index := None |> in
  let paths := match rewind_points t !! i with Some p => (iter (file_snapshots p)).*1 | None => [] end in
  foldl (λ t p,
    let content := match read_text p s with Ok o => o | Err _ => None end in
    at_point i (set_after_snapshot (mkSnapshot p content now)) t) t paths.

Definition ensure_historical_loaded (t : FileStateTracker) : FileStateTracker :=
  match lazy_source t with
  | None => t
  | Some path =>
      match load path with
      | Err _ => t
      | Ok loaded =>
          t <| rewind_points := foldl (λ m p, or_insert (prompt_index p) p m) (rewind_points t) loaded |>
            <| lazy_source := None |>
      end
  end.

Definition points_in_order (t : FileStateTracker) : list RewindPoint :=
  stable_sort by_index (map snd (map_to_list (rewind_points t))).

Definition get_rewind_points (t : FileStateTracker) : list RewindPoint * FileStateTracker :=
  let t := ensure_historical_loaded t in (points_in_order t, t).

Definition get_rewind_point_metas (t : FileStateTracker) : list RewindPointMeta :=
  let metas := meta_of <$> rewind_points t in
  let metas :=
    match lazy_source t with
    | None => metas
    | Some path =>
        match scan path with
        | Ok scanned => foldl (λ m x, or_insert (meta_index x) x m) metas scanned
        | Err _ => metas
        end
    end in
  stable_sort by_meta_index (map snd (map_to_list metas)).

Definition truncate_from (i : nat) (t : FileStateTracker) : FileStateTracker :=
  let t := ensure_historical_loaded t in
  t <| rewind_points := filter (λ '(j, _), (j < i)%nat) (rewind_points t) |>.

Definition merge_and_remove_from (target : nat) (t : FileStateTracker) : FileStateTracker :=
  let t := ensure_historical_loaded t in
  let all := map snd (map_to_list (rewind_points t)) in
  t <| rewind_points := index_points (merge_rewind_points_from all target) |>.

Definition max_prompt_index (t : FileStateTracker) : option nat * FileStateTracker :=
  let t := ensure_historical_loaded t in
  (match (map_to_list (rewind_points t)).*1 with
   | [] => None
   | i :: rest => Some (foldr Nat.max i rest)
   end, t).

Definition normalize_map (m : gmap FlexiblePath FileSnapshot) : gmap FlexiblePath FileSnapshot :=
  foldl (λ m '(p, s), let q := try_to_relative root p in <[q := mkSnapshot q (snap_content s) (captured_at s)]> m) ∅ (iter m).

Definition normalize_point (p : RewindPoint) : RewindPoint :=
  p <| file_snapshots := normalize_map (file_snapshots p) |> <| after_snapshots := normalize_map (after_snapshots p) |>.

Definition normalize_all_to_relative (t : FileStateTracker) : FileStateTracker :=
  let t := ensure_historical_loaded t in t <| rewind_points := normalize_point <$> rewind_points t |>.

Definition get_rewind_points_normalized (t : FileStateTracker) : list RewindPoint * FileStateTracker :=
  let t := ensure_historical_loaded t in
  (stable_sort by_index (map snd (map_to_list (normalize_point <$> rewind_points t))), t).

(** ** The rewind *)

(** The earliest snapshot of every file, from the target on. *)
Definition files_to_revert (target : nat) (all_points : list RewindPoint) : gmap FlexiblePath (option string) :=
  foldl (λ m p, m ∪ (snap_content <$> file_snapshots p)) ∅
    (bfilter (λ p, target <=? prompt_index p) all_points).

Definition after_content (all_points : list RewindPoint) (p : FlexiblePath) : option string :=
  match List.find (λ pt, match after_snapshots pt !! p with Some _ => true | None => false end) (reverse all_points) with
  | Some pt => after_snapshots pt !! p ≫= snap_content
  | None => None
  end.

Definition conflict_type (current after : option string) : ConflictType :=
  match current, after with
  | None, Some _ => DeletedExternally
  | Some _, None => CreatedExternally
  | _, _ => ModifiedExternally
  end.

Record RewindLoop : Type := mkLoop {
  lp_fs : S; lp_reverted : list string; lp_clean : list string; lp_conflicts : list (string * ConflictType);
  lp_errors : bool;
}.
#[export] Instance settable_RewindLoop : Settable RewindLoop :=
  λ l, mkLoop (lp_fs l) (lp_reverted l) (lp_clean l) (lp_conflicts l) (lp_errors l).

Definition revert_one (all_points : list RewindPoint) (l : RewindLoop) (e : FlexiblePath * option string) : RewindLoop :=
  let '(p, content) := e in
  let current := match read_text p (lp_fs l) with Ok c => c | Err _ => None end in
  let after := after_content all_points p in
  let l := if bool_decide (current = after) then l <| lp_clean := lp_clean l ++ [as_path p] |>
           else l <| lp_conflicts := lp_conflicts l ++ [(as_path p, conflict_type current after)] |> in
  let '(r, s) :=
    match content with
    | Some data => restore_file (to_absolute root p) data (lp_fs l)
    | None =>
        match exists_file (to_absolute root p) (lp_fs l) with
        | Ok true => remove_file (to_absolute root p) (lp_fs l)
        | _ => (Ok (), lp_fs l)
        end
    end in
  match r with
  | Err _ => l <| lp_fs := s |> <| lp_errors := true |>
  | Ok _ => l <| lp_fs := s |> <| lp_reverted := lp_reverted l ++ [as_path p] |>
  end.

Definition rewind_files (target : nat) (t : FileStateTracker) (s : S) : FileRewindResponse * FileStateTracker * S :=
  let '(all_points, t) := get_rewind_points t in
  let l := foldl (revert_one all_points) (mkLoop s [] [] [] false) (iter (files_to_revert target all_points)) in
  let t := if lp_errors l then t else truncate_from target t in
  (mkResponse (negb (lp_errors l)) target (lp_reverted l) (lp_clean l) (lp_conflicts l)
     (if lp_errors l then Some "Some files could not be reverted" else None), t, lp_fs l).
End operations.
