(* ===== verification/RewindFacts.v ===== *)
(** * A rewind undoes what the agent did

    As long as every write is announced with what the file held before, the
    earliest snapshots from a prompt on are the files as they were when the prompt
    began, and a rewind that succeeds puts them back. *)

From Stdlib Require Import Ascii String.
From S2P Require Import Prelude RustStr TrimLemmas Disk PathLemmas Rewind.
From stdpp Require Import options.

(** ** Relative keys *)

Lemma list_prefix_spec p l : list_prefix p l = true ↔ ∃ r, l = p ++ r.
Proof.
  revert l. induction p as [|x p IH]; intros l; cbn [list_prefix app]; [split; [by exists l|done]|].
  destruct l as [|y l]; [split; [done|by intros [r ?]]|]. rewrite andb_true_iff, String.eqb_eq, IH. split.
  - intros [-> [r ->]]. by exists r.
  - intros [r [= -> ->]]. split; [done|by exists r].
Qed.

Section keys.
Context (cwd : string) (Hcwd : starts_with "/" cwd = true).
#[local] Set Default Proof Using "All".

Lemma rel_components path rel :
  rel_from_absolute cwd path = Some rel →
  ∃ segs, Forall (λ s, segment s = true) segs ∧ rel = path_of segs
          ∧ path_components path = path_components cwd ++ segs.
Proof.
  unfold rel_from_absolute, strip_path_prefix. destruct (path_starts_with path cwd) eqn:E; [|done].
  apply list_prefix_spec in E as [r Hr]. rewrite Hr, drop_app_length. cbn [mbind option_bind].
  assert (Forall (λ s, segment s = true) r) as Hs.
  { destruct (starts_with "/" path) eqn:Hp.
    - rewrite (components_abs path Hp), (components_abs cwd Hcwd) in Hr. injection Hr as Hr.
      pose proof (norm_segs_ok path) as Hok. rewrite Hr in Hok. by apply Forall_app in Hok as [_ ?].
    - destruct (components_rel path Hp) as [dot Hd]. rewrite (components_abs cwd Hcwd) in Hr. exfalso.
      assert ("/" ∈ path_components path) as Hin by (rewrite Hr; left). rewrite Hd in Hin.
      apply elem_of_app in Hin as [Hin|Hin]; [destruct dot; by rewrite ?elem_of_cons, elem_of_nil in Hin; naive_solver|].
      pose proof (norm_segs_ok path) as Hok. rewrite Forall_forall in Hok. by specialize (Hok _ Hin). }
  unfold rel_new. destruct (is_absolute _); [done|]. intros [= <-]. exists r. split_and!; [done| |done].
  pose proof (components_path_of_rel r false Hs) as E. cbn [app] in E. unfold canon. by rewrite E.
Qed.

(** A file's key leads back to the file, and no two files share one. *)
Lemma rel_roundtrip path rel : rel_from_absolute cwd path = Some rel → canon (path_join cwd rel) = canon path.
Proof. intros (segs & Hs & -> & Hp)%rel_components. apply canon_eq. by rewrite join_components, Hp. Qed.

Definition inside (rel : string) : Prop := ∃ path, rel_from_absolute cwd path = Some rel.

Lemma key_inj r1 r2 : inside r1 → inside r2 → canon (path_join cwd r1) = canon (path_join cwd r2) → r1 = r2.
Proof.
  intros [p1 H1] [p2 H2]. rewrite (rel_roundtrip p1), (rel_roundtrip p2) by done. intros Hc%canon_eq.
  apply rel_components in H1 as (s1 & _ & -> & E1), H2 as (s2 & _ & -> & E2). rewrite E1, E2 in Hc.
  by apply app_inv_head in Hc as ->.
Qed.

Lemma key_of_same path1 path2 :
  canon path1 = canon path2 → rel_from_absolute cwd path1 = rel_from_absolute cwd path2.
Proof. intros Hc%canon_eq. unfold rel_from_absolute, strip_path_prefix, path_starts_with. by rewrite Hc. Qed.
End keys.

(** ** The earliest snapshots *)

Definition snaps (p : RewindPoint) : gmap FlexiblePath (option string) := snap_content <$> file_snapshots p.

Lemma files_to_revert_cons k p l :
  files_to_revert k (p :: l) = if k <=? prompt_index p then snaps p ∪ files_to_revert k l else files_to_revert k l.
Proof.
  unfold files_to_revert, bfilter. cbn [List.filter]. destruct (k <=? prompt_index p); [|done]. cbn [foldl].
  rewrite map_empty_union. fold (snaps p). generalize (List.filter (λ p, k <=? prompt_index p) l) (snaps p). clear.
  assert (∀ l (m n : gmap FlexiblePath (option string)), foldl (λ m p, m ∪ (snap_content <$> file_snapshots p)) (m ∪ n) l
    = m ∪ foldl (λ m p, m ∪ (snap_content <$> file_snapshots p)) n l) as H.
  { induction l as [|q l IH]; intros m n; [done|]. cbn [foldl]. by rewrite <- map_union_assoc, IH. }
  intros l m. by rewrite <- (map_union_empty m) at 1.
Qed.

Lemma files_to_revert_nil k : files_to_revert k [] = ∅.
Proof. done. Qed.

(** What the point of prompt [j] knows of a file, and the first of the prompts
    that knows it. *)
Definition snap_at (pts : gmap nat RewindPoint) (j : nat) (key : FlexiblePath) : option (option string) :=
  pts !! j ≫= λ p, snaps p !! key.

Definition earliest_in (k : nat) (pts : gmap nat RewindPoint) (key : FlexiblePath) (v : option string) : Prop :=
  ∃ i, k ≤ i ∧ snap_at pts i key = Some v ∧ ∀ j, k ≤ j < i → snap_at pts j key = None.

(** Every point is kept under its own index. *)
Definition coherent (pts : gmap nat RewindPoint) : Prop := ∀ i p, pts !! i = Some p → prompt_index p = i.

Lemma sorted_lookup k l key v :
  StronglySorted by_index l → NoDup (map prompt_index l) →
  files_to_revert k l !! key = Some v ↔
  ∃ p, p ∈ l ∧ k ≤ prompt_index p ∧ snaps p !! key = Some v
       ∧ ∀ q, q ∈ l → k ≤ prompt_index q < prompt_index p → snaps q !! key = None.
Proof.
  intros Hs. induction Hs as [|p l Hs IH Hall]; intros Hnd.
  { rewrite files_to_revert_nil, lookup_empty. split; [done|]. by intros (p & ?%elem_of_nil & _). }
  cbn [map] in Hnd. apply NoDup_cons in Hnd as [Hnin Hnd]. specialize (IH Hnd). rewrite Forall_forall in Hall.
  assert (∀ q, q ∈ l → prompt_index p < prompt_index q) as Hlt.
  { intros q Hq. specialize (Hall q Hq). unfold by_index in Hall.
    assert (prompt_index p ≠ prompt_index q); [|lia]. intros E. apply Hnin. rewrite E. by apply list_elem_of_fmap_2. }
  rewrite files_to_revert_cons. destruct (k <=? prompt_index p) eqn:Hk.
  - apply Nat.leb_le in Hk. rewrite lookup_union. destruct (snaps p !! key) as [w|] eqn:Hw.
    + rewrite union_Some_l. split.
      * intros [= <-]. exists p. split_and!; [left|done..|]. intros q [->|Hq]%elem_of_cons Hlq; [lia|]. specialize (Hlt q Hq). lia.
      * intros (q & [->|Hq]%elem_of_cons & Hkq & Hv & Hmin); [congruence|]. specialize (Hmin p ltac:(left)).
        rewrite Hmin in Hw by (specialize (Hlt q Hq); lia). done.
    + rewrite option_union_left_id, IH. split.
      * intros (q & Hq & Hkq & Hv & Hmin). exists q. split_and!; [by right|done..|].
        intros r [->|Hr]%elem_of_cons Hlr; [done|]. by apply Hmin.
      * intros (q & [->|Hq]%elem_of_cons & Hkq & Hv & Hmin); [congruence|]. exists q. split_and!; [done..|].
        intros r Hr. apply Hmin. by right.
  - apply Nat.leb_gt in Hk. rewrite IH. split.
    + intros (q & Hq & Hkq & Hv & Hmin). exists q. split_and!; [by right|done..|].
      intros r [->|Hr]%elem_of_cons Hlr; [lia|]. by apply Hmin.
    + intros (q & [->|Hq]%elem_of_cons & Hkq & Hv & Hmin); [lia|]. exists q. split_and!; [done..|].
      intros r Hr. apply Hmin. by right.
Qed.

#[export] Instance by_index_trans : Transitive by_index.
Proof. intros a b c. unfold by_index. lia. Qed.

Lemma ordered_points t :
  coherent (rewind_points t) →
  StronglySorted by_index (points_in_order t) ∧ NoDup (map prompt_index (points_in_order t))
  ∧ ∀ p, p ∈ points_in_order t ↔ rewind_points t !! prompt_index p = Some p.
Proof.
  intros Hc. unfold points_in_order. split_and!.
  - apply stable_sort_StronglySorted; [apply _|]. intros p q. unfold by_index. lia.
  - rewrite (stable_sort_Permutation by_index). rewrite map_map.
    assert (map (λ x, prompt_index x.2) (map_to_list (rewind_points t)) = (map_to_list (rewind_points t)).*1) as ->;
      [|apply NoDup_fst_map_to_list].
    apply map_ext_in. intros [i p] Hin%list_elem_of_In%elem_of_map_to_list. by apply Hc.
  - intros p. rewrite (stable_sort_Permutation by_index). rewrite list_elem_of_fmap. split.
    + intros ([i q] & -> & Hin%elem_of_map_to_list). cbn. by rewrite (Hc i q).
    + intros Hp. exists (prompt_index p, p). split; [done|]. by apply elem_of_map_to_list.
Qed.

Lemma revert_lookup k t key v :
  coherent (rewind_points t) →
  files_to_revert k (points_in_order t) !! key = Some v ↔ earliest_in k (rewind_points t) key v.
Proof.
  intros Hc. destruct (ordered_points t Hc) as (Hs & Hnd & Hin). rewrite sorted_lookup by done. unfold earliest_in. split.
  - intros (p & Hp & Hk & Hv & Hmin). apply Hin in Hp. exists (prompt_index p). unfold snap_at. rewrite Hp.
    split_and!; [done..|]. intros j Hj. destruct (rewind_points t !! j) as [q|] eqn:Hq; [|done].
    pose proof (Hc j q Hq) as Ej. cbn. apply Hmin; [apply Hin; by rewrite Ej|lia].
  - intros (i & Hk & Hv & Hmin). unfold snap_at in Hv. destruct (rewind_points t !! i) as [p|] eqn:Hp; [|done]. cbn in Hv.
    pose proof (Hc i p Hp) as Ei. exists p. split_and!; [apply Hin; by rewrite Ei|lia|done|].
    intros q Hq Hlt. apply Hin in Hq. specialize (Hmin (prompt_index q) ltac:(lia)). unfold snap_at in Hmin. by rewrite Hq in Hmin.
Qed.

(** ** Carrying a rewind out *)

Definition put_back (fs : Files) (k : string) (v : option string) : Files :=
  match v with Some b => <[k := b]> fs | None => delete k fs end.

Lemma lookup_put_back fs k v q : put_back fs k v !! q = if decide (k = q) then v else fs !! q.
Proof.
  destruct v as [b|]; cbn [put_back]; destruct (decide (k = q)) as [->|Hn].
  - apply lookup_insert_eq.
  - by apply lookup_insert_ne.
  - apply lookup_delete_eq.
  - by apply lookup_delete_ne.
Qed.

Section rewind.
Context {S : Type} `{WorkFsLaws S} (root : string).

(** A file that is to be deleted, of which the file system does not say whether
    it is there: the code takes that for a no and leaves it, without an error. *)
Definition left_alone (e : FlexiblePath * option string) : Prop :=
  e.2 = None ∧ ∃ (s : S) err, exists_file (to_absolute root e.1) s = Err err.
#[local] Set Default Proof Using "All".

Lemma revert_one_effect pts l e :
  let l' := revert_one root pts l e in
  lp_errors l' = false →
  lp_errors l = false
  ∧ (files (lp_fs l') = put_back (files (lp_fs l)) (canon (to_absolute root e.1)) e.2
     ∨ left_alone e ∧ files (lp_fs l') = files (lp_fs l)).
Proof.
  destruct e as [p content]. unfold revert_one. cbv zeta. cbn [fst snd].
  set (l1 := if bool_decide _ then _ else _).
  assert (lp_errors l1 = lp_errors l ∧ lp_fs l1 = lp_fs l) as [He Hf] by (unfold l1; by case_bool_decide).
  rewrite Hf. clearbody l1. destruct content as [data|]; cbn [put_back].
  - destruct (restore_file _ data (lp_fs l)) as [[[]|err] s] eqn:Hr; cbn; [|done]. intros Hl. split; [congruence|].
    left. by apply restore_file_ok in Hr.
  - destruct (exists_file (to_absolute root p) (lp_fs l)) as [[]|err] eqn:Hb.
    + destruct (remove_file _ (lp_fs l)) as [[[]|err] s] eqn:Hr; cbn; [|done]. intros Hl. split; [congruence|].
      left. by apply remove_file_ok in Hr.
    + cbn. intros Hl. split; [congruence|]. left. apply exists_file_ok in Hb. symmetry in Hb. apply bool_decide_eq_false in Hb.
      symmetry. apply delete_id. by apply eq_None_not_Some.
    + cbn. intros Hl. split; [congruence|]. right. split; [|done]. split; [done|]. by exists (lp_fs l), err.
Qed.

Lemma revert_all_effect pts es : ∀ l,
  let l' := foldl (revert_one root pts) l es in
  lp_errors l' = false →
  ∃ es', sublist es' es ∧ (∀ e, e ∈ es → e ∈ es' ∨ left_alone e)
    ∧ files (lp_fs l') = foldl (λ fs e, put_back fs (canon (to_absolute root e.1)) e.2) (files (lp_fs l)) es'.
Proof.
  assert (∀ es l, lp_errors (foldl (revert_one root pts) l es) = false → lp_errors l = false) as Hmono.
  { clear es. induction es as [|e es IH]; intros l; [done|]. cbn [foldl]. intros He%IH. by apply revert_one_effect in He as [? _]. }
  induction es as [|e es IH]; intros l; cbn [foldl].
  { intros _. exists []. split_and!; [done|by intros e ?%elem_of_nil|done]. }
  intros He. destruct (IH _ He) as (es' & Hsub & Hall & ->). apply Hmono in He. apply revert_one_effect in He as [_ [->|[Hl ->]]].
  - exists (e :: es'). split_and!; [by constructor| |done]. intros x [->|Hx]%elem_of_cons; [left; left|].
    destruct (Hall x Hx); [left; by right|by right].
  - exists es'. split_and!; [by constructor| |done]. intros x [->|Hx]%elem_of_cons; [by right|by apply Hall].
Qed.
End rewind.

Lemma lookup_put_all (key : FlexiblePath → string) es q : ∀ fs : Files,
  NoDup (map (λ e : FlexiblePath * option string, key e.1) es) →
  (∀ e, e ∈ es → key e.1 = q → foldl (λ fs e, put_back fs (key e.1) e.2) fs es !! q = e.2)
  ∧ ((∀ e, e ∈ es → key e.1 ≠ q) → foldl (λ fs e, put_back fs (key e.1) e.2) fs es !! q = fs !! q).
Proof.
  induction es as [|e es IH]; intros fs Hnd; cbn [map foldl] in *.
  { split; [by intros e ?%elem_of_nil|done]. }
  apply NoDup_cons in Hnd as [Hnin Hnd]. destruct (IH (put_back fs (key e.1) e.2) Hnd) as [H1 H2]. split.
  - intros e' [->|Hin]%elem_of_cons Hk; [|by apply H1]. rewrite H2.
    + rewrite lookup_put_back. by rewrite decide_True.
    + intros e' Hin Hk'. apply Hnin. rewrite Hk, <- Hk'. by apply (list_elem_of_fmap_2 (λ e, key e.1)).
  - intros Hne. rewrite H2 by (intros e' Hin; apply Hne; by right).
    rewrite lookup_put_back. rewrite decide_False; [done|]. apply Hne. left.
Qed.

(** ** What the agent does to the tracker and the files

    [Live] is the tracker, the disk and the prompt at work. Prompts come in
    order; a file that is read or written inside the working directory is
    recorded with what it held before. *)
Record Live (S : Type) : Type := mkLive { lv_tracker : FileStateTracker; lv_disk : S; lv_prompt : nat }.
Arguments mkLive {S} _ _ _.
Arguments lv_tracker {S} _.
Arguments lv_disk {S} _.
Arguments lv_prompt {S} _.

Lemma at_point_snap i f t j key :
  snap_at (rewind_points (at_point i f t)) j key
  = if decide (j = i) then rewind_points t !! i ≫= λ p, snaps (f p) !! key else snap_at (rewind_points t) j key.
Proof.
  unfold snap_at, at_point. cbn [rewind_points set_field]. destruct (decide (j = i)) as [->|Hn].
  - rewrite lookup_alter_eq. by destruct (rewind_points t !! i).
  - by rewrite lookup_alter_ne.
Qed.

Lemma add_snapshot_snaps s p key :
  snaps (add_snapshot s p) !! key
  = match snaps p !! key with
    | Some v => Some v
    | None => if decide (key = snap_path s) then Some (snap_content s) else None
    end.
Proof.
  unfold snaps, add_snapshot, or_insert. cbn [file_snapshots set_field]. rewrite !lookup_fmap.
  destruct (file_snapshots p !! snap_path s) as [s0|] eqn:E.
  - destruct (file_snapshots p !! key) as [s1|] eqn:E1; [done|]. cbn. rewrite decide_False; [done|]. intros ->. congruence.
  - destruct (decide (key = snap_path s)) as [->|Hn].
    + by rewrite lookup_insert_eq, E.
    + rewrite lookup_insert_ne by done. by destruct (file_snapshots p !! key).
Qed.

Lemma or_insert_point now i pts j key :
  snap_at (or_insert i (point_new now i) pts) j key = snap_at pts j key.
Proof.
  unfold snap_at, or_insert. destruct (pts !! i) as [p|] eqn:E; [done|]. destruct (decide (j = i)) as [->|Hn].
  - by rewrite lookup_insert_eq, E.
  - by rewrite lookup_insert_ne.
Qed.

(** Recording a file at the latest prompt: known files stay as they were. *)
Lemma record_snap now i path cwd content t rel j key :
  rel_from_absolute cwd path = Some rel →
  snap_at (rewind_points (add_before_snapshot_for_prompt now i path cwd content t)) j key
  = match snap_at (rewind_points t) j key with
    | Some v => Some v
    | None => if decide (j = i ∧ key = Relative rel) then Some content else None
    end.
Proof.
  intros Hr. unfold add_before_snapshot_for_prompt. rewrite Hr. rewrite at_point_snap. cbn [rewind_points set_field].
  rewrite or_insert_point. destruct (decide (j = i)) as [->|Hn].
  - assert (∃ p, or_insert i (point_new now i) (rewind_points t) !! i = Some p ∧ snaps p !! key = snap_at (rewind_points t) i key)
      as (p & -> & Hp).
    { pose proof (or_insert_point now i (rewind_points t) i key) as Ho. unfold snap_at in Ho at 1. unfold or_insert in *.
      destruct (rewind_points t !! i) as [p|] eqn:E; [exists p; unfold snap_at; by rewrite E|].
      rewrite lookup_insert_eq in *. by eexists. }
    cbn [mbind option_bind]. rewrite add_snapshot_snaps, Hp. destruct (snap_at (rewind_points t) i key); [done|]. cbn [snap_path snap_content].
    by repeat case_decide; naive_solver.
  - destruct (snap_at (rewind_points t) j key); [done|]. rewrite decide_False; [done|]. by intros [? _].
Qed.

Lemma coherent_insert i p pts : coherent pts → prompt_index p = i → coherent (<[i := p]> pts).
Proof. intros Hc Hp j q [[<- <-]|[_ Hq]]%lookup_insert_Some; [done|by apply Hc]. Qed.

Lemma coherent_or_insert i p pts : coherent pts → prompt_index p = i → coherent (or_insert i p pts).
Proof. intros Hc Hp. unfold or_insert. destruct (pts !! i); [done|]. by apply coherent_insert. Qed.

Lemma coherent_at_point i f t :
  (∀ p, prompt_index (f p) = prompt_index p) → coherent (rewind_points t) → coherent (rewind_points (at_point i f t)).
Proof.
  intros Hf Hc j q. unfold at_point. cbn [rewind_points set_field]. destruct (decide (i = j)) as [->|Hn].
  - rewrite lookup_alter_eq. destruct (rewind_points t !! j) as [p|] eqn:E; [|done]. intros [= <-]. rewrite Hf. by apply Hc.
  - rewrite lookup_alter_ne by done. apply Hc.
Qed.

Lemma coherent_record now i path cwd content t :
  coherent (rewind_points t) → coherent (rewind_points (add_before_snapshot_for_prompt now i path cwd content t)).
Proof.
  intros Hc. unfold add_before_snapshot_for_prompt. destruct (rel_from_absolute cwd path); [|done].
  apply coherent_at_point; [done|]. by apply coherent_or_insert.
Qed.

(** Something known from [k] on has an earliest snapshot. *)
Lemma earliest_exists k pts i key v : k ≤ i → snap_at pts i key = Some v → ∃ w, earliest_in k pts key w.
Proof.
  intros Hk Hv.
  assert (∀ n, (∃ w, earliest_in k pts key w) ∨ ∀ j, k ≤ j < k + n → snap_at pts j key = None) as Hsearch.
  { induction n as [|n [IH|IH]]; [right; lia|by left|]. destruct (snap_at pts (k + n) key) as [w|] eqn:E.
    - left. exists w, (k + n). split_and!; [lia|done|apply IH].
    - right. intros j Hj. destruct (decide (j = k + n)) as [->|]; [done|]. apply IH. lia. }
  destruct (Hsearch (i - k)) as [|Hnone]; [done|]. exists v, i. split_and!; [done..|]. intros j Hj. apply Hnone. lia.
Qed.

Section session.
Context {S : Type} `{WorkFsLaws S} (root cwd : string) (Hcwd : starts_with "/" cwd = true).
Context (iter : ∀ A : Type, gmap FlexiblePath A → list (FlexiblePath * A)).
#[local] Set Default Proof Using "All".

Definition key_file (rel : string) : string := canon (path_join cwd rel).

Inductive live_step : Live S → Live S → Prop :=
| LiveBegin now i t s j :
    j < i → live_step (mkLive t s j) (mkLive (begin_prompt now i t) s i)
| LiveRead now i path t s t' :
    current_prompt_index t = Some i → capture_file_state_with_fs now path cwd s t = (Ok (), t') →
    live_step (mkLive t s i) (mkLive t' s i)
| LiveWrite now i path rel new t s s' :
    rel_from_absolute cwd path = Some rel → files s' = put_back (files s) (canon path) new →
    live_step (mkLive t s i) (mkLive (add_before_snapshot_for_prompt now i path cwd (files s !! canon path) t) s' i)
| LiveEnd now i t s :
    live_step (mkLive t s i) (mkLive (end_prompt root iter now i s t) s i).

(** The snapshots from prompt [k] on say how the files differ from [base]. *)
Record undoes (k : nat) (base : Files) (l : Live S) : Prop := mkUndoes {
  un_coherent : coherent (rewind_points (lv_tracker l));
  un_prompt : k ≤ lv_prompt l;
  un_latest j key : is_Some (snap_at (rewind_points (lv_tracker l)) j key) → j ≤ lv_prompt l;
  un_keys j key : k ≤ j → is_Some (snap_at (rewind_points (lv_tracker l)) j key) → ∃ rel, key = Relative rel ∧ inside cwd rel;
  un_known rel v : inside cwd rel → earliest_in k (rewind_points (lv_tracker l)) (Relative rel) v → base !! key_file rel = v;
  un_unknown rel : inside cwd rel → (∀ v, ¬ earliest_in k (rewind_points (lv_tracker l)) (Relative rel) v) →
    files (lv_disk l) !! key_file rel = base !! key_file rel;
}.

(** A step that leaves the snapshots and the files alone. *)
Lemma undoes_same k base t t' s i i' :
  undoes k base (mkLive t s i) → coherent (rewind_points t') → i ≤ i' →
  (∀ j key, snap_at (rewind_points t') j key = snap_at (rewind_points t) j key) → undoes k base (mkLive t' s i').
Proof.
  intros [Hc Hk Hl Hkeys Hkn Hun] Hc' Hi Hs. cbn [lv_tracker lv_disk lv_prompt] in *.
  assert (∀ key v, earliest_in k (rewind_points t') key v ↔ earliest_in k (rewind_points t) key v) as He
    by (intros; unfold earliest_in; by setoid_rewrite Hs).
  split; cbn [lv_tracker lv_disk lv_prompt]; [done|lia|..].
  - intros j key. rewrite Hs. intros Hj%Hl. lia.
  - intros j key. rewrite Hs. apply Hkeys.
  - intros rel v Hr. rewrite He. by apply Hkn.
  - intros rel Hr Hn. apply Hun; [done|]. intros v. rewrite <- He. apply Hn.
Qed.

(** A file recorded with what it holds now may be changed. *)
Lemma undoes_record k base t t' s s' i rel new :
  undoes k base (mkLive t s i) → coherent (rewind_points t') → inside cwd rel →
  files s' = put_back (files s) (key_file rel) new →
  (∀ j key, snap_at (rewind_points t') j key =
     match snap_at (rewind_points t) j key with
     | Some v => Some v
     | None => if decide (j = i ∧ key = Relative rel) then Some (files s !! key_file rel) else None
     end) →
  undoes k base (mkLive t' s' i).
Proof.
  intros [Hc Hk Hl Hkeys Hkn Hun] Hc' Hin Hf Hs. cbn [lv_tracker lv_disk lv_prompt] in *.
  assert (∀ r v, r ≠ rel → earliest_in k (rewind_points t') (Relative r) v ↔ earliest_in k (rewind_points t) (Relative r) v) as Hother.
  { intros r v Hr. unfold earliest_in. setoid_rewrite Hs.
    assert (∀ j, (match snap_at (rewind_points t) j (Relative r) with Some v => Some v
      | None => if decide (j = i ∧ Relative r = Relative rel) then Some (files s !! key_file rel) else None end)
      = snap_at (rewind_points t) j (Relative r)) as Heq; [|by setoid_rewrite Heq].
    intros j. destruct (snap_at _ j _); [done|]. rewrite decide_False; [done|]. naive_solver. }
  split; cbn [lv_tracker lv_disk lv_prompt]; [done|done|..].
  - intros j key. rewrite Hs. destruct (snap_at _ j key) eqn:E; [intros _; apply (Hl j key); by eexists|].
    case_decide; [lia|by intros []].
  - intros j key Hj. rewrite Hs. destruct (snap_at _ j key) eqn:E; [intros _; apply (Hkeys j key); [done|by eexists]|].
    case_decide as Hd; [|by intros []]. intros _. exists rel. naive_solver.
  - intros r v Hr He. destruct (decide (r = rel)) as [->|Hn]; [|by apply Hkn, Hother].
    destruct He as (m & Hm & Hv & Hmin). rewrite Hs in Hv.
    assert (∀ j, k ≤ j < m → snap_at (rewind_points t) j (Relative rel) = None) as Hold.
    { intros j Hj. specialize (Hmin j Hj). rewrite Hs in Hmin. by destruct (snap_at (rewind_points t) j _). }
    destruct (snap_at (rewind_points t) m (Relative rel)) as [w|] eqn:E.
    + injection Hv as ->. apply Hkn; [done|]. by exists m.
    + case_decide as Hd; [|done]. destruct Hd as [-> _]. injection Hv as <-. symmetry. apply Hun; [done|].
      intros w (j & Hj & Hw & _). assert (j ≤ i) as Hji by (apply (Hl j (Relative rel)); by eexists).
      destruct (decide (j = i)) as [->|]; [congruence|]. rewrite Hold in Hw by lia. done.
  - intros r Hr Hn. rewrite Hf, lookup_put_back. destruct (decide (r = rel)) as [->|Hne].
    + destruct (earliest_exists k (rewind_points t') i (Relative rel)
        (default (files s !! key_file rel) (snap_at (rewind_points t) i (Relative rel)))) as [w Hw]; [done| |by destruct (Hn w)].
      rewrite Hs. destruct (snap_at _ i _); [done|]. by rewrite decide_True.
    + rewrite decide_False by (intros E; apply Hne; by apply (key_inj cwd Hcwd)).
      apply Hun; [done|]. intros v. rewrite <- Hother by done. apply Hn.
Qed.

Lemma set_after_snap i s t j key :
  snap_at (rewind_points (at_point i (set_after_snapshot s) t)) j key = snap_at (rewind_points t) j key.
Proof.
  rewrite at_point_snap. destruct (decide (j = i)) as [->|]; [|done]. unfold snap_at. by destruct (rewind_points t !! i).
Qed.

Lemma end_prompt_snap now i (s : S) t :
  coherent (rewind_points t) →
  coherent (rewind_points (end_prompt root iter now i s t))
  ∧ ∀ j key, snap_at (rewind_points (end_prompt root iter now i s t)) j key = snap_at (rewind_points t) j key.
Proof.
  unfold end_prompt. cbn [rewind_points set_field]. generalize (match rewind_points t !! i with Some p => (iter _ (file_snapshots p)).*1 | None => [] end).
  intros ps Hc. set (t0 := t <| current_prompt_index := None |>).
  assert (coherent (rewind_points t0) ∧ ∀ j key, snap_at (rewind_points t0) j key = snap_at (rewind_points t) j key) as Ht0 by done.
  clearbody t0. revert t0 Ht0. induction ps as [|p ps IH]; intros t0 [Hc0 Hs0]; [done|]. cbn [foldl]. apply IH. split.
  - by apply coherent_at_point.
  - intros j key. by rewrite set_after_snap.
Qed.

Lemma bytes_to_string_ok b c : bytes_to_string b = Ok c → c = b.
Proof. unfold bytes_to_string, from_utf8. destruct (String.eqb _ _); cbn; [|done]. by intros [= <-]. Qed.

Lemma put_back_same (fs : Files) key : put_back fs key (fs !! key) = fs.
Proof. destruct (fs !! key) eqn:E; cbn; [by apply insert_id|by apply delete_id]. Qed.

Lemma undoes_read k base now i path s t t' :
  undoes k base (mkLive t s i) → current_prompt_index t = Some i →
  capture_file_state_with_fs now path cwd s t = (Ok (), t') → undoes k base (mkLive t' s i).
Proof.
  intros Hu Hi. unfold capture_file_state_with_fs. destruct (rel_from_absolute cwd path) as [rel|] eqn:Hr; [|by intros [= <-]].
  rewrite Hi. destruct (try_read_file path s) as [o|e] eqn:Ho; cbn [result_bind]; [|done].
  apply try_read_file_ok in Ho. pose proof (un_coherent _ _ _ Hu) as Hc. cbn [lv_tracker] in Hc.
  assert (∀ content, content = o →
    undoes k base (mkLive (at_point i (add_snapshot (mkSnapshot (Relative rel) content now)) t) s i)) as Hgo.
  { intros content ->. destruct (rewind_points t !! i) as [p|] eqn:Hp.
    - apply (undoes_record k base t _ s s i rel (files s !! key_file rel)); [done|by apply coherent_at_point|by exists path|by rewrite put_back_same|].
      intros j key. rewrite at_point_snap. unfold key_file. rewrite (rel_roundtrip cwd Hcwd path rel Hr), Ho.
      destruct (decide (j = i)) as [->|Hn].
      + unfold snap_at. rewrite Hp. cbn [mbind option_bind]. rewrite add_snapshot_snaps. destruct (snaps p !! key); [done|].
        cbn [snap_path snap_content]. repeat case_decide; naive_solver.
      + destruct (snap_at _ j key); [done|]. rewrite decide_False; [done|]. by intros [? _].
    - apply (undoes_same k base t _ s i i); [done|by apply coherent_at_point|done|].
      intros j key. rewrite at_point_snap. destruct (decide (j = i)) as [->|]; [|done]. unfold snap_at. by rewrite Hp. }
  destruct o as [b|]; cbn [result_bind].
  - destruct (bytes_to_string b) as [c|e] eqn:Hb; cbn [result_bind]; [|done]. intros [= <-].
    apply bytes_to_string_ok in Hb as ->. by apply Hgo.
  - intros [= <-]. by apply Hgo.
Qed.

Lemma undoes_step k base l l' : live_step l l' → undoes k base l → undoes k base l'.
Proof.
  intros Hstep Hu. pose proof (un_coherent _ _ _ Hu) as Hc. destruct Hstep; cbn [lv_tracker] in Hc.
  - eapply undoes_same; [exact Hu| |lia|].
    + unfold begin_prompt. cbn. by apply coherent_or_insert.
    + intros. apply or_insert_point.
  - by eapply undoes_read.
  - apply (undoes_record k base t _ s s' i rel new); [done|by apply coherent_record|by exists path| |].
    + unfold key_file. by rewrite (rel_roundtrip cwd Hcwd path rel).
    + intros j key. unfold key_file. rewrite (rel_roundtrip cwd Hcwd path rel) by done. by apply record_snap.
  - destruct (end_prompt_snap now i s t Hc) as [Hc' Hs]. by eapply undoes_same.
Qed.

(** Nothing is known from the prompt on when it begins. *)
Definition fresh_from (k : nat) (t : FileStateTracker) : Prop :=
  coherent (rewind_points t) ∧ ∀ j p, rewind_points t !! j = Some p → j < k.

Lemma undoes_start now k t s :
  fresh_from k t → undoes k (files s) (mkLive (begin_prompt now k t) s k).
Proof.
  intros [Hc Hk].
  assert (∀ j key, k ≤ j → snap_at (rewind_points (begin_prompt now k t)) j key = None) as Hnone.
  { intros j key Hj. unfold begin_prompt. cbn [rewind_points set_field]. rewrite or_insert_point. unfold snap_at.
    destruct (rewind_points t !! j) as [p|] eqn:E; [|done]. apply Hk in E. lia. }
  assert (∀ key v, ¬ earliest_in k (rewind_points (begin_prompt now k t)) key v) as Hno.
  { intros key v (j & Hj & Hv & _). by rewrite Hnone in Hv. }
  split; cbn [lv_tracker lv_disk lv_prompt].
  - by apply coherent_or_insert.
  - done.
  - intros j key [v Hv]. destruct (decide (k ≤ j)); [by rewrite Hnone in Hv|lia].
  - intros j key Hj [v Hv]. by rewrite Hnone in Hv.
  - intros rel v _ He. by apply Hno in He.
  - done.
Qed.

End session.

(** ** The rewind *)

Lemma loaded_snap load k t j key :
  (∀ path l, load path = Ok l → Forall (λ p, prompt_index p < k) l) → k ≤ j →
  snap_at (rewind_points (ensure_historical_loaded load t)) j key = snap_at (rewind_points t) j key.
Proof.
  intros Hload Hj. unfold ensure_historical_loaded. destruct (lazy_source t) as [path|]; [|done].
  destruct (load path) as [l|e] eqn:E; [|done]. apply Hload in E. cbn [rewind_points set_field].
  generalize (rewind_points t). induction E as [|p l Hp _ IH]; intros m; [done|]. cbn [foldl]. rewrite IH.
  unfold snap_at, or_insert. destruct (m !! prompt_index p); [done|]. rewrite lookup_insert_ne by lia. done.
Qed.

Lemma loaded_coherent load t : coherent (rewind_points t) → coherent (rewind_points (ensure_historical_loaded load t)).
Proof.
  intros Hc. unfold ensure_historical_loaded. destruct (lazy_source t) as [path|]; [|done].
  destruct (load path) as [l|e]; [|done]. cbn [rewind_points set_field].
  revert Hc. generalize (rewind_points t). induction l as [|p l IH]; intros m Hc; [done|]. cbn [foldl].
  apply IH. by apply coherent_or_insert.
Qed.

Lemma revert_keys cwd (Hcwd : starts_with "/" cwd = true) k t (Hc : coherent (rewind_points t)) (es : list (FlexiblePath * option string)) :
  (∀ j key, k ≤ j → is_Some (snap_at (rewind_points t) j key) → ∃ rel, key = Relative rel ∧ inside cwd rel) →
  es ≡ₚ map_to_list (files_to_revert k (points_in_order t)) →
  NoDup (map (λ e : FlexiblePath * option string, canon (to_absolute cwd e.1)) es)
  ∧ ∀ e, e ∈ es → ∃ rel, e.1 = Relative rel ∧ inside cwd rel ∧ earliest_in k (rewind_points t) (Relative rel) e.2.
Proof.
  intros Hkeys Hes.
  assert (∀ e, e ∈ es → ∃ rel, e.1 = Relative rel ∧ inside cwd rel ∧ earliest_in k (rewind_points t) (Relative rel) e.2) as Hin.
  { intros [key v] He. rewrite Hes in He. apply elem_of_map_to_list in He. apply revert_lookup in He; [|done].
    pose proof He as (j & Hj & Hv & _). destruct (Hkeys j key Hj) as (rel & -> & Hr); [by eexists|]. by exists rel. }
  split; [|done]. rewrite <- (map_map fst (λ p, canon (to_absolute cwd p))). apply (NoDup_fmap_2_strong (λ p, canon (to_absolute cwd p))).
  - intros p1 p2 (e1 & -> & He1)%list_elem_of_fmap (e2 & -> & He2)%list_elem_of_fmap.
    destruct (Hin e1 He1) as (r1 & -> & ? & _), (Hin e2 He2) as (r2 & -> & ? & _). cbn [to_absolute].
    intros E. f_equal. by apply (key_inj cwd Hcwd).
  - rewrite Hes. apply NoDup_fst_map_to_list.
Qed.

(** A file is as it was; or it was not there, its existence could not be found
    out, and it is left as the rewind found it. *)
Definition put_right {S : Type} `{HasFiles S} `{!WorkFs S} (cwd : string) (base : Files) (s s' : S) (path rel : string) : Prop :=
  files s' !! canon path = base !! canon path
  ∨ base !! canon path = None ∧ files s' !! canon path = files s !! canon path
    ∧ ∃ (s1 : S) err, exists_file (path_join cwd rel) s1 = Err err.

Lemma rewind_puts_back {S : Type} `{WorkFsLaws S} cwd (Hcwd : starts_with "/" cwd = true)
    (iter : ∀ A : Type, gmap FlexiblePath A → list (FlexiblePath * A))
    (load : string → result (list RewindPoint) string) (k i : nat) t (s : S) base :
  (∀ A m, iter A m ≡ₚ map_to_list m) →
  (∀ path l, load path = Ok l → Forall (λ p, prompt_index p < k) l) →
  undoes cwd k base (mkLive t s i) →
  let '(resp, t', s') := rewind_files cwd load iter k t s in
  rw_success resp = true →
  (∀ path rel, rel_from_absolute cwd path = Some rel → put_right cwd base s s' path rel)
  ∧ (∀ path, rel_from_absolute cwd path = None → files s' !! canon path = files s !! canon path)
  ∧ (∀ j p, rewind_points t' !! j = Some p → j < k).
Proof.
  intros Hiter Hload Hu.
  destruct Hu as [Hc _ _ Hkeys Hkn Hun]. cbn [lv_tracker lv_disk lv_prompt] in *.
  unfold rewind_files, get_rewind_points. set (t1 := ensure_historical_loaded load t).
  assert (coherent (rewind_points t1)) as Hc1 by by apply loaded_coherent.
  assert (∀ j key, k ≤ j → snap_at (rewind_points t1) j key = snap_at (rewind_points t) j key) as Hs1
    by (intros; by apply (loaded_snap load k)).
  assert (∀ key v, earliest_in k (rewind_points t1) key v ↔ earliest_in k (rewind_points t) key v) as He1.
  { intros key v. split; intros (j & Hj & Hv & Hmin); exists j; (split; [done|]); split.
    - by rewrite <- Hs1. - intros m Hm. rewrite <- Hs1 by lia. by apply Hmin.
    - by rewrite Hs1. - intros m Hm. rewrite Hs1 by lia. by apply Hmin. }
  set (es := iter _ (files_to_revert k (points_in_order t1))).
  destruct (revert_keys cwd Hcwd k t1 Hc1 es) as [Hnd Hes]; [|apply Hiter|].
  { intros j key Hj. rewrite Hs1 by done. by apply Hkeys. }
  cbn [rw_success]. intros Hok%negb_true_iff.
  destruct (revert_all_effect cwd (points_in_order t1) es (mkLoop s [] [] [] false) Hok) as (es' & Hsub & Hall & Heff).
  rewrite Hok. cbn [lp_fs] in *.
  assert (NoDup (map (λ e : FlexiblePath * option string, canon (to_absolute cwd e.1)) es')) as Hnd'
    by (eapply sublist_NoDup; [exact Hnd|by apply (fmap_sublist (λ e : FlexiblePath * option string, canon (to_absolute cwd e.1)))]).
  assert (∀ e, e ∈ es' → e ∈ es) as Hsub' by (intros e; by apply sublist_subseteq).
  split_and!.
  - intros path rel Hr. unfold put_right. rewrite Heff. rewrite <- (rel_roundtrip cwd Hcwd path rel Hr).
    assert (inside cwd rel) as Hin by by exists path.
    destruct (lookup_put_all (λ p, canon (to_absolute cwd p)) es' (canon (path_join cwd rel)) (files s) Hnd') as [Hhit Hmiss].
    destruct (files_to_revert k (points_in_order t1) !! Relative rel) as [v|] eqn:Hv.
    + assert ((Relative rel, v) ∈ es) as He by (unfold es; rewrite Hiter; by apply elem_of_map_to_list).
      apply revert_lookup in Hv; [|done]. assert (base !! canon (path_join cwd rel) = v) as Hbase by (apply Hkn; [done|by apply He1]).
      destruct (decide ((Relative rel, v) ∈ es')) as [He'|Hne'].
      * left. by rewrite (Hhit (Relative rel, v)).
      * right. destruct (Hall _ He) as [?|[Hnone Hun']]; [done|]. cbn in Hnone, Hun'. rewrite Hnone in Hbase. split_and!; [done| |done].
        apply Hmiss. intros e Hee Hk. destruct (Hes e (Hsub' e Hee)) as (r & Her & Hri & Hear). rewrite Her in Hk. cbn [to_absolute] in Hk.
        apply (key_inj cwd Hcwd) in Hk as ->; [|done..]. destruct e as [key x]. cbn [fst snd] in *. subst key.
        apply Hne'. replace v with x; [done|]. apply revert_lookup in Hear, Hv; [|done..]. congruence.
    + left. rewrite Hmiss.
      * apply Hun; [done|]. intros v Hv'%He1. apply revert_lookup in Hv'; [|done]. congruence.
      * intros e He%Hsub' Hk. destruct (Hes e He) as (r & Her & Hri & Hear). rewrite Her in Hk. cbn [to_absolute] in Hk.
        apply (key_inj cwd Hcwd) in Hk as ->; [|done..]. apply revert_lookup in Hear; [|done]. congruence.
  - intros path Hr. rewrite Heff.
    destruct (lookup_put_all (λ p, canon (to_absolute cwd p)) es' (canon path) (files s) Hnd') as [_ Hmiss]. apply Hmiss.
    intros e He%Hsub' Hk. destruct (Hes e He) as (r & Her & [p Hp] & _). rewrite Her in Hk. cbn [to_absolute] in Hk.
    rewrite (rel_roundtrip cwd Hcwd p r Hp) in Hk. apply (key_of_same cwd Hcwd) in Hk. congruence.
  - intros j p. unfold truncate_from. cbn [rewind_points set_field]. by intros [_ Hj]%map_lookup_filter_Some.
Qed.


(** C30: A rewind undoes everything since the prompt. Let prompt [k] begin when
    nothing is recorded from [k] on, let the points still on disk be of prompts
    before [k], and let prompts begin and end and the agent read and write files
    in any order, every write inside the working directory being announced with
    what the file held. A rewind to [k] that reports success, in whatever order
    the files are visited, leaves every file inside the working directory exactly
    as it was when [k] began, with one exception that the success hides: a file
    that was not there then stays as it is when the file system cannot say
    whether it exists. The rewind touches no file outside the directory and
    forgets the points from [k] on. (A file is a path without empty and dot
    components, as the tracker keys it: spellings through ".." or a link count as
    files of their own, [two_spellings_two_snapshots].) *)
Theorem rewind_undoes_the_prompts {S : Type} `{WorkFsLaws S} (cwd : string)
    (iter : ∀ A : Type, gmap FlexiblePath A → list (FlexiblePath * A))
    (load : string → result (list RewindPoint) string)
    (now : N) (k i : nat) (t0 t : FileStateTracker) (s0 s : S) :
  starts_with "/" cwd = true →
  (∀ A m, iter A m ≡ₚ map_to_list m) →
  (∀ path l, load path = Ok l → Forall (λ p, prompt_index p < k) l) →
  fresh_from k t0 →
  rtc (live_step cwd cwd iter) (mkLive (begin_prompt now k t0) s0 k) (mkLive t s i) →
  let '(resp, t', s') := rewind_files cwd load iter k t s in
  rw_success resp = true →
  (∀ path rel, rel_from_absolute cwd path = Some rel → put_right cwd (files s0) s s' path rel)
  ∧ (∀ path, rel_from_absolute cwd path = None → files s' !! canon path = files s !! canon path)
  ∧ (∀ j p, rewind_points t' !! j = Some p → j < k).
Proof.
  intros Hcwd Hiter Hload Hfresh Hsteps. apply (rewind_puts_back cwd Hcwd iter load k i); [done..|].
  remember (mkLive (begin_prompt now k t0) s0 k) as l0 eqn:El0. remember (mkLive t s i) as l eqn:El.
  assert (undoes cwd k (files s0) l0) as Hu0 by (subst l0; by apply undoes_start).
  clear El0 El. induction Hsteps as [|l1 l2 l3 Hst _ IH]; [done|]. apply IH. by eapply undoes_step.
Qed.

(** A prompt that changes one file and creates another, and its rewind. *)
Definition all_entries (A : Type) (m : gmap FlexiblePath A) : list (FlexiblePath * A) := map_to_list m.
Definition no_points (path : string) : result (list RewindPoint) string := Ok [].
Definition disk_before : Files := {["/w/a" := "old"]}.
Definition disk_mid : Files := put_back disk_before "/w/a" (Some "new").
Definition disk_after : Files := put_back disk_mid "/w/b" (Some "b").
Definition tracked_mid : FileStateTracker :=
  add_before_snapshot_for_prompt 1 0 "/w/./a" "/w" (files disk_before !! canon "/w/./a") (begin_prompt 0 0 tracker_new).
Definition tracked : FileStateTracker :=
  add_before_snapshot_for_prompt 2 0 "/w/b" "/w" (files disk_mid !! canon "/w/b") tracked_mid.

Lemma rewind_undoes_the_prompts_witness :
  rw_success (rewind_files "/w" no_points all_entries 0 tracked disk_after).1.1 = true ∧
  let '(resp, t', s') := rewind_files "/w" no_points all_entries 0 tracked disk_after in
  rw_success resp = true →
  (∀ path rel, rel_from_absolute "/w" path = Some rel → put_right "/w" (files disk_before) disk_after s' path rel)
  ∧ (∀ path, rel_from_absolute "/w" path = None → files s' !! canon path = files disk_after !! canon path)
  ∧ (∀ j p, rewind_points t' !! j = Some p → j < 0).
Proof.
  split; [vm_compute; reflexivity|].
  apply (rewind_undoes_the_prompts "/w" all_entries no_points 0 0 0 tracker_new tracked disk_before disk_after).
  - reflexivity.
  - reflexivity.
  - intros path l [= <-]. constructor.
  - split; [intros i p Hp|intros j p Hp]; change (rewind_points tracker_new) with (∅ : gmap nat RewindPoint) in Hp;
      by rewrite lookup_empty in Hp.
  - apply (rtc_l _ _ (mkLive tracked_mid disk_mid 0)); [|apply rtc_once].
    + apply (LiveWrite "/w" "/w" all_entries 1 0 "/w/./a" "a" (Some "new") (begin_prompt 0 0 tracker_new) disk_before disk_mid);
        vm_compute; reflexivity.
    + apply (LiveWrite "/w" "/w" all_entries 2 0 "/w/b" "b" (Some "b") tracked_mid disk_mid disk_after); vm_compute; reflexivity.
Defined.

(** ** Folding prompts into an earlier one *)

Lemma dedup_head p l : ∃ q rest, dedup_points (p :: l) = q :: rest ∧ q = p.
Proof. by eexists _, _. Qed.

Lemma dedup_nodup l : NoDup (map prompt_index l) → dedup_points l = l.
Proof.
  induction l as [|p l IH]; [done|]. cbn [map]. intros [Hp Hl]%NoDup_cons. cbn [dedup_points]. rewrite IH by done.
  destruct l as [|q l]; [done|]. destruct (Nat.eqb _ _) eqn:E; [|done]. apply Nat.eqb_eq in E. exfalso. apply Hp. rewrite E. left.
Qed.

Lemma absorb_snaps p l : snaps (foldl absorb p l) = foldl (λ m q, m ∪ snaps q) (snaps p) l.
Proof.
  revert p. induction l as [|q l IH]; intros p; [done|]. cbn [foldl]. rewrite IH. f_equal. unfold snaps, absorb.
  cbn [file_snapshots set_field]. apply map_fmap_union.
Qed.

Lemma absorb_index p l : prompt_index (foldl absorb p l) = prompt_index p.
Proof. revert p. induction l as [|q l IH]; intros p; [done|]. cbn [foldl]. by rewrite IH. Qed.

Lemma insert_all_lookup l j p : ∀ m : gmap nat RewindPoint,
  NoDup (map prompt_index l) →
  foldl (λ m p, <[prompt_index p := p]> m) m l !! j = Some p ↔
  p ∈ l ∧ prompt_index p = j ∨ m !! j = Some p ∧ ∀ q, q ∈ l → prompt_index q ≠ j.
Proof.
  induction l as [|r l IH]; intros m Hnd; cbn [foldl map] in *.
  { split; [intros Hp; right; split; [done|by intros q ?%elem_of_nil]|by intros [[?%elem_of_nil _]|[? _]]]. }
  apply NoDup_cons in Hnd as [Hr Hnd]. rewrite IH by done. rewrite lookup_insert_Some. setoid_rewrite elem_of_cons. split.
  - intros [[Hp Hj]|[[[Hj ->]|[Hn Hm]] Hno]].
    + left. split; [by right|done].
    + left. split; [by left|done].
    + right. split; [done|]. intros q [->|Hq]; [done|by apply Hno].
  - intros [[[->|Hp] Hj]|[Hm Hno]].
    + right. split; [by left|]. intros q Hq Hqj. apply Hr. rewrite Hj, <- Hqj. by apply list_elem_of_fmap_2.
    + left. done.
    + right. split; [right; split; [apply Hno; by left|done]|]. intros q Hq. apply Hno. by right.
Qed.

Definition merged_point (before : nat) (to_merge : list RewindPoint) (p : RewindPoint) : RewindPoint :=
  if Nat.eqb (prompt_index p) before then foldl absorb p to_merge else p.

Lemma merged_point_index before l p : prompt_index (merged_point before l p) = prompt_index p.
Proof. unfold merged_point. destruct (Nat.eqb _ _); [apply absorb_index|done]. Qed.

Lemma later_snaps target pts m :
  foldl (λ m q, m ∪ snaps q) m (bfilter (λ p, negb (prompt_index p <? target)) pts) = m ∪ files_to_revert target pts.
Proof.
  revert m. induction pts as [|p pts IH]; intros m; [by rewrite files_to_revert_nil, map_union_empty|].
  rewrite files_to_revert_cons. unfold bfilter in *. cbn [List.filter]. rewrite Nat.leb_antisym.
  destruct (prompt_index p <? target); cbn [negb]; [apply IH|]. cbn [foldl]. by rewrite IH, map_union_assoc.
Qed.

(** The points after a merge: the lower ones as they were, the last of them with
    what the folded ones knew. *)
Lemma merged_lookup load before t p0 :
  let t1 := ensure_historical_loaded load t in
  let t2 := merge_and_remove_from load (S before) t in
  coherent (rewind_points t1) → rewind_points t1 !! before = Some p0 →
  coherent (rewind_points t2) ∧ ∀ j key,
    snap_at (rewind_points t2) j key =
    if decide (j < before) then snap_at (rewind_points t1) j key
    else if decide (j = before) then (snaps p0 ∪ files_to_revert (S before) (points_in_order t1)) !! key
    else None.
Proof.
  intros t1 t2 Hc Hp0. destruct (ordered_points t1 Hc) as (Hs & Hnd & Hin).
  unfold t2, merge_and_remove_from. fold t1. cbn [rewind_points set_field merge_rewind_points_from]. fold (points_in_order t1).
  rewrite dedup_nodup by done. set (pts := points_in_order t1) in *.
  set (later := bfilter (λ p, negb (prompt_index p <? S before)) pts). fold (merged_point before later).
  set (kept := bfilter (λ p, prompt_index p <? S before) pts).
  assert (map prompt_index (map (merged_point before later) kept) = map prompt_index kept) as Hidx.
  { rewrite map_map. apply map_ext. apply merged_point_index. }
  assert (NoDup (map prompt_index (map (merged_point before later) kept))) as Hndk.
  { rewrite Hidx. unfold kept. eapply sublist_NoDup; [exact Hnd|]. apply (fmap_sublist prompt_index).
    unfold bfilter. generalize pts. induction pts0 as [|q l IH]; [constructor|]. cbn [List.filter].
    destruct (_ <? _); by constructor. }
  assert (∀ j p, index_points (map (merged_point before later) kept) !! j = Some p ↔
    ∃ q, rewind_points t1 !! j = Some q ∧ j < S before ∧ p = merged_point before later q) as Hlook.
  { intros j p. unfold index_points. rewrite insert_all_lookup by done. rewrite lookup_empty, list_elem_of_fmap. split.
    - intros [[(q & -> & Hq%elem_of_bfilter) Hj]|[? _]]; [|done]. rewrite merged_point_index in Hj. destruct Hq as [Hq Hlt].
      apply Hin in Hq. apply Nat.ltb_lt in Hlt. subst j. by exists q.
    - intros (q & Hq & Hj & ->). left. pose proof (Hc j q Hq) as Hqj. rewrite merged_point_index. split; [|done].
      exists q. split; [done|]. apply elem_of_bfilter. split; [apply Hin; by rewrite Hqj|]. apply Nat.ltb_lt. lia. }
  split.
  - intros j p (q & Hq & _ & ->)%Hlook. rewrite merged_point_index. by apply Hc.
  - intros j key. unfold snap_at.
    destruct (index_points _ !! j) as [p|] eqn:E.
    + apply Hlook in E as (q & Hq & Hj & ->). rewrite Hq. cbn [mbind option_bind]. pose proof (Hc j q Hq) as Hqj.
      unfold merged_point. rewrite Hqj. destruct (decide (j < before)) as [Hlt|Hn].
      * by rewrite (proj2 (Nat.eqb_neq _ _)) by lia.
      * rewrite decide_True by lia. assert (j = before) as -> by lia. rewrite Nat.eqb_refl, absorb_snaps.
        unfold later. rewrite later_snaps. congruence.
    + assert (∀ q, rewind_points t1 !! j = Some q → j < S before → False) as Hno.
      { intros q Hq Hj. assert (index_points (map (merged_point before later) kept) !! j
          = Some (merged_point before later q)) as E2 by (apply Hlook; by exists q). congruence. }
      destruct (decide (j < before)) as [Hlt|]; [destruct (rewind_points t1 !! j) as [q|]; [by destruct (Hno q); [|lia]|done]|].
      destruct (decide (j = before)) as [->|]; [destruct (Hno p0); [done|lia]|done].
Qed.

(** Folding prompts keeps what can be undone. When the conversation is taken
    back to [before + 1] and the files are left alone, the points from there on are
    folded into the point of [before]: afterwards no point above it is left, and a
    rewind to any prompt up to [before] would put back exactly what it would have
    put back without the folding. *)
Lemma merged_prompts_stay_undoable (load : string → result (list RewindPoint) string) (before k : nat)
    (t : FileStateTracker) (p0 : RewindPoint) :
  let t1 := ensure_historical_loaded load t in
  let t2 := merge_and_remove_from load (S before) t in
  coherent (rewind_points t) → rewind_points t1 !! before = Some p0 → k ≤ before →
  files_to_revert k (points_in_order t2) = files_to_revert k (points_in_order t1)
  ∧ ∀ j p, rewind_points t2 !! j = Some p → snaps p ≠ ∅ → j ≤ before.
Proof.
  intros t1 t2 Hc0 Hp0 Hk. assert (coherent (rewind_points t1)) as Hc by by apply loaded_coherent.
  destruct (merged_lookup load before t p0 Hc Hp0) as [Hc2 Hsnap]. fold t1 t2 in Hc2, Hsnap.
  assert (snap_at (rewind_points t1) before = λ key, snaps p0 !! key) as Hb by (unfold snap_at; by rewrite Hp0).
  split.
  - apply map_eq. intros key. apply option_eq. intros v. rewrite !revert_lookup by done. split.
    + intros (i & Hi & Hv & Hmin). rewrite Hsnap in Hv. destruct (decide (i < before)) as [Hlt|].
      { exists i. split_and!; [done..|]. intros j Hj. specialize (Hmin j Hj). rewrite Hsnap in Hmin.
        by rewrite decide_True in Hmin by lia. }
      destruct (decide (i = before)) as [->|]; [|done].
      assert (∀ j, k ≤ j < before → snap_at (rewind_points t1) j key = None) as Hlow.
      { intros j Hj. specialize (Hmin j Hj). rewrite Hsnap in Hmin. by rewrite decide_True in Hmin by lia. }
      rewrite lookup_union in Hv. destruct (snaps p0 !! key) as [w|] eqn:E.
      * rewrite union_Some_l in Hv. injection Hv as ->. exists before. rewrite Hb. by split_and!.
      * rewrite option_union_left_id in Hv. apply revert_lookup in Hv as (m & Hm & Hv & Hmin2); [|done].
        exists m. split_and!; [lia|done|]. intros j Hj. destruct (decide (j < before)); [apply Hlow; lia|].
        destruct (decide (j = before)) as [->|]; [by rewrite Hb|apply Hmin2; lia].
    + intros (i & Hi & Hv & Hmin). destruct (decide (i < before)) as [Hlt|].
      { exists i. split; [done|]. rewrite Hsnap, decide_True by done. split; [done|]. intros j Hj.
        rewrite Hsnap, decide_True by lia. by apply Hmin. }
      assert (∀ j, k ≤ j < before → snap_at (rewind_points t2) j key = None) as Hlow.
      { intros j Hj. rewrite Hsnap, decide_True by lia. apply Hmin. lia. }
      exists before. split_and!; [done| |done]. rewrite Hsnap, decide_False, decide_True, lookup_union by lia.
      destruct (decide (i = before)) as [->|].
      * rewrite Hb in Hv. rewrite Hv. apply union_Some_l.
      * assert (snaps p0 !! key = None) as ->.
        { specialize (Hmin before ltac:(lia)). by rewrite Hb in Hmin. }
        rewrite option_union_left_id. apply revert_lookup; [done|]. exists i. split_and!; [lia|done|].
        intros j Hj. apply Hmin. lia.
  - intros j p Hj Hne. destruct (decide (j ≤ before)) as [|Hn]; [done|]. exfalso. apply Hne. apply map_empty.
    intros key. specialize (Hsnap j key). unfold snap_at in Hsnap. rewrite Hj in Hsnap. cbn [mbind option_bind] in Hsnap.
    rewrite Hsnap. by rewrite !decide_False by lia.
Qed.

Definition two_prompts : FileStateTracker :=
  add_before_snapshot_for_prompt 3 1 "/w/b" "/w" None (begin_prompt 2 1
    (add_before_snapshot_for_prompt 1 0 "/w/a" "/w" (Some "old") (begin_prompt 0 0 tracker_new))).

Lemma merged_prompts_stay_undoable_witness :
  files_to_revert 0 (points_in_order (merge_and_remove_from no_points 1 two_prompts))
    = files_to_revert 0 (points_in_order (ensure_historical_loaded no_points two_prompts))
  ∧ ∀ j p, rewind_points (merge_and_remove_from no_points 1 two_prompts) !! j = Some p → snaps p ≠ ∅ → j ≤ 0.
Proof.
  eapply (merged_prompts_stay_undoable no_points 0 0 two_prompts).
  - unfold two_prompts. repeat (apply coherent_record || apply coherent_or_insert; try done).
  - vm_compute. reflexivity.
  - lia.
Defined.

(** ** Blind spots *)

(** Without a point just before the target, what the folded prompts changed can
    no longer be undone. *)
Definition gap_tracker : FileStateTracker := add_before_snapshot_for_prompt 0 2 "/w/a" "/w" (Some "old") tracker_new.
Lemma folding_into_nothing_forgets :
  files_to_revert 0 (points_in_order gap_tracker) = {[Relative "a" := Some "old"]}
  ∧ files_to_revert 0 (points_in_order (merge_and_remove_from no_points 2 gap_tracker)) = ∅.
Proof. split; vm_compute; reflexivity. Qed.

(** Two spellings of one file are two keys, each with its own snapshot: the order
    of the map decides which is put back last. *)
Definition respelled : FileStateTracker :=
  add_before_snapshot_for_prompt 2 0 "/w/d/../a" "/w" (Some "new") (add_before_snapshot_for_prompt 1 0 "/w/a" "/w" (Some "old") tracker_new).
Lemma two_spellings_two_snapshots :
  files_to_revert 0 (points_in_order respelled) = {[Relative "a" := Some "old"; Relative "d/../a" := Some "new"]}.
Proof. vm_compute. reflexivity. Qed.

(** A file system that cannot say whether a file exists: the file that was
    created is left, it is listed as reverted and the rewind reports success. *)
Definition silent_fs : WorkFs Files := {|
  try_read_file p s := Ok (s !! canon p);
  exists_file _ _ := Err "permission denied";
  restore_file p b s := (Ok (), <[canon p := b]> s);
  remove_file p s := (Ok (), delete (canon p) s);
|}.
Lemma unanswered_existence_reports_success :
  let created := add_before_snapshot_for_prompt 1 0 "/w/b" "/w" None (begin_prompt 0 0 tracker_new) in
  let '(resp, _, s') := @rewind_files Files silent_fs "/w" no_points all_entries 0 created {["/w/b" := "b"]} in
  rw_success resp = true ∧ s' !! "/w/b" = Some "b".
Proof. vm_compute. split; reflexivity. Qed.
