(* ===== verification/PatchRewind.v ===== *)
(** * A patch and its rewind (xai-grok-shell/src/tools/notification_bridge.rs)

    The bridge hands every announced write to the tracker, with what the file held
    before; so a patch applied in a prompt can be taken back by a rewind to it. *)

From Stdlib Require Import Ascii String.
From S2P Require Import Prelude RustStr Disk PathLemmas PatchParser PatchApply PatchTool Rewind RewindFacts.
From stdpp Require Import options.

(** The bridge's branch for [FileWritten]; the hunk tracker is left out. *)
Definition forward_file_written (now : N) (i : nat) (cwd : string) (t : FileStateTracker) (w : FileWritten) : FileStateTracker :=
  if match previous_content w with Some _ => true | None => false end || is_new_file w
  then add_before_snapshot_for_prompt now i (absolute_path w) cwd (previous_content w) t
  else t.

(** ** Patches whose announcements are true *)

Definition touched (c : FileChange) : list string :=
  match c with
  | Add p _ | Delete p _ | Update p _ _ => [canon p]
  | Move src dest _ _ => [canon dest; canon src]
  end.

Definition is_text (b : string) : bool := String.eqb (from_utf8_lossy b) b.

(** What is added or moved to is not there yet, and what is changed is text. *)
Definition expected (fs : Files) (c : FileChange) : bool :=
  let absent p := match fs !! canon p with None => true | Some _ => false end in
  let text p := match fs !! canon p with None => false | Some b => is_text b end in
  match c with
  | Add p _ => absent p
  | Delete p _ | Update p _ _ => text p
  | Move src dest _ _ => absent dest && text src
  end.

Definition inside_cwd (cwd : string) (c : FileChange) : bool :=
  let inside p := match rel_from_absolute cwd p with Some _ => true | None => false end in
  match c with
  | Add p _ | Delete p _ | Update p _ _ => inside p
  | Move src dest _ _ => inside src && inside dest
  end.

Definition reversible (cwd : string) (fs : Files) (cs : list FileChange) : bool :=
  bool_decide (NoDup (concat (map touched cs))) && all (expected fs) cs && all (inside_cwd cwd) cs.

(** An announcement is true when it carries what the file holds. *)
Definition truthful (fs : Files) (c : FileChange) : Prop :=
  match c with
  | Add p _ => fs !! canon p = None
  | Delete p old | Update p old _ => fs !! canon p = Some old
  | Move src dest old _ => fs !! canon dest = None ∧ fs !! canon src = Some old
  end.

Section patch.
Context {S : Type} `{HasFiles S} `{!ToolFs S} `{!ToolFsLaws S} `{!WorkFs S} `{!WorkFsLaws S}.
Context (cwd : string) (Hcwd : starts_with "/" cwd = true).
#[local] Set Default Proof Using "All".

Lemma effect_other fs c q : q ∉ touched c → effect fs c !! q = fs !! q.
Proof.
  destruct c; cbn [touched effect]; rewrite ?not_elem_of_cons; intros Hq; destruct_and?.
  - by apply lookup_insert_ne.
  - by apply lookup_delete_ne.
  - by apply lookup_insert_ne.
  - etrans; [by apply lookup_delete_ne|]. by apply lookup_insert_ne.
Qed.

(** Changes to other files do not make an announcement false. *)
Lemma truthful_later fs c cs :
  NoDup (concat (map touched (c :: cs))) → Forall (truthful fs) cs → Forall (truthful (effect fs c)) cs.
Proof.
  cbn [map concat]. intros (_ & Hdis & _)%NoDup_app Hcs. rewrite Forall_forall in *. intros d Hd. specialize (Hcs d Hd).
  assert (∀ q, q ∈ touched d → effect fs c !! q = fs !! q) as Hsame.
  { intros q Hq. apply effect_other. intros Hc. apply (Hdis q Hc). apply list_elem_of_In, in_concat.
    exists (touched d). rewrite <- !list_elem_of_In. split; [|done]. by apply list_elem_of_fmap_2. }
  destruct d; cbn [truthful touched] in *; rewrite ?Hsame by set_solver; done.
Qed.

(** The changes of a patch carry what the files held. *)
Lemma computed_truthful (s : S) hs changes :
  compute_all_changes cwd s hs = Some (Ok changes) → all (expected (files s)) changes = true →
  Forall (truthful (files s)) changes.
Proof.
  assert (∀ p b, read_file_as_string p s = Ok b →
    match files s !! canon p with None => false | Some b => is_text b end = true → files s !! canon p = Some b) as Hread.
  { intros p b. unfold read_file_as_string. destruct (read_file p s) as [bytes|e] eqn:E; cbn [result_bind]; [|done].
    intros [= <-]. apply read_file_ok in E. rewrite E. unfold is_text. intros Ht%String.eqb_eq. by rewrite Ht. }
  revert changes. induction hs as [|h hs IH]; intros changes; cbn [compute_all_changes].
  { intros [= <-] _. constructor. }
  destruct (compute_change cwd s h) as [[c|e]|] eqn:Ec; cbn [mbind option_bind]; [|done..].
  destruct (compute_all_changes cwd s hs) as [[cs|e]|] eqn:Ecs; cbn [mbind option_bind result_bind]; [|done..].
  intros [= <-]. cbn [all forallb]. intros [He Hes]%andb_true_iff. constructor; [|by apply IH].
  destruct h as [p b|p|p mv chunks]; cbn [compute_change] in Ec.
  - injection Ec as <-. cbn [expected truthful] in *. by destruct (files s !! _).
  - destruct (read_file_as_string _ s) as [b|e] eqn:Er; cbn [map_err result_bind] in Ec; [|done].
    injection Ec as <-. cbn [expected truthful] in *. by apply Hread.
  - destruct (read_file_as_string _ s) as [b|e] eqn:Er; cbn [map_err] in Ec; [|done].
    destruct (derive_new_contents _ _ _) as [[new|e]|]; cbn [mbind option_bind map_err result_bind] in Ec; [|done..].
    injection Ec as <-. destruct mv as [dest|]; cbn [expected truthful] in *.
    + apply andb_true_iff in He as [Ha Ht]. split; [by destruct (files s !! canon (path_join cwd dest))|by apply Hread].
    + by apply Hread.
Qed.

(** ** The tracker keeps up with the changes *)

Lemma undoes_announced k base now i t (s s' : S) n new :
  undoes cwd k base (mkLive t s i) →
  previous_content n = files s !! canon (absolute_path n) → (is_new_file n = true ∨ is_Some (previous_content n)) →
  is_Some (rel_from_absolute cwd (absolute_path n)) → files s' = put_back (files s) (canon (absolute_path n)) new →
  undoes cwd k base (mkLive (forward_file_written now i cwd t n) s' i).
Proof.
  intros Hu Hprev Hsent [rel Hrel] Hf. unfold forward_file_written.
  assert ((match previous_content n with Some _ => true | None => false end || is_new_file n) = true) as ->.
  { destruct Hsent as [->|[b ->]]; [by rewrite orb_true_r|done]. }
  rewrite Hprev. apply (undoes_step cwd cwd Hcwd all_entries k base (mkLive t s i)); [|done].
  by eapply LiveWrite.
Qed.

Lemma change_tracked k base now i id c (w w' : World S) fr t :
  undoes cwd k base (mkLive t (disk w) i) → apply_change id c w = (Ok fr, w') →
  truthful (files (disk w)) c → inside_cwd cwd c = true → NoDup (touched c) →
  undoes cwd k base (mkLive (foldl (forward_file_written now i cwd) t (notices id c)) (disk w') i).
Proof.
  intros Hu Ha Ht Hin Hnd. pose proof (change_applied id c w) as Hc. rewrite Ha in Hc. destruct Hc as [Hf _].
  assert (∀ p, match rel_from_absolute cwd p with Some _ => true | None => false end = true → is_Some (rel_from_absolute cwd p)) as Hrel
    by (intros p; by destruct (rel_from_absolute cwd p)).
  destruct c as [p b|p old|p old b|src dest old b]; cbn [notices foldl truthful inside_cwd effect touched] in *.
  - eapply (undoes_announced _ _ _ _ _ _ _ _ (Some b)); [exact Hu|done|by left|by apply Hrel|done].
  - eapply (undoes_announced _ _ _ _ _ _ _ _ None); [exact Hu|done|by right; eexists|by apply Hrel|done].
  - eapply (undoes_announced _ _ _ _ _ _ _ _ (Some b)); [exact Hu|done|by right; eexists|by apply Hrel|done].
  - apply andb_true_iff in Hin as [Hs Hd]. destruct Ht as [Ht1 Ht2].
    apply NoDup_cons in Hnd as [Hne _]. rewrite list_elem_of_singleton in Hne.
    destruct (move_stages _ _ _ _ _ _ _ _ Ha) as (s1 & H1 & H2).
    eapply (undoes_announced _ _ _ _ _ s1 _ _ None).
    + eapply (undoes_announced _ _ _ _ _ _ _ _ (Some b)); [exact Hu|done|by left|by apply Hrel|done].
    + cbn [previous_content absolute_path]. rewrite H1. symmetry. etrans; [by apply lookup_insert_ne|done].
    + by right; eexists.
    + by apply Hrel.
    + done.
Qed.

Lemma changes_tracked k base now i id cs : ∀ (w w' : World S) rs t,
  undoes cwd k base (mkLive t (disk w) i) → apply_changes id cs w = (Ok rs, w') →
  Forall (truthful (files (disk w))) cs → all (inside_cwd cwd) cs = true → NoDup (concat (map touched cs)) →
  undoes cwd k base (mkLive (foldl (forward_file_written now i cwd) t (concat (map (notices id) cs))) (disk w') i).
Proof.
  induction cs as [|c cs IH]; intros w w' rs t Hu Ha Ht Hin Hnd; cbn [apply_changes map concat] in *; [by injection Ha as _ <-|].
  destruct (apply_change id c w) as [[fr|e] w1] eqn:Ec; [|done].
  destruct (apply_changes id cs w1) as [[rs'|e] w2] eqn:Ecs; cbn [result_bind] in Ha; [|done]. injection Ha as _ <-.
  apply Forall_cons in Ht as [Htc Ht]. cbn [all forallb] in Hin. apply andb_true_iff in Hin as [Hic Hin].
  rewrite foldl_app. pose proof (change_applied id c w) as Hf. rewrite Ec in Hf. destruct Hf as [Hf _].
  eapply IH; [|exact Ecs| |done|by apply NoDup_app in Hnd as (_ & _ & ?)].
  - eapply change_tracked; [exact Hu|exact Ec|done|done|by apply NoDup_app in Hnd as (? & _ & _)].
  - rewrite Hf. by apply truthful_later.
Qed.
End patch.

(** C28: A patch can be taken back. Apply a patch at the beginning of prompt [k],
    when nothing is recorded from [k] on and the points still on disk are of
    prompts before it, let the bridge record what the tool announced, and rewind
    to [k]: if the rewind reports success, every file inside the working directory
    is as it was before the patch, with one exception that the success hides: a
    file the patch added stays when the file system cannot say whether it exists.
    The patch must touch each file once, stay inside the working directory, add
    only what is not there and change only text. (A file is a path without empty
    and dot components, as in the tracker's keys; spellings through ".." or a link
    count as files of their own.) *)
Theorem patch_can_be_taken_back {S : Type} `{HasFiles S} `{!ToolFs S} `{!ToolFsLaws S} `{!WorkFs S} `{!WorkFsLaws S}
    (cwd id text : string) (iter : ∀ A : Type, gmap FlexiblePath A → list (FlexiblePath * A))
    (load : string → result (list RewindPoint) string) (now : N) (k : nat) (t0 : FileStateTracker)
    (w w' : World S) (p : ParsedPatch) (changes : list FileChange) (out : ApplyPatchOutput) :
  starts_with "/" cwd = true →
  (∀ A m, iter A m ≡ₚ map_to_list m) →
  (∀ path l, load path = Ok l → Forall (λ p, prompt_index p < k) l) →
  fresh_from k t0 →
  parse_patch text = Some (Ok p) → compute_all_changes cwd (disk w) (hunks p) = Some (Ok changes) →
  reversible cwd (files (disk w)) changes = true →
  run cwd id text w = Some (Ok out, w') →
  let t := foldl (forward_file_written now k cwd) (begin_prompt now k t0) (drop (length (sent w)) (sent w')) in
  let '(resp, _, s') := rewind_files cwd load iter k t (disk w') in
  rw_success resp = true →
  ∀ path rel, rel_from_absolute cwd path = Some rel → put_right cwd (files (disk w)) (disk w') s' path rel.
Proof.
  intros Hcwd Hiter Hload Hfresh Hp Hch Hrev Hrun t.
  unfold reversible in Hrev. apply andb_true_iff in Hrev as [[Hnd%bool_decide_eq_true Hexp]%andb_true_iff Hin].
  assert (undoes cwd k (files (disk w)) (mkLive t (disk w') k)) as Hu.
  { unfold run in Hrun. rewrite Hp in Hrun. cbn [mbind option_bind] in Hrun.
    pose proof (undoes_start cwd cwd Hcwd all_entries now k t0 (disk w) Hfresh) as Hu0. destruct (is_nil (hunks p)) eqn:Hnil.
    { injection Hrun as _ <-. unfold t. rewrite drop_all. done. }
    rewrite Hch in Hrun. cbn [mbind option_bind] in Hrun.
    pose proof (changes_applied id changes w) as Ha. destruct (apply_changes id changes w) as [[rs|e] w1] eqn:Eap;
      cbn [result_bind] in Hrun; [|done]. injection Hrun as _ <-. destruct Ha as [_ Hsent].
    unfold t. rewrite Hsent, drop_app_length. eapply changes_tracked; [done|exact Hu0|exact Eap| |done|done].
    by eapply computed_truthful. }
  pose proof (rewind_puts_back cwd Hcwd iter load k k t (disk w') (files (disk w)) Hiter Hload Hu) as Hrw.
  destruct (rewind_files cwd load iter k t (disk w')) as [[resp t'] s']. intros Hok. by apply Hrw.
Qed.

(** ** A patch of three files, and its rewind *)

Definition demo_text : string :=
  patch_text ["*** Add File: n"; "+x"; "*** Update File: a"; "*** Move to: c"; "@@"; "-x"; "+y"; "*** Delete File: d"].
Definition demo_world : World Files := on_files [("/w/a", "x" +:+ nl); ("/w/d", "gone")].
Definition demo_parsed : ParsedPatch :=
  Eval vm_compute in match parse_patch demo_text with Some (Ok p) => p | _ => mkParsed [] "" end.
Definition demo_changes : list FileChange :=
  Eval vm_compute in match compute_all_changes "/w" (disk demo_world) (hunks demo_parsed) with Some (Ok cs) => cs | _ => [] end.
Definition demo_run : option (result ApplyPatchOutput ToolError * World Files) := run "/w" "call" demo_text demo_world.
Definition demo_out : ApplyPatchOutput := Eval vm_compute in match demo_run with Some (Ok o, _) => o | _ => EmptyPatch "" end.
Definition demo_world' : World Files := match demo_run with Some (_, w) => w | None => demo_world end.

Lemma patch_can_be_taken_back_witness :
  let t := foldl (forward_file_written 1 0 "/w") (begin_prompt 1 0 tracker_new)
             (drop (length (sent demo_world)) (sent demo_world')) in
  let '(resp, _, s') := rewind_files "/w" no_points all_entries 0 t (disk demo_world') in
  rw_success resp = true →
  ∀ path rel, rel_from_absolute "/w" path = Some rel → put_right "/w" (files (disk demo_world)) (disk demo_world') s' path rel.
Proof.
  apply (patch_can_be_taken_back "/w" "call" demo_text all_entries no_points 1 0 tracker_new demo_world demo_world'
           demo_parsed demo_changes demo_out).
  - reflexivity.
  - reflexivity.
  - intros path l [= <-]. constructor.
  - split; [intros i p Hp|intros j p Hp]; change (rewind_points tracker_new) with (∅ : gmap nat RewindPoint) in Hp;
      by rewrite lookup_empty in Hp.
  - vm_compute. reflexivity.
  - vm_compute. reflexivity.
  - vm_compute. reflexivity.
  - vm_compute. reflexivity.
Defined.

Example demo_is_taken_back :
  let t := foldl (forward_file_written 1 0 "/w") (begin_prompt 1 0 tracker_new) (sent demo_world') in
  let '(resp, _, s') := rewind_files "/w" no_points all_entries 0 t (disk demo_world') in
  rw_success resp = true ∧ s' = disk demo_world ∧ disk demo_world' ≠ disk demo_world.
Proof. cbv zeta. split; [vm_compute; reflexivity|]. split; [vm_compute; reflexivity|]. by vm_compute. Qed.

(** ** Blind spots *)

(** A patch that "adds" a file that exists announces it as new; the rewind then
    deletes it: what it held is gone. *)
Definition overwrite : option (result ApplyPatchOutput ToolError * World Files) :=
  run "/w" "call" (patch_text ["*** Add File: a"; "+y"]) (on_files [("/w/a", "precious")]).
Lemma rewinding_an_overwrite_deletes :
  (λ '(_, w), let t := foldl (forward_file_written 1 0 "/w") (begin_prompt 1 0 tracker_new) (sent w) in
              let '(resp, _, s') := rewind_files "/w" no_points all_entries 0 t (disk w) in
              (rw_success resp, map_to_list s')) <$> overwrite
  = Some (true, []).
Proof. vm_compute. reflexivity. Qed.
