(* ===== verification/PermTypes.v ===== *)
(** * Permissions: the vocabulary (xai-grok-workspace/src/permission/types.rs, state.rs)

    What a tool call wants to touch, what the permission manager answers, the
    rules of a policy and what the user has granted so far. *)

From Stdlib Require Import Ascii String.
From S2P Require Import Prelude RustStr AuditParse.
From stdpp Require Import options.

(** What is asked for. The arguments of an MCP call are only shown and judged,
    never matched by a rule. *)
Inductive AccessKind : Type :=
| Read (path : option string)
| Grep (path glob : option string)
| Edit (path : string)
| Bash (cmd : string)
| MCPTool (name : string) (input : Value)
| WebFetch (url : string)
| WebSearch (query : string).

Inductive Decision : Type :=
| Allow
| Ask
| FollowupMessage (message : string)
| Reject (reason : string)
| PolicyDeny (reason : string)
| Cancelled.
#[export] Instance Decision_eq_dec : EqDecision Decision.
Proof. solve_decision. Defined.

Inductive EditPolicy : Type := EditAsk | EditAllow | EditReject.

Inductive PromptPolicy : Type := PromptAsk | PromptDeny | PromptAuto.
#[export] Instance PromptPolicy_eq_dec : EqDecision PromptPolicy.
Proof. solve_decision. Defined.

(** ** Rules *)

Inductive PatternMode : Type := GlobMode | DomainMode.

Inductive RuleAction : Type := RuleAllow | RuleDeny | RuleAsk.
#[export] Instance RuleAction_eq_dec : EqDecision RuleAction.
Proof. solve_decision. Defined.

Inductive ToolFilter : Type :=
| ForAny | ForBash | ForEdit | ForRead | ForGrep | ForMcp | ForWebFetch | ForWebSearch.
#[export] Instance ToolFilter_eq_dec : EqDecision ToolFilter.
Proof. solve_decision. Defined.

Record PermissionRule : Type := mkRule {
  action : RuleAction;
  tool : ToolFilter;
  pattern : option string;
  pattern_mode : PatternMode;
}.

Record PermissionConfig : Type := mkConfig { rules : list PermissionRule; prompt_policy : PromptPolicy }.
Definition config_new (rules : list PermissionRule) : PermissionConfig := mkConfig rules PromptAsk.

(** ** What the user granted *)

Record PermissionState : Type := mkState {
  edit_policy : EditPolicy;
  allow_bash_execute : bool;
  allowed_bash_commands : gset string;
  disallowed_bash_commands : gset string;
  allowed_web_fetch_domains : gset string;
  allowed_mcp_tools : gset string;
  allowed_mcp_servers : gset string;
}.
#[export] Instance settable_PermissionState : Settable PermissionState :=
  λ s, mkState (edit_policy s) (allow_bash_execute s) (allowed_bash_commands s) (disallowed_bash_commands s)
         (allowed_web_fetch_domains s) (allowed_mcp_tools s) (allowed_mcp_servers s).

(** [PermissionState::default()] *)
Definition state_default : PermissionState := mkState EditAsk false ∅ ∅ ∅ ∅ ∅.

(** ** Joining decisions (shell_access.rs) *)

Definition decision_rank (d : Decision) : nat :=
  match d with
  | Reject _ | PolicyDeny _ => 3
  | Ask => 2
  | Allow => 1
  | _ => 0
  end.

Definition combine_decisions (a b : option Decision) : option Decision :=
  match a, b with
  | None, other | other, None => other
  | Some a, Some b => Some (if decision_rank b <=? decision_rank a then a else b)
  end.

(** ** Where the grants are kept (state.rs)

    One file per client, next to the shared one of earlier versions. A read that
    fails is the same as no file; a text that is not TOML reads as the default. *)

Definition is_id_char (c : ascii) : bool :=
  let n := nat_of_ascii c in
  (48 <=? n) && (n <=? 57) || (65 <=? n) && (n <=? 90) || (97 <=? n) && (n <=? 122)
  || Ascii.eqb c "-" || Ascii.eqb c "_".

(** Character by character: the bytes that continue a character are dropped. *)
Fixpoint sanitize_client_id (id : string) : string :=
  match id with
  | EmptyString => EmptyString
  | String c id =>
      if is_continuation c then sanitize_client_id id
      else String (if is_id_char c then c else "_"%char) (sanitize_client_id id)
  end.

Definition state_file_name (client_identifier : option string) : string :=
  match client_identifier with
  | Some id => "permission_" +:+ sanitize_client_id id +:+ ".toml"
  | None => "permission.toml"
  end.

Section state_files.
Context (from_toml : string → option PermissionState) (to_toml : PermissionState → option string).

Definition try_load_state (name : string) (dir : gmap string string) : option PermissionState :=
  (λ text, default state_default (from_toml text)) <$> dir !! name.

Definition load_state_from_dir (dir : gmap string string) (client_identifier : option string) : PermissionState :=
  match client_identifier with
  | Some id =>
      match try_load_state (state_file_name (Some id)) dir with
      | Some state => state
      | None => default state_default (try_load_state (state_file_name None) dir)
      end
  | None => default state_default (try_load_state (state_file_name None) dir)
  end.

Definition persist_state_to_dir (state : PermissionState) (client_identifier : option string)
    (dir : gmap string string) : gmap string string :=
  match to_toml state with
  | Some text => <[state_file_name client_identifier := text]> dir
  | None => dir
  end.
End state_files.
