(* ===== verification/PermRules.v ===== *)
(** * Permission rules as text (permission/rules.rs)

    A rule is written [Tool(pattern)], the parentheses and backslashes of the
    pattern escaped; a bare tool name rules the whole tool, any other text is a
    pattern for all tools. *)

From Stdlib Require Import Ascii String.
From S2P Require Import Prelude RustStr TrimLemmas PermTypes.
From stdpp Require Import options.

(** ** Permission modes *)

Inductive DefaultPermissionMode : Type := ModeDefault | AcceptEdits | Plan | ModeAuto | DontAsk | BypassPermissions.

Definition mode_from_str (s : string) : result DefaultPermissionMode string :=
  if String.eqb s "default" then Ok ModeDefault
  else if String.eqb s "acceptEdits" then Ok AcceptEdits
  else if String.eqb s "plan" then Ok Plan
  else if String.eqb s "auto" then Ok ModeAuto
  else if String.eqb s "dontAsk" then Ok DontAsk
  else if String.eqb s "bypassPermissions" then Ok BypassPermissions
  else Err s.

Record DefaultModeEffects : Type := mkEffects { effects_prompt_policy : PromptPolicy; accept_edits : bool; bypass_permissions : bool }.

Definition effects (m : DefaultPermissionMode) : DefaultModeEffects :=
  match m with
  | AcceptEdits => mkEffects PromptAsk true false
  | BypassPermissions => mkEffects PromptAsk false true
  | ModeDefault | Plan => mkEffects PromptAsk false false
  | DontAsk => mkEffects PromptDeny false false
  | ModeAuto => mkEffects PromptAuto false false
  end.

(** ** Errors *)

Inductive RuleParseError : Type :=
| UnsupportedToolPrefix (prefix : string)
| UnknownToolPrefix (prefix : string)
| MalformedRule (detail : string).

Definition RuleParseError_display (e : RuleParseError) : string :=
  match e with
  | UnsupportedToolPrefix prefix => "unsupported tool prefix: " +:+ prefix
  | UnknownToolPrefix prefix => "unknown tool prefix: " +:+ prefix
  | MalformedRule detail => "malformed rule: " +:+ detail
  end.

(** ** Escapes *)

(** The backslashes that end the text. *)
Fixpoint trailing_backslashes (n : nat) (s : string) : nat :=
  match s with
  | EmptyString => n
  | String c s => trailing_backslashes (if Ascii.eqb c "\" then S n else 0) s
  end.

Definition is_unescaped (s : string) (pos : nat) : bool := Nat.even (trailing_backslashes 0 (take_bytes pos s)).

Definition byte_is (s : string) (target : ascii) (i : nat) : bool := bool_decide (String.get i s = Some target).

Definition find_first_unescaped (s : string) (target : ascii) : option nat :=
  List.find (λ i, byte_is s target i && is_unescaped s i) (seq 0 (String.length s)).
Definition find_last_unescaped (s : string) (target : ascii) : option nat :=
  List.find (λ i, byte_is s target i && is_unescaped s i) (reverse (seq 0 (String.length s))).

Definition unescape_rule_content (s : string) : string :=
  if negb (str_contains "\" s) then s
  else replace_str "\\" "\" (replace_str "\)" ")" (replace_str "\(" "(" s)).

(** ** The parser *)

Definition strip_domain_prefix (pattern : string) : string * PatternMode :=
  match strip_prefix "domain:" pattern with
  | Some domain => (domain, DomainMode)
  | None => (pattern, GlobMode)
  end.

Definition strip_bash_colon_wildcard (pattern : string) : string := default pattern (strip_suffix ":*" pattern).

Definition tool_name_to_filter (name : string) : option ToolFilter :=
  if String.eqb name "Bash" then Some ForBash
  else if contains name ["Read"; "NotebookRead"] then Some ForRead
  else if contains name ["Edit"; "Write"; "NotebookEdit"] then Some ForEdit
  else if String.eqb name "MCPTool" then Some ForMcp
  else if contains name ["Grep"; "Glob"] then Some ForGrep
  else if String.eqb name "WebFetch" then Some ForWebFetch
  else if String.eqb name "WebSearch" then Some ForWebSearch
  else None.

Definition non_empty_pattern (pattern : string) : option string := if is_empty pattern then None else Some pattern.

Definition parse_permission_rule (rule : string) (action : RuleAction) : result PermissionRule RuleParseError :=
  let rule := trim rule in
  match find_first_unescaped rule "(" with
  | Some open_paren =>
      let prefix_trimmed := trim (take_bytes open_paren rule) in
      let content_and_close := drop_bytes (S open_paren) rule in
      match find_last_unescaped content_and_close ")" with
      | None => Err (MalformedRule "missing closing parenthesis")
      | Some close_paren =>
          let raw_content := trim (take_bytes close_paren content_and_close) in
          let pattern := if is_empty raw_content || String.eqb raw_content "*" then ""
                         else unescape_rule_content raw_content in
          match tool_name_to_filter prefix_trimmed with
          | Some tool =>
              let pattern := if bool_decide (tool = ForBash) then strip_bash_colon_wildcard pattern else pattern in
              let '(pattern, pattern_mode) := strip_domain_prefix pattern in
              Ok (mkRule action tool (non_empty_pattern pattern) pattern_mode)
          | None =>
              if String.eqb prefix_trimmed "EnterWorktree" then Err (UnsupportedToolPrefix prefix_trimmed)
              else Err (UnknownToolPrefix prefix_trimmed)
          end
      end
  | None =>
      match tool_name_to_filter rule with
      | Some tool => Ok (mkRule action tool None GlobMode)
      | None => Ok (mkRule action ForAny (non_empty_pattern rule) GlobMode)
      end
  end.

Example reads_the_prefix_idiom :
  parse_permission_rule " Bash(git push:*) " RuleDeny = Ok (mkRule RuleDeny ForBash (Some "git push") GlobMode).
Proof. vm_compute. reflexivity. Qed.
Example reads_an_escaped_parenthesis :
  parse_permission_rule "Bash(echo \(a\))" RuleAsk = Ok (mkRule RuleAsk ForBash (Some "echo (a)") GlobMode).
Proof. vm_compute. reflexivity. Qed.
(** Blind spots: what follows the last parenthesis is dropped, and the domain
    prefix is read for every tool. *)
Lemma text_after_a_rule_is_dropped :
  parse_permission_rule "Bash(ls) or Read(x) and more" RuleAllow = Ok (mkRule RuleAllow ForBash (Some "ls) or Read(x") GlobMode)
  ∧ parse_permission_rule "Bash(ls) only" RuleAllow = Ok (mkRule RuleAllow ForBash (Some "ls") GlobMode).
Proof. vm_compute. done. Qed.
Lemma domain_prefix_is_read_for_every_tool :
  parse_permission_rule "Bash(domain:ls)" RuleDeny = Ok (mkRule RuleDeny ForBash (Some "ls") DomainMode).
Proof. vm_compute. done. Qed.

(** ** Writing a rule *)

Definition is_special (c : ascii) : bool := Ascii.eqb c "\" || Ascii.eqb c "(" || Ascii.eqb c ")".

Fixpoint escape_rule_content (s : string) : string :=
  match s with
  | EmptyString => EmptyString
  | String c s => if is_special c then String "\" (String c (escape_rule_content s)) else String c (escape_rule_content s)
  end.

Definition tool_name (f : ToolFilter) : string :=
  match f with
  | ForBash => "Bash" | ForRead => "Read" | ForEdit => "Edit" | ForMcp => "MCPTool" | ForGrep => "Grep"
  | ForWebFetch => "WebFetch" | ForWebSearch => "WebSearch" | ForAny => ""
  end.

Definition render_rule (f : ToolFilter) (mode : PatternMode) (pattern : string) : string :=
  tool_name f +:+ "(" +:+ match mode with DomainMode => "domain:" | GlobMode => "" end +:+ escape_rule_content pattern +:+ ")".

(** ** Permission rules as text: what is written is read back *)

(** *** Escaping *)

Definition plain (s : string) : bool := all_chars (λ c, negb (is_special c)) s.

Lemma escape_app s t : escape_rule_content (s +:+ t) = escape_rule_content s +:+ escape_rule_content t.
Proof. induction s as [|c s IH]; cbn; [done|]. rewrite !str_app_cons. cbn. rewrite IH. by destruct (is_special c). Qed.

Lemma escape_plain s : plain s = true → escape_rule_content s = s.
Proof. induction s as [|c s IH]; [done|]. cbn. intros [->%negb_true_iff Hs]%andb_true_iff. by rewrite IH. Qed.

Lemma is_special_spec c : is_special c = true ↔ c = "\"%char ∨ c = "("%char ∨ c = ")"%char.
Proof. unfold is_special. rewrite !orb_true_iff, !Ascii.eqb_eq. tauto. Qed.

Lemma escape_nil s : escape_rule_content s = "" → s = "".
Proof. destruct s as [|c s]; cbn; [done|]. by destruct (is_special c). Qed.

Lemma escape_star s : escape_rule_content s = "*" → s = "*".
Proof.
  destruct s as [|c s]; cbn; [done|]. destruct (is_special c); [done|]. intros [= -> Hs]. by apply escape_nil in Hs as ->.
Qed.

(** The backslashes that end an escaped text are an even number. *)
Lemma escape_ends_even s : ∀ n, Nat.even n = true → Nat.even (trailing_backslashes n (escape_rule_content s)) = true.
Proof.
  induction s as [|c s IH]; intros n Hn; cbn; [done|]. destruct (is_special c) eqn:Hc.
  - cbn. apply IH. by destruct (Ascii.eqb c "\").
  - cbn. apply IH. destruct (Ascii.eqb c "\") eqn:He; [|done]. apply Ascii.eqb_eq in He. by subst.
Qed.

(** *** Undoing the escapes *)

(** The text with only some of the special characters escaped. *)
Fixpoint escape_some (which : ascii → bool) (s : string) : string :=
  match s with
  | EmptyString => EmptyString
  | String c s => if which c then String "\" (String c (escape_some which s)) else String c (escape_some which s)
  end.

Lemma escape_some_ext f g s : (∀ c, f c = g c) → escape_some f s = escape_some g s.
Proof. intros Hfg. induction s as [|c s IH]; cbn; [done|]. by rewrite Hfg, IH. Qed.
Lemma escape_some_none s : escape_some (λ _, false) s = s.
Proof. induction s as [|c s IH]; cbn; [done|]. by rewrite IH. Qed.

(** An escaped text does not start with a character that is escaped. *)
Lemma escape_some_head which x s t : which x = true → x ≠ "\"%char → escape_some which s = String x t → False.
Proof. intros Hx Hb. destruct s as [|c s]; cbn; [done|]. destruct (which c) eqn:Hc; intros [= ? ?]; congruence. Qed.

Lemma starts_two a b s : starts_with (String a (String b "")) s = true ↔ ∃ t, s = String a (String b t).
Proof. rewrite starts_with_spec. reflexivity. Qed.

Section replace_two.
Context (a b : ascii) (r : string).
Let p := String a (String b "").

Lemma replace_go_two s : replace_go p r 0 (String a (String b s)) = r +:+ replace_go p r 0 s.
Proof.
  assert (starts_with p (String a (String b s)) = true) as Hs by (apply starts_two; eauto).
  cbn [replace_go]. by rewrite Hs.
Qed.

Lemma replace_go_other c s :
  (c = a → ∀ t, s ≠ String b t) → replace_go p r 0 (String c s) = String c (replace_go p r 0 s).
Proof.
  intros Hne. cbn [replace_go]. destruct (starts_with p (String c s)) eqn:Hs; [|done].
  apply starts_two in Hs as (t & [= Hc Ht]). by destruct (Hne Hc t).
Qed.
End replace_two.

(** Replacing an escaped parenthesis by the parenthesis. *)
Lemma replace_paren which x s : which x = true → which "\"%char = true → x ≠ "\"%char →
  replace_str (String "\" (String x "")) (String x "") (escape_some which s)
  = escape_some (λ c, which c && negb (Ascii.eqb c x)) s.
Proof.
  intros Hx Hb Hxb. unfold replace_str. induction s as [|c s IH]; cbn [escape_some]; [done|].
  destruct (which c) eqn:Hc; cbn [andb]; [destruct (Ascii.eqb_spec c x) as [->|Hcx]; cbn [negb]|].
  - by rewrite replace_go_two, IH.
  - rewrite !replace_go_other, IH; [done| |].
    + intros _ t Ht. exact (escape_some_head which x s t Hx Hxb Ht).
    + intros _ t [= ? _]. done.
  - rewrite replace_go_other, IH; [done|]. intros ->. congruence.
Qed.

(** Replacing two backslashes by one, the parentheses standing alone. *)
Lemma replace_backslashes s :
  replace_str "\\" "\" (escape_some (λ c, Ascii.eqb c "\") s) = s.
Proof.
  unfold replace_str. induction s as [|c s IH]; cbn [escape_some]; [done|].
  destruct (Ascii.eqb_spec c "\") as [->|Hc].
  - by rewrite replace_go_two, IH.
  - by rewrite replace_go_other, IH.
Qed.

Lemma escape_as_some s : escape_rule_content s = escape_some is_special s.
Proof. induction s as [|c s IH]; cbn; [done|]. by rewrite IH. Qed.

Lemma contains_char_cons c d s : str_contains (String c "") (String d s) = Ascii.eqb c d || str_contains (String c "") s.
Proof.
  unfold str_contains. cbn [find]. unfold starts_with. cbn [strip_prefix].
  destruct (Ascii.eqb c d); [done|]. cbn. by destruct (find _ s).
Qed.

Lemma no_backslash s : str_contains "\" (escape_rule_content s) = false → escape_rule_content s = s.
Proof.
  induction s as [|c s IH]; [done|]. cbn [escape_rule_content].
  destruct (is_special c); rewrite contains_char_cons; [done|]. intros [_ Hs]%orb_false_iff. by rewrite IH.
Qed.

Lemma unescape_escape s : unescape_rule_content (escape_rule_content s) = s.
Proof.
  unfold unescape_rule_content. destruct (str_contains _ _) eqn:Hc; cbn [negb]; [|by apply no_backslash].
  rewrite escape_as_some, (replace_paren is_special "(") by done.
  rewrite (replace_paren (λ c, is_special c && negb (Ascii.eqb c "(")) ")") by done.
  transitivity (replace_str "\\" "\" (escape_some (λ c, Ascii.eqb c "\") s)); [|apply replace_backslashes].
  f_equal. apply escape_some_ext. intros c. unfold is_special.
  destruct (Ascii.eqb c "\") eqn:He; [apply Ascii.eqb_eq in He; by subst|]. cbn.
  destruct (Ascii.eqb c "(") eqn:Ho; [done|]. cbn. by destruct (Ascii.eqb c ")").
Qed.

(** *** Escaping leaves white space at the ends where it is *)

Lemma plain_cons d e : plain (String d e) = true → is_special d = false ∧ plain e = true.
Proof. cbn. by intros [Hd%negb_true_iff He]%andb_true_iff. Qed.

Lemma starts_escape e s : plain e = true → starts_with e (escape_rule_content s) = true → starts_with e s = true.
Proof.
  revert s. induction e as [|d e IH]; intros [|c s] He; [done..|]. apply plain_cons in He as [Hd He].
  cbn [escape_rule_content]. destruct (is_special c) eqn:Hc; rewrite !starts_with_cons.
  - intros [->%Ascii.eqb_eq _]%andb_true_iff. by vm_compute in Hd.
  - intros [-> Hs]%andb_true_iff. by apply IH.
Qed.

(** The escaped text from its end: the backslash follows. *)
Fixpoint escape_after (s : string) : string :=
  match s with
  | EmptyString => EmptyString
  | String c s => if is_special c then String c (String "\" (escape_after s)) else String c (escape_after s)
  end.

Lemma escape_after_app s t : escape_after (s +:+ t) = escape_after s +:+ escape_after t.
Proof. induction s as [|c s IH]; cbn; [done|]. rewrite !str_app_cons. cbn. rewrite IH. by destruct (is_special c). Qed.

Lemma rev_escape s : String.rev (escape_rule_content s) = escape_after (String.rev s).
Proof.
  induction s as [|c s IH]; [done|]. rewrite rev_cons, escape_after_app, <-IH. cbn [escape_rule_content escape_after].
  destruct (is_special c); rewrite !rev_cons; [|done]. by rewrite str_app_assoc.
Qed.

Lemma starts_escape_after e s : plain e = true → starts_with e (escape_after s) = true → starts_with e s = true.
Proof.
  revert s. induction e as [|d e IH]; intros [|c s] He; [done..|]. apply plain_cons in He as [Hd He].
  cbn [escape_after]. destruct (is_special c) eqn:Hc; rewrite !starts_with_cons.
  - intros [->%Ascii.eqb_eq _]%andb_true_iff. congruence.
  - intros [-> Hs]%andb_true_iff. by apply IH.
Qed.

Lemma white_space_plain e : e ∈ white_space ∨ e ∈ rev_white_space → plain e = true.
Proof. intros [He|He]; revert e He; rewrite <-Forall_forall; repeat constructor. Qed.

Lemma length_rev s : String.length (String.rev s) = String.length s.
Proof. induction s as [|c s IH]; [done|]. rewrite rev_cons, str_length_app, IH. cbn. lia. Qed.

(** A text that [trim] leaves alone has no white space at its ends. *)
Lemma trim_id s : find_prefix white_space s = None → find_prefix rev_white_space (String.rev s) = None → trim s = s.
Proof.
  intros Hs Hr. unfold trim, trim_start. rewrite (drop_front_stop _ s), trim_end_eq, drop_front_stop by done. apply rev_involutive.
Qed.

Lemma find_prefix_escape encs s t : (∀ e, e ∈ encs → starts_with e t = true → starts_with e s = true) →
  find_prefix encs s = None → find_prefix encs t = None.
Proof.
  rewrite !find_prefix_None. intros Hst Hs e He. specialize (Hs e He). rewrite <-not_true_iff_false in *. auto.
Qed.

Lemma trim_fixed s : trim s = s → find_prefix white_space s = None ∧ find_prefix rev_white_space (String.rev s) = None.
Proof.
  intros Ht.
  destruct (drop_front_split white_space white_space_ne white_space_free s) as (ws & Hs & _ & Hn).
  destruct (drop_front_split rev_white_space rev_white_space_ne rev_white_space_free (String.rev (trim_start s))) as (vs & Hv & _ & Hm).
  fold (trim_start s) in Hs, Hn. set (d := drop_front rev_white_space 0 (String.rev (trim_start s))) in *.
  assert (s = String.rev d) as Hd by (rewrite <-Ht; reflexivity).
  assert (trim_start s = s) as Hts.
  { pose proof (f_equal String.length Hs) as L1. pose proof (f_equal String.length Hv) as L2.
    pose proof (f_equal String.length Hd) as L3. rewrite !str_length_app in *. rewrite !length_rev in *.
    destruct (foldr String.append "" ws); [by rewrite Hs at 2|]. cbn in L1. lia. }
  rewrite Hts in Hn. split; [done|]. by rewrite Hd, rev_involutive.
Qed.

Lemma trim_escape s : trim s = s → trim (escape_rule_content s) = escape_rule_content s.
Proof.
  intros [Hs Hr]%trim_fixed. apply trim_id.
  - eapply find_prefix_escape, Hs. eauto using starts_escape, white_space_plain.
  - rewrite rev_escape. eapply find_prefix_escape, Hr. eauto using starts_escape_after, white_space_plain.
Qed.

(** *** Finding the parentheses *)

Lemma open_paren_found f rest :
  f ≠ ForAny → find_first_unescaped (tool_name f +:+ "(" +:+ rest) "(" = Some (String.length (tool_name f)).
Proof. by destruct f. Qed.

Lemma get_app s c t : String.get (String.length s) (s +:+ String c t) = Some c.
Proof. induction s as [|d s IH]; [done|]. exact IH. Qed.

Lemma close_paren_found s :
  find_last_unescaped (escape_rule_content s +:+ ")") ")" = Some (String.length (escape_rule_content s)).
Proof.
  unfold find_last_unescaped. rewrite str_length_app, Nat.add_1_r, seq_S, Nat.add_0_l, reverse_snoc. cbn [List.find].
  unfold byte_is, is_unescaped. rewrite get_app, take_bytes_app. rewrite escape_ends_even by done. by rewrite bool_decide_true.
Qed.

(** *** Reading back what was written *)

Definition mode_text (mode : PatternMode) (p : string) : string :=
  match mode with DomainMode => "domain:" | GlobMode => "" end +:+ p.

(** The patterns that no idiom of the short form gets in the way of. *)
Definition writable (f : ToolFilter) (mode : PatternMode) (p : string) : Prop :=
  p ≠ "" ∧ mode_text mode p ≠ "*"
  ∧ (mode = GlobMode → starts_with "domain:" p = false)
  ∧ (f = ForBash → ends_with ":*" (mode_text mode p) = false).

Lemma render_text f mode p :
  render_rule f mode p = tool_name f +:+ "(" +:+ (escape_rule_content (mode_text mode p) +:+ ")").
Proof. unfold render_rule, mode_text. rewrite escape_app, !str_app_assoc. by destruct mode. Qed.

Lemma trim_rendered f rest : f ≠ ForAny → trim (tool_name f +:+ "(" +:+ (rest +:+ ")")) = tool_name f +:+ "(" +:+ (rest +:+ ")").
Proof.
  intros Hf. apply trim_id; [by destruct f|]. rewrite <-!str_app_assoc, rev_app_distr. reflexivity.
Qed.

Lemma tool_name_read f : f ≠ ForAny → tool_name_to_filter (trim (tool_name f)) = Some f.
Proof. by destruct f. Qed.

(** What the parser makes of an escaped text. *)
Lemma rendered_parse f mode p act : f ≠ ForAny → trim (mode_text mode p) = mode_text mode p →
  parse_permission_rule (render_rule f mode p) act =
    let t := if String.eqb (mode_text mode p) "*" then "" else mode_text mode p in
    let q := strip_domain_prefix (if bool_decide (f = ForBash) then strip_bash_colon_wildcard t else t) in
    Ok (mkRule act f (non_empty_pattern q.1) q.2).
Proof.
  intros Hf Ht. unfold parse_permission_rule. rewrite render_text, trim_rendered, open_paren_found, take_bytes_app, tool_name_read by done.
  replace (drop_bytes _ _) with (escape_rule_content (mode_text mode p) +:+ ")") by (by destruct f).
  rewrite close_paren_found, take_bytes_app, trim_escape by done. cbv zeta.
  assert ((if is_empty (escape_rule_content (mode_text mode p)) || String.eqb (escape_rule_content (mode_text mode p)) "*" then ""
           else unescape_rule_content (escape_rule_content (mode_text mode p)))
          = (if String.eqb (mode_text mode p) "*" then "" else mode_text mode p)) as ->.
  { rewrite unescape_escape. destruct (String.eqb_spec (mode_text mode p) "*") as [->|Hne]; [done|].
    destruct (String.eqb_spec (escape_rule_content (mode_text mode p)) "*") as [Hs%escape_star|_]; [done|].
    destruct (escape_rule_content (mode_text mode p)) eqn:Hn; [|done]. by apply escape_nil in Hn as ->. }
  by destruct (strip_domain_prefix _).
Qed.

Lemma domain_prefix_read t : strip_domain_prefix t =
  match strip_prefix "domain:" t with Some d => (d, DomainMode) | None => (t, GlobMode) end.
Proof. done. Qed.

Lemma bash_wildcard_stripped t : ends_with ":*" t = true → String.length (strip_bash_colon_wildcard t) < String.length t.
Proof.
  unfold ends_with, strip_bash_colon_wildcard, strip_suffix. destruct (strip_prefix _ (String.rev t)) as [r|] eqn:E; [|done]. intros _.
  apply strip_prefix_Some in E. apply (f_equal String.length) in E. rewrite str_length_app, length_rev in E.
  change (String.length (String.rev r) < String.length t). rewrite length_rev. cbn in E. lia.
Qed.

Lemma bash_wildcard_kept t : ends_with ":*" t = false → strip_bash_colon_wildcard t = t.
Proof. unfold ends_with, strip_bash_colon_wildcard. by destruct (strip_suffix _ _). Qed.

Lemma mode_text_domain mode p t : strip_domain_prefix t = (p, mode) → t = mode_text mode p.
Proof.
  rewrite domain_prefix_read. destruct (strip_prefix "domain:" t) as [d|] eqn:E; intros [= <- <-]; [|done].
  by apply strip_prefix_Some in E.
Qed.

(** C32: A rule that is written down is read back as the rule that was meant,
    same tool, same pattern character by character, same way of matching, exactly
    when its text is not one of the idioms. The rule is for a named tool, its
    pattern is written behind "domain:" if it matches domains, with its
    parentheses and backslashes escaped, and the text has no white space at
    either end (the parser trims it). It is read back if and only if the pattern
    is not empty, the text is not the single star, a glob does not begin with
    "domain:", and the text of a Bash rule does not end in ":*"; these four the
    parser reads as the whole tool, a domain, or a prefix. Whatever other
    parentheses, stars or backslashes the pattern holds make no difference. *)
Theorem written_rule_is_read f mode p act :
  f ≠ ForAny → trim (mode_text mode p) = mode_text mode p →
  parse_permission_rule (render_rule f mode p) act = Ok (mkRule act f (Some p) mode) ↔ writable f mode p.
Proof.
  intros Hf Ht. rewrite rendered_parse by done. cbv zeta. unfold writable, non_empty_pattern. split.
  - intros Hr. destruct (String.eqb_spec (mode_text mode p) "*") as [Hs|Hs].
    { exfalso. assert ((if bool_decide (f = ForBash) then strip_bash_colon_wildcard "" else "") = "") as E by (by case_bool_decide).
      rewrite E in Hr. discriminate Hr. }
    set (t := if bool_decide (f = ForBash) then _ else _) in *. destruct (strip_domain_prefix t) as [q m] eqn:E. cbn [fst snd] in Hr.
    destruct (is_empty q) eqn:Hq; [discriminate|]. injection Hr as -> ->.
    pose proof (mode_text_domain _ _ _ E) as Et. split_and!; [by intros ->|done| |].
    + intros ->. rewrite domain_prefix_read in E. unfold starts_with. assert (t = p) as Etp by (rewrite Et; apply str_app_nil_l).
      rewrite Etp in E. by destruct (strip_prefix "domain:" p).
    + intros ->. apply not_true_iff_false. intros He%bash_wildcard_stripped. subst t.
      rewrite bool_decide_eq_true_2 in Et by done. rewrite Et in He. lia.
  - intros (Hp & Hs & Hd & Hb). destruct (String.eqb_spec (mode_text mode p) "*") as [?|_]; [done|].
    assert ((if bool_decide (f = ForBash) then strip_bash_colon_wildcard (mode_text mode p) else mode_text mode p) = mode_text mode p) as ->.
    { case_bool_decide; [|done]. apply bash_wildcard_kept. by apply Hb. }
    assert (strip_domain_prefix (mode_text mode p) = (p, mode)) as ->.
    { rewrite domain_prefix_read. unfold mode_text. destruct mode; [|by rewrite strip_prefix_app].
      specialize (Hd eq_refl). unfold starts_with in Hd. rewrite str_app_nil_l. by destruct (strip_prefix "domain:" p). }
    cbn [fst snd]. by destruct p.
Qed.

Lemma written_rule_is_read_witness :
  parse_permission_rule (render_rule ForBash GlobMode "echo \(a) *") RuleDeny
  = Ok (mkRule RuleDeny ForBash (Some "echo \(a) *") GlobMode).
Proof.
  apply written_rule_is_read; [discriminate|vm_compute; reflexivity|].
  split; [discriminate|]. split; [discriminate|]. split; intros _; vm_compute; reflexivity.
Defined.
