(* ===== verification/ShellTree.v ===== *)
(** * Shell scripts as syntax trees (permission/bash_command_splitting.rs)

    The grammar is tree-sitter's, which is not modelled: a script's tree is the
    value of a parameter. What the program makes of a tree is modelled: which
    scripts are chains of plain commands, the words of each command, and the
    wrapper commands that are peeled off them. *)

From Stdlib Require Import Ascii String.
From S2P Require Import Prelude RustStr.
From stdpp Require Import options.

(** ** Trees *)

#[local] Unset Elimination Schemes.
Inductive Node : Type :=
| mkNode (kind : string) (named : bool) (field : option string) (start_byte end_byte : nat) (children : list Node).
#[local] Set Elimination Schemes.

Definition kind (n : Node) : string := let '(mkNode k _ _ _ _ _) := n in k.
Definition is_named (n : Node) : bool := let '(mkNode _ b _ _ _ _) := n in b.
Definition field (n : Node) : option string := let '(mkNode _ _ f _ _ _) := n in f.
Definition start_byte (n : Node) : nat := let '(mkNode _ _ _ s _ _) := n in s.
Definition end_byte (n : Node) : nat := let '(mkNode _ _ _ _ e _) := n in e.
Definition children (n : Node) : list Node := let '(mkNode _ _ _ _ _ cs) := n in cs.

Lemma Node_ind (P : Node → Prop) (step : ∀ n, Forall P (children n) → P n) : ∀ n, P n.
Proof.
  fix IH 1. intros [k b f s e cs]. apply step. cbn. revert cs. fix IHcs 1. intros [|c cs]; constructor; [apply IH|apply IHcs].
Qed.

(** A tree, and whether it holds an error the parser recovered from. *)
Record Tree : Type := mkTree { root_node : Node; has_error : bool }.

Definition named_children (n : Node) : list Node := bfilter is_named (children n).
Definition child_by_field_name (f : string) (n : Node) : option Node :=
  List.find (λ c, bool_decide (field c = Some f)) (children n).

(** [node.utf8_text(src.as_bytes()).ok()] *)
Definition utf8_text (src : string) (n : Node) : option string :=
  from_utf8 (substring (start_byte n) (end_byte n - start_byte n) src).

(** All nodes in the order in which a stack of nodes is popped: the last child
    is visited first. *)
Fixpoint walk (n : Node) : list Node :=
  match n with
  | mkNode _ _ _ _ _ cs =>
      n :: (fix go (cs : list Node) (acc : list Node) : list Node :=
              match cs with
              | [] => acc
              | c :: cs => go cs (walk c ++ acc)
              end) cs []
  end.

Definition starts_no_later (m n : Node) : Prop := (start_byte m ≤ start_byte n)%nat.
#[export] Instance starts_no_later_dec : RelDecision starts_no_later.
Proof. intros m n. unfold starts_no_later. apply _. Defined.

(** ** Plain commands *)

Record PlainCommand : Type := mkPlain { words : list string; span_start : nat; span_end : nat }.

Definition ALLOWED_KINDS : list string :=
  ["program"; "list"; "pipeline"; "command"; "command_name"; "word"; "string"; "string_content"; "raw_string";
   "number"; "concatenation"; "variable_assignment"; "variable_name"; "redirected_statement"; "file_redirect";
   "file_descriptor"; "comment"; "heredoc_redirect"; "heredoc_start"; "heredoc_body"; "heredoc_content";
   "heredoc_end"].
Definition double_quote : string := String "034" "".
Definition ALLOWED_PUNCT_TOKENS : list string :=
  ["&&"; "||"; ";"; "|"; double_quote; "'"; "="; ">"; ">>"; "<"; "<<"; ">&"; "&>"; "&>>"].

Definition is_operator_char (c : ascii) : bool := Ascii.eqb c "&" || Ascii.eqb c ";" || Ascii.eqb c "|".

(** The checks of one visited node. *)
Definition node_allowed (n : Node) : bool :=
  if is_named n then contains (kind n) ALLOWED_KINDS
  else if negb (all_chars (λ c, negb (is_operator_char c)) (kind n)) && negb (contains (kind n) ALLOWED_PUNCT_TOKENS)
  then false
  else contains (kind n) ALLOWED_PUNCT_TOKENS || is_empty (trim (kind n)).

(** The words collected so far, and the span of the highlighted part. *)
Record CommandWords : Type := mkWords { cw_words : list string; cw_start : option nat; cw_end : option nat }.

Definition push_word (text : string) (n : Node) (w : CommandWords) : CommandWords :=
  mkWords (cw_words w ++ [text])
    (Some match cw_start w with Some s => s | None => start_byte n end) (Some (end_byte n)).

Definition simple_string (n : Node) : option Node :=
  match children n with
  | [open; content; close] =>
      if String.eqb (kind open) double_quote && String.eqb (kind content) "string_content"
         && String.eqb (kind close) double_quote
      then Some content else None
  | _ => None
  end.

Definition command_child (src : string) (child : Node) (w : CommandWords) : option CommandWords :=
  let k := kind child in
  if String.eqb k "variable_assignment" then Some w
  else if String.eqb k "command_name" then
    head (named_children child) ≫= λ word_node,
    if String.eqb (kind word_node) "word"
    then utf8_text src word_node ≫= λ text, Some (push_word text word_node w) else None
  else if String.eqb k "word" || String.eqb k "number" then
    utf8_text src child ≫= λ text, Some (push_word text child w)
  else if String.eqb k "string" then
    simple_string child ≫= λ content, utf8_text src content ≫= λ text, Some (push_word text child w)
  else if String.eqb k "raw_string" then
    utf8_text src child ≫= λ raw,
    (strip_prefix "'" raw ≫= strip_suffix "'") ≫= λ s, Some (push_word s child w)
  else if String.eqb k "concatenation" then
    utf8_text src child ≫= λ text, Some (push_word text child w)
  else None.

Definition parse_plain_command_from_node (src : string) (cmd : Node) : option PlainCommand :=
  if negb (String.eqb (kind cmd) "command") then None
  else foldl (λ w child, w ≫= command_child src child) (Some (mkWords [] None None)) (named_children cmd) ≫= λ w,
       Some (mkPlain (cw_words w) (default (start_byte cmd) (cw_start w)) (default (end_byte cmd) (cw_end w))).

Definition command_nodes (root : Node) : list Node :=
  stable_sort starts_no_later
    (bfilter (λ n, is_named n && String.eqb (kind n) "command") (walk root)).

Definition try_parse_word_only_commands_sequence (tree : Tree) (src : string) : option (list PlainCommand) :=
  if has_error tree then None
  else if all node_allowed (walk (root_node tree))
  then mapM (parse_plain_command_from_node src) (command_nodes (root_node tree))
  else None.

(** ** Setup commands and wrappers *)

Definition is_setup_command (cmd : list string) : bool :=
  match cmd with
  | [] => true
  | w :: _ => contains w ["cd"; "pushd"; "popd"; "export"; "unset"; "set"; "sleep"; "timeout"]
  end.

Definition is_ascii_alphabetic (c : ascii) : bool :=
  let n := nat_of_ascii c in (65 <=? n) && (n <=? 90) || (97 <=? n) && (n <=? 122).

Definition is_env_assignment (tok : string) : bool :=
  match find "=" tok with
  | None => false
  | Some eq =>
      match take_bytes eq tok with
      | EmptyString => false
      | String b rest as name =>
          (is_ascii_alphabetic b || Ascii.eqb b "_")
          && all_chars (λ c, is_ascii_alphabetic c || is_ascii_digit c || Ascii.eqb c "_") name
      end
  end.

Fixpoint env_scan_go (rest : list string) (i : nat) (chdir : option string) : option string * nat :=
  match rest with
  | [] => (chdir, i)
  | tok :: rest =>
      if String.eqb tok "--" then (chdir, S i)
      else if negb (String.eqb tok "-") && starts_with "-" tok then
        if String.eqb tok "-C" || String.eqb tok "--chdir" then
          match rest with
          | dir :: rest => env_scan_go rest (i + 2) (Some dir)
          | [] => (None, i + 2)
          end
        else
          match strip_prefix "--chdir=" tok with
          | Some dir => env_scan_go rest (S i) (Some dir)
          | None =>
              match strip_prefix "-C" tok with
              | Some (String _ _ as dir) => env_scan_go rest (S i) (Some dir)
              | _ =>
                  if contains tok ["-u"; "--unset"; "-S"; "--split-string"] then
                    match rest with
                    | _ :: rest => env_scan_go rest (i + 2) chdir
                    | [] => (chdir, i + 2)
                    end
                  else env_scan_go rest (S i) chdir
              end
          end
      else if is_env_assignment tok then env_scan_go rest (S i) chdir
      else (chdir, i)
  end.

Definition env_scan (cmd : list string) : option string * nat := env_scan_go (drop 1 cmd) 1 None.

(** [while i < cmd.len() && cmd[i].starts_with('-')], an option of [two] taking
    the next word with it. *)
Fixpoint skip_options (two : list string) (rest : list string) (i : nat) : nat :=
  match rest with
  | [] => i
  | tok :: rest =>
      if starts_with "-" tok then
        if contains tok two then match rest with _ :: rest => skip_options two rest (i + 2) | [] => i + 2 end
        else skip_options two rest (S i)
      else i
  end.

Definition is_separator (c : ascii) : bool := Ascii.eqb c "/" || Ascii.eqb c "\".
(** [word.rsplit(['/', '\\']).next()] *)
Definition basename (word : string) : string := default word (last (split_pred is_separator word)).

Definition strip_wrapper_command (cmd : list string) : option (list string) :=
  head cmd ≫= λ w,
  let head := basename w in
  let rest := drop 1 cmd in
  (if String.eqb head "timeout" then
     let i := skip_options ["-k"; "-s"; "--kill-after"; "--signal"] rest 1 in
     if length cmd <=? i then None else Some (S i)
   else if String.eqb head "nice" then Some (skip_options ["-n"; "--adjustment"] rest 1)
   else if String.eqb head "ionice" then
     Some (skip_options ["-c"; "-n"; "-p"; "-P"; "-u"; "--class"; "--classdata"; "--pid"; "--pgid"; "--uid"] rest 1)
   else if String.eqb head "chrt" then
     let i := skip_options [] rest 1 in if length cmd <=? i then None else Some (S i)
   else if String.eqb head "stdbuf" then Some (skip_options ["-i"; "-o"; "-e"] rest 1)
   else if String.eqb head "env" then Some (env_scan cmd).2
   else None) ≫= λ i,
  match drop i cmd with
  | [] => None
  | inner => Some inner
  end.

Definition is_wrapper_command (ws : list string) : bool :=
  match head ws with
  | Some w => contains (basename w) ["timeout"; "nice"; "ionice"; "chrt"; "stdbuf"; "env"]
  | None => false
  end.

Fixpoint unwrap_go (n : nat) (current : list string) : list string :=
  match n with
  | O => current
  | S n => match strip_wrapper_command current with Some inner => unwrap_go n inner | None => current end
  end.
Definition unwrap_wrappers (ws : list string) : list string := unwrap_go 8 ws.

Fixpoint chdir_go (n : nat) (current : list string) : bool :=
  match n with
  | O => false
  | S n =>
      if match head current with
         | Some w => String.eqb (basename w) "env" && match (env_scan current).1 with Some _ => true | None => false end
         | None => false
         end
      then true
      else match strip_wrapper_command current with Some inner => chdir_go n inner | None => false end
  end.
Definition wrapper_has_chdir (ws : list string) : bool := chdir_go 8 ws.

(** ** The parser *)

(** [try_parse_shell]: tree-sitter with its bash grammar. *)
Class ShellParser : Type := try_parse_shell : string → option Tree.

Definition all_commands_from_script `{ShellParser} (script : string) : option (list PlainCommand) :=
  try_parse_shell script ≫= λ tree, try_parse_word_only_commands_sequence tree script.

Example peels_nested_wrappers :
  unwrap_wrappers ["timeout"; "-k"; "5"; "30"; "/usr/bin/env"; "FOO=1"; "nice"; "-n"; "5"; "rm"; "-rf"; "/"] = ["rm"; "-rf"; "/"].
Proof. vm_compute. reflexivity. Qed.
