(* ===== verification/ShellAccess.v ===== *)
(** * Files a shell command touches (permission/shell_access.rs)

    A deny on a file must hold for a shell command too: redirects are read off
    the syntax tree, and the operands of known readers and writers are judged as
    reads and edits. Nothing here allows anything; what cannot be pinned down
    makes the user be asked. *)

From Stdlib Require Import Ascii String.
From S2P Require Import Prelude RustStr PermTypes ShellTree PermPolicy.
From stdpp Require Import options.

Inductive ShellFileMode : Type := ReadMode | WriteMode.
#[export] Instance ShellFileMode_eq_dec : EqDecision ShellFileMode.
Proof. solve_decision. Defined.

Definition is_safe_write_sink (path : string) : bool := contains path ["/dev/null"; "/dev/stdout"; "/dev/stderr"].

Definition shell_file_mode (program : string) : option ShellFileMode :=
  if contains program
       ["cat"; "tac"; "nl"; "head"; "tail"; "grep"; "egrep"; "fgrep"; "rg"; "sed"; "awk"; "less"; "more"; "bat";
        "strings"; "xxd"; "od"; "hexdump"; "base64"; "base32"; "cut"; "sort"; "uniq"; "wc"; "type"; "get-content";
        "gc"; "diff"; "comm"; "rev"; "jq"; "yq"; "select-string"; "sls"; "ag"; "ack"; "zcat"; "zless"; "zmore";
        "zgrep"; "zegrep"; "zfgrep"; "bzcat"; "bzgrep"; "xzcat"; "xzgrep"; "zstdcat"; "lz4cat"]
  then Some ReadMode
  else if contains program ["tee"; "set-content"; "out-file"; "add-content"; "tee-object"; "truncate"]
  then Some WriteMode
  else None.

Definition shell_program_name (word : string) : string := basename word.

(** ** Operands *)

Definition shell_sed_in_place (ws : list string) : bool :=
  any (λ w, String.eqb w "--in-place" || starts_with "--in-place=" w
            || (starts_with "-" w && negb (starts_with "--" w) && str_contains "i" w)) (drop 1 ws).

(** Every word with the one behind it. *)
Fixpoint with_next (ws : list string) : list (string * option string) :=
  match ws with
  | [] => []
  | w :: ws => (w, head ws) :: with_next ws
  end.

Definition nonempty (s : string) : option string := if is_empty s then None else Some s.

Definition shell_output_flag_values (ws : list string) : list string :=
  omap (λ '(token, next),
    match strip_prefix "--output=" token with
    | Some v => Some v
    | None =>
        match strip_prefix "-o" token ≫= nonempty with
        | Some v => Some v
        | None => if String.eqb token "--output" || String.eqb token "-o" then next else None
        end
    end) (with_next ws).

Definition value_flag_values (ws : list string) (flag : string) : list string :=
  omap (λ '(token, next),
    match strip_prefix (flag +:+ "=") token with
    | Some v => Some v
    | None =>
        if String.eqb token flag then next
        else if negb (starts_with "--" flag) then strip_prefix flag token ≫= nonempty
        else None
    end) (with_next ws).

Fixpoint candidates_go (end_of_options : bool) (ws : list string) : list string :=
  match ws with
  | [] => []
  | token :: ws =>
      if negb end_of_options && String.eqb token "--" then candidates_go true ws
      else if end_of_options || (negb (String.eqb token "-") && negb (starts_with "-" token))
      then token :: candidates_go end_of_options ws
      else candidates_go end_of_options ws
  end.
Definition shell_file_candidates (ws : list string) : list string := candidates_go false (drop 1 ws).

Definition mode_of (mode : ShellFileMode) (path : string) : string * ShellFileMode := (path, mode).

Definition special_file_operands (program : string) (ws : list string) : list (string * ShellFileMode) :=
  if String.eqb program "dd" then
    omap (λ token, match strip_prefix "if=" token with
                   | Some path => Some (path, ReadMode)
                   | None => mode_of WriteMode <$> strip_prefix "of=" token
                   end) (drop 1 ws)
  else if contains program ["sort"; "go"; "git"] then map (mode_of WriteMode) (shell_output_flag_values ws)
  else if String.eqb program "rustc" then
    map (mode_of WriteMode) (shell_output_flag_values ws ++ value_flag_values ws "--out-dir")
  else if String.eqb program "rustfmt" then map (mode_of WriteMode) (shell_file_candidates ws)
  else [].

Definition shell_path_command_operands (program : string) (ws : list string) : option (list (string * ShellFileMode)) :=
  if contains program ["cp"; "mv"; "ln"; "install"] then
    let operands := shell_file_candidates ws in
    last operands ≫= λ dest, Some (map (mode_of ReadMode) (removelast operands) ++ [(dest, WriteMode)])
  else if contains program ["rm"; "rmdir"; "mkdir"; "touch"] then
    Some (map (mode_of WriteMode) (shell_file_candidates ws))
  else if String.eqb program "uniq" then
    match shell_file_candidates ws with
    | input :: output :: _ => Some [(input, ReadMode); (output, WriteMode)]
    | _ => None
    end
  else None.

Definition shell_arg_is_ambiguous (token : string) : bool :=
  str_contains "*" token || str_contains "?" token || str_contains "[" token.

Definition is_directory_operand (token : string) : bool :=
  String.eqb token "." || String.eqb token ".." || ends_with "/" token.

Definition shell_reader_can_recurse (program : string) (ws candidates : list string) : bool :=
  let grep_recursive :=
    contains program ["grep"; "egrep"; "fgrep"]
    && any (λ w, String.eqb w "--recursive" || String.eqb w "--dereference-recursive"
                 || (starts_with "-" w && negb (starts_with "--" w) && (str_contains "r" w || str_contains "R" w))) ws in
  let searches_dir :=
    contains program ["rg"; "ag"; "ack"]
    && ((length candidates <=? 1) || any is_directory_operand (drop 1 candidates)) in
  grep_recursive || searches_dir.

(** ** Paths *)

Definition second_is_colon (path : string) : bool := starts_with ":" (drop_bytes 1 path).

Definition is_absolute_shell_path (path : string) : bool :=
  starts_with "/" path || starts_with "~/" path || second_is_colon path.

Definition backslash_to_slash (c : ascii) : ascii := if Ascii.eqb c "\" then "/"%char else c.

Definition normalize_shell_path_raw (path : string) : string :=
  let p := map_string backslash_to_slash (trim_matches_pred (λ c, Ascii.eqb c "034" || Ascii.eqb c "'") path) in
  match strip_prefix "/c/" p with
  | Some rest => "C:/" +:+ rest
  | None => p
  end.

(** One segment; [out] holds the segments kept, in reverse. *)
Definition push_segment (absolute : bool) (out : list string) (segment : string) : list string :=
  if is_empty segment || String.eqb segment "." then out
  else if String.eqb segment ".." then
    match out with
    | top :: below => if negb (String.eqb top "..") then below else if negb absolute then ".." :: out else out
    | [] => if negb absolute then [".."] else []
    end
  else segment :: out.

Definition lexical_normalize (path : string) : string :=
  let prefix_len := if second_is_colon path then 2 else 0 in
  let prefix := take_bytes prefix_len path in
  let rest := drop_bytes prefix_len path in
  let absolute := starts_with "/" rest in
  let body := join "/" (reverse (foldl (push_segment absolute) [] (split_char "/" rest))) in
  prefix +:+ (if absolute then "/" else "") +:+ body.

Definition normalize_shell_path (path : string) : string := lexical_normalize (normalize_shell_path_raw path).

(** ** Symbolic links: what the code asks the file system *)

Class Links : Type := {
  canonicalize : string → option string;
  is_symlink : string → bool;
  read_link : string → option string;
}.

Section links.
Context `{Links}.

(** Every prefix of the path, component by component. *)
Fixpoint prefix_is_symlink (prefix : list string) (rest : list string) : bool :=
  match rest with
  | [] => false
  | c :: rest => is_symlink (path_of (prefix ++ [c])) || prefix_is_symlink (prefix ++ [c]) rest
  end.
Definition path_has_symlink (absolute : string) : bool :=
  if starts_with "/" absolute then prefix_is_symlink [] (path_components absolute) else false.

(** [depth > MAX_SYMLINK_DEPTH] gives up: the fuel is 41 levels. *)
Fixpoint resolve_following_symlinks (fuel : nat) (path : string) : option string :=
  match fuel with
  | O => None
  | S fuel =>
      match canonicalize path with
      | Some canonical => Some canonical
      | None =>
          path_parent path ≫= λ parent,
          file_name path ≫= λ name,
          resolve_following_symlinks fuel parent ≫= λ resolved_parent,
          let candidate := path_join resolved_parent name in
          if is_symlink candidate then
            read_link candidate ≫= λ target,
            resolve_following_symlinks fuel
              (if starts_with "/" target then target else path_join resolved_parent target)
          else Some candidate
      end
  end.
Definition MAX_SYMLINK_DEPTH : nat := 40.

Definition resolve_symlink_target (absolute : string) : option string :=
  if starts_with "/" absolute
  then normalize_shell_path <$> resolve_following_symlinks (S MAX_SYMLINK_DEPTH) absolute
  else None.
End links.

(** ** Reading the tree *)

Inductive ArgText : Type := Literal (s : string) | Ambiguous.

Definition node_has_expansion (n : Node) : bool :=
  any (λ c, contains (kind c) ["expansion"; "simple_expansion"; "command_substitution"; "arithmetic_expansion";
                               "process_substitution"]) (drop 1 (walk n)).

(** [strip_prefix(q).and_then(strip_suffix(q)).unwrap_or(raw)] *)
Definition unquote (q raw : string) : string := default raw (strip_prefix q raw ≫= strip_suffix q).

Definition shell_node_arg (src : string) (n : Node) : option ArgText :=
  let k := kind n in
  if String.eqb k "variable_assignment" then None
  else if String.eqb k "word" || String.eqb k "number" then Literal <$> utf8_text src n
  else if String.eqb k "raw_string" then (λ raw, Literal (unquote "'" raw)) <$> utf8_text src n
  else if String.eqb k "string" then
    if node_has_expansion n then Some Ambiguous else (λ raw, Literal (unquote double_quote raw)) <$> utf8_text src n
  else if String.eqb k "concatenation" then
    if node_has_expansion n then Some Ambiguous else Literal <$> utf8_text src n
  else Some Ambiguous.

Definition invocation_arg (src : string) (child : Node) : option ArgText :=
  if String.eqb (kind child) "command_name" then head (named_children child) ≫= shell_node_arg src
  else shell_node_arg src child.

Record Invocation : Type := mkInvocation { inv_start : nat; inv_words : list string; inv_ambiguous : bool }.

Definition command_invocation (src : string) (n : Node) : Invocation :=
  let args := map (invocation_arg src) (named_children n) in
  mkInvocation (start_byte n)
    (omap (λ a, match a with Some (Literal w) => Some w | _ => None end) args)
    (any (λ a, match a with Some Ambiguous => true | _ => false end) args).

Definition invocation_starts (a b : Invocation) : Prop := (inv_start a ≤ inv_start b)%nat.
#[export] Instance invocation_starts_dec : RelDecision invocation_starts.
Proof. intros a b. unfold invocation_starts. apply _. Defined.

Definition shell_command_invocations (root : Node) (src : string) : list Invocation :=
  stable_sort invocation_starts
    (map (command_invocation src) (bfilter (λ n, String.eqb (kind n) "command") (walk root))).

(** The kind of the operator of a redirect; [None] for a here-document. *)
Fixpoint redirect_operator (cs : list Node) : option string :=
  match cs with
  | [] => None
  | c :: cs =>
      if str_contains "<<" (kind c) then None
      else if str_contains ">" (kind c) || str_contains "<" (kind c) then Some (kind c)
      else redirect_operator cs
  end.

Definition shell_redirect_one (src : string) (n : Node) : option (option string * ShellFileMode * bool) :=
  redirect_operator (children n) ≫= λ redirect,
  let mode := if str_contains ">" redirect then WriteMode else ReadMode in
  let duplicates_fd := String.eqb redirect ">&" || String.eqb redirect "<&" in
  child_by_field_name "destination" n ≫= λ dest,
  shell_node_arg src dest ≫= λ arg,
  match arg with
  | Literal s =>
      if is_empty s || starts_with "&" s || (duplicates_fd && (String.eqb s "-" || all_chars is_ascii_digit s))
      then None
      else Some (Some s, mode, shell_arg_is_ambiguous s)
  | Ambiguous => Some (None, mode, true)
  end.

Record Redirect : Type := mkRedirect { rd_start : nat; rd_path : option string; rd_mode : ShellFileMode; rd_ambiguous : bool }.

Definition shell_redirect_targets (root : Node) (src : string) : list Redirect :=
  omap (λ n,
    if String.eqb (kind n) "file_redirect"
    then (λ '(path, mode, ambiguous), mkRedirect (start_byte n) path mode ambiguous) <$> shell_redirect_one src n
    else None) (walk root).

(** ** Directory changes

    [runs_in_current_shell] climbs from a command to the root: none of the nodes
    on the way is followed by an ampersand, none above the command is a subshell
    of some kind. Here the same is carried down. *)
Definition is_subshell_kind (k : string) : bool :=
  contains k ["subshell"; "pipeline"; "command_substitution"; "process_substitution"].

Definition followed_by_amp (siblings : list Node) : bool :=
  match siblings with s :: _ => String.eqb (kind s) "&" | [] => false end.

Definition is_cd (src : string) (n : Node) : bool :=
  String.eqb (kind n) "command"
  && match child_by_field_name "name" n ≫= utf8_text src with
     | Some p => contains (shell_program_name p) ["cd"; "pushd"; "popd"]
     | None => false
     end.

Fixpoint cwd_poison_from (src : string) (in_shell : bool) (n : Node) : list nat :=
  match n with
  | mkNode k _ _ s _ cs =>
      (if is_cd src n && in_shell then [s] else [])
      ++ (fix go (cs : list Node) : list nat :=
            match cs with
            | [] => []
            | c :: cs => cwd_poison_from src (in_shell && negb (is_subshell_kind k) && negb (followed_by_amp cs)) c ++ go cs
            end) cs
  end.
Definition cwd_poison_positions (root : Node) (src : string) : list nat := cwd_poison_from src true root.

Definition cwd_unpinned_before (positions : list nat) (at_ : nat) : bool := any (λ p, p <? at_) positions.

(** ** What a script writes *)

Definition is_write (mode : ShellFileMode) : bool := bool_decide (mode = WriteMode).

Definition command_words_write_paths (ws : list string) : list string :=
  let inner := unwrap_wrappers ws in
  match head inner with
  | None => []
  | Some w =>
      let program := to_ascii_lowercase (shell_program_name w) in
      let written l := map fst (bfilter (λ e : string * ShellFileMode, is_write e.2) l) in
      written (special_file_operands program inner)
      ++ match shell_path_command_operands program inner with
         | Some operands => written operands
         | None =>
             if bool_decide (shell_file_mode program = Some WriteMode)
                || (String.eqb program "sed" && shell_sed_in_place inner)
             then shell_file_candidates inner else []
         end
  end.

Definition command_write_paths_in_tree (root : Node) (src : string) : list string :=
  omap (λ r, if is_write (rd_mode r) then rd_path r else None) (shell_redirect_targets root src)
  ++ concat (map (λ i, command_words_write_paths (inv_words i)) (shell_command_invocations root src)).

(** ** Judging the files *)

Definition shell_access (mode : ShellFileMode) (path : string) : AccessKind :=
  match mode with ReadMode => Read (Some path) | WriteMode => Edit path end.

Section judging.
Context `{Globs, Urls, Links, ShellParser}.

Definition evaluate_shell_path (p : CompiledPolicy) (cwd token : string) (mode : ShellFileMode) : option Decision :=
  let path := normalize_shell_path token in
  let absolute := if is_absolute_shell_path path then path else normalize_shell_path (path_join cwd path) in
  let raw := normalize_shell_path_raw token in
  let raw_absolute := if is_absolute_shell_path raw then raw else normalize_shell_path_raw (path_join cwd raw) in
  let resolved_decision :=
    match resolve_symlink_target raw_absolute with
    | Some resolved =>
        if negb (String.eqb resolved absolute) then escalation (evaluate p (shell_access mode resolved)) else None
    | None => if path_has_symlink raw_absolute then Some Ask else None
    end in
  combine_decisions
    (combine_decisions (escalation (evaluate p (shell_access mode path)))
                       (escalation (evaluate p (shell_access mode absolute))))
    resolved_decision.

(** What has been found so far: the strongest decision, and whether to ask. *)
Definition Finding : Type := option Decision * bool.

Definition judge_operand (p : CompiledPolicy) (cwd : string) (f : Finding) (e : string * ShellFileMode) : Finding :=
  (combine_decisions f.1 (evaluate_shell_path p cwd e.1 e.2), f.2 || shell_arg_is_ambiguous e.1).

Definition judge_redirect (p : CompiledPolicy) (cwd : string) (cwd_changes : list nat) (f : Finding) (r : Redirect) : Finding :=
  let forced := f.2 || rd_ambiguous r in
  match rd_path r with
  | None => (f.1, forced)
  | Some path =>
      (combine_decisions f.1 (evaluate_shell_path p cwd path (rd_mode r)),
       forced || (cwd_unpinned_before cwd_changes (rd_start r)
                  && negb (is_absolute_shell_path (normalize_shell_path path))))
  end.

Definition operand_modes (program : string) (ws : list string) : option (list ShellFileMode) :=
  match shell_file_mode program with
  | Some mode => Some (if String.eqb program "sed" && shell_sed_in_place ws then [ReadMode; WriteMode] else [mode])
  | None => None
  end.

Definition judge_invocation (p : CompiledPolicy) (cwd : string) (cwd_changes : list nat) (parse_failed : bool)
    (f : Finding) (i : Invocation) : Finding :=
  let ws := unwrap_wrappers (inv_words i) in
  match head ws with
  | None => f
  | Some w =>
      let program := to_ascii_lowercase (shell_program_name w) in
      if String.eqb program "cd" then f
      else
        let cwd_unpinned := cwd_unpinned_before cwd_changes (inv_start i) || wrapper_has_chdir (inv_words i) in
        let candidates := shell_file_candidates ws in
        let path_operands := shell_path_command_operands program ws in
        let is_known := String.eqb program "dd" || match shell_file_mode program with Some _ => true | None => false end
                        || match path_operands with Some _ => true | None => false end in
        let f := (f.1, f.2 || (is_known && (cwd_unpinned || inv_ambiguous i || parse_failed))) in
        let f := foldl (judge_operand p cwd) f (special_file_operands program ws) in
        if String.eqb program "dd" then f
        else
          match path_operands with
          | Some operands => foldl (judge_operand p cwd) f operands
          | None =>
              match operand_modes program ws with
              | None => f
              | Some modes =>
                  let f := foldl (judge_operand p cwd) f
                             (concat (map (λ token, map (λ mode, (token, mode)) modes) candidates)) in
                  (f.1, f.2 || shell_reader_can_recurse program ws candidates)
              end
          end
  end.

Definition evaluate_shell_file_access (p : CompiledPolicy) (cmd cwd : string) : option Decision :=
  if has_file_restrictions p then
    try_parse_shell cmd ≫= λ tree,
    let root := root_node tree in
    let cwd_changes := cwd_poison_positions root cmd in
    let f := foldl (judge_redirect p cwd cwd_changes) (None, false) (shell_redirect_targets root cmd) in
    let f := foldl (judge_invocation p cwd cwd_changes (has_error tree)) f (shell_command_invocations root cmd) in
    combine_decisions f.1 (if f.2 then Some Ask else None)
  else None.
End judging.
