(* ===== verification/AutoMode.v ===== *)
(** * Auto mode (permission/auto_mode.rs)

    In auto mode a classifier decides instead of the user. The fast path settles
    what needs no judgement; the heuristic allows only what it can prove to be a
    chain of routine commands without writes and without changes of the
    environment; a model is asked otherwise. A verdict other than Allow makes the
    user be asked. *)

From Stdlib Require Import Ascii String.
From S2P Require Import Prelude RustStr AuditParse PermTypes ShellTree PermPolicy ShellAccess.
From stdpp Require Import options.

Inductive ClassifierVerdict : Type := VAllow | VBlock | VUnavailable.
#[export] Instance ClassifierVerdict_eq_dec : EqDecision ClassifierVerdict.
Proof. solve_decision. Defined.

(** ** What the classifier sees of the conversation *)

Inductive ClassifierTurn : Type :=
| UserText (text : string)
| AssistantToolUse (tool args : string)
| PermissionDecision (tool args : string) (approved : bool).

Definition render (t : ClassifierTurn) : string :=
  match t with
  | UserText text => "User: " +:+ text
  | AssistantToolUse tool args => tool +:+ " " +:+ args
  | PermissionDecision tool args approved =>
      if approved
      then "The user was asked before running " +:+ tool +:+ " " +:+ args +:+ " and approved it; it has run once."
      else "The user was asked about running " +:+ tool +:+ " " +:+ args +:+ " and declined it."
  end.

Record ClassifierContext : Type := mkContext { turns : list ClassifierTurn; project_instructions : option string }.
Definition transcript_text (c : ClassifierContext) : string := join nl (map render (turns c)).

(** ** Texts cut to a length (util/truncate.rs) *)

Definition truncate_line (line : string) (max_chars : nat) : string :=
  if String.length line <=? max_chars then line
  else
    let char_count := char_count line in
    if char_count <=? max_chars then line
    else take_chars max_chars line +:+ " [... truncated (" +:+ pretty (N.of_nat char_count) +:+ " chars total)]".

(** [while !s.is_char_boundary(end) { end -= 1 }]: index 0 is a boundary. *)
Fixpoint floor_boundary (end_ : nat) (s : string) : nat :=
  match end_ with
  | O => O
  | S k => if is_char_boundary end_ s then end_ else floor_boundary k s
  end.
Definition TRUNCATION_MARKER : string := byte_str [226; 128; 166].
Definition truncate_str (s : string) (max_bytes : nat) : string :=
  if String.length s <=? max_bytes then s else take_bytes (floor_boundary max_bytes s) s.
Definition truncate_str_with_marker (s : string) (max_bytes : nat) : string :=
  if String.length s <=? max_bytes then s
  else if max_bytes <? String.length TRUNCATION_MARKER then truncate_str s max_bytes
  else take_bytes (floor_boundary (max_bytes - String.length TRUNCATION_MARKER) s) s +:+ TRUNCATION_MARKER.

Definition MCP_ACCESS_DETAIL_MAX_LEN : nat := 1024.
Definition CLASSIFIER_TURN_MAX_LEN : nat := 400.

(** [serde_json::to_string] is a parameter. *)
Definition mcp_access_detail (json_to_string : Value → string) (name : string) (input : Value) : string :=
  match input with
  | Null => name
  | _ => truncate_line (name +:+ " " +:+ json_to_string input) MCP_ACCESS_DETAIL_MAX_LEN
  end.

Definition permission_decision_args (json_to_string : Value → string) (access : AccessKind) (access_detail : option string)
    : string :=
  truncate_str_with_marker
    match access with
    | Bash cmd => json_to_string (Object [("command", Str cmd)])
    | _ => default "(none)" access_detail
    end CLASSIFIER_TURN_MAX_LEN.

(** ** The environment guard *)

Definition SAFE_ENV_KEYS : list string :=
  ["CARGO_TERM_COLOR"; "CARGO_TERM_PROGRESS_WHEN"; "RUST_LOG"; "RUST_LOG_STYLE"; "RUST_BACKTRACE";
   "RUST_TEST_THREADS"; "RUST_MIN_STACK"; "NO_COLOR"; "CLICOLOR"; "CLICOLOR_FORCE"; "FORCE_COLOR"; "COLORTERM"].
Definition is_safe_env_key (key : string) : bool := contains key SAFE_ENV_KEYS.

(** The words behind [env]: [true] when one of them is unsafe. *)
Fixpoint env_args_unsafe (args : list string) : bool :=
  match args with
  | [] => false
  | arg :: args =>
      if String.eqb arg "--" then false
      else if starts_with "-" arg then true
      else match split_once_char "=" arg with
           | Some (key, _) => if negb (is_safe_env_key key) then true else env_args_unsafe args
           | None => false
           end
  end.

Fixpoint env_unsafe_go (n : nat) (current : list string) : bool :=
  match n with
  | O => false
  | S n =>
      if match head current with
         | Some w => String.eqb (basename w) "env" && env_args_unsafe (drop 1 current)
         | None => false
         end
      then true
      else match strip_wrapper_command current with Some inner => env_unsafe_go n inner | None => false end
  end.
Definition command_env_is_unsafe (ws : list string) : bool := env_unsafe_go 8 ws.

Definition assignment_key (src : string) (n : Node) : string :=
  match List.find (λ c, String.eqb (kind c) "variable_name" && match utf8_text src c with Some _ => true | None => false end)
          (children n) with
  | Some c => default "" (utf8_text src c)
  | None => default "" (utf8_text src n ≫= λ t, head (split_char "=" t))
  end.

Definition script_sets_unsafe_env (root : Node) (src : string) (cmds : list PlainCommand) : bool :=
  any (λ n, String.eqb (kind n) "variable_assignment" && negb (is_safe_env_key (assignment_key src n))) (walk root)
  || any (λ c, command_env_is_unsafe (words c)) cmds.

(** ** Routine commands *)

Definition ROUTINE_PREFIXES : list string :=
  ["cargo "; "git status"; "git diff"; "git log"; "git branch"; "git add"; "git commit"; "git checkout"; "git switch";
   "git stash"; "git pull"; "git fetch"; "git show"; "git blame"; "git grep"; "git ls-files"; "git rev-parse";
   "git describe"; "git merge-base"; "git worktree list"; "pytest"; "python "; "python3 "; "node "; "rustc ";
   "rustfmt"; "clippy"; "make "; "cmake "; "cd"; "pushd"; "popd"; "ls"; "pwd"; "echo "; "printf "; "cat "; "head ";
   "tail "; "wc "; "rg "; "grep "; "which "; "type "; "true"; "false"; "test "; "sort "; "uniq "; "tr "; "cut ";
   "diff "; "jq "; "date"; "whoami"; "hostname"; "uname"; "nproc"; "printenv"; "stat "; "file "; "tree"; "basename ";
   "dirname "; "realpath "; "readlink "; "strings "; "sleep "; "df "; "du "; "ps "; "top"; "htop"; "bazel "; "just ";
   "go "; "kubectl get"; "kubectl logs"; "kubectl describe"; "set"].

Definition NPM_SAFE_SUBCOMMANDS : list string :=
  ["install"; "i"; "ci"; "add"; "remove"; "rm"; "uninstall"; "update"; "up"; "upgrade"; "test"; "t"; "run";
   "run-script"; "start"; "build"; "audit"; "list"; "ls"; "ll"; "outdated"; "why"; "view"; "info"; "dedupe"; "prune";
   "version"; "pack"; "config"; "link"; "unlink"; "rebuild"; "store"; "fetch"; "import"].
Definition UV_SAFE_SUBCOMMANDS : list string :=
  ["sync"; "pip"; "lock"; "venv"; "add"; "remove"; "tree"; "export"; "build"; "version"; "python"; "cache"; "init";
   "self"; "help"].
Definition RUSTUP_SAFE_SUBCOMMANDS : list string :=
  ["show"; "toolchain"; "component"; "target"; "default"; "update"; "which"; "doc"; "self"; "completions"; "set";
   "override"].

Definition launched_writes_nonsink (ws : list string) : bool :=
  any (λ p, negb (is_safe_write_sink p)) (command_words_write_paths ws).

Definition is_js_manager (head : string) : bool := contains head ["npm"; "pnpm"; "yarn"].

Definition launcher_subcommand (head : string) (inner : list string) : option string :=
  inner !! 1 ≫= λ sub,
  Some (if is_js_manager head && String.eqb sub "x" then "exec"
        else if is_js_manager head && String.eqb sub "innit" then "init" else sub).

Definition is_remote_launcher (head : string) (inner : list string) : bool :=
  if String.eqb head "npx" || String.eqb head "uvx" then true
  else if String.eqb head "uv" && bool_decide (inner !! 1 = Some "tool") && bool_decide (inner !! 2 = Some "run") then true
  else match launcher_subcommand head inner with
       | None => false
       | Some sub =>
           is_js_manager head
           && (contains sub ["dlx"; "create"; "explore"]
               || (String.eqb sub "init" && match inner !! 2 with Some a => negb (starts_with "-" a) | None => false end))
       end.

Inductive LaunchTarget : Type := NotLauncher | Inner (ws : list string) | Unresolved.

Definition explicit_launch_target (head : string) (inner : list string) : LaunchTarget :=
  match launcher_subcommand head inner with
  | None => NotLauncher
  | Some sub =>
      let resolved start :=
        match inner !! start with
        | Some tok => if negb (starts_with "-" tok) then Inner (drop start inner) else Unresolved
        | None => Unresolved
        end in
      if String.eqb head "uv" && String.eqb sub "run" then resolved 2
      else if String.eqb head "rustup" && String.eqb sub "run" then
        match inner !! 2 with
        | Some toolchain => if negb (starts_with "-" toolchain) then resolved 3 else Unresolved
        | None => Unresolved
        end
      else if is_js_manager head && String.eqb sub "exec" then
        resolved (if bool_decide (inner !! 2 = Some "--") then 3 else 2)
      else NotLauncher
  end.

Definition is_lone_wrapper (ws : list string) : bool := (length ws =? 1) && is_wrapper_command ws.

Definition find_is_read_only (ws : list string) : bool :=
  negb (any (λ w, contains w ["-delete"; "-exec"; "-execdir"; "-ok"; "-okdir"; "-fprint"; "-fprint0"; "-fprintf"; "-fls"]) ws).

Definition nonflag_tokens (inner : list string) (n : nat) : list string :=
  take n (bfilter (λ w, negb (starts_with "-" w)) (drop 1 inner)).

Definition gh_subcommand_is_read_only (inner : list string) : bool :=
  match nonflag_tokens inner 2 with
  | [group; sub] =>
      (contains group ["pr"; "issue"; "release"; "run"; "workflow"; "repo"; "gist"]
       && contains sub ["view"; "list"; "status"; "checks"; "diff"])
      || (String.eqb group "auth" && String.eqb sub "status")
  | [one] => String.eqb one "status"
  | _ => false
  end.

Definition git_grep_runs_pager (inner : list string) : bool :=
  any (λ w, starts_with "-O" w
            || let flag := default w (head (split_char "=" w)) in
               starts_with "--o" flag && starts_with flag "--open-files-in-pager") inner.

Definition tree_writes_file (inner : list string) : bool :=
  any (λ w, (starts_with "-" w && negb (starts_with "--" w) && str_contains "o" w) || starts_with "--output" w) inner.

Definition matches_routine_prefix (inner : list string) : bool :=
  let joined := to_ascii_lowercase (join " " inner) in
  any (λ p, let base := trim p in
            String.eqb joined base || (starts_with base joined && starts_with " " (drop_bytes (String.length base) joined)))
    ROUTINE_PREFIXES.

(** What the package managers' commands are, [None] for another program;
    [routine] judges the command a launcher starts. *)
Definition package_manager_subcommand_is_routine (routine : list string → bool) (prog : string) (inner : list string)
    : option bool :=
  if negb (contains prog ["uv"; "uvx"; "npm"; "npx"; "pnpm"; "yarn"; "rustup"]) then None
  else if is_remote_launcher prog inner then Some false
  else
    match explicit_launch_target prog inner with
    | Unresolved => Some false
    | Inner launched =>
        Some (negb (command_env_is_unsafe launched) && negb (launched_writes_nonsink launched) && routine launched)
    | NotLauncher =>
        let sub_in safe := match launcher_subcommand prog inner with Some s => contains s safe | None => false end in
        Some (if is_js_manager prog then sub_in NPM_SAFE_SUBCOMMANDS
              else if String.eqb prog "uv" then sub_in UV_SAFE_SUBCOMMANDS
              else if String.eqb prog "rustup" then sub_in RUSTUP_SAFE_SUBCOMMANDS
              else false)
    end.

(** A launcher's command is a shorter list of words: their number is enough fuel
    ([routine_fuel]). *)
Fixpoint routine_go (fuel : nat) (ws : list string) : bool :=
  match fuel with
  | O => false
  | S fuel =>
      let inner := unwrap_wrappers ws in
      match inner with
      | [] => true
      | w :: _ =>
          if is_lone_wrapper inner then true
          else
            let head := to_ascii_lowercase (basename w) in
            match package_manager_subcommand_is_routine (routine_go fuel) head inner with
            | Some routine => routine
            | None =>
                if String.eqb head "find" then find_is_read_only inner
                else if String.eqb head "git"
                        && match inner !! 1 with Some s => eq_ignore_ascii_case s "grep" | None => false end
                        && git_grep_runs_pager inner then false
                else if String.eqb head "tree" && tree_writes_file inner then false
                else if String.eqb head "gh" then gh_subcommand_is_read_only inner
                else matches_routine_prefix inner
            end
      end
  end.
Definition bash_command_is_routine (ws : list string) : bool := routine_go (S (length ws)) ws.

(** ** The heuristic *)

Definition DANGEROUS_PATTERNS : list string :=
  ["rm -rf /"; "rm -rf /*"; "mkfs"; "dd if="; ":(){ :|:& };:"; "curl | sh"; "curl|sh"; "curl | bash"; "curl|bash";
   "wget | sh"; "wget|sh"; "wget | bash"; "wget|bash"; "chmod 777"; "chmod -r 777"; "chmod +x /tmp"; "base64 -d";
   "base64 --decode"; "nc -e"; "ncat -e"; "/dev/tcp/"; "shutdown"; "reboot"; "useradd"; "userdel"; "passwd ";
   "chown -r /"; "iptables -f"; "kill -9 1"; "sudo rm"; "sudo dd"; "sudo mkfs"; "exfiltrat"; "steal credential";
   "send secrets"].
Definition HOSTILE_INTENT : list string :=
  ["delete all files"; "wipe the disk"; "exfiltrate"; "steal secrets"; "send my credentials"; "ignore safety";
   "bypass permission"].

Definition tool_name_for_access (access : AccessKind) : string :=
  match access with
  | Read _ => "read_file"
  | Grep _ _ => "grep"
  | Edit _ => "search_replace"
  | Bash _ => "run_terminal_command"
  | MCPTool name _ => "mcp:" +:+ name
  | WebFetch _ => "web_fetch"
  | WebSearch _ => "web_search"
  end.

Section heuristic.
Context `{ShellParser}.

Definition classify_bash (cmd : string) : ClassifierVerdict :=
  match try_parse_shell cmd with
  | None => VBlock
  | Some tree =>
      match try_parse_word_only_commands_sequence tree cmd with
      | None => VBlock
      | Some cmds =>
          if script_sets_unsafe_env (root_node tree) cmd cmds then VBlock
          else if any (λ p, negb (is_safe_write_sink p)) (command_write_paths_in_tree (root_node tree) cmd) then VBlock
          else if negb (is_nil cmds) && all (λ c, bash_command_is_routine (words c)) cmds then VAllow
          else VBlock
      end
  end.

Definition pipes_to_shell (blob : string) : bool :=
  any (λ p, str_contains p blob) ["curl"; "wget"; "fetch"]
  && any (λ p, str_contains p blob) ["| sh"; "|sh"; "| bash"; "|bash"; "| zsh"; "|zsh"].

Definition classify_sync (tool_name : string) (access : AccessKind) (access_detail : option string)
    (context : ClassifierContext) : ClassifierVerdict :=
  let detail := to_ascii_lowercase (default "" access_detail) in
  let tool := to_ascii_lowercase tool_name in
  let transcript := to_ascii_lowercase (transcript_text context) in
  let blob := tool +:+ " " +:+ detail +:+ " " +:+ transcript in
  if str_contains "ask_user" tool || str_contains "askuserquestion" tool then VBlock
  else if any (λ pat, str_contains pat blob) DANGEROUS_PATTERNS then VBlock
  else if pipes_to_shell blob then VBlock
  else if any (λ p, str_contains p transcript) HOSTILE_INTENT then VBlock
  else
    match access with
    | Bash cmd => classify_bash cmd
    | WebFetch _ | Edit _ | MCPTool _ _ => VBlock
    | Read _ | Grep _ _ | WebSearch _ => VAllow
    end.
End heuristic.

(** ** The fast path *)

Definition access_requires_user_interaction (tool_name : string) (access : AccessKind) : bool :=
  let t := to_ascii_lowercase tool_name in
  if str_contains "ask_user" t || str_contains "askuserquestion" t || str_contains "user_question" t
     || String.eqb t "ask_user_question"
  then true
  else match access with
       | MCPTool name _ =>
           let n := to_ascii_lowercase name in
           str_contains "ask_user" n || (str_contains "confirm" n && str_contains "human" n)
       | _ => false
       end.

Definition is_auto_mode_allowlisted_access (access : AccessKind) : bool :=
  match access with Read _ | Grep _ _ | WebSearch _ => true | _ => false end.

Definition is_auto_mode_allowlisted_tool_name (tool_name : string) : bool :=
  contains tool_name
    ["todo_write"; "TodoWrite"; "task_output"; "TaskOutput"; "wait_tasks"; "WaitTasks"; "ask_user_question";
     "AskUserQuestion"; "enter_plan_mode"; "EnterPlanMode"; "exit_plan_mode"; "ExitPlanMode"; "switch_mode";
     "SwitchMode"; "create_plan"; "CreatePlan"; "update_plan"; "UpdatePlan"; "list_mcp_resources"; "ListMcpResources";
     "read_mcp_resource"; "ReadMcpResource"; "tool_search"; "ToolSearch"; "sleep"; "Sleep"].

Inductive AutoFastPath : Type := FastAllow | FastPromptUser | FastClassify.

Definition auto_mode_fast_path (access : AccessKind) (tool_name : string) (requires_user_interaction : bool) : AutoFastPath :=
  if requires_user_interaction then FastPromptUser
  else if is_auto_mode_allowlisted_access access || is_auto_mode_allowlisted_tool_name tool_name then FastAllow
  else match access with
       | Edit _ => FastAllow
       | Bash cmd => if contains (trim cmd) ["true"; ":"; "false"] then FastAllow else FastClassify
       | _ => FastClassify
       end.

(** ** The model's verdict *)

Section verdict.
Context (from_str : string → result Value string).

Definition verdict_of (should_block : bool) : ClassifierVerdict := if should_block then VBlock else VAllow.

Definition as_bool (v : Value) : option bool := match v with Bool b => Some b | _ => None end.
Definition value_get (key : string) (v : Value) : option Value := match v with Object fs => get key fs | _ => None end.

Definition json_verdict (text : string) : option bool :=
  match from_str text with
  | Err _ => None
  | Ok v =>
      match value_get "shouldBlock" v ≫= as_bool with
      | Some b => Some b
      | None => value_get "should_block" v ≫= as_bool
      end
  end.

Definition embedded_verdict (trimmed : string) : option bool :=
  find "{" trimmed ≫= λ start,
  rfind_char "}" trimmed ≫= λ end_,
  if start <? end_ then
    match from_str (drop_bytes start (take_bytes (S end_) trimmed)) with
    | Err _ => None
    | Ok v => match value_get "shouldBlock" v with
              | Some x => as_bool x
              | None => value_get "should_block" v ≫= as_bool
              end
    end
  else None.

Definition parse_classifier_model_text (text : string) : ClassifierVerdict :=
  let trimmed := trim text in
  if is_empty trimmed then VUnavailable
  else
    match json_verdict trimmed with
    | Some b => verdict_of b
    | None =>
        match embedded_verdict trimmed with
        | Some b => verdict_of b
        | None =>
            let lower := to_ascii_lowercase trimmed in
            if str_contains (double_quote +:+ "shouldblock" +:+ double_quote +:+ ": true") lower
               || str_contains ("shouldblock" +:+ double_quote +:+ ":true") lower then VBlock
            else if contains (trim lower) ["block"; "blocked"; "deny"; "denied"] then VBlock
            else if contains (trim lower) ["allow"; "allowed"; "approve"; "approved"] then VAllow
            else VUnavailable
        end
    end.

(** The production classifier; [model_text] is the reply of the side query, when
    there is one. *)
Definition llm_classify `{ShellParser} (tool_name : string) (access : AccessKind) (access_detail : option string)
    (context : ClassifierContext) (model_text : option string) : ClassifierVerdict :=
  let heuristic := classify_sync tool_name access access_detail context in
  if bool_decide (heuristic = VAllow) then VAllow
  else
    match model_text with
    | Some text =>
        let v := parse_classifier_model_text text in
        if bool_decide (v = VUnavailable) then heuristic else v
    | None => heuristic
    end.
End verdict.

(** ** Auto mode: what the heuristic promises

    The judgement of a launcher's command comes to an end; what a classifier is
    shown stays within its bounds. *)

(** *** Launchers *)

Lemma drop_cons_shorter {A} (l r : list A) x i : drop i l = x :: r → length (x :: r) ≤ length l.
Proof. intros <-. rewrite length_drop. lia. Qed.

Lemma strip_wrapper_shorter ws inner : strip_wrapper_command ws = Some inner → length inner ≤ length ws.
Proof.
  unfold strip_wrapper_command. destruct (head ws); [|done]. cbn [mbind option_bind].
  match goal with |- context [if ?b then ?x else ?y] => set (chosen := if b then x else y) end.
  destruct chosen as [i|]; [|done]. cbn. destruct (drop i ws) as [|x r] eqn:Hd; [done|]. intros [= <-]. eauto using drop_cons_shorter.
Qed.

Lemma unwrap_shorter ws : length (unwrap_wrappers ws) ≤ length ws.
Proof.
  unfold unwrap_wrappers. generalize 8 as n. intros n. revert ws. induction n as [|n IH]; intros ws; cbn; [done|].
  destruct (strip_wrapper_command ws) as [inner|] eqn:Hs; [|done]. etrans; [apply IH|by apply strip_wrapper_shorter].
Qed.

(** What a launcher starts is shorter than the launcher's own words. *)
Lemma launched_shorter head inner launched : explicit_launch_target head inner = Inner launched → length launched < length inner.
Proof.
  unfold explicit_launch_target. destruct (launcher_subcommand head inner) as [sub|] eqn:Hsub; [|done].
  assert (0 < length inner) as Hne.
  { unfold launcher_subcommand in Hsub. destruct inner; [done|cbn; lia]. }
  assert (∀ start, 0 < start →
            match inner !! start with
            | Some tok => if negb (starts_with "-" tok) then Inner (drop start inner) else Unresolved
            | None => Unresolved
            end = Inner launched → length launched < length inner) as Hres.
  { intros start Hs. destruct (inner !! start); [|done]. destruct (negb _); [|done]. intros [= <-]. rewrite length_drop. lia. }
  destruct (String.eqb head "uv" && _); [apply Hres; lia|].
  destruct (String.eqb head "rustup" && _).
  { destruct (inner !! 2); [|done]. destruct (negb _); [apply Hres; lia|done]. }
  destruct (is_js_manager head && _); [|done]. case_bool_decide; apply Hres; lia.
Qed.

(** The judgement of a package manager asks only about shorter commands. *)
Lemma package_manager_ext f g prog inner :
  (∀ l, length l < length inner → f l = g l) →
  package_manager_subcommand_is_routine f prog inner = package_manager_subcommand_is_routine g prog inner.
Proof.
  intros Hfg. unfold package_manager_subcommand_is_routine. destruct (negb _); [done|]. destruct (is_remote_launcher _ _); [done|].
  destruct (explicit_launch_target prog inner) as [|launched|] eqn:Hl; [done| |done].
  rewrite (Hfg launched) by (by eapply launched_shorter). done.
Qed.

(** The body of the code's function, its recursive call a parameter. *)
Definition routine_step (routine : list string → bool) (ws : list string) : bool :=
  let inner := unwrap_wrappers ws in
  match inner with
  | [] => true
  | w :: _ =>
      if is_lone_wrapper inner then true
      else
        let head := to_ascii_lowercase (basename w) in
        match package_manager_subcommand_is_routine routine head inner with
        | Some routine => routine
        | None =>
            if String.eqb head "find" then find_is_read_only inner
            else if String.eqb head "git"
                    && match inner !! 1 with Some s => eq_ignore_ascii_case s "grep" | None => false end
                    && git_grep_runs_pager inner then false
            else if String.eqb head "tree" && tree_writes_file inner then false
            else if String.eqb head "gh" then gh_subcommand_is_read_only inner
            else matches_routine_prefix inner
        end
  end.

Lemma routine_step_ext f g ws : (∀ l, length l < length ws → f l = g l) → routine_step f ws = routine_step g ws.
Proof.
  intros Hfg. unfold routine_step. generalize (unwrap_shorter ws).
  destruct (unwrap_wrappers ws) as [|w inner]; [done|]. intros Hlen. destruct (is_lone_wrapper _); [done|].
  rewrite (package_manager_ext f g); [done|]. intros l Hl. apply Hfg. cbn in *. lia.
Qed.

Lemma routine_fuel n : ∀ m ws, length ws < n → length ws < m → routine_go n ws = routine_go m ws.
Proof.
  induction n as [|n IH]; intros [|m] ws Hn Hm; [lia..|].
  change (routine_step (routine_go n) ws = routine_step (routine_go m) ws).
  apply routine_step_ext. intros l Hl. apply IH; lia.
Qed.

(** Judging a launcher comes to an end: whatever launchers are stacked, the
    number of words is enough fuel, the judgement satisfies the code's own
    recursive equation, and it is the only function that does. *)
Lemma routine_judgement_ends :
  (∀ ws, bash_command_is_routine ws = routine_step bash_command_is_routine ws)
  ∧ ∀ f, (∀ ws, f ws = routine_step f ws) → ∀ ws, f ws = bash_command_is_routine ws.
Proof.
  assert (∀ ws, bash_command_is_routine ws = routine_step bash_command_is_routine ws) as Heq.
  { intros ws. change (bash_command_is_routine ws) with (routine_step (routine_go (length ws)) ws).
    apply routine_step_ext. intros l Hl. apply routine_fuel; lia. }
  split; [done|]. intros f Hf ws. induction (Wf_nat.well_founded_ltof _ length ws) as [ws _ IH].
  rewrite Hf, Heq. apply routine_step_ext. intros l Hl. by apply IH.
Qed.

(** *** Bounds of what a classifier is shown *)

Lemma floor_boundary_le n s : floor_boundary n s ≤ n.
Proof. induction n as [|n IH]; cbn; [done|]. destruct (is_char_boundary _ _); lia. Qed.

Lemma take_bytes_length n s : String.length (take_bytes n s) ≤ n.
Proof. revert s. induction n as [|n IH]; intros [|c s]; cbn; try lia. specialize (IH s). lia. Qed.

Lemma marked_text_fits s max : String.length (truncate_str_with_marker s max) ≤ max.
Proof.
  unfold truncate_str_with_marker, truncate_str. destruct (Nat.leb_spec (String.length s) max); [done|].
  destruct (Nat.ltb_spec max (String.length TRUNCATION_MARKER)).
  - etrans; [apply take_bytes_length|apply floor_boundary_le].
  - rewrite str_length_app.
    pose proof (take_bytes_length (floor_boundary (max - String.length TRUNCATION_MARKER) s) s).
    pose proof (floor_boundary_le (max - String.length TRUNCATION_MARKER) s). lia.
Qed.

Lemma decision_args_fit json_to_string access detail :
  String.length (permission_decision_args json_to_string access detail) ≤ CLASSIFIER_TURN_MAX_LEN.
Proof. apply marked_text_fits. Qed.
