(* ===== verification/PermManager.v ===== *)
(** * The permission manager (permission/manager.rs)

    An actor answers requests one after the other. A request runs down a ladder:
    policy deny, always-approve, session grants, auto mode, sandbox, policy allow,
    standing grants, prompt policy, and at last the user. *)

From Stdlib Require Import Ascii String.
From S2P Require Import Prelude RustStr AuditParse PermTypes ShellTree PermPolicy ShellAccess AutoMode.
From stdpp Require Import options.

Module reasons.
Definition YOLO : string := "yolo".
Definition POLICY_ALLOW : string := "policy_allow".
Definition POLICY_DENY : string := "policy_deny".
Definition POLICY_ASK : string := "policy_ask".
Definition AUTO_FAST_PATH : string := "auto_fast_path".
Definition AUTO_CLASSIFIER_ALLOW : string := "auto_classifier_allow".
Definition AUTO_CLASSIFIER_BLOCK : string := "auto_classifier_block".
Definition SANDBOX_AUTO : string := "sandbox_auto".
Definition PERSISTED_GRANT : string := "persisted_grant".
Definition SESSION_GRANT : string := "session_grant".
Definition STATIC_ALLOWLIST : string := "static_allowlist".
Definition SAFE_COMMAND : string := "safe_command".
Definition SESSION_DENY : string := "session_deny".
Definition PROMPT_DENY : string := "prompt_deny".
Definition NEEDS_USER : string := "needs_user".
Definition REQUESTER_GONE : string := "requester_gone".
End reasons.

(** ** Standing grants for MCP tools *)

(** [name.split_once("__").map(|(s, _)| s)] *)
Definition server_prefix (name : string) : option string := (λ i, take_bytes i name) <$> find "__" name.

Definition mcp_server_prefix_allowed (name : string) (servers : gset string) : bool :=
  if bool_decide (servers = ∅) then false
  else match server_prefix name with
       | None => false
       | Some server => negb (is_empty server) && bool_decide (server ∈ servers)
       end.

Definition mcp_pre_decision (name : string) (state : PermissionState) (policy_forced_prompt remember_tool_approvals : bool)
    : option Decision :=
  if policy_forced_prompt && negb remember_tool_approvals then None
  else if bool_decide (name ∈ allowed_mcp_tools state) then Some Allow
  else if mcp_server_prefix_allowed name (allowed_mcp_servers state) then Some Allow
  else None.

(** ** Commands by their words *)

Definition rg_has_pre_flag (ws : list string) : bool :=
  if bool_decide (head ws ≠ Some "rg") then false
  else any (λ w, String.eqb w "--pre" || starts_with "--pre=" w) ws.

Definition matches_command_prefix (cmd pattern : string) : bool :=
  String.eqb cmd pattern || (starts_with pattern cmd && starts_with " " (drop_bytes (String.length pattern) cmd)).

Definition SAFE_PREFIXES : list string :=
  ["ls"; "cat"; "pwd"; "date"; "git status"; "git branch"; "git log"; "git diff"; "git ls-files"; "git show";
   "git rev-parse"; "cargo check"; "whoami"; "hostname"; "uptime"; "grep"; "rg"; "kubectl get"; "kubectl logs";
   "kubectl describe"; "ps"; "bin/explorer ls"; "head"; "tail"; "wc"; "sort"; "uniq"; "tr"; "cut"].

Definition is_safe_command_words_str (cmd : string) : bool := any (matches_command_prefix cmd) SAFE_PREFIXES.

Definition is_safe_command_words (ws : list string) : bool :=
  if is_nil ws then false else if rg_has_pre_flag ws then false else is_safe_command_words_str (join " " ws).

Definition ALWAYS_SAFE_COMMANDS : list string :=
  ["ls"; "cat"; "pwd"; "date"; "whoami"; "hostname"; "uptime"; "ps"; "git status"; "git branch"; "git log"; "git diff";
   "git ls-files"; "git show"; "git rev-parse"; "grep"; "rg"; "cargo check"; "kubectl get"; "kubectl logs";
   "kubectl describe"; "bin/explorer ls"].

Definition is_always_safe_command_words (ws : list string) : bool :=
  if is_nil ws then false else if rg_has_pre_flag ws then false
  else any (matches_command_prefix (join " " ws)) ALWAYS_SAFE_COMMANDS.

Fixpoint count_flags (ws : list string) : nat :=
  match ws with
  | w :: ws => if starts_with "-" w then S (count_flags ws) else 0
  | [] => 0
  end.

Definition default_always_allow_scope (ws : list string) : nat :=
  match ws with
  | [] => 0
  | w :: _ =>
      let n := Nat.min (length ws) 2 in
      let fallback := n + count_flags (drop n ws) in
      if is_safe_command_words ws then
        if is_safe_command_words_str w then 1
        else if (2 <=? length ws) && is_safe_command_words_str (join " " (take 2 ws)) then 2
        else fallback
      else fallback
  end.

Definition is_dangerous_command_words (ws : list string) : bool :=
  if is_nil ws then false
  else any (matches_command_prefix (join " " ws))
         ["rm"; "chmod"; "chown"; "chgrp"; "chattr"; "pkill"; "kill"; "killall"; "git push"].

Definition matches_whitelist_prefix (segment allowed_prefix : string) : bool := matches_command_prefix segment allowed_prefix.

(** ** Judging a shell request by its segments *)

Inductive SegmentEvaluation : Type :=
| AutoAllow (via_session_grant : bool)
| RejectScript (reason : string)
| NeedsPrompts (segments : list string) (any_dangerous : bool)
| Unparseable.

Record BashEvaluation : Type := mkEvaluation {
  segments : SegmentEvaluation;
  writes_real_file : bool;
  sets_unsafe_env : bool;
  exact_grant : bool;
  all_segments_granted : bool;
}.

Section evaluation.
Context `{ShellParser} (iter_set : gset string → list string).

(** The loop over the segments; the accumulators are the loop's variables. *)
Fixpoint eval_segments (state : PermissionState) (honor_safe_lists : bool) (cmds : list PlainCommand)
    (needs_prompt : list string) (any_dangerous via_session_grant all_granted : bool) : SegmentEvaluation * bool :=
  match cmds with
  | [] => (if is_nil needs_prompt then AutoAllow via_session_grant else NeedsPrompts needs_prompt any_dangerous, all_granted)
  | parsed :: cmds =>
      let ws := unwrap_wrappers (words parsed) in
      if is_setup_command ws then eval_segments state honor_safe_lists cmds needs_prompt any_dangerous via_session_grant all_granted
      else
        let s := join " " ws in
        match List.find (matches_whitelist_prefix s) (iter_set (disallowed_bash_commands state)) with
        | Some d => (RejectScript ("User previously rejected `" +:+ d +:+ "` for this session"), all_granted)
        | None =>
            let matched_grant := any (matches_whitelist_prefix s) (iter_set (allowed_bash_commands state)) in
            let all_granted := all_granted && matched_grant in
            if is_dangerous_command_words ws then
              eval_segments state honor_safe_lists cmds (needs_prompt ++ [s]) true via_session_grant all_granted
            else
              let matched_safe := honor_safe_lists && (is_safe_command_words ws || is_always_safe_command_words ws) in
              if matched_grant || matched_safe then
                eval_segments state honor_safe_lists cmds needs_prompt any_dangerous (via_session_grant || matched_grant) all_granted
              else eval_segments state honor_safe_lists cmds (needs_prompt ++ [s]) any_dangerous via_session_grant all_granted
        end
  end.

Definition evaluate_bash (cmd : string) (state : PermissionState) (honor_safe_lists : bool) : BashEvaluation :=
  let exact_grant := bool_decide (cmd ∈ allowed_bash_commands state) in
  match try_parse_shell cmd with
  | None => mkEvaluation Unparseable false false exact_grant false
  | Some tree =>
      let writes_real_file := any (λ p, negb (is_safe_write_sink p)) (command_write_paths_in_tree (root_node tree) cmd) in
      let cmds := try_parse_word_only_commands_sequence tree cmd in
      let sets_unsafe_env := script_sets_unsafe_env (root_node tree) cmd (default [] cmds) in
      match cmds with
      | None => mkEvaluation Unparseable writes_real_file sets_unsafe_env exact_grant false
      | Some cmds =>
          let '(segments, all_granted) := eval_segments state honor_safe_lists cmds [] false false true in
          mkEvaluation segments writes_real_file sets_unsafe_env exact_grant all_granted
      end
  end.
End evaluation.

(** ** Floors and grants *)

Definition clamp_yolo (requested : bool) (yolo_pin : option string) : bool :=
  requested && match yolo_pin with None => true | Some _ => false end.

Definition persisted_bash_auto_allows (state : PermissionState) (cmd : string) (yolo_pin : option string) : bool :=
  (allow_bash_execute state && match yolo_pin with None => true | Some _ => false end)
  || bool_decide (cmd ∈ allowed_bash_commands state).

Definition bash_write_floor_requires_prompt (e : option BashEvaluation) : bool :=
  match e with Some e => writes_real_file e && negb (exact_grant e) | None => false end.
Definition bash_unsafe_env_floor_requires_prompt (e : option BashEvaluation) : bool :=
  match e with Some e => sets_unsafe_env e && negb (exact_grant e) | None => false end.
Definition bash_request_floor_requires_prompt (e : option BashEvaluation) : bool :=
  bash_write_floor_requires_prompt e || bash_unsafe_env_floor_requires_prompt e.

Definition sandbox_may_auto_allow_bash (e : option BashEvaluation) (sandbox_active : bool) : bool :=
  sandbox_active && negb (bash_request_floor_requires_prompt e).

Record BashGrantOpts : Type := mkOpts { honor_safe_lists : bool; allow_blanket : bool; conservative_blanket : bool }.
Definition PRE_CLASSIFIER : BashGrantOpts := mkOpts true true true.
Definition ASK_FLOOR_REMEMBER : BashGrantOpts := mkOpts false false false.
Definition post_classify (auto_forced_prompt : bool) : BashGrantOpts := mkOpts true (negb auto_forced_prompt) false.

Definition bash_grant_pre_decision (cmd : string) (e : BashEvaluation) (state : PermissionState) (yolo_pin : option string)
    (opts : BashGrantOpts) : option (Decision * string) :=
  match segments e with
  | RejectScript reason => Some (Reject reason, reasons.SESSION_DENY)
  | segs =>
      if bash_request_floor_requires_prompt (Some e) then None
      else
        match segs with
        | RejectScript _ => None
        | AutoAllow via_session_grant =>
            if negb (honor_safe_lists opts) && negb (all_segments_granted e) then None
            else Some (Allow, if via_session_grant then reasons.SESSION_GRANT else reasons.SAFE_COMMAND)
        | NeedsPrompts _ any_dangerous =>
            if negb (allow_blanket opts) || (any_dangerous && conservative_blanket opts) then None
            else if persisted_bash_auto_allows state cmd yolo_pin then Some (Allow, reasons.SESSION_GRANT) else None
        | Unparseable =>
            if negb (allow_blanket opts) then None
            else if (if conservative_blanket opts then exact_grant e else persisted_bash_auto_allows state cmd yolo_pin)
                 then Some (Allow, reasons.SESSION_GRANT) else None
        end
  end.

Definition with_reason (reason : string) (d : option Decision) : option (Decision * string) := (λ d, (d, reason)) <$> d.

Section manager.
Context `{Globs, Urls, Links, ShellParser} (iter_set : gset string → list string).
Context (json_to_string : Value → string).

Definition session_grant_pre_decision (access : AccessKind) (e : option BashEvaluation) (state : PermissionState)
    (allow_edits_for_session : bool) (static_domain_matcher : DomainMatcher) (yolo_pin : option string)
    : option (Decision * string) :=
  match access with
  | MCPTool name _ => with_reason reasons.SESSION_GRANT (mcp_pre_decision name state false false)
  | WebFetch url =>
      url_parse url ≫= λ parsed_url,
      match check static_domain_matcher parsed_url with
      | None => Some (Allow, reasons.STATIC_ALLOWLIST)
      | Some _ =>
          host_str parsed_url ≫= λ host,
          if bool_decide (normalize_domain host ∈ allowed_web_fetch_domains state)
          then Some (Allow, reasons.SESSION_GRANT) else None
      end
  | Edit _ => if allow_edits_for_session then Some (Allow, reasons.SESSION_GRANT) else None
  | Bash cmd => e ≫= λ e, bash_grant_pre_decision cmd e state yolo_pin PRE_CLASSIFIER
  | Read _ | Grep _ _ | WebSearch _ => None
  end.

(** ** The actor's state, and what a session fixes *)

Definition Classifier : Type := string → AccessKind → option string → ClassifierContext → ClassifierVerdict.

Record Setup : Type := mkSetup {
  compiled_policy : option CompiledPolicy;
  setup_prompt_policy : PromptPolicy;
  static_domain_matcher : DomainMatcher;
  yolo_pin : option string;
  remember_tool_approvals : bool;
  cwd : string;
  default_classifier : Classifier;
}.

(** [saved] collects what was handed to [persist_state]. *)
Record Manager : Type := mkManager {
  state : PermissionState;
  yolo_mode : bool;
  auto_mode : bool;
  auto_classifier : option Classifier;
  classifier_turns : list ClassifierTurn;
  recorded_permission_decisions : list ClassifierTurn;
  instructions : option string;
  allow_edits_for_session : bool;
  pin_refusal_logged : bool;
  saved : list PermissionState;
}.
#[export] Instance settable_Manager : Settable Manager :=
  λ m, mkManager (state m) (yolo_mode m) (auto_mode m) (auto_classifier m) (classifier_turns m)
         (recorded_permission_decisions m) (instructions m) (allow_edits_for_session m) (pin_refusal_logged m) (saved m).

Definition persist (m : Manager) : Manager := m <| saved := saved m ++ [state m] |>.
Definition on_state (f : PermissionState → PermissionState) (m : Manager) : Manager := m <| state := f (state m) |>.

(** The start of the actor: [loaded] is the state file's. *)
Definition spawn_permission_manager (s : Setup) (initial_yolo : bool) (loaded : PermissionState) : Manager :=
  let yolo := clamp_yolo initial_yolo (yolo_pin s) in
  let seed_auto := negb yolo && bool_decide (setup_prompt_policy s = PromptAuto) in
  let m := mkManager loaded yolo seed_auto (Some (default_classifier s)) [] [] None false false [] in
  match edit_policy loaded with
  | EditAllow => persist (on_state (λ st, st <| edit_policy := EditAsk |>) m)
  | _ => m
  end.

(** ** What the world does during a request *)

Inductive PromptOutcome : Type :=
| AllowOnce
| AllowAlways
| AllowEditsForSession
| AllowAlwaysBashCommand (prefix : string)
| AllowAlwaysDomain (domain : string)
| AllowAlwaysMcpTool (tool : string)
| AllowAlwaysMcpServer (server : string)
| RejectOnce
| RejectAlwaysBashCommand (prefix : string)
| OutcomeCancelled
| OutcomeFollowup (message : string)
| OutcomeError (e : string).

(** When the requester goes away, whether the sandbox is on, and the answer to
    the prompt ([OutcomeCancelled] when the requester went away meanwhile). *)
Record World : Type := mkWorld {
  gone_at_dequeue : bool;
  gone_at_classify : bool;
  sandbox_active : bool;
  gone_before_prompt : bool;
  outcome : PromptOutcome;
  gone_after_prompt : bool;
}.

Record PermissionEvent : Type := mkEvent {
  ev_decision : Decision;
  auto_approved : bool;
  user_prompted : bool;
  prompt_outcome : option string;
  decision_reason : string;
}.

(** What a request comes to: the answer, which a requester that is gone does not
    get, and the event. *)
Record Reply : Type := mkReply { answer : option Decision; event : PermissionEvent }.

Definition auto_reply (d : Decision) (approved : bool) (reason : string) : Reply :=
  mkReply (Some d) (mkEvent d approved false None reason).
Definition gone_reply : Reply := mkReply None (mkEvent Cancelled false false None reasons.REQUESTER_GONE).

(** ** One request *)

Definition access_detail_of (access : AccessKind) : option string :=
  match access with
  | Read _ => None
  | Grep path _ => path
  | Edit path => Some path
  | Bash cmd => Some cmd
  | MCPTool name input => Some (mcp_access_detail json_to_string name input)
  | WebFetch url => Some url
  | WebSearch query => Some query
  end.

(** What the policy says: the direct rules, the commands of a script, its files. *)
Record PolicyView : Type := mkView { direct : option Decision; shell_command : option Decision; shell_file : option Decision }.

Definition policy_view (s : Setup) (access : AccessKind) : PolicyView :=
  match compiled_policy s, access with
  | None, _ => mkView None None None
  | Some p, Bash cmd =>
      mkView (evaluate p access) (evaluate_bash_command_policy p cmd) (evaluate_shell_file_access p cmd (cwd s))
  | Some p, _ => mkView (evaluate p access) None None
  end.

Definition is_ask (d : option Decision) : bool := bool_decide (d = Some Ask).
Definition policy_decision (v : PolicyView) : option Decision :=
  combine_decisions (combine_decisions (direct v) (shell_command v)) (shell_file v).
Definition shell_file_forced_prompt (v : PolicyView) : bool := is_ask (shell_file v).
Definition shell_forced_prompt (v : PolicyView) : bool := shell_file_forced_prompt v || is_ask (shell_command v).
Definition policy_forced_prompt (v : PolicyView) : bool := is_ask (policy_decision v).

Inductive AutoStage : Type :=
| Settled (r : Reply)
| Pass (auto_forced_prompt : bool) (auto_prompt_reason : option string).

Definition auto_stage (w : World) (m : Manager) (access : AccessKind) : AutoStage :=
  let tool_name := tool_name_for_access access in
  match auto_mode_fast_path access tool_name (access_requires_user_interaction tool_name access) with
  | FastAllow => Settled (auto_reply Allow true reasons.AUTO_FAST_PATH)
  | FastPromptUser => Pass true (Some reasons.NEEDS_USER)
  | FastClassify =>
      let verdict :=
        match auto_classifier m with
        | Some clf =>
            if gone_at_classify w then None
            else Some (clf tool_name access (access_detail_of access)
                         (mkContext (classifier_turns m ++ recorded_permission_decisions m) (instructions m)))
        | None => Some VUnavailable
        end in
      match verdict with
      | None => Settled gone_reply
      | Some VAllow => Settled (auto_reply Allow true reasons.AUTO_CLASSIFIER_ALLOW)
      | Some (VBlock | VUnavailable) => Pass true (Some reasons.AUTO_CLASSIFIER_BLOCK)
      end
  end.

(** The standing decisions consulted last before the user is asked. *)
Definition pre_decision (s : Setup) (m : Manager) (access : AccessKind) (e : option BashEvaluation) (v : PolicyView)
    (auto_forced_prompt : bool) : option (Decision * string) :=
  match access with
  | Read _ | Grep _ _ => if policy_forced_prompt v then None else Some (Allow, reasons.SAFE_COMMAND)
  | WebSearch _ => Some (Allow, reasons.SAFE_COMMAND)
  | MCPTool name _ =>
      with_reason reasons.PERSISTED_GRANT (mcp_pre_decision name (state m) (policy_forced_prompt v) (remember_tool_approvals s))
  | Edit _ =>
      if allow_edits_for_session m then Some (Allow, reasons.PERSISTED_GRANT)
      else match edit_policy (state m) with
           | EditReject => Some (Reject "edits prohibited", reasons.SESSION_DENY)
           | EditAsk | EditAllow => None
           end
  | Bash cmd =>
      e ≫= λ e,
      if bash_request_floor_requires_prompt (Some e) then None
      else if policy_forced_prompt v then
        if remember_tool_approvals s && negb auto_forced_prompt && negb (shell_file_forced_prompt v)
        then bash_grant_pre_decision cmd e (state m) (yolo_pin s) ASK_FLOOR_REMEMBER else None
      else bash_grant_pre_decision cmd e (state m) (yolo_pin s) (post_classify auto_forced_prompt)
  | WebFetch url =>
      url_parse url ≫= λ parsed_url,
      match check (static_domain_matcher s) parsed_url with
      | None => Some (Allow, reasons.STATIC_ALLOWLIST)
      | Some _ =>
          host_str parsed_url ≫= λ host,
          if bool_decide (normalize_domain host ∈ allowed_web_fetch_domains (state m))
          then Some (Allow, reasons.PERSISTED_GRANT) else None
      end
  end.

Definition auto_prompt_blocks_allow (access : AccessKind) : bool := match access with Bash _ => false | _ => true end.

Definition neutralize (access : AccessKind) (auto_forced_prompt : bool) (d : option (Decision * string)) : option (Decision * string) :=
  match d with
  | Some (Allow, _) => if auto_forced_prompt && auto_prompt_blocks_allow access then None else d
  | _ => d
  end.

(** ** The user's answer *)

Definition allow_command (prefix : string) (m : Manager) : Manager :=
  persist (on_state (λ st, st <| allowed_bash_commands := {[prefix]} ∪ allowed_bash_commands st |>) m).
Definition allow_mcp_tool (name : string) (m : Manager) : Manager :=
  on_state (λ st, st <| allowed_mcp_tools := {[name]} ∪ allowed_mcp_tools st |>) m.

Definition bash_outcome (cmd : string) (o : PromptOutcome) (m : Manager) : Decision * string * Manager :=
  match o with
  | AllowOnce => (Allow, "allow_once", m)
  | AllowAlways => (Allow, "allow_always", allow_command cmd m)
  | AllowAlwaysBashCommand prefix => (Allow, "allow_always_bash", allow_command prefix m)
  | AllowAlwaysDomain _ | AllowAlwaysMcpTool _ | AllowAlwaysMcpServer _ | AllowEditsForSession => (Allow, "allow_once", m)
  | RejectOnce => (Reject "User rejected the execution", "reject_once", m)
  | RejectAlwaysBashCommand prefix =>
      (Reject ("User rejected the execution and excluded " +:+ prefix +:+ " from this session"), "reject_always_bash",
       persist (on_state (λ st, st <| disallowed_bash_commands := {[prefix]} ∪ disallowed_bash_commands st |>) m))
  | OutcomeCancelled => (Cancelled, "cancelled", m)
  | OutcomeFollowup msg => (FollowupMessage msg, "followup", m)
  | OutcomeError e => (Reject ("Failed to request permission from user: " +:+ e), "error", m)
  end.

Definition other_outcome (access : AccessKind) (o : PromptOutcome) (m : Manager) : Decision * string * Manager :=
  match o with
  | AllowOnce => (Allow, "allow_once", m)
  | AllowEditsForSession => (Allow, "allow_edits_for_session", m <| allow_edits_for_session := true |>)
  | AllowAlways =>
      (Allow, "allow_always",
       persist match access with MCPTool name _ => allow_mcp_tool name m | _ => m end)
  | AllowAlwaysBashCommand _ => (Allow, "allow_always_bash", m)
  | AllowAlwaysDomain domain =>
      (Allow, "allow_always_domain",
       match access with
       | WebFetch _ => persist (on_state (λ st, st <| allowed_web_fetch_domains := {[domain]} ∪ allowed_web_fetch_domains st |>) m)
       | _ => m
       end)
  | AllowAlwaysMcpTool _ =>
      (Allow, "allow_always_mcp_tool",
       match access with MCPTool name _ => persist (allow_mcp_tool name m) | _ => m end)
  | AllowAlwaysMcpServer server =>
      (Allow, "allow_always_mcp_server",
       match access with
       | MCPTool name _ =>
           match server_prefix name with
           | Some canonical =>
               if negb (is_empty canonical) && String.eqb canonical server
               then persist (on_state (λ st, st <| allowed_mcp_servers := {[canonical]} ∪ allowed_mcp_servers st |>) m)
               else persist (allow_mcp_tool name m)
           | None => persist (allow_mcp_tool name m)
           end
       | _ => m
       end)
  | RejectAlwaysBashCommand _ => (Reject "User rejected the execution", "reject_always_bash", m)
  | RejectOnce => (Reject "User rejected the execution", "reject_once", m)
  | OutcomeCancelled => (Cancelled, "cancelled", m)
  | OutcomeError e => (Reject ("Failed to request permission from user: " +:+ e), "error", m)
  | OutcomeFollowup msg => (FollowupMessage msg, "followup", m)
  end.

Definition MAX_RECORDED_PERMISSION_DECISIONS : nat := 12.

Definition prompted_decision_approved (d : Decision) (outcome_str : string) : option bool :=
  match d with
  | Allow => Some true
  | Reject _ => if String.eqb outcome_str "error" then None else Some false
  | _ => None
  end.

Definition record_decision (access : AccessKind) (d : Decision) (outcome_str : string) (m : Manager) : Manager :=
  match prompted_decision_approved d outcome_str with
  | None => m
  | Some approved =>
      let l := recorded_permission_decisions m
               ++ [PermissionDecision (tool_name_for_access access)
                     (permission_decision_args json_to_string access (access_detail_of access)) approved] in
      m <| recorded_permission_decisions := drop (length l - MAX_RECORDED_PERMISSION_DECISIONS) l |>
  end.

Definition ask_user (w : World) (access : AccessKind) (prompt_trigger : string) (m : Manager) : Reply * Manager :=
  let '(decision, outcome_str, m) :=
    match access with
    | Bash cmd => bash_outcome cmd (outcome w) m
    | _ => other_outcome access (outcome w) m
    end in
  let m := record_decision access decision outcome_str m in
  let trigger := if bool_decide (decision = Cancelled) && gone_after_prompt w then reasons.REQUESTER_GONE else prompt_trigger in
  (mkReply (Some decision) (mkEvent decision false true (Some outcome_str) trigger), m).

(** ** The ladder *)

(** From the standing decisions down. *)
Definition settle_or_ask (s : Setup) (w : World) (access : AccessKind) (e : option BashEvaluation) (v : PolicyView)
    (auto_forced_prompt : bool) (auto_prompt_reason : option string) (m : Manager) : Reply * Manager :=
  match neutralize access auto_forced_prompt (pre_decision s m access e v auto_forced_prompt) with
  | Some (decision, reason) => (auto_reply decision true reason, m)
  | None =>
      if bool_decide (setup_prompt_policy s = PromptDeny)
      then (auto_reply (PolicyDeny "denied by prompt policy (tool not pre-approved)") false reasons.PROMPT_DENY, m)
      else
        let prompt_trigger :=
          if policy_forced_prompt v || shell_forced_prompt v then reasons.POLICY_ASK
          else default reasons.NEEDS_USER auto_prompt_reason in
        if gone_before_prompt w then (gone_reply, m) else ask_user w access prompt_trigger m
  end.

(** From the sandbox down. *)
Definition after_auto (s : Setup) (w : World) (access : AccessKind) (e : option BashEvaluation) (v : PolicyView)
    (auto_forced_prompt : bool) (auto_prompt_reason : option string) (m : Manager) : Reply * Manager :=
  if match access with Bash _ => true | _ => false end && sandbox_may_auto_allow_bash e (sandbox_active w)
     && negb (policy_forced_prompt v) && negb auto_forced_prompt
  then (auto_reply Allow true reasons.SANDBOX_AUTO, m)
  else
    match policy_decision v with
    | Some Ask | None => settle_or_ask s w access e v auto_forced_prompt auto_prompt_reason m
    | Some Allow =>
        if bash_request_floor_requires_prompt e
        then settle_or_ask s w access e v auto_forced_prompt auto_prompt_reason m
        else (auto_reply Allow true reasons.POLICY_ALLOW, m)
    | Some decision => (auto_reply decision true reasons.POLICY_ALLOW, m)
    end.

Definition handle_request (s : Setup) (w : World) (access : AccessKind) (m : Manager) : Reply * Manager :=
  if gone_at_dequeue w then (gone_reply, m)
  else
    let e := match access with Bash cmd => Some (evaluate_bash iter_set cmd (state m) true) | _ => None end in
    let v := policy_view s access in
    match policy_decision v with
    | Some (Reject reason) => (auto_reply (PolicyDeny reason) false reasons.POLICY_DENY, m)
    | _ =>
        if yolo_mode m && negb (shell_forced_prompt v) then (auto_reply Allow true reasons.YOLO, m)
        else
          match (if negb (policy_forced_prompt v) && negb (shell_forced_prompt v)
                 then session_grant_pre_decision access e (state m) (allow_edits_for_session m) (static_domain_matcher s) (yolo_pin s)
                 else None) with
          | Some (decision, reason) => (auto_reply decision true reason, m)
          | None =>
              if auto_mode m && negb (policy_forced_prompt v) && negb (shell_forced_prompt v)
                 && negb (bash_request_floor_requires_prompt e)
              then match auto_stage w m access with
                   | Settled r => (r, m)
                   | Pass forced reason => after_auto s w access e v forced reason m
                   end
              else after_auto s w access e v false None m
          end
    end.

(** ** The other commands *)

Inductive PermissionCommand : Type :=
| Request (w : World) (access : AccessKind)
| SetYoloMode (enabled : bool)
| SetAutoMode (enabled : bool)
| SetClassifier (classifier : option Classifier)
| SetClassifierTranscript (turns : list ClassifierTurn)
| SetProjectInstructions (instructions : option string)
| ResetState
| Shutdown.

Definition handle (s : Setup) (c : PermissionCommand) (m : Manager) : option Reply * Manager :=
  match c with
  | Request w access => let '(r, m) := handle_request s w access m in (Some r, m)
  | SetYoloMode enabled =>
      let clamped := clamp_yolo enabled (yolo_pin s) in
      let m := m <| pin_refusal_logged := pin_refusal_logged m || (enabled && negb clamped) |> <| yolo_mode := clamped |> in
      (None, if clamped then m <| auto_mode := false |> else m)
  | SetAutoMode enabled =>
      let m := m <| auto_mode := enabled |> in
      (None, if enabled
             then m <| yolo_mode := false |>
                    <| auto_classifier := Some (default (default_classifier s) (auto_classifier m)) |>
             else m)
  | SetClassifier classifier => (None, m <| auto_classifier := classifier |>)
  | SetClassifierTranscript turns => (None, m <| classifier_turns := turns |>)
  | SetProjectInstructions text => (None, m <| instructions := text |>)
  | ResetState => (None, persist (m <| state := state_default |>) <| allow_edits_for_session := false |>)
  | Shutdown => (None, m)
  end.

(** The actor's loop over the commands it receives. *)
Fixpoint actor (s : Setup) (cs : list PermissionCommand) (m : Manager) : list Reply * Manager :=
  match cs with
  | [] => ([], m)
  | Shutdown :: _ => ([], m)
  | c :: cs =>
      let '(r, m) := handle s c m in
      let '(rs, m) := actor s cs m in (match r with Some r => r :: rs | None => rs end, m)
  end.
End manager.
