(* ===== verification/McpPolicy.v ===== *)
(** * Which MCP servers and marketplaces a managed policy admits (permission/resolution.rs)

    Denied entries beat allowed ones. An allowed URL is matched literally, a
    denied one by its host, whatever scheme, port or user stands around it. *)

From Stdlib Require Import Ascii String.
From S2P Require Import Prelude RustStr AuditParse PermPolicy AutoMode.
From stdpp Require Import options.

(** What the protocol's [McpServer] holds of a server; the enum is open. *)
Inductive McpServer : Type :=
| HttpServer (name url : string)
| SseServer (name url : string)
| StdioServer (name command : string)
| OtherServer.

Inductive AllowedMcpServer : Type :=
| EntryHttp (url_pattern : string)
| EntryStdio (command : string)
| EntryName (name : string).

(** Case-insensitive matching across slashes, the options of both matchers. *)
Class CaseGlobs `{Globs} : Type := matches_any_case : GlobPattern → string → bool.

Record McpServerAllowlist : Type := mkAllowlist {
  entries : list AllowedMcpServer;
  deny_entries : list AllowedMcpServer;
  url_patterns : list string;
  commands : list string;
  names : list string;
  deny_url_patterns : list string;
  deny_commands : list string;
  deny_names : list string;
  allowlist_source : option string;
}.

Definition split_mcp_entry (e : AllowedMcpServer) (acc : list string * list string * list string)
    : list string * list string * list string :=
  let '(urls, commands, names) := acc in
  match e with
  | EntryHttp url_pattern => (urls ++ [url_pattern], commands, names)
  | EntryStdio command => (urls, commands ++ [command], names)
  | EntryName name => (urls, commands, names ++ [name])
  end.
Definition split_mcp_entries (entries : list AllowedMcpServer) : list string * list string * list string :=
  foldl (λ acc e, split_mcp_entry e acc) ([], [], []) entries.

Definition allowlist_new (entries deny_entries : list AllowedMcpServer) (source_path : option string) : McpServerAllowlist :=
  let '(urls, commands, names) := split_mcp_entries entries in
  let '(deny_urls, deny_commands, deny_names) := split_mcp_entries deny_entries in
  mkAllowlist entries deny_entries urls commands names deny_urls deny_commands deny_names source_path.

Definition is_restricted (l : McpServerAllowlist) : bool := negb (is_nil (entries l)) || negb (is_nil (deny_entries l)).

(** ** Hosts and paths of URLs *)

Definition strip_url_query (url : string) : string :=
  let without_fragment := default url (head (split_char "#" url)) in
  default without_fragment (head (split_char "?" without_fragment)).

Definition split_host_path (s : string) : option string * string :=
  let after_scheme := match find "://" s with Some i => drop_bytes (i + 3) s | None => s end in
  let '(authority, path) :=
    match find "/" after_scheme with
    | Some i => (take_bytes i after_scheme, drop_bytes i after_scheme)
    | None => (after_scheme, "")
    end in
  let authority := default authority (last (split_char "@" authority)) in
  let host := default authority (head (split_char ":" authority)) in
  let host := to_ascii_lowercase (trim_end_char "." host) in
  (if is_empty host then None else Some host, path).

(** ** Names *)

Definition MANAGED_MCP_PREFIX : string := "grok_com_".
Definition MANAGED_MCP_NAME_MAX_CHARS : nat := 39.

Definition mcp_server_name (server : McpServer) : string :=
  match server with
  | HttpServer name _ | SseServer name _ | StdioServer name _ => name
  | OtherServer => ""
  end.

Section policy.
Context `{CaseGlobs, Urls}.

Definition normalize_managed_name (bare : string) : string := replace_str " " "_" (to_lowercase bare).

(** The key both sides of a name match are reduced to. *)
Definition mcp_name_key (s : string) : string :=
  let bare := default s (strip_prefix MANAGED_MCP_PREFIX s) in
  let normalized := normalize_managed_name bare in
  let max_bare := MANAGED_MCP_NAME_MAX_CHARS - String.length MANAGED_MCP_PREFIX in
  if max_bare <? char_count normalized then take_chars max_bare normalized else normalized.

Definition mcp_name_matches (pattern name : string) : bool :=
  let pattern_key := mcp_name_key pattern in negb (is_empty pattern_key) && String.eqb pattern_key (mcp_name_key name).

Definition glob_any_case (pat s : string) : bool :=
  match glob_new pat with Some p => matches_any_case p s | None => false end.

Definition url_glob_matches (pattern url : string) : bool := glob_any_case pattern (strip_url_query url).

Definition url_deny_matches (pattern url : string) : bool :=
  let '(pat_host, pat_path) := split_host_path pattern in
  match pat_host with
  | None => false
  | Some pat_host =>
      let '(url_host, url_path) := split_host_path (strip_url_query url) in
      match url_host with
      | None => false
      | Some url_host =>
          if negb (glob_any_case pat_host url_host) then false
          else if is_empty pat_path then true
          else glob_any_case pat_path (if is_empty url_path then "/" else url_path)
      end
  end.

(** ** The decision *)

Definition is_server_denied (l : McpServerAllowlist) (server : McpServer) : bool :=
  any (λ pat, mcp_name_matches pat (mcp_server_name server)) (deny_names l)
  || match server with
     | HttpServer _ url | SseServer _ url => any (λ pat, url_deny_matches pat url) (deny_url_patterns l)
     | StdioServer _ command => any (λ c, String.eqb c command) (deny_commands l)
     | OtherServer => false
     end.

(** [restricted]: an allowed dimension applies to the server; [matched]: one of
    its entries matches. *)
Definition is_server_allowed (l : McpServerAllowlist) (server : McpServer) : bool :=
  if negb (is_restricted l) then true
  else if is_server_denied l server then false
  else
    let '(restricted, matched) :=
      if negb (is_nil (names l)) then (true, any (λ pat, mcp_name_matches pat (mcp_server_name server)) (names l))
      else (false, false) in
    let '(restricted, matched) :=
      match server with
      | HttpServer _ url | SseServer _ url =>
          if negb (is_nil (url_patterns l))
          then (true, matched || any (λ pat, url_glob_matches pat url) (url_patterns l)) else (restricted, matched)
      | StdioServer _ command =>
          if negb (is_nil (commands l))
          then (true, matched || any (λ c, String.eqb c command) (commands l)) else (restricted, matched)
      | OtherServer => (restricted, matched)
      end in
    negb restricted || matched.

(** ** Marketplaces *)

Record MarketplaceAllowlist : Type := mkMarketplaces { allowed_urls : list string; marketplace_source : option string }.

Definition marketplace_is_restricted (l : MarketplaceAllowlist) : bool := negb (is_nil (allowed_urls l)).

Definition normalize_git_url (url : string) : string :=
  String.rev (trim_start_str (String.rev ".git") (String.rev (to_lowercase url))).

Definition is_url_allowed (l : MarketplaceAllowlist) (url : string) : bool :=
  if is_nil (allowed_urls l) then true
  else let normalized := normalize_git_url url in any (λ allowed, String.eqb (normalize_git_url allowed) normalized) (allowed_urls l).

Definition block_reason (l : MarketplaceAllowlist) : string :=
  match marketplace_source l with
  | Some p => "source not in strictKnownMarketplaces (" +:+ p +:+ ")"
  | None => "source not in strictKnownMarketplaces"
  end.
End policy.

(** ** Reading the entries of managed-settings.json *)

Definition as_array (v : Value) : option (list Value) := match v with Array l => Some l | _ => None end.

Definition ALLOWED_MCP_SERVERS_KEY : string := "allowedMcpServers".
Definition DENIED_MCP_SERVERS_KEY : string := "deniedMcpServers".

Definition mcp_entry (entry : Value) : option AllowedMcpServer :=
  match value_get "serverUrl" entry ≫= as_str with
  | Some url => Some (EntryHttp url)
  | None =>
      match value_get "command" entry ≫= as_str with
      | Some cmd => Some (EntryStdio cmd)
      | None => EntryName <$> (value_get "serverName" entry ≫= as_str)
      end
  end.

Definition parse_mcp_entries (json : Value) (key : string) : list AllowedMcpServer :=
  match value_get key json ≫= as_array with
  | None => []
  | Some arr => omap mcp_entry arr
  end.

Definition marketplace_entry (entry : Value) : option string :=
  (value_get "source" entry ≫= as_str) ≫= λ source,
  if negb (String.eqb source "git") then None else value_get "url" entry ≫= as_str.

Definition parse_marketplaces (json : Value) : list string :=
  match value_get "strictKnownMarketplaces" json ≫= as_array with
  | None => []
  | Some arr => omap marketplace_entry arr
  end.

Example host_of_a_dressed_url :
  split_host_path (strip_url_query "HTTPS://me:pw@Evil.Example.:8443/mcp?x=1#y") = (Some "evil.example", "/mcp").
Proof. vm_compute. reflexivity. Qed.
