(* ===== verification/ClaudeSettings.v ===== *)
(** * Settings files of another client (permission/claude_settings.rs)

    Which [.claude] settings files there are for a working directory, what is
    read of each, and the environment variables they add to a session. *)

From Stdlib Require Import Ascii String.
From S2P Require Import Prelude RustStr AuditParse TrimLemmas Disk PathLemmas PermTypes PermRules PermPolicy AutoMode McpPolicy.
From stdpp Require Import options.

(** ** Values of TOML documents *)

Inductive Toml : Type :=
| TString (s : string)
| TInteger (z : Z)
| TFloat (repr : string)
| TBoolean (b : bool)
| TDatetime (repr : string)
| TArray (l : list Toml)
| TTable (fields : list (string * Toml)).

Definition toml_get (key : string) (v : Toml) : option Toml :=
  match v with TTable fields => snd <$> List.find (λ f, String.eqb (fst f) key) fields | _ => None end.
Definition toml_array (v : Toml) : option (list Toml) := match v with TArray l => Some l | _ => None end.
Definition toml_str (v : Toml) : option string := match v with TString s => Some s | _ => None end.
Definition toml_bool (v : Toml) : option bool := match v with TBoolean b => Some b | _ => None end.

(** ** The host

    What the program asks of the machine it runs on: files as they are now (a
    file that cannot be read is [None]), the user's directories, and the readers
    of serde_json and toml. *)
Record Host : Type := mkHost {
  read_to_string : string → option string;
  path_exists : string → bool;
  is_file : string → bool;
  canonical : string → option string;
  home_dir : option string;
  user_grok_home : option string;
  marker_override : option string;
  json_from_str : string → result Value string;
  toml_from_str : string → result Toml string;
  number_to_string : Number → string;
}.

(** ** One file *)

Record ParsedPermissions : Type := mkPermissions { allow : list string; deny : list string; ask : list string }.

Record ClaudeSettings : Type := mkSettings {
  permissions : option ParsedPermissions;
  default_mode : option string;
  additional_directories : option (list string);
  env : option (gmap string string);
}.

Definition label_of (a : RuleAction) : string := match a with RuleAllow => "allow" | RuleDeny => "deny" | RuleAsk => "ask" end.

Definition entry_rule (a : RuleAction) (rule_str : string) : option PermissionRule :=
  match parse_permission_rule rule_str a with Ok rule => Some rule | Err _ => None end.
Definition entry_warning (a : RuleAction) (rule_str : string) : option string :=
  match parse_permission_rule rule_str a with
  | Ok _ => None
  | Err e => Some ("permissions." +:+ label_of a +:+ ": " +:+ rule_str +:+ " -- " +:+ RuleParseError_display e)
  end.

Definition into_permission_config (p : ParsedPermissions) : PermissionConfig * list string :=
  (config_new (omap (entry_rule RuleAllow) (allow p) ++ omap (entry_rule RuleDeny) (deny p) ++ omap (entry_rule RuleAsk) (ask p)),
   omap (entry_warning RuleAllow) (allow p) ++ omap (entry_warning RuleDeny) (deny p) ++ omap (entry_warning RuleAsk) (ask p)).

Definition type_of (v : Value) : string :=
  match v with
  | Null => "null" | AuditParse.Bool _ => "boolean" | Num _ => "number" | Str _ => "string"
  | Array _ => "array" | Object _ => "object"
  end.

Definition element_warning (i : nat) (v : Value) : option string :=
  match as_str v with
  | Some _ => None
  | None => Some ("permissions array index " +:+ pretty i +:+ ": expected string, got " +:+ type_of v)
  end.

(** The strings of an array, and what the log says of the rest. *)
Definition extract_string_array (value : option Value) : list string * list string :=
  match value with
  | Some (Array arr) => (omap as_str arr, omap (λ '(i, v), element_warning i v) (imap pair arr))
  | Some other => ([], ["permissions field: expected array, got " +:+ type_of other])
  | None => ([], [])
  end.

Definition extract_default_mode (value : Value) : option string :=
  match value_get "permissions" value ≫= value_get "defaultMode" with
  | Some dm => as_str dm
  | None => value_get "defaultMode" value ≫= as_str
  end.

Definition extract_additional_directories (value : Value) : option (list string) :=
  let arr :=
    match value_get "permissions" value ≫= value_get "additionalDirectories" with
    | Some nested => as_array nested
    | None => value_get "additionalDirectories" value ≫= as_array
    end in
  match arr with Some arr => Some (omap as_str arr) | None => None end.

Section host.
Context (h : Host).

Definition env_value (v : Value) : option string :=
  match v with
  | Str s => Some s
  | Num n => Some (number_to_string h n)
  | AuditParse.Bool b => Some (if b then "true" else "false")
  | _ => None
  end.

Definition insert_env (m : gmap string string) (f : string * Value) : gmap string string :=
  match env_value f.2 with Some v => <[f.1 := v]> m | None => m end.

Definition extract_string_map (value : option Value) : option (gmap string string) :=
  match value with
  | Some (Object fields) => let m := foldl insert_env ∅ fields in if decide (m = ∅) then None else Some m
  | _ => None
  end.

Definition extract_permissions (value : Value) : option ParsedPermissions :=
  value_get "permissions" value ≫= λ p,
  let '(allow, _) := extract_string_array (value_get "allow" p) in
  let '(deny, _) := extract_string_array (value_get "deny" p) in
  let '(ask, _) := extract_string_array (value_get "ask" p) in
  if is_nil allow && is_nil deny && is_nil ask then None else Some (mkPermissions allow deny ask).

Definition settings_of (value : Value) : ClaudeSettings :=
  mkSettings (extract_permissions value) (extract_default_mode value) (extract_additional_directories value)
    (extract_string_map (value_get "env" value)).

Definition load_claude_settings (path : string) : option ClaudeSettings :=
  read_to_string h path ≫= λ content,
  match json_from_str h content with Ok value => Some (settings_of value) | Err _ => None end.

(** ** Which files there are *)

Definition global_claude_settings_paths : list string :=
  match home_dir h with
  | Some home =>
      let global := path_join home ".claude" in [path_join global "settings.local.json"; path_join global "settings.json"]
  | None => []
  end.

Definition path_eq (p q : string) : bool := bool_decide (path_components p = path_components q).

(** trust.rs *)
Definition canonicalize_or_owned (p : string) : string := default p (canonical h p).
Definition is_home_dir (p : string) : bool :=
  match home_dir h with Some home => path_eq (canonicalize_or_owned p) (canonicalize_or_owned home) | None => false end.

(** The walks go up from a directory; each step takes a component off. *)
Definition walk_fuel (p : string) : nat := S (length (path_components p)).

Fixpoint find_repo_root (fuel : nat) (current : string) : option string :=
  match fuel with
  | O => None
  | S fuel =>
      if path_exists h (path_join current ".git") then Some current
      else match path_parent current with
           | Some parent => find_repo_root fuel parent
           | None => None
           end
  end.

Fixpoint collect_go (fuel : nat) (repo_root current : string) : list string :=
  match fuel with
  | O => []
  | S fuel =>
      let claude_dir := path_join current ".claude" in
      path_join claude_dir "settings.local.json" :: path_join claude_dir "settings.json" ::
      (if path_eq current repo_root then []
       else match path_parent current with
            | Some parent => collect_go fuel repo_root parent
            | None => []
            end)
  end.

Definition project_root (cwd : string) : string :=
  match find_repo_root (walk_fuel cwd) cwd with
  | Some root => if is_home_dir root then cwd else root
  | None => cwd
  end.

Definition collect_project_claude_paths (cwd : string) : list string := collect_go (walk_fuel cwd) (project_root cwd) cwd.

Definition find_claude_settings_paths (cwd : string) : list string :=
  collect_project_claude_paths cwd ++ global_claude_settings_paths.

Definition has_claude_compat (cwd : string) : bool := any (path_exists h) (find_claude_settings_paths cwd).
Definition project_claude_settings_present (cwd : string) : bool := any (is_file h) (collect_project_claude_paths cwd).

(** ** The import marker and the environment *)

Definition is_claude_import_marked : bool :=
  if bool_decide (marker_override h = Some "1") then true
  else
    match user_grok_home h with
    | None => false
    | Some g =>
        match read_to_string h (path_join g "config.toml") with
        | None => false
        | Some contents =>
            match toml_from_str h contents with
            | Err _ => false
            | Ok value => default false ((toml_get "claude_compat" value ≫= toml_get "imported") ≫= toml_bool)
            end
        end
    end.

Definition load_claude_env_with_project (cwd : string) (project_trusted : bool) : gmap string string :=
  if is_claude_import_marked then ∅
  else
    let paths := if project_trusted then find_claude_settings_paths cwd else global_claude_settings_paths in
    foldl (λ merged path,
      match load_claude_settings path ≫= env with
      | Some e => e ∪ merged
      | None => merged
      end) ∅ (reverse paths).
End host.

(** ** Settings files of another client: the theorems *)

(** *** The walks end *)

Lemma removelast_Forall {A} (P : A → Prop) l : Forall P l → Forall P (removelast l).
Proof. induction 1 as [|x l Hx Hl IH]; [done|]. cbn. destruct l; by constructor. Qed.

Lemma length_removelast {A} (l : list A) : l ≠ [] → length (removelast l) < length l.
Proof. intros Hl. destruct l as [|x l]; [done|]. rewrite (app_removelast_last x Hl) at 2. rewrite length_app. cbn [length]. lia. Qed.

Lemma path_parent_eq p : path_parent p =
  if decide (path_components p = [] ∨ path_components p = ["/"]) then None else Some (path_of (removelast (path_components p))).
Proof.
  unfold path_parent. case_decide as Hd; [by destruct Hd as [->| ->]|].
  destruct (path_components p) as [|c l]; [naive_solver|]. repeat case_match; try done. subst. naive_solver.
Qed.

(** The parent's components are those of the path but the last one. *)
Lemma parent_components p q : path_parent p = Some q →
  path_components p ≠ [] ∧ path_components q = removelast (path_components p).
Proof.
  rewrite path_parent_eq. case_decide as Hd; [done|]. intros [= <-]. split; [naive_solver|].
  destruct (starts_with "/" p) eqn:E.
  - rewrite (components_abs p E) in *. pose proof (norm_segs_ok p) as Hok. destruct (norm_segs p) as [|s l]; [naive_solver|].
    change (removelast ("/" :: s :: l)) with ("/" :: removelast (s :: l)). apply components_path_of_abs. by apply removelast_Forall.
  - destruct (components_rel p E) as [dot Hc]. rewrite Hc. pose proof (norm_segs_ok p) as Hok.
    destruct (decide (norm_segs p = [])) as [->|Hne]; [by destruct dot|].
    rewrite removelast_app by done. by apply components_path_of_rel, removelast_Forall.
Qed.

Lemma parent_shorter p q : path_parent p = Some q → length (path_components q) < length (path_components p).
Proof. intros [Hne ->]%parent_components. by apply length_removelast. Qed.

Section walks.
Context (h : Host).

(** More fuel than the path has components changes nothing: the walks up to the
    root are never cut short. *)
Lemma repo_root_fuel n m p : length (path_components p) < n → n ≤ m → find_repo_root h m p = find_repo_root h n p.
Proof.
  revert m p. induction n as [|n IH]; intros [|m] p Hn Hm; try lia. cbn [find_repo_root]. destruct (path_exists _ _); [done|].
  destruct (path_parent p) as [q|] eqn:Hq; [|done]. apply parent_shorter in Hq. apply IH; lia.
Qed.

Lemma collect_fuel n m root p : length (path_components p) < n → n ≤ m → collect_go m root p = collect_go n root p.
Proof.
  revert m p. induction n as [|n IH]; intros [|m] p Hn Hm; try lia. cbn [collect_go]. do 2 f_equal. destruct (path_eq p root); [done|].
  destruct (path_parent p) as [q|] eqn:Hq; [|done]. apply parent_shorter in Hq. apply IH; lia.
Qed.

(** *** Where the files of a project lie *)

Definition above (p q : string) : Prop := path_components p `prefix_of` path_components q.

Lemma parent_above p q r : path_parent p = Some q → above p r → above q r.
Proof.
  intros [Hne Hq]%parent_components Hp. unfold above in *. rewrite Hq. etrans; [|exact Hp].
  rewrite (app_removelast_last "" Hne) at 2. by eexists.
Qed.

Lemma repo_root_above n cwd : ∀ p root, above p cwd → find_repo_root h n p = Some root → above root cwd.
Proof.
  induction n as [|n IH]; intros p root Hp; cbn [find_repo_root]; [done|]. destruct (path_exists _ _); [by intros [= <-]|].
  destruct (path_parent p) as [q|] eqn:Hq; [|done]. apply IH. by eapply parent_above.
Qed.

Lemma project_root_above cwd : above (project_root h cwd) cwd.
Proof.
  unfold project_root. destruct (find_repo_root _ _ _) as [root|] eqn:E; [|by unfold above].
  destruct (is_home_dir h root); [by unfold above|]. eapply repo_root_above; [|exact E]. by unfold above.
Qed.

Definition settings_file (dir path : string) : Prop :=
  path = path_join (path_join dir ".claude") "settings.local.json" ∨ path = path_join (path_join dir ".claude") "settings.json".

Lemma collect_inside n root cwd path : ∀ p, above root p → above p cwd → path ∈ collect_go n root p →
  ∃ dir, settings_file dir path ∧ above root dir ∧ above dir cwd.
Proof.
  unfold settings_file. induction n as [|n IH]; intros p Hroot Hp; cbn [collect_go]; [by intros ?%elem_of_nil|].
  rewrite !elem_of_cons. intros [->|[->|Hin]]; [by exists p; auto|by exists p; auto|].
  unfold path_eq in Hin. case_bool_decide as Heq; [by apply elem_of_nil in Hin|].
  destruct (path_parent p) as [q|] eqn:Hq; [|by apply elem_of_nil in Hin]. eapply IH; [| |exact Hin]; [|by eapply parent_above].
  pose proof (parent_components _ _ Hq) as [Hne Hc]. unfold above in *. rewrite Hc.
  destruct Hroot as [k Hk]. destruct k as [|x k _] using rev_ind; [by rewrite app_nil_r in Hk|].
  rewrite Hk, app_assoc, removelast_last. by eexists.
Qed.

(** Every project file lies in a [.claude] between the project's root and the
    working directory, the root itself lying above it. *)
Lemma project_files_lie_in_the_project cwd path : path ∈ collect_project_claude_paths h cwd →
  ∃ dir, settings_file dir path ∧ above (project_root h cwd) dir ∧ above dir cwd.
Proof. apply collect_inside; [apply project_root_above|by unfold above]. Qed.

(** *** The environment *)

Definition file_env (k path : string) : option string := (load_claude_settings h path ≫= env) ≫= lookup k.

Lemma merged_env k paths : ∀ m,
  foldl (λ merged path, match load_claude_settings h path ≫= env with Some e => e ∪ merged | None => merged end) m (reverse paths) !! k
  = match head (omap (file_env k) paths) with Some v => Some v | None => (m : gmap string string) !! k end.
Proof.
  induction paths as [|path paths IH]; intros m; [done|]. rewrite reverse_cons, foldl_app. cbn [foldl omap list_omap]. unfold file_env at 1.
  destruct (load_claude_settings h path ≫= env) as [e|]; cbn [mbind option_bind]; [|apply IH].
  destruct (e !! k) as [v|] eqn:He; [by apply lookup_union_Some_l|]. rewrite lookup_union_r by done. apply IH.
Qed.

(** A variable the settings files add to the session has the value of the
    nearest file that sets it; a folder the user does not trust adds none: then
    only the files in the user's own directory count, wherever the session
    runs, and none at all once the settings were imported. *)
Lemma environment_is_of_the_nearest_file cwd trusted k :
  load_claude_env_with_project h cwd trusted !! k
  = if is_claude_import_marked h then None
    else head (omap (file_env k) ((if trusted then collect_project_claude_paths h cwd else []) ++ global_claude_settings_paths h)).
Proof.
  unfold load_claude_env_with_project. destruct (is_claude_import_marked h); [apply lookup_empty|].
  assert (find_claude_settings_paths h cwd = collect_project_claude_paths h cwd ++ global_claude_settings_paths h) as -> by done.
  destruct trusted; cbn [app]; rewrite merged_env; destruct (head _); try done; apply lookup_empty.
Qed.
End walks.

(** *** Blind spots *)

(** A repository root above the home directory makes the user's own settings
    those of the project: only a root that is the home directory is left out. *)
Lemma home_below_the_root_is_project :
  let h := mkHost (λ _, None) (λ p, String.eqb p "/.git") (λ _, false) Some (Some "/root") None None (λ _, Err "") (λ _, Err "") (λ _, "") in
  collect_project_claude_paths h "/root/w"
  = ["/root/w/.claude/settings.local.json"; "/root/w/.claude/settings.json"; "/root/.claude/settings.local.json"; "/root/.claude/settings.json";
     "/.claude/settings.local.json"; "/.claude/settings.json"].
Proof. vm_compute. reflexivity. Qed.
