(* ===== verification/PermResolve.v ===== *)
(** * Which rules a session runs under (permission/resolution.rs)

    The rules of every configuration layer with where each came from; the mode
    that fills the gaps; the managed pin that keeps always-approve off and drops
    the rules that would stand in for it. *)

From Stdlib Require Import Ascii String.
From S2P Require Import Prelude RustStr AuditParse GoalTracker PermTypes PermRules PermPolicy AutoMode McpPolicy ClaudeSettings.
From stdpp Require Import options.

(** ** Where a rule comes from (types.rs) *)

Inductive RequirementSource : Type :=
| UnknownSource
| Requirements (path : string)
| SystemRequirements (path : string)
| FromManagedSettings (path : string)
| ManagedConfig (path : string)
| Config (path : string)
| Settings (path : string).

Definition RequirementSource_display (s : RequirementSource) : string :=
  match s with
  | UnknownSource => "<unknown>"
  | Requirements path => path +:+ " (requirements)"
  | SystemRequirements path => path +:+ " (system requirements)"
  | FromManagedSettings path => path +:+ " (managed-settings)"
  | ManagedConfig path => path +:+ " (managed config)"
  | Config path => path +:+ " (config)"
  | Settings path => path +:+ " (settings)"
  end.

Record Sourced : Type := mkSourced { value : PermissionRule; source : RequirementSource }.
Record SkippedPermission : Type := mkSkipped { skipped_rule : string; reason : string }.

(** ** What a mode adds *)

Definition synthetic_rules_for_default_mode (mode : DefaultPermissionMode) (policy_block : option string)
    : list PermissionRule * list SkippedPermission * bool :=
  let effects := effects mode in
  if bypass_permissions effects then
    match policy_block with
    | Some reason => ([], [mkSkipped "defaultMode=bypassPermissions" reason], true)
    | None => ([mkRule RuleAllow ForAny None GlobMode], [], false)
    end
  else if accept_edits effects then ([mkRule RuleAllow ForEdit None GlobMode], [], false)
  else ([], [], false).

(** An unknown mode is the default one, and leaves a record. *)
Definition parse_default_mode_claiming_scope (raw : string) : DefaultPermissionMode * list SkippedPermission :=
  match mode_from_str raw with
  | Ok mode => (mode, [])
  | Err invalid => (ModeDefault, [mkSkipped ("defaultMode=" +:+ invalid) "unrecognized value; treated as default"])
  end.

(** ** Catch-all rules *)

Section catchall.
Context `{Globs, Urls}.

Definition is_catchall_allow (rule : PermissionRule) : bool :=
  if negb (bool_decide (action rule = RuleAllow)) then false
  else if contains (tool rule) [ForRead; ForEdit; ForGrep] then false
  else rule_is_catchall rule.

Definition is_admin_source (s : RequirementSource) : bool :=
  match s with SystemRequirements _ | FromManagedSettings _ => true | _ => false end.

Definition stands_in_for_yolo (s : Sourced) : bool := is_catchall_allow (value s) && negb (is_admin_source (source s)).

Definition drop_untrusted_catchall_allows (rules : list Sourced) (policy_block : option string)
    : list Sourced * list SkippedPermission :=
  match policy_block with
  | None => (rules, [])
  | Some reason =>
      (bfilter (λ s, negb (stands_in_for_yolo s)) rules,
       map (λ s, mkSkipped ("allow " +:+ default "*" (pattern (value s)) +:+ " (catch-all)") reason)
         (bfilter stands_in_for_yolo rules))
  end.
End catchall.

(** ** Rules of TOML layers *)

Section toml.
(** The verbose form is read by the derived reader of [PermissionConfig]. *)
Context (try_into : Toml → result PermissionConfig string).

Definition toml_rule (a : RuleAction) (item : Toml) : option PermissionRule := toml_str item ≫= entry_rule a.

(** The list under one key; a value that is no array is ignored. *)
Definition compact_rules (v : Toml) (a : RuleAction) : option (list PermissionRule) :=
  (toml_get (label_of a) v ≫= toml_array) ≫= λ arr : list Toml, Some (omap (toml_rule a) arr).

Definition parse_toml_permission_section (v : Toml) : result (list PermissionRule) string :=
  match compact_rules v RuleDeny, compact_rules v RuleAllow, compact_rules v RuleAsk with
  | None, None, None => match try_into v with Ok config => Ok (rules config) | Err e => Err e end
  | d, a, k => Ok (default [] d ++ default [] a ++ default [] k)
  end.

Definition extract_toml_permissions (config : Toml) (source : RequirementSource) : list Sourced :=
  match toml_get "permission" config with
  | None => []
  | Some v =>
      match parse_toml_permission_section v with
      | Ok rules => map (λ rule, mkSourced rule source) rules
      | Err _ => []
      end
  end.

(** What the loaders of the configuration crate give. *)
Record RequirementsLayer : Type := mkLayer { layer_value : Toml; layer_label : string; is_system : bool }.
Record ManagedConfigLayer : Type := mkManagedLayer { managed_value : Toml; managed_path : string }.

Definition layer_source (l : RequirementsLayer) : RequirementSource :=
  if is_system l then SystemRequirements (layer_label l) else Requirements (layer_label l).

Definition load_requirements_permissions (layers : list RequirementsLayer) : list Sourced :=
  concat (map (λ l, extract_toml_permissions (layer_value l) (layer_source l)) layers).

Definition managed_config_permissions (layers : list ManagedConfigLayer) : list Sourced :=
  concat (map (λ l, extract_toml_permissions (managed_value l) (ManagedConfig (managed_path l))) layers).

(** [work_tree]: the working directory of the repository git finds around the
    current one. *)
Context (h : Host) (work_tree : string → option string) (load_config_file : string → option Toml).

Fixpoint project_configs_go (fuel : nat) (root dir : string) : list string :=
  match fuel with
  | O => []
  | S fuel =>
      let p := path_join (path_join dir ".Doggy") "config.toml" in
      (if is_file h p then [p] else []) ++
      (if path_eq dir root then []
       else match path_parent dir with
            | Some parent => project_configs_go fuel root parent
            | None => []
            end)
  end.

Definition find_project_grok_configs (cwd : string) : list string :=
  match work_tree cwd with
  | Some root => reverse (project_configs_go (walk_fuel cwd) root cwd)
  | None => let p := path_join (path_join cwd ".Doggy") "config.toml" in if is_file h p then [p] else []
  end.

Definition config_file_permissions (path : string) : list Sourced :=
  match load_config_file path with
  | Some config => extract_toml_permissions config (Config path)
  | None => []
  end.

Definition load_config_toml_permissions (cwd : string) : list Sourced :=
  (match user_grok_home h with
   | Some g => let global_path := path_join g "config.toml" in
               if is_file h global_path then config_file_permissions global_path else []
   | None => []
   end) ++ concat (map config_file_permissions (find_project_grok_configs cwd)).
End toml.

(** ** The pin *)

Definition YOLO_PIN_REASON_REQUIREMENTS : string :=
  "always-approve disabled by managed policy ([ui] disable_bypass_permissions_mode = true in requirements.toml)".
Definition YOLO_PIN_REASON_LEGACY_YOLO : string :=
  "always-approve disabled by managed policy ([ui] yolo = false in requirements.toml)".

Definition requirements_lock_bool (ui : option Toml) (key : string) : option bool := (ui ≫= toml_get key) ≫= toml_bool.

Fixpoint resolve_yolo_policy_block (requirement_layers : list RequirementsLayer) : option string :=
  match requirement_layers with
  | [] => None
  | layer :: layers =>
      let ui := toml_get "ui" (layer_value layer) in
      if bool_decide (requirements_lock_bool ui "disable_bypass_permissions_mode" = Some true) then Some YOLO_PIN_REASON_REQUIREMENTS
      else if bool_decide (requirements_lock_bool ui "yolo" = Some false) then Some YOLO_PIN_REASON_LEGACY_YOLO
      else resolve_yolo_policy_block layers
  end.

(** ** managed-settings.json *)

Record ManagedSettingsFeatures : Type := mkFeatures {
  disable_telemetry : option bool;
  disable_feedback : option bool;
  disable_yolo : option bool;
  features_source : option string;
}.

Record ManagedSettings : Type := mkManaged {
  features : ManagedSettingsFeatures;
  managed_permissions : list Sourced;
  managed_default_mode : option DefaultPermissionMode;
  mcp_allowlist : McpServerAllowlist;
  marketplace_allowlist : MarketplaceAllowlist;
}.

Definition managed_default : ManagedSettings :=
  mkManaged (mkFeatures None None None None) [] None (mkAllowlist [] [] [] [] [] [] [] [] None) (mkMarketplaces [] None).

(** [n.as_i64()] *)
Definition as_i64 (n : Number) : option Z :=
  match n with
  | PosInt n => if (Z.of_N n <=? 2 ^ 63 - 1)%Z then Some (Z.of_N n) else None
  | NegInt z => Some z
  | Float _ => None
  end.

Definition json_env_flag (env : option Value) (key : string) : option bool :=
  match env ≫= value_get key with
  | Some (Num n) => Some (negb (Z.eqb (default 0%Z (as_i64 n)) 0))
  | Some (AuditParse.Bool b) => Some b
  | Some (Str s) => Some (negb (contains s ["0"; ""; "false"]))
  | _ => None
  end.

Definition parse_disable_bypass_permissions (json : Value) : option bool :=
  match value_get "permissions" json ≫= value_get "disableBypassPermissionsMode" with
  | Some val => Some (bool_decide (as_str val = Some "disable"))
  | None => None
  end.

(** The derived reader of [ParsedPermissions]: one entry that is no string and
    nothing is read. *)
Definition read_parsed_permissions (v : Value) : option ParsedPermissions :=
  match serde_fields ["allow"; "deny"; "ask"] v with
  | Some [allow; deny; ask] =>
      vec_field as_str allow ≫= λ allow, vec_field as_str deny ≫= λ deny, vec_field as_str ask ≫= λ ask,
      Some (mkPermissions allow deny ask)
  | _ => None
  end.

Definition parse_managed_settings_permissions (json : Value) (path : string) : list Sourced :=
  match value_get "permissions" json ≫= read_parsed_permissions with
  | Some permissions => map (λ rule, mkSourced rule (FromManagedSettings path)) (rules (into_permission_config permissions).1)
  | None => []
  end.

Definition parse_managed_settings_json (json : Value) (path : string) : ManagedSettings :=
  let env := value_get "env" json in
  mkManaged
    (mkFeatures (json_env_flag env "DISABLE_TELEMETRY") (json_env_flag env "DISABLE_FEEDBACK_COMMAND")
       (parse_disable_bypass_permissions json) (Some path))
    (parse_managed_settings_permissions json path)
    (match extract_default_mode json with Some raw => Some (parse_default_mode_claiming_scope raw).1 | None => None end)
    (allowlist_new (parse_mcp_entries json ALLOWED_MCP_SERVERS_KEY) (parse_mcp_entries json DENIED_MCP_SERVERS_KEY) (Some path))
    (mkMarketplaces (parse_marketplaces json) (Some path)).

Section resolution.
Context `{Globs, Urls}.
Context (try_into : Toml → result PermissionConfig string) (h : Host).
Context (work_tree : string → option string) (load_config_file : string → option Toml).

Definition read_managed_settings_json (path : string) : option Value :=
  read_to_string h path ≫= λ content, match json_from_str h content with Ok v => Some v | Err _ => None end.

Definition load_managed_settings (managed_settings_path : option string) : ManagedSettings :=
  match managed_settings_path with
  | None => managed_default
  | Some path =>
      match read_managed_settings_json path with
      | None => managed_default
      | Some json => parse_managed_settings_json json path
      end
  end.

(** ** Settings of another client *)

Definition split_once_str (p s : string) : option (string * string) :=
  match find p s with Some i => Some (take_bytes i s, drop_bytes (i + String.length p) s) | None => None end.
Definition em_dash : string := byte_str [32; 226; 128; 148; 32].

Definition skip_record (w : string) : SkippedPermission :=
  match split_once_str em_dash w with
  | Some (r, d) => mkSkipped r d
  | None => match split_once_str " -- " w with Some (r, d) => mkSkipped r d | None => mkSkipped w "" end
  end.

Inductive UserDefaultModeLoad : Type := ApplyUserMode | SkipManagedOwns.

(** What the loop over the files has gathered. *)
Record Gathered : Type := mkGathered {
  all_rules : list PermissionRule;
  all_skipped : list SkippedPermission;
  primary_source_path : option string;
  default_mode_source : option string;
  applied_mode : option DefaultPermissionMode;
  mode_prompt_policy : PromptPolicy;
}.
Definition gathered_nothing : Gathered := mkGathered [] [] None None None PromptAsk.

Definition claim_mode (load : UserDefaultModeLoad) (path : string) (settings : ClaudeSettings) (g : Gathered) : Gathered :=
  match load, default_mode_source g, default_mode settings with
  | ApplyUserMode, None, Some raw =>
      let '(mode, skipped) := parse_default_mode_claiming_scope raw in
      mkGathered (all_rules g) (all_skipped g ++ skipped) (primary_source_path g) (Some path) (Some mode)
        (effects_prompt_policy (effects mode))
  | _, _, _ => g
  end.

Definition gather_rules (path : string) (settings : ClaudeSettings) (g : Gathered) : Gathered :=
  match permissions settings with
  | None => g
  | Some perms =>
      let '(cfg, warnings) := into_permission_config perms in
      mkGathered (all_rules g ++ rules cfg) (all_skipped g ++ map skip_record warnings)
        (match primary_source_path g with
         | Some p => Some p
         | None => if negb (is_nil (rules cfg)) || negb (is_nil warnings) then Some path else None
         end)
        (default_mode_source g) (applied_mode g) (mode_prompt_policy g)
  end.

Definition gather_file (load : UserDefaultModeLoad) (g : Gathered) (path : string) : Gathered :=
  match load_claude_settings h path with
  | None => g
  | Some settings => gather_rules path settings (claim_mode load path settings g)
  end.

Definition resolve_claude_settings_inner (cwd : string) (policy_block : option string) (load : UserDefaultModeLoad)
    : option (PermissionConfig * list SkippedPermission * string) :=
  let g := foldl (gather_file load) gathered_nothing (find_claude_settings_paths h cwd) in
  let '(syn_rules, syn_skipped, bypass_blocked) :=
    match applied_mode g with
    | Some mode => synthetic_rules_for_default_mode mode policy_block
    | None => ([], [], false)
    end in
  let all_skipped := all_skipped g ++ syn_skipped in
  let all_rules := all_rules g ++ syn_rules in
  if is_nil all_rules && bool_decide (mode_prompt_policy g = PromptAsk) && negb bypass_blocked
     && bool_decide (default_mode_source g = None) && is_nil all_skipped then None
  else
    let source_path :=
      match primary_source_path g with
      | Some p => p
      | None => default cwd (default_mode_source g)
      end in
    Some (mkConfig all_rules (mode_prompt_policy g), all_skipped, source_path).

(** ** The resolution *)

Record ResolvedPermissions : Type := mkResolved {
  config : PermissionConfig;
  sources : list RequirementSource;
  skipped : list SkippedPermission;
}.

Record ResolveInputs : Type := mkInputs {
  policy_block : option string;
  managed : ManagedSettings;
  managed_config_rules : list Sourced;
}.

Definition tag_with_source (rules : list PermissionRule) (source : RequirementSource) : list Sourced :=
  map (λ rule, mkSourced rule source) rules.

Definition resolve_permissions_with_provenance_inner (layers : list RequirementsLayer) (cwd : string) (inputs : ResolveInputs)
    : option ResolvedPermissions :=
  let config_toml_rules := load_config_toml_permissions try_into h work_tree load_config_file cwd in
  let managed_mode := managed_default_mode (managed inputs) in
  let user_mode_load := match managed_mode with Some _ => SkipManagedOwns | None => ApplyUserMode end in
  let settings_json :=
    if is_claude_import_marked h then None
    else resolve_claude_settings_inner cwd (policy_block inputs) user_mode_load in
  let all_rules := load_requirements_permissions try_into layers ++ managed_permissions (managed inputs) in
  let '(all_rules, skipped, prompt_policy) :=
    match managed_mode with
    | None => (all_rules, [], PromptAsk)
    | Some mode =>
        let managed_path := default "managed-settings.json" (features_source (features (managed inputs))) in
        let '(syn_rules, syn_skipped, _) := synthetic_rules_for_default_mode mode (policy_block inputs) in
        (all_rules ++ tag_with_source syn_rules (FromManagedSettings managed_path), syn_skipped,
         effects_prompt_policy (effects mode))
    end in
  let all_rules := all_rules ++ managed_config_rules inputs ++ config_toml_rules in
  let '(all_rules, skipped, prompt_policy) :=
    match settings_json with
    | None => (all_rules, skipped, prompt_policy)
    | Some (cfg, skipped_rules, path) =>
        (all_rules ++ tag_with_source (rules cfg) (Settings path), skipped ++ skipped_rules,
         match managed_mode with Some _ => prompt_policy | None => PermTypes.prompt_policy cfg end)
    end in
  let '(all_rules, dropped) := drop_untrusted_catchall_allows all_rules (policy_block inputs) in
  let skipped := skipped ++ dropped in
  if is_nil all_rules && bool_decide (prompt_policy = PromptAsk) && is_nil skipped then None
  else Some (mkResolved (mkConfig (map value all_rules) prompt_policy) (map source all_rules) skipped).

(** [ResolveInputs::live]: the layers as they are. *)
Definition resolve_permissions_with_provenance (layers : list RequirementsLayer) (managed_layers : list ManagedConfigLayer)
    (managed_settings_path : option string) (cwd : string) : option ResolvedPermissions :=
  resolve_permissions_with_provenance_inner layers cwd
    (mkInputs (resolve_yolo_policy_block layers) (load_managed_settings managed_settings_path)
       (managed_config_permissions try_into managed_layers)).

Definition resolve_permission_config_with_fallback (layers : list RequirementsLayer) (managed_layers : list ManagedConfigLayer)
    (managed_settings_path : option string) (cwd : string) : option PermissionConfig :=
  config <$> resolve_permissions_with_provenance layers managed_layers managed_settings_path cwd.
End resolution.

(** ** What a search must leave out *)

Definition deny_read_globs_from_config (config : PermissionConfig) : list string :=
  omap pattern (bfilter (λ r, bool_decide (action r = RuleDeny) && contains (tool r) [ForRead; ForGrep; ForAny]) (rules config)).
