(* ===== verification/PermDemo.v ===== *)
(** * A double of what the permission manager does not define itself

    Four scripts with their trees written out; globs that match themselves; hosts
    without a port; no links. The witnesses of the permission theorems use it. *)

From Stdlib Require Import Ascii String.
From S2P Require Import Prelude RustStr AuditParse PermTypes ShellTree PermPolicy ShellAccess AutoMode PermManager.
From stdpp Require Import options.

Module Demo.
Definition leaf (k : string) (f : option string) (s e : nat) : Node := mkNode k true f s e [].
Definition ls_tree : Tree :=
  mkTree (mkNode "program" true None 0 5
            [mkNode "command" true None 0 5
               [mkNode "command_name" true (Some "name") 0 2 [leaf "word" None 0 2]; leaf "word" None 3 5]]) false.
(** [echo hi > out.txt] *)
Definition write_tree : Tree :=
  mkTree (mkNode "program" true None 0 17
            [mkNode "redirected_statement" true None 0 17
               [mkNode "command" true (Some "body") 0 7
                  [mkNode "command_name" true (Some "name") 0 4 [leaf "word" None 0 4]; leaf "word" None 5 7];
                mkNode "file_redirect" true (Some "redirect") 8 17
                  [mkNode ">" false None 8 9 []; leaf "word" (Some "destination") 10 17]]]) false.

(** One command: its name, and its words with their kinds. *)
Definition one_command (len : nat) (name : nat * nat) (ws : list (string * nat * nat)) : Tree :=
  mkTree (mkNode "program" true None 0 len
            [mkNode "command" true None 0 len
               (mkNode "command_name" true (Some "name") name.1 name.2 [leaf "word" None name.1 name.2]
                :: map (λ w, leaf w.1.1 None w.1.2 w.2) ws)]) false.
Definition inner_tree : Tree := one_command 12 (0, 4) [("word", 5, 7); ("number", 8, 9); ("word", 10, 12)].
Definition outer_tree : Tree :=
  one_command 42 (0, 12) [("word", 13, 18); ("word", 19, 23); ("word", 24, 27); ("raw_string", 28, 42)].

Definition ls : string := "ls -l".
Definition inner : string := "nice -n 5 rm".
Definition outer : string := "/usr/bin/env FOO=1 bash -lc 'nice -n 5 rm'".
Definition write : string := "echo hi > out.txt".

#[export] Instance demo_parser : ShellParser :=
  λ cmd, if String.eqb cmd ls then Some ls_tree else if String.eqb cmd write then Some write_tree
    else if String.eqb cmd inner then Some inner_tree else if String.eqb cmd outer then Some outer_tree else None.
#[export] Instance demo_globs : Globs := {| GlobPattern := string; glob_new := Some; matches_with pat text _ := String.eqb pat text |}.
#[export] Instance demo_urls : Urls :=
  {| Url := string; url_parse := Some; host_str := Some; url_path _ := "/"; to_lowercase := to_ascii_lowercase |}.
#[export] Instance demo_links : Links := {| canonicalize := Some; is_symlink _ := false; read_link _ := None |}.

Definition iter_set : gset string → list string := elements.
Lemma iter_law (X : gset string) x : x ∈ iter_set X ↔ x ∈ X.
Proof. apply elem_of_elements. Qed.

Definition json_to_string (v : Value) : string := "{}".
Definition config : PermissionConfig :=
  config_new [mkRule RuleAllow ForBash None GlobMode; mkRule RuleDeny ForBash (Some "rm") GlobMode].
Definition setup : Setup := mkSetup (Some (policy_new config)) PromptAsk ∅ None true "/w" (λ _ _ _ _, VAllow).
Definition manager : Manager := spawn_permission_manager setup false state_default.
Definition world (o : PromptOutcome) : World := mkWorld false false true false o false.

(** No edit of [/w/out.txt]. *)
Definition deny_edit : PermissionConfig := config_new [mkRule RuleDeny ForEdit (Some "/w/out.txt") GlobMode].
Definition deny_setup : Setup := mkSetup (Some (policy_new deny_edit)) PromptAsk ∅ None true "/w" (λ _ _ _ _, VAllow).
(** Ask about [ls]. *)
Definition ask_ls : PermissionConfig := config_new [mkRule RuleAsk ForBash (Some "ls") GlobMode].
Definition ask_setup : Setup := mkSetup (Some (policy_new ask_ls)) PromptAsk ∅ None true "/w" (λ _ _ _ _, VAllow).
Definition always_approving : Manager := spawn_permission_manager deny_setup true state_default.

Example reads_the_words : all_commands_from_script ls = Some [mkPlain ["ls"; "-l"] 0 5].
Proof. vm_compute. reflexivity. Qed.
Example reads_the_nested_words :
  (map words <$> all_commands_from_script outer) = Some [["/usr/bin/env"; "FOO=1"; "bash"; "-lc"; "nice -n 5 rm"]]
  ∧ (map words <$> all_commands_from_script inner) = Some [["nice"; "-n"; "5"; "rm"]].
Proof. vm_compute. split; reflexivity. Qed.
Example finds_the_write : command_write_paths_in_tree (root_node write_tree) write = ["out.txt"].
Proof. vm_compute. reflexivity. Qed.
Example allowed_by_the_rule : (handle_request iter_set json_to_string setup (world RejectOnce) (Bash ls) manager).1
  = auto_reply Allow true reasons.SAFE_COMMAND.
Proof. vm_compute. reflexivity. Qed.
End Demo.
