(* ===== verification/PermPolicyFacts.v ===== *)
(** * The permission policy: what it promises

    Deny beats ask beats allow; no chained command, wrapper or nested script hides
    a command from a rule, and no redirect or operand hides a file from one. *)

From Stdlib Require Import Ascii String.
From S2P Require Import Prelude RustStr AuditParse PermTypes ShellTree PermPolicy ShellAccess TrimLemmas PermDemo.
From stdpp Require Import options.

(** ** Joining decisions *)

Definition rank (d : option Decision) : nat := match d with Some d => decision_rank d | None => 0 end.

Definition is_reject (d : option Decision) : bool := match d with Some (Reject _) => true | _ => false end.

(** Decisions a judgement that only escalates can give. *)
Definition escalating (d : option Decision) : Prop :=
  match d with None | Some Ask | Some (Reject _) => True | _ => False end.

Lemma combine_escalating a b : escalating a → escalating b → escalating (combine_decisions a b).
Proof. destruct a as [a|], b as [b|]; cbn; try done. destruct (_ <=? _); done. Qed.

Lemma combine_rank a b : escalating a → escalating b → rank (combine_decisions a b) = Nat.max (rank a) (rank b).
Proof.
  destruct a as [[]|], b as [[]|]; cbn; try done; intros; rewrite ?Nat.max_0_r; reflexivity.
Qed.

Lemma escalating_rank a : escalating a →
  (rank a = 3 ∧ is_reject a = true) ∨ (rank a = 2 ∧ a = Some Ask) ∨ (rank a = 0 ∧ a = None).
Proof. destruct a as [[]|]; cbn; auto; done. Qed.

Lemma rank_reject a : escalating a → rank a = 3 ↔ is_reject a = true.
Proof. destruct a as [[]|]; cbn; split; done. Qed.

Lemma combine_assoc a b c : combine_decisions (combine_decisions a b) c = combine_decisions a (combine_decisions b c).
Proof.
  destruct a as [a|], b as [b|], c as [c|]; cbn; try done; try (by destruct (_ <=? _)).
  destruct (decision_rank b <=? decision_rank a) eqn:Hba, (decision_rank c <=? decision_rank b) eqn:Hcb; cbn;
    rewrite ?Hba, ?Hcb; try done; apply Nat.leb_le in Hba || apply Nat.leb_gt in Hba;
    apply Nat.leb_le in Hcb || apply Nat.leb_gt in Hcb.
  - destruct (Nat.leb_spec (decision_rank c) (decision_rank a)); [done|lia].
  - destruct (Nat.leb_spec (decision_rank c) (decision_rank a)); [lia|done].
Qed.

(** Folding a list of judgements gives the strongest. *)
Lemma fold_rank {A} (f : A → option Decision) (Hf : ∀ x, escalating (f x)) l : ∀ d, escalating d →
  escalating (foldl (λ d x, combine_decisions d (f x)) d l)
  ∧ ∀ k, k ≤ rank (foldl (λ d x, combine_decisions d (f x)) d l) ↔ k ≤ rank d ∨ (∃ x, x ∈ l ∧ k ≤ rank (f x)).
Proof.
  induction l as [|y l IH]; intros d Hd; cbn.
  - split; [done|]. intros k. split; [by left|]. by intros [?|(x & Hx%not_elem_of_nil & _)].
  - destruct (IH (combine_decisions d (f y))) as [He Hk]; [by apply combine_escalating|]. split; [done|].
    intros k. rewrite Hk, combine_rank, Nat.max_le_iff by auto. setoid_rewrite elem_of_cons.
    split; [intros [[|]|(x & ? & ?)]|intros [|(x & [->|] & ?)]]; eauto 6.
Qed.

(** A rejection is one of the judgements. *)
Lemma combine_reject a b r : combine_decisions a b = Some (Reject r) → a = Some (Reject r) ∨ b = Some (Reject r).
Proof. destruct a as [a|], b as [b|]; cbn; auto. destruct (_ <=? _); auto. Qed.

Lemma fold_reject {A} (f : A → option Decision) l r : ∀ d,
  foldl (λ d x, combine_decisions d (f x)) d l = Some (Reject r) → d = Some (Reject r) ∨ ∃ x, x ∈ l ∧ f x = Some (Reject r).
Proof.
  induction l as [|y l IH]; intros d; cbn; [auto|]. intros [Hd|(x & Hx & Hf)]%IH.
  - apply combine_reject in Hd as [|]; [auto|]. right. exists y. split; [left|done].
  - right. exists x. split; [by right|done].
Qed.

Lemma escalation_escalating (d : option Decision) : (∀ x, d = Some x → x = Allow ∨ escalating (Some x)) → escalating (escalation d).
Proof. destruct d as [[]|]; cbn; try done; intros H; destruct (H _ eq_refl) as [|[]]; done. Qed.

(** ** The grammar of wrapped commands

    How the wrapper programs and the shells are invoked, as their manuals say. *)

Definition dash (w : string) : bool := starts_with "-" w.

(** A word that names a program, with or without the directories before it. *)
Definition named (p name : string) : Prop := p = name ∨ ∃ dir c, is_separator c = true ∧ p = dir +:+ String c name.

(** Options, where those of [with_arg] take the next word. *)
Inductive options (with_arg : list string) : list string → Prop :=
| options_none : options with_arg []
| options_flag o os : dash o = true → o ∉ with_arg → options with_arg os → options with_arg (o :: os)
| options_arg o v os : o ∈ with_arg → dash o = true → options with_arg os → options with_arg (o :: v :: os).

Definition letter (c : ascii) : bool := is_ascii_alphabetic c || Ascii.eqb c "_".
Definition identifier (name : string) : Prop :=
  ∃ c r, name = String c r ∧ letter c = true ∧ all_chars (λ c, letter c || is_ascii_digit c) r = true.
Definition assignment (w : string) : Prop := ∃ name v, identifier name ∧ w = name +:+ "=" +:+ v.

(** The words between [env] and its command. *)
Inductive env_words : list string → Prop :=
| env_none : env_words []
| env_flag o os : o ∈ ["-i"; "-0"; "-v"; "--ignore-environment"; "--null"; "--debug"] → env_words os → env_words (o :: os)
| env_arg o v os : o ∈ ["-u"; "--unset"; "-C"; "--chdir"] → env_words os → env_words (o :: v :: os)
| env_long o v os : o ∈ ["--unset="; "--chdir="] → env_words os → env_words ((o +:+ v) :: os)
| env_assign w os : assignment w → env_words os → env_words (w :: os).

(** [outer] is an invocation of a wrapper that runs [inner]. *)
Inductive wraps : list string → list string → Prop :=
| wraps_timeout p os duration c args : named p "timeout" → options ["-k"; "-s"; "--kill-after"; "--signal"] os →
    dash duration = false → wraps (p :: os ++ duration :: c :: args) (c :: args)
| wraps_nice p os c args : named p "nice" → options ["-n"; "--adjustment"] os →
    dash c = false → wraps (p :: os ++ c :: args) (c :: args)
| wraps_ionice p os c args : named p "ionice" →
    options ["-c"; "-n"; "-p"; "-P"; "-u"; "--class"; "--classdata"; "--pid"; "--pgid"; "--uid"] os →
    dash c = false → wraps (p :: os ++ c :: args) (c :: args)
| wraps_chrt p os priority c args : named p "chrt" → options [] os →
    dash priority = false → wraps (p :: os ++ priority :: c :: args) (c :: args)
| wraps_stdbuf p os c args : named p "stdbuf" → options ["-i"; "-o"; "-e"] os →
    dash c = false → wraps (p :: os ++ c :: args) (c :: args)
| wraps_env p os c args : named p "env" → env_words os →
    dash c = false → ¬ assignment c → wraps (p :: os ++ c :: args) (c :: args)
| wraps_env_end p os c args : named p "env" → env_words os → wraps (p :: os ++ "--" :: c :: args) (c :: args).

Definition wrapper_names : list string := ["timeout"; "nice"; "ionice"; "chrt"; "stdbuf"; "env"].
Definition wrapper (ws : list string) : Prop := ∃ p args name, ws = p :: args ∧ name ∈ wrapper_names ∧ named p name.

(** Up to [n] wrappers around a command that is none. *)
Inductive peels : nat → list string → list string → Prop :=
| peels_last n outer inner : wraps outer inner → ¬ wrapper inner → peels (S n) outer inner
| peels_more n outer mid inner : wraps outer mid → peels n mid inner → peels (S n) outer inner.

(** A cluster of short options with a [c] among them. *)
Definition cluster (w : string) : Prop := ∃ a b, w = "-" +:+ a +:+ "c" +:+ b ∧ dash a = false.

(** An invocation of a shell that is handed a script: any words that are no such
    cluster, the first cluster, more options, and then the script, at once or
    behind the end of the options. *)
Inductive hands_script : list string → string → Prop :=
| hands p name before c after script args :
    named p name → name ∈ ["bash"; "sh"; "dash"; "zsh"; "ksh"] →
    Forall (λ w, ¬ cluster w) before → cluster c → Forall (λ w, dash w = true ∧ w ∉ ["-"; "--"]) after →
    dash script = false → hands_script (p :: before ++ c :: after ++ script :: args) script
| hands_end p name before c after e script args :
    named p name → name ∈ ["bash"; "sh"; "dash"; "zsh"; "ksh"] →
    Forall (λ w, ¬ cluster w) before → cluster c → Forall (λ w, dash w = true ∧ w ∉ ["-"; "--"]) after →
    e ∈ ["-"; "--"] → hands_script (p :: before ++ c :: after ++ e :: script :: args) script.

(** *** The code reads this grammar *)

Lemma split_pred_sep f c s t : f c = true → split_pred f (s +:+ String c t) = split_pred f s ++ split_pred f t.
Proof.
  intros Hc. induction s as [|d s IH]; rewrite ?str_app_nil_l, ?str_app_cons; cbn [split_pred]; [by rewrite Hc|].
  rewrite IH. destruct (f d); [done|]. destruct (split_pred f s) as [|w ws] eqn:E; [|done].
  destruct s; cbn in E; repeat case_match; done.
Qed.

Lemma split_pred_free f s : all_chars (λ c, negb (f c)) s = true → split_pred f s = [s].
Proof.
  induction s as [|c s IH]; cbn; [done|]. intros [Hc Hs]%andb_true_iff. apply negb_true_iff in Hc.
  by rewrite Hc, IH.
Qed.

(** A string has no separator, or a last one. *)
Lemma last_separator f s : all_chars (λ c, negb (f c)) s = true
  ∨ ∃ d c b, f c = true ∧ all_chars (λ c, negb (f c)) b = true ∧ s = d +:+ String c b.
Proof.
  induction s as [|c s [IH|(d & c' & b & Hc & Hb & ->)]]; [by left| |].
  - destruct (f c) eqn:Hc; [|left; cbn; by rewrite Hc, IH]. right. exists "", c, s. by rewrite str_app_nil_l.
  - right. exists (String c d), c', b. by rewrite str_app_cons.
Qed.

Lemma basename_sep dir c b : is_separator c = true → basename (dir +:+ String c b) = basename b.
Proof.
  intros Hc. unfold basename. rewrite split_pred_sep, last_app by done.
  destruct (last (split_pred is_separator b)) eqn:E; [done|].
  apply last_None in E. destruct b; cbn in E; repeat case_match; done.
Qed.

Lemma named_basename p name : named p name → all_chars (λ c, negb (is_separator c)) name = true → basename p = name.
Proof.
  intros [->|(dir & c & Hc & ->)] Hn; [|rewrite basename_sep by done]; unfold basename; by rewrite split_pred_free.
Qed.

Lemma basename_named p : named p (basename p).
Proof.
  destruct (last_separator is_separator p) as [Hp|(d & c & b & Hc & Hb & ->)].
  - left. unfold basename. by rewrite split_pred_free.
  - right. exists d, c. split; [done|]. rewrite basename_sep by done. unfold basename. by rewrite split_pred_free.
Qed.

Lemma skip_options_spec two rest : match rest with [] => True | w :: _ => dash w = false end →
  ∀ os, options two os → ∀ i, skip_options two (os ++ rest) i = i + length os.
Proof.
  intros Hrest os. induction 1 as [|o os Ho Hin _ IH|o v os Hin Ho _ IH]; intros i; cbn [app skip_options length].
  - rewrite Nat.add_0_r. destruct rest as [|w rest]; [done|]. cbn. unfold dash in Hrest. by rewrite Hrest.
  - unfold dash in Ho. rewrite Ho. apply contains_false in Hin. rewrite Hin, IH. lia.
  - unfold dash in Ho. rewrite Ho. apply contains_spec in Hin. rewrite Hin, IH. lia.
Qed.

Lemma find_behind name v : char_free "=" name = true → find "=" (name +:+ "=" +:+ v) = Some (String.length name).
Proof.
  unfold char_free. induction name as [|c name IH]; intros Hf; [by destruct v|].
  cbn in Hf. apply andb_true_iff in Hf as [Hc Hf]. rewrite str_app_cons. cbn [find String.length]. rewrite IH by done.
  rewrite starts_with_ne; [done|]. intros <-. discriminate Hc.
Qed.

Lemma letter_free c : letter c || is_ascii_digit c = true → Ascii.eqb "=" c = false.
Proof. destruct (Ascii.eqb_spec "=" c) as [<-|]; [|done]. vm_compute. discriminate. Qed.

Lemma identifier_free name : identifier name → char_free "=" name = true.
Proof.
  intros (c & r & -> & Hc & Hr). unfold char_free in *. cbn [all_chars]. rewrite letter_free by (by rewrite Hc). cbn [negb andb].
  eapply all_chars_impl; [|exact Hr]. intros d Hd. by rewrite letter_free.
Qed.

Lemma find_equals s n : find "=" s = Some n → ∃ v, s = take_bytes n s +:+ "=" +:+ v.
Proof.
  revert n. induction s as [|c s IH]; intros n; [done|]. cbn [find]. destruct (starts_with "=" (String c s)) eqn:E.
  - intros [= <-]. apply starts_with_spec in E as (t & E). by exists t.
  - destruct (find "=" s) as [k|]; [|done]. intros [= <-]. destruct (IH k eq_refl) as (v & Hv). exists v. cbn [take_bytes].
    rewrite str_app_cons. by f_equal.
Qed.

Lemma name_char c : is_ascii_alphabetic c || is_ascii_digit c || Ascii.eqb c "_" = letter c || is_ascii_digit c.
Proof. unfold letter. by destruct (is_ascii_alphabetic c), (is_ascii_digit c), (Ascii.eqb c "_"). Qed.

Lemma env_assignment_spec w : is_env_assignment w = true ↔ assignment w.
Proof.
  unfold is_env_assignment. split.
  - destruct (find "=" w) as [n|] eqn:E; [|done]. destruct (find_equals w n E) as (v & Hw).
    destruct (take_bytes n w) as [|c r] eqn:En; [done|]. intros [Hc Hr]%andb_true_iff.
    exists (String c r), v. split; [|done]. exists c, r. split_and!; [done|done|].
    cbn in Hr. apply andb_true_iff in Hr as [_ Hr]. eapply all_chars_impl; [|exact Hr]. intros d. cbn beta. by rewrite name_char.
  - intros (name & v & Hn & ->). rewrite find_behind by (by apply identifier_free). rewrite take_bytes_app.
    destruct Hn as (c & r & -> & Hc & Hr). cbn [String.append].
    rewrite (Hc : is_ascii_alphabetic c || Ascii.eqb c "_" = true). cbn [all_chars andb]. rewrite name_char, Hc. cbn [orb andb].
    eapply all_chars_impl; [|exact Hr]. intros d. cbn beta. by rewrite name_char.
Qed.

#[local] Ltac scan_word IH :=
  repeat rewrite str_app_cons; rewrite ?str_app_nil_l; cbn [env_scan_go]; cbn - [env_scan_go];
  repeat match goal with |- context [contains ?x ?l] =>
    let b := eval vm_compute in (contains x l) in change (contains x l) with b; cbn [orb] end;
  cbv iota; rewrite IH; lia.

Lemma env_scan_spec rest k : (∀ i ch, (env_scan_go rest i ch).2 = i + k) →
  ∀ os, env_words os → ∀ i ch, (env_scan_go (os ++ rest) i ch).2 = i + length os + k.
Proof.
  intros Hrest os. induction 1 as [|o os Ho _ IH|o v os Ho _ IH|o v os Ho _ IH|w os Hw _ IH]; intros i ch; cbn [app length].
  - rewrite Hrest. lia.
  - rewrite !elem_of_cons in Ho. destruct Ho as [->|[->|[->|[->|[->|[->|Ho]]]]]]; [..|by apply elem_of_nil in Ho];
      scan_word IH.
  - rewrite !elem_of_cons in Ho. destruct Ho as [->|[->|[->|[->|Ho]]]]; [..|by apply elem_of_nil in Ho];
      scan_word IH.
  - rewrite !elem_of_cons in Ho. destruct Ho as [->|[->|Ho]]; [..|by apply elem_of_nil in Ho];
      scan_word IH.
  - apply env_assignment_spec in Hw as Ha. cbn [env_scan_go]. destruct Hw as (name & v & (c & r & -> & Hc & _) & ->).
    rewrite str_app_cons in *. assert (Ascii.eqb "-" c = false) as Hd.
    { destruct (Ascii.eqb_spec "-" c) as [<-|]; [discriminate Hc|done]. }
    replace (String.eqb (String c (r +:+ "=" +:+ v)) "--") with false
      by (cbn; destruct (Ascii.eqb_spec c "-") as [->|]; done).
    rewrite starts_with_ne by (by apply Ascii.eqb_neq). rewrite andb_false_r, Ha, IH. lia.
Qed.

Lemma drop_after {A} (p : A) os rest n : drop (S (length os) + n) (p :: os ++ rest) = drop n rest.
Proof. cbn. rewrite skipn_app, skipn_all2 by lia. cbn. f_equal. lia. Qed.

Lemma wraps_strip outer inner : wraps outer inner → strip_wrapper_command outer = Some inner.
Proof.
  intros Hw.
  destruct Hw as [p os d c args Hp Ho Hd|p os c args Hp Ho Hd|p os c args Hp Ho Hd|p os d c args Hp Ho Hd|p os c args Hp Ho Hd
    |p os c args Hp Ho Hd Ha|p os c args Hp Ho];
    unfold strip_wrapper_command, env_scan; cbn [head mbind option_bind];
    rewrite (named_basename p _ Hp eq_refl); cbn [String.eqb Ascii.eqb Bool.eqb]; rewrite skipn_cons, drop_0.
  1,4: rewrite (skip_options_spec _ (d :: c :: args) Hd os Ho 1); cbn [length]; rewrite length_app; cbn [length];
    destruct (Nat.leb_spec (S (length os + S (S (length args)))) (1 + length os)) as [?|_]; [lia|]; cbv iota;
    change (S (1 + length os)) with (S (1 + length os)); replace (S (1 + length os)) with (S (length os) + 1) by lia;
    cbn [mbind option_bind]; by rewrite drop_after.
  1-3: rewrite (skip_options_spec _ (c :: args) Hd os Ho 1); replace (1 + length os) with (S (length os) + 0) by lia;
    cbn [mbind option_bind]; by rewrite drop_after.
  - rewrite (env_scan_spec (c :: args) 0); [|intros i ch; cbn [env_scan_go]|done].
    + replace (1 + length os + 0) with (S (length os) + 0) by lia. cbn [mbind option_bind]. by rewrite drop_after.
    + destruct (String.eqb_spec c "--") as [->|]; [discriminate Hd|]. unfold dash in Hd. rewrite Hd, andb_false_r.
      destruct (is_env_assignment c) eqn:E; [by apply env_assignment_spec in E|]. cbn. lia.
  - rewrite (env_scan_spec ("--" :: c :: args) 1); [|intros i ch; cbn; lia|done].
    replace (1 + length os + 1) with (S (length os) + 1) by lia. cbn [mbind option_bind]. by rewrite drop_after.
Qed.

Lemma not_wrapper_strip ws : ¬ wrapper ws → strip_wrapper_command ws = None.
Proof.
  intros Hn. destruct ws as [|p args]; [done|]. unfold strip_wrapper_command. cbn [head mbind option_bind].
  assert (∀ name, name ∈ wrapper_names → String.eqb (basename p) name = false) as He.
  { intros name Hin. destruct (String.eqb_spec (basename p) name) as [E|]; [|done]. destruct Hn.
    exists p, args, name. rewrite <- E. split_and!; [done|by rewrite E|apply basename_named]. }
  rewrite !He; [done|..]; unfold wrapper_names; set_solver.
Qed.

Lemma wraps_shorter outer inner : wraps outer inner → length inner < length outer.
Proof. destruct 1; cbn; rewrite length_app; cbn; lia. Qed.

Lemma peels_unwrap n outer inner : peels n outer inner → unwrap_go n outer = inner ∧ length inner < length outer.
Proof.
  induction 1 as [n outer inner Hw Hn|n outer mid inner Hw _ [<- IH]]; cbn; rewrite (wraps_strip _ _ Hw);
    apply wraps_shorter in Hw; (split; [|lia]); [|done]. destruct n; cbn; [done|]. by rewrite not_wrapper_strip.
Qed.

Lemma peels_form parsed inner : peels 8 (words parsed) inner → inner ∈ command_forms parsed.
Proof.
  intros [Hu Hl]%peels_unwrap. unfold command_forms, unwrap_wrappers. rewrite Hu.
  destruct (Nat.eqb_spec (length inner) (length (words parsed))); [lia|]. right. left.
Qed.

Lemma contains_char c w : str_contains (String c "") w = true ↔ ∃ a b, w = a +:+ String c b.
Proof.
  unfold str_contains. induction w as [|d w IH]; cbn [find].
  - split; [done|]. by intros ([] & b & ?).
  - destruct (starts_with (String c "") (String d w)) eqn:E.
    + split; [|done]. intros _. apply starts_with_spec in E as (t & E). rewrite E. exists "", t. by rewrite str_app_cons, !str_app_nil_l.
    + destruct (find (String c "") w) as [k|]; cbn in *.
      * split; [|done]. intros _. destruct (proj1 IH eq_refl) as (a & b & ->). exists (String d a), b. by rewrite str_app_cons.
      * split; [done|]. intros ([|e a] & b & Hw); [|apply IH; exists a, b; by injection Hw].
        rewrite str_app_nil_l in Hw. rewrite Hw, starts_with_cons, Ascii.eqb_refl in E. by destruct b.
Qed.

Lemma cluster_spec w : is_c_cluster w = true ↔ cluster w.
Proof.
  unfold is_c_cluster. split.
  - intros [[Hd Hn]%andb_true_iff Hc]%andb_true_iff. apply starts_with_spec in Hd as (r & ->).
    apply contains_char in Hc as (a & b & E). rewrite str_app_cons, str_app_nil_l in *.
    destruct a as [|d a]; [rewrite str_app_nil_l in E; discriminate|]. rewrite str_app_cons in E. injection E as <- ->.
    exists a, b. split; [by rewrite !str_app_cons, !str_app_nil_l|]. unfold dash. destruct a as [|e a]; [done|].
    rewrite str_app_cons in Hn. destruct (Ascii.eqb_spec "-" e) as [<-|Hne]; [discriminate Hn|by apply starts_with_ne].
  - intros (a & b & -> & Ha). rewrite !str_app_cons, !str_app_nil_l. apply andb_true_iff. split.
    + apply andb_true_iff. split; [done|]. unfold dash in Ha. destruct a as [|e a]; [done|]. rewrite str_app_cons.
      destruct (Ascii.eqb_spec "-" e) as [<-|Hne]; [discriminate Ha|].
      apply negb_true_iff. rewrite starts_with_cons, Ascii.eqb_refl. by apply starts_with_ne.
    + apply contains_char. exists (String "-" a), b. by rewrite str_app_cons.
Qed.

Lemma position_first {A} (f : A → bool) before x rest : Forall (λ y, f y = false) before → f x = true →
  position f (before ++ x :: rest) = Some (length before).
Proof.
  intros Hb Hx. induction Hb as [|y before Hy _ IH]; cbn; [by rewrite Hx|]. by rewrite Hy, IH.
Qed.

Lemma first_operand_after rest after : Forall (λ w, dash w = true ∧ w ∉ ["-"; "--"]) after →
  first_operand (after ++ rest) = first_operand rest.
Proof.
  induction 1 as [|w after [Hd Hn] _ IH]; [done|]. cbn. unfold dash in Hd. rewrite Hd, IH.
  destruct (String.eqb_spec w "--") as [->|]; [set_solver|]. destruct (String.eqb_spec w "-") as [->|]; [set_solver|done].
Qed.

Lemma shell_names p name (x : option string) : named p name → name ∈ ["bash"; "sh"; "dash"; "zsh"; "ksh"] →
  (if contains (basename p) ["bash"; "sh"; "dash"; "zsh"; "ksh"] then x else None) = x.
Proof.
  intros Hp Hin. rewrite (named_basename p name Hp); [by rewrite (proj2 (contains_spec _ _) Hin)|].
  rewrite !elem_of_cons in Hin. by destruct Hin as [->|[->|[->|[->|[->|?%elem_of_nil]]]]].
Qed.

Lemma dash_c_after p name before c rest :
  named p name → name ∈ ["bash"; "sh"; "dash"; "zsh"; "ksh"] → Forall (λ w, ¬ cluster w) before → cluster c →
  shell_dash_c_script (p :: before ++ c :: rest) = first_operand rest.
Proof.
  intros Hp Hin Hb Hc. unfold shell_dash_c_script. cbn [head mbind option_bind]. rewrite (shell_names p name) by done.
  rewrite skipn_cons, drop_0, position_first; [|eapply Forall_impl; [exact Hb|]|by apply cluster_spec].
  - cbn [mbind option_bind]. replace (length before + 2) with (S (length before) + 1) by lia. by rewrite drop_after.
  - intros w Hw. cbn. apply not_true_iff_false. by rewrite cluster_spec.
Qed.

Lemma hands_script_read ws script : hands_script ws script → shell_dash_c_script ws = Some script.
Proof.
  destruct 1 as [p name before c after script args Hp Hin Hb Hc Ha Hs|p name before c after e script args Hp Hin Hb Hc Ha He];
    rewrite (dash_c_after p name), first_operand_after by done; cbn.
  - unfold dash in Hs. rewrite Hs.
    destruct (String.eqb_spec script "--") as [->|]; [done|]. by destruct (String.eqb_spec script "-") as [->|].
  - rewrite !elem_of_cons in He. by destruct He as [->|[->|?%elem_of_nil]].
Qed.

Section judging.
Context `{Globs, Urls}.

(** ** One access *)

Definition hits_in (rs : list CompiledRule) (access : AccessKind) (a : RuleAction) : Prop :=
  ∃ cr, cr ∈ rs ∧ rule_matches access cr = true ∧ action cr.1 = a.
Definition hits (p : CompiledPolicy) : AccessKind → RuleAction → Prop := hits_in (compiled p).

Lemma hits_cons cr rs access a :
  hits_in (cr :: rs) access a ↔ (rule_matches access cr = true ∧ action cr.1 = a) ∨ hits_in rs access a.
Proof.
  unfold hits_in. setoid_rewrite elem_of_cons. split; [intros (x & [->|] & ?); eauto|intros [|(x & ? & ?)]; eauto].
Qed.

Lemma evaluate_go_spec access rs : ∀ asked allowed,
  match evaluate_go rs access asked allowed with
  | Some (Reject r) => ∃ cr, cr ∈ rs ∧ rule_matches access cr = true ∧ action cr.1 = RuleDeny ∧ r = deny_reason cr.1
  | Some Ask => ¬ hits_in rs access RuleDeny ∧ (asked = true ∨ hits_in rs access RuleAsk)
  | Some Allow => ¬ hits_in rs access RuleDeny ∧ asked = false ∧ ¬ hits_in rs access RuleAsk
                  ∧ (allowed = true ∨ hits_in rs access RuleAllow)
  | None => ¬ hits_in rs access RuleDeny ∧ asked = false ∧ ¬ hits_in rs access RuleAsk ∧ allowed = false
            ∧ ¬ hits_in rs access RuleAllow
  | _ => False
  end.
Proof.
  induction rs as [|cr rs IH]; intros asked allowed; cbn [evaluate_go].
  { assert (∀ a, ¬ hits_in [] access a) by (intros a (cr & Hcr%not_elem_of_nil & _); done).
    destruct asked, allowed; auto 8. }
  destruct (rule_matches access cr) eqn:Hm; [destruct (action cr.1) eqn:Ha|].
  - specialize (IH asked true). destruct (evaluate_go rs access asked true) as [[]|]; rewrite ?hits_cons; try done; [| |destruct IH as (x & ? & ?); exists x; split; [by right|done]|]; intuition congruence.
  - exists cr. split; [left|done].
  - specialize (IH true allowed). destruct (evaluate_go rs access true allowed) as [[]|]; rewrite ?hits_cons; try done; [| |destruct IH as (x & ? & ?); exists x; split; [by right|done]|]; intuition congruence.
  - specialize (IH asked allowed). destruct (evaluate_go rs access asked allowed) as [[]|]; rewrite ?hits_cons; try done; [| |destruct IH as (x & ? & ?); exists x; split; [by right|done]|]; intuition congruence.
Qed.

Lemma evaluate_spec p access :
  match evaluate p access with
  | Some (Reject r) => ∃ cr, cr ∈ compiled p ∧ rule_matches access cr = true ∧ action cr.1 = RuleDeny ∧ r = deny_reason cr.1
  | Some Ask => ¬ hits p access RuleDeny ∧ hits p access RuleAsk
  | Some Allow => ¬ hits p access RuleDeny ∧ ¬ hits p access RuleAsk ∧ hits p access RuleAllow
  | None => ¬ hits p access RuleDeny ∧ ¬ hits p access RuleAsk ∧ ¬ hits p access RuleAllow
  | _ => False
  end.
Proof.
  unfold evaluate. pose proof (evaluate_go_spec access (compiled p) false false) as Hs.
  destruct (evaluate_go _ _ _ _) as [[]|]; try done; unfold hits; intuition congruence.
Qed.

Lemma reject_hits p access : is_reject (evaluate p access) = true ↔ hits p access RuleDeny.
Proof.
  pose proof (evaluate_spec p access) as Hs. destruct (evaluate p access) as [[]|]; cbn; try done; try (split; [done|tauto]).
  split; [intros _|done]. destruct Hs as (cr & ? & ? & ? & _). exists cr. auto.
Qed.

Lemma verdict_spec p access :
  (is_reject (evaluate p access) = true ↔ hits p access RuleDeny)
  ∧ (evaluate p access = Some Ask ↔ ¬ hits p access RuleDeny ∧ hits p access RuleAsk)
  ∧ (evaluate p access = Some Allow ↔ ¬ hits p access RuleDeny ∧ ¬ hits p access RuleAsk ∧ hits p access RuleAllow)
  ∧ (evaluate p access = None ↔ ∀ a, ¬ hits p access a).
Proof.
  split; [apply reject_hits|]. pose proof (evaluate_spec p access) as Hs. pose proof (reject_hits p access) as Hr.
  destruct (evaluate p access) as [[]|]; cbn in *; try done.
  - intuition (try congruence). exfalso. eauto.
  - intuition (try congruence). exfalso. eauto.
  - assert (hits p access RuleDeny) by (by apply Hr). intuition (try congruence). exfalso. eauto.
  - intuition (try congruence). destruct a; auto.
Qed.

Lemma evaluate_escalates p access : escalating (escalation (evaluate p access)).
Proof.
  apply escalation_escalating. intros x Hx. pose proof (evaluate_spec p access) as Hs. rewrite Hx in Hs.
  destruct x; cbn; auto; done.
Qed.

Lemma escalation_reject d r : escalation d = Some (Reject r) ↔ d = Some (Reject r).
Proof. destruct d as [[]|]; cbn; split; congruence. Qed.
Lemma escalation_ask d : escalation d = Some Ask ↔ d = Some Ask.
Proof. destruct d as [[]|]; cbn; split; congruence. Qed.

(** What a rule that matched a shell command or a file says of the policy. *)
Lemma restricted_by (config : PermissionConfig) access filters a :
  (a = RuleDeny ∨ a = RuleAsk) → (∀ f, tool_filter_matches access f = true → f ∈ filters) →
  hits (policy_new config) access a → any (λ r, restricts r filters) (rules config) = true.
Proof.
  intros Ha Hf (cr & (rule & -> & Hin)%list_elem_of_fmap & Hm & Hact). apply any_spec. exists rule. split; [done|].
  unfold restricts, rule_matches in *. apply andb_true_iff in Hm as [Ht _]. cbn [fst compile_rule] in *.
  apply andb_true_iff. split; [apply bool_decide_eq_true; by rewrite Hact|]. apply contains_spec. auto.
Qed.

(** Deny beats ask beats allow, whatever the order of the rules: a policy
    rejects exactly when a deny rule matches, giving that rule's reason; asks
    exactly when none denies and one asks; allows exactly when an allow rule is
    all that matches; and has no opinion otherwise. *)
Lemma deny_beats_ask_beats_allow (p : CompiledPolicy) (access : AccessKind) :
  (is_reject (evaluate p access) = true ↔ hits p access RuleDeny)
  ∧ (∀ r, evaluate p access = Some (Reject r) →
       ∃ cr, cr ∈ compiled p ∧ rule_matches access cr = true ∧ action cr.1 = RuleDeny ∧ r = deny_reason cr.1)
  ∧ (evaluate p access = Some Ask ↔ ¬ hits p access RuleDeny ∧ hits p access RuleAsk)
  ∧ (evaluate p access = Some Allow ↔ ¬ hits p access RuleDeny ∧ ¬ hits p access RuleAsk ∧ hits p access RuleAllow)
  ∧ (evaluate p access = None ↔ ∀ a, ¬ hits p access a)
  ∧ ∀ p', compiled p' ≡ₚ compiled p → rank (evaluate p' access) = rank (evaluate p access).
Proof.
  split_and!.
  - apply reject_hits.
  - intros r Hr. pose proof (evaluate_spec p access) as Hs. by rewrite Hr in Hs.
  - by pose proof (verdict_spec p access) as (_ & ? & _).
  - by pose proof (verdict_spec p access) as (_ & _ & ? & _).
  - by pose proof (verdict_spec p access) as (_ & _ & _ & ?).
  - intros p' Hp. assert (∀ a, hits p' access a ↔ hits p access a) as Hsame by (intros a; unfold hits, hits_in; by setoid_rewrite Hp).
    pose proof (verdict_spec p access) as (Hr & Ha & Hl & Hn). pose proof (verdict_spec p' access) as (Hr' & Ha' & Hl' & Hn').
    pose proof (Hsame RuleDeny). pose proof (Hsame RuleAsk). pose proof (Hsame RuleAllow).
    pose proof (evaluate_spec p access). pose proof (evaluate_spec p' access).
    clear Hn Hn' Hsame. destruct (evaluate p access) as [[]|], (evaluate p' access) as [[]|]; cbn in *; try done; exfalso; intuition congruence.
Qed.

(** ** A script *)

Context `{ShellParser}.

Definition forms_of (cmd : string) : list (list string) :=
  match all_commands_from_script cmd with
  | Some segments => concat (map command_forms segments)
  | None => []
  end.

(** The commands a script comes to, down to a depth of nesting: the words of a
    chained command, as written and without its wrappers, and what a script that
    one of them hands to a shell comes to. *)
Inductive runs : nat → string → list string → Prop :=
| runs_here n cmd ws : ws ∈ forms_of cmd → runs (S n) cmd ws
| runs_inside n cmd outer inner ws :
    outer ∈ forms_of cmd → shell_dash_c_script outer = Some inner → runs n inner ws → runs (S n) cmd ws.

(** A script that cannot be taken apart, or is nested too deep. *)
Inductive unreadable : nat → string → Prop :=
| unreadable_deep cmd : unreadable 0 cmd
| unreadable_script n cmd : all_commands_from_script cmd = None → unreadable (S n) cmd
| unreadable_inside n cmd outer inner :
    outer ∈ forms_of cmd → shell_dash_c_script outer = Some inner → unreadable n inner → unreadable (S n) cmd.

Definition judge (p : CompiledPolicy) (ws : list string) : option Decision := escalation (evaluate p (Bash (join " " ws))).
Definition judge_form (p : CompiledPolicy) (n : nat) (ws : list string) : option Decision :=
  match shell_dash_c_script ws with
  | Some inner => combine_decisions (judge p ws) (evaluate_bash_command_segments p n inner)
  | None => judge p ws
  end.

Lemma segments_fold p n cmd :
  evaluate_bash_command_segments p (S n) cmd =
  match all_commands_from_script cmd with
  | None => Some Ask
  | Some _ => foldl (λ d ws, combine_decisions d (judge_form p n ws)) None (forms_of cmd)
  end.
Proof.
  cbn. unfold forms_of. destruct (all_commands_from_script cmd) as [segs|]; [|done].
  generalize (@None Decision) as d. induction (concat (map command_forms segs)) as [|ws l IH]; intros d; [done|]. cbn.
  rewrite IH. f_equal. unfold judge_form, judge. destruct (shell_dash_c_script ws); [|done]. by rewrite combine_assoc.
Qed.

Lemma segments_escalating p n : ∀ cmd, escalating (evaluate_bash_command_segments p n cmd).
Proof.
  induction n as [|n IH]; intros cmd; [done|]. rewrite segments_fold. destruct (all_commands_from_script cmd); [|done].
  apply fold_rank; [|done]. intros ws. unfold judge_form, judge.
  destruct (shell_dash_c_script ws); auto using combine_escalating, evaluate_escalates.
Qed.

Lemma judge_form_escalating p n ws : escalating (judge_form p n ws).
Proof.
  unfold judge_form, judge. destruct (shell_dash_c_script ws); auto using combine_escalating, evaluate_escalates, segments_escalating.
Qed.

Lemma judge_form_rank p n ws k :
  k ≤ rank (judge_form p n ws) ↔
  k ≤ rank (judge p ws) ∨ (∃ inner, shell_dash_c_script ws = Some inner ∧ k ≤ rank (evaluate_bash_command_segments p n inner)).
Proof.
  unfold judge_form. destruct (shell_dash_c_script ws) as [inner|]; [|naive_solver].
  rewrite combine_rank, Nat.max_le_iff by (apply evaluate_escalates || apply segments_escalating). naive_solver.
Qed.

(** How strong the judgement of a script is. *)
Lemma segments_rank p n k : 1 ≤ k → ∀ cmd,
  k ≤ rank (evaluate_bash_command_segments p n cmd) ↔
  (k ≤ 2 ∧ unreadable n cmd) ∨ (∃ ws, runs n cmd ws ∧ k ≤ rank (judge p ws)).
Proof.
  intros Hk. induction n as [|n IH]; intros cmd.
  { cbn. split; [intros ?; left; split; [done|constructor]|]. intros [[? _]|(ws & Hr & _)]; [done|inv Hr]. }
  rewrite segments_fold. destruct (all_commands_from_script cmd) as [segs|] eqn:Hc.
  2:{ split; [intros ?; left; split; [done|by constructor]|]. intros [[? _]|(ws & Hr & _)]; [done|].
      assert (forms_of cmd = []) as Hno by (unfold forms_of; by rewrite Hc).
      inv Hr; match goal with Hin : _ ∈ forms_of cmd |- _ => rewrite Hno in Hin; by apply not_elem_of_nil in Hin end. }
  destruct (fold_rank (judge_form p n) (judge_form_escalating p n) (forms_of cmd) None I) as [_ Hf]. rewrite Hf. clear Hf.
  setoid_rewrite judge_form_rank. setoid_rewrite IH. split.
  - intros [?|(ws & Hin & [Hj|(inner & Hi & [[? Hu]|(ws' & Hr & Hj)])])].
    + cbn in *. lia.
    + right. exists ws. split; [by constructor|done].
    + left. split; [done|]. by eapply unreadable_inside.
    + right. exists ws'. split; [by eapply runs_inside|done].
  - intros [[? Hu]|(ws & Hr & Hj)].
    + inv Hu. right. eexists. split; [done|]. right. eexists. split; [done|]. by left.
    + inv Hr.
      * right. eexists. split; [done|]. by left.
      * right. eexists. split; [done|]. right. eexists. split; [done|]. right. by eexists.
Qed.

Lemma judge_reject p ws : is_reject (judge p ws) = is_reject (evaluate p (Bash (join " " ws))).
Proof. unfold judge. by destruct (evaluate p _) as [[]|]. Qed.

(** A policy without a deny or an ask for shell commands has none that hits. *)
Lemma unrestricted_bash (config : PermissionConfig) cmd :
  has_bash_command_restrictions (policy_new config) = false → judge (policy_new config) [cmd] = None.
Proof.
  intros Hno. unfold judge. assert (join " " [cmd] = cmd) as -> by done.
  assert (∀ a, a = RuleDeny ∨ a = RuleAsk → ¬ hits (policy_new config) (Bash cmd) a) as Hhit.
  { intros a Ha Hh. eapply restricted_by in Hh; [|done|].
    - cbn in Hno. rewrite Hno in Hh. done.
    - intros []; cbn; done || set_solver. }
  pose proof (evaluate_spec (policy_new config) (Bash cmd)) as Hs.
  destruct (evaluate (policy_new config) (Bash cmd)) as [[]|]; cbn; try done; exfalso.
  - apply (Hhit RuleAsk); [by right|exact (proj2 Hs)].
  - destruct Hs as (cr & ? & ? & ? & _). apply (Hhit RuleDeny); [by left|]. exists cr. auto.
Qed.

Lemma script_escalating p cmd : escalating (evaluate_bash_command_policy p cmd).
Proof. unfold evaluate_bash_command_policy. destruct (has_bash_command_restrictions p); [apply segments_escalating|done]. Qed.

Lemma unrestricted_script (config : PermissionConfig) ws :
  has_bash_command_restrictions (policy_new config) = false → judge (policy_new config) ws = None.
Proof. intros Hno. exact (unrestricted_bash config (join " " ws) Hno). Qed.

Lemma escalating_strongest d : escalating d → is_reject d = true ↔ 3 ≤ rank d.
Proof. destruct d as [[]|]; cbn; split; intros; try done; lia. Qed.

Lemma escalating_silent d : escalating d → d = None ↔ ¬ 1 ≤ rank d.
Proof. destruct d as [[]|]; cbn; split; intros; try done; lia. Qed.

(** A script is rejected for one of the commands it comes to. *)
Lemma script_reject (config : PermissionConfig) cmd :
  is_reject (evaluate_bash_command_policy (policy_new config) cmd) = true ↔
  ∃ ws, runs 8 cmd ws ∧ is_reject (evaluate (policy_new config) (Bash (join " " ws))) = true.
Proof.
  setoid_rewrite <-judge_reject. unfold evaluate_bash_command_policy.
  destruct (has_bash_command_restrictions (policy_new config)) eqn:Hflag.
  - rewrite escalating_strongest, segments_rank by (lia || apply segments_escalating).
    setoid_rewrite escalating_strongest; [|apply evaluate_escalates]. split; [intros [[? _]|?]; [lia|done]|by right].
  - split; [done|]. intros (ws & _ & Hr). by rewrite unrestricted_script in Hr.
Qed.

(** A script is rejected exactly when one of the commands the code makes out in
    it is denied; when the judgement stays silent, none of them is denied or asked
    about, and, under a policy that restricts shell commands, all of it could be
    read. The judgement never allows. *)
Lemma script_judged_by_its_parts (config : PermissionConfig) (cmd : string) :
  let p := policy_new config in
  let d := evaluate_bash_command_policy p cmd in
  escalating d
  ∧ (is_reject d = true ↔ ∃ ws, runs 8 cmd ws ∧ hits p (Bash (join " " ws)) RuleDeny)
  ∧ (d = None ↔ (has_bash_command_restrictions p = true → ¬ unreadable 8 cmd)
                ∧ ∀ ws, runs 8 cmd ws → escalation (evaluate p (Bash (join " " ws))) = None).
Proof.
  intros p d. split; [apply script_escalating|]. split; [subst d p; rewrite script_reject; by setoid_rewrite reject_hits|].
  unfold d, evaluate_bash_command_policy. destruct (has_bash_command_restrictions p) eqn:Hflag.
  - rewrite escalating_silent, segments_rank by (lia || apply segments_escalating). split.
    + intros Hno. split; [intros _ Hu; apply Hno; left; split; [lia|done]|].
      intros ws Hw. apply escalating_silent; [apply evaluate_escalates|]. intros Hj. apply Hno. right. by exists ws.
    + intros [Hu Hno] [[_ ?]|(ws & Hw & Hj)]; [by apply Hu|]. unfold judge in Hj. rewrite Hno in Hj by done. cbn in Hj. lia.
  - split; [|done]. intros _. split; [done|]. intros ws _. by apply unrestricted_script.
Qed.

(** A plain command of a script, as it stands or behind its wrappers. *)
Definition holds_command (script : string) (ws : list string) : Prop :=
  ∃ segments parsed, all_commands_from_script script = Some segments ∧ parsed ∈ segments
    ∧ (ws = words parsed ∨ peels 8 (words parsed) ws).

(** The scripts behind [n] shells that are each handed a script. *)
Inductive reaches : nat → string → string → Prop :=
| reaches_self cmd : reaches 0 cmd cmd
| reaches_more n cmd outer mid script :
    holds_command cmd outer → hands_script outer mid → reaches n mid script → reaches (S n) cmd script.

Lemma holds_form cmd ws : holds_command cmd ws → ws ∈ forms_of cmd.
Proof.
  intros (segs & parsed & Hs & Hin & Hw). unfold forms_of. rewrite Hs. apply list_elem_of_In, in_concat.
  exists (command_forms parsed). split; [apply in_map; by apply list_elem_of_In|apply list_elem_of_In].
  destruct Hw as [->|Hw]; [left|by apply peels_form].
Qed.

Lemma reaches_judged n cmd script : reaches n cmd script → ∀ k,
  (k ≤ n → unreadable k cmd)
  ∧ (n < k → (∀ ws, holds_command script ws → runs k cmd ws) ∧ (all_commands_from_script script = None → unreadable k cmd)).
Proof.
  induction 1 as [cmd|n cmd outer mid script Ho%holds_form Hh%hands_script_read _ IH]; intros [|k].
  - split; [constructor|lia].
  - split; [lia|]. intros _. split; [intros ws Hw; by apply runs_here, holds_form|by constructor].
  - split; [constructor|lia].
  - destruct (IH k) as [Hdeep Hin]. split.
    + intros Hk. eapply unreadable_inside; [done..|]. apply Hdeep. lia.
    + intros Hk. destruct (Hin ltac:(lia)) as [Hr Hu]. split.
      * intros ws Hw. eapply runs_inside; [done..|by apply Hr].
      * intros Hs. eapply unreadable_inside; [done..|by apply Hu].
Qed.

Lemma hit_rank p ws a : a ≠ RuleAllow → hits p (Bash (join " " ws)) a → (if decide (a = RuleDeny) then 3 else 2) ≤ rank (judge p ws).
Proof.
  intros Ha Hh. unfold judge. destruct (verdict_spec p (Bash (join " " ws))) as (Hr & Hk & _).
  destruct (is_reject (evaluate p (Bash (join " " ws)))) eqn:E.
  - destruct (evaluate p _) as [[]|]; try done. case_decide; cbn; lia.
  - assert (¬ hits p (Bash (join " " ws)) RuleDeny) as Hn by (intros Hd%Hr; congruence).
    destruct a; [done|by destruct Hn|]. by rewrite (proj2 Hk (conj Hn Hh)).
Qed.

Lemma escalating_some d : escalating d → 1 ≤ rank d → d ≠ None.
Proof. intros _ Hd ->. cbn in Hd. lia. Qed.

(** C19: A command does not hide from a rule behind a chain, a wrapper or a
    nested shell. Take any script reached from the command through [n] shells
    that are each handed a script (bash, sh, dash, zsh or ksh with -c), where
    every shell, like the command itself, is a plain command of a chain, bare or
    behind up to eight of timeout, nice, ionice, chrt, stdbuf and env, all in the
    spellings of [wraps] and [hands_script]. If a deny rule hits one of its
    commands, bare or unwrapped, the whole is rejected when n is less than 8 and
    at least asked about beyond; if an ask rule hits one, or the policy restricts
    shell commands and the script is no chain of plain commands, it is at least
    asked about. The judgement never allows. (The spellings are stated on their
    own, not by the code's functions. Not among them, and indeed missed: env with
    a lone "-" or with -S, [env_dash_is_taken_for_the_command] and
    [split_string_is_dropped]; a shell option with an argument behind the -c
    cluster, the residual the source names.) *)
Theorem no_command_hides_from_a_rule (config : PermissionConfig) (n : nat) (cmd script : string) :
  reaches n cmd script →
  let p := policy_new config in
  let d := evaluate_bash_command_policy p cmd in
  escalating d
  ∧ (∀ ws, holds_command script ws → hits p (Bash (join " " ws)) RuleDeny → (n < 8 → is_reject d = true) ∧ d ≠ None)
  ∧ (∀ ws, holds_command script ws → hits p (Bash (join " " ws)) RuleAsk → d ≠ None)
  ∧ (has_bash_command_restrictions p = true → all_commands_from_script script = None → d ≠ None).
Proof.
  intros Hreach p d. destruct (reaches_judged _ _ _ Hreach 8) as [Hdeep Hin]. split; [apply script_escalating|].
  assert (∀ k, 1 ≤ k → has_bash_command_restrictions p = true →
            (k ≤ 2 ∧ unreadable 8 cmd) ∨ (∃ ws, runs 8 cmd ws ∧ k ≤ rank (judge p ws)) → k ≤ rank d) as Hrank.
  { intros k Hk Hp Hw. unfold d, evaluate_bash_command_policy. rewrite Hp. by apply segments_rank. }
  assert (∀ ws a, a ≠ RuleAllow → hits p (Bash (join " " ws)) a → has_bash_command_restrictions p = true) as Hres.
  { intros ws a Ha Hh. apply not_false_iff_true. intros E. apply (hit_rank p ws a Ha) in Hh.
    unfold p in *. rewrite unrestricted_script in Hh by done. case_decide; cbn in Hh; lia. }
  assert (∀ ws a, a ≠ RuleAllow → holds_command script ws → hits p (Bash (join " " ws)) a →
            2 ≤ rank d ∧ (n < 8 → a = RuleDeny → 3 ≤ rank d)) as Hboth.
  { intros ws a Ha Hws Hh. pose proof (Hres ws a Ha Hh) as Hp. apply (hit_rank p ws a Ha) in Hh. split.
    - apply Hrank; [lia|done|]. destruct (decide (n < 8)) as [Hn|Hn]; [right|left; split; [lia|apply Hdeep; lia]].
      exists ws. split; [by apply Hin|]. revert Hh. case_decide; lia.
    - intros Hn ->. apply Hrank; [lia|done|]. right. exists ws. split; [by apply Hin|exact Hh]. }
  assert (escalating d) as He by apply script_escalating. split_and!.
  - intros ws Hws Hh. destruct (Hboth ws RuleDeny) as [H2 H3]; [done..|].
    split; [intros Hn; apply escalating_strongest; auto|apply escalating_some; [done|lia]].
  - intros ws Hws Hh. destruct (Hboth ws RuleAsk) as [H2 _]; [done..|]. apply escalating_some; [done|lia].
  - intros Hp Hs. apply escalating_some; [done|]. apply Hrank; [lia|done|]. left. split; [lia|].
    destruct (decide (n < 8)) as [Hn|Hn]; [by apply Hin|apply Hdeep; lia].
Qed.
End judging.

(** A lone dash ends the scan of [env]'s options, which to [env] itself is one of
    them, and the command line in the argument of [-S] is dropped: what the two
    run is not judged. *)
Example env_dash_is_taken_for_the_command :
  unwrap_wrappers ["env"; "-"; "rm"; "-rf"; "/"] = ["-"; "rm"; "-rf"; "/"]
  ∧ unwrap_wrappers ["env"; "-i"; "rm"; "-rf"; "/"] = ["rm"; "-rf"; "/"].
Proof. split; reflexivity. Qed.
Example split_string_is_dropped : unwrap_wrappers ["env"; "-S"; "rm -rf /"] = ["env"; "-S"; "rm -rf /"].
Proof. reflexivity. Qed.

Import Demo.

(** [rm] behind [nice], in a script that [bash] is handed behind [env]. *)
Lemma no_command_hides_from_a_rule_witness :
  is_reject (evaluate_bash_command_policy (policy_new Demo.config) "/usr/bin/env FOO=1 bash -lc 'nice -n 5 rm'") = true.
Proof.
  assert (holds_command Demo.outer ["bash"; "-lc"; "nice -n 5 rm"]) as Hout.
  { do 2 eexists. split; [vm_compute; reflexivity|]. split; [left|]. right. apply peels_last.
    - apply (wraps_env "/usr/bin/env" ["FOO=1"] "bash" ["-lc"; "nice -n 5 rm"]); [right|..|reflexivity|].
      + exists "/usr/bin", "/"%char. split; reflexivity.
      + apply env_assign; [|constructor]. apply env_assignment_spec. reflexivity.
      + rewrite <- env_assignment_spec. discriminate.
    - intros (p & args & name & [= <- <-] & Hin & Hp). apply named_basename in Hp; [|by repeat (apply elem_of_cons in Hin as [->|Hin]; [reflexivity|]); apply elem_of_nil in Hin].
      subst name. vm_compute in Hin. repeat (apply elem_of_cons in Hin as [Hin|Hin]; [discriminate Hin|]). by apply elem_of_nil in Hin. }
  assert (hands_script ["bash"; "-lc"; "nice -n 5 rm"] Demo.inner) as Hh.
  { apply (hands "bash" "bash" [] "-lc" [] Demo.inner []); [by left|left|constructor| |constructor|reflexivity].
    exists "l", "". split; reflexivity. }
  assert (holds_command Demo.inner ["rm"]) as Hin.
  { do 2 eexists. split; [vm_compute; reflexivity|]. split; [left|]. right. apply peels_last.
    - apply (wraps_nice "nice" ["-n"; "5"] "rm" []); [by left| |reflexivity]. apply options_arg; [left|reflexivity|constructor].
    - intros (p & args & name & [= <- <-] & Hin & Hp). apply named_basename in Hp; [|by repeat (apply elem_of_cons in Hin as [->|Hin]; [reflexivity|]); apply elem_of_nil in Hin].
      subst name. vm_compute in Hin. repeat (apply elem_of_cons in Hin as [Hin|Hin]; [discriminate Hin|]). by apply elem_of_nil in Hin. }
  destruct (no_command_hides_from_a_rule Demo.config 1 Demo.outer Demo.inner) as (_ & Hd & _).
  - eapply reaches_more; [exact Hout|exact Hh|constructor].
  - apply (Hd ["rm"] Hin); [|lia]. exists (compile_rule (mkRule RuleDeny ForBash (Some "rm") GlobMode)).
    split; [right; left|]. split; vm_compute; reflexivity.
Defined.
