(* ===== verification/ShellAccessFacts.v ===== *)
(** * Files a shell command touches: what the judgement promises

    A file that a rule denies cannot be reached through a redirect or through an
    operand of a known command, however the path is spelled and whatever links
    are on the way. And what counts as writing a file, by the manuals of the
    known programs, is found by the code. *)

From Stdlib Require Import Ascii String.
From S2P Require Import Prelude RustStr PermTypes ShellTree PermPolicy ShellAccess AutoMode TrimLemmas PermPolicyFacts.
From stdpp Require Import options.

(** ** What a script touches *)

Definition redirect_operands (rs : list Redirect) : list (string * ShellFileMode) :=
  omap (λ r, (λ path, (path, rd_mode r)) <$> rd_path r) rs.

(** The files an invocation names, by the program it runs. *)
Definition named_operands (program : string) (ws : list string) : list (string * ShellFileMode) :=
  special_file_operands program ws
  ++ if String.eqb program "dd" then []
     else match shell_path_command_operands program ws with
          | Some operands => operands
          | None =>
              match operand_modes program ws with
              | Some modes => concat (map (λ token, map (λ mode, (token, mode)) modes) (shell_file_candidates ws))
              | None => []
              end
          end.

Definition invocation_operands (i : Invocation) : list (string * ShellFileMode) :=
  let ws := unwrap_wrappers (inv_words i) in
  match head ws with
  | None => []
  | Some w =>
      let program := to_ascii_lowercase (shell_program_name w) in
      if String.eqb program "cd" then [] else named_operands program ws
  end.

Definition touches (tree : Tree) (cmd : string) : list (string * ShellFileMode) :=
  redirect_operands (shell_redirect_targets (root_node tree) cmd)
  ++ concat (map invocation_operands (shell_command_invocations (root_node tree) cmd)).

Section readings.
Context `{Links}.

Definition in_cwd (normal : string → string) (cwd path : string) : string :=
  if is_absolute_shell_path path then path else normal (path_join cwd path).

(** The file behind a word: as written, from the working directory, and where
    the links on the way lead. *)
Inductive reading (cwd token : string) : string → Prop :=
| as_written : reading cwd token (normalize_shell_path token)
| from_cwd : reading cwd token (in_cwd normalize_shell_path cwd (normalize_shell_path token))
| through_links r :
    resolve_symlink_target (in_cwd normalize_shell_path_raw cwd (normalize_shell_path_raw token)) = Some r →
    reading cwd token r.

(** The links on the way of a word can be followed. *)
Definition links_settled (cwd token : string) : Prop :=
  let raw := in_cwd normalize_shell_path_raw cwd (normalize_shell_path_raw token) in
  path_has_symlink raw = true → is_Some (resolve_symlink_target raw).
End readings.

(** ** Folding findings *)

Section findings.
Context `{Globs, Urls, Links, ShellParser}.
Implicit Types (p : CompiledPolicy) (f : Finding).

#[local] Abbreviation judged p cwd := (foldl (λ a e, combine_decisions a (evaluate_shell_path p cwd e.1 e.2))).

Lemma operands_fold p cwd l : ∀ f,
  foldl (judge_operand p cwd) f l = (judged p cwd f.1 l, f.2 || any (λ e, shell_arg_is_ambiguous e.1) l).
Proof.
  induction l as [|e l IH]; intros f; cbn; [by destruct f; rewrite orb_false_r|]. by rewrite IH, orb_assoc.
Qed.

Lemma redirects_fold p cwd cc rs : ∀ f,
  (foldl (judge_redirect p cwd cc) f rs).1 = judged p cwd f.1 (redirect_operands rs)
  ∧ ((foldl (judge_redirect p cwd cc) f rs).2 = false → f.2 = false ∧ ∀ r, r ∈ rs → rd_ambiguous r = false).
Proof.
  induction rs as [|r rs IH]; intros f; cbn.
  - split; [done|]. intros ->. split; [done|]. by intros r Hr%not_elem_of_nil.
  - destruct (IH (judge_redirect p cwd cc f r)) as [-> Hnext]. unfold judge_redirect in *. split.
    + by destruct (rd_path r).
    + intros [Hf Hrs]%Hnext. setoid_rewrite elem_of_cons.
      destruct (rd_path r); cbn in Hf; rewrite !orb_false_iff in Hf; split; [tauto| |tauto|]; intros ? [->|?]; auto; tauto.
Qed.

Lemma invocation_fold p cwd cc failed f i :
  (judge_invocation p cwd cc failed f i).1 = judged p cwd f.1 (invocation_operands i)
  ∧ ((judge_invocation p cwd cc failed f i).2 = false →
     f.2 = false ∧ any (λ e, shell_arg_is_ambiguous e.1) (invocation_operands i) = false).
Proof.
  unfold judge_invocation, invocation_operands, named_operands. destruct (head _) as [w|]; [|done].
  destruct (String.eqb _ "cd"); [done|]. rewrite operands_fold.
  destruct (String.eqb _ "dd"); [rewrite app_nil_r; cbn; rewrite !orb_false_iff; tauto|].
  destruct (shell_path_command_operands _ _) as [l|];
    [|destruct (operand_modes _ _) as [modes|]; [|rewrite app_nil_r; cbn; rewrite !orb_false_iff; tauto]];
    rewrite operands_fold, foldl_app; cbn; rewrite !orb_false_iff; (split; [done|]);
    rewrite <-!not_true_iff_false, !any_spec; setoid_rewrite elem_of_app; intros; split; [tauto| |tauto|];
    intros (x & [?|?] & ?); naive_solver.
Qed.

Lemma invocations_fold p cwd cc failed l : ∀ f,
  (foldl (judge_invocation p cwd cc failed) f l).1 = judged p cwd f.1 (concat (map invocation_operands l))
  ∧ ((foldl (judge_invocation p cwd cc failed) f l).2 = false →
     f.2 = false ∧ any (λ e, shell_arg_is_ambiguous e.1) (concat (map invocation_operands l)) = false).
Proof.
  induction l as [|i l IH]; intros f; cbn; [done|].
  destruct (IH (judge_invocation p cwd cc failed f i)) as [-> Hnext], (invocation_fold p cwd cc failed f i) as [-> Hthis].
  rewrite foldl_app. split; [done|]. intros [[Hf Hi]%Hthis Hl]%Hnext. split; [done|].
  rewrite <-not_true_iff_false, any_spec in *. intros (x & [?|?]%elem_of_app & ?); naive_solver.
Qed.

(** ** One path *)

#[local] Abbreviation verdict p mode r := (escalation (evaluate p (shell_access mode r))).

Lemma shell_path_escalating p cwd token mode : escalating (evaluate_shell_path p cwd token mode).
Proof.
  unfold evaluate_shell_path. repeat apply combine_escalating; try apply evaluate_escalates.
  destruct (resolve_symlink_target _); [destruct (negb _); [apply evaluate_escalates|done]|]. by destruct (path_has_symlink _).
Qed.

Lemma shell_path_rank p cwd token mode k : 1 ≤ k →
  k ≤ rank (evaluate_shell_path p cwd token mode) ↔
  (∃ r, reading cwd token r ∧ k ≤ rank (verdict p mode r)) ∨ (k ≤ 2 ∧ ¬ links_settled cwd token).
Proof.
  intros Hk. unfold evaluate_shell_path, links_settled.
  set (raw := if is_absolute_shell_path (normalize_shell_path_raw token) then _ else _).
  set (absolute := if is_absolute_shell_path (normalize_shell_path token) then _ else _).
  set (resolved := match resolve_symlink_target raw with Some _ => _ | None => _ end).
  assert (escalating resolved) as He.
  { subst resolved. destruct (resolve_symlink_target raw); [destruct (negb _); [apply evaluate_escalates|done]|].
    by destruct (path_has_symlink raw). }
  rewrite !combine_rank, !Nat.max_le_iff by auto using combine_escalating, evaluate_escalates.
  change (in_cwd normalize_shell_path_raw cwd (normalize_shell_path_raw token)) with raw. split.
  - intros [[?|?]|Hr]; [left; eauto using reading|left; eexists; split; [apply from_cwd|done]|].
    subst resolved. destruct (resolve_symlink_target raw) as [r|] eqn:Hres.
    + destruct (negb _); [|cbn in Hr; lia]. left. exists r. split; [by apply through_links|done].
    + destruct (path_has_symlink raw) eqn:Hs; [|cbn in Hr; lia]. right. split; [done|]. intros Hl. by destruct (Hl eq_refl).
  - intros [(r & Hr & Hv)|[Hle Hl]].
    + destruct Hr as [| |r Hr]; [auto|auto|]. change (resolve_symlink_target raw = Some r) in Hr.
      destruct (String.eqb r absolute) eqn:Hab; [apply String.eqb_eq in Hab; subst r; auto|].
      right. subst resolved. rewrite Hr, Hab. done.
    + right. subst resolved. destruct (resolve_symlink_target raw) eqn:Hres; [exfalso; apply Hl; eauto|].
      destruct (path_has_symlink raw); [cbn; lia|]. exfalso. by apply Hl.
Qed.

Lemma verdict_reject p mode r : 3 ≤ rank (verdict p mode r) ↔ is_reject (evaluate p (shell_access mode r)) = true.
Proof.
  pose proof (evaluate_spec p (shell_access mode r)) as Hs.
  destruct (evaluate p _) as [[]|]; cbn; split; intros; try done; lia.
Qed.

(** A policy without a deny or an ask for files has none that hits. *)
Lemma unrestricted_files (config : PermissionConfig) mode r :
  has_file_restrictions (policy_new config) = false → verdict (policy_new config) mode r = None.
Proof.
  intros Hno. assert (∀ a, a = RuleDeny ∨ a = RuleAsk → ¬ hits (policy_new config) (shell_access mode r) a) as Hhit.
  { intros a Ha Hh. eapply restricted_by in Hh; [|done|].
    - cbn in Hno. rewrite Hno in Hh. done.
    - intros f; destruct mode, f; cbn; done || set_solver. }
  pose proof (evaluate_spec (policy_new config) (shell_access mode r)) as Hs.
  destruct (evaluate (policy_new config) _) as [[]|]; cbn; try done; exfalso.
  - apply (Hhit RuleAsk); [by right|apply Hs].
  - destruct Hs as (cr & ? & ? & ? & _). apply (Hhit RuleDeny); [by left|]. exists cr. auto.
Qed.

(** ** A script *)

Lemma file_access_judged p cmd cwd tree : has_file_restrictions p = true → try_parse_shell cmd = Some tree →
  ∃ doubt : bool,
  evaluate_shell_file_access p cmd cwd =
    combine_decisions (judged p cwd None (touches tree cmd)) (if doubt then Some Ask else None)
  ∧ (doubt = false →
     any (λ e, shell_arg_is_ambiguous e.1) (concat (map invocation_operands (shell_command_invocations (root_node tree) cmd))) = false
     ∧ ∀ r, r ∈ shell_redirect_targets (root_node tree) cmd → rd_ambiguous r = false).
Proof.
  intros Hflag Htree. unfold evaluate_shell_file_access, touches. rewrite Hflag, Htree, foldl_app. cbn.
  set (cc := cwd_poison_positions _ _). set (f := foldl (judge_redirect p cwd cc) _ _).
  destruct (redirects_fold p cwd cc (shell_redirect_targets (root_node tree) cmd) (None, false)) as [H1' Hr].
  destruct (invocations_fold p cwd cc (has_error tree) (shell_command_invocations (root_node tree) cmd) f) as [H2' Hi].
  eexists. rewrite H2'. subst f. rewrite H1'. split; [done|]. intros [Hf%Hr ?]%Hi. tauto.
Qed.

Lemma judged_rank p cwd l k : 1 ≤ k →
  k ≤ rank (judged p cwd None l) ↔ ∃ e, e ∈ l ∧ k ≤ rank (evaluate_shell_path p cwd e.1 e.2).
Proof.
  intros Hk. destruct (fold_rank (λ e, evaluate_shell_path p cwd e.1 e.2) (λ e, shell_path_escalating p cwd e.1 e.2) l None I) as [_ Hf].
  rewrite Hf. cbn. split; [intros [?|?]; [lia|done]|by right].
Qed.

Lemma judged_escalating p cwd l : escalating (judged p cwd None l).
Proof. by apply (fold_rank (λ e, evaluate_shell_path p cwd e.1 e.2) (λ e, shell_path_escalating p cwd e.1 e.2) l None). Qed.

Lemma file_access_escalating p cmd cwd : escalating (evaluate_shell_file_access p cmd cwd).
Proof.
  destruct (has_file_restrictions p) eqn:Hflag, (try_parse_shell cmd) as [tree|] eqn:Htree;
    [|unfold evaluate_shell_file_access; rewrite Hflag, ?Htree; done..].
  destruct (file_access_judged p cmd cwd tree) as (doubt & -> & _); [done..|].
  apply combine_escalating; [apply judged_escalating|by destruct doubt].
Qed.

Lemma touched_redirect tree cmd e : e ∈ redirect_operands (shell_redirect_targets (root_node tree) cmd) →
  ∃ r, r ∈ shell_redirect_targets (root_node tree) cmd ∧ rd_ambiguous r = shell_arg_is_ambiguous e.1.
Proof.
  unfold redirect_operands. rewrite list_elem_of_omap. intros (r & Hr & (path & Hp & ->)%fmap_Some). exists r. split; [done|].
  unfold shell_redirect_targets in Hr. apply list_elem_of_omap in Hr as (n & _ & Hn).
  destruct (String.eqb (kind n) "file_redirect"); [|done]. apply fmap_Some in Hn as ([[path' mode] amb] & Hone & ->). cbn in *. subst path'.
  unfold shell_redirect_one in Hone. destruct (redirect_operator _); [|done]. cbn in Hone.
  destruct (child_by_field_name _ _); [|done]. cbn in Hone. destruct (shell_node_arg _ _) as [[]|]; [|done..]. cbn in Hone.
  destruct (_ || _); [done|]. by simplify_eq.
Qed.

(** A script is rejected for one of the files it touches. *)
Lemma files_reject (config : PermissionConfig) cmd cwd :
  is_reject (evaluate_shell_file_access (policy_new config) cmd cwd) = true ↔
  ∃ tree e r, try_parse_shell cmd = Some tree ∧ e ∈ touches tree cmd ∧ reading cwd e.1 r
              ∧ is_reject (evaluate (policy_new config) (shell_access e.2 r)) = true.
Proof.
  destruct (has_file_restrictions (policy_new config)) eqn:Hflag.
  2:{ unfold evaluate_shell_file_access. rewrite Hflag. split; [done|].
      intros (tree & e & r & _ & _ & _ & Hr). apply verdict_reject in Hr. rewrite unrestricted_files in Hr by done. cbn in Hr. lia. }
  destruct (try_parse_shell cmd) as [tree|] eqn:Htree.
  2:{ unfold evaluate_shell_file_access. rewrite Hflag, Htree. split; [done|]. naive_solver. }
  rewrite escalating_strongest by apply file_access_escalating.
  destruct (file_access_judged (policy_new config) cmd cwd tree) as (doubt & -> & _); [done..|].
  rewrite combine_rank, Nat.max_le_iff, judged_rank by (lia || apply judged_escalating || by destruct doubt).
  setoid_rewrite shell_path_rank; [|lia]. setoid_rewrite verdict_reject. split.
  - intros [(e & ? & [(r & ? & ?)|[? _]])|?]; [|lia|destruct doubt; cbn in *; lia]. exists tree, e, r. auto.
  - intros (tree' & e & r & [= <-] & ? & ? & ?). left. exists e. split; [done|]. left. eauto.
Qed.

(** What a silent judgement says of a file that is touched. *)
Lemma silent_files p cmd cwd tree e : has_file_restrictions p = true → try_parse_shell cmd = Some tree →
  evaluate_shell_file_access p cmd cwd = None → e ∈ touches tree cmd →
  (∀ r, reading cwd e.1 r → verdict p e.2 r = None) ∧ shell_arg_is_ambiguous e.1 = false ∧ links_settled cwd e.1.
Proof.
  intros Hflag Htree Hnone Hin. apply escalating_silent in Hnone; [|apply file_access_escalating].
  destruct (file_access_judged p cmd cwd tree) as (doubt & Hd & Hdoubt); [done..|].
  rewrite Hd, combine_rank, Nat.max_le_iff, judged_rank in Hnone by (lia || apply judged_escalating || by destruct doubt).
  assert (¬ 1 ≤ rank (evaluate_shell_path p cwd e.1 e.2)) as Hsilent by (intros ?; apply Hnone; left; eauto).
  rewrite shell_path_rank in Hsilent by lia.
  assert (doubt = false) as Hno by (destruct doubt; [exfalso; apply Hnone; right; cbn; lia|done]).
  destruct (Hdoubt Hno) as [Hops Hred]. split_and!.
  - intros r Hr. apply escalating_silent; [apply evaluate_escalates|]. intros ?. apply Hsilent. left. eauto.
  - apply elem_of_app in Hin as [(r & Hr & <-)%touched_redirect|Hin]; [auto|].
    apply not_true_iff_false. intros Ha. rewrite <-not_true_iff_false, any_spec in Hops. apply Hops. eauto.
  - unfold links_settled. intros Hs. destruct (resolve_symlink_target _) eqn:Hres; [eauto|]. exfalso. apply Hsilent.
    right. split; [lia|]. intros Hl. specialize (Hl Hs). rewrite Hres in Hl. by destruct Hl.
Qed.

(** C20: No redirect or operand hides a file from a rule. A shell command is
    rejected exactly when one of the files it touches - the target of a redirect,
    an operand of a known reader or writer - is denied under one of its readings:
    as written, from the working directory, or where the links on the way lead.
    When the judgement stays silent under a policy that restricts files, no
    reading of a touched file is denied or asked about, no operand is a pattern,
    and all links could be followed. The judgement never allows. *)
Theorem no_operand_hides_a_file (config : PermissionConfig) (cmd cwd : string) :
  let p := policy_new config in
  let d := evaluate_shell_file_access p cmd cwd in
  escalating d
  ∧ (is_reject d = true ↔
     ∃ tree e r, try_parse_shell cmd = Some tree ∧ e ∈ touches tree cmd ∧ reading cwd e.1 r
                 ∧ hits p (shell_access e.2 r) RuleDeny)
  ∧ (d = None → has_file_restrictions p = true →
     ∀ tree e, try_parse_shell cmd = Some tree → e ∈ touches tree cmd →
       (∀ r, reading cwd e.1 r → verdict p e.2 r = None)
       ∧ shell_arg_is_ambiguous e.1 = false ∧ links_settled cwd e.1).
Proof.
  intros p d. split; [apply file_access_escalating|]. split.
  - subst p d. rewrite files_reject. by setoid_rewrite reject_hits.
  - intros Hnone Hflag tree e Htree Hin. by eapply silent_files.
Qed.
End findings.

(** ** What a command writes

    By the manuals of the programs that the write floor names; the code's tables
    and readers are not used. *)

(** A word that is no option. *)
Definition operand (args : list string) (path : string) : Prop := path ∈ args ∧ dash path = false.
(** The last of them: only options behind it, and none of that is an operand
    because the end of the options was marked. *)
Definition last_operand (args : list string) (path : string) : Prop :=
  ∃ before options, args = before ++ path :: options ∧ dash path = false
    ∧ Forall (λ w, dash w = true ∧ w ≠ "--") options ∧ "--" ∉ before.
(** [path] is the argument of the option [flag]. *)
Definition next_word (flag : string) (args : list string) (path : string) : Prop :=
  ∃ before after, args = before ++ flag :: path :: after.

Inductive writes_file : list string → string → Prop :=
| writes_operand p name args path : named p name → name ∈ ["tee"; "truncate"; "touch"; "mkdir"; "rm"; "rmdir"] →
    operand args path → writes_file (p :: args) path
| writes_destination p name args path : named p name → name ∈ ["cp"; "mv"; "ln"; "install"] →
    last_operand args path → writes_file (p :: args) path
| writes_of p args path : named p "dd" → "of=" +:+ path ∈ args → writes_file (p :: args) path
| writes_option p name flag args path : named p name → name ∈ ["sort"; "git"; "go"; "rustc"] → flag ∈ ["-o"; "--output"] →
    next_word flag args path → writes_file (p :: args) path
| writes_long p name args path : named p name → name ∈ ["sort"; "git"; "go"; "rustc"] →
    "--output=" +:+ path ∈ args → writes_file (p :: args) path
| writes_out_dir p args path : named p "rustc" → next_word "--out-dir" args path → writes_file (p :: args) path
| writes_second p input path : named p "uniq" → dash input = false → dash path = false → writes_file [p; input; path] path
| writes_in_place p flag args path : named p "sed" → flag ∈ ["-i"; "--in-place"] → flag ∈ args → operand args path →
    writes_file (p :: args) path.

(** A node of a tree. *)
Inductive below (n : Node) : Node → Prop :=
| below_self : below n n
| below_child m c : below n m → c ∈ children m → below n c.

(** A script writes a file: by a redirect, or by one of its commands, bare or
    behind wrappers. *)
Inductive script_writes (root : Node) (src path : string) : Prop :=
| by_redirect n pre op post dest : below root n → kind n = "file_redirect" →
    children n = pre ++ op :: post → Forall (λ c, kind c = "file_descriptor") pre → kind op ∈ [">"; ">>"; ">|"; "&>"; "&>>"] →
    child_by_field_name "destination" n = Some dest → kind dest = "word" → utf8_text src dest = Some path →
    path ≠ "" → starts_with "&" path = false → script_writes root src path
| by_command n ws : below root n → kind n = "command" →
    (ws = inv_words (command_invocation src n) ∨ peels 8 (inv_words (command_invocation src n)) ws) →
    writes_file ws path → script_writes root src path.

(** A script sets a variable: by an assignment, or through [env]. *)
Inductive script_sets (tree : Tree) (src key : string) : Prop :=
| by_assignment n c post : below (root_node tree) n → kind n = "variable_assignment" → children n = c :: post →
    kind c = "variable_name" → utf8_text src c = Some key → script_sets tree src key
| by_env commands parsed p before v after : try_parse_word_only_commands_sequence tree src = Some commands → parsed ∈ commands →
    words parsed = p :: before ++ (key +:+ "=" +:+ v) :: after → named p "env" → identifier key → Forall assignment before →
    script_sets tree src key.

(** *** The code finds them *)

Lemma walk_self n : n ∈ walk n.
Proof. destruct n. left. Qed.

Lemma walk_into n c m : c ∈ children n → m ∈ walk c → m ∈ walk n.
Proof.
  destruct n as [k b f s e cs]. cbn [children walk]. intros Hc Hm. right.
  match goal with |- _ ∈ ?go cs [] =>
    assert (∀ l acc, (m ∈ acc ∨ ∃ c, c ∈ l ∧ m ∈ walk c) → m ∈ go l acc) as Hgo end.
  { clear. intros l. induction l as [|c l IH]; intros acc [Ha|(d & Hd & Hm)].
    - done.
    - by apply elem_of_nil in Hd.
    - apply IH. left. apply elem_of_app. by right.
    - apply IH. apply elem_of_cons in Hd as [->|Hd]; [left; apply elem_of_app; by left|right; eauto]. }
  apply Hgo. right. eauto.
Qed.

Lemma walk_trans n m : m ∈ walk n → ∀ c, c ∈ children m → c ∈ walk n.
Proof.
  induction n as [n IH] using Node_ind. destruct n as [k b f s e cs]. intros Hm c Hc.
  assert (m = mkNode k b f s e cs ∨ ∃ d, d ∈ cs ∧ m ∈ walk d) as [->|(d & Hd & Hmd)].
  { cbn [walk] in Hm. apply elem_of_cons in Hm as [->|Hm]; [by left|right]. revert Hm.
    match goal with |- _ ∈ ?go cs [] → _ =>
      assert (∀ l acc, m ∈ go l acc → m ∈ acc ∨ ∃ d, d ∈ l ∧ m ∈ walk d) as Hgo end.
    { clear. intros l. induction l as [|x l IH]; intros acc; [by left|]. intros [Ha|(d & Hd & Hm)]%IH.
      - apply elem_of_app in Ha as [Ha|Ha]; [right; exists x; split; [left|done]|by left].
      - right. exists d. split; [by right|done]. }
    intros [Ha|Hd]%Hgo; [by apply elem_of_nil in Ha|done]. }
  - eapply walk_into; [exact Hc|apply walk_self].
  - eapply walk_into; [exact Hd|]. rewrite Forall_forall in IH. by eapply IH.
Qed.

Lemma below_walk n m : below n m → m ∈ walk n.
Proof. induction 1; [apply walk_self|by eapply walk_trans]. Qed.

Lemma candidates_in path args : path ∈ args → dash path = false → ∀ b, path ∈ candidates_go b args.
Proof.
  intros Hin Hd. unfold dash in Hd. induction args as [|a args IH]; intros b; [by apply elem_of_nil in Hin|].
  cbn. apply elem_of_cons in Hin as [->|Hin].
  - destruct (String.eqb_spec a "--") as [->|]; [discriminate|]. rewrite andb_false_r, Hd.
    destruct (String.eqb_spec a "-") as [->|]; [discriminate|]. rewrite orb_true_r. left.
  - repeat case_if; [by apply IH|right; by apply IH|by apply IH].
Qed.

Lemma candidates_options opts : Forall (λ w, dash w = true ∧ w ≠ "--") opts → candidates_go false opts = [].
Proof.
  induction 1 as [|w opts [Hd Hn] _ IH]; [done|]. cbn. unfold dash in Hd. destruct (String.eqb_spec w "--"); [done|].
  by rewrite Hd, andb_false_r.
Qed.

Lemma candidates_app l1 l2 : "--" ∉ l1 → candidates_go false (l1 ++ l2) = candidates_go false l1 ++ candidates_go false l2.
Proof.
  induction l1 as [|a l1 IH]; intros Hn; [done|]. apply not_elem_of_cons in Hn as [Ha Hn]. cbn.
  destruct (String.eqb_spec a "--") as [->|]; [done|]. cbn. rewrite IH by done. by case_if.
Qed.

Lemma candidates_last args path : last_operand args path → ∃ l, candidates_go false args = l ++ [path].
Proof.
  intros (before & opts & -> & Hd & Ho & Hb). exists (candidates_go false before). rewrite candidates_app by done. f_equal.
  cbn. unfold dash in Hd. destruct (String.eqb_spec path "--") as [->|]; [discriminate|]. rewrite Hd.
  destruct (String.eqb_spec path "-") as [->|]; [discriminate|]. cbn. by rewrite candidates_options.
Qed.

Lemma with_next_arg flag args path : next_word flag args path → ∀ p, (flag, Some path) ∈ with_next (p :: args).
Proof.
  intros (before & after & ->) p. cbn. right. induction before as [|b before IH]; [left|]. cbn. by right.
Qed.

Lemma with_next_in w args : w ∈ args → ∀ p, ∃ n, (w, n) ∈ with_next (p :: args).
Proof.
  intros Hw p. cbn. enough (∃ n, (w, n) ∈ with_next args) as (n & Hn) by (exists n; by right). induction args as [|a args IH]; [by apply elem_of_nil in Hw|].
  apply elem_of_cons in Hw as [->|Hw]; [eexists; left|]. destruct (IH Hw) as (n & Hn). exists n. by right.
Qed.

Definition writing_programs : list string :=
  ["tee"; "truncate"; "touch"; "mkdir"; "rm"; "rmdir"; "cp"; "mv"; "ln"; "install"; "dd"; "sort"; "git"; "go"; "rustc"; "uniq"; "sed"].

Lemma writing_program p name : named p name → name ∈ writing_programs →
  to_ascii_lowercase (shell_program_name p) = name ∧ ∀ args, unwrap_wrappers (p :: args) = p :: args.
Proof.
  intros Hp Hin. assert (basename p = name) as Hb.
  { apply named_basename; [done|]. unfold writing_programs in Hin.
    repeat (apply elem_of_cons in Hin as [->|Hin]; [reflexivity|]). by apply elem_of_nil in Hin. }
  unfold shell_program_name, unwrap_wrappers. rewrite Hb. split.
  - unfold writing_programs in Hin. repeat (apply elem_of_cons in Hin as [->|Hin]; [reflexivity|]). by apply elem_of_nil in Hin.
  - intros args. cbn [unwrap_go]. replace (strip_wrapper_command (p :: args)) with (@None (list string)); [done|].
    unfold strip_wrapper_command. cbn [head mbind option_bind]. rewrite Hb. unfold writing_programs in Hin.
    repeat (apply elem_of_cons in Hin as [->|Hin]; [reflexivity|]). by apply elem_of_nil in Hin.
Qed.

Lemma written_operands l path : (path, WriteMode) ∈ l → path ∈ map fst (bfilter (λ e : string * ShellFileMode, is_write e.2) l).
Proof. intros Hin. apply list_elem_of_fmap. exists (path, WriteMode). split; [done|]. by apply elem_of_bfilter. Qed.

Lemma as_written_mode path (l : list string) : path ∈ l → (path, WriteMode) ∈ map (mode_of WriteMode) l.
Proof. intros Hin. apply list_elem_of_fmap. by exists path. Qed.

Lemma output_flag_found flag args path p : flag ∈ ["-o"; "--output"] → next_word flag args path →
  path ∈ shell_output_flag_values (p :: args).
Proof.
  intros Hf Hn. apply list_elem_of_omap. exists (flag, Some path). split; [by apply with_next_arg|].
  repeat (apply elem_of_cons in Hf as [->|Hf]; [reflexivity|]). by apply elem_of_nil in Hf.
Qed.

Lemma output_long_found args path p : "--output=" +:+ path ∈ args → path ∈ shell_output_flag_values (p :: args).
Proof.
  intros Hin. destruct (with_next_in _ _ Hin p) as (n & Hn). apply list_elem_of_omap. eexists. split; [exact Hn|].
  cbn beta iota. by rewrite strip_prefix_app.
Qed.

Lemma out_dir_found args path p : next_word "--out-dir" args path → path ∈ value_flag_values (p :: args) "--out-dir".
Proof. intros Hn. apply list_elem_of_omap. exists ("--out-dir", Some path). split; [by apply with_next_arg|reflexivity]. Qed.

Lemma writes_program ws path : writes_file ws path → ∃ p args name, ws = p :: args ∧ named p name ∧ name ∈ writing_programs.
Proof.
  intros Hw. destruct Hw as [p name args path Hp Hin|p name args path Hp Hin|p args path Hp|p name flag args path Hp Hin
    |p name args path Hp Hin|p args path Hp|p input path Hp|p flag args path Hp]; (do 3 eexists);
    (split; [reflexivity|]; split; [exact Hp|]); unfold writing_programs; set_solver.
Qed.

#[local] Ltac each Hin := repeat (apply elem_of_cons in Hin as [->|Hin]); [..|by apply elem_of_nil in Hin].

Lemma write_paths_of p name args : named p name → name ∈ writing_programs →
  command_words_write_paths (p :: args) =
    map fst (bfilter (λ e : string * ShellFileMode, is_write e.2) (special_file_operands name (p :: args)))
    ++ match shell_path_command_operands name (p :: args) with
       | Some operands => map fst (bfilter (λ e : string * ShellFileMode, is_write e.2) operands)
       | None =>
           if bool_decide (shell_file_mode name = Some WriteMode) || (String.eqb name "sed" && shell_sed_in_place (p :: args))
           then shell_file_candidates (p :: args) else []
       end.
Proof.
  intros Hp Hin. destruct (writing_program p name Hp Hin) as [Hname Hun]. unfold command_words_write_paths.
  rewrite Hun. cbn [head]. by rewrite Hname.
Qed.

Lemma operand_found args path p : operand args path → path ∈ shell_file_candidates (p :: args).
Proof. intros [Hin Hd]. unfold shell_file_candidates. cbn [drop]. rewrite drop_0. by apply candidates_in. Qed.

Lemma sed_in_place flag args p : flag ∈ ["-i"; "--in-place"] → flag ∈ args → shell_sed_in_place (p :: args) = true.
Proof.
  intros Hf Hin. unfold shell_sed_in_place. cbn [drop]. rewrite drop_0. apply any_spec. exists flag. split; [done|].
  each Hf; reflexivity.
Qed.

Lemma destination_found args path p : last_operand args path →
  last (shell_file_candidates (p :: args)) = Some path.
Proof.
  intros Hl. unfold shell_file_candidates. cbn [drop]. rewrite drop_0. destruct (candidates_last _ _ Hl) as (l & ->). apply last_snoc.
Qed.

Lemma writes_found ws path : writes_file ws path → path ∈ command_words_write_paths ws.
Proof.
  intros Hw. destruct (writes_program ws path Hw) as (p0 & args0 & name0 & E0 & Hp0 & Hin0).
  destruct Hw as [p name args path Hp Hin Ho|p name args path Hp Hin Ho|p args path Hp Ho|p name flag args path Hp Hin Hf Ho
    |p name args path Hp Hin Ho|p args path Hp Ho|p input path Hp Hi Hd|p flag args path Hp Hf Hfa Ho];
    try (rewrite (write_paths_of p name) by (done || (unfold writing_programs; set_solver))); apply elem_of_app || idtac.
  - right. each Hin; try (by apply operand_found); apply written_operands, as_written_mode, operand_found, Ho.
  - right. pose proof (destination_found args path p Ho) as Hl.
    assert (∃ l, shell_path_command_operands name (p :: args) = Some (l ++ [(path, WriteMode)])) as (l & ->).
    { exists (map (mode_of ReadMode) (removelast (shell_file_candidates (p :: args)))).
      transitivity (last (shell_file_candidates (p :: args)) ≫= λ dest,
        Some (map (mode_of ReadMode) (removelast (shell_file_candidates (p :: args))) ++ [(dest, WriteMode)])); [|by rewrite Hl].
      each Hin; reflexivity. }
    apply written_operands, elem_of_app. right. left.
  - rewrite (write_paths_of p "dd") by (done || (unfold writing_programs; set_solver)). apply elem_of_app. left.
    apply written_operands, list_elem_of_omap. exists ("of=" +:+ path). cbn [drop]. rewrite drop_0. split; [done|].
    repeat rewrite str_app_cons. by rewrite str_app_nil_l.
  - left. apply written_operands.
    assert (∃ l, special_file_operands name (p :: args) = map (mode_of WriteMode) (shell_output_flag_values (p :: args) ++ l)) as (l & ->).
    { each Hin; [exists [] ..|eexists; reflexivity]; by rewrite app_nil_r. }
    apply as_written_mode, elem_of_app. left. by eapply output_flag_found.
  - left. apply written_operands.
    assert (∃ l, special_file_operands name (p :: args) = map (mode_of WriteMode) (shell_output_flag_values (p :: args) ++ l)) as (l & ->).
    { each Hin; [exists [] ..|eexists; reflexivity]; by rewrite app_nil_r. }
    apply as_written_mode, elem_of_app. left. by apply output_long_found.
  - rewrite (write_paths_of p "rustc") by (done || (unfold writing_programs; set_solver)). apply elem_of_app. left.
    apply written_operands, as_written_mode, elem_of_app. right. by apply out_dir_found.
  - rewrite (write_paths_of p "uniq") by (done || (unfold writing_programs; set_solver)). apply elem_of_app. right.
    assert (shell_file_candidates [p; input; path] = [input; path]) as Hc.
    { unfold shell_file_candidates, dash in *. cbn. rewrite Hi, Hd.
      destruct (String.eqb_spec input "--") as [->|]; [discriminate|]. destruct (String.eqb_spec input "-") as [->|]; [discriminate|].
      destruct (String.eqb_spec path "--") as [->|]; [discriminate|]. by destruct (String.eqb_spec path "-") as [->|]. }
    assert (shell_path_command_operands "uniq" [p; input; path] = Some [(input, ReadMode); (path, WriteMode)]) as ->; [|left].
    transitivity (match shell_file_candidates [p; input; path] with
                  | input :: output :: _ => Some [(input, ReadMode); (output, WriteMode)] | _ => None end); [reflexivity|by rewrite Hc].
  - rewrite (write_paths_of p "sed") by (done || (unfold writing_programs; set_solver)). apply elem_of_app. right.
    cbn [shell_path_command_operands]. rewrite (sed_in_place flag) by done. by apply operand_found.
Qed.

Lemma redirect_found n pre op post dest src path : 
  children n = pre ++ op :: post → Forall (λ c, kind c = "file_descriptor") pre → kind op ∈ [">"; ">>"; ">|"; "&>"; "&>>"] →
  child_by_field_name "destination" n = Some dest → kind dest = "word" → utf8_text src dest = Some path →
  path ≠ "" → starts_with "&" path = false →
  shell_redirect_one src n = Some (Some path, WriteMode, shell_arg_is_ambiguous path).
Proof.
  intros Hc Hpre Hop Hdest Hk Ht Hne Hamp. unfold shell_redirect_one.
  assert (redirect_operator (children n) = Some (kind op)) as ->.
  { rewrite Hc. clear Hc. induction Hpre as [|c pre Hcd _ IH]; cbn [app redirect_operator]; [|by rewrite Hcd].
    each Hop; reflexivity. }
  cbn [mbind option_bind]. rewrite Hdest. cbn [mbind option_bind]. unfold shell_node_arg. rewrite Hk. cbn [String.eqb Ascii.eqb Bool.eqb].
  change (String.eqb "word" "variable_assignment") with false. cbn - [starts_with]. rewrite Ht. cbn - [starts_with].
  replace (is_empty path) with false by (by destruct path). rewrite Hamp.
  each Hop; reflexivity.
Qed.

Lemma write_paths_same a b : unwrap_wrappers a = unwrap_wrappers b → command_words_write_paths a = command_words_write_paths b.
Proof. intros E. unfold command_words_write_paths. by rewrite E. Qed.

Lemma script_writes_found root src path : script_writes root src path → path ∈ command_write_paths_in_tree root src.
Proof.
  intros [n pre op post dest Hb Hk Hc Hpre Hop Hdest Hkd Ht Hne Hamp|n ws Hb Hk Hws Hw]; unfold command_write_paths_in_tree;
    apply elem_of_app; apply below_walk in Hb.
  - left. apply list_elem_of_omap. exists (mkRedirect (start_byte n) (Some path) WriteMode (shell_arg_is_ambiguous path)).
    split; [|done]. apply list_elem_of_omap. exists n. split; [done|]. rewrite Hk. cbn [String.eqb Ascii.eqb Bool.eqb].
    by rewrite (redirect_found n pre op post dest src path).
  - right. apply list_elem_of_In, in_concat. exists (command_words_write_paths (inv_words (command_invocation src n))). split.
    + apply (in_map (λ i, command_words_write_paths (inv_words i)) _ (command_invocation src n)), list_elem_of_In. unfold shell_command_invocations. rewrite stable_sort_Permutation.
      apply list_elem_of_fmap. exists n. split; [done|]. apply elem_of_bfilter. split; [done|]. by rewrite Hk.
    + apply list_elem_of_In. destruct Hws as [->|Hp]; [by apply writes_found|].
      destruct (writes_program ws path Hw) as (p & args & name & -> & Hn & Hin).
      apply peels_unwrap in Hp as [Hu _]. rewrite (write_paths_same _ (p :: args)); [by apply writes_found|].
      rewrite (proj2 (writing_program p name Hn Hin) args). exact Hu.
Qed.

Lemma split_once_behind key v : char_free "=" key = true → split_once_char "=" (key +:+ "=" +:+ v) = Some (key, v).
Proof.
  unfold char_free. induction key as [|c key IH]; intros Hf; [by rewrite str_app_nil_l|].
  cbn in Hf. apply andb_true_iff in Hf as [Hc Hf]. rewrite str_app_cons. cbn [split_once_char]. rewrite IH by done.
  destruct (Ascii.eqb_spec c "=") as [->|]; [discriminate Hc|done].
Qed.

Lemma assignment_split w : assignment w → ∃ key v, split_once_char "=" w = Some (key, v) ∧ dash w = false.
Proof.
  intros (key & v & Hi & ->). exists key, v. split; [by apply split_once_behind, identifier_free|].
  destruct Hi as (c & r & -> & Hc & _). unfold dash. rewrite str_app_cons. apply starts_with_ne. intros <-. discriminate Hc.
Qed.

Lemma not_dash_end w : dash w = false → String.eqb w "--" = false.
Proof. intros Hd. by destruct (String.eqb_spec w "--") as [->|]. Qed.

Lemma env_unsafe_found before key v after : Forall assignment before → identifier key → is_safe_env_key key = false →
  env_args_unsafe (before ++ (key +:+ "=" +:+ v) :: after) = true.
Proof.
  intros Hb Hi Hs. assert (assignment (key +:+ "=" +:+ v)) as Hk by (by exists key, v).
  induction Hb as [|w before Hw _ IH]; cbn [app env_args_unsafe].
  - destruct (assignment_split _ Hk) as (k & v' & E & Hd). rewrite not_dash_end by done. unfold dash in Hd. rewrite Hd.
    rewrite split_once_behind by (by apply identifier_free). by rewrite Hs.
  - destruct (assignment_split _ Hw) as (k & v' & E & Hd). rewrite not_dash_end by done. unfold dash in Hd. rewrite Hd, E, IH.
    by case_if.
Qed.

Lemma script_sets_found tree src key : script_sets tree src key → is_safe_env_key key = false →
  script_sets_unsafe_env (root_node tree) src (default [] (try_parse_word_only_commands_sequence tree src)) = true.
Proof.
  intros [n c post Hb Hk Hc Hkc Ht|commands parsed p before v after Hcs Hin Hw Hp Hi Hbefore] Hs; unfold script_sets_unsafe_env;
    apply orb_true_iff.
  - left. apply any_spec. exists n. split; [by apply below_walk|]. rewrite Hk. cbn [String.eqb Ascii.eqb Bool.eqb andb].
    replace (assignment_key src n) with key; [by rewrite Hs|]. unfold assignment_key. rewrite Hc. cbn [List.find].
    rewrite Hkc, Ht. cbn. by rewrite Ht.
  - right. apply any_spec. exists parsed. rewrite Hcs. split; [done|]. unfold command_env_is_unsafe. rewrite Hw. cbn [env_unsafe_go head].
    rewrite (named_basename p "env" Hp eq_refl). cbn [drop]. rewrite drop_0, env_unsafe_found by done. done.
Qed.

(** Programs outside the table and options run together are missed. *)
Example some_writes_are_missed :
  command_words_write_paths ["sort"; "-uo"; "out"; "in"] = [] ∧ command_words_write_paths ["curl"; "-o"; "out"; "url"] = [].
Proof. split; reflexivity. Qed.
