(* ===== verification/PermManagerFacts.v ===== *)
(** * The permission manager: what it promises

    A denied request is refused in every mode; nothing but the user, or the
    always-approve mode, lets a command write a file; an ask rule binds; grants
    come from the user's answers alone; a managed pin keeps always-approve off. *)

From Stdlib Require Import Ascii String.
From S2P Require Import Prelude RustStr AuditParse PermTypes ShellTree PermPolicy ShellAccess AutoMode PermManager PermDemo PermPolicyFacts ShellAccessFacts.
From stdpp Require Import options.

Section reasons_given.
Context `{Globs, Urls}.
Implicit Types (s : Setup) (a : AccessKind) (m : Manager).

Definition trigger_of (v : PolicyView) (auto_prompt_reason : option string) : string :=
  if policy_forced_prompt v || shell_forced_prompt v then reasons.POLICY_ASK
  else default reasons.NEEDS_USER auto_prompt_reason.

Definition auto_reason (r : option string) : Prop :=
  r = None ∨ r = Some reasons.NEEDS_USER ∨ r = Some reasons.AUTO_CLASSIFIER_BLOCK.

(** ** The reasons given *)

Definition grant_reasons : list string :=
  [reasons.SESSION_GRANT; reasons.SAFE_COMMAND; reasons.SESSION_DENY; reasons.STATIC_ALLOWLIST; reasons.PERSISTED_GRANT].
Definition prompt_triggers : list string :=
  [reasons.REQUESTER_GONE; reasons.POLICY_ASK; reasons.NEEDS_USER; reasons.AUTO_CLASSIFIER_BLOCK].

Lemma bash_grant_reason cmd e st pin opts d r : bash_grant_pre_decision cmd e st pin opts = Some (d, r) → r ∈ grant_reasons.
Proof.
  unfold bash_grant_pre_decision. intros Hd. unfold grant_reasons.
  destruct (segments e) as [[]| | |]; repeat case_match; simplify_eq; set_solver.
Qed.

Lemma with_reason_some reason d x : with_reason reason d = Some x → x.2 = reason.
Proof. destruct d; [|done]. by intros [= <-]. Qed.

Lemma session_reason s a e st edits d r :
  session_grant_pre_decision a e st edits (static_domain_matcher s) (yolo_pin s) = Some (d, r) → r ∈ grant_reasons.
Proof.
  destruct a as [| | |cmd|name input|url|]; cbn; try done.
  - destruct edits; [|done]. intros [= <- <-]. unfold grant_reasons. set_solver.
  - destruct e as [e|]; [apply bash_grant_reason|done].
  - intros Hw%with_reason_some. cbn in Hw. subst r. unfold grant_reasons. set_solver.
  - destruct (url_parse url) as [u|]; [|done]. cbn. unfold grant_reasons. intros Hd.
    destruct (check _ u); [destruct (host_str u); [|done]; cbn in Hd; destruct (bool_decide _)|]; simplify_eq; set_solver.
Qed.

Lemma standing_reason s m a e v forced d r :
  neutralize a forced (pre_decision s m a e v forced) = Some (d, r) → r ∈ grant_reasons.
Proof.
  assert (∀ x : option (Decision * string), neutralize a forced x = Some (d, r) → x = Some (d, r)) as Hn.
  { intros [[[] ?]|]; cbn; try done. by destruct (_ && _). }
  intros Hd%Hn. revert Hd. clear Hn. destruct a as [| | |cmd|name input|url|]; cbn [pre_decision].
  1,2: destruct (policy_forced_prompt v); [done|]; intros [= <- <-]; unfold grant_reasons; set_solver.
  - unfold grant_reasons. intros. repeat case_match; simplify_eq; set_solver.
  - destruct e as [e|]; [|done]. cbn [mbind option_bind].
    destruct (bash_request_floor_requires_prompt (Some e)); [done|]. destruct (policy_forced_prompt v); [destruct (_ && _); [|done]|];
      apply bash_grant_reason.
  - intros Hw%with_reason_some. cbn in Hw. subst r. unfold grant_reasons. set_solver.
  - destruct (url_parse url) as [u|]; [|done]. cbn. unfold grant_reasons. intros Hd.
    destruct (check _ u); [destruct (host_str u); [|done]; cbn in Hd; destruct (bool_decide _)|]; simplify_eq; set_solver.
  - intros [= <- <-]. unfold grant_reasons. set_solver.
Qed.

Lemma trigger_reason v reason : auto_reason reason → trigger_of v reason ∈ prompt_triggers.
Proof.
  intros Hr. unfold trigger_of, prompt_triggers. destruct (_ || _); [set_solver|].
  destruct Hr as [->|[->| ->]]; cbn; set_solver.
Qed.
End reasons_given.

Section verdicts.
Context `{Globs, Urls, Links, ShellParser}.

(** ** What a policy can say *)

(** A policy says nothing, allows, asks or rejects. *)
Definition policy_verdict (d : option Decision) : Prop :=
  match d with None | Some Allow | Some Ask | Some (Reject _) => True | _ => False end.

Lemma evaluate_verdict p a : policy_verdict (evaluate p a).
Proof. pose proof (evaluate_spec p a). by destruct (evaluate p a) as [[]|]. Qed.

Lemma combine_verdict x y : policy_verdict x → escalating y → policy_verdict (combine_decisions x y).
Proof. by destruct x as [[]|], y as [[]|]. Qed.

Lemma combine_is_reject x y :
  policy_verdict x → escalating y → is_reject (combine_decisions x y) = is_reject x || is_reject y.
Proof. by destruct x as [[]|], y as [[]|]. Qed.

#[local] Hint Resolve evaluate_verdict combine_verdict script_escalating file_access_escalating : core.

Lemma policy_decision_kinds s a : policy_verdict (policy_decision (policy_view s a)).
Proof.
  unfold policy_decision, policy_view. destruct (compiled_policy s) as [p|]; [|done].
  destruct a; cbn [direct shell_command shell_file]; repeat apply combine_verdict; done || auto.
Qed.

(** What a rule of the configuration denies: the access itself, a command a
    script comes to, or a file it touches. *)
Definition forbidden (config : PermissionConfig) (cwd : string) (a : AccessKind) : Prop :=
  hits (policy_new config) a RuleDeny
  ∨ match a with
    | Bash cmd =>
        (∃ ws, runs 8 cmd ws ∧ hits (policy_new config) (Bash (join " " ws)) RuleDeny)
        ∨ (∃ tree e r, try_parse_shell cmd = Some tree ∧ e ∈ touches tree cmd ∧ reading cwd e.1 r
                       ∧ hits (policy_new config) (shell_access e.2 r) RuleDeny)
    | _ => False
    end.

Lemma policy_rejects_forbidden s config a : compiled_policy s = Some (policy_new config) →
  is_reject (policy_decision (policy_view s a)) = true ↔ forbidden config (cwd s) a.
Proof.
  intros Hp. unfold policy_decision, policy_view, forbidden. rewrite Hp.
  destruct a as [| | |cmd| | |]; cbn [direct shell_command shell_file];
    rewrite !combine_is_reject, !orb_true_iff, reject_hits by (repeat apply combine_verdict; done || auto); cbn [is_reject];
    try (by naive_solver).
  rewrite script_reject, files_reject. setoid_rewrite reject_hits. tauto.
Qed.
End verdicts.

Section ladder.
Context `{Globs, Urls, Links, ShellParser} (iter_set : gset string → list string) (json_to_string : Value → string).
Implicit Types (s : Setup) (w : World) (a : AccessKind) (m : Manager).

#[local] Abbreviation request := (handle_request iter_set json_to_string).

(** ** The rungs *)

Definition evaluation_of (a : AccessKind) (m : Manager) : option BashEvaluation :=
  match a with Bash cmd => Some (evaluate_bash iter_set cmd (state m) true) | _ => None end.

(** Every way a request can end, with its grounds. *)
Inductive rung (s : Setup) (w : World) (a : AccessKind) (m : Manager) : Reply * Manager → Prop :=
| rung_gone : (gone_at_dequeue w || gone_at_classify w || gone_before_prompt w = true) → rung s w a m (gone_reply, m)
| rung_denied reason :
    policy_decision (policy_view s a) = Some (Reject reason) →
    rung s w a m (auto_reply (PolicyDeny reason) false reasons.POLICY_DENY, m)
| rung_yolo :
    is_reject (policy_decision (policy_view s a)) = false → yolo_mode m = true → shell_forced_prompt (policy_view s a) = false →
    rung s w a m (auto_reply Allow true reasons.YOLO, m)
| rung_session d reason :
    is_reject (policy_decision (policy_view s a)) = false →
    policy_forced_prompt (policy_view s a) = false → shell_forced_prompt (policy_view s a) = false →
    session_grant_pre_decision a (evaluation_of a m) (state m) (allow_edits_for_session m) (static_domain_matcher s) (yolo_pin s)
      = Some (d, reason) →
    rung s w a m (auto_reply d true reason, m)
| rung_auto r :
    is_reject (policy_decision (policy_view s a)) = false → auto_mode m = true →
    policy_forced_prompt (policy_view s a) = false → bash_request_floor_requires_prompt (evaluation_of a m) = false →
    auto_stage json_to_string w m a = Settled r → rung s w a m (r, m)
| rung_sandbox cmd :
    a = Bash cmd → is_reject (policy_decision (policy_view s a)) = false → sandbox_active w = true →
    policy_forced_prompt (policy_view s a) = false → bash_request_floor_requires_prompt (evaluation_of a m) = false →
    rung s w a m (auto_reply Allow true reasons.SANDBOX_AUTO, m)
| rung_policy :
    policy_decision (policy_view s a) = Some Allow → bash_request_floor_requires_prompt (evaluation_of a m) = false →
    rung s w a m (auto_reply Allow true reasons.POLICY_ALLOW, m)
| rung_standing forced d reason :
    is_reject (policy_decision (policy_view s a)) = false →
    neutralize a forced (pre_decision s m a (evaluation_of a m) (policy_view s a) forced) = Some (d, reason) →
    rung s w a m (auto_reply d true reason, m)
| rung_prompt_deny :
    is_reject (policy_decision (policy_view s a)) = false → setup_prompt_policy s = PromptDeny →
    rung s w a m (auto_reply (PolicyDeny "denied by prompt policy (tool not pre-approved)") false reasons.PROMPT_DENY, m)
| rung_asked reason :
    is_reject (policy_decision (policy_view s a)) = false → setup_prompt_policy s ≠ PromptDeny → auto_reason reason →
    rung s w a m (ask_user json_to_string w a (trigger_of (policy_view s a) reason) m).

Lemma settle_or_ask_rung s w a m forced reason :
  is_reject (policy_decision (policy_view s a)) = false → auto_reason reason →
  rung s w a m (settle_or_ask json_to_string s w a (evaluation_of a m) (policy_view s a) forced reason m).
Proof.
  intros Hr Ha. unfold settle_or_ask.
  destruct (neutralize _ _ _) as [[d why]|] eqn:Hn; [by eapply rung_standing|].
  case_bool_decide; [by apply rung_prompt_deny|]. destruct (gone_before_prompt w) eqn:Hg.
  - apply rung_gone. by rewrite Hg, orb_true_r.
  - by apply rung_asked.
Qed.

Lemma after_auto_rung s w a m forced reason :
  is_reject (policy_decision (policy_view s a)) = false → auto_reason reason →
  rung s w a m (after_auto json_to_string s w a (evaluation_of a m) (policy_view s a) forced reason m).
Proof.
  intros Hr Ha. unfold after_auto. destruct (_ && _ && _ && _) eqn:Hsb.
  - rewrite !andb_true_iff in Hsb. destruct Hsb as [[[Hbash Hs] Hf] _]. destruct a as [| | |cmd| | |]; try done.
    unfold sandbox_may_auto_allow_bash in Hs. apply andb_true_iff in Hs as [Hact Hfloor].
    apply negb_true_iff in Hfloor, Hf. by eapply rung_sandbox.
  - pose proof (policy_decision_kinds s a) as Hk. destruct (policy_decision _) as [[]|] eqn:Hd; try done.
    + destruct (bash_request_floor_requires_prompt _) eqn:Hfl; [|by apply rung_policy].
      apply settle_or_ask_rung; [by rewrite Hd|done].
    + apply settle_or_ask_rung; [by rewrite Hd|done].
    + apply settle_or_ask_rung; [by rewrite Hd|done].
Qed.

Lemma not_reject_match {A} (d : option Decision) (f : string → A) (x : A) :
  is_reject d = false → match d with Some (Reject r) => f r | _ => x end = x.
Proof. by destruct d as [[]|]. Qed.

(** Every request ends on a rung. *)
Lemma request_rung s w a m : rung s w a m (request s w a m).
Proof.
  unfold handle_request. destruct (gone_at_dequeue w) eqn:Hg; [apply rung_gone; by rewrite Hg|].
  cbv zeta. fold (evaluation_of a m).
  destruct (is_reject (policy_decision (policy_view s a))) eqn:Hr.
  { destruct (policy_decision _) as [[]|] eqn:Hd; try done. by apply rung_denied. }
  rewrite not_reject_match by done.
  destruct (yolo_mode m && negb (shell_forced_prompt (policy_view s a))) eqn:Hy.
  { apply andb_true_iff in Hy as [? ?%negb_true_iff]. by apply rung_yolo. }
  destruct (policy_forced_prompt (policy_view s a)) eqn:Hpf; cbn [negb andb];
    [rewrite andb_false_r; by apply after_auto_rung; [|left]|].
  destruct (shell_forced_prompt (policy_view s a)) eqn:Hsf; cbn [negb andb];
    [rewrite !andb_false_r; by apply after_auto_rung; [|left]|].
  destruct (session_grant_pre_decision _ _ _ _ _ _) as [[d why]|] eqn:Hsg; [by eapply rung_session|].
  destruct (_ && _ && _ && _) eqn:Hauto; [|by apply after_auto_rung; [|left]].
  rewrite !andb_true_iff, negb_true_iff in Hauto. destruct Hauto as [[[? _] _] ?].
  destruct (auto_stage json_to_string w m a) as [r|forced reason] eqn:Hst; [by apply rung_auto|].
  apply after_auto_rung; [done|]. unfold auto_stage in Hst. unfold auto_reason.
  destruct (auto_mode_fast_path _ _ _); simplify_eq; [auto|].
  destruct (match auto_classifier m with Some _ => _ | None => _ end) as [[]|]; simplify_eq; auto.
Qed.
(** ** What a prompt and the auto stage answer *)

Lemma asked_event w a trigger m :
  trigger ∈ prompt_triggers → let r := (ask_user json_to_string w a trigger m).1 in
  user_prompted (event r) = true ∧ auto_approved (event r) = false ∧ decision_reason (event r) ∈ prompt_triggers
  ∧ answer r = Some (ev_decision (event r)).
Proof.
  intros Ht. unfold ask_user. cbv zeta.
  destruct (match a with Bash cmd => _ | _ => _ end) as [[d out] m0]. cbn. split_and!; [done..| |done].
  destruct (_ && _); [unfold prompt_triggers; set_solver|done].
Qed.

Lemma auto_settled w m a r : auto_stage json_to_string w m a = Settled r →
  r = gone_reply ∨ r = auto_reply Allow true reasons.AUTO_FAST_PATH ∨ r = auto_reply Allow true reasons.AUTO_CLASSIFIER_ALLOW.
Proof.
  unfold auto_stage. destruct (auto_mode_fast_path _ _ _); [intros [= <-]; auto|done|].
  destruct (match auto_classifier m with Some _ => _ | None => _ end) as [[]|]; intros [= <-]; auto.
Qed.
(** The reasons a request can be given, and what two of them mean. *)
Definition other_reasons : list string :=
  grant_reasons ++ prompt_triggers
  ++ [reasons.AUTO_FAST_PATH; reasons.AUTO_CLASSIFIER_ALLOW; reasons.SANDBOX_AUTO; reasons.POLICY_ALLOW; reasons.PROMPT_DENY].

Lemma request_reason s w a m :
  let why := decision_reason (event (request s w a m).1) in
  (why = reasons.POLICY_DENY ∧ is_reject (policy_decision (policy_view s a)) = true)
  ∨ (why = reasons.YOLO ∧ yolo_mode m = true)
  ∨ why ∈ other_reasons.
Proof.
  cbv zeta. unfold other_reasons. rewrite !elem_of_app.
  pose proof (request_rung s w a m) as Hr. destruct (request s w a m) as [r m']. cbn [fst].
  inv Hr; cbn [event auto_reply gone_reply decision_reason]; try (right; right; unfold prompt_triggers; set_solver).
  - left. split; [done|]. by match goal with Hd : policy_decision _ = _ |- _ => rewrite Hd end.
  - by right; left.
  - right; right; left. by eapply session_reason.
  - match goal with Hd : auto_stage _ _ _ _ = _ |- _ => apply auto_settled in Hd as [->|[->| ->]] end;
      cbn; unfold prompt_triggers; set_solver.
  - right; right; left. by eapply standing_reason.
  - right; right; right; left. match goal with Hu : ask_user _ _ _ _ _ = _, Ha : auto_reason ?reason |- _ =>
      pose proof (asked_event w a _ m (trigger_reason (policy_view s a) reason Ha)) as (_ & _ & Hin & _); by rewrite Hu in Hin end.
Qed.

Lemma not_other why : why ∈ other_reasons → why ≠ reasons.POLICY_DENY ∧ why ≠ reasons.YOLO.
Proof. intros Hin. split; intros ->; unfold other_reasons, grant_reasons, prompt_triggers in Hin; set_solver. Qed.

(** A call that a deny rule hits is never let through. *)
Lemma denied_call_refused s w a m (config : PermissionConfig) :
  compiled_policy s = Some (policy_new config) → hits (policy_new config) a RuleDeny →
  answer (request s w a m).1 ≠ Some Allow.
Proof.
  intros Hp Hh. assert (is_reject (policy_decision (policy_view s a)) = true) as Hbad.
  { apply (policy_rejects_forbidden s config a Hp). by left. }
  pose proof (request_rung s w a m) as Hr. destruct (request s w a m) as [r m']. cbn [fst]. inv Hr; try congruence; cbn; try done.
  match goal with Hd : policy_decision _ = Some Allow |- _ => by rewrite Hd in Hbad end.
Qed.

(** C17: A denied request is refused, in every mode. A request that a rule denies
    - the access itself, one of the commands its script comes to, or one of the
    files the script touches - is answered with the policy's refusal, without a
    prompt and without any change of the manager, whatever the user has granted
    and whether always-approve, auto mode or the sandbox are on; and that answer
    is given to no other request. *)
Theorem denied_is_final s w a m (config : PermissionConfig) :
  compiled_policy s = Some (policy_new config) →
  let '(r, m') := request s w a m in
  (forbidden config (cwd s) a → gone_at_dequeue w = false →
   m' = m ∧ ∃ reason, r = auto_reply (PolicyDeny reason) false reasons.POLICY_DENY)
  ∧ (forbidden config (cwd s) a → answer r ≠ Some Allow)
  ∧ (decision_reason (event r) = reasons.POLICY_DENY → forbidden config (cwd s) a).
Proof.
  intros Hp. pose proof (policy_rejects_forbidden s config a Hp) as Hf. destruct (request s w a m) as [r m'] eqn:Hreq. split_and!.
  - intros Hbad%Hf Hg. unfold handle_request in Hreq. rewrite Hg in Hreq.
    destruct (policy_decision (policy_view s a)) as [[]|]; try done. simplify_eq. eauto.
  - intros Hbad%Hf. pose proof (request_rung s w a m) as Hr. rewrite Hreq in Hr. inv Hr; try congruence; cbn; try done.
    match goal with Hd : policy_decision _ = Some Allow |- _ => by rewrite Hd in Hbad end.
  - intros Hwhy. apply Hf. pose proof (request_reason s w a m) as Hr. rewrite Hreq in Hr. cbn in Hr.
    destruct Hr as [[_ ?]|[[Hy _]|Hin]]; [done|by rewrite Hwhy in Hy|by apply not_other in Hin as [? _]].
Qed.
(** ** What the user answers *)

Definition user_allows (o : PromptOutcome) : bool :=
  match o with
  | AllowOnce | AllowAlways | AllowEditsForSession | AllowAlwaysBashCommand _ | AllowAlwaysDomain _
  | AllowAlwaysMcpTool _ | AllowAlwaysMcpServer _ => true
  | _ => false
  end.

Definition by_user (w : World) (r : Reply) : Prop := user_prompted (event r) = true ∧ user_allows (outcome w) = true.

Lemma asked_allow w a trigger m :
  let r := (ask_user json_to_string w a trigger m).1 in answer r = Some Allow → by_user w r.
Proof.
  unfold ask_user, by_user. cbv zeta.
  destruct a; destruct (outcome w); cbn; try done; intros; simplify_eq.
Qed.

(** ** Commands that write files *)

Lemma floor_holds cmd m tree :
  try_parse_shell cmd = Some tree →
  (∃ path, path ∈ command_write_paths_in_tree (root_node tree) cmd ∧ is_safe_write_sink path = false)
  ∨ script_sets_unsafe_env (root_node tree) cmd (default [] (try_parse_word_only_commands_sequence tree cmd)) = true →
  cmd ∉ allowed_bash_commands (state m) →
  bash_request_floor_requires_prompt (evaluation_of (Bash cmd) m) = true.
Proof.
  intros Ht Hbad Hno. unfold evaluation_of, evaluate_bash. rewrite Ht, (bool_decide_eq_false_2 (cmd ∈ _)) by done.
  set (writes := any _ _). set (env := script_sets_unsafe_env _ _ _).
  assert (writes || env = true) as Hwe.
  { destruct Hbad as [(path & Hin & Hs)|Henv]; [|subst env; rewrite Henv; apply orb_true_r].
    apply orb_true_iff. left. subst writes. apply any_spec. exists path. by rewrite Hs. }
  unfold bash_request_floor_requires_prompt, bash_write_floor_requires_prompt, bash_unsafe_env_floor_requires_prompt.
  destruct (try_parse_word_only_commands_sequence tree cmd); [destruct (eval_segments _ _ _ _ _ _ _ _)|];
    cbn [writes_real_file sets_unsafe_env exact_grant]; by rewrite !andb_true_r.
Qed.

Lemma writes_or_sets tree cmd :
  (∃ path, script_writes (root_node tree) cmd path ∧ path ∉ ["/dev/null"; "/dev/stdout"; "/dev/stderr"])
  ∨ (∃ key, script_sets tree cmd key ∧ key ∉ SAFE_ENV_KEYS) →
  (∃ path, path ∈ command_write_paths_in_tree (root_node tree) cmd ∧ is_safe_write_sink path = false)
  ∨ script_sets_unsafe_env (root_node tree) cmd (default [] (try_parse_word_only_commands_sequence tree cmd)) = true.
Proof.
  intros [(path & Hw & Hn)|(key & Hs & Hn)].
  - left. exists path. split; [by apply script_writes_found|]. by apply contains_false.
  - right. eapply script_sets_found; [exact Hs|]. by apply contains_false.
Qed.

Lemma floored_grant cmd e st pin opts d r :
  bash_request_floor_requires_prompt (Some e) = true → bash_grant_pre_decision cmd e st pin opts = Some (d, r) → d ≠ Allow.
Proof. intros Hf. unfold bash_grant_pre_decision. rewrite Hf. destruct (segments e) as [| | |]; by intros [= <- <-]. Qed.

Lemma neutralize_some a forced x y : neutralize a forced x = Some y → x = Some y.
Proof. destruct x as [[[] ?]|]; cbn; try done. by destruct (_ && _). Qed.

(** ** Where an ask rule does not reach the user *)

(** A web search is allowed in spite of an ask rule on it. *)
Lemma web_search_ignores_an_ask_rule s w query m :
  gone_at_dequeue w = false → policy_decision (policy_view s (WebSearch query)) = Some Ask → yolo_mode m = false →
  answer (request s w (WebSearch query) m).1 = Some Allow.
Proof.
  intros Hg Hd Hy. unfold handle_request. rewrite Hg. cbv zeta. rewrite Hd, Hy. unfold policy_forced_prompt. rewrite Hd. cbn.
  rewrite andb_false_r. unfold after_auto. rewrite Hd. cbn. done.
Qed.

(** So is an edit, once edits are allowed for the session. *)
Lemma an_edit_grant_answers_an_ask_rule s w path m :
  gone_at_dequeue w = false → policy_decision (policy_view s (Edit path)) = Some Ask → yolo_mode m = false →
  allow_edits_for_session m = true → answer (request s w (Edit path) m).1 = Some Allow.
Proof.
  intros Hg Hd Hy He. unfold handle_request. rewrite Hg. cbv zeta. rewrite Hd, Hy. unfold policy_forced_prompt. rewrite Hd. cbn.
  rewrite andb_false_r. unfold after_auto. rewrite Hd. cbn. unfold settle_or_ask. cbn. by rewrite He.
Qed.

(** Deleting a branch is on the list of commands that only read. *)
Lemma deleting_a_branch_counts_as_read_only :
  is_always_safe_command_words ["git"; "branch"; "-D"; "main"] = true ∧ is_dangerous_command_words ["git"; "branch"; "-D"; "main"] = false.
Proof. vm_compute. done. Qed.
End ladder.

(** ** Witnesses *)

Import Demo.

Lemma denied_is_final_witness :
  compiled_policy deny_setup = Some (policy_new deny_edit)
  ∧ forbidden deny_edit "/w" (Bash write)
  ∧ answer (handle_request iter_set json_to_string deny_setup (world AllowOnce) (Bash write) always_approving).1 ≠ Some Allow.
Proof.
  pose proof (denied_is_final iter_set json_to_string deny_setup (world AllowOnce) (Bash write) always_approving deny_edit eq_refl) as Hd.
  assert (forbidden deny_edit "/w" (Bash write)) as Hf.
  { right. right. exists write_tree, ("out.txt", WriteMode), "/w/out.txt".
    split; [reflexivity|]. split; [vm_compute; left|]. split.
    - change "/w/out.txt" with (in_cwd normalize_shell_path "/w" (normalize_shell_path "out.txt")). apply from_cwd.
    - exists (compile_rule (mkRule RuleDeny ForEdit (Some "/w/out.txt") GlobMode)). split; [left|]. split; vm_compute; reflexivity. }
  split; [reflexivity|]. split; [exact Hf|].
  destruct (handle_request iter_set json_to_string deny_setup (world AllowOnce) (Bash write) always_approving) as [r m'] in *.
  exact (proj1 (proj2 Hd) Hf).
Defined.

