(* ===== verification/PermGrantFacts.v ===== *)
(** * Grants: what they are worth, and where they come from

    A script is as safe as its parts; an ask rule binds; a grant is made by the
    user alone; the manager stays consistent over every run. *)

From Stdlib Require Import Ascii String.
From S2P Require Import Prelude RustStr AuditParse PermTypes ShellTree PermPolicy ShellAccess AutoMode PermManager PermDemo PermPolicyFacts ShellAccessFacts PermManagerFacts.
From stdpp Require Import options.

Section segments.
Context (iter_set : gset string → list string) (st : PermissionState) (honor : bool).

(** ** The parts of a script *)

(** The commands that are judged: without their wrappers, setup commands left out. *)
Definition judged_words (cmds : list PlainCommand) : list (list string) :=
  bfilter (λ ws, negb (is_setup_command ws)) (map (λ c, unwrap_wrappers (words c)) cmds).

Definition matched_by (patterns : gset string) (ws : list string) : bool :=
  any (matches_whitelist_prefix (join " " ws)) (iter_set patterns).
Definition excluded : list string → bool := matched_by (disallowed_bash_commands st).
Definition granted : list string → bool := matched_by (allowed_bash_commands st).
Definition harmless (ws : list string) : bool := is_safe_command_words ws || is_always_safe_command_words ws.

(** A part that needs no prompt. *)
Definition settled (ws : list string) : bool :=
  negb (is_dangerous_command_words ws) && (granted ws || honor && harmless ws).

Lemma judged_words_cons c cmds :
  judged_words (c :: cmds) =
  (if is_setup_command (unwrap_wrappers (words c)) then [] else [unwrap_wrappers (words c)]) ++ judged_words cmds.
Proof. unfold judged_words. cbn. by destruct (is_setup_command _). Qed.

Lemma eval_excluded cmds : ∀ need dangerous via allg, any excluded (judged_words cmds) = true →
  ∃ reason flag, eval_segments iter_set st honor cmds need dangerous via allg = (RejectScript reason, flag).
Proof.
  induction cmds as [|c cmds IH]; intros need dangerous via allg; [done|]. rewrite judged_words_cons.
  cbn [eval_segments]. destruct (is_setup_command _); cbn [app]; [apply IH|].
  generalize (unwrap_wrappers (words c)) as ws. intros ws. cbn [any existsb]. intros Hex.
  destruct (List.find _ _) as [d|] eqn:Hfind; [eauto|].
  assert (excluded ws = false) as Hno.
  { unfold excluded, matched_by. apply not_true_iff_false. rewrite any_spec. intros (d & Hd & Hm).
    apply list_elem_of_In in Hd. by rewrite (List.find_none _ _ Hfind d Hd) in Hm. }
  rewrite Hno in Hex. repeat case_match; by apply IH.
Qed.

Lemma eval_judged cmds : ∀ need dangerous via allg, any excluded (judged_words cmds) = false →
  let prompts := need ++ map (join " ") (bfilter (λ ws, negb (settled ws)) (judged_words cmds)) in
  eval_segments iter_set st honor cmds need dangerous via allg =
  (if is_nil prompts then AutoAllow (via || any (λ ws, settled ws && granted ws) (judged_words cmds))
   else NeedsPrompts prompts (dangerous || any is_dangerous_command_words (judged_words cmds)),
   allg && all granted (judged_words cmds)).
Proof.
  induction cmds as [|c cmds IH]; intros need dangerous via allg.
  { cbn. intros _. by rewrite app_nil_r, !orb_false_r, andb_true_r. }
  rewrite judged_words_cons. cbn [eval_segments].
  generalize (unwrap_wrappers (words c)) as ws. intros ws. destruct (is_setup_command ws); cbn [app]; [apply IH|].
  cbn [any existsb all forallb bfilter List.filter]. intros [Hws Hex]%orb_false_iff.
  destruct (List.find _ _) as [d|] eqn:Hfind.
  { apply List.find_some in Hfind as [Hd Hm]. exfalso. unfold excluded, matched_by in Hws.
    rewrite <-not_true_iff_false, any_spec in Hws. apply Hws. exists d. split; [by apply list_elem_of_In|done]. }
  change (any (matches_whitelist_prefix (join " " ws)) (iter_set (allowed_bash_commands st))) with (granted ws).
  fold (harmless ws). cbv zeta. assert (settled ws = negb (is_dangerous_command_words ws) && (granted ws || honor && harmless ws)) as -> by done.
  rewrite (andb_assoc allg). destruct (is_dangerous_command_words ws); cbn [negb andb orb map].
  - rewrite IH by done. cbv zeta. by rewrite <-app_assoc, !orb_true_r.
  - destruct (granted ws || honor && harmless ws) eqn:Hset; cbn [negb andb orb map]; rewrite IH by done; cbv zeta.
    + by rewrite (orb_assoc via).
    + apply orb_false_iff in Hset as [Hg _]. by rewrite <-app_assoc.
Qed.
End segments.

(** ** What a set of patterns covers *)

Section grants.
Context (iter_set : gset string → list string) (Hiter : ∀ X x, x ∈ iter_set X ↔ x ∈ X).

(** A pattern of the set is the script's beginning, at a word's end. *)
Definition covered (patterns : gset string) (ws : list string) : Prop :=
  ∃ g, g ∈ patterns ∧ matches_command_prefix (join " " ws) g = true.

Lemma matched_covered patterns ws : matched_by iter_set patterns ws = true ↔ covered patterns ws.
Proof using Hiter.
  unfold matched_by, covered. rewrite any_spec. by setoid_rewrite Hiter.
Qed.

Section parts.
Context (st : PermissionState) (honor : bool).

(** A command that needs no prompt. *)
Definition fine (ws : list string) : Prop :=
  is_dangerous_command_words ws = false ∧ (covered (allowed_bash_commands st) ws ∨ honor = true ∧ harmless ws = true).

Lemma settled_fine ws : settled iter_set st honor ws = true ↔ fine ws.
Proof using Hiter.
  unfold settled, granted, fine. by rewrite andb_true_iff, negb_true_iff, orb_true_iff, andb_true_iff, matched_covered.
Qed.

(** The parts the user is asked about. *)
Definition prompts_of (parts : list (list string)) : list string :=
  map (join " ") (bfilter (λ ws, negb (settled iter_set st honor ws)) parts).

Lemma in_prompts parts s : s ∈ prompts_of parts ↔ ∃ ws, ws ∈ parts ∧ ¬ fine ws ∧ s = join " " ws.
Proof using Hiter.
  etrans; [apply list_elem_of_fmap|]. setoid_rewrite elem_of_bfilter. setoid_rewrite negb_true_iff.
  setoid_rewrite <-settled_fine. setoid_rewrite not_true_iff_false. split; intros (ws & ?); exists ws; tauto.
Qed.

Lemma prompts_sublist parts : prompts_of parts `sublist_of` map (join " ") parts.
Proof.
  unfold prompts_of, bfilter. induction parts as [|ws parts IH]; cbn; [done|]. destruct (negb _); by constructor.
Qed.
End parts.
End grants.

(** A script is as safe as its parts. What a session makes of a script that
    can be taken apart follows from the commands in it, wrappers peeled off and
    setup commands left out: it is refused exactly when an excluded command is
    among them; allowed exactly when none is excluded or dangerous and each is
    granted or on the safe lists; otherwise the user is asked about precisely
    the others, in order, and told of a dangerous one. *)
Lemma script_is_as_safe_as_its_parts `{ShellParser} (iter_set : gset string → list string)
    (Hiter : ∀ X x, x ∈ iter_set X ↔ x ∈ X) (cmd : string) (st : PermissionState) (honor : bool) cmds :
  all_commands_from_script cmd = Some cmds →
  let e := evaluate_bash iter_set cmd st honor in
  let parts := judged_words cmds in
  let fine := fine st honor in
  match segments e with
  | RejectScript _ => ∃ ws, ws ∈ parts ∧ covered (disallowed_bash_commands st) ws
  | AutoAllow via =>
      (∀ ws, ws ∈ parts → ¬ covered (disallowed_bash_commands st) ws ∧ fine ws)
      ∧ (via = true ↔ ∃ ws, ws ∈ parts ∧ covered (allowed_bash_commands st) ws)
      ∧ (all_segments_granted e = true ↔ ∀ ws, ws ∈ parts → covered (allowed_bash_commands st) ws)
  | NeedsPrompts prompts dangerous =>
      (∀ ws, ws ∈ parts → ¬ covered (disallowed_bash_commands st) ws)
      ∧ (∃ ws, ws ∈ parts ∧ ¬ fine ws)
      ∧ (∀ s, s ∈ prompts ↔ ∃ ws, ws ∈ parts ∧ ¬ fine ws ∧ s = join " " ws)
      ∧ prompts `sublist_of` map (join " ") parts
      ∧ (dangerous = true ↔ ∃ ws, ws ∈ parts ∧ is_dangerous_command_words ws = true)
  | Unparseable => False
  end.
Proof.
  intros Hcmds. pose proof (matched_covered iter_set Hiter) as Hmc. unfold all_commands_from_script in Hcmds. cbv zeta. unfold evaluate_bash.
  destruct (try_parse_shell cmd) as [tree|]; [|done]. cbn in Hcmds. rewrite Hcmds.
  destruct (any (excluded iter_set st) (judged_words cmds)) eqn:Hex.
  { destruct (eval_excluded iter_set st honor cmds [] false false true Hex) as (reason & flag & ->). cbn.
    apply any_spec in Hex as (ws & ? & ?%Hmc); eauto. }
  rewrite eval_judged by done. cbv zeta. cbn [app].
  assert (∀ ws, ws ∈ judged_words cmds → ¬ covered (disallowed_bash_commands st) ws) as Hclean.
  { intros ws Hin Hc. rewrite <-Hmc in Hc. rewrite <-not_true_iff_false, any_spec in Hex. apply Hex. eauto. }
  change (map (join " ") (bfilter _ (judged_words cmds))) with (prompts_of iter_set st honor (judged_words cmds)).
  pose proof (in_prompts iter_set Hiter st honor (judged_words cmds)) as Hp.
  pose proof (prompts_sublist iter_set st honor (judged_words cmds)) as Hsub.
  destruct (prompts_of iter_set st honor (judged_words cmds)) as [|s l]; cbn [is_nil segments all_segments_granted andb orb].
  - assert (∀ ws, ws ∈ judged_words cmds → settled iter_set st honor ws = true) as Hall.
    { intros ws Hin. destruct (settled iter_set st honor ws) eqn:Hs; [done|]. exfalso.
      apply (not_elem_of_nil (join " " ws)), Hp. exists ws. split_and!; [done| |done].
      rewrite <-(settled_fine iter_set Hiter). by rewrite Hs. }
    split; [intros ws Hin; split; [auto|by apply (settled_fine iter_set Hiter), Hall]|]. unfold granted. rewrite any_spec, all_spec.
    setoid_rewrite andb_true_iff. setoid_rewrite Hmc. naive_solver.
  - destruct (proj1 (Hp s) ltac:(left)) as (ws & ? & ? & _). split_and!; [done|eauto|done|done|by rewrite any_spec].
Qed.

(** ** Ask rules *)

Section asking.
Context `{Globs, Urls, Links, ShellParser} (iter_set : gset string → list string) (json_to_string : Value → string).
Implicit Types (s : Setup) (w : World) (a : AccessKind) (m : Manager).
#[local] Abbreviation request := (handle_request iter_set json_to_string).

(** Grants the user made earlier and the session remembers, of all that the
    request comes to. *)
Definition remembered (s : Setup) (m : Manager) (a : AccessKind) : Prop :=
  remember_tool_approvals s = true ∧
  match a with
  | MCPTool name _ =>
      name ∈ allowed_mcp_tools (state m)
      ∨ ∃ server, server_prefix name = Some server ∧ server ≠ "" ∧ server ∈ allowed_mcp_servers (state m)
  | Bash cmd =>
      shell_file_forced_prompt (policy_view s a) = false
      ∧ ∃ cmds, all_commands_from_script cmd = Some cmds
                ∧ ∀ ws, ws ∈ judged_words cmds →
                    covered (allowed_bash_commands (state m)) ws ∧ is_dangerous_command_words ws = false
  | _ => False
  end.

(** Requests an ask rule does not reach, whether approvals are remembered or
    not: any web search, an edit once edits are allowed for the session, a fetch
    from a domain that is on the static list or was allowed for good. *)
Definition out_of_reach (s : Setup) (m : Manager) (a : AccessKind) : Prop :=
  match a with
  | WebSearch _ => True
  | Edit _ => allow_edits_for_session m = true
  | WebFetch url =>
      ∃ u, url_parse url = Some u
           ∧ (check (static_domain_matcher s) u = None
              ∨ ∃ host, host_str u = Some host ∧ normalize_domain host ∈ allowed_web_fetch_domains (state m))
  | _ => False
  end.

Lemma mcp_grant name st forced remember d :
  mcp_pre_decision name st forced remember = Some d →
  (forced = true → remember = true)
  ∧ (name ∈ allowed_mcp_tools st ∨ ∃ server, server_prefix name = Some server ∧ server ≠ "" ∧ server ∈ allowed_mcp_servers st).
Proof.
  unfold mcp_pre_decision. destruct (forced && negb remember) eqn:Hf; [done|].
  assert (forced = true → remember = true) as Hfr by (by destruct forced, remember).
  case_bool_decide; [by auto|]. unfold mcp_server_prefix_allowed. case_bool_decide; [done|].
  destruct (server_prefix name) as [server|] eqn:Hs; [|done]. destruct (negb _ && bool_decide _) eqn:Hb; [|intros; discriminate]. intros _.
  apply andb_true_iff in Hb as [Hne Hin%bool_decide_eq_true]. split; [done|]. right. exists server. split_and!; [done| |done].
  intros ->. done.
Qed.

Lemma evaluated_script cmd st honor via :
  segments (evaluate_bash iter_set cmd st honor) = AutoAllow via →
  ∃ cmds flag, all_commands_from_script cmd = Some cmds
    ∧ eval_segments iter_set st honor cmds [] false false true = (AutoAllow via, flag)
    ∧ all_segments_granted (evaluate_bash iter_set cmd st honor) = flag.
Proof.
  unfold evaluate_bash, all_commands_from_script. destruct (try_parse_shell cmd) as [tree|]; [|done]. cbn.
  destruct (try_parse_word_only_commands_sequence tree cmd) as [cmds|]; [|done].
  destruct (eval_segments _ _ _ _ _ _ _ _) as [seg flag] eqn:He. cbn. intros ->. eauto.
Qed.
(** What the grants answer when a rule asks. *)
Lemma remembered_standing s m a forced r (Hiter : ∀ X x, x ∈ iter_set X ↔ x ∈ X) :
  policy_forced_prompt (policy_view s a) = true →
  neutralize a forced (pre_decision s m a (evaluation_of iter_set a m) (policy_view s a) forced) = Some (Allow, r) →
  remembered s m a ∨ out_of_reach s m a.
Proof.
  intros Hask Hd%neutralize_some. unfold remembered.
  destruct a as [| |path|cmd|name input|url|]; cbn [pre_decision out_of_reach evaluation_of] in *;
    rewrite ?Hask in Hd; try done; try by right.
  - right. destruct (allow_edits_for_session m); [done|]. by destruct (edit_policy (state m)).
  - left. cbn [mbind option_bind] in Hd. destruct (bash_request_floor_requires_prompt _) eqn:Hfloor; [done|].
    destruct (_ && _ && _) eqn:Hb; [|done]. rewrite !andb_true_iff, !negb_true_iff in Hb. destruct Hb as [[? _] ?].
    split; [done|]. split; [done|]. unfold bash_grant_pre_decision in Hd. rewrite Hfloor in Hd. cbn in Hd.
    destruct (segments _) as [via| | |] eqn:Hseg; [|done..].
    destruct (all_segments_granted _) eqn:Hall; [|done]. apply evaluated_script in Hseg as (cmds & flag & Hc & He & Hflag).
    exists cmds. split; [done|]. rewrite Hall in Hflag. subst flag.
    destruct (any (excluded iter_set (state m)) (judged_words cmds)) eqn:Hex.
    { destruct (eval_excluded iter_set (state m) true cmds [] false false true Hex) as (? & ? & Hx). by rewrite He in Hx. }
    rewrite eval_judged in He by done. cbv zeta in He. cbn [app] in He.
    destruct (is_nil _) eqn:Hnil; [|done]. injection He as _ Hg. cbn [andb] in Hg.
    intros ws Hin. rewrite all_spec in Hg. split; [by apply (matched_covered iter_set Hiter), Hg|].
    destruct (settled iter_set (state m) true ws) eqn:Hs; [by apply (settled_fine iter_set Hiter) in Hs as [? _]|]. exfalso.
    destruct (map _ _) eqn:Hm; [|done]. apply (not_elem_of_nil (join " " ws)). rewrite <-Hm. apply list_elem_of_fmap.
    exists ws. split; [done|]. apply elem_of_bfilter. by rewrite Hs.
  - left. unfold with_reason in Hd. apply fmap_Some in Hd as (d & Hm%mcp_grant & _). destruct Hm as [Hfr ?]. auto.
  - right. destruct (url_parse url) as [u|]; [|done]. cbn in Hd. exists u. split; [done|]. destruct (check _ u); [|by left].
    destruct (host_str u) as [host|]; [|done]. cbn in Hd. right. exists host. split; [done|].
    by destruct (bool_decide_reflect (normalize_domain host ∈ allowed_web_fetch_domains (state m))).
Qed.

Lemma out_of_reach_allowed s w a m : policy_decision (policy_view s a) = Some Ask → out_of_reach s m a →
  gone_at_dequeue w = false → answer (request s w a m).1 = Some Allow.
Proof.
  intros Hd Ho Hg. unfold handle_request. rewrite Hg. cbv zeta. rewrite Hd.
  destruct (yolo_mode m && _); [done|]. unfold policy_forced_prompt. rewrite Hd. cbn [orb andb negb].
  rewrite andb_false_r. unfold after_auto. rewrite Hd.
  destruct a as [| |path|cmd|name input|url|]; try done; cbn [andb]; unfold settle_or_ask; cbn [pre_decision].
  - cbn in Ho. by rewrite Ho.
  - destruct Ho as (u & Hu & Ho). rewrite Hu. cbn [mbind option_bind]. destruct (check _ u) as [?|]; [|done].
    destruct Ho as [?|(host & Hh & Hin)]; [done|]. rewrite Hh. cbn [mbind option_bind]. by rewrite bool_decide_eq_true_2.
Qed.

(** C22: What an ask rule binds, and what not. A request that the policy asks
    about is allowed only by the user's own answer; or in always-approve mode,
    unless it is a shell command whose parts or files are asked about; or, where
    the session remembers approvals, by a grant the user made earlier: for a
    shell command a grant of every part of it, none of them dangerous and no file
    of it asked about, for an MCP tool a grant of the tool or of its server; or it
    is out of the rule's reach, which is so in three cases, remembered approvals
    or not: a web search, an edit once edits are allowed for the session, a fetch
    from a domain on the static list or allowed for good. In these three the
    request is always allowed, unless its requester is gone. So nothing stands in
    for the user when a file is read or searched, and auto mode, the sandbox and
    allow rules never do. *)
Theorem ask_rule_binds s w a m (Hiter : ∀ X x, x ∈ iter_set X ↔ x ∈ X) :
  policy_decision (policy_view s a) = Some Ask →
  let '(r, m') := request s w a m in
  (answer r = Some Allow →
   by_user w r
   ∨ (yolo_mode m = true ∧ shell_forced_prompt (policy_view s a) = false)
   ∨ remembered s m a ∨ out_of_reach s m a)
  ∧ (out_of_reach s m a → gone_at_dequeue w = false → answer r = Some Allow).
Proof.
  intros Hd. assert (policy_forced_prompt (policy_view s a) = true) as Hask by (unfold policy_forced_prompt; by rewrite Hd).
  pose proof (request_rung iter_set json_to_string s w a m) as Hr. pose proof (out_of_reach_allowed s w a m Hd) as Ho.
  destruct (request s w a m) as [r m']. split; [|exact Ho].
  intros Hallow. inv Hr; try done; try congruence; [by auto| |].
  - cbn in Hallow. simplify_eq. right. right. eapply remembered_standing; done.
  - left. match goal with Hu : ask_user _ _ _ ?trigger _ = _ |- _ => pose proof (asked_allow json_to_string w a trigger m) as Ha; rewrite Hu in Ha end.
    by apply Ha.
Qed.
End asking.

(** ** Where grants come from *)

Section granting.
Context `{Globs, Urls, Links, ShellParser} (iter_set : gset string → list string) (json_to_string : Value → string).
Implicit Types (s : Setup) (w : World) (a : AccessKind) (m : Manager).
#[local] Abbreviation request := (handle_request iter_set json_to_string).

(** What an answer to a prompt about [a] may add to the grants. *)
Definition new_commands (a : AccessKind) (o : PromptOutcome) : gset string :=
  match a, o with
  | Bash cmd, AllowAlways => {[cmd]}
  | Bash _, AllowAlwaysBashCommand prefix => {[prefix]}
  | _, _ => ∅
  end.
Definition new_tools (a : AccessKind) (o : PromptOutcome) : gset string :=
  match a, o with
  | MCPTool name _, (AllowAlways | AllowAlwaysMcpTool _ | AllowAlwaysMcpServer _) => {[name]}
  | _, _ => ∅
  end.
Definition new_servers (a : AccessKind) (o : PromptOutcome) : gset string :=
  match a, o with
  | MCPTool name _, AllowAlwaysMcpServer server => if bool_decide (server_prefix name = Some server) then {[server]} else ∅
  | _, _ => ∅
  end.
Definition new_domains (a : AccessKind) (o : PromptOutcome) : gset string :=
  match a, o with
  | WebFetch _, AllowAlwaysDomain domain => {[domain]}
  | _, _ => ∅
  end.

Definition between (old new_ : gset string) (added : gset string) : Prop := old ⊆ new_ ∧ new_ ⊆ added ∪ old.

Record grown (a : AccessKind) (o : PromptOutcome) (st st' : PermissionState) : Prop := {
  grown_edit_policy : edit_policy st' = edit_policy st;
  grown_blanket : allow_bash_execute st' = allow_bash_execute st;
  grown_commands : between (allowed_bash_commands st) (allowed_bash_commands st') (new_commands a o);
  grown_tools : between (allowed_mcp_tools st) (allowed_mcp_tools st') (new_tools a o);
  grown_servers : between (allowed_mcp_servers st) (allowed_mcp_servers st') (new_servers a o);
  grown_domains : between (allowed_web_fetch_domains st) (allowed_web_fetch_domains st') (new_domains a o);
  grown_excluded : disallowed_bash_commands st ⊆ disallowed_bash_commands st';
}.

(** The grants a prompt leaves are saved, where they changed. *)
Definition saved_up_to_date (m m' : Manager) : Prop :=
  (state m' = state m ∧ saved m' = saved m) ∨ saved m' = saved m ++ [state m'].

Lemma record_keeps a d out m :
  let m' := record_decision json_to_string a d out m in
  state m' = state m ∧ saved m' = saved m ∧ allow_edits_for_session m' = allow_edits_for_session m
  ∧ yolo_mode m' = yolo_mode m ∧ auto_mode m' = auto_mode m.
Proof. unfold record_decision. by destruct (prompted_decision_approved d out). Qed.

Ltac grants := constructor; cbn; try done; unfold between; set_solver.

Lemma asked_grants w a trigger m :
  let m' := (ask_user json_to_string w a trigger m).2 in
  grown a (outcome w) (state m) (state m') ∧ saved_up_to_date m m'
  ∧ (allow_edits_for_session m' = true → allow_edits_for_session m = true ∨ outcome w = AllowEditsForSession)
  ∧ (state m' ≠ state m → user_allows (outcome w) = true ∨ ∃ prefix, outcome w = RejectAlwaysBashCommand prefix).
Proof.
  unfold ask_user, saved_up_to_date. destruct (match a with Bash cmd => _ | _ => _ end) as [[d out] m0] eqn:Ho. cbn [snd].
  destruct (record_keeps a d out m0) as (-> & -> & -> & _). clear iter_set.
  destruct a as [| | |cmd|name input| |], (outcome w) as [| | | | | |server| | | | |]; cbn in Ho; simplify_eq;
    try (split_and!; [grants|by left|by auto|done]); try (split_and!; [grants|by right|by auto|by eauto]).
  destruct (server_prefix name) as [canonical|] eqn:Hp; [destruct (negb _ && _) eqn:Hc|].
  - apply andb_true_iff in Hc as [_ ->%String.eqb_eq]. split_and!; [|by right|by auto|by eauto].
    constructor; cbn; try done; unfold between; try set_solver. rewrite Hp, bool_decide_eq_true_2 by done. set_solver.
  - split_and!; [grants|by right|by auto|by eauto].
  - split_and!; [grants|by right|by auto|by eauto].
Qed.
(** A request that does not reach the user leaves the manager as it is. *)
Lemma request_quiet s w a m :
  let '(r, m') := request s w a m in
  (user_prompted (event r) = false ∧ m' = m)
  ∨ (user_prompted (event r) = true ∧ ∃ trigger, trigger ∈ prompt_triggers ∧ (r, m') = ask_user json_to_string w a trigger m).
Proof.
  pose proof (request_rung iter_set json_to_string s w a m) as Hr. destruct (request s w a m) as [r m'].
  inv Hr; try (by left); [match goal with Ha : auto_stage _ _ _ _ = _ |- _ => by apply auto_settled in Ha as [->|[->| ->]]; left end|right].
  match goal with Hu : ask_user _ _ _ ?trigger _ = _, Ha : auto_reason ?reason |- _ =>
    pose proof (trigger_reason (policy_view s a) reason Ha) as Ht; pose proof (asked_event json_to_string w a trigger m Ht) as [Hp _];
    rewrite Hu in Hp; split; [done|]; exists trigger; split; [done|by symmetry] end.
Qed.

(** C23: Grants come from the user alone. A request changes what is granted only
    through the user's answer to a prompt about it, and then by no more than the
    answer names: the command or the prefix the user chose, this very MCP tool or
    its own server (whatever name the client sends back), the domain shown; edits
    for the session only when the user says so. What was granted or excluded stays
    so, the blanket grants never change, and a changed state is saved. *)
Theorem grants_come_from_the_user s w a m :
  let '(r, m') := request s w a m in
  grown a (outcome w) (state m) (state m')
  ∧ saved_up_to_date m m'
  ∧ (m' ≠ m → user_prompted (event r) = true)
  ∧ (state m' ≠ state m → user_allows (outcome w) = true ∨ ∃ prefix, outcome w = RejectAlwaysBashCommand prefix)
  ∧ (allow_edits_for_session m' = true → allow_edits_for_session m = true ∨ outcome w = AllowEditsForSession).
Proof.
  pose proof (request_quiet s w a m) as Hq. destruct (request s w a m) as [r m'].
  destruct Hq as [[_ ->]|(Hp & trigger & _ & Hask)].
  - split_and!; [grants|by left|done|done|by left].
  - destruct (asked_grants w a trigger m) as (? & ? & ? & ?). rewrite <-Hask in *. cbn in *. auto.
Qed.

(** ** Every run *)

Definition turn_fits (t : ClassifierTurn) : Prop :=
  match t with PermissionDecision _ args _ => String.length args ≤ CLASSIFIER_TURN_MAX_LEN | _ => True end.

Record manager_ok (s : Setup) (m : Manager) : Prop := {
  ok_pin : yolo_pin s ≠ None → yolo_mode m = false;
  ok_modes : yolo_mode m = true → auto_mode m = false;
  ok_recorded : length (recorded_permission_decisions m) ≤ MAX_RECORDED_PERMISSION_DECISIONS
                ∧ Forall turn_fits (recorded_permission_decisions m);
  ok_edits : edit_policy (state m) ≠ EditAllow;
  ok_saved : Forall (λ st, edit_policy st ≠ EditAllow) (saved m);
}.

Lemma clamp_pinned b pin : pin ≠ None → clamp_yolo b pin = false.
Proof. destruct pin; [|done]. by destruct b. Qed.

Lemma spawn_ok s yolo loaded : manager_ok s (spawn_permission_manager s yolo loaded).
Proof.
  unfold spawn_permission_manager. constructor; (destruct (edit_policy loaded) eqn:He; cbn; try rewrite He; try done);
    try (apply clamp_pinned); try (by intros ->); try (by repeat constructor); try (by split; [lia|constructor]).
Qed.
Lemma recorded_fits a d out m :
  length (recorded_permission_decisions m) ≤ MAX_RECORDED_PERMISSION_DECISIONS →
  Forall turn_fits (recorded_permission_decisions m) →
  let m' := record_decision json_to_string a d out m in
  length (recorded_permission_decisions m') ≤ MAX_RECORDED_PERMISSION_DECISIONS
  ∧ Forall turn_fits (recorded_permission_decisions m').
Proof.
  intros Hl Hf. unfold record_decision. destruct (prompted_decision_approved d out) as [approved|]; [|done]. cbn [recorded_permission_decisions].
  cbn. rewrite length_drop, length_app. cbn. split; [lia|].
  apply Forall_drop, Forall_app. split; [done|]. constructor; [apply decision_args_fit|constructor].
Qed.

Lemma outcome_keeps a w m :
  let '(_, m') := match a with Bash cmd => bash_outcome cmd (outcome w) m | _ => other_outcome a (outcome w) m end in
  recorded_permission_decisions m' = recorded_permission_decisions m ∧ yolo_mode m' = yolo_mode m ∧ auto_mode m' = auto_mode m.
Proof. destruct a, (outcome w); cbn; try done; by repeat case_match. Qed.

Lemma asked_ok s w a trigger m : manager_ok s m → manager_ok s (ask_user json_to_string w a trigger m).2.
Proof.
  intros [Hpin Hmodes [Hl Hf] He Hs]. destruct (asked_grants w a trigger m) as (Hg & Hsaved & _).
  assert (yolo_mode (ask_user json_to_string w a trigger m).2 = yolo_mode m
    ∧ auto_mode (ask_user json_to_string w a trigger m).2 = auto_mode m
    ∧ length (recorded_permission_decisions (ask_user json_to_string w a trigger m).2) ≤ MAX_RECORDED_PERMISSION_DECISIONS
    ∧ Forall turn_fits (recorded_permission_decisions (ask_user json_to_string w a trigger m).2)) as (Hy & Ha & Hr).
  { unfold ask_user. pose proof (outcome_keeps a w m) as Hk.
    destruct (match a with Bash cmd => _ | _ => _ end) as [[d out] m0]. cbn [snd].
    destruct Hk as (Hr & Hy & Ha), (record_keeps a d out m0) as (_ & _ & _ & -> & ->).
    split_and!; [done|done| |]; apply recorded_fits; by rewrite Hr. }
  constructor; rewrite ?Hy, ?Ha; try done.
  - rewrite (grown_edit_policy _ _ _ _ Hg). done.
  - destruct Hsaved as [[_ ->]| ->]; [done|]. apply Forall_app. split; [done|]. constructor; [|constructor].
    by rewrite (grown_edit_policy _ _ _ _ Hg).
Qed.

Lemma handle_ok s c m : manager_ok s m → manager_ok s (handle iter_set json_to_string s c m).2.
Proof.
  intros Hm. destruct c as [w a|enabled|enabled|clf|ts|text| |]; cbn [handle]; try (destruct Hm; by constructor).
  - pose proof (request_quiet s w a m) as Hq. destruct (request s w a m) as [r m']. cbn.
    destruct Hq as [[_ ->]|(_ & trigger & _ & Hask)]; [done|]. pose proof (asked_ok s w a trigger m Hm) as Hok. by rewrite <-Hask in Hok.
  - destruct Hm as [Hpin Hmodes Hr He Hs]. destruct (clamp_yolo enabled (yolo_pin s)) eqn:Hc; constructor; cbn; try done.
    intros Hp. by rewrite clamp_pinned in Hc.
  - destruct Hm as [Hpin Hmodes Hr He Hs]. by destruct enabled; constructor; cbn.
  - destruct Hm as [Hpin Hmodes Hr He Hs]. constructor; cbn; try done. apply Forall_app. split; [done|]. by repeat constructor.
Qed.

(** The requests that come before the session is shut down. *)
Fixpoint requests_of (cs : list PermissionCommand) : nat :=
  match cs with
  | [] | Shutdown :: _ => 0
  | Request _ _ :: cs => S (requests_of cs)
  | _ :: cs => requests_of cs
  end.

Lemma pinned_request s w a m r m' : manager_ok s m → request s w a m = (r, m') → yolo_pin s ≠ None →
  decision_reason (event r) ≠ reasons.YOLO.
Proof.
  intros Hm Hreq Hpin Hwhy. apply (ok_pin _ _ Hm) in Hpin. pose proof (request_reason iter_set json_to_string s w a m) as Hr.
  rewrite Hreq in Hr. cbn in Hr. destruct Hr as [[Hd _]|[[_ ?]|Hin]]; [by rewrite Hwhy in Hd|congruence|by apply not_other in Hin as [_ ?]].
Qed.

Lemma actor_ok s cs : ∀ m, manager_ok s m →
  let '(rs, m') := actor iter_set json_to_string s cs m in
  manager_ok s m' ∧ (yolo_pin s ≠ None → Forall (λ r, decision_reason (event r) ≠ reasons.YOLO) rs) ∧ length rs = requests_of cs.
Proof.
  induction cs as [|c cs IH]; intros m Hm; [by cbn|].
  pose proof (handle_ok s c m Hm) as Hok. destruct c as [w a| | | | | | |]; cbn [actor handle] in *; try done;
    try (by match goal with |- context [actor _ _ s cs ?m1] => specialize (IH m1 Hok); by destruct (actor _ _ s cs m1) end).
  destruct (request s w a m) as [r m1] eqn:Hreq. cbn [snd] in Hok. specialize (IH m1 Hok).
  destruct (actor iter_set json_to_string s cs m1) as [rs m']. destruct IH as (? & ? & Hlen). split_and!; [done| |cbn; by rewrite Hlen].
  intros Hpin. constructor; [exact (pinned_request s w a m r m1 Hm Hreq Hpin)|auto].
Qed.

(** The manager stays consistent over every run. From its start, whatever
    was stored, and whatever requests and commands arrive in whatever order: a
    managed pin keeps always-approve off and no request is ever allowed by it;
    always-approve and auto mode are never on together; the standing policy never
    becomes allow-all-edits, in memory or in what is saved; what the classifier is
    told of earlier decisions stays within its bounds; and every request before
    the shutdown is settled, one by one. *)
Lemma manager_stays_consistent s (initial_yolo : bool) (loaded : PermissionState) (cs : list PermissionCommand) :
  let '(rs, m) := actor iter_set json_to_string s cs (spawn_permission_manager s initial_yolo loaded) in
  manager_ok s m
  ∧ (yolo_pin s ≠ None → Forall (λ r, decision_reason (event r) ≠ reasons.YOLO) rs)
  ∧ length rs = requests_of cs.
Proof. apply actor_ok, spawn_ok. Qed.
End granting.

(** ** Witnesses *)

Import Demo.

Lemma script_is_as_safe_as_its_parts_witness :
  all_commands_from_script ls = Some [mkPlain ["ls"; "-l"] 0 5]
  ∧ segments (evaluate_bash iter_set ls state_default true) = AutoAllow false
  ∧ ∀ ws, ws ∈ judged_words [mkPlain ["ls"; "-l"] 0 5] → fine state_default true ws.
Proof.
  assert (all_commands_from_script ls = Some [mkPlain ["ls"; "-l"] 0 5]) as Hc by (vm_compute; reflexivity).
  assert (segments (evaluate_bash iter_set ls state_default true) = AutoAllow false) as He by (vm_compute; reflexivity).
  split; [exact Hc|]. split; [exact He|].
  pose proof (script_is_as_safe_as_its_parts iter_set iter_law ls state_default true _ Hc) as Hs. cbv zeta in Hs.
  rewrite He in Hs. intros ws Hin. exact (proj2 (proj1 Hs ws Hin)).
Defined.

Lemma ask_rule_binds_witness :
  policy_decision (policy_view ask_setup (Bash ls)) = Some Ask
  ∧ answer (handle_request iter_set json_to_string ask_setup (world AllowOnce) (Bash ls) manager).1 = Some Allow
  ∧ (by_user (world AllowOnce) (handle_request iter_set json_to_string ask_setup (world AllowOnce) (Bash ls) manager).1
     ∨ (yolo_mode manager = true ∧ shell_forced_prompt (policy_view ask_setup (Bash ls)) = false)
     ∨ remembered ask_setup manager (Bash ls) ∨ out_of_reach ask_setup manager (Bash ls)).
Proof.
  assert (policy_decision (policy_view ask_setup (Bash ls)) = Some Ask) as Hask by (vm_compute; reflexivity).
  assert (answer (handle_request iter_set json_to_string ask_setup (world AllowOnce) (Bash ls) manager).1 = Some Allow) as Hallow
    by (vm_compute; reflexivity).
  split; [exact Hask|]. split; [exact Hallow|].
  pose proof (ask_rule_binds iter_set json_to_string ask_setup (world AllowOnce) (Bash ls) manager iter_law Hask) as Hb.
  destruct (handle_request iter_set json_to_string ask_setup (world AllowOnce) (Bash ls) manager) as [r m'] in *. exact (proj1 Hb Hallow).
Defined.
