(* ===== verification/McpPolicyFacts.v ===== *)
(** * Which MCP servers a managed policy admits: the theorems *)

From Stdlib Require Import Ascii String.
From S2P Require Import Prelude RustStr TrimLemmas PathLemmas AuditParse PermPolicy McpPolicy PermDemo.
From stdpp Require Import options.

(** ** The specification: what a single entry says of a server *)

Section spec.
Context `{CaseGlobs, Urls}.

Definition entry_applies (server : McpServer) (e : AllowedMcpServer) : bool :=
  match e, server with
  | EntryName _, _ => true
  | EntryHttp _, (HttpServer _ _ | SseServer _ _) => true
  | EntryStdio _, StdioServer _ _ => true
  | _, _ => false
  end.

Definition entry_allows (server : McpServer) (e : AllowedMcpServer) : bool :=
  match e, server with
  | EntryName name, _ => mcp_name_matches name (mcp_server_name server)
  | EntryHttp pat, (HttpServer _ url | SseServer _ url) => url_glob_matches pat url
  | EntryStdio c, StdioServer _ command => String.eqb c command
  | _, _ => false
  end.

Definition entry_denies (server : McpServer) (e : AllowedMcpServer) : bool :=
  match e, server with
  | EntryHttp pat, (HttpServer _ url | SseServer _ url) => url_deny_matches pat url
  | _, _ => entry_allows server e
  end.

(** ** The lists by kind hold the entries *)

Definition urls_of (l : list AllowedMcpServer) : list string := omap (λ e, match e with EntryHttp u => Some u | _ => None end) l.
Definition commands_of (l : list AllowedMcpServer) : list string := omap (λ e, match e with EntryStdio c => Some c | _ => None end) l.
Definition names_of (l : list AllowedMcpServer) : list string := omap (λ e, match e with EntryName n => Some n | _ => None end) l.

Lemma split_mcp_entries_spec l : split_mcp_entries l = (urls_of l, commands_of l, names_of l).
Proof.
  unfold split_mcp_entries.
  assert (∀ u c n, foldl (λ acc e, split_mcp_entry e acc) (u, c, n) l = (u ++ urls_of l, c ++ commands_of l, n ++ names_of l)) as Hgo; [|by rewrite Hgo].
  induction l as [|e l IH]; intros u c n; [by rewrite !app_nil_r|]. cbn [foldl]. unfold split_mcp_entry at 2.
  destruct e; rewrite IH; unfold urls_of, commands_of, names_of; cbn [omap list_omap]; by rewrite <-!app_assoc.
Qed.

Lemma any_cons {A} (p : A → bool) x l : any p (x :: l) = p x || any p l.
Proof. reflexivity. Qed.

Lemma any_omap {A B} (f : A → option B) (p : B → bool) l :
  any p (omap f l) = any (λ x, match f x with Some y => p y | None => false end) l.
Proof. induction l as [|x l IH]; [done|]. rewrite any_cons, <-IH. cbn [omap list_omap]. by destruct (f x). Qed.

Lemma any_orb {A} (p q : A → bool) l : any p l || any q l = any (λ x, p x || q x) l.
Proof. induction l as [|x l IH]; [done|]. rewrite !any_cons, <-IH. by destruct (p x), (q x), (any p l), (any q l). Qed.

Lemma any_ext {A} (p q : A → bool) l : (∀ x, p x = q x) → any p l = any q l.
Proof. intros Hpq. induction l as [|x l IH]; [done|]. by rewrite !any_cons, Hpq, IH. Qed.

Lemma is_nil_omap {A B} (f : A → option B) l : negb (is_nil (omap f l)) = any (λ x, match f x with Some _ => true | None => false end) l.
Proof. induction l as [|x l IH]; [done|]. rewrite any_cons, <-IH. cbn [omap list_omap]. by destruct (f x). Qed.

Lemma denied_by_an_entry a d src server : is_server_denied (allowlist_new a d src) server = any (entry_denies server) d.
Proof.
  unfold allowlist_new, is_server_denied. rewrite !split_mcp_entries_spec. cbn [deny_names deny_url_patterns deny_commands].
  unfold names_of, urls_of, commands_of. destruct server; rewrite !any_omap, ?orb_false_r, ?any_orb; apply any_ext; intros []; cbn; by rewrite ?orb_false_r.
Qed.

(** One dimension of the allowed entries, as the code adds it. *)
Lemma add_dimension (p : string → bool) l (r m : bool) :
  (if negb (is_nil l) then (true, m || any p l) else (r, m)) = (r || negb (is_nil l), m || any p l).
Proof. destruct l; cbn [is_nil negb]; [by rewrite !orb_false_r|by rewrite orb_true_r]. Qed.

Lemma first_dimension (p : string → bool) l :
  (if negb (is_nil l) then (true, any p l) else (false, false)) = (negb (is_nil l), any p l).
Proof. exact (add_dimension p l false false). Qed.

(** C18: a server is admitted exactly when no denied entry matches it and,
    unless no allowed entry speaks of its kind, some allowed entry matches it:
    a denied entry wins over every allowed one, a name speaks of every server,
    a URL only of remote servers, a command only of local ones. *)
Theorem server_policy_reads_its_entries a d src server :
  is_server_allowed (allowlist_new a d src) server
  = negb (any (entry_denies server) d) && (negb (any (entry_applies server) a) || any (entry_allows server) a).
Proof.
  unfold is_server_allowed. rewrite denied_by_an_entry.
  unfold allowlist_new, is_restricted. rewrite !split_mcp_entries_spec. cbn [entries deny_entries names url_patterns commands].
  rewrite first_dimension.
  assert (∀ r m : bool, r = any (entry_applies server) a → m = any (entry_allows server) a →
    (if negb (negb (is_nil a) || negb (is_nil d)) then true
     else if any (entry_denies server) d then false else negb r || m)
    = negb (any (entry_denies server) d) && (negb (any (entry_applies server) a) || any (entry_allows server) a)) as Hend.
  { intros r m -> ->. destruct a, d; [done| | |]; cbn [is_nil negb orb]; by destruct (any (entry_denies server) _). }
  unfold names_of, urls_of, commands_of.
  destruct server; rewrite ?add_dimension; apply Hend; rewrite ?is_nil_omap, ?any_omap, ?any_orb; apply any_ext; intros []; cbn; by rewrite ?orb_false_r.
Qed.
End spec.

(** ** A URL in its parts

    The text of a URL as a client writes it around a host. *)

Record UrlParts : Type := mkParts {
  scheme : string;
  userinfo : option string;
  host : string;
  port : option string;
  path : string;
  tail : string;
}.

Definition url_text (u : UrlParts) : string :=
  scheme u +:+ "://" +:+ (match userinfo u with Some i => i +:+ "@" | None => "" end
    +:+ host u +:+ match port u with Some p => ":" +:+ p | None => "" end) +:+ path u +:+ tail u.

Definition free (cs s : string) : bool := all (λ c, char_free c s) (list_ascii_of_string cs).

Definition url_ok (u : UrlParts) : bool :=
  free ":/?#" (scheme u)
  && match userinfo u with Some i => free "/?#" i | None => true end
  && free ":@/?#" (host u)
  && match port u with Some p => free "@/?#" p | None => true end
  && (is_empty (path u) || starts_with "/" (path u)) && free "?#" (path u)
  && (is_empty (tail u) || starts_with "?" (tail u) || starts_with "#" (tail u)).

(** The host as policies compare it. *)
Definition host_key (h : string) : string := to_ascii_lowercase (trim_end_char "." h).

Lemma char_free_app_eq c s t : char_free c (s +:+ t) = char_free c s && char_free c t.
Proof. apply all_chars_app. Qed.

Lemma head_split_free c s t : char_free c s = true → (t = "" ∨ starts_with (String c "") t = true) → head (split_char c (s +:+ t)) = Some s.
Proof.
  intros Hs [->|[t' ->]%starts_with_spec].
  - by rewrite str_app_nil_r, split_char_free.
  - by rewrite split_char_sep.
Qed.

Lemma head_split_app c s t : char_free c s = true → ∃ t', head (split_char c (s +:+ t)) = Some (s +:+ t')
  ∧ (∀ d, d ≠ c → starts_with (String d "") t = true → starts_with (String d "") t' = true).
Proof.
  intros Hs. destruct (split_char_cons c t) as (h & r & Ht). exists h. rewrite (split_char_prefix c s t h r) by done.
  split; [done|]. intros d Hd [t' ->]%starts_with_spec. change (String d "" +:+ t') with (String d t') in Ht.
  unfold split_char in Ht. cbn in Ht. apply not_eq_sym, Ascii.eqb_neq in Hd. rewrite Hd in Ht.
  destruct (split_pred _ t'); injection Ht as <- <-; rewrite starts_with_cons, Ascii.eqb_refl; reflexivity.
Qed.

Lemma strip_tail s t : free "?#" s = true → is_empty t || starts_with "?" t || starts_with "#" t = true →
  strip_url_query (s +:+ t) = s.
Proof.
  unfold free, all. cbn [forallb list_ascii_of_string]. rewrite !andb_true_iff. intros (Hq & Hh & _) Ht. unfold strip_url_query.
  destruct (starts_with "?" t) eqn:Et.
  - destruct (head_split_app "#" s t Hh) as (t' & -> & Ht'). cbv beta iota zeta delta [from_option id].
    rewrite (head_split_free "?" s t'); [done|done|]. right. by apply Ht'.
  - assert (t = "" ∨ starts_with "#" t = true) as Ht' by (destruct t; [by left|by right]).
    rewrite (head_split_free "#" s t Hh Ht'). cbv beta iota zeta delta [from_option id]. rewrite <-(str_app_nil_r s) at 1. rewrite (head_split_free "?" s ""); [done|done|by left].
Qed.

Lemma find_sep c p w s : char_free c w = true → find (String c p) (w +:+ String c p +:+ s) = Some (String.length w).
Proof.
  intros Hw. induction w as [|d w IH].
  - rewrite str_app_nil_l. destruct (String c p +:+ s) eqn:E; [done|]. cbn [find]. rewrite <-E, starts_with_app. done.
  - unfold char_free in Hw. cbn [all_chars] in Hw. apply andb_true_iff in Hw as [Hd Hw]. rewrite str_app_cons. cbn [find].
    rewrite starts_with_ne by (by apply Ascii.eqb_neq, negb_true_iff). by rewrite (IH Hw).
Qed.

Lemma drop_bytes_app_more w k s : drop_bytes (String.length w + k) (w +:+ s) = drop_bytes k s.
Proof. induction w as [|c w IH]; [done|]. rewrite str_app_cons. exact IH. Qed.

Lemma last_app_split s t : char_free "@" t = true → last (split_char "@" (s +:+ String "@" t)) = Some t.
Proof. intros Ht. rewrite split_char_sep_app, (split_char_free "@" t) by done. apply last_snoc. Qed.

Definition host_port (u : UrlParts) : string := host u +:+ match port u with Some p => ":" +:+ p | None => "" end.
Definition authority (u : UrlParts) : string := match userinfo u with Some i => i +:+ "@" | None => "" end +:+ host_port u.

Lemma url_text_eq u : url_text u = (scheme u +:+ "://" +:+ authority u +:+ path u) +:+ tail u.
Proof. unfold url_text, authority, host_port. by rewrite !str_app_assoc. Qed.

Ltac url_parts H := unfold url_ok, free, all in H; cbn [forallb list_ascii_of_string] in H; rewrite ?andb_true_iff in H; destruct_and?.

Lemma host_port_free u c : url_ok u = true → c ∈ ["@"; "/"; "?"; "#"]%char → char_free c (host_port u) = true.
Proof.
  intros H Hc. url_parts H. unfold host_port. rewrite char_free_app_eq.
  assert (char_free c (host u) = true) as -> by (rewrite !elem_of_cons, elem_of_nil in Hc; naive_solver).
  destruct (port u) as [p|]; [|done]. rewrite char_free_app_eq. rewrite ?andb_true_iff in *; destruct_and?.
  rewrite !elem_of_cons, elem_of_nil in Hc. naive_solver.
Qed.

Lemma authority_free u c : url_ok u = true → c ∈ ["/"; "?"; "#"]%char → char_free c (authority u) = true.
Proof.
  intros H Hc. unfold authority. rewrite char_free_app_eq, (host_port_free u c) by (done || by right). rewrite andb_true_r.
  url_parts H. rewrite !elem_of_cons, elem_of_nil in Hc.
  destruct (userinfo u); [|done]. rewrite char_free_app_eq. rewrite ?andb_true_iff in *; destruct_and?. naive_solver.
Qed.

Lemma authority_host u : url_ok u = true →
  last (split_char "@" (authority u)) = Some (host_port u) ∧ head (split_char ":" (host_port u)) = Some (host u).
Proof.
  intros H. assert (char_free "@" (host_port u) = true) as Hat by (apply host_port_free; [done|left]). split.
  - unfold authority. destruct (userinfo u) as [i|]; [|by rewrite str_app_nil_l, split_char_free].
    rewrite str_app_assoc. by apply last_app_split.
  - url_parts H. unfold host_port. apply head_split_free; [done|]. destruct (port u); [right|by left]. done.
Qed.

Lemma find_absent c s : char_free c s = true → find (String c "") s = None.
Proof.
  unfold char_free. induction s as [|d s IH]; [done|]. cbn [all_chars]. intros [Hd Hs]%andb_true_iff. cbn [find].
  rewrite starts_with_ne by (by apply Ascii.eqb_neq, negb_true_iff). by rewrite IH.
Qed.

Lemma find_path a p : char_free "/" a = true → is_empty p || starts_with "/" p = true →
  match find "/" (a +:+ p) with
  | Some i => (take_bytes i (a +:+ p), drop_bytes i (a +:+ p))
  | None => (a +:+ p, "")
  end = (a, p).
Proof.
  intros Ha. destruct p as [|c p]; [intros _; by rewrite str_app_nil_r, find_absent|].
  cbn [is_empty orb]. intros [p' ->]%starts_with_spec. change ("/" +:+ p') with (String "/" "" +:+ p').
  by rewrite find_sep, take_bytes_app, drop_bytes_app.
Qed.

(** What the policy compares of a URL: its host and its path. *)
Lemma split_url u : url_ok u = true →
  split_host_path (strip_url_query (url_text u))
  = (if is_empty (host_key (host u)) then None else Some (host_key (host u)), path u).
Proof.
  intros H. destruct (authority_host u H) as [Hat Hcolon]. pose proof (authority_free u) as Hfree.
  assert (strip_url_query (url_text u) = scheme u +:+ String ":" "//" +:+ (authority u +:+ path u)) as ->.
  { rewrite url_text_eq, strip_tail; [done| |by url_parts H].
    unfold free, all. cbn [forallb list_ascii_of_string]. rewrite !char_free_app_eq, !Hfree by (done || set_solver).
    url_parts H. rewrite !andb_true_iff. by split_and!. }
  unfold split_host_path. change "://" with (String ":" "//"). rewrite find_sep by (by url_parts H).
  rewrite drop_bytes_app_more. change (drop_bytes 3 (String ":" "//" +:+ ?x)) with x.
  assert (is_empty (path u) || starts_with "/" (path u) = true) as Hpath by (by url_parts H).
  rewrite find_path by (done || (apply Hfree; [done|left])).
  rewrite Hat. cbv beta iota zeta delta [from_option id]. by rewrite Hcolon.
Qed.

(** ** A denied host is denied however the URL is dressed *)

Section denied.
Context `{CaseGlobs, Urls}.

(** Two URLs of one host and path are denied alike. *)
Lemma deny_reads_host_and_path pat u v :
  url_ok u = true → url_ok v = true → host_key (host u) = host_key (host v) → path u = path v →
  url_deny_matches pat (url_text u) = url_deny_matches pat (url_text v).
Proof. intros Hu Hv Hh Hp. unfold url_deny_matches. by rewrite (split_url u), (split_url v), Hh, Hp. Qed.

Lemma split_host_some s h p : split_host_path s = (Some h, p) → is_empty h = false.
Proof.
  unfold split_host_path. destruct (match find "/" _ with Some _ => _ | None => _ end) as [au pa].
  destruct (is_empty (to_ascii_lowercase _)) eqn:E; [done|]. by intros [= <- _].
Qed.

(** a host that is denied by name is denied on every scheme, port and path,
    for every user, query and fragment, in whatever letter case and with however
    many final dots it is written, and whatever else the policy allows - given
    that a glob matches the text it is written as. *)
Lemma denied_host_stays_denied a d src name pat u :
  EntryHttp pat ∈ d → url_ok u = true → split_host_path pat = (Some (host_key (host u)), "") →
  glob_any_case (host_key (host u)) (host_key (host u)) = true →
  is_server_allowed (allowlist_new a d src) (HttpServer name (url_text u)) = false
  ∧ is_server_allowed (allowlist_new a d src) (SseServer name (url_text u)) = false.
Proof.
  intros Hd Hu Hpat Hglob.
  assert (url_deny_matches pat (url_text u) = true) as Hdeny.
  { unfold url_deny_matches. rewrite Hpat, (split_url u Hu).
    rewrite (split_host_some _ _ _ Hpat). by rewrite Hglob. }
  assert (is_restricted (allowlist_new a d src) = true) as Hr.
  { unfold is_restricted, allowlist_new. rewrite !split_mcp_entries_spec. cbn. destruct d; [by apply elem_of_nil in Hd|]. by rewrite orb_true_r. }
  assert (∀ s, is_server_denied (allowlist_new a d src) s = true → is_server_allowed (allowlist_new a d src) s = false) as Hden.
  { intros s Hs. unfold is_server_allowed. by rewrite Hr, Hs. }
  split; apply Hden; rewrite denied_by_an_entry; apply any_spec; by exists (EntryHttp pat).
Qed.
End denied.

(** ** Blind spots *)

(** A backslash ends the authority for the URL standard, not for the policy. *)
Lemma backslash_moves_the_host :
  split_host_path (strip_url_query "https://evil.example\@good.example/mcp") = (Some "good.example", "/mcp").
Proof. vm_compute. reflexivity. Qed.

(** An IPv6 address is cut at its first colon: what is left is no glob, and the
    same for many addresses. *)
Lemma ipv6_hosts_are_cut :
  split_host_path "http://[2001:db8::1]:80/mcp" = (Some "[2001", "/mcp") ∧ split_host_path "http://[2001:db8::2]/mcp" = (Some "[2001", "/mcp").
Proof. vm_compute. done. Qed.

(** A list of allowed URLs leaves local servers as they were. *)
Lemma url_allowlist_leaves_commands `{CaseGlobs, Urls} pat name command :
  is_server_allowed (allowlist_new [EntryHttp pat] [] None) (StdioServer name command) = true.
Proof. reflexivity. Qed.

(** ** Witness *)

Import Demo.

#[local] Instance demo_case_globs : CaseGlobs := λ pat text, String.eqb pat text.

Definition demo_url : UrlParts := mkParts "HTTPS" (Some "me:pw") "Evil.Example." (Some "8443") "/mcp" "?x=1".

Lemma denied_host_stays_denied_witness :
  is_server_allowed (allowlist_new [EntryName "trusted"] [EntryHttp "https://evil.example"] None) (HttpServer "trusted" (url_text demo_url)) = false
  ∧ is_server_allowed (allowlist_new [EntryName "trusted"] [EntryHttp "https://evil.example"] None) (SseServer "trusted" (url_text demo_url)) = false.
Proof.
  apply (denied_host_stays_denied [EntryName "trusted"] [EntryHttp "https://evil.example"] None "trusted" "https://evil.example" demo_url).
  - left.
  - vm_compute. reflexivity.
  - vm_compute. reflexivity.
  - vm_compute. reflexivity.
Defined.
