(* ===== verification/PermResolveFacts.v ===== *)
(** * Which rules a session runs under: the theorems *)

From Stdlib Require Import Ascii String.
From S2P Require Import Prelude RustStr TrimLemmas Disk PathLemmas AuditParse PermTypes PermRules ShellTree PermPolicy ShellAccess PermPolicyFacts AutoMode PermManager PermManagerFacts McpPolicy ClaudeSettings PermResolve PermDemo.
From stdpp Require Import options.

(** ** The files of the other client *)

Section files.
Context (h : Host).

Definition file_rules (path : string) : list PermissionRule :=
  match load_claude_settings h path ≫= permissions with
  | Some perms => rules (into_permission_config perms).1
  | None => []
  end.

Definition file_mode (path : string) : option DefaultPermissionMode :=
  match load_claude_settings h path ≫= default_mode with
  | Some raw => Some (parse_default_mode_claiming_scope raw).1
  | None => None
  end.

Lemma claim_mode_rules load path settings g : all_rules (claim_mode load path settings g) = all_rules g.
Proof. unfold claim_mode. destruct load, (default_mode_source g), (default_mode settings); try done. by destruct (parse_default_mode_claiming_scope _). Qed.

Lemma gather_rules_mode path settings g :
  default_mode_source (gather_rules path settings g) = default_mode_source g
  ∧ applied_mode (gather_rules path settings g) = applied_mode g
  ∧ mode_prompt_policy (gather_rules path settings g) = mode_prompt_policy g.
Proof. unfold gather_rules. destruct (permissions settings); [|done]. by destruct (into_permission_config _). Qed.

Lemma gathered_rules load paths : ∀ g,
  all_rules (foldl (gather_file h load) g paths) = all_rules g ++ concat (map file_rules paths).
Proof.
  induction paths as [|path paths IH]; intros g; cbn [foldl map concat]; [by rewrite app_nil_r|]. rewrite IH, app_assoc. f_equal.
  unfold gather_file, file_rules. destruct (load_claude_settings h path) as [settings|]; cbn [mbind option_bind]; [|by rewrite app_nil_r].
  unfold gather_rules. rewrite <-(claim_mode_rules load path settings g).
  destruct (permissions settings) as [p|]; [|by rewrite app_nil_r]. by destruct (into_permission_config p).
Qed.

(** The mode is claimed by the first file that sets one. *)
Definition claimed_mode (load : UserDefaultModeLoad) (paths : list string) : option DefaultPermissionMode :=
  match load with ApplyUserMode => head (omap file_mode paths) | SkipManagedOwns => None end.

Definition mode_state (g : Gathered) (m : option DefaultPermissionMode) : Prop :=
  applied_mode g = m ∧ (default_mode_source g = None ↔ m = None)
  ∧ mode_prompt_policy g = match m with Some mode => effects_prompt_policy (effects mode) | None => PromptAsk end.

Lemma gathered_mode load paths : ∀ g m, mode_state g m →
  mode_state (foldl (gather_file h load) g paths) (match m with Some _ => m | None => claimed_mode load paths end).
Proof.
  induction paths as [|path paths IH]; intros g m Hg; cbn [foldl].
  { destruct m; [done|]. by destruct load. }
  assert (mode_state (gather_file h load g path)
    (match m with Some _ => m | None => match load with ApplyUserMode => file_mode path | SkipManagedOwns => None end end)) as Hstep.
  { unfold gather_file, file_mode. destruct (load_claude_settings h path) as [settings|]; cbn [mbind option_bind]; [|by destruct m, load].
    unfold mode_state. destruct (gather_rules_mode path settings (claim_mode load path settings g)) as (-> & -> & ->).
    destruct Hg as (Ha & Hs & Hp). unfold claim_mode.
    destruct load, (default_mode_source g) eqn:Es, m as [m0|]; cbn in *; try (naive_solver done).
    all: destruct (default_mode settings) as [raw|]; [|naive_solver].
    all: destruct (parse_default_mode_claiming_scope raw) as [md sk]; cbn; naive_solver. }
  specialize (IH _ _ Hstep). destruct m; [done|]. destruct load; [|done]. cbn [claimed_mode omap list_omap].
  unfold claimed_mode in *. cbn. by destruct (file_mode path).
Qed.

Definition claude_mode_rules (policy_block : option string) (mode : option DefaultPermissionMode) : list PermissionRule :=
  match mode with Some mode => (synthetic_rules_for_default_mode mode policy_block).1.1 | None => [] end.

Definition policy_of (mode : option DefaultPermissionMode) : PromptPolicy :=
  match mode with Some mode => effects_prompt_policy (effects mode) | None => PromptAsk end.

(** What the files come to: every file's rules, then those of the claimed mode. *)
Lemma claude_settings_spec cwd block load :
  let paths := find_claude_settings_paths h cwd in
  (match resolve_claude_settings_inner h cwd block load with Some (cfg, _, _) => cfg | None => config_new [] end)
  = mkConfig (concat (map file_rules paths) ++ claude_mode_rules block (claimed_mode load paths)) (policy_of (claimed_mode load paths)).
Proof.
  intros paths. unfold resolve_claude_settings_inner. fold paths.
  assert (mode_state gathered_nothing None) as Hnone by done.
  destruct (gathered_mode load paths _ _ Hnone) as (Hm & _ & Hp). pose proof (gathered_rules load paths gathered_nothing) as Hr.
  set (g := foldl _ _ paths) in *. rewrite Hm, Hr. cbn [all_rules gathered_nothing app] in *. clearbody g.
  assert (mode_prompt_policy g = policy_of (claimed_mode load paths)) as -> by done.
  unfold claude_mode_rules. destruct (claimed_mode load paths) as [m|];
    [destruct (synthetic_rules_for_default_mode m block) as [[sr ss] sb]|]; cbn [fst snd];
    (match goal with |- context [if ?b then None else _] => destruct b eqn:E end); try done; bools;
    unfold config_new; (match goal with H : is_nil (_ ++ _) = true |- _ => apply is_nil_true in H as -> end);
    (match goal with H : bool_decide (_ = PromptAsk) = true |- _ => by apply bool_decide_eq_true in H as -> end).
Qed.
End files.

Section facts.
Context `{Globs, Urls}.
Context (try_into : Toml → result PermissionConfig string) (h : Host).
Context (work_tree : string → option string) (load_config_file : string → option Toml).

Abbreviation resolve := (resolve_permissions_with_provenance_inner try_into h work_tree load_config_file).
Abbreviation live := (resolve_permissions_with_provenance try_into h work_tree load_config_file).

(** ** The layers before the pin *)

Definition mode_load (inputs : ResolveInputs) : UserDefaultModeLoad :=
  match managed_default_mode (managed inputs) with Some _ => SkipManagedOwns | None => ApplyUserMode end.

Definition claude_part (cwd : string) (inputs : ResolveInputs) : option (PermissionConfig * list SkippedPermission * string) :=
  if is_claude_import_marked h then None else resolve_claude_settings_inner h cwd (policy_block inputs) (mode_load inputs).

Definition managed_synthetic (inputs : ResolveInputs) : list Sourced :=
  match managed_default_mode (managed inputs) with
  | None => []
  | Some mode =>
      tag_with_source (synthetic_rules_for_default_mode mode (policy_block inputs)).1.1
        (FromManagedSettings (default "managed-settings.json" (features_source (features (managed inputs)))))
  end.

Definition layered (layers : list RequirementsLayer) (cwd : string) (inputs : ResolveInputs) : list Sourced :=
  load_requirements_permissions try_into layers ++ managed_permissions (managed inputs) ++ managed_synthetic inputs
  ++ managed_config_rules inputs ++ load_config_toml_permissions try_into h work_tree load_config_file cwd
  ++ match claude_part cwd inputs with Some (cfg, _, path) => tag_with_source (rules cfg) (Settings path) | None => [] end.

Definition kept (layers : list RequirementsLayer) (cwd : string) (inputs : ResolveInputs) : list Sourced :=
  (drop_untrusted_catchall_allows (layered layers cwd inputs) (policy_block inputs)).1.

Definition chosen_policy (cwd : string) (inputs : ResolveInputs) : PromptPolicy :=
  match managed_default_mode (managed inputs) with
  | Some mode => effects_prompt_policy (effects mode)
  | None => match claude_part cwd inputs with Some (cfg, _, _) => PermTypes.prompt_policy cfg | None => PromptAsk end
  end.

(** The resolution is the layers that are kept, with where each came from. *)
Lemma resolve_kept layers cwd inputs : ∃ skip,
  resolve layers cwd inputs
  = if is_nil (kept layers cwd inputs) && bool_decide (chosen_policy cwd inputs = PromptAsk) && is_nil skip then None
    else Some (mkResolved (mkConfig (map value (kept layers cwd inputs)) (chosen_policy cwd inputs))
                 (map source (kept layers cwd inputs)) skip).
Proof.
  unfold resolve_permissions_with_provenance_inner, kept, layered, chosen_policy. unfold managed_synthetic.
  change (if is_claude_import_marked h then None else _) with (claude_part cwd inputs).
  destruct (managed_default_mode (managed inputs)) as [mode|];
    [destruct (synthetic_rules_for_default_mode mode _) as [[sr ss] sb]|];
    destruct (claude_part cwd inputs) as [[[cfg sk] path]|]; cbn [fst snd]; rewrite ?app_nil_r, ?app_nil_l, <-?app_assoc;
    (match goal with |- context [drop_untrusted_catchall_allows ?l ?p] => destruct (drop_untrusted_catchall_allows l p) as [k d] eqn:E end);
    cbn [fst]; eexists; reflexivity.
Qed.

(** The rules of the configuration are the kept ones, resolved or not. *)
Lemma resolved_rules layers cwd inputs r :
  r ∈ map value (kept layers cwd inputs) ↔ ∃ res, resolve layers cwd inputs = Some res ∧ r ∈ rules (config res).
Proof.
  destruct (resolve_kept layers cwd inputs) as [skip ->]. split.
  - intros Hr. destruct (kept layers cwd inputs); [by apply elem_of_nil in Hr|]. cbn [is_nil andb]. by eexists.
  - intros (res & Hres & Hr). destruct (is_nil _ && _ && _); [done|]. by injection Hres as <-.
Qed.

Lemma kept_restriction layers cwd inputs s :
  s ∈ layered layers cwd inputs → action (value s) ≠ RuleAllow → s ∈ kept layers cwd inputs.
Proof.
  intros Hs Ha. unfold kept, drop_untrusted_catchall_allows. destruct (policy_block inputs); [|done]. apply elem_of_bfilter.
  split; [done|]. unfold stands_in_for_yolo, is_catchall_allow. by rewrite bool_decide_false.
Qed.

(** ** What is written is loaded *)

Lemma parsed_action text a r : parse_permission_rule text a = Ok r → action r = a.
Proof.
  unfold parse_permission_rule. intros Hr. repeat case_match; simplify_eq; done.
Qed.

Definition rule_texts (a : RuleAction) (p : ParsedPermissions) : list string :=
  match a with RuleAllow => allow p | RuleDeny => deny p | RuleAsk => ask p end.

(** A TOML document lists a rule: in the list [permission.<action>], or, when it
    has none of these three lists, among the [permission.rules] tables the
    deserializer makes out. *)
Definition short_list (section : Toml) (a : RuleAction) (l : list Toml) : Prop :=
  toml_get (label_of a) section = Some (TArray l).
Definition toml_says (r : PermissionRule) (doc : Toml) : Prop :=
  ∃ section, toml_get "permission" doc = Some section ∧
    ((∃ l text, short_list section (action r) l ∧ TString text ∈ l ∧ parse_permission_rule text (action r) = Ok r)
     ∨ ((∀ a l, ¬ short_list section a l) ∧ ∃ cfg, try_into section = Ok cfg ∧ r ∈ rules cfg)).

(** A settings file lists a rule. *)
Definition settings_say (r : PermissionRule) (p : ParsedPermissions) : Prop :=
  ∃ text, text ∈ rule_texts (action r) p ∧ parse_permission_rule text (action r) = Ok r.

(** A rule stands in a file that the session reads. *)
Inductive written (layers : list RequirementsLayer) (mlayers : list ManagedConfigLayer) (msp : option string) (cwd : string)
    (r : PermissionRule) : Prop :=
| in_requirements l : l ∈ layers → toml_says r (layer_value l) → written layers mlayers msp cwd r
| in_managed_config l : l ∈ mlayers → toml_says r (managed_value l) → written layers mlayers msp cwd r
| in_global_config g doc : user_grok_home h = Some g → is_file h (path_join g "config.toml") = true →
    load_config_file (path_join g "config.toml") = Some doc → toml_says r doc → written layers mlayers msp cwd r
| in_project_config path doc : path ∈ find_project_grok_configs h work_tree cwd →
    load_config_file path = Some doc → toml_says r doc → written layers mlayers msp cwd r
| in_managed_settings path json v p : msp = Some path → read_managed_settings_json h path = Some json →
    value_get "permissions" json = Some v → read_parsed_permissions v = Some p → settings_say r p →
    written layers mlayers msp cwd r
| in_claude_settings path settings p : is_claude_import_marked h = false → path ∈ find_claude_settings_paths h cwd →
    load_claude_settings h path = Some settings → permissions settings = Some p → settings_say r p →
    written layers mlayers msp cwd r.

Lemma compact_none section a : (∀ l, ¬ short_list section a l) → compact_rules section a = None.
Proof.
  intros Hn. unfold compact_rules. destruct (toml_get (label_of a) section) as [v|] eqn:E; [|done].
  destruct v; try done. by destruct (Hn l).
Qed.

Lemma toml_says_loaded doc r src : toml_says r doc → mkSourced r src ∈ extract_toml_permissions try_into doc src.
Proof.
  intros (section & Hsec & Hs). unfold extract_toml_permissions. rewrite Hsec.
  assert (∃ all, parse_toml_permission_section try_into section = Ok all ∧ r ∈ all) as (all & -> & Hall);
    [|apply list_elem_of_fmap; by exists r].
  unfold parse_toml_permission_section. destruct Hs as [(l & text & Hl & Hin & Hr)|(Hn & cfg & Hc & Hin)].
  - assert (∃ rs, compact_rules section (action r) = Some rs ∧ r ∈ rs) as (rs & Hc & Hrs).
    { unfold compact_rules. rewrite Hl. cbn. eexists. split; [done|]. apply list_elem_of_omap. exists (TString text). split; [done|].
      unfold toml_rule, entry_rule. cbn. by rewrite Hr. }
    destruct (compact_rules section RuleDeny) as [d|] eqn:Hd, (compact_rules section RuleAllow) as [w|] eqn:Hw,
      (compact_rules section RuleAsk) as [k|] eqn:Hk; destruct (action r); simplify_eq; try (rewrite Hc in *; done);
      eexists; (split; [reflexivity|]); cbn; rewrite ?app_nil_r, ?elem_of_app; auto.
  - rewrite !compact_none, Hc by done. by exists (rules cfg).
Qed.

Lemma settings_say_config p r : settings_say r p → r ∈ rules (into_permission_config p).1.
Proof.
  intros (text & Ht & Hr). cbn. rewrite !elem_of_app, !list_elem_of_omap.
  assert (entry_rule (action r) text = Some r) as He by (unfold entry_rule; by rewrite Hr).
  destruct (action r); cbn in Ht; eauto 6.
Qed.

Lemma elem_of_concat_map {A B} (f : A → list B) l x y : y ∈ l → x ∈ f y → x ∈ concat (map f l).
Proof. rewrite !list_elem_of_In. intros Hy Hx. apply in_concat. exists (f y). split; [by apply in_map|done]. Qed.

Definition live_inputs (layers : list RequirementsLayer) (mlayers : list ManagedConfigLayer) (msp : option string) : ResolveInputs :=
  mkInputs (resolve_yolo_policy_block layers) (load_managed_settings h msp) (managed_config_permissions try_into mlayers).

Lemma written_layered layers mlayers msp cwd r : written layers mlayers msp cwd r →
  ∃ src, mkSourced r src ∈ layered layers cwd (live_inputs layers mlayers msp).
Proof.
  intros Hw. pose proof (λ doc src, toml_says_loaded doc r src) as Hdoc. unfold layered.
  setoid_rewrite elem_of_app. setoid_rewrite elem_of_app. setoid_rewrite elem_of_app. setoid_rewrite elem_of_app. setoid_rewrite elem_of_app.
  destruct Hw as [l Hl Hs|l Hl Hs|g doc Hg Hf Hd Hs|path doc Hp Hd Hs|path json v p -> Hj Hv Hp Ht|path settings p Hm Hp Hl Hs Ht].
  - eexists. left. by eapply elem_of_concat_map, Hdoc.
  - eexists. do 3 right. left. by eapply elem_of_concat_map, Hdoc.
  - exists (Config (path_join g "config.toml")). do 4 right. left. unfold load_config_toml_permissions. rewrite Hg, Hf. apply elem_of_app. left.
    unfold config_file_permissions. rewrite Hd. by apply Hdoc.
  - exists (Config path). do 4 right. left. unfold load_config_toml_permissions. apply elem_of_app. right.
    eapply elem_of_concat_map; [exact Hp|]. unfold config_file_permissions. rewrite Hd. by apply Hdoc.
  - exists (FromManagedSettings path). right. left. cbn. rewrite Hj. cbn. unfold parse_managed_settings_permissions. rewrite Hv. cbn. rewrite Hp.
    apply list_elem_of_fmap. exists r. split; [done|]. by apply settings_say_config.
  - assert (r ∈ file_rules h path) as Hin by (unfold file_rules; rewrite Hl; cbn; rewrite Hs; by apply settings_say_config).
    unfold claude_part. rewrite Hm.
    pose proof (claude_settings_spec h cwd (policy_block (live_inputs layers mlayers msp)) (mode_load (live_inputs layers mlayers msp))) as Hspec.
    assert (r ∈ concat (map (file_rules h) (find_claude_settings_paths h cwd))) as Hall by (by eapply elem_of_concat_map).
    destruct (resolve_claude_settings_inner _ _ _ _) as [[[cfg sk] pth]|]; cbn zeta in Hspec.
    + exists (Settings pth). do 5 right. subst cfg. cbn [rules]. apply list_elem_of_fmap. exists r. split; [done|]. apply elem_of_app. by left.
    + apply (f_equal rules) in Hspec. symmetry in Hspec. apply app_nil in Hspec as [Hnil _].
      unfold file_rules in Hall, Hnil. rewrite Hnil in Hall. by apply elem_of_nil in Hall.
Qed.

(** C16: A deny or an ask that stands in a file the session reads binds. The
    files are the requirements, the managed settings, the managed, the user's and
    the project's configuration, and, unless they were imported already, the
    settings of the other client. "Stands" means ([written]): in a TOML file, an
    entry of the list permission.deny or .ask that reads as a rule, or, when the
    file has none of the three lists, a rule the deserializer makes out of its
    long form; in a JSON file, an entry that reads as a rule, in managed settings
    only when all the entries are strings. (Elsewhere the program drops the entry: misspelled
    rules, the long form beside a list, a managed list with an entry that is not
    a string are findings of their own.) Whatever the other files say, the
    session then runs under a policy by which a call that matches the deny is
    judged denied, and the permission manager never lets it through in any state
    and mode; a call that matches the ask is judged denied or asked about, never
    allowed and never left undecided by the rules. *)
Theorem written_restriction_binds `{Links, ShellParser} (iter_set : gset string → list string) (json_to_string : Value → string)
    layers mlayers msp cwd r access :
  written layers mlayers msp cwd r → action r ≠ RuleAllow → rule_matches access (compile_rule r) = true →
  ∃ res, live layers mlayers msp cwd = Some res ∧
    match action r with
    | RuleDeny =>
        is_reject (evaluate (policy_new (config res)) access) = true
        ∧ ∀ s w m, compiled_policy s = Some (policy_new (config res)) →
            answer (handle_request iter_set json_to_string s w access m).1 ≠ Some Allow
    | _ => is_reject (evaluate (policy_new (config res)) access) = true ∨ evaluate (policy_new (config res)) access = Some Ask
    end.
Proof.
  intros Hw Ha Hm. destruct (written_layered _ _ _ _ _ Hw) as (src & Hin).
  assert (r ∈ map value (kept layers cwd (live_inputs layers mlayers msp))) as Hkept.
  { apply list_elem_of_fmap. exists (mkSourced r src). split; [done|]. by apply kept_restriction. }
  apply resolved_rules in Hkept as (res & Hres & Hrule). exists res. split; [exact Hres|].
  assert (hits (policy_new (config res)) access (action r)) as Hhits.
  { exists (compile_rule r). split; [|done]. cbn. apply list_elem_of_fmap. eauto. }
  destruct (verdict_spec (policy_new (config res)) access) as (Hrej & Hask & _). destruct (action r); [done| |].
  - split; [by apply Hrej|]. intros s w m Hp. by eapply denied_call_refused.
  - rewrite Hrej, Hask. destruct (decide (is_reject (evaluate (policy_new (config res)) access) = true)) as [?%Hrej|Hn]; [by left|].
    rewrite Hrej in Hn. by right.
Qed.

(** ** The pin *)

Definition locks (l : RequirementsLayer) : Prop :=
  ∃ ui, toml_get "ui" (layer_value l) = Some ui
    ∧ (toml_get "disable_bypass_permissions_mode" ui = Some (TBoolean true) ∨ toml_get "yolo" ui = Some (TBoolean false)).

Lemma lock_bool ui key b : requirements_lock_bool ui key = Some b ↔ ∃ u, ui = Some u ∧ toml_get key u = Some (TBoolean b).
Proof.
  unfold requirements_lock_bool. split.
  - destruct ui as [u|]; [|done]. cbn. destruct (toml_get key u) as [[]|] eqn:E; cbn; try done. intros [= ->]. eauto.
  - intros (u & -> & Hk). cbn. by rewrite Hk.
Qed.

Lemma locked_is_pinned layers l : l ∈ layers → locks l → is_Some (resolve_yolo_policy_block layers).
Proof.
  intros Hl (ui & Hui & Hlock). induction layers as [|l' layers IH]; [by apply elem_of_nil in Hl|]. cbn [resolve_yolo_policy_block].
  case_bool_decide as H1; [by eexists|]. case_bool_decide as H2; [by eexists|].
  apply elem_of_cons in Hl as [->|Hl]; [|by apply IH]. exfalso. rewrite !lock_bool in *. destruct Hlock; eauto.
Qed.

(** with always-approve locked by any requirements layer, the session runs
    under no rule that stands in for it, unless an administrator's file holds
    it: every catch-all allow of commands, tools or fetches that is left comes
    from the system's requirements or the managed settings, and each rule is
    still shown with the file it came from. *)
Lemma pin_leaves_no_stand_in layers mlayers msp cwd l res :
  l ∈ layers → locks l → live layers mlayers msp cwd = Some res →
  length (sources res) = length (rules (config res))
  ∧ ∀ i r src, rules (config res) !! i = Some r → sources res !! i = Some src → is_catchall_allow r = true → is_admin_source src = true.
Proof.
  intros Hl Hlock Hres. destruct (locked_is_pinned _ _ Hl Hlock) as [reason Hpin].
  change (resolve layers cwd (live_inputs layers mlayers msp) = Some res) in Hres.
  destruct (resolve_kept layers cwd (live_inputs layers mlayers msp)) as [skip Heq]. rewrite Heq in Hres.
  destruct (is_nil _ && _ && _); [done|]. injection Hres as <-. cbn [config sources rules]. split; [by rewrite !length_map|].
  intros i r src Hr Hs Hcatch. change (map source ?l) with (source <$> l) in Hs. rewrite list_lookup_fmap in Hr. rewrite list_lookup_fmap in Hs.
  destruct (kept layers cwd (live_inputs layers mlayers msp) !! i) as [s|] eqn:Hi; [|done]. injection Hr as <-. injection Hs as <-.
  apply list_elem_of_lookup_2 in Hi. unfold kept, drop_untrusted_catchall_allows in Hi. cbn [live_inputs policy_block] in Hi. rewrite Hpin in Hi.
  apply elem_of_bfilter in Hi as [_ Hi]. unfold stands_in_for_yolo in Hi. rewrite Hcatch in Hi. by bools.
Qed.

(** ** The mode *)

Definition session_mode (managed : ManagedSettings) (cwd : string) : option DefaultPermissionMode :=
  match managed_default_mode managed with
  | Some mode => Some mode
  | None => if is_claude_import_marked h then None else claimed_mode h ApplyUserMode (find_claude_settings_paths h cwd)
  end.

Lemma chosen_is_session_mode cwd inputs : chosen_policy cwd inputs = policy_of (session_mode (managed inputs) cwd).
Proof.
  unfold chosen_policy, session_mode, claude_part, mode_load. destruct (managed_default_mode (managed inputs)); [done|].
  destruct (is_claude_import_marked h); [done|].
  pose proof (claude_settings_spec h cwd (policy_block inputs) ApplyUserMode) as Hspec. cbn zeta in Hspec. apply (f_equal PermTypes.prompt_policy) in Hspec.
  by destruct (resolve_claude_settings_inner _ _ _ _) as [[[cfg sk] p]|].
Qed.

(** The managed settings decide what happens to calls no rule speaks of; only
    when they set no mode does the nearest settings file that sets one decide -
    a value nobody knows is the default and still keeps the files further out
    from deciding. Under a managed mode the other files add their rules and
    nothing else. *)
Lemma nearest_mode_decides layers mlayers msp cwd :
  default PromptAsk ((λ res, PermTypes.prompt_policy (config res)) <$> live layers mlayers msp cwd)
  = policy_of (session_mode (load_managed_settings h msp) cwd)
  ∧ (managed_default_mode (load_managed_settings h msp) ≠ None →
     ∀ cfg sk p, claude_part cwd (live_inputs layers mlayers msp) = Some (cfg, sk, p) →
     rules cfg = concat (map (file_rules h) (find_claude_settings_paths h cwd))).
Proof.
  split.
  - change (live layers mlayers msp cwd) with (resolve layers cwd (live_inputs layers mlayers msp)).
    destruct (resolve_kept layers cwd (live_inputs layers mlayers msp)) as [skip ->]. rewrite chosen_is_session_mode.
    cbn [managed live_inputs]. set (m := session_mode _ _). destruct (is_nil _ && bool_decide _ && is_nil _) eqn:E; [|done].
    bools. by match goal with H : bool_decide _ = true |- _ => apply bool_decide_eq_true in H as -> end.
  - intros Hm cfg sk p. unfold claude_part, mode_load. cbn [live_inputs managed policy_block].
    destruct (managed_default_mode _); [|done]. destruct (is_claude_import_marked h); [done|]. intros Hc.
    pose proof (claude_settings_spec h cwd (resolve_yolo_policy_block layers) SkipManagedOwns) as Hspec. cbn zeta in Hspec.
    rewrite Hc in Hspec. subst cfg. cbn [rules claimed_mode claude_mode_rules]. by rewrite app_nil_r.
Qed.
End facts.

(** The walk over project configurations reaches the root, too. *)
Lemma project_configs_fuel h n m root dir :
  length (path_components dir) < n → n ≤ m → project_configs_go h m root dir = project_configs_go h n root dir.
Proof.
  revert m dir. induction n as [|n IH]; intros [|m] dir Hn Hm; try lia. cbn [project_configs_go]. f_equal. destruct (path_eq dir root); [done|].
  destruct (path_parent dir) as [q|] eqn:Hq; [|done]. apply parent_shorter in Hq. apply IH; lia.
Qed.

(** ** What a search leaves out *)

Lemma deny_read_globs_spec config g : g ∈ deny_read_globs_from_config config ↔
  ∃ r, r ∈ rules config ∧ action r = RuleDeny ∧ tool r ∈ [ForRead; ForGrep; ForAny] ∧ pattern r = Some g.
Proof.
  unfold deny_read_globs_from_config. rewrite list_elem_of_omap. split.
  - intros (r & [Hr [Ha Ht]%andb_true_iff]%elem_of_bfilter & Hp). exists r.
    apply bool_decide_eq_true in Ha. by apply contains_spec in Ht.
  - intros (r & Hr & Ha & Ht & Hp). exists r. split; [|done]. apply elem_of_bfilter. split; [done|]. apply andb_true_iff.
    split; [by apply bool_decide_eq_true|by apply contains_spec].
Qed.

(** ** Blind spots *)

(** One entry that is no string, and the managed file's rules are gone; the same
    list in a settings file keeps its other entries. *)
Lemma one_odd_entry_drops_managed_rules path :
  let perms := Object [("deny", Array [Str "Bash(rm:*)"; Num (PosInt 7)])] in
  parse_managed_settings_permissions (Object [("permissions", perms)]) path = []
  ∧ extract_permissions (Object [("permissions", perms)]) = Some (mkPermissions [] ["Bash(rm:*)"] []).
Proof. done. Qed.

(** A list in the short form hides the rules in the long one. *)
Lemma short_form_hides_the_long_one try_into rs :
  parse_toml_permission_section try_into (TTable [("ask", TArray []); ("rules", rs)]) = Ok [].
Proof. done. Qed.

(** A deny with a misspelled tool is no rule. *)
Lemma misspelled_deny_is_dropped : toml_rule RuleDeny (TString "bash(rm:*)") = None.
Proof. vm_compute. reflexivity. Qed.

(** ** Witnesses *)

Import Demo.

Definition demo_host : Host :=
  mkHost (λ _, None) (λ _, false) (λ _, false) Some None None None (λ _, Err "") (λ _, Err "") (λ _, "").
Definition demo_try_into (v : Toml) : result PermissionConfig string := Err "".
Definition demo_section (key text : string) : string * Toml := ("permission", TTable [(key, TArray [TString text])]).
Definition demo_layers : list RequirementsLayer :=
  [mkLayer (TTable [demo_section "deny" "Bash(rm:*)"]) "/home/u/.Doggy/requirements.toml" false].
Definition pinned_layers : list RequirementsLayer :=
  [mkLayer (TTable [demo_section "allow" "Bash"]) "/home/u/.Doggy/requirements.toml" false;
   mkLayer (TTable [("ui", TTable [("disable_bypass_permissions_mode", TBoolean true)]); demo_section "allow" "Bash"]) "/etc/grok/requirements.toml" true].

Lemma written_restriction_binds_witness :
  ∃ res, resolve_permissions_with_provenance demo_try_into demo_host (λ _, None) (λ _, None) demo_layers [] None "/w" = Some res
    ∧ is_reject (evaluate (policy_new (PermResolve.config res)) (Bash "rm -rf /")) = true
    ∧ ∀ s w m, compiled_policy s = Some (policy_new (PermResolve.config res)) →
        answer (handle_request elements (λ _, "") s w (Bash "rm -rf /") m).1 ≠ Some Allow.
Proof.
  apply (written_restriction_binds demo_try_into demo_host (λ _, None) (λ _, None) elements (λ _, "") demo_layers [] None "/w"
           (mkRule RuleDeny ForBash (Some "rm") GlobMode)).
  - eapply in_requirements; [left|]. exists (TTable [("deny", TArray [TString "Bash(rm:*)"])]). split; [reflexivity|]. left.
    exists [TString "Bash(rm:*)"], "Bash(rm:*)". split; [reflexivity|]. split; [left|]. vm_compute. reflexivity.
  - discriminate.
  - vm_compute. reflexivity.
Defined.

Definition pinned_resolution : ResolvedPermissions :=
  mkResolved (mkConfig [mkRule RuleAllow ForBash None GlobMode] PromptAsk) [SystemRequirements "/etc/grok/requirements.toml"]
    [mkSkipped "allow * (catch-all)" YOLO_PIN_REASON_REQUIREMENTS].

Lemma pin_leaves_no_stand_in_witness :
  length (sources pinned_resolution) = length (rules (PermResolve.config pinned_resolution))
  ∧ ∀ i r src, rules (PermResolve.config pinned_resolution) !! i = Some r → sources pinned_resolution !! i = Some src →
      is_catchall_allow r = true → is_admin_source src = true.
Proof.
  apply (pin_leaves_no_stand_in demo_try_into demo_host (λ _, None) (λ _, None) pinned_layers [] None "/w" (List.last pinned_layers (mkLayer (TBoolean true) "" false))).
  - right. left.
  - exists (TTable [("disable_bypass_permissions_mode", TBoolean true)]). split; [reflexivity|left; reflexivity].
  - vm_compute. reflexivity.
Defined.
