(* ===== verification/HunkTypes.v ===== *)
(** * Hunks, their events and the text a tracker keeps
      (xai-hunk-tracker/src/types.rs, events.rs, actor/state.rs, actor/file_utils.rs)

    A hunk is one contiguous change of a file against its baseline. What is kept
    of a file is its text when it can be compared, and otherwise the reason why
    it cannot. A [usize] is an [N]; a time is a number of an unnamed clock; a
    [HunkId] is its text, and so is a [PathBuf], in its canonical spelling. *)

From Stdlib Require Import Ascii String.
From S2P Require Import Prelude RustStr TrimLemmas Disk Rewind.
From stdpp Require Import options.

#[local] Open Scope N_scope.

Definition HunkId : Type := string.
Definition HunkId_display (id : HunkId) : string := take_chars 8 id.

(** ** Hunks *)

Record HunkLineInfo : Type := mkLineInfo {
  old_start : N;
  old_count : N;
  new_start : N;
  new_count : N;
}.
#[export] Instance HunkLineInfo_eq_dec : EqDecision HunkLineInfo.
Proof. solve_decision. Defined.

Definition HunkLineInfo_display (i : HunkLineInfo) : string :=
  "@@ -" +:+ pretty (old_start i) +:+ "," +:+ pretty (old_count i) +:+ " +" +:+ pretty (new_start i) +:+ ","
  +:+ pretty (new_count i) +:+ " @@".

Inductive HunkSource : Type :=
| AgentEdit (prompt_index : N)
| ExternalEditOnAgentFile
| External.
#[export] Instance HunkSource_eq_dec : EqDecision HunkSource.
Proof. solve_decision. Defined.

Definition is_agent_edit (s : HunkSource) : bool := match s with AgentEdit _ => true | _ => false end.
Definition is_agent_tracked (s : HunkSource) : bool :=
  match s with AgentEdit _ | ExternalEditOnAgentFile => true | External => false end.
Definition is_external (s : HunkSource) : bool :=
  match s with External | ExternalEditOnAgentFile => true | AgentEdit _ => false end.
Definition source_prompt (s : HunkSource) : option N := match s with AgentEdit p => Some p | _ => None end.

Inductive HunkActionError : Type :=
| HunkNotFound (id : HunkId)
| WriteError (path source : string)
| DeleteError (path source : string)
| ReadError (path source : string).

Definition HunkActionError_display (e : HunkActionError) : string :=
  match e with
  | HunkNotFound id => "Hunk not found: " +:+ HunkId_display id
  | WriteError p s => "Failed to write file " +:+ p +:+ ": " +:+ s
  | DeleteError p s => "Failed to delete file " +:+ p +:+ ": " +:+ s
  | ReadError p s => "Failed to read file " +:+ p +:+ ": " +:+ s
  end.

Record Hunk : Type := mkHunk {
  h_id : HunkId;
  h_path : string;
  line_info : HunkLineInfo;
  h_source : HunkSource;
  old_text : option string;
  new_text : string;
  h_patch : option string;
  h_created_at : N;
  selected : bool;
}.
#[export] Instance settable_Hunk : Settable Hunk :=
  λ h, mkHunk (h_id h) (h_path h) (line_info h) (h_source h) (old_text h) (new_text h) (h_patch h) (h_created_at h)
         (selected h).
#[export] Instance Hunk_eq_dec : EqDecision Hunk.
Proof. solve_decision. Defined.

(** [text.lines().count()] *)
Definition line_count (s : string) : N := N.of_nat (length (lines s)).

Definition file_created (id : HunkId) (now : N) (path content : string) (source : HunkSource) : Hunk :=
  mkHunk id path (mkLineInfo 0 0 1 (N.max (line_count content) 1)) source None content None now false.

Definition file_deleted (id : HunkId) (now : N) (path content : string) (source : HunkSource) : Hunk :=
  mkHunk id path (mkLineInfo 1 (N.max (line_count content) 1) 0 0) source (Some content) "" None now false.

Definition summary (h : Hunk) : string :=
  "+" +:+ pretty (line_count (new_text h)) +:+ "/-" +:+ pretty (from_option line_count 0 (old_text h)).

Definition display_path (h : Hunk) : string := h_path h +:+ ":" +:+ pretty (new_start (line_info h)).

Inductive HunkAction : Type := Accept | Reject.
Inductive HunkSourceFilter : Type := Agent | ByExternal.
Inductive TrackingMode : Type := AgentOnly | AllDirty.
#[export] Instance TrackingMode_eq_dec : EqDecision TrackingMode.
Proof. solve_decision. Defined.

Record SessionStats : Type := mkStats {
  accepted_hunks : N;
  rejected_hunks : N;
  accepted_lines_added : N;
  accepted_lines_removed : N;
  rejected_lines_added : N;
  rejected_lines_removed : N;
}.
Definition no_stats : SessionStats := mkStats 0 0 0 0 0 0.

(** ** Events *)

Inductive HunkRemovalReason : Type := Accepted | Rejected | Superseded.
#[export] Instance HunkRemovalReason_eq_dec : EqDecision HunkRemovalReason.
Proof. solve_decision. Defined.

Inductive HunkEvent : Type :=
| HunkAdded (path : string) (hunk : Hunk)
| HunkRemoved (path : string) (hunk_id : HunkId) (reason : HunkRemovalReason)
| HunkMoved (path : string) (hunk_id : HunkId) (new_line_info : HunkLineInfo)
| HunkContentChanged (path : string) (hunk : Hunk) (trigger_source : HunkSource) (prev_lines_added prev_lines_removed : N)
| FileAdded (path : string) (is_agent_file : bool)
| FileRemoved (path : string)
| BaselineUpdated (path : string).

(** ** What is kept of a file *)

Definition MAX_TRACKED_TEXT_BYTES : N := 1024 * 1024.

Inductive FileContentState : Type :=
| Missing
| Binary (byte_len : option N)
| TooLarge (byte_len : N)
| LfsPointer (byte_len : N)
| Symlink
| Full (s : string).
#[export] Instance FileContentState_eq_dec : EqDecision FileContentState.
Proof. solve_decision. Defined.

Definition as_str (c : FileContentState) : option string := match c with Full s => Some s | _ => None end.
Definition is_diffable (c : FileContentState) : bool := match c with Full _ => true | _ => false end.
Definition byte_count (s : string) : N := N.of_nat (String.length s).
Definition byte_len (c : FileContentState) : option N :=
  match c with
  | Missing => Some 0
  | Binary n => n
  | TooLarge n | LfsPointer n => Some n
  | Symlink => None
  | Full s => Some (byte_count s)
  end.

Record RepoSyncState : Type := mkSync { head_oid : option string; index_mtime : option N }.
#[export] Instance RepoSyncState_eq_dec : EqDecision RepoSyncState.
Proof. solve_decision. Defined.

(** The handle of a discovered repository is not kept: what is read through it
    is what the world answers. *)
Inductive GitRepoState : Type := Unknown | NotARepo | Discovered (prefix : string).

Record FileHunkState : Type := mkFile {
  baseline : FileContentState;
  current_content : FileContentState;
  hunks : list Hunk;
  is_agent_file : bool;
  baseline_accepted : bool;
}.
#[export] Instance settable_FileHunkState : Settable FileHunkState :=
  λ f, mkFile (baseline f) (current_content f) (hunks f) (is_agent_file f) (baseline_accepted f).

(** ** Reading a file *)

Definition LFS_POINTER_PREFIX : string := "version https://git-lfs.github.com/spec/v1" +:+ nl.

Definition is_lfs_pointer (bytes : string) : bool :=
  (byte_count bytes <? 1024) && starts_with LFS_POINTER_PREFIX bytes.

Definition is_binary (content : string) : bool := negb (char_free "000" (take_bytes (N.to_nat 8000) content)).

Definition classify_bytes (bytes : string) : FileContentState :=
  let n := byte_count bytes in
  if MAX_TRACKED_TEXT_BYTES <? n then TooLarge n
  else if is_lfs_pointer bytes then LfsPointer n
  else if is_binary bytes then Binary (Some n)
  else match from_utf8 bytes with Some s => Full s | None => Binary (Some n) end.

Definition classify_string (s : string) : FileContentState :=
  let n := byte_count s in
  if MAX_TRACKED_TEXT_BYTES <? n then TooLarge n
  else if is_lfs_pointer s then LfsPointer n
  else if is_binary s then Binary (Some n)
  else Full s.

Definition missing_content : FileContentState := Missing.

(** What the file system answers for a path: the metadata of [lstat], whether the
    file opens, its bytes, how many of them the first [read] returns (an error
    when [None]), and whether reading the rest succeeds. *)
Record DiskEntry : Type := mkEntry {
  is_symlink : bool;
  metadata_len : N;
  opens : bool;
  bytes : string;
  first_read : option nat;
  rest_reads : bool;
}.

Definition read_file_bounded (e : option DiskEntry) : FileContentState :=
  match e with
  | None => missing_content
  | Some e =>
      if is_symlink e then Symlink
      else let n := metadata_len e in
      if MAX_TRACKED_TEXT_BYTES <? n then TooLarge n
      else if negb (opens e) then missing_content
      else
        let prefix_size := N.min 8000 n in
        match first_read e with
        | None => missing_content
        | Some k =>
            let k := Nat.min k (N.to_nat prefix_size) in
            let prefix := take_bytes k (bytes e) in
            if is_lfs_pointer prefix then LfsPointer n
            else if is_binary prefix then Binary (Some n)
            else if (prefix_size <? n) && negb (rest_reads e) then missing_content
            else
              let full := if prefix_size <? n then prefix +:+ drop_bytes k (bytes e) else prefix in
              match from_utf8 full with Some s => Full s | None => Binary (Some n) end
        end
  end.

(** ** What a client is shown *)

Inductive FileContentStatus : Type :=
| StMissing | StBinary | StTooLarge | StLfsPointer | StSymlink | StFull.

Record FileContentView : Type := mkView {
  v_status : FileContentStatus;
  v_byte_len : option N;
  v_content : option string;
}.
Definition view_missing : FileContentView := mkView StMissing None None.
Definition view_binary (n : option N) : FileContentView := mkView StBinary n None.
Definition view_too_large (n : N) : FileContentView := mkView StTooLarge (Some n) None.
Definition view_lfs_pointer (n : N) : FileContentView := mkView StLfsPointer (Some n) None.
Definition view_symlink : FileContentView := mkView StSymlink None None.
Definition view_full (s : string) : FileContentView := mkView StFull (Some (byte_count s)) (Some s).

Definition from_content_state (c : FileContentState) : FileContentView :=
  match c with
  | Missing => view_missing
  | Binary n => view_binary n
  | TooLarge n => view_too_large n
  | LfsPointer n => view_lfs_pointer n
  | Symlink => view_symlink
  | Full s => view_full s
  end.

Record FileContentEntry : Type := mkContentEntry {
  e_path : string;
  e_baseline : FileContentView;
  e_current : FileContentView;
  e_is_agent_file : bool;
  e_staged : bool;
}.

Record FileHunkData : Type := mkHunkData {
  d_hunks : list Hunk;
  d_baseline : FileContentView;
  d_current : FileContentView;
  baseline_content : option string;
  d_current_content : option string;
}.

Record TurnSummary : Type := mkTurn {
  t_prompt_index : N;
  t_files : list string;
  t_pending_hunks : list Hunk;
  t_lines_added : N;
  t_lines_removed : N;
}.

Record SessionSummary : Type := mkSummary {
  s_stats : SessionStats;
  turns : list TurnSummary;
  s_files_modified : nat;
  s_files_with_pending : nat;
  s_pending_hunks : nat;
  s_pending_lines_added : N;
  s_pending_lines_removed : N;
  s_unattributed_pending : nat;
}.

(** ** Snapshots *)

Record FileHunkStateSnapshot : Type := mkFileSnap {
  sn_baseline : FileContentState;
  sn_current_content : FileContentState;
  sn_hunks : list Hunk;
  sn_is_agent_file : bool;
  sn_baseline_accepted : bool;
}.

Record HunkTrackerSnapshot : Type := mkSnap {
  sn_file_states : gmap string FileHunkStateSnapshot;
  sn_turn_index : gmap N (gset HunkId);
  sn_session_stats : SessionStats;
}.

Record HunkTurnDelta : Type := mkDelta {
  dl_prompt_index : N;
  dl_file_states : gmap string FileHunkStateSnapshot;
  dl_hunk_ids : gset HunkId;
}.

(** [dir.join(name)], in its canonical spelling. *)
Definition join_path (dir name : string) : string := canon (path_join dir name).

Definition rewrite_single_path (path old_cwd canonical_old new_cwd : string) : option string :=
  let relative := match strip_path_prefix canonical_old path with
                  | Some rel => Some rel
                  | None => strip_path_prefix old_cwd path
                  end in
  join_path new_cwd <$> relative.

Definition rewrite_file (old_cwd canonical_old new_cwd : string) (e : string * FileHunkStateSnapshot)
  : string * FileHunkStateSnapshot :=
  let target := default e.1 (rewrite_single_path e.1 old_cwd canonical_old new_cwd) in
  let f := e.2 in
  (target, mkFileSnap (sn_baseline f) (sn_current_content f) (map (λ h, h <| h_path := target |>) (sn_hunks f))
             (sn_is_agent_file f) (sn_baseline_accepted f)).

(** Collecting into a map: a later entry replaces an earlier one of its key.
    [order] is the order in which the map is drained. *)
Definition collect_map {V} (l : list (string * V)) : gmap string V := foldl (λ m e, <[e.1 := e.2]> m) ∅ l.

Definition rewrite_paths (order : list (string * FileHunkStateSnapshot) → list (string * FileHunkStateSnapshot))
    (old_cwd canonical_old new_cwd : string) (s : HunkTrackerSnapshot) : HunkTrackerSnapshot :=
  mkSnap (collect_map (map (rewrite_file old_cwd canonical_old new_cwd) (order (map_to_list (sn_file_states s)))))
    (sn_turn_index s) (sn_session_stats s).
