(* ===== verification/HunkDiff.v ===== *)
(** * Hunks of two texts (xai-hunk-tracker/src/diff.rs)

    The line diff of the crate [similar] is the class [Differ]: a list of
    changes, each a line with its tag. Its law is stated for texts without a
    carriage return, on which its lines are the pieces a newline ends: the lines
    that are not inserted make up the old text, those that are not deleted the
    new one. Whether a diff ran into its time limit is an argument, and the
    source of identifiers is the class [HunkIds]. *)

From Stdlib Require Import Ascii String.
From S2P Require Import Prelude RustStr TrimLemmas HunkTypes.
From stdpp Require Import options.

#[local] Open Scope N_scope.

(** ** The line diff *)

Inductive ChangeTag : Type := Equal | Delete | Insert.
Definition Change : Type := ChangeTag * string.

Class Differ : Type := diff_lines : string → string → list Change.

(** The lines a diff reads, each with the newline that ends it. *)
Definition tokens (s : string) : list string :=
  match reverse (split_char newline s) with
  | last :: ls => map (λ l, l +:+ nl) (reverse ls) ++ if is_empty last then [] else [last]
  | [] => []
  end.

Definition cr_free (s : string) : Prop := char_free carriage s = true.

Definition old_side (cs : list Change) : list string :=
  omap (λ c, match c.1 with Insert => None | _ => Some c.2 end) cs.
Definition new_side (cs : list Change) : list string :=
  omap (λ c, match c.1 with Delete => None | _ => Some c.2 end) cs.

Class DifferLaws (D : Differ) : Prop := {
  diff_old a b : cr_free a → cr_free b → old_side (diff_lines a b) = tokens a;
  diff_new a b : cr_free a → cr_free b → new_side (diff_lines a b) = tokens b;
}.

(** ** Identifiers: every draw is a new one. *)
Class HunkIds : Type := {
  uuid : N → HunkId;
  uuid_inj m n : uuid m = uuid n → m = n;
}.

(** ** Building hunks *)

Definition CONTEXT_LINES : N := 3.
Definition MAX_DIFF_FILE_SIZE : N := 1024 * 1024.

Record HunkBuilder : Type := mkBuilder {
  b_old_start : N;
  b_new_start : N;
  b_old_lines : list string;
  b_new_lines : list string;
}.
#[export] Instance settable_HunkBuilder : Settable HunkBuilder :=
  λ b, mkBuilder (b_old_start b) (b_new_start b) (b_old_lines b) (b_new_lines b).

Definition builder_new (old_start new_start : N) : HunkBuilder := mkBuilder old_start new_start [] [].
Definition add_old_line (line : string) (b : HunkBuilder) : HunkBuilder :=
  b <| b_old_lines := b_old_lines b ++ [line] |>.
Definition add_new_line (line : string) (b : HunkBuilder) : HunkBuilder :=
  b <| b_new_lines := b_new_lines b ++ [line] |>.

Definition build (id : HunkId) (now : N) (path : string) (source : HunkSource) (b : HunkBuilder) : Hunk :=
  mkHunk id path
    (mkLineInfo (b_old_start b) (N.of_nat (length (b_old_lines b)))
                (b_new_start b) (N.of_nat (length (b_new_lines b))))
    source
    (match b_old_lines b with [] => None | ls => Some (join "" ls) end)
    (join "" (b_new_lines b))
    None now false.

(** The hunk in progress, if there is one, is finished by an equal line and by
    the end of the changes. *)
Fixpoint walk_changes (old_line new_line : N) (current : option HunkBuilder) (cs : list Change) : list HunkBuilder :=
  let in_progress := default (builder_new old_line new_line) current in
  match cs with
  | [] => option_list current
  | (Equal, _) :: cs => option_list current ++ walk_changes (old_line + 1) (new_line + 1) None cs
  | (Delete, v) :: cs => walk_changes (old_line + 1) new_line (Some (add_old_line v in_progress)) cs
  | (Insert, v) :: cs => walk_changes old_line (new_line + 1) (Some (add_new_line v in_progress)) cs
  end.

Section diff.
Context `{HunkIds, Differ}.

(** The hunks draw their identifiers in order, from the [n]-th on. *)
Fixpoint build_all (n now : N) (path : string) (source : HunkSource) (bs : list HunkBuilder) : list Hunk :=
  match bs with
  | [] => []
  | b :: bs => build (uuid n) now path source b :: build_all (n + 1) now path source bs
  end.

Definition compute_hunks (timed_out : bool) (n now : N) (path baseline current : string) (source : HunkSource)
  : list Hunk :=
  if String.eqb baseline current then []
  else if (MAX_DIFF_FILE_SIZE <? byte_count baseline) || (MAX_DIFF_FILE_SIZE <? byte_count current) then []
  else if timed_out then []
  else build_all n now path source (walk_changes 1 1 None (diff_lines baseline current)).

(** The printer of the crate's unified format is a parameter; what is modelled
    is when it is asked. *)
Definition generate_unified_patch (unified : string → string → list Change → string) (timed_out : bool)
    (path baseline current : string) : option string :=
  if String.eqb baseline current then None
  else if (MAX_DIFF_FILE_SIZE <? byte_count baseline) || (MAX_DIFF_FILE_SIZE <? byte_count current) then None
  else if timed_out then None
  else let u := unified ("a/" +:+ path) ("b/" +:+ path) (diff_lines baseline current) in
       if is_empty u then None else Some u.

End diff.

(** ** Patching *)

Definition patch_lines (content : string) (start_line remove_count : N) (insert_text : string) : string :=
  let ls := lines content in
  let start_idx := N.to_nat (start_line - 1) in
  let inserted := if is_empty insert_text then [] else lines insert_text in
  let end_idx := Nat.min (start_idx + N.to_nat remove_count) (length ls) in
  let output := join nl (take (Nat.min start_idx (length ls)) ls ++ inserted ++ drop end_idx ls) in
  if ends_with nl content && negb (is_empty output) then output +:+ nl else output.

(** ** Comparing hunks *)

Definition hunks_match_content (a b : Hunk) : bool :=
  String.eqb (h_path a) (h_path b) && bool_decide (old_text a = old_text b) && String.eqb (new_text a) (new_text b).

Definition hunk_moved (old new : Hunk) : bool :=
  hunks_match_content old new && bool_decide (line_info old ≠ line_info new).

Definition hunks_overlap (a b : Hunk) : bool :=
  if negb (String.eqb (h_path a) (h_path b)) then false
  else
    let a_start := old_start (line_info a) in
    let a_end := u64_saturating_add a_start (old_count (line_info a)) in
    let b_start := old_start (line_info b) in
    let b_end := u64_saturating_add b_start (old_count (line_info b)) in
    if (old_count (line_info a) =? 0) && (old_count (line_info b) =? 0) then a_start =? b_start
    else if old_count (line_info a) =? 0 then (b_start <=? a_start) && (a_start <=? b_end)
    else if old_count (line_info b) =? 0 then (a_start <=? b_start) && (b_start <=? a_end)
    else negb ((a_end <? b_start) || (b_end <? a_start)).

Definition calculate_overlap_size (a b : HunkLineInfo) : N :=
  N.min (old_start a + old_count a) (old_start b + old_count b) - N.max (old_start a) (old_start b).

(** [iter.min_by_key(k)] keeps the first of equal keys, [iter.max_by_key(k)] the
    last. *)
Definition min_by_key {A} (k : A → N) (l : list A) : option A :=
  match l with
  | [] => None
  | x :: l => Some (foldl (λ m y, if k y <? k m then y else m) x l)
  end.
Definition max_by_key {A} (k : A → N) (l : list A) : option A :=
  match l with
  | [] => None
  | x :: l => Some (foldl (λ m y, if k m <=? k y then y else m) x l)
  end.

Definition abs_diff (a b : N) : N := (a - b) + (b - a).

Definition find_matching_old_hunk (new_hunk : Hunk) (old_hunks : list Hunk) : option Hunk :=
  let content_matches := bfilter (λ o, hunks_match_content o new_hunk) old_hunks in
  if negb (is_nil content_matches)
  then min_by_key (λ o, abs_diff (new_start (line_info o)) (new_start (line_info new_hunk))) content_matches
  else max_by_key (λ o, calculate_overlap_size (line_info o) (line_info new_hunk))
         (bfilter (λ o, hunks_overlap o new_hunk) old_hunks).

Definition find_overlapping_hunks (new_hunk : Hunk) (old_hunks : list Hunk) : list Hunk :=
  bfilter (λ o, hunks_overlap o new_hunk) old_hunks.

(** ** Printing hunks *)

(** Lines written one after the other, each with a mark in front. *)
Definition marked (mark : string) (ls : list string) : string := unlines (map (String.append mark) ls).

(** [a..b] as indices into [ls]: those outside are skipped. *)
Definition slice (a b : N) (ls : list string) : list string :=
  take (N.to_nat (b - a)) (drop (N.to_nat a) ls).

(** Machine subtraction and addition, which wrap around in a release build. *)
Definition u64_wrapping_sub (a b : N) : N := (a + 2 ^ 64 - b) mod 2 ^ 64.
Definition u64_wrapping_add (a b : N) : N := (a + b) mod 2 ^ 64.

Definition generate_hunk_patch (baseline current : string) (h : Hunk) : string :=
  let old_lines := lines baseline in
  let new_lines := lines current in
  let li := line_info h in
  let old_start_idx := old_start li - 1 in
  let new_start_idx := new_start li - 1 in
  let context_before_start := old_start_idx - CONTEXT_LINES in
  let changes_end_new := new_start_idx + new_count li in
  let context_after_end := N.min (changes_end_new + CONTEXT_LINES) (N.of_nat (length new_lines)) in
  let changes_end_old := old_start_idx + old_count li in
  let context_after_end_old := N.min (changes_end_old + CONTEXT_LINES) (N.of_nat (length old_lines)) in
  let before := old_start_idx - context_before_start in
  let total_old := u64_wrapping_add (before + old_count li) (u64_wrapping_sub context_after_end_old changes_end_old) in
  let total_new := u64_wrapping_add (before + new_count li) (u64_wrapping_sub context_after_end changes_end_new) in
  "@@ -" +:+ pretty (context_before_start + 1) +:+ "," +:+ pretty total_old +:+ " +"
  +:+ pretty (context_before_start + 1) +:+ "," +:+ pretty total_new +:+ " @@" +:+ nl
  +:+ marked " " (slice context_before_start old_start_idx old_lines)
  +:+ from_option (λ t, marked "-" (lines t)) "" (old_text h)
  +:+ marked "+" (lines (new_text h))
  +:+ marked " " (slice changes_end_new context_after_end new_lines).

Definition format_unified_diff (h : Hunk) : string :=
  "--- a/" +:+ h_path h +:+ nl
  +:+ "+++ b/" +:+ h_path h +:+ nl
  +:+ HunkLineInfo_display (line_info h) +:+ nl
  +:+ from_option (λ t, marked "-" (lines t)) "" (old_text h)
  +:+ marked "+" (lines (new_text h)).
