(* ===== verification/HunkTracker.v ===== *)
(** * The state of the hunk tracker, its recomputation and its git reads
      (xai-hunk-tracker/src/actor/mod.rs, hunks.rs, git.rs)

    The actor owns a [Tracker] and handles one command at a time. What a command
    finds outside (the disk, the repository, the clock, whether a diff takes too
    long, the order in which a hash table is walked) is a [World], an argument of
    the step; what it leaves outside is logged in the state: the events it sends
    and the files it writes and removes. *)

From Stdlib Require Import Ascii String.
From S2P Require Import Prelude RustStr TrimLemmas Disk Rewind HunkTypes HunkDiff.
From stdpp Require Import options.

#[local] Open Scope N_scope.

(** ** The world a command meets *)

(** An entry of the tree of HEAD. *)
Inductive HeadEntry : Type := HeadLink | HeadBlob (data : string).

Record World : Type := mkWorld {
  disk : string → option DiskEntry;
  path_exists : string → bool;
  is_dir : string → bool;
  write_result : string → result () string;
  remove_result : string → result () string;
  canonicalize : string → option string;
  discovers : option string;
  head_entry : string → option HeadEntry;
  status_scan : list string → list (string * bool);
  repo_sync : RepoSyncState;
  git_task_ends : bool;
  diff_times_out : string → string → bool;
  now : N;
  hash_order : list string → list string;
}.

Inductive DiskWrite : Type := Wrote (path text : string) | Removed (path : string).

Record Tracker : Type := mkTracker {
  working_dir : string;
  file_states : gmap string FileHunkState;
  turn_index : gmap N (gset HunkId);
  git_dirty_cache : gset string;
  git_staged_cache : gset string;
  git_repo_state : GitRepoState;
  repo_sync_state : RepoSyncState;
  mode : TrackingMode;
  session_stats : SessionStats;
  events : list HunkEvent;
  writes : list DiskWrite;
  drawn : N;
}.
#[export] Instance settable_Tracker : Settable Tracker :=
  λ t, mkTracker (working_dir t) (file_states t) (turn_index t) (git_dirty_cache t) (git_staged_cache t)
         (git_repo_state t) (repo_sync_state t) (mode t) (session_stats t) (events t) (writes t) (drawn t).

Definition tracker_new (working_dir : string) (mode : TrackingMode) (drawn : N) : Tracker :=
  mkTracker working_dir ∅ ∅ ∅ ∅ Unknown (mkSync None None) mode no_stats [] [] drawn.

Definition send_event (e : HunkEvent) (t : Tracker) : Tracker := t <| events := events t ++ [e] |>.
Definition send_events (es : list HunkEvent) (t : Tracker) : Tracker := t <| events := events t ++ es |>.
Definition log_write (w : DiskWrite) (t : Tracker) : Tracker := t <| writes := writes t ++ [w] |>.
Definition set_file (path : string) (f : FileHunkState) (t : Tracker) : Tracker :=
  t <| file_states := <[path := f]> (file_states t) |>.

(** The keys of a map and the members of a set, in the order they are walked. *)
Definition walk_keys {V} (w : World) (m : gmap string V) : list string := hash_order w ((map_to_list m).*1).
Definition walk_set (w : World) (s : gset string) : list string := hash_order w (elements s).

(** [file_states.iter()] *)
Definition walk_files (w : World) (t : Tracker) : list (string * FileHunkState) :=
  omap (λ p, pair p <$> file_states t !! p) (walk_keys w (file_states t)).

(** ** The turn index *)

Definition index_remove (id : HunkId) (s : HunkSource) (ti : gmap N (gset HunkId)) : gmap N (gset HunkId) :=
  match source_prompt s with
  | Some p => alter (λ ids, ids ∖ {[id]}) p ti
  | None => ti
  end.
Definition index_insert (id : HunkId) (s : HunkSource) (ti : gmap N (gset HunkId)) : gmap N (gset HunkId) :=
  match source_prompt s with
  | Some p => <[p := {[id]} ∪ default ∅ (ti !! p)]> ti
  | None => ti
  end.

Definition remove_hunks (hs : list Hunk) (ti : gmap N (gset HunkId)) : gmap N (gset HunkId) :=
  foldl (λ ti h, index_remove (h_id h) (h_source h) ti) ti hs.
Definition insert_hunks (hs : list Hunk) (ti : gmap N (gset HunkId)) : gmap N (gset HunkId) :=
  foldl (λ ti h, index_insert (h_id h) (h_source h) ti) ti hs.

Definition remove_from_turn_index (id : HunkId) (s : HunkSource) (t : Tracker) : Tracker :=
  t <| turn_index := index_remove id s (turn_index t) |>.

(** ** Recomputing the hunks of a file *)

Section recompute.
Context `{HunkIds, Differ}.

Definition hunks_between (timed_out : bool) (n now : N) (path : string) (source : HunkSource)
    (base current : FileContentState) : list Hunk :=
  match base, current with
  | Full b, Full c => compute_hunks timed_out n now path b c source
  | Full b, Missing => if is_empty b then [] else [file_deleted (uuid n) now path b source]
  | Missing, Full c => if is_empty c then [] else [file_created (uuid n) now path c source]
  | _, _ => []
  end.

(** A new hunk takes the identifier of the old one it matches, and its source
    when an outside edit meets a hunk of the agent. *)
Definition adopt (old new : Hunk) : Hunk :=
  let new := new <| h_id := h_id old |> in
  if is_external (h_source new) && is_agent_edit (h_source old) then new <| h_source := h_source old |> else new.

Fixpoint keep_identities (claimed : list HunkId) (old_hunks new_hunks : list Hunk) : list Hunk :=
  match new_hunks with
  | [] => []
  | h :: hs =>
      match find_matching_old_hunk h old_hunks with
      | Some best =>
          if contains (h_id best) claimed then h :: keep_identities claimed old_hunks hs
          else adopt best h :: keep_identities (h_id best :: claimed) old_hunks hs
      | None => h :: keep_identities claimed old_hunks hs
      end
  end.

Definition removed_events (path : string) (old_hunks new_hunks : list Hunk) : list HunkEvent :=
  omap (λ o, if any (λ n, hunks_overlap o n || hunks_match_content o n) new_hunks then None
             else Some (HunkRemoved path (h_id o) Superseded)) old_hunks.

Definition change_event (path : string) (old_hunks : list Hunk) (trigger_source : HunkSource) (h : Hunk)
  : option HunkEvent :=
  match List.find (λ o, hunks_match_content o h) old_hunks with
  | Some o => if hunk_moved o h then Some (HunkMoved path (h_id o) (line_info h)) else None
  | None =>
      if negb (any (λ o, hunks_overlap o h) old_hunks) then Some (HunkAdded path h)
      else
        let prev := match List.find (λ o, String.eqb (h_id o) (h_id h)) old_hunks with
                    | Some o => Some o
                    | None => List.find (λ o, hunks_overlap o h) old_hunks
                    end in
        let counts := from_option (λ o, (new_count (line_info o), old_count (line_info o))) (0, 0) prev in
        Some (HunkContentChanged path h trigger_source counts.1 counts.2)
  end.

Definition hunk_diff_events (path : string) (old_hunks new_hunks : list Hunk) (trigger_source : HunkSource)
  : list HunkEvent :=
  removed_events path old_hunks new_hunks ++ omap (change_event path old_hunks trigger_source) new_hunks.

Definition limit_of (w : World) (base current : FileContentState) : bool :=
  match base, current with Full b, Full c => diff_times_out w b c | _, _ => false end.

Definition recompute_hunks (w : World) (path : string) (new_current : option FileContentState) (source : HunkSource)
    (t : Tracker) : Tracker :=
  match file_states t !! path with
  | None => t
  | Some f =>
      let old_hunks := hunks f in
      let current := default missing_content new_current in
      let computed := hunks_between (limit_of w (baseline f) current) (drawn t) (now w) path source (baseline f) current in
      let new_hunks := keep_identities [] old_hunks computed in
      let t := set_file path (f <| current_content := current |> <| hunks := new_hunks |>) t in
      let t := t <| turn_index := insert_hunks new_hunks (remove_hunks old_hunks (turn_index t)) |> in
      let t := t <| drawn := drawn t + N.of_nat (length computed) |> in
      send_events (hunk_diff_events path old_hunks new_hunks source) t
  end.

End recompute.

(** ** Reading git *)

(** The repository a cached state leads to: the prefix of the working directory
    in it, and the state to cache when this was the first attempt. *)
Definition open_or_discover (w : World) (cached : GitRepoState) : option (string * option GitRepoState) :=
  match cached with
  | Discovered prefix => Some (prefix, None)
  | Unknown => match discovers w with Some prefix => Some (prefix, Some (Discovered prefix)) | None => None end
  | NotARepo => None
  end.

(** The state after an attempt. *)
Definition cached_after (w : World) (t : Tracker) : Tracker :=
  match open_or_discover w (git_repo_state t) with
  | Some (_, Some s) => t <| git_repo_state := s |>
  | Some (_, None) => t
  | None => match git_repo_state t with Unknown => t <| git_repo_state := NotARepo |> | _ => t end
  end.

Definition canonicalize_or_parent (w : World) (path : string) : string :=
  match canonicalize w path with
  | Some p => p
  | None =>
      match path_parent path ≫= canonicalize w with
      | Some cp => match file_name path with Some f => join_path cp f | None => path end
      | None => path
      end
  end.

(** What HEAD holds for a path of the working directory. *)
Definition head_content (w : World) (working_dir prefix path : string) : FileContentState :=
  let canonical_dir := default working_dir (canonicalize w working_dir) in
  match strip_path_prefix canonical_dir (canonicalize_or_parent w path) with
  | None => missing_content
  | Some rel =>
      match head_entry w (join_path prefix rel) with
      | Some HeadLink => Symlink
      | Some (HeadBlob data) => classify_bytes data
      | None => missing_content
      end
  end.

Definition is_not_a_repo (t : Tracker) : bool := match git_repo_state t with NotARepo => true | _ => false end.

Definition read_baseline (w : World) (path : string) (t : Tracker) : FileContentState * Tracker :=
  if is_not_a_repo t then (missing_content, t)
  else if negb (git_task_ends w) then (missing_content, t)
  else match open_or_discover w (git_repo_state t) with
       | Some (prefix, _) => (head_content w (working_dir t) prefix path, cached_after w t)
       | None => (missing_content, cached_after w t)
       end.

Definition read_baselines_batch (w : World) (paths : list string) (t : Tracker) : gmap string FileContentState * Tracker :=
  if is_nil paths || is_not_a_repo t then (∅, t)
  else if negb (git_task_ends w) then (∅, t)
  else match open_or_discover w (git_repo_state t) with
       | Some (prefix, _) =>
           (collect_map (map (λ p, (p, head_content w (working_dir t) prefix p)) paths), cached_after w t)
       | None => (collect_map (map (λ p, (p, missing_content)) paths), cached_after w t)
       end.

Definition read_repo_sync_state (w : World) (t : Tracker) : option RepoSyncState * Tracker :=
  if is_not_a_repo t then (None, t)
  else if negb (git_task_ends w) then (None, t)
  else match open_or_discover w (git_repo_state t) with
       | Some _ => (Some (repo_sync w), cached_after w t)
       | None => (None, cached_after w t)
       end.

(** The changed paths a status scan reports, relative to the working directory,
    and those of them that are staged. An empty list of pathspecs scans the whole
    worktree. *)
Definition scanned (w : World) (prefix : string) (scope : option (list string)) : list (string * bool) :=
  omap (λ i, (λ rel, (rel, i.2)) <$> strip_path_prefix prefix i.1)
    (status_scan w (map (join_path prefix) (default [] scope))).

Definition dirty_of (items : list (string * bool)) : gset string := list_to_set (items.*1).
Definition staged_of (items : list (string * bool)) : gset string :=
  list_to_set (omap (λ i : string * bool, if i.2 then Some i.1 else None) items).

(** ** Queries *)

Definition get_all_hunks (w : World) (t : Tracker) : list Hunk := concat (map (λ e, hunks e.2) (walk_files w t)).

Definition get_hunks_for_path (path : string) (t : Tracker) : list Hunk := from_option hunks [] (file_states t !! path).

(** The patch of a hunk, from the texts there are. *)
Definition patch_of (base current : option string) (h : Hunk) : option string :=
  match base, current with
  | Some b, Some c => Some (generate_hunk_patch b c h)
  | None, Some c => Some (generate_hunk_patch "" c h)
  | Some b, None => Some (generate_hunk_patch b "" h)
  | None, None => None
  end.

Definition no_hunk_data : FileHunkData := mkHunkData [] view_missing view_missing None None.

Definition get_file_hunk_data (path : string) (t : Tracker) : FileHunkData :=
  match file_states t !! path with
  | None => no_hunk_data
  | Some f =>
      let with_patch h := h <| h_patch := patch_of (as_str (baseline f)) (as_str (current_content f)) h |> in
      let b := from_content_state (baseline f) in
      let c := from_content_state (current_content f) in
      mkHunkData (map with_patch (hunks f)) b c (v_content b) (v_content c)
  end.

Definition get_all_tracked_paths (w : World) (t : Tracker) : list string := walk_keys w (file_states t).

Definition get_hunks_by_source (w : World) (source : HunkSourceFilter) (t : Tracker) : list Hunk :=
  bfilter (λ h, match source with Agent => is_agent_edit (h_source h) | ByExternal => is_external (h_source h) end)
    (get_all_hunks w t).

Definition get_hunk (w : World) (id : HunkId) (t : Tracker) : option Hunk :=
  List.find (λ h, String.eqb (h_id h) id) (get_all_hunks w t).

Definition get_hunks_for_turn (w : World) (prompt_index : N) (t : Tracker) : list Hunk :=
  match turn_index t !! prompt_index with
  | None => []
  | Some ids => omap (λ id, get_hunk w id t) (walk_set w ids)
  end.

(** [git_dirty_cache.contains(rel)] for an absolute path, which is looked up as
    it is when it is not under the working directory. *)
Definition in_cache (cache : gset string) (path : string) (t : Tracker) : bool :=
  bool_decide (default path (strip_path_prefix (working_dir t) path) ∈ cache).

Definition is_agent_file_query (path : string) (t : Tracker) : bool :=
  from_option is_agent_file false (file_states t !! path).

Definition get_staged_files (t : Tracker) : gset string := set_map (join_path (working_dir t)) (git_staged_cache t).

Definition get_all_file_contents (w : World) (t : Tracker) : list FileContentEntry :=
  map (λ e, mkContentEntry e.1 (from_content_state (baseline e.2)) (from_content_state (current_content e.2))
              (is_agent_file e.2) (in_cache (git_staged_cache t) e.1 t))
    (walk_files w t).

(** *** The session summary *)

Record TurnData : Type := mkTurnData {
  td_files : gset string;
  td_pending : list Hunk;
  td_lines_added : N;
  td_lines_removed : N;
}.
Definition no_turn_data : TurnData := mkTurnData ∅ [] 0 0.

Record Gather : Type := mkGather {
  by_prompt : gmap N TurnData;
  unattributed : nat;
  modified : gset string;
}.

Definition gather_hunk (path : string) (g : Gather) (h : Hunk) : Gather :=
  match source_prompt (h_source h) with
  | Some p =>
      let d := default no_turn_data (by_prompt g !! p) in
      let d := mkTurnData ({[path]} ∪ td_files d) (td_pending d ++ [h]) (td_lines_added d + new_count (line_info h))
                 (td_lines_removed d + old_count (line_info h)) in
      mkGather (<[p := d]> (by_prompt g)) (unattributed g) (modified g)
  | None => mkGather (by_prompt g) (S (unattributed g)) (modified g)
  end.

Definition has_agent_hunks (hs : list Hunk) : bool := any (λ h, is_agent_edit (h_source h)) hs.

Definition gather_file (g : Gather) (e : string * FileHunkState) : Gather :=
  let g := foldl (gather_hunk e.1) g (hunks e.2) in
  if has_agent_hunks (hunks e.2) then mkGather (by_prompt g) (unattributed g) ({[e.1]} ∪ modified g) else g.

Definition earlier_turn (a b : TurnSummary) : Prop := t_prompt_index a ≤ t_prompt_index b.
#[export] Instance earlier_turn_dec : RelDecision earlier_turn.
Proof. intros a b. unfold earlier_turn. apply _. Defined.

Definition turn_summary (w : World) (e : N * TurnData) : TurnSummary :=
  mkTurn e.1 (walk_set w (td_files e.2)) (td_pending e.2) (td_lines_added e.2) (td_lines_removed e.2).

Definition sum_N (l : list N) : N := foldr N.add 0 l.

Definition compute_session_summary (w : World) (t : Tracker) : SessionSummary :=
  let g := foldl gather_file (mkGather ∅ 0 ∅) (walk_files w t) in
  let ts := stable_sort earlier_turn (map (turn_summary w) (map_to_list (by_prompt g))) in
  mkSummary (session_stats t) ts (size (modified g)) (size (modified g))
    (list_sum (map (λ t, length (t_pending_hunks t)) ts))
    (sum_N (map t_lines_added ts)) (sum_N (map t_lines_removed ts)) (unattributed g).

(** ** Snapshots *)

Definition snapshot_file_state (f : FileHunkState) : FileHunkStateSnapshot :=
  mkFileSnap (baseline f) (current_content f) (hunks f) (is_agent_file f) (baseline_accepted f).
Definition restored_file (s : FileHunkStateSnapshot) : FileHunkState :=
  mkFile (sn_baseline s) (sn_current_content s) (sn_hunks s) (sn_is_agent_file s) (sn_baseline_accepted s).

Definition take_snapshot (t : Tracker) : HunkTrackerSnapshot :=
  mkSnap (snapshot_file_state <$> file_states t) (turn_index t) (session_stats t).

Definition owns_any (ids : gset HunkId) (f : FileHunkState) : bool := any (λ h, bool_decide (h_id h ∈ ids)) (hunks f).

Definition take_turn_delta (prompt_index : N) (t : Tracker) : HunkTurnDelta :=
  let ids := default ∅ (turn_index t !! prompt_index) in
  mkDelta prompt_index
    (omap (λ f, if owns_any ids f then Some (snapshot_file_state f) else None) (file_states t)) ids.

Definition restore_snapshot (s : HunkTrackerSnapshot) (t : Tracker) : Tracker :=
  t <| file_states := restored_file <$> sn_file_states s |> <| turn_index := sn_turn_index s |>
    <| session_stats := sn_session_stats s |>.
