(* ===== verification/HunkActor.v ===== *)
(** * What the hunk tracker does with a command
      (xai-hunk-tracker/src/actor/mutations.rs, actions.rs, git.rs, mod.rs, commands.rs)

    One definition per handler, whole: the writes of the agent, the notices of
    the file watcher, the refresh after git moved, accepting and rejecting, and
    the batches the actor makes of the notices waiting in its channel. *)

From Stdlib Require Import Ascii String.
From S2P Require Import Prelude RustStr TrimLemmas Disk Rewind HunkTypes HunkDiff HunkTracker.
From stdpp Require Import options.

#[local] Open Scope N_scope.

Definition strip_single_trailing_newline (content : string) : string :=
  match strip_suffix (String carriage nl) content with
  | Some s => s
  | None => default content (strip_suffix nl content)
  end.

Definition same_text (a b : string) : bool :=
  String.eqb (strip_single_trailing_newline a) (strip_single_trailing_newline b).

Definition is_tracked (path : string) (t : Tracker) : bool := bool_decide (is_Some (file_states t !! path)).
Definition is_missing (c : FileContentState) : bool := match c with Missing => true | _ => false end.
Definition agent_only (t : Tracker) : bool := bool_decide (mode t = AgentOnly).

(** A file the tracker meets for the first time. *)
Definition start_tracking (path : string) (base current : FileContentState) (agent : bool) (t : Tracker) : Tracker :=
  send_event (FileAdded path agent) (set_file path (mkFile base current [] agent false) t).

(** The hunks of a file that is dropped or found clean: they leave the index and
    are reported as superseded. *)
Definition supersede (path : string) (hs : list Hunk) (t : Tracker) : Tracker :=
  foldl (λ t h, send_event (HunkRemoved path (h_id h) Superseded) (remove_from_turn_index (h_id h) (h_source h) t)) t hs.

(** The source of an edit that is not the agent's. *)
Definition outside_source (path : string) (t : Tracker) : HunkSource :=
  if is_agent_file_query path t then ExternalEditOnAgentFile else External.

Section actor.
Context `{HunkIds, Differ}.

(** ** Writes of the agent *)

Definition record_agent_write (w : World) (path content : string) (prompt_index : N) (previous_content : option string)
    (t : Tracker) : Tracker :=
  let current := classify_string content in
  if negb (is_diffable current) then
    match file_states t !! path with
    | None =>
        let '(base, t) := match previous_content with
                          | Some prev => (classify_string prev, t)
                          | None => read_baseline w path t
                          end in
        start_tracking path base current true t
    | Some f => set_file path (f <| is_agent_file := true |> <| current_content := current |> <| hunks := [] |>) t
    end
  else
    let t := match file_states t !! path with
             | None =>
                 let '(base, t) := read_baseline w path t in
                 let base := if is_missing base
                             then from_option classify_string missing_content previous_content
                             else base in
                 start_tracking path base current true t
             | Some f => set_file path (f <| is_agent_file := true |>) t
             end in
    recompute_hunks w path (Some current) (AgentEdit prompt_index) t.

(** ** Notices of the file watcher *)

(** The baseline already read, or read now. *)
Definition baseline_or_read (w : World) (path : string) (preloaded : option FileContentState) (t : Tracker)
  : FileContentState * Tracker :=
  match preloaded with Some b => (b, t) | None => read_baseline w path t end.

(** A path git does not know and does not report: ignored, unless a directory. *)
Definition is_ignored (w : World) (path : string) (base : FileContentState) (t : Tracker) : bool :=
  negb (agent_only t) && is_missing base && negb (is_dir w path) && negb (in_cache (git_dirty_cache t) path t).

Definition track_undiffable (w : World) (path : string) (preloaded : option FileContentState)
    (current : FileContentState) (t : Tracker) : Tracker :=
  let '(base, t) := if agent_only t then (missing_content, t) else baseline_or_read w path preloaded t in
  if is_ignored w path base t then t
  else
    let t := start_tracking path base current false t in
    if is_diffable base then recompute_hunks w path None External t else t.

Definition content_matches_head (path : string) (current head : FileContentState) (t : Tracker) : bool :=
  match current, head with
  | Full c, Full h => same_text c h
  | Missing, Missing | Binary _, Binary _ | TooLarge _, TooLarge _ | LfsPointer _, LfsPointer _ | Symlink, Symlink => true
  | Symlink, Full _ | Full _, Symlink => negb (in_cache (git_dirty_cache t) path t)
  | _, _ => false
  end.

Definition process_file_change (w : World) (path : string) (preloaded : option FileContentState) (t : Tracker) : Tracker :=
  if agent_only t && negb (is_tracked path t) then t
  else
    let current := read_file_bounded (disk w path) in
    let recompute t := recompute_hunks w path (Some current) (outside_source path t) t in
    match file_states t !! path with
    | None =>
        if negb (is_diffable current) then track_undiffable w path preloaded current t
        else
          let '(base, t) := baseline_or_read w path preloaded t in
          if is_ignored w path base t then t
          else recompute (start_tracking path base missing_content false t)
    | Some f =>
        if baseline_accepted f then
          let '(head, t) := baseline_or_read w path preloaded t in
          if content_matches_head path current head t then
            set_file path (f <| baseline := head |> <| current_content := head |> <| baseline_accepted := false |>
                             <| hunks := [] |>) t
          else recompute t
        else recompute t
    end.

Definition handle_file_change (w : World) (path : string) (t : Tracker) : Tracker := process_file_change w path None t.

(** The paths whose baseline is read up front. *)
Definition needs_baseline (t : Tracker) (path : string) : bool :=
  match file_states t !! path with
  | None => negb (agent_only t)
  | Some f => baseline_accepted f
  end.

Fixpoint process_all (w : World) (baselines : gmap string FileContentState) (paths : list string) (t : Tracker) : Tracker :=
  match paths with
  | [] => t
  | p :: paths => process_all w (delete p baselines) paths (process_file_change w p (baselines !! p) t)
  end.

Definition handle_file_changes_batch (w : World) (paths : list string) (t : Tracker) : Tracker :=
  if is_nil paths then t
  else
    let wanted := bfilter (needs_baseline t) paths in
    let '(baselines, t) := if is_nil wanted then (∅, t) else read_baselines_batch w wanted t in
    process_all w baselines paths t.

Definition handle_file_deleted (w : World) (path : string) (t : Tracker) : Tracker :=
  if negb (is_tracked path t) then
    if agent_only t then t
    else if path_exists w path then t
    else
      let '(base, t) := read_baseline w path t in
      if is_missing base then t
      else recompute_hunks w path None External (start_tracking path base missing_content false t)
  else if path_exists w path then handle_file_change w path t
  else recompute_hunks w path None (outside_source path t) t.

(** ** After git moved *)

Definition reset_baseline (path : string) (t : Tracker) : Tracker :=
  match file_states t !! path with
  | None => t
  | Some f =>
      let t := set_file path (f <| baseline := current_content f |> <| baseline_accepted := false |> <| hunks := [] |>) t in
      send_event (BaselineUpdated path) (supersede path (hunks f) t)
  end.

Definition refresh_git_dirty_cache (w : World) (scope : option (list string)) (t : Tracker) : Tracker :=
  if is_not_a_repo t then t
  else if negb (git_task_ends w) then t
  else
    let items := match open_or_discover w (git_repo_state t) with
                 | Some (prefix, _) => scanned w prefix scope
                 | None => []
                 end in
    let t := cached_after w t in
    let to_track := bfilter (λ rel, negb (is_tracked (join_path (working_dir t) rel) t)) (walk_set w (dirty_of items)) in
    let t := t <| git_dirty_cache := dirty_of items |> <| git_staged_cache := staged_of items |> in
    if agent_only t then t
    else foldl (λ t rel, handle_file_change w (join_path (working_dir t) rel) t) t to_track.

Definition is_clean (w : World) (path : string) (base current : FileContentState) (t : Tracker) : bool :=
  let clean_for_git := negb (in_cache (git_dirty_cache t) path t) in
  match base, current with
  | Full b, Full c => same_text b c
  | Binary _, Binary _ | TooLarge _, TooLarge _ | LfsPointer _, LfsPointer _ | Symlink, Symlink => clean_for_git
  | LfsPointer _, _ | _, LfsPointer _ => clean_for_git
  | Symlink, Full _ | Full _, Symlink => clean_for_git
  | Missing, Missing => negb (path_exists w path)
  | Missing, _ => clean_for_git
  | _, _ => false
  end.

Definition drop_file (path : string) (t : Tracker) : Tracker := t <| file_states := delete path (file_states t) |>.

Definition refresh_file (w : World) (baselines : gmap string FileContentState) (t : Tracker) (path : string) : Tracker :=
  match file_states t !! path with
  | None => t
  | Some f =>
      let base := default missing_content (baselines !! path) in
      let current := read_file_bounded (disk w path) in
      let f := f <| baseline := base |> <| current_content := current |> <| baseline_accepted := false |> in
      let t := set_file path f t in
      if is_clean w path base current t then
        if is_agent_file f then
          send_event (BaselineUpdated path) (supersede path (hunks f) (set_file path (f <| hunks := [] |>) t))
        else send_event (FileRemoved path) (supersede path (hunks f) (drop_file path t))
      else send_event (BaselineUpdated path) (recompute_hunks w path (Some current) (outside_source path t) t)
  end.

Definition refresh_scope (w : World) (t : Tracker) : option (list string) :=
  if agent_only t then Some (omap (strip_path_prefix (working_dir t)) (walk_keys w (file_states t))) else None.

(** The caches are emptied rather than scanned for when no tracked path is under
    the working directory. *)
Definition refresh_caches (w : World) (t : Tracker) : Tracker :=
  match refresh_scope w t with
  | Some [] => t <| git_dirty_cache := ∅ |> <| git_staged_cache := ∅ |>
  | scope => refresh_git_dirty_cache w scope t
  end.

Definition refresh_all_baselines_except (w : World) (skip : gset string) (t : Tracker) : Tracker :=
  if agent_only t && bool_decide (file_states t = ∅) then t
  else
    let '(sync, t) := read_repo_sync_state w t in
    if bool_decide (sync = Some (repo_sync_state t)) then t
    else
      let t := match sync with Some s => t <| repo_sync_state := s |> | None => t end in
      let t := refresh_caches w t in
      let paths := bfilter (λ p, negb (bool_decide (p ∈ skip))) (walk_keys w (file_states t)) in
      let '(baselines, t) := if is_nil paths then (∅, t) else read_baselines_batch w paths t in
      foldl (refresh_file w baselines) t paths.

Definition refresh_all_baselines (w : World) (t : Tracker) : Tracker := refresh_all_baselines_except w ∅ t.

Definition forget_file (t : Tracker) (path : string) : Tracker :=
  match file_states t !! path with
  | Some f => send_event (FileRemoved path) (supersede path (hunks f) (drop_file path t))
  | None => t
  end.

Definition set_mode (w : World) (m : TrackingMode) (t : Tracker) : Tracker :=
  let old_mode := mode t in
  let t := t <| mode := m |> in
  match old_mode, m with
  | AgentOnly, AllDirty => refresh_git_dirty_cache w None t
  | AllDirty, AgentOnly =>
      foldl forget_file t (omap (λ e, if is_agent_file e.2 then None else Some e.1) (walk_files w t))
  | _, _ => t
  end.

(** ** Accepting and rejecting *)

Definition update_session_stats (i : HunkLineInfo) (accepted : bool) (t : Tracker) : Tracker :=
  let s := session_stats t in
  t <| session_stats :=
    if accepted then
      mkStats (u64_saturating_add (accepted_hunks s) 1) (rejected_hunks s)
        (u64_saturating_add (accepted_lines_added s) (new_count i))
        (u64_saturating_add (accepted_lines_removed s) (old_count i))
        (rejected_lines_added s) (rejected_lines_removed s)
    else
      mkStats (accepted_hunks s) (u64_saturating_add (rejected_hunks s) 1)
        (accepted_lines_added s) (accepted_lines_removed s)
        (u64_saturating_add (rejected_lines_added s) (new_count i))
        (u64_saturating_add (rejected_lines_removed s) (old_count i)) |>.

Definition is_accept (a : HunkAction) : bool := match a with Accept => true | Reject => false end.

Definition without (ids : list HunkId) (hs : list Hunk) : list Hunk := bfilter (λ h, negb (contains (h_id h) ids)) hs.

(** The source the hunks that are left are recomputed with. *)
Definition remaining_source (path : string) (t : Tracker) : HunkSource :=
  from_option h_source External (file_states t !! path ≫= λ f, head (hunks f)).

Definition apply_new (h : Hunk) (base : string) : string :=
  patch_lines base (old_start (line_info h)) (old_count (line_info h)) (new_text h).
Definition apply_old (h : Hunk) (current : string) : string :=
  patch_lines current (new_start (line_info h)) (new_count (line_info h)) (default "" (old_text h)).

Definition patch_baseline (h : Hunk) (base : FileContentState) : FileContentState :=
  match base with Full b => Full (apply_new h b) | other => other end.

Definition accept_hunk (w : World) (path : string) (h : Hunk) (t : Tracker) : Tracker :=
  match file_states t !! path with
  | None => t
  | Some f =>
      let created := is_missing (baseline f) in
      let base := if created then current_content f else patch_baseline h (baseline f) in
      let f := f <| baseline := base |> <| baseline_accepted := true |> <| hunks := without [h_id h] (hunks f) |> in
      let t := send_events [HunkRemoved path (h_id h) Accepted; BaselineUpdated path] (set_file path f t) in
      if created then t
      else recompute_hunks w path (Some (current_content f)) (remaining_source path t) t
  end.

Inductive RejectAction : Type :=
| RestoreDeleted (base : string)
| DeleteCreated
| RevertChange (patched : string)
| NoOp.

Definition reject_action (f : FileHunkState) (revert : string → string) : RejectAction :=
  match baseline f, current_content f with
  | Full b, Missing => RestoreDeleted b
  | Missing, Full _ => DeleteCreated
  | _, Full c => RevertChange (revert c)
  | _, _ => NoOp
  end.

(** The file is written or removed; an error leaves the rest undone. *)
Definition write_out (w : World) (path text : string) (t : Tracker) : Tracker * result () HunkActionError :=
  match write_result w path with
  | Ok _ => (log_write (Wrote path text) t, Ok ())
  | Err e => (t, Err (WriteError path e))
  end.
Definition remove_out (w : World) (path : string) (t : Tracker) : Tracker * result () HunkActionError :=
  match remove_result w path with
  | Ok _ => (log_write (Removed path) t, Ok ())
  | Err e => (t, Err (DeleteError path e))
  end.

(** The file's state after its hunks [hs] are undone on disk, leaving [current]. *)
Definition after_reject (path : string) (hs : list Hunk) (current : FileContentState) (f : FileHunkState) (t : Tracker)
  : Tracker :=
  send_events (map (λ h, HunkRemoved path (h_id h) Rejected) hs)
    (set_file path (f <| current_content := current |> <| hunks := without (map h_id hs) (hunks f) |>) t).

Definition carry_out_reject (w : World) (path : string) (hs : list Hunk) (f : FileHunkState) (a : RejectAction) (t : Tracker)
  : Tracker * result () HunkActionError :=
  match a with
  | RestoreDeleted b =>
      match write_out w path b t with
      | (t, Ok _) => (after_reject path hs (Full b) f t, Ok ())
      | failed => failed
      end
  | DeleteCreated =>
      match remove_out w path t with
      | (t, Ok _) => (after_reject path hs Missing f t, Ok ())
      | failed => failed
      end
  | RevertChange patched =>
      match write_out w path patched t with
      | (t, Ok _) =>
          let t := after_reject path hs (Full patched) f t in
          (recompute_hunks w path (Some (Full patched)) (remaining_source path t) t, Ok ())
      | failed => failed
      end
  | NoOp => (t, Ok ())
  end.

Definition reject_hunk (w : World) (path : string) (h : Hunk) (t : Tracker) : Tracker * result () HunkActionError :=
  match file_states t !! path with
  | None => (t, Ok ())
  | Some f => carry_out_reject w path [h] f (reject_action f (apply_old h)) t
  end.

Definition find_hunk (id : HunkId) (files : list (string * FileHunkState)) : option (string * Hunk) :=
  head (omap (λ e, pair e.1 <$> List.find (λ h, String.eqb (h_id h) id) (hunks e.2)) files).

Definition apply_hunk_action (w : World) (id : HunkId) (action : HunkAction) (t : Tracker)
  : Tracker * result () HunkActionError :=
  match find_hunk id (walk_files w t) with
  | None => (t, Err (HunkNotFound id))
  | Some (path, h) =>
      let t := remove_from_turn_index id (h_source h) (update_session_stats (line_info h) (is_accept action) t) in
      match action with
      | Accept => (accept_hunk w path h t, Ok ())
      | Reject => reject_hunk w path h t
      end
  end.

(** *** All the hunks of a file at once *)

Definition later_old (a b : Hunk) : Prop := old_start (line_info b) ≤ old_start (line_info a).
Definition later_new (a b : Hunk) : Prop := new_start (line_info b) ≤ new_start (line_info a).
#[export] Instance later_old_dec : RelDecision later_old.
Proof. intros a b. unfold later_old. apply _. Defined.
#[export] Instance later_new_dec : RelDecision later_new.
Proof. intros a b. unfold later_new. apply _. Defined.

Definition accept_hunks_batch (w : World) (path : string) (hs : list Hunk) (t : Tracker) : Tracker :=
  match hs, file_states t !! path with
  | [], _ | _, None => t
  | _, Some f =>
      let created := is_missing (baseline f) in
      let base := if created then current_content f
                  else foldl (λ b h, patch_baseline h b) (baseline f) (stable_sort later_old hs) in
      let f := f <| baseline := base |> <| baseline_accepted := true |> <| hunks := without (map h_id hs) (hunks f) |> in
      let t := send_events (map (λ h, HunkRemoved path (h_id h) Accepted) hs ++ [BaselineUpdated path]) (set_file path f t) in
      if created then t
      else recompute_hunks w path (Some (current_content f)) (remaining_source path t) t
  end.

Definition revert_all (hs : list Hunk) (current : string) : string :=
  foldl (λ c h, apply_old h c) current (stable_sort later_new hs).

Definition reject_hunks_batch (w : World) (path : string) (hs : list Hunk) (t : Tracker)
  : Tracker * result () HunkActionError :=
  match hs, file_states t !! path with
  | [], _ | _, None => (t, Ok ())
  | _, Some f => carry_out_reject w path hs f (reject_action f (revert_all hs)) t
  end.

Definition count_action (action : HunkAction) (t : Tracker) (h : Hunk) : Tracker :=
  remove_from_turn_index (h_id h) (h_source h) (update_session_stats (line_info h) (is_accept action) t).

Fixpoint apply_action_batch (w : World) (files : list (string * list Hunk)) (action : HunkAction) (affected : list HunkId)
    (t : Tracker) : Tracker * result (list HunkId) HunkActionError :=
  match files with
  | [] => (t, Ok affected)
  | (path, hs) :: files =>
      let t := foldl (count_action action) t hs in
      let affected := affected ++ map h_id hs in
      match action with
      | Accept => apply_action_batch w files action affected (accept_hunks_batch w path hs t)
      | Reject =>
          match reject_hunks_batch w path hs t with
          | (t, Ok _) => apply_action_batch w files action affected t
          | (t, Err e) => (t, Err e)
          end
      end
  end.

Definition apply_file_action (w : World) (path : string) (action : HunkAction) (t : Tracker)
  : Tracker * result (list HunkId) HunkActionError :=
  match file_states t !! path with
  | None => (t, Ok [])
  | Some f => if is_nil (hunks f) then (t, Ok []) else apply_action_batch w [(path, hunks f)] action [] t
  end.

(** The files with a hunk that [f] selects, each with these hunks. *)
Definition files_with (w : World) (f : Hunk → bool) (t : Tracker) : list (string * list Hunk) :=
  bfilter (λ e, negb (is_nil e.2)) (map (λ e, (e.1, bfilter f (hunks e.2))) (walk_files w t)).

Definition apply_all_action (w : World) (action : HunkAction) (t : Tracker) : Tracker * result (list HunkId) HunkActionError :=
  apply_action_batch w (files_with w (λ _, true) t) action [] t.

Definition apply_turn_action (w : World) (prompt_index : N) (action : HunkAction) (t : Tracker)
  : Tracker * result (list HunkId) HunkActionError :=
  apply_action_batch w (files_with w (λ h, bool_decide (source_prompt (h_source h) = Some prompt_index)) t) action [] t.

(** ** Commands *)

Inductive HunkTrackerCommand : Type :=
| RecordAgentWrite (path content : string) (prompt_index : N) (previous_content : option string)
| HandleFileChange (path : string)
| HandleFileDeleted (path : string)
| RefreshGitDirtyCache
| ResetBaseline (path : string)
| SetMode (m : TrackingMode)
| CmdHunkAction (id : HunkId) (action : HunkAction)
| FileAction (path : string) (action : HunkAction)
| AllAction (action : HunkAction)
| TurnAction (prompt_index : N) (action : HunkAction)
| GetAllHunks
| GetHunksForPath (path : string)
| GetFileHunkData (path : string)
| GetHunksBySource (source : HunkSourceFilter)
| GetHunk (id : HunkId)
| IsAgentFile (path : string)
| GetAllTrackedPaths
| GetStagedFiles
| GetAllFileContents
| GetSessionSummary
| GetTurnHunks (prompt_index : N)
| ResetStats
| RefreshAllBaselines
| SnapshotState
| SnapshotTurnDelta (prompt_index : N)
| RestoreState (snapshot : HunkTrackerSnapshot).

(** What is sent down a command's reply channel. *)
Inductive Reply : Type :=
| NoReply
| ActionReply (r : result () HunkActionError)
| AffectedReply (r : result (list HunkId) HunkActionError)
| HunksReply (hs : list Hunk)
| HunkDataReply (d : FileHunkData)
| HunkReply (h : option Hunk)
| BoolReply (b : bool)
| PathsReply (ps : list string)
| StagedReply (ps : gset string)
| ContentsReply (es : list FileContentEntry)
| SummaryReply (s : SessionSummary)
| SnapshotReply (s : HunkTrackerSnapshot)
| DeltaReply (d : HunkTurnDelta).

Definition handle_command (w : World) (c : HunkTrackerCommand) (t : Tracker) : Tracker * Reply :=
  match c with
  | RecordAgentWrite path content p prev => (record_agent_write w path content p prev t, NoReply)
  | HandleFileChange path => (handle_file_change w path t, NoReply)
  | HandleFileDeleted path => (handle_file_deleted w path t, NoReply)
  | RefreshGitDirtyCache => (refresh_git_dirty_cache w None t, NoReply)
  | ResetBaseline path => (reset_baseline path t, NoReply)
  | SetMode m => (set_mode w m t, NoReply)
  | CmdHunkAction id action => let '(t, r) := apply_hunk_action w id action t in (t, ActionReply r)
  | FileAction path action => let '(t, r) := apply_file_action w path action t in (t, AffectedReply r)
  | AllAction action => let '(t, r) := apply_all_action w action t in (t, AffectedReply r)
  | TurnAction p action => let '(t, r) := apply_turn_action w p action t in (t, AffectedReply r)
  | GetAllHunks => (t, HunksReply (get_all_hunks w t))
  | GetHunksForPath path => (t, HunksReply (get_hunks_for_path path t))
  | GetFileHunkData path => (t, HunkDataReply (get_file_hunk_data path t))
  | GetHunksBySource source => (t, HunksReply (get_hunks_by_source w source t))
  | GetHunk id => (t, HunkReply (get_hunk w id t))
  | IsAgentFile path => (t, BoolReply (is_agent_file_query path t))
  | GetAllTrackedPaths => (t, PathsReply (get_all_tracked_paths w t))
  | GetStagedFiles => (t, StagedReply (get_staged_files t))
  | GetAllFileContents => (t, ContentsReply (get_all_file_contents w t))
  | GetSessionSummary => (t, SummaryReply (compute_session_summary w t))
  | GetTurnHunks p => (t, HunksReply (get_hunks_for_turn w p t))
  | ResetStats => (t <| session_stats := no_stats |>, NoReply)
  | RefreshAllBaselines => (refresh_all_baselines w t, NoReply)
  | SnapshotState => (t, SnapshotReply (take_snapshot t))
  | SnapshotTurnDelta p => (t, DeltaReply (take_turn_delta p t))
  | RestoreState s => (restore_snapshot s t, NoReply)
  end.

(** ** Batches *)

Inductive CoalescedPathAction : Type := Changed | Deleted | DeletedThenChanged.
#[export] Instance CoalescedPathAction_eq_dec : EqDecision CoalescedPathAction.
Proof. solve_decision. Defined.

Record CoalescedBatch : Type := mkBatch {
  file_actions : gmap string CoalescedPathAction;
  refresh_all : bool;
  refresh_dirty : bool;
  other_commands : list HunkTrackerCommand;
  command_count : nat;
}.
#[export] Instance settable_CoalescedBatch : Settable CoalescedBatch :=
  λ b, mkBatch (file_actions b) (refresh_all b) (refresh_dirty b) (other_commands b) (command_count b).

Definition batch_new : CoalescedBatch := mkBatch ∅ false false [] 0.

(** The action of a path after one more notice. *)
Definition then_changed (a : option CoalescedPathAction) : CoalescedPathAction :=
  match a with
  | None => Changed
  | Some Deleted => DeletedThenChanged
  | Some a => a
  end.

Definition batch_add (b : CoalescedBatch) (c : HunkTrackerCommand) : CoalescedBatch :=
  let b := b <| command_count := S (command_count b) |> in
  match c with
  | HandleFileChange path => b <| file_actions := <[path := then_changed (file_actions b !! path)]> (file_actions b) |>
  | HandleFileDeleted path => b <| file_actions := <[path := Deleted]> (file_actions b) |>
  | RefreshAllBaselines => b <| refresh_all := true |>
  | RefreshGitDirtyCache => b <| refresh_dirty := true |>
  | c => b <| other_commands := other_commands b ++ [c] |>
  end.

Definition is_coalescable (c : HunkTrackerCommand) : bool :=
  match c with
  | HandleFileChange _ | HandleFileDeleted _ | RefreshAllBaselines | RefreshGitDirtyCache => true
  | _ => false
  end.

Definition drain_and_coalesce (first : HunkTrackerCommand) (waiting : list HunkTrackerCommand) : CoalescedBatch :=
  foldl batch_add (batch_add batch_new first) waiting.

(** [batch.file_actions], in the order it is walked. *)
Definition walk_actions (w : World) (b : CoalescedBatch) : list (string * CoalescedPathAction) :=
  omap (λ p, pair p <$> file_actions b !! p) (walk_keys w (file_actions b)).

(** With a refresh of everything ahead, only paths that are new are read here. *)
Definition refresh_step (w : World) (acc : Tracker * gset string) (e : string * CoalescedPathAction) : Tracker * gset string :=
  let '(t, done) := acc in
  match e.2 with
  | Changed | DeletedThenChanged =>
      if is_tracked e.1 t then (t, done) else (handle_file_change w e.1 t, {[e.1]} ∪ done)
  | Deleted => (if is_tracked e.1 t then handle_file_deleted w e.1 t else t, done)
  end.

Definition delete_step (w : World) (acc : Tracker * list string) (e : string * CoalescedPathAction) : Tracker * list string :=
  let '(t, changed) := acc in
  match e.2 with
  | Changed | DeletedThenChanged => (t, changed ++ [e.1])
  | Deleted => (handle_file_deleted w e.1 t, changed)
  end.

Definition handle_file_actions (w : World) (b : CoalescedBatch) (t : Tracker) : Tracker :=
  if refresh_all b then
    let '(t, done) := foldl (refresh_step w) (t, ∅) (walk_actions w b) in
    refresh_all_baselines_except w done t
  else
    let '(t, changed) := foldl (delete_step w) (t, []) (walk_actions w b) in
    handle_file_changes_batch w changed t.

Definition handle_coalesced_batch (w : World) (b : CoalescedBatch) (t : Tracker) : Tracker * list Reply :=
  let t := if refresh_dirty b && negb (refresh_all b) then refresh_git_dirty_cache w None t else t in
  let t := handle_file_actions w b t in
  foldl (λ acc c, let '(t, r) := handle_command w c acc.1 in (t, acc.2 ++ [r])) (t, []) (other_commands b).

(** The loop, on the commands that wait in the channel when a turn begins: one
    that can be coalesced takes all the others along. The [k]-th turn meets the
    [k]-th world. *)
Fixpoint run_queue (worlds : nat → World) (k : nat) (queue : list HunkTrackerCommand) (t : Tracker) : Tracker * list Reply :=
  match queue with
  | [] => (t, [])
  | c :: queue =>
      if is_coalescable c then handle_coalesced_batch (worlds k) (drain_and_coalesce c queue) t
      else
        let '(t, r) := handle_command (worlds k) c t in
        let '(t, rs) := run_queue worlds (S k) queue t in
        (t, r :: rs)
  end.

(** The start of the loop. *)
Definition run_start (w : World) (t : Tracker) : Tracker := if agent_only t then t else refresh_git_dirty_cache w None t.

End actor.
