(* ===== verification/HunkLoc.v ===== *)
(** * Lines of code by author (xai-hunk-tracker/src/loc/mod.rs)

    A second task reads the events of the tracker and writes a record for each
    that adds, changes or takes back lines, so that the lines of a hunk can be
    had by summing its records. A writer is a class of operations on a state;
    the one that appends lines of JSON is an instance, with the serializer and
    the answers of the file system as parameters. *)

From Stdlib Require Import Ascii String ZArith.
From S2P Require Import Prelude RustStr TrimLemmas HunkTypes.
From stdpp Require Import options.

#[local] Open Scope Z_scope.

Inductive AuthorType : Type := AgentAuthor | HumanAuthor.
#[export] Instance AuthorType_eq_dec : EqDecision AuthorType.
Proof. solve_decision. Defined.
Definition AuthorType_display (a : AuthorType) : string :=
  match a with AgentAuthor => "agent" | HumanAuthor => "human" end.

Inductive SourceType : Type := SrcAgentEdit | SrcExternalEditOnAgentFile | SrcExternal.
Definition SourceType_display (s : SourceType) : string :=
  match s with
  | SrcAgentEdit => "agent_edit"
  | SrcExternalEditOnAgentFile => "external_edit_on_agent_file"
  | SrcExternal => "external"
  end.

Inductive EventType : Type := EvAdded | EvUpdated | EvRemoved.
Definition EventType_display (e : EventType) : string :=
  match e with EvAdded => "added" | EvUpdated => "updated" | EvRemoved => "removed" end.

Record HunkRecord : Type := mkRecord {
  r_hunk_id : HunkId;
  r_file_path : string;
  hunk_start : N;
  hunk_end : N;
  lines_added : Z;
  lines_removed : Z;
  author_type : option AuthorType;
  author_id : option string;
  r_agent_id : string;
  r_session_id : string;
  timestamp : N;
  r_prompt_index : option N;
  source_type : option SourceType;
  event_type : EventType;
  removal_reason : option HunkRemovalReason;
}.
#[export] Instance settable_HunkRecord : Settable HunkRecord :=
  λ r, mkRecord (r_hunk_id r) (r_file_path r) (hunk_start r) (hunk_end r) (lines_added r) (lines_removed r) (author_type r)
         (author_id r) (r_agent_id r) (r_session_id r) (timestamp r) (r_prompt_index r) (source_type r) (event_type r)
         (removal_reason r).

(** [n as i64] *)
Definition as_i64 (n : N) : Z := let m := Z.of_N n mod 2 ^ 64 in if m <? 2 ^ 63 then m else m - 2 ^ 64.

Definition from_hunk (h : Hunk) (session_id agent_id : string) (user_id : option string) (event : EventType)
    (attribution : HunkSource) : HunkRecord :=
  let li := line_info h in
  let '(author, author_id, prompt, source) :=
    match attribution with
    | AgentEdit p => (AgentAuthor, Some agent_id, Some p, SrcAgentEdit)
    | ExternalEditOnAgentFile => (HumanAuthor, user_id, None, SrcExternalEditOnAgentFile)
    | External => (HumanAuthor, user_id, None, SrcExternal)
    end in
  let '(start, count) := if (new_count li =? 0)%N then (old_start li, old_count li) else (new_start li, new_count li) in
  let last := if (count =? 0)%N then start else (start + count - 1)%N in
  mkRecord (h_id h) (h_path h) start last (as_i64 (new_count li)) (as_i64 (old_count li)) (Some author) author_id agent_id
    session_id (h_created_at h) prompt (Some source) event None.

(** ** Writers *)

Class HunkRecordWriter (W : Type) : Type := {
  write_rec : HunkRecord → W → result () string * W;
  flush_rec : W → result () string * W;
}.

(** The writer of lines of JSON; [j_text] is what the file ends with. *)
Record JsonlHunkRecordWriter : Type := mkJsonl {
  j_path : string;
  j_open : bool;
  j_text : string;
}.
Definition jsonl_new (path : string) : JsonlHunkRecordWriter := mkJsonl path false "".

Record JsonlHost : Type := mkJsonlHost {
  create_dir_all : string → result () string;
  open_append : string → result () string;
  write_all : string → result () string;
  flush_file : result () string;
  to_json : HunkRecord → result string string;
}.

Definition ensure_open (host : JsonlHost) (w : JsonlHunkRecordWriter) : result JsonlHunkRecordWriter string :=
  if j_open w then Ok w
  else
    let? _ := match path_parent (j_path w) with Some p => create_dir_all host p | None => Ok () end in
    let? _ := open_append host (j_path w) in
    Ok (mkJsonl (j_path w) true (j_text w)).

#[export] Instance JsonlWriter (host : JsonlHost) : HunkRecordWriter JsonlHunkRecordWriter := {
  write_rec r w :=
    match ensure_open host w with
    | Err e => (Err e, w)
    | Ok w =>
        match to_json host r with
        | Err e => (Err e, w)
        | Ok json =>
            match write_all host (json +:+ nl) with
            | Err e => (Err e, w)
            | Ok _ => (Ok (), mkJsonl (j_path w) true (j_text w +:+ json +:+ nl))
            end
        end
    end;
  flush_rec w := (if j_open w then flush_file host else Ok (), w);
}.

(** The writer of the tests, which keeps the records it is given. *)
Definition VecWriter : Type := list HunkRecord.
#[export] Instance vec_writer : HunkRecordWriter VecWriter := {
  write_rec r w := (Ok (), w ++ [r]);
  flush_rec w := (Ok (), w);
}.

(** ** The sink *)

Inductive LocAggregate : Type :=
| LinesChanged (author : AuthorType) (added removed : Z) (file_path : string)
| LinesReverted (added_reverted removed_reverted : Z).

Record LocSinkContext : Type := mkLocContext {
  l_session_id : string;
  l_agent_id : string;
  l_user_id : option string;
  has_aggregate_tx : bool;
}.

Record Sink (W : Type) : Type := mkSink {
  writer : W;
  acc : gmap HunkId (Z * Z);
  aggregates : list LocAggregate;
}.
Arguments mkSink {_} _ _ _.
Arguments writer {_} _.
Arguments acc {_} _.
Arguments aggregates {_} _.

Section sink.
Context {W : Type} `{HunkRecordWriter W}.

Definition write_record (r : HunkRecord) (s : Sink W) : Sink W := mkSink (write_rec r (writer s)).2 (acc s) (aggregates s).

Definition send_aggregate (ctx : LocSinkContext) (a : LocAggregate) (s : Sink W) : Sink W :=
  if has_aggregate_tx ctx then mkSink (writer s) (acc s) (aggregates s ++ [a]) else s.

(** The lines of a record are added to the account of its hunk. *)
Definition add_to_account (id : HunkId) (added removed : Z) (s : Sink W) : Sink W :=
  let e := default (0, 0) (acc s !! id) in
  mkSink (writer s) (<[id := (e.1 + added, e.2 + removed)]> (acc s)) (aggregates s).
Definition close_account (id : HunkId) (s : Sink W) : Sink W :=
  mkSink (writer s) (delete id (acc s)) (aggregates s).

Definition record_change (ctx : LocSinkContext) (fallback : AuthorType) (r : HunkRecord) (s : Sink W) : Sink W :=
  let s := add_to_account (r_hunk_id r) (lines_added r) (lines_removed r) s in
  let s := send_aggregate ctx
             (LinesChanged (default fallback (author_type r)) (lines_added r) (lines_removed r) (r_file_path r)) s in
  write_record r s.

Definition handle_event (ctx : LocSinkContext) (now : N) (s : Sink W) (e : HunkEvent) : Sink W :=
  match e with
  | HunkAdded _ h =>
      record_change ctx AgentAuthor
        (from_hunk h (l_session_id ctx) (l_agent_id ctx) (l_user_id ctx) EvAdded (h_source h)) s
  | HunkContentChanged _ h trigger prev_added prev_removed =>
      let r := from_hunk h (l_session_id ctx) (l_agent_id ctx) (l_user_id ctx) EvUpdated trigger in
      let r := r <| lines_added := as_i64 (new_count (line_info h)) - as_i64 prev_added |>
                 <| lines_removed := as_i64 (old_count (line_info h)) - as_i64 prev_removed |> in
      record_change ctx HumanAuthor r s
  | HunkRemoved _ id Accepted => close_account id s
  | HunkRemoved path id reason =>
      match acc s !! id with
      | Some (added, removed) =>
          let s := close_account id s in
          if (added =? 0) && (removed =? 0) then s
          else
            let s := send_aggregate ctx (LinesReverted (Z.max added 0) (Z.max removed 0)) s in
            write_record
              (mkRecord id path 0 0 (- added) (- removed) None None (l_agent_id ctx) (l_session_id ctx) now None None
                 EvRemoved (Some reason)) s
      | None => s
      end
  | HunkMoved _ _ _ | FileAdded _ _ | FileRemoved _ | BaselineUpdated _ => s
  end.

(** The loop: what is left in the channel when the task is cancelled is handled
    like what came before. *)
Definition run_loc_sink (ctx : LocSinkContext) (now : N) (w : W) (before drained : list HunkEvent) : Sink W :=
  let s := foldl (handle_event ctx now) (mkSink w ∅ []) before in
  let s := foldl (handle_event ctx now) s drained in
  mkSink (flush_rec (writer s)).2 (acc s) (aggregates s).

End sink.

(** ** The records of a hunk add up

    A reader of the records sums them by hunk. The reference is what the hunk is
    at the time: the lines it has while it is pending, kept for good when it is
    accepted, and gone when it is rejected or replaced. *)

(** Lines added and removed. *)
Definition Lines : Type := Z * Z.
Definition plus (a b : Lines) : Lines := (a.1 + b.1, a.2 + b.2).
Definition counts (i : HunkLineInfo) : Lines := (as_i64 (new_count i), as_i64 (old_count i)).

(** What is kept for good, and what is still pending. *)
Record Account : Type := mkAccount { kept : Lines; open_lines : Lines }.

Definition account_step (id : HunkId) (a : Account) (e : HunkEvent) : Account :=
  match e with
  | HunkAdded _ h => if String.eqb (h_id h) id then mkAccount (kept a) (plus (open_lines a) (counts (line_info h))) else a
  | HunkContentChanged _ h _ pa pr =>
      if String.eqb (h_id h) id
      then mkAccount (kept a) (plus (open_lines a) (as_i64 (new_count (line_info h)) - as_i64 pa, as_i64 (old_count (line_info h)) - as_i64 pr))
      else a
  | HunkRemoved _ i Accepted => if String.eqb i id then mkAccount (plus (kept a) (open_lines a)) (0, 0) else a
  | HunkRemoved _ i _ => if String.eqb i id then mkAccount (kept a) (0, 0) else a
  | _ => a
  end.

Definition account_of (id : HunkId) (es : list HunkEvent) : Account :=
  foldl (account_step id) (mkAccount (0, 0) (0, 0)) es.

(** What the hunk itself comes to: pending are the lines of its last version. *)
Definition tally_step (id : HunkId) (a : Account) (e : HunkEvent) : Account :=
  match e with
  | HunkAdded _ h | HunkContentChanged _ h _ _ _ =>
      if String.eqb (h_id h) id then mkAccount (kept a) (counts (line_info h)) else a
  | HunkRemoved _ i reason =>
      if String.eqb i id
      then mkAccount (if bool_decide (reason = Accepted) then plus (kept a) (open_lines a) else kept a) (0, 0) else a
  | _ => a
  end.
Definition tally (id : HunkId) (es : list HunkEvent) : Account := foldl (tally_step id) (mkAccount (0, 0) (0, 0)) es.

(** The events tell the truth of a hunk: it is added when none of its lines is
    pending, and a change names the counts that it had. *)
Definition true_event (id : HunkId) (a : Account) (e : HunkEvent) : bool :=
  match e with
  | HunkAdded _ h => negb (String.eqb (h_id h) id) || bool_decide (open_lines a = (0, 0))
  | HunkContentChanged _ h _ pa pr => negb (String.eqb (h_id h) id) || bool_decide (open_lines a = (as_i64 pa, as_i64 pr))
  | _ => true
  end.
Fixpoint truthful_from (id : HunkId) (a : Account) (es : list HunkEvent) : bool :=
  match es with
  | [] => true
  | e :: es => true_event id a e && truthful_from id (tally_step id a e) es
  end.
Definition truthful (id : HunkId) (es : list HunkEvent) : bool := truthful_from id (mkAccount (0, 0) (0, 0)) es.

(** The sum of a hunk's records. *)
Definition sum_records (id : HunkId) (rs : list HunkRecord) : Lines :=
  foldr (λ r s, if String.eqb (r_hunk_id r) id then plus (lines_added r, lines_removed r) s else s) (0, 0) rs.

Lemma plus_assoc a b c : plus a (plus b c) = plus (plus a b) c.
Proof. destruct a, b, c. unfold plus. cbn. f_equal; lia. Qed.
Lemma plus_zero a : plus a (0, 0) = a.
Proof. destruct a. unfold plus. cbn. f_equal; lia. Qed.
Lemma plus_comm a b : plus a b = plus b a.
Proof. destruct a, b. unfold plus. cbn. f_equal; lia. Qed.

Lemma sum_snoc id rs r :
  sum_records id (rs ++ [r]) = if String.eqb (r_hunk_id r) id then plus (sum_records id rs) (lines_added r, lines_removed r) else sum_records id rs.
Proof.
  induction rs as [|x rs IH]; cbn.
  - destruct (String.eqb (r_hunk_id r) id); [by rewrite plus_comm|done].
  - fold (sum_records id (rs ++ [r])). fold (sum_records id rs). rewrite IH.
    destruct (String.eqb (r_hunk_id r) id), (String.eqb (r_hunk_id x) id); try done. apply plus_assoc.
Qed.

#[local] Arguments sum_records : simpl never.
#[local] Arguments plus : simpl never.

Section sink.
Variables (ctx : LocSinkContext) (now : N).

(** The sink's own account of a hunk, and its records, against the reference. *)
Definition agrees (id : HunkId) (s : Sink VecWriter) (a : Account) : Prop :=
  default (0, 0) (acc s !! id) = open_lines a ∧ sum_records id (writer s) = plus (kept a) (open_lines a).

Lemma send_aggregate_same (x : LocAggregate) (s : Sink VecWriter) :
  acc (send_aggregate ctx x s) = acc s ∧ writer (send_aggregate ctx x s) = writer s.
Proof. unfold send_aggregate. by destruct (has_aggregate_tx ctx). Qed.

Lemma change_agrees id fallback r s a :
  agrees id s a →
  agrees id (record_change ctx fallback r s)
    (if String.eqb (r_hunk_id r) id then mkAccount (kept a) (plus (open_lines a) (lines_added r, lines_removed r)) else a).
Proof.
  intros [Ho Hs]. unfold record_change, write_record, agrees. cbn.
  destruct (send_aggregate_same (LinesChanged (default fallback (author_type r)) (lines_added r) (lines_removed r) (r_file_path r))
              (add_to_account (r_hunk_id r) (lines_added r) (lines_removed r) s)) as [-> ->]. cbn.
  rewrite sum_snoc. destruct (String.eqb (r_hunk_id r) id) eqn:E.
  - apply String.eqb_eq in E as ->. rewrite lookup_insert_eq, Ho, Hs. cbn. split; [done|]. by rewrite plus_assoc.
  - apply String.eqb_neq in E. by rewrite lookup_insert_ne.
Qed.

(** Taking a hunk's lines back. *)
Definition revert (path : string) (i : HunkId) (reason : HunkRemovalReason) (s : Sink VecWriter) : Sink VecWriter :=
  match acc s !! i with
  | Some (added, removed) =>
      let s := close_account i s in
      if (added =? 0) && (removed =? 0) then s
      else
        write_record
          (mkRecord i path 0 0 (- added) (- removed) None None (l_agent_id ctx) (l_session_id ctx) now None None EvRemoved (Some reason))
          (send_aggregate ctx (LinesReverted (Z.max added 0) (Z.max removed 0)) s)
  | None => s
  end.

Lemma revert_agrees id path i reason s a :
  agrees id s a → agrees id (revert path i reason s) (if String.eqb i id then mkAccount (kept a) (0, 0) else a).
Proof.
  intros [Ho Hs]. unfold revert, agrees. destruct (String.eqb i id) eqn:E.
  - apply String.eqb_eq in E as ->. destruct (acc s !! id) as [[x y]|] eqn:Ea.
    + cbn in Ho. destruct ((x =? 0) && (y =? 0)) eqn:Ez; cbn.
      * bools. apply Z.eqb_eq in H, H0. subst. rewrite lookup_delete_eq. cbn. split; [done|]. by rewrite Hs, <- Ho.
      * destruct (send_aggregate_same (LinesReverted (Z.max x 0) (Z.max y 0)) (close_account id s)) as [-> ->]. cbn.
        rewrite lookup_delete_eq, sum_snoc. cbn. rewrite String.eqb_refl. split; [done|]. rewrite Hs, <- Ho, <- plus_assoc. f_equal.
        unfold plus. cbn. f_equal; lia.
    + cbn in Ho. rewrite Ea. split; [done|]. by rewrite Hs, <- Ho.
  - apply String.eqb_neq in E. destruct (acc s !! i) as [[x y]|] eqn:Ea; [|done].
    destruct ((x =? 0) && (y =? 0)); cbn; [by rewrite lookup_delete_ne|].
    destruct (send_aggregate_same (LinesReverted (Z.max x 0) (Z.max y 0)) (close_account i s)) as [-> ->]. cbn.
    rewrite lookup_delete_ne by done. rewrite sum_snoc. cbn. by rewrite (proj2 (String.eqb_neq _ _) E).
Qed.

Lemma event_agrees id e s a : agrees id s a → agrees id (handle_event ctx now s e) (account_step id a e).
Proof.
  intros H. destruct e as [p h|p i []| |p h trigger pa pr| | |]; cbn [handle_event account_step]; try done.
  - apply (change_agrees id AgentAuthor (from_hunk h (l_session_id ctx) (l_agent_id ctx) (l_user_id ctx) EvAdded (h_source h))) in H.
    unfold from_hunk in H |- *. by destruct (h_source h), (new_count (line_info h) =? 0)%N.
  - destruct H as [Ho Hs]. unfold agrees, close_account. cbn. destruct (String.eqb i id) eqn:E; cbn.
    + apply String.eqb_eq in E as ->. rewrite lookup_delete_eq. split; [done|]. by rewrite Hs, plus_zero.
    + apply String.eqb_neq in E. by rewrite lookup_delete_ne.
  - by apply revert_agrees.
  - by apply revert_agrees.
  - match goal with |- agrees _ (record_change _ ?f ?r _) _ => apply (change_agrees id f r) in H end.
    unfold from_hunk in H |- *. by destruct trigger, (new_count (line_info h) =? 0)%N.
Qed.

Lemma tally_account id es : ∀ a, truthful_from id a es = true → foldl (account_step id) a es = foldl (tally_step id) a es.
Proof.
  induction es as [|e es IH]; intros a; [done|]. cbn [truthful_from foldl]. intros [He Hes]%andb_true_iff.
  assert (account_step id a e = tally_step id a e) as ->; [|by apply IH].
  destruct e as [p h|p i reason| |p h trigger pa pr| | |]; cbn in He |- *; try done.
  - destruct (String.eqb (h_id h) id); [|done]. apply bool_decide_eq_true in He. by rewrite He, plus_comm, plus_zero.
  - by destruct reason, (String.eqb i id).
  - destruct (String.eqb (h_id h) id); [|done]. apply bool_decide_eq_true in He. rewrite He. unfold plus, counts. cbn.
    f_equal. f_equal; lia.
Qed.

Lemma records_sum_to_account (before drained : list HunkEvent) (id : HunkId) :
  let a := account_of id (before ++ drained) in
  sum_records id (writer (run_loc_sink ctx now ([] : VecWriter) before drained)) = plus (kept a) (open_lines a).
Proof.
  cbn zeta. unfold run_loc_sink, account_of. cbn [flush_rec vec_writer snd writer]. rewrite foldl_app.
  assert (∀ es s a, agrees id s a → agrees id (foldl (handle_event ctx now) s es) (foldl (account_step id) a es)) as Hf.
  { induction es as [|e es IH]; intros s a H; [done|]. cbn [foldl]. apply IH. by apply event_agrees. }
  apply (Hf drained), (Hf before). done.
Qed.

(** C35: With a writer that loses nothing, the records of a hunk sum to the lines
    of the versions it was accepted in and of the version that is pending; what
    was rejected, replaced or changed away counts for nothing, however the events
    were split by the cancellation. The pending lines are the counts of the hunk
    as it was last reported, whatever the differences in the records. This holds
    of every hunk whose events are truthful: it is added when it has nothing
    pending, and a change names the counts it had. (The tracker breaks that for a
    hunk that is split, of which both halves are reported as changes:
    [split_hunk_is_taken_off_twice].) *)
Theorem records_sum_to_what_counts (before drained : list HunkEvent) (id : HunkId) :
  truthful id (before ++ drained) = true →
  let a := tally id (before ++ drained) in
  sum_records id (writer (run_loc_sink ctx now ([] : VecWriter) before drained)) = plus (kept a) (open_lines a).
Proof.
  intros Ht. cbn zeta. rewrite records_sum_to_account. unfold account_of, tally. by rewrite tally_account.
Qed.
End sink.
