(* ===== verification/HunkDiffFacts.v ===== *)
(** * Hunks describe the way from one text to the other

    A text whose lines all end in a newline is a list of lines. Its diff is a
    list of segments: lines both texts have, then lines only the old one has and
    lines only the new one has. Choosing for every segment one of its two sides
    gives the texts a review can end with, and patching reaches exactly these,
    from either end. *)

From Stdlib Require Import Ascii String.
From S2P Require Import Prelude RustStr TrimLemmas HunkTypes HunkDiff HunkTracker HunkActor.
From stdpp Require Import options.

(** ** Texts and their lines *)

Definition plain (l : string) : Prop := char_free newline l = true ∧ char_free carriage l = true.

Lemma unlines_app a b : unlines (a ++ b) = unlines a +:+ unlines b.
Proof. induction a as [|l a IH]; [done|]. cbn. fold (unlines (a ++ b)). rewrite IH, <- !str_app_assoc. done. Qed.

Lemma concat_cons_nil s ls : String.concat "" (s :: ls) = s +:+ String.concat "" ls.
Proof. destruct ls; cbn; [by rewrite str_app_nil_r|done]. Qed.

Lemma join_terminated ls : join "" (map (λ l, l +:+ nl) ls) = unlines ls.
Proof.
  unfold join. induction ls as [|l ls IH]; [done|]. cbn [map]. rewrite concat_cons_nil, IH. cbn. by rewrite str_app_assoc.
Qed.

Lemma join_unlines l ls : join nl (l :: ls) +:+ nl = unlines (l :: ls).
Proof.
  revert l. induction ls as [|m ls IH]; intros l; [cbn; done|].
  rewrite join_cons, !str_app_assoc, IH. done.
Qed.

Lemma join_lines_nonempty l ls : l :: ls ≠ [""] → is_empty (join nl (l :: ls)) = false.
Proof.
  intros Hn. destruct l as [|c l].
  - destruct ls as [|m ls]; [done|]. by rewrite join_cons.
  - destruct ls; [done|]. by rewrite join_cons.
Qed.

Lemma strip_cr_free l : char_free carriage l = true → strip_cr l = l.
Proof.
  intros Hl. destruct (strip_cr_spec l) as [|E]; [done|]. exfalso. rewrite E in Hl.
  unfold char_free in Hl. rewrite all_chars_app in Hl. cbn in Hl. by rewrite andb_false_r in Hl.
Qed.

Lemma lines_of_unlines ls : Forall plain ls → lines (unlines ls) = ls.
Proof.
  intros Hls. rewrite <- (str_app_nil_r (unlines ls)), lines_unlines; [|by eapply Forall_impl; [done|intros ? []]|done].
  rewrite app_nil_r. induction Hls as [|l ls [_ Hl] _ IH]; [done|]. cbn. by rewrite strip_cr_free, IH.
Qed.

Lemma unlines_ends ls : ls ≠ [] → ends_with nl (unlines ls) = true.
Proof.
  intros Hls. destruct ls as [|l ls]; [done|]. rewrite <- join_unlines.
  unfold ends_with, strip_suffix. rewrite rev_app_distr. change (String.rev nl) with nl. by rewrite strip_prefix_app.
Qed.

Lemma unlines_inj a b : Forall plain a → Forall plain b → unlines a = unlines b → a = b.
Proof. intros Ha Hb E. by rewrite <- (lines_of_unlines a), <- (lines_of_unlines b), E. Qed.

Lemma tokens_unlines ls : Forall plain ls → tokens (unlines ls) = map (λ l, l +:+ nl) ls.
Proof.
  intros Hls. unfold tokens. rewrite <- (str_app_nil_r (unlines ls)), split_unlines;
    [|by eapply Forall_impl; [done|intros ? []]|done].
  rewrite reverse_snoc, reverse_involutive. cbn [is_empty]. by rewrite app_nil_r.
Qed.

Lemma unlines_cr_free ls : Forall plain ls → cr_free (unlines ls).
Proof.
  unfold cr_free. induction 1 as [|l ls [_ Hl] _ IH]; [done|]. cbn [unlines foldr].
  by apply char_free_app; [|apply char_free_app].
Qed.

(** ** One patch on lines *)

Definition splice_at (i n : nat) (new ls : list string) : list string := take i ls ++ new ++ drop (i + n) ls.

Lemma patch_unlines i n new ls :
  Forall plain ls → Forall plain new → ls ≠ [] → i + n ≤ length ls → splice_at i n new ls ≠ [""] →
  patch_lines (unlines ls) (N.of_nat i + 1) (N.of_nat n) (unlines new) = unlines (splice_at i n new ls).
Proof.
  intros Hls Hnew Hne Hb Hout. unfold patch_lines. rewrite lines_of_unlines, unlines_ends by done.
  replace (N.to_nat (N.of_nat i + 1 - 1)) with i by lia. rewrite Nat2N.id.
  rewrite !Nat.min_l by lia.
  replace (if is_empty (unlines new) then [] else lines (unlines new)) with new.
  2: { destruct new as [|l new]; [done|]. rewrite lines_of_unlines by done. cbn.
       destruct l; done. }
  fold (splice_at i n new ls). destruct (splice_at i n new ls) as [|l out]; [done|].
  rewrite join_lines_nonempty by done. cbn [negb andb]. apply join_unlines.
Qed.

(** ** Segments *)

Definition Seg : Type := list string * list string * list string.

(** The text in which the segments chosen are new and the others old. *)
Fixpoint blend (sel : list bool) (segs : list Seg) (tail : list string) : list string :=
  match segs with
  | [] => tail
  | (e, d, i) :: segs => e ++ (if default false (head sel) then i else d) ++ blend (List.tl sel) segs tail
  end.
Definition old_text_of (segs : list Seg) (tail : list string) : list string := blend [] segs tail.
Definition new_text_of (segs : list Seg) (tail : list string) : list string := blend (map (λ _, true) segs) segs tail.

(** The hunks of the segments, when [o] old and [n] new lines come before. *)
Fixpoint builders_of (o n : nat) (segs : list Seg) : list HunkBuilder :=
  match segs with
  | [] => []
  | (e, d, i) :: segs =>
      mkBuilder (N.of_nat (o + length e) + 1) (N.of_nat (n + length e) + 1) (map (λ l, l +:+ nl) d) (map (λ l, l +:+ nl) i)
      :: builders_of (o + length e + length d) (n + length e + length i) segs
  end.

Fixpoint segs_of (e d i : list string) (cs : list Change) : list Seg * list string :=
  let flush := is_nil d && is_nil i in
  match cs with
  | [] => if flush then ([], e) else ([(e, d, i)], [])
  | (Equal, v) :: cs =>
      if flush then segs_of (e ++ [v]) [] [] cs
      else let '(s, t) := segs_of [v] [] [] cs in ((e, d, i) :: s, t)
  | (Delete, v) :: cs => segs_of e (d ++ [v]) i cs
  | (Insert, v) :: cs => segs_of e d (i ++ [v]) cs
  end.

Definition term (c : Change) : Change := (c.1, c.2 +:+ nl).

(** The hunk in progress after [d] and [i]. *)
Definition pending_builder (o n : nat) (d i : list string) : option HunkBuilder :=
  if is_nil d && is_nil i then None
  else Some (mkBuilder (N.of_nat o + 1) (N.of_nat n + 1) (map (λ l, l +:+ nl) d) (map (λ l, l +:+ nl) i)).

Lemma pending_default o n d i :
  default (builder_new (N.of_nat (o + length d) + 1) (N.of_nat (n + length i) + 1)) (pending_builder o n d i)
  = mkBuilder (N.of_nat o + 1) (N.of_nat n + 1) (map (λ l, l +:+ nl) d) (map (λ l, l +:+ nl) i).
Proof. unfold pending_builder. destruct d, i; cbn; rewrite ?Nat.add_0_r; done. Qed.

Lemma walk_builders cs : ∀ o n e d i,
  walk_changes (N.of_nat (o + length e + length d) + 1) (N.of_nat (n + length e + length i) + 1)
    (pending_builder (o + length e) (n + length e) d i) (map term cs)
  = builders_of o n (segs_of e d i cs).1.
Proof.
  induction cs as [|[[] v] cs IH]; intros o n e d i; cbn [map term fst snd walk_changes segs_of].
  - unfold pending_builder. by destruct (is_nil d && is_nil i).
  - unfold pending_builder at 1. destruct (is_nil d && is_nil i) eqn:E; cbn [option_list app].
    + bools. apply is_nil_true in H, H0. subst. cbn [length]. rewrite <- (IH o n (e ++ [v]) [] []).
      rewrite length_app. cbn [length]. unfold pending_builder. cbn. f_equal; lia.
    + specialize (IH (o + length e + length d) (n + length e + length i) [v] [] []).
      destruct (segs_of [v] [] [] cs) as [s t]. cbn [fst builders_of] in *. rewrite <- IH. cbn [length].
      unfold pending_builder. cbn. f_equal. f_equal; lia.
  - rewrite pending_default. rewrite <- IH. rewrite length_app. cbn [length].
    unfold pending_builder. replace (is_nil (d ++ [v]) && is_nil i) with false by (destruct d; done).
    rewrite map_app. f_equal; lia.
  - rewrite pending_default. rewrite <- IH. rewrite length_app. cbn [length].
    unfold pending_builder. replace (is_nil d && is_nil (i ++ [v])) with false by (destruct d, i; done).
    rewrite map_app. f_equal; lia.
Qed.

(** ** A diff is a list of segments *)

Lemma terminated_inj a b : a +:+ nl = b +:+ nl → a = b.
Proof.
  intros E. apply (f_equal String.rev) in E. rewrite !rev_app_distr in E. apply str_app_inj_l in E.
  by rewrite <- (rev_involutive a), <- (rev_involutive b), E.
Qed.

Lemma sides_lines cs : ∀ A B,
  old_side cs = map (λ l, l +:+ nl) A → new_side cs = map (λ l, l +:+ nl) B →
  ∃ ls, cs = map term ls ∧ old_side ls = A ∧ new_side ls = B.
Proof.
  induction cs as [|[[] v] cs IH]; intros A B HA HB.
  - destruct A, B; try done. by exists [].
  - destruct A as [|a A], B as [|b B]; try done. injection HA as -> HA. injection HB as E HB.
    apply terminated_inj in E as ->. destruct (IH A B) as (ls & -> & <- & <-); [done..|].
    by exists ((Equal, b) :: ls).
  - destruct A as [|a A]; [done|]. injection HA as -> HA. destruct (IH A B) as (ls & -> & <- & <-); [done..|].
    by exists ((Delete, a) :: ls).
  - destruct B as [|b B]; [done|]. injection HB as -> HB. destruct (IH A B) as (ls & -> & <- & <-); [done..|].
    by exists ((Insert, b) :: ls).
Qed.

Lemma segs_sides cs : ∀ e d i,
  old_text_of (segs_of e d i cs).1 (segs_of e d i cs).2 = e ++ d ++ old_side cs
  ∧ new_text_of (segs_of e d i cs).1 (segs_of e d i cs).2 = e ++ i ++ new_side cs.
Proof.
  unfold old_text_of, new_text_of.
  induction cs as [|[[] v] cs IH]; intros e d i; cbn [segs_of].
  - destruct (is_nil d && is_nil i) eqn:E; [|done]. bools. apply is_nil_true in H, H0. subst. cbn. by rewrite !app_nil_r.
  - destruct (is_nil d && is_nil i) eqn:E.
    + bools. apply is_nil_true in H, H0. subst. destruct (IH (e ++ [v]) [] []) as [-> ->]. by rewrite <- !app_assoc.
    + specialize (IH [v] [] []). destruct (segs_of [v] [] [] cs) as [s t]. cbn in *. destruct IH as [-> ->]. done.
  - destruct (IH e (d ++ [v]) i) as [-> ->]. by rewrite <- app_assoc.
  - destruct (IH e d (i ++ [v])) as [-> ->]. by rewrite <- app_assoc.
Qed.

(** Between two segments there are lines both texts have. *)
Definition separated (segs : list Seg) : Prop := Forall (λ s : Seg, s.1.1 ≠ []) segs.

Lemma segs_separated cs : ∀ e d i,
  separated (List.tl (segs_of e d i cs).1) ∧ (e ≠ [] → separated (segs_of e d i cs).1).
Proof.
  unfold separated. induction cs as [|[[] v] cs IH]; intros e d i; cbn [segs_of]; [|..|apply IH|apply IH].
  - destruct (is_nil d && is_nil i); repeat constructor; done.
  - destruct (is_nil d && is_nil i); [by split; [apply IH|intros _; apply IH; destruct e]|].
    destruct (IH [v] [] []) as [_ Hs]. destruct (segs_of [v] [] [] cs) as [s t]. cbn in *.
    split; [by apply Hs|]. intros He. constructor; [done|by apply Hs].
Qed.

Definition plain_seg (s : Seg) : Prop := Forall plain s.1.1 ∧ Forall plain s.1.2 ∧ Forall plain s.2.

Lemma segs_plain cs : ∀ e d i,
  Forall plain e → Forall plain d → Forall plain i → Forall plain (old_side cs) → Forall plain (new_side cs) →
  Forall plain_seg (segs_of e d i cs).1 ∧ Forall plain (segs_of e d i cs).2.
Proof.
  induction cs as [|[[] v] cs IH]; intros e d i He Hd Hi HA HB; cbn [segs_of].
  - destruct (is_nil d && is_nil i); repeat constructor; done.
  - cbn in HA, HB. apply Forall_cons in HA as [Hv HA]. apply Forall_cons in HB as [_ HB].
    destruct (is_nil d && is_nil i); [apply IH; try done; by apply Forall_app; rewrite Forall_singleton|].
    destruct (IH [v] [] []) as [Hs Ht]; [by apply Forall_singleton|done..|].
    destruct (segs_of [v] [] [] cs) as [s t]. cbn in *. split; [by constructor|done].
  - cbn in HA. apply Forall_cons in HA as [Hv HA]. apply IH; try done. by apply Forall_app; rewrite Forall_singleton.
  - cbn in HB. apply Forall_cons in HB as [Hv HB]. apply IH; try done. by apply Forall_app; rewrite Forall_singleton.
Qed.

(** ** Every blend starts well *)

Definition starts_well (ls : list string) : Prop := ∃ l rest, ls = l :: rest ∧ l ≠ "".

Lemma starts_well_ne ls : starts_well ls → ls ≠ [] ∧ ls ≠ [""].
Proof. intros (l & rest & -> & Hl). split; [done|]. by intros [= -> ->]. Qed.

Lemma starts_well_app l r r' : l ≠ [] → starts_well (l ++ r) → starts_well (l ++ r').
Proof. destruct l as [|x l]; [done|]. intros _ (y & rest & [= <- _] & Hy). by exists x, (l ++ r'). Qed.

Lemma blend_well sel sel' segs tail :
  separated segs → starts_well (blend sel segs tail) → starts_well (blend sel' segs tail).
Proof.
  destruct segs as [|[[e d] i] segs]; [done|]. intros Hs. apply Forall_cons in Hs as [He _]. by apply starts_well_app.
Qed.

Lemma blend_head b sel e d i segs tail :
  blend (b :: sel) ((e, d, i) :: segs) tail = e ++ (if b : bool then i else d) ++ blend sel segs tail.
Proof. done. Qed.

Lemma every_blend_well segs tail :
  separated (List.tl segs) → starts_well (old_text_of segs tail) → starts_well (new_text_of segs tail) →
  ∀ sel, starts_well (blend sel segs tail).
Proof.
  destruct segs as [|[[e d] i] segs]; [done|]. cbn [List.tl]. intros Hs Ho Hn sel.
  unfold old_text_of, new_text_of in *. cbn [blend map head default List.tl] in *.
  destruct e as [|l e]; [|by eapply starts_well_app; [|exact Ho]]. cbn [app] in *.
  destruct (default false (head sel)).
  - destruct i as [|l i]; [|by eapply starts_well_app; [|exact Hn]]. by eapply blend_well; [|exact Hn].
  - destruct d as [|l d]; [|by eapply starts_well_app; [|exact Ho]]. by eapply blend_well; [|exact Ho].
Qed.

(** ** Patching along the segments *)

(** What a hunk says of the texts, whatever its identity. *)
Definition describes (h : Hunk) (b : HunkBuilder) : Prop :=
  line_info h = mkLineInfo (b_old_start b) (N.of_nat (length (b_old_lines b)))
                           (b_new_start b) (N.of_nat (length (b_new_lines b)))
  ∧ default "" (old_text h) = join "" (b_old_lines b) ∧ new_text h = join "" (b_new_lines b).

(** The hunks that are chosen. *)
Fixpoint pick {A} (sel : list bool) (l : list A) : list A :=
  match sel, l with
  | b :: sel, x :: l => if b : bool then x :: pick sel l else pick sel l
  | _, _ => []
  end.

Lemma splice_between (p e x y r : list string) :
  splice_at (length p + length e) (length x) y (p ++ e ++ x ++ r) = p ++ e ++ y ++ r.
Proof.
  unfold splice_at. rewrite (app_assoc p e), take_app_length' by (by rewrite length_app).
  rewrite drop_app_add' by (by rewrite length_app). by rewrite drop_app_length, <- app_assoc.
Qed.

Lemma blend_plain sel segs tail :
  Forall plain_seg segs → Forall plain tail → Forall plain (blend sel segs tail).
Proof.
  intros Hs Ht. revert sel. induction Hs as [|[[e d] i] segs (He & Hd & Hi) _ IH]; intros sel; [done|].
  cbn. apply Forall_app. split; [done|]. apply Forall_app. split; [by destruct (default false (head sel))|done].
Qed.

Section along.
Variable (tail : list string).
Hypothesis (tail_plain : Forall plain tail).

(** One hunk, between what is before it and what is made of the rest. *)
Lemma apply_new_between (h : Hunk) (pre e d i rest : list string) n :
  describes h (mkBuilder (N.of_nat (length pre + length e) + 1) n (map (λ l, l +:+ nl) d) (map (λ l, l +:+ nl) i)) →
  Forall plain pre → Forall plain e → Forall plain d → Forall plain i → Forall plain rest →
  starts_well (pre ++ e ++ d ++ rest) → starts_well (pre ++ e ++ i ++ rest) →
  apply_new h (unlines (pre ++ e ++ d ++ rest)) = unlines (pre ++ e ++ i ++ rest).
Proof using tail.
  intros (Hl & _ & Hn) Hp He Hd Hi Hr Hw Hw'. unfold apply_new. rewrite Hl, Hn. cbn [old_start old_count b_old_start b_old_lines b_new_lines].
  rewrite join_terminated, length_map, patch_unlines, splice_between; try done.
  - by repeat (apply Forall_app; split).
  - by apply starts_well_ne.
  - rewrite !length_app. lia.
  - rewrite splice_between. by apply starts_well_ne.
Qed.

Lemma apply_old_between (h : Hunk) (pre e d i rest : list string) o :
  describes h (mkBuilder o (N.of_nat (length pre + length e) + 1) (map (λ l, l +:+ nl) d) (map (λ l, l +:+ nl) i)) →
  Forall plain pre → Forall plain e → Forall plain d → Forall plain i → Forall plain rest →
  starts_well (pre ++ e ++ d ++ rest) → starts_well (pre ++ e ++ i ++ rest) →
  apply_old h (unlines (pre ++ e ++ i ++ rest)) = unlines (pre ++ e ++ d ++ rest).
Proof using tail.
  intros (Hl & Ho & _) Hp He Hd Hi Hr Hw Hw'. unfold apply_old. rewrite Hl, Ho. cbn [new_start new_count b_new_start b_old_lines b_new_lines].
  rewrite join_terminated, length_map, patch_unlines, splice_between; try done.
  - by repeat (apply Forall_app; split).
  - by apply starts_well_ne.
  - rewrite !length_app. lia.
  - rewrite splice_between. by apply starts_well_ne.
Qed.

Definition all_well (pre : list string) (segs : list Seg) : Prop := ∀ sel, starts_well (pre ++ blend sel segs tail).

Lemma all_well_tail pre e d i segs (b : bool) :
  all_well pre ((e, d, i) :: segs) → all_well (pre ++ e ++ if b then i else d) segs.
Proof. intros Hw sel. specialize (Hw (b :: sel)). rewrite blend_head in Hw. by rewrite <- !app_assoc. Qed.

Lemma patch_forward segs : ∀ pre n sel hs,
  length sel = length segs → Forall plain pre → Forall plain_seg segs → all_well pre segs →
  Forall2 describes hs (builders_of (length pre) n segs) →
  foldr apply_new (unlines (pre ++ blend [] segs tail)) (pick sel hs) = unlines (pre ++ blend sel segs tail).
Proof using tail_plain.
  induction segs as [|[[e d] i] segs IH]; intros pre n sel hs Hlen Hp Hs Hw Hd.
  { destruct sel; [|done]. done. }
  destruct sel as [|b sel]; [done|]. cbn [length] in Hlen. injection Hlen as Hlen. cbn [builders_of] in Hd.
  inversion Hd as [|h ? hs' ? Hh Hd']; subst. apply Forall_cons in Hs as [(He & Hdp & Hip) Hs].
  specialize (IH (pre ++ e ++ d) (n + length e + length i) sel hs' Hlen).
  rewrite !length_app, Nat.add_assoc in IH.
  specialize (IH ltac:(by repeat (apply Forall_app; split)) Hs (all_well_tail _ _ _ _ _ false Hw) Hd').
  assert (foldr apply_new (unlines (pre ++ blend [] ((e, d, i) :: segs) tail)) (pick sel hs')
          = unlines (pre ++ e ++ d ++ blend sel segs tail)) as Hrest.
  { cbn [blend head default List.tl]. rewrite <- !app_assoc in IH. done. }
  rewrite blend_head. cbn [pick].
  destruct b; [|done].
  transitivity (apply_new h (unlines (pre ++ e ++ d ++ blend sel segs tail))); [by rewrite <- Hrest|].
  apply (apply_new_between _ _ _ _ _ _ _ Hh); try done.
  - by apply blend_plain.
  - by apply (Hw (false :: sel)).
  - by apply (Hw (true :: sel)).
Qed.

Lemma patch_backward segs : ∀ pre o sel hs,
  length sel = length segs → Forall plain pre → Forall plain_seg segs → all_well pre segs →
  Forall2 describes hs (builders_of o (length pre) segs) →
  foldr apply_old (unlines (pre ++ blend (map (λ _, true) segs) segs tail)) (pick (map negb sel) hs)
  = unlines (pre ++ blend sel segs tail).
Proof using tail_plain.
  induction segs as [|[[e d] i] segs IH]; intros pre o sel hs Hlen Hp Hs Hw Hd.
  { destruct sel; [|done]. done. }
  destruct sel as [|b sel]; [done|]. cbn [length] in Hlen. injection Hlen as Hlen. cbn [builders_of] in Hd.
  inversion Hd as [|h ? hs' ? Hh Hd']; subst. apply Forall_cons in Hs as [(He & Hdp & Hip) Hs].
  specialize (IH (pre ++ e ++ i) (o + length e + length d) sel hs' Hlen).
  rewrite !length_app, Nat.add_assoc in IH.
  specialize (IH ltac:(by repeat (apply Forall_app; split)) Hs (all_well_tail _ _ _ _ _ true Hw) Hd').
  assert (foldr apply_old (unlines (pre ++ blend (map (λ _, true) ((e, d, i) :: segs)) ((e, d, i) :: segs) tail)) (pick (map negb sel) hs')
          = unlines (pre ++ e ++ i ++ blend sel segs tail)) as Hrest.
  { cbn [map]. rewrite blend_head. rewrite <- !app_assoc in IH. done. }
  rewrite blend_head. cbn [map pick].
  cbn [map] in Hrest. destruct b; cbn [negb]; [done|].
  transitivity (apply_old h (unlines (pre ++ e ++ i ++ blend sel segs tail))); [by rewrite <- Hrest|].
  apply (apply_old_between _ _ _ _ _ _ _ Hh); try done.
  - by apply blend_plain.
  - by apply (Hw (false :: sel)).
  - by apply (Hw (true :: sel)).
Qed.
End along.

(** ** The order of the patches *)

Lemma sort_descending {A} (key : A → N) (R : relation A) `{!RelDecision R} (l : list A) :
  (∀ x y, R x y ↔ (key y ≤ key x)%N) → StronglySorted (λ x y, (key x < key y)%N) l → stable_sort R l = reverse l.
Proof.
  intros HR Hs. induction Hs as [|x l Hs IH Hx]; [done|]. cbn [stable_sort foldr]. fold (stable_sort R l).
  rewrite IH, reverse_cons. assert (Forall (λ y, (key x < key y)%N) (reverse l)) as Hr by (by rewrite reverse_Permutation).
  clear IH Hs Hx. induction Hr as [|y r Hy _ IH]; [done|]. cbn. destruct (decide (R x y)) as [Hn|]; [|by rewrite IH].
  apply HR in Hn. lia.
Qed.

Lemma foldl_reverse {A B} (g : A → B → B) b l : foldl (λ b a, g a b) b (reverse l) = foldr g b l.
Proof. induction l as [|x l IH]; [done|]. rewrite reverse_cons, foldl_app. cbn. by rewrite IH. Qed.

Lemma sorted_bfilter {A} (R : relation A) f l : StronglySorted R l → StronglySorted R (bfilter f l).
Proof.
  induction 1 as [|x l _ IH Hx]; [constructor|]. unfold bfilter in *. cbn. destruct (f x); [|done]. constructor; [done|].
  apply Forall_forall. intros y Hy. change (y ∈ bfilter f l) in Hy. apply elem_of_bfilter in Hy as [Hy _].
  by eapply Forall_forall in Hx.
Qed.

Lemma pick_map {A} (f : A → bool) l : pick (map f l) l = bfilter f l.
Proof. induction l as [|x l IH]; [done|]. cbn. rewrite IH. unfold bfilter. cbn. by destruct (f x). Qed.

Lemma builders_after o n segs : Forall (λ b, (N.of_nat o < b_old_start b)%N ∧ (N.of_nat n < b_new_start b)%N) (builders_of o n segs).
Proof.
  revert o n. induction segs as [|[[e d] i] segs IH]; intros o n; cbn; constructor; [cbn; lia|].
  eapply Forall_impl; [apply IH|]. cbn. lia.
Qed.

Definition before_in_both (a b : HunkBuilder) : Prop :=
  (b_old_start a < b_old_start b)%N ∧ (b_new_start a < b_new_start b)%N.

Lemma builders_sorted segs : separated (List.tl segs) → ∀ o n, StronglySorted before_in_both (builders_of o n segs).
Proof.
  induction segs as [|[[e d] i] segs IH]; intros Hs o n; cbn; constructor.
  - apply IH. destruct segs; [done|]. by apply Forall_cons in Hs as [_ Hs].
  - destruct segs as [|[[e' d'] i'] segs]; [constructor|]. cbn in Hs. apply Forall_cons in Hs as [He _]. cbn in He.
    destruct e' as [|l e']; [done|]. cbn. unfold before_in_both. constructor; [cbn; lia|].
    eapply Forall_impl; [apply builders_after|]. cbn. lia.
Qed.

Lemma hunks_sorted hs bs :
  Forall2 describes hs bs → StronglySorted before_in_both bs →
  StronglySorted (λ a b, (old_start (line_info a) < old_start (line_info b))%N) hs
  ∧ StronglySorted (λ a b, (new_start (line_info a) < new_start (line_info b))%N) hs.
Proof.
  induction 1 as [|h b hs bs (Hl & _) Hf IH]; [repeat constructor|]. intros Hs. inversion Hs as [|? ? Hs' Hb]; subst.
  destruct (IH Hs') as [Ho Hn].
  assert (∀ x, x ∈ hs → (old_start (line_info h) < old_start (line_info x))%N
                        ∧ (new_start (line_info h) < new_start (line_info x))%N) as Hx.
  { intros x [k Hk]%list_elem_of_lookup. destruct (Forall2_lookup_l _ _ _ _ _ Hf Hk) as (y & Hy & Hxy & _).
    eapply Forall_lookup_1 in Hb as [? ?]; [|exact Hy]. rewrite Hl, Hxy. done. }
  split; constructor; try done; apply Forall_forall; intros x; apply Hx.
Qed.

(** ** The theorem *)

(** The lines of the text all end in a plain newline, and the first is not
    blank. *)
Definition lf_text (s : string) : Prop := cr_free s ∧ ends_with nl s = true ∧ starts_with nl s = false.

Lemma ends_with_char c s t : ends_with (String c "") (s +:+ t) = true → char_free c t = true → t = "".
Proof.
  intros E Hf. unfold ends_with, strip_suffix in E. rewrite rev_app_distr in E.
  rewrite <- (char_free_rev c) in Hf. destruct (String.rev t) as [|d r] eqn:Hr; [by apply rev_nil|].
  exfalso. rewrite str_app_cons in E. unfold char_free in Hf. cbn in E, Hf.
  destruct (Ascii.eqb c d) eqn:Ec; [|done]. by cbn in Hf.
Qed.

Lemma char_free_unlines c ls : char_free c (unlines ls) = true → Forall (λ l, char_free c l = true) ls.
Proof.
  induction ls as [|l ls IH]; [done|]. cbn [unlines foldr]. unfold char_free. rewrite !all_chars_app. intros H. bools.
  constructor; [done|]. by apply IH.
Qed.

Lemma lf_text_lines s : lf_text s → ∃ ls, s = unlines ls ∧ Forall plain ls ∧ starts_well ls.
Proof.
  intros (Hcr & He & Hs). destruct (split_lines_inv s) as (ls & last & -> & Hls & Hlast).
  assert (last = "") as -> by (by eapply ends_with_char). rewrite str_app_nil_r in *. exists ls. split; [done|].
  apply char_free_unlines in Hcr. split.
  - apply Forall_forall. intros l Hl. rewrite Forall_forall in Hls, Hcr. split; auto.
  - destruct ls as [|l ls]; [done|]. exists l, ls. split; [done|]. by intros ->.
Qed.

(** What a hunk says, without what identifies it. *)
Definition shape (h : Hunk) : string * HunkLineInfo * option string * string :=
  (h_path h, line_info h, old_text h, new_text h).

Section theorem.
Context {ids : HunkIds} {D : Differ} {laws : DifferLaws D}.

Lemma diff_segments A B :
  Forall plain A → Forall plain B → ∃ segs tail,
  walk_changes 1 1 None (diff_lines (unlines A) (unlines B)) = builders_of 0 0 segs
  ∧ old_text_of segs tail = A ∧ new_text_of segs tail = B ∧ separated (List.tl segs) ∧ Forall plain_seg segs ∧ Forall plain tail.
Proof using laws.
  intros HA HB.
  destruct (sides_lines (diff_lines (unlines A) (unlines B)) A B) as (cs & Hcs & Ho & Hn).
  - rewrite diff_old, tokens_unlines by auto using unlines_cr_free. done.
  - rewrite diff_new, tokens_unlines by auto using unlines_cr_free. done.
  - pose proof (walk_builders cs 0 0 [] [] []) as Hw. cbn in Hw. rewrite <- Hcs in Hw.
    destruct (segs_sides cs [] [] []) as [Hso Hsn]. cbn in Hso, Hsn. rewrite Ho in Hso. rewrite Hn in Hsn.
    destruct (segs_separated cs [] [] []) as [Hsep _].
    destruct (segs_plain cs [] [] []) as [Hp Ht]; [done..|by rewrite Ho|by rewrite Hn|].
    exists (segs_of [] [] [] cs).1, (segs_of [] [] [] cs).2. done.
Qed.

Lemma build_describes n now path src bs : Forall2 describes (build_all n now path src bs) bs.
Proof.
  revert n. induction bs as [|b bs IH]; intros n; cbn; constructor; [|done].
  split_and!; [done| |done]. cbn. by destruct (b_old_lines b).
Qed.

Lemma shape_describes hs hs' bs : map shape hs = map shape hs' → Forall2 describes hs' bs → Forall2 describes hs bs.
Proof.
  intros E Hd. revert hs E. induction Hd as [|h' b hs' bs (H1 & H2 & H3) _ IH]; intros [|h hs] E; try done. cbn in E.
  injection E as Hp Hl Ho Hn E. constructor; [|by apply IH]. unfold describes. by rewrite Hl, Ho, Hn.
Qed.

Lemma meet_in_the_middle (a b : string) (hs : list Hunk) (f : Hunk → bool) n now path src :
  lf_text a → lf_text b → (byte_count a ≤ MAX_DIFF_FILE_SIZE)%N → (byte_count b ≤ MAX_DIFF_FILE_SIZE)%N →
  map shape hs = map shape (compute_hunks false n now path a b src) →
  foldl (λ c h, apply_new h c) a (stable_sort later_old (bfilter f hs)) = revert_all (bfilter (λ h, negb (f h)) hs) b.
Proof using laws.
  intros Ha Hb Hsa Hsb Hh. unfold compute_hunks in Hh.
  destruct (String.eqb a b) eqn:E. { apply String.eqb_eq in E as <-. by destruct hs. }
  rewrite (proj2 (N.ltb_ge _ _) Hsa), (proj2 (N.ltb_ge _ _) Hsb) in Hh. cbn [orb] in Hh.
  destruct (lf_text_lines a Ha) as (A & -> & HA & HwA), (lf_text_lines b Hb) as (B & -> & HB & HwB).
  destruct (diff_segments A B HA HB) as (segs & tail & Hw & Ho & Hn & Hsep & Hp & Ht).
  rewrite Hw in Hh. eapply shape_describes in Hh; [|apply build_describes].
  assert (∀ sel, starts_well (blend sel segs tail)) as Hall by (apply every_blend_well; congruence).
  destruct (hunks_sorted _ _ Hh (builders_sorted _ Hsep 0 0)) as [So Sn].
  assert (length (map f hs) = length segs) as Hlen.
  { rewrite length_map, (Forall2_length _ _ _ Hh). clear. generalize 0 at 1. generalize 0.
    induction segs as [|[[e d] i] segs IH]; intros k j; cbn; [done|]. by rewrite IH. }
  unfold revert_all. rewrite (sort_descending (λ h, old_start (line_info h)) later_old), (sort_descending (λ h, new_start (line_info h)) later_new);
    [|done|by apply sorted_bfilter|done|by apply sorted_bfilter].
  rewrite !foldl_reverse, <- !pick_map, <- (map_map f negb).
  transitivity (unlines (blend (map f hs) segs tail)).
  - rewrite <- Ho. by apply (patch_forward tail Ht segs [] 0 (map f hs)).
  - rewrite <- Hn. symmetry. by apply (patch_backward tail Ht segs [] 0 (map f hs)).
Qed.
End theorem.
