(* ===== verification/HunkTrackerFacts.v ===== *)
(** * What holds of the tracker's state: recomputation

    The invariant has three parts: the hunks of a file are the difference of its
    texts, an identifier names one hunk, and the index of turns lists a hunk
    under the prompt it comes from and nowhere else. A recomputation establishes
    it for its file whatever was there before. *)

From Stdlib Require Import Ascii String.
From S2P Require Import Prelude RustStr TrimLemmas HunkTypes HunkDiff HunkTracker HunkActor HunkDiffFacts.
From stdpp Require Import options.

(** ** The index *)

Definition indexed (ti : gmap N (gset HunkId)) (m : N) (id : HunkId) : Prop := id ∈ default ∅ (ti !! m).

Lemma indexed_remove id s ti m x :
  indexed (index_remove id s ti) m x ↔ indexed ti m x ∧ ¬ (x = id ∧ source_prompt s = Some m).
Proof.
  unfold indexed, index_remove. destruct (source_prompt s) as [p|]; [|naive_solver].
  destruct (decide (p = m)) as [->|Hn].
  - rewrite lookup_alter_eq. destruct (ti !! m) as [ids|]; cbn; set_solver.
  - rewrite lookup_alter_ne by done. naive_solver.
Qed.

Lemma indexed_insert id s ti m x :
  indexed (index_insert id s ti) m x ↔ indexed ti m x ∨ (x = id ∧ source_prompt s = Some m).
Proof.
  unfold indexed, index_insert. destruct (source_prompt s) as [p|]; [|naive_solver].
  destruct (decide (p = m)) as [->|Hn].
  - rewrite lookup_insert_eq. cbn. set_solver.
  - rewrite lookup_insert_ne by done. naive_solver.
Qed.

Definition names (hs : list Hunk) (m : N) (id : HunkId) : Prop :=
  ∃ h, h ∈ hs ∧ h_id h = id ∧ source_prompt (h_source h) = Some m.

Lemma names_cons h hs m id :
  names (h :: hs) m id ↔ (id = h_id h ∧ source_prompt (h_source h) = Some m) ∨ names hs m id.
Proof. unfold names. set_solver. Qed.

Lemma names_nil m id : ¬ names [] m id.
Proof. intros (h & H & _). set_solver. Qed.

Lemma indexed_remove_hunks hs ti m x : indexed (remove_hunks hs ti) m x ↔ indexed ti m x ∧ ¬ names hs m x.
Proof.
  revert ti. induction hs as [|h hs IH]; intros ti; cbn.
  - pose proof (names_nil m x). naive_solver.
  - unfold remove_hunks in *. rewrite IH, indexed_remove, names_cons. naive_solver.
Qed.

Lemma indexed_insert_hunks hs ti m x : indexed (insert_hunks hs ti) m x ↔ indexed ti m x ∨ names hs m x.
Proof.
  revert ti. induction hs as [|h hs IH]; intros ti; cbn.
  - pose proof (names_nil m x). naive_solver.
  - unfold insert_hunks in *. rewrite IH, indexed_insert, names_cons. naive_solver.
Qed.

(** ** Identities *)

Lemma shape_adopt o h : shape (adopt o h) = shape h.
Proof. unfold adopt. cbn. by destruct (is_external (h_source h) && is_agent_edit (h_source o)). Qed.
Lemma adopt_id o h : h_id (adopt o h) = h_id o.
Proof. unfold adopt. cbn. by destruct (is_external (h_source h) && is_agent_edit (h_source o)). Qed.

Lemma keep_shape claimed old new : map shape (keep_identities claimed old new) = map shape new.
Proof.
  revert claimed. induction new as [|h new IH]; intros claimed; [done|]. cbn.
  destruct (find_matching_old_hunk h old) as [o|]; [destruct (contains (h_id o) claimed)|]; cbn; by rewrite ?shape_adopt, IH.
Qed.

Lemma keep_length claimed old new : length (keep_identities claimed old new) = length new.
Proof. rewrite <- !(length_map shape). by rewrite keep_shape. Qed.

Lemma foldl_choice {A} (f : A → A → bool) l : ∀ x, foldl (λ m y, if f m y then y else m) x l ∈ x :: l.
Proof. induction l as [|y l IH]; intros x; cbn; [by left|]. destruct (f x y); [specialize (IH y)|specialize (IH x)]; rewrite !elem_of_cons in *; tauto. Qed.

Lemma min_by_key_elem {A} (k : A → N) l x : min_by_key k l = Some x → x ∈ l.
Proof. destruct l as [|y l]; [done|]. intros [= <-]. apply (foldl_choice (λ m y, (k y <? k m)%N)). Qed.
Lemma max_by_key_elem {A} (k : A → N) l x : max_by_key k l = Some x → x ∈ l.
Proof. destruct l as [|y l]; [done|]. intros [= <-]. apply (foldl_choice (λ m y, (k m <=? k y)%N)). Qed.

Lemma find_matching_elem h old o : find_matching_old_hunk h old = Some o → o ∈ old.
Proof.
  unfold find_matching_old_hunk. case_if.
  - intros Ho%min_by_key_elem. by apply elem_of_bfilter in Ho as [? _].
  - intros Ho%max_by_key_elem. by apply elem_of_bfilter in Ho as [? _].
Qed.

(** The identifiers after a recomputation: old ones, none of them claimed before
    or taken twice, and new ones. *)
Lemma keep_ids claimed old new :
  NoDup (map h_id new) → (∀ x, x ∈ map h_id new → x ∉ map h_id old) →
  NoDup (map h_id (keep_identities claimed old new))
  ∧ ∀ x, x ∈ map h_id (keep_identities claimed old new) →
      (x ∈ map h_id new ∨ x ∈ map h_id old ∧ x ∉ claimed).
Proof.
  revert claimed. induction new as [|h new IH]; intros claimed Hnd Hd; [split; [constructor|set_solver]|]. cbn in *.
  apply NoDup_cons in Hnd as [Hh Hnd].
  assert (∀ x, x ∈ map h_id new → x ∉ map h_id old) as Hd' by (intros x Hx; apply Hd; by right).
  assert (NoDup (map h_id (h :: keep_identities claimed old new))
          ∧ ∀ x, x ∈ map h_id (h :: keep_identities claimed old new) →
              (x ∈ h_id h :: map h_id new ∨ x ∈ map h_id old ∧ x ∉ claimed)) as Hfresh.
  { destruct (IH claimed Hnd Hd') as [IHn IHx]. cbn. split.
    - constructor; [|done]. intros Hin. destruct (IHx _ Hin) as [|[Ho _]]; [done|]. apply (Hd (h_id h)); [by left|done].
    - intros x Hx. apply elem_of_cons in Hx as [->|Hx]; [by left; left|]. destruct (IHx _ Hx); [left; by right|by right]. }
  destruct (find_matching_old_hunk h old) as [o|] eqn:Ho; [|done].
  destruct (contains (h_id o) claimed) eqn:Hc; [done|]. apply contains_false in Hc. apply find_matching_elem in Ho.
  assert (h_id o ∈ map h_id old) as Hoid by (by apply list_elem_of_fmap_2).
  destruct (IH (h_id o :: claimed) Hnd Hd') as [IHn IHx]. cbn. rewrite adopt_id. split.
  - constructor; [|done]. intros Hin. destruct (IHx _ Hin) as [Hx|[_ Hx]]; [by apply (Hd' _ Hx)|set_solver].
  - intros x Hx. apply elem_of_cons in Hx as [->|Hx]; [by right|]. destruct (IHx _ Hx) as [|[]]; [left; by right|set_solver].
Qed.

Lemma nodup_ids_bfilter g hs : NoDup (map h_id hs) → NoDup (map h_id (bfilter g hs)).
Proof.
  induction hs as [|h hs IH]; [done|]. unfold bfilter in *. cbn. intros [Hh Hhs]%NoDup_cons. destruct (g h); [|by apply IH].
  cbn. constructor; [|by apply IH]. intros (k & E & Hk)%list_elem_of_fmap. change (k ∈ bfilter g hs) in Hk.
  apply elem_of_bfilter in Hk as [Hk _]. apply Hh. rewrite E. by apply list_elem_of_fmap_2.
Qed.

Section ids.
Context {ids : HunkIds} {D : Differ}.

Lemma build_all_ids n now path src bs :
  NoDup (map h_id (build_all n now path src bs))
  ∧ ∀ x, x ∈ map h_id (build_all n now path src bs) → ∃ k, x = uuid k ∧ (n ≤ k < n + N.of_nat (length bs))%N.
Proof.
  revert n. induction bs as [|b bs IH]; intros n; cbn; [by split; [constructor|set_solver]|].
  destruct (IH (n + 1)%N) as [IHn IHx]. split.
  - constructor; [|done]. intros Hin. apply IHx in Hin as (k & E & Hk). apply uuid_inj in E. lia.
  - intros x Hx. apply elem_of_cons in Hx as [->|Hx]; [exists n; split; [done|lia]|].
    apply IHx in Hx as (k & -> & Hk). exists k. split; [done|lia].
Qed.

Lemma build_all_length n now path src bs : length (build_all n now path src bs) = length bs.
Proof. revert n. induction bs as [|b bs IH]; intros n; cbn; [done|]. by rewrite IH. Qed.

Lemma hunks_between_ids slow n now path src b c :
  NoDup (map h_id (hunks_between slow n now path src b c))
  ∧ ∀ x, x ∈ map h_id (hunks_between slow n now path src b c) →
      ∃ k, x = uuid k ∧ (n ≤ k < n + N.of_nat (length (hunks_between slow n now path src b c)))%N.
Proof.
  assert (NoDup (map h_id (@nil Hunk)) ∧ ∀ x, x ∈ map h_id (@nil Hunk) →
      ∃ k, x = uuid k ∧ (n ≤ k < n + N.of_nat (length (@nil Hunk)))%N) as Hnil by (split; [constructor|set_solver]).
  assert (∀ h : Hunk, h_id h = uuid n → NoDup (map h_id [h]) ∧ ∀ x, x ∈ map h_id [h] →
      ∃ k, x = uuid k ∧ (n ≤ k < n + N.of_nat (length [h]))%N) as Hone.
  { intros h E. cbn. rewrite E. split; [by apply NoDup_singleton|]. intros x ->%list_elem_of_singleton. exists n. cbn. split; [done|lia]. }
  destruct b as [| | | | |b], c as [| | | | |c]; try exact Hnil; cbn [hunks_between].
  - destruct (is_empty c); [exact Hnil|by apply Hone].
  - destruct (is_empty b); [exact Hnil|by apply Hone].
  - unfold compute_hunks. repeat (case_if; [exact Hnil|]). destruct (build_all_ids n now path src (walk_changes 1 1 None (diff_lines b c))) as [Hn Hx].
    split; [done|]. by rewrite build_all_length.
Qed.

(** What a file's hunks say is a function of its path and its two texts, except
    that a diff that took too long says nothing. *)
Definition difference (path : string) (b c : FileContentState) : list (string * HunkLineInfo * option string * string) :=
  map shape (hunks_between false 0 0 path External b c).

Lemma build_all_shape n now src n' now' src' path bs :
  map shape (build_all n now path src bs) = map shape (build_all n' now' path src' bs).
Proof. revert n n'. induction bs as [|b bs IH]; intros n n'; cbn; [done|]. by rewrite (IH _ (n' + 1)%N). Qed.

Lemma hunks_between_shape slow n now path src b c :
  map shape (hunks_between slow n now path src b c) = difference path b c
  ∨ hunks_between slow n now path src b c = [].
Proof.
  unfold difference. destruct b as [| | | | |b], c as [| | | | |c]; try by left.
  - left. cbn. by destruct (is_empty c).
  - left. cbn. by destruct (is_empty b).
  - cbn. unfold compute_hunks. repeat (case_if; [by auto|]). left. apply build_all_shape.
Qed.

Definition describes_file (path : string) (f : FileHunkState) : Prop :=
  hunks f = [] ∨ map shape (hunks f) = difference path (baseline f) (current_content f).

(** ** The invariant

    [exempt] is a file whose hunks are about to be recomputed, [gone] holds the
    hunks an action has taken out of the index and not yet out of their file.
    That the index is complete is claimed only as long as no file operation
    failed, which [reliable] says. *)
Record Inv (reliable : bool) (exempt : option string) (gone : list HunkId)
    (fs : gmap string FileHunkState) (ti : gmap N (gset HunkId)) (n : N) : Prop := {
  inv_shape p f : exempt ≠ Some p → fs !! p = Some f → describes_file p f;
  inv_drawn p f h : fs !! p = Some f → h ∈ hunks f → ∃ k, h_id h = uuid k ∧ (k < n)%N;
  inv_file p f : fs !! p = Some f → NoDup (map h_id (hunks f));
  inv_files p q f g h k : fs !! p = Some f → fs !! q = Some g → h ∈ hunks f → k ∈ hunks g → h_id h = h_id k → p = q;
  inv_index m id : indexed ti m id → ∃ k, id = uuid k ∧ (k < n)%N;
  inv_excl p f h m : fs !! p = Some f → h ∈ hunks f → indexed ti m (h_id h) → source_prompt (h_source h) = Some m;
  inv_complete p f h m : reliable = true → fs !! p = Some f → h ∈ hunks f → h_id h ∉ gone →
    source_prompt (h_source h) = Some m → indexed ti m (h_id h);
}.

Lemma inv_start reliable : Inv reliable None [] ∅ ∅ 0.
Proof. split; intros; rewrite ?lookup_empty in *; done || (unfold indexed in *; set_solver). Qed.

Lemma inv_more reliable e gone fs ti n n' : (n ≤ n')%N → Inv reliable e gone fs ti n → Inv reliable e gone fs ti n'.
Proof.
  intros Hn []. split; try done.
  - intros p f h Hp Hh. destruct (inv_drawn0 p f h Hp Hh) as (k & ? & ?). exists k. split; [done|lia].
  - intros m id Hi. destruct (inv_index0 m id Hi) as (k & ? & ?). exists k. split; [done|lia].
Qed.

Lemma inv_exempt reliable e gone fs ti n : Inv reliable None gone fs ti n → Inv reliable e gone fs ti n.
Proof. intros []. split; try done. intros p f _. by apply inv_shape0. Qed.

Lemma inv_unreliable gone fs ti n e : Inv false e gone fs ti n → Inv false e [] fs ti n.
Proof. by intros []. Qed.

(** A file keeps part of its hunks; what an action took out of the index is
    among those that go. *)
Lemma inv_keep_some reliable e gone path f f' fs ti n :
  Inv reliable None gone fs ti n → fs !! path = Some f →
  (∀ id, id ∈ gone → id ∈ map h_id (hunks f)) →
  hunks f' = without gone (hunks f) ∨ hunks f' = [] →
  e = Some path ∨ describes_file path f' →
  Inv reliable e [] (<[path := f']> fs) ti n.
Proof.
  intros [] Hf Hgone Hf' He.
  assert (∀ h, h ∈ hunks f' → h ∈ hunks f ∧ h_id h ∉ gone) as Hin.
  { intros h Hh. destruct Hf' as [E|E]; rewrite E in Hh; [|set_solver]. unfold without in Hh.
    apply elem_of_bfilter in Hh as [? Hc]. split; [done|]. by apply negb_true_iff, contains_false in Hc. }
  assert (∀ p g h, <[path := f']> fs !! p = Some g → h ∈ hunks g →
    ∃ g0, fs !! p = Some g0 ∧ h ∈ hunks g0 ∧ (p = path → h_id h ∉ gone)) as Hback.
  { intros p g h Hp Hh. destruct (decide (path = p)) as [<-|Hn].
    - rewrite lookup_insert_eq in Hp. injection Hp as <-. exists f. by apply Hin in Hh as [? ?].
    - rewrite lookup_insert_ne in Hp by done. exists g. split_and!; done. }
  split.
  - intros p g Hep Hp. destruct (decide (path = p)) as [<-|Hn].
    + rewrite lookup_insert_eq in Hp. injection Hp as <-. by destruct He as [->|].
    + rewrite lookup_insert_ne in Hp by done. by apply inv_shape0.
  - intros p g h Hp Hh. destruct (Hback p g h Hp Hh) as (g0 & ? & ? & _). by eapply inv_drawn0.
  - intros p g Hp. destruct (decide (path = p)) as [<-|Hn].
    + rewrite lookup_insert_eq in Hp. injection Hp as <-. destruct Hf' as [->| ->]; [|constructor].
      by eapply nodup_ids_bfilter, inv_file0.
    + rewrite lookup_insert_ne in Hp by done. by eapply inv_file0.
  - intros p q g g' h k Hp Hq Hh Hk. destruct (Hback p g h Hp Hh) as (g0 & ? & ? & _), (Hback q g' k Hq Hk) as (g1 & ? & ? & _).
    by eapply inv_files0.
  - done.
  - intros p g h m Hp Hh. destruct (Hback p g h Hp Hh) as (g0 & ? & ? & _). by eapply inv_excl0.
  - intros p g h m Hr Hp Hh _. destruct (Hback p g h Hp Hh) as (g0 & Hg0 & Hh0 & Hng). eapply inv_complete0; try done.
    intros Hg. destruct (decide (p = path)) as [->|Hn]; [by apply Hng|]. apply Hgone in Hg.
    apply list_elem_of_fmap in Hg as (k & E & Hk). by apply Hn; eapply inv_files0.
Qed.

(** Taking out of the index what names no pending hunk. *)
Lemma inv_unindex reliable e gone fs ti n id src :
  (∀ p f h, fs !! p = Some f → h ∈ hunks f → h_id h ≠ id) →
  Inv reliable e gone fs ti n → Inv reliable e gone fs (index_remove id src ti) n.
Proof.
  intros Hid []. split; try done.
  - intros m x Hx. apply indexed_remove in Hx as [Hx _]. by eapply inv_index0.
  - intros p f h m Hp Hh Hx. apply indexed_remove in Hx as [Hx _]. by eapply inv_excl0.
  - intros p f h m Hr Hp Hh Hg Hs. apply indexed_remove. split; [by eapply inv_complete0|]. intros [E _]. by eapply Hid.
Qed.

(** An action takes a hunk out of the index before anything else. *)
Lemma inv_take reliable gone fs ti n id src :
  Inv reliable None gone fs ti n → Inv reliable None (id :: gone) fs (index_remove id src ti) n.
Proof.
  intros []. split; try done.
  - intros m x Hx. apply indexed_remove in Hx as [Hx _]. by eapply inv_index0.
  - intros p f h m Hp Hh Hx. apply indexed_remove in Hx as [Hx _]. by eapply inv_excl0.
  - intros p f h m Hr Hp Hh Hg Hs. apply not_elem_of_cons in Hg as [Hne Hg]. apply indexed_remove.
    split; [by eapply inv_complete0|]. by intros [E _].
Qed.

Lemma inv_drop reliable path fs ti n : Inv reliable (Some path) [] fs ti n → Inv reliable None [] (delete path fs) ti n.
Proof.
  intros []. split; try done.
  - intros p f _ [Hn Hp]%lookup_delete_Some. apply inv_shape0; congruence.
  - intros p f h [_ Hp]%lookup_delete_Some. by eapply inv_drawn0.
  - intros p f [_ Hp]%lookup_delete_Some. by eapply inv_file0.
  - intros p q f g h k [_ Hp]%lookup_delete_Some [_ Hq]%lookup_delete_Some. by eapply inv_files0.
  - intros p f h m [_ Hp]%lookup_delete_Some. by eapply inv_excl0.
  - intros p f h m Hr [_ Hp]%lookup_delete_Some. by eapply inv_complete0.
Qed.

Lemma nodup_same (hs : list Hunk) h k : NoDup (map h_id hs) → h ∈ hs → k ∈ hs → h_id h = h_id k → h = k.
Proof.
  induction hs as [|x hs IH]; [set_solver|]. cbn. intros [Hx Hn]%NoDup_cons Hh Hk E.
  apply elem_of_cons in Hh as [->|Hh], Hk as [->|Hk]; [done|..].
  - by destruct Hx; rewrite E; apply list_elem_of_fmap_2.
  - by destruct Hx; rewrite <- E; apply list_elem_of_fmap_2.
  - by apply IH.
Qed.

Section replaced.
Variables (reliable : bool) (path : string) (f f' : FileHunkState).
Variables (fs : gmap string FileHunkState) (ti : gmap N (gset HunkId)) (n n' : N).
Hypothesis (HI : Inv reliable (Some path) [] fs ti n) (Hf : fs !! path = Some f) (Hn : (n ≤ n')%N).
Hypothesis (Hshape : describes_file path f') (Hnd : NoDup (map h_id (hunks f'))).
Hypothesis (Hids : ∀ x, x ∈ map h_id (hunks f') → (∃ k, x = uuid k ∧ (n ≤ k < n')%N) ∨ x ∈ map h_id (hunks f)).

Lemma new_in_other q g h k : fs !! q = Some g → k ∈ hunks g → h ∈ hunks f' → h_id h = h_id k → path = q.
Proof using HI Hf Hids Hn.
  intros Hq Hk Hh E. destruct (Hids (h_id h)) as [(j & Ej & Hj)|Ho].
  - by apply list_elem_of_fmap_2.
  - destruct (inv_drawn _ _ _ _ _ _ HI q g k Hq Hk) as (j' & Ej' & Hj'). rewrite <- E, Ej in Ej'. apply uuid_inj in Ej'. lia.
  - apply list_elem_of_fmap in Ho as (o & Eo & Ho). by eapply (inv_files _ _ _ _ _ _ HI path q f g o k); rewrite <- ?Eo.
Qed.

Lemma new_drawn h : h ∈ hunks f' → ∃ k, h_id h = uuid k ∧ (k < n')%N.
Proof using HI Hf Hids Hn.
  intros Hh. destruct (Hids (h_id h)) as [(j & Ej & Hj)|Ho]; [by apply list_elem_of_fmap_2|exists j; split; [done|lia]|].
  apply list_elem_of_fmap in Ho as (o & Eo & Ho). destruct (inv_drawn _ _ _ _ _ _ HI path f o Hf Ho) as (k & Ek & Hk).
  exists k. rewrite Eo. split; [done|lia].
Qed.

(** An identifier of the new hunks that is still in the index was not there
    under the name of an old one. *)
Lemma new_unlisted h m : h ∈ hunks f' → indexed ti m (h_id h) → names (hunks f) m (h_id h).
Proof using HI Hf Hids Hn.
  intros Hh Hi. destruct (Hids (h_id h)) as [(j & Ej & Hj)|Ho]; [by apply list_elem_of_fmap_2| |].
  - destruct (inv_index _ _ _ _ _ _ HI m _ Hi) as (k & Ek & Hk). rewrite Ej in Ek. apply uuid_inj in Ek. lia.
  - apply list_elem_of_fmap in Ho as (o & Eo & Ho). exists o. split_and!; [done|done|].
    eapply (inv_excl _ _ _ _ _ _ HI); [done..|]. by rewrite <- Eo.
Qed.

Lemma inv_replaced : Inv reliable None [] (<[path := f']> fs) (insert_hunks (hunks f') (remove_hunks (hunks f) ti)) n'.
Proof using HI Hf Hids Hn Hnd Hshape.
  assert (∀ p g, <[path := f']> fs !! p = Some g → (p = path ∧ g = f') ∨ (p ≠ path ∧ fs !! p = Some g)) as Hcase.
  { intros p g Hp. destruct (decide (path = p)) as [<-|Hne].
    - rewrite lookup_insert_eq in Hp. injection Hp as <-. by left.
    - rewrite lookup_insert_ne in Hp by done. by right. }
  split.
  - intros p g _ Hp. destruct (Hcase p g Hp) as [[-> ->]|[Hne Hg]]; [done|]. eapply inv_shape; [exact HI|congruence|done].
  - intros p g h Hp Hh. destruct (Hcase p g Hp) as [[-> ->]|[Hne Hg]]; [by apply new_drawn|].
    destruct (inv_drawn _ _ _ _ _ _ HI p g h Hg Hh) as (k & ? & ?). exists k. split; [done|lia].
  - intros p g Hp. destruct (Hcase p g Hp) as [[-> ->]|[Hne Hg]]; [done|]. by eapply inv_file.
  - intros p q g g' h k Hp Hq Hh Hk E.
    destruct (Hcase p g Hp) as [[-> ->]|[Hne Hg]], (Hcase q g' Hq) as [[-> ->]|[Hne' Hg']]; [done|..].
    + by eapply new_in_other.
    + symmetry. by eapply new_in_other.
    + by eapply (inv_files _ _ _ _ _ _ HI).
  - intros m x Hx. apply indexed_insert_hunks in Hx as [Hx|(h & Hh & <- & _)]; [|by apply new_drawn].
    apply indexed_remove_hunks in Hx as [Hx _]. destruct (inv_index _ _ _ _ _ _ HI m x Hx) as (k & ? & ?).
    exists k. split; [done|lia].
  - intros p g h m Hp Hh Hx. apply indexed_insert_hunks in Hx as [Hx|(k & Hk & E & Hs)].
    + apply indexed_remove_hunks in Hx as [Hx Hno].
      destruct (Hcase p g Hp) as [[-> ->]|[Hne Hg]]; [by destruct Hno; apply new_unlisted|]. by eapply (inv_excl _ _ _ _ _ _ HI).
    + destruct (Hcase p g Hp) as [[-> ->]|[Hne Hg]].
      * by rewrite <- (nodup_same (hunks f') k h).
      * by destruct Hne; symmetry; eapply new_in_other.
  - intros p g h m Hr Hp Hh Hg Hs. apply indexed_insert_hunks. destruct (Hcase p g Hp) as [[-> ->]|[Hne Hg']]; [right; by exists h|].
    left. apply indexed_remove_hunks. split; [by eapply (inv_complete _ _ _ _ _ _ HI)|].
    intros (o & Ho & E & _). apply Hne. symmetry. by eapply (inv_files _ _ _ _ _ _ HI path p f g o h).
Qed.
End replaced.

(** ** Steps that keep the invariant *)

Definition holds (reliable : bool) (e : option string) (gone : list HunkId) (t : Tracker) : Prop :=
  Inv reliable e gone (file_states t) (turn_index t) (drawn t).

Lemma recompute_holds reliable w path c src t :
  holds reliable (Some path) [] t →
  holds reliable None [] (recompute_hunks w path c src t) ∧ (drawn t ≤ drawn (recompute_hunks w path c src t))%N.
Proof.
  unfold recompute_hunks, holds. destruct (file_states t !! path) as [f|] eqn:Hf; intros HI.
  - cbn zeta. set (cur := default missing_content c).
    set (computed := hunks_between _ (drawn t) _ path src (baseline f) cur). cbn. split; [|lia].
    destruct (hunks_between_ids (limit_of w (baseline f) cur) (drawn t) (now w) path src (baseline f) cur) as [Hnd Hids].
    fold computed in Hnd, Hids.
    destruct (keep_ids [] (hunks f) computed) as [Hnd' Hids'].
    { done. }
    { intros x Hx Ho. apply Hids in Hx as (k & -> & Hk). apply list_elem_of_fmap in Ho as (o & Eo & Ho).
      destruct (inv_drawn _ _ _ _ _ _ HI path f o Hf Ho) as (k' & Ek & Hk'). rewrite Ek in Eo. apply uuid_inj in Eo. lia. }
    refine (inv_replaced reliable path f (f <| current_content := cur |> <| hunks := keep_identities [] (hunks f) computed |>)
              (file_states t) (turn_index t) (drawn t) (drawn t + N.of_nat (length computed)) HI Hf _ _ Hnd' _).
    + lia.
    + unfold describes_file. cbn. rewrite keep_shape.
      destruct (hunks_between_shape (limit_of w (baseline f) cur) (drawn t) (now w) path src (baseline f) cur) as [E|E]; [by right|].
      left. unfold computed. by rewrite E.
    + intros x Hx. destruct (Hids' x Hx) as [Hn|[Ho _]]; [left|by right]. apply Hids in Hn as (k & -> & Hk). by exists k.
  - split; [|done]. destruct HI. split; try done. intros p g _ Hp. apply inv_shape0; congruence.
Qed.
End ids.
