(* ===== verification/HunkActorFacts.v ===== *)
(** * What holds of the tracker's state: every command

    Each handler keeps the invariant of [HunkTrackerFacts], on every branch and
    in every world; so every state the actor reaches has it. *)

From Stdlib Require Import Ascii String.
From S2P Require Import Prelude RustStr TrimLemmas Rewind HunkTypes HunkDiff HunkTracker HunkActor HunkDiffFacts HunkTrackerFacts.
From stdpp Require Import options.

Section facts.
Context {ids : HunkIds} {D : Differ}.
Implicit Types (t : Tracker) (w : World) (path : string).

(** ** Steps *)

(** From a good state to a good one, with no identifier given back. *)
Definition keeps (reliable : bool) t t' : Prop :=
  holds reliable None [] t → holds reliable None [] t' ∧ (drawn t ≤ drawn t')%N.

Lemma keeps_refl r t : keeps r t t.
Proof. intros H. split; [done|lia]. Qed.

Lemma keeps_trans r t1 t2 t3 : keeps r t1 t2 → keeps r t2 t3 → keeps r t1 t3.
Proof. intros H1 H2 H. destruct (H1 H) as [H' ?]. destruct (H2 H') as [? ?]. split; [done|lia]. Qed.

(** Nothing the invariant speaks of has changed. *)
Definition alike t t' : Prop := file_states t' = file_states t ∧ turn_index t' = turn_index t ∧ drawn t' = drawn t.

Lemma keeps_alike r t t' : alike t t' → keeps r t t'.
Proof. intros (Hf & Hi & Hd) H. unfold holds in *. rewrite Hf, Hi, Hd. split; [done|lia]. Qed.

Lemma keeps_foldl {A} r (f : Tracker → A → Tracker) l : (∀ t x, keeps r t (f t x)) → ∀ t, keeps r t (foldl f t l).
Proof. intros Hf. induction l as [|x l IH]; intros t; cbn; [apply keeps_refl|]. eapply keeps_trans; [apply Hf|apply IH]. Qed.

Lemma keeps_alike_l r t t' t2 : alike t t' → keeps r t' t2 → keeps r t t2.
Proof. intros. eapply keeps_trans; [by apply keeps_alike|done]. Qed.
Lemma keeps_alike_r r t t1 t2 : keeps r t t1 → alike t1 t2 → keeps r t t2.
Proof. intros. eapply keeps_trans; [done|by apply keeps_alike]. Qed.

Lemma without_nil hs : without [] hs = hs.
Proof. unfold without, bfilter. induction hs as [|h hs IH]; [done|]. cbn. by rewrite IH. Qed.

(** A file starts over without hunks. *)
Lemma inv_cleared r e path f fs ti n :
  (∀ p, e = Some p → p = path) → hunks f = [] → Inv r e [] fs ti n → Inv r None [] (<[path := f]> fs) ti n.
Proof.
  intros He Hh [].
  assert (∀ p g h, <[path := f]> fs !! p = Some g → h ∈ hunks g → fs !! p = Some g) as Hback.
  { intros p g h [[<- <-]|[_ Hp]]%lookup_insert_Some Hin; [rewrite Hh in Hin; set_solver|done]. }
  split.
  - intros p g _ [[<- <-]|[Hne Hp]]%lookup_insert_Some; [by left|]. apply inv_shape; [|done]. intros E. by destruct Hne; rewrite (He p E).
  - intros p g h Hp Hin. eapply inv_drawn; [by eapply Hback|done].
  - intros p g [[<- <-]|[_ Hp]]%lookup_insert_Some; [rewrite Hh; constructor|by eapply inv_file].
  - intros p q g g' h k Hp Hq Hin Hk. eapply inv_files; [by eapply Hback|by eapply Hback|done..].
  - done.
  - intros p g h m Hp Hin. eapply inv_excl; [by eapply Hback|done].
  - intros p g h m Hr Hp Hin. eapply inv_complete; [done|by eapply Hback|done].
Qed.

Lemma cleared_keeps r path f t : hunks f = [] → keeps r t (set_file path f t).
Proof. intros Hf H. split; [|cbn; lia]. by apply (inv_cleared r None). Qed.

(** A file's texts and flags change; its hunks wait for a recomputation. *)
Lemma changed_holds r path f f' t :
  holds r None [] t → file_states t !! path = Some f → hunks f' = hunks f → holds r (Some path) [] (set_file path f' t).
Proof.
  intros H Hf Hh. unfold holds. cbn. eapply inv_keep_some; [exact H|exact Hf|set_solver| |by left].
  left. by rewrite without_nil.
Qed.

Lemma recompute_keeps r w path c src t : keeps r t (recompute_hunks w path c src t).
Proof. intros H. apply recompute_holds. by apply inv_exempt. Qed.

Lemma start_keeps r path b c agent t : keeps r t (start_tracking path b c agent t).
Proof. eapply keeps_alike_r; [by apply (cleared_keeps r path (mkFile b c [] agent false))|done]. Qed.

(** ** Hunks that are dropped *)

Definition unlisted (hs : list Hunk) (fs : gmap string FileHunkState) : Prop :=
  ∀ h p g k, h ∈ hs → fs !! p = Some g → k ∈ hunks g → h_id k ≠ h_id h.

Lemma supersede_alike path hs t :
  file_states (supersede path hs t) = file_states t ∧ drawn (supersede path hs t) = drawn t
  ∧ turn_index (supersede path hs t) = remove_hunks hs (turn_index t).
Proof.
  revert t. induction hs as [|h hs IH]; intros t; [done|]. unfold supersede, remove_hunks in *. cbn [foldl].
  destruct (IH (send_event (HunkRemoved path (h_id h) Superseded) (remove_from_turn_index (h_id h) (h_source h) t))) as (-> & -> & ->).
  done.
Qed.

Lemma supersede_keeps r path hs t : unlisted hs (file_states t) → keeps r t (supersede path hs t).
Proof.
  intros Hu H. destruct (supersede_alike path hs t) as (Hf & Hd & Hi). unfold holds in *. rewrite Hf, Hd, Hi. split; [|lia].
  assert (∀ ti, Inv r None [] (file_states t) ti (drawn t) → Inv r None [] (file_states t) (remove_hunks hs ti) (drawn t)) as Hr; [|by apply Hr].
  clear H Hf Hd Hi. induction hs as [|h hs IH]; [done|]. intros ti Hti. cbn. apply IH.
  - intros k p g k' Hk. apply Hu. by right.
  - apply inv_unindex; [|done]. intros p g k Hp Hk. eapply Hu; [by left|done..].
Qed.

Lemma unlisted_replaced r e gone fs ti n path f f' :
  Inv r e gone fs ti n → fs !! path = Some f → hunks f' = [] → unlisted (hunks f) (<[path := f']> fs).
Proof.
  intros HI Hf Hf' h p g k Hh [[<- <-]|[Hne Hp]]%lookup_insert_Some Hk E; [rewrite Hf' in Hk; set_solver|].
  apply Hne. by eapply (inv_files _ _ _ _ _ _ HI path p f g h k).
Qed.

Lemma unlisted_dropped r e gone fs ti n path f :
  Inv r e gone fs ti n → fs !! path = Some f → unlisted (hunks f) (delete path fs).
Proof.
  intros HI Hf h p g k Hh [Hne Hp]%lookup_delete_Some Hk E. apply Hne. by eapply (inv_files _ _ _ _ _ _ HI path p f g h k).
Qed.

(** A file whose hunks are dropped, then reported. *)
Lemma clear_and_report r e path f f' t :
  holds r e [] t → (∀ p, e = Some p → p = path) → file_states t !! path = Some f → hunks f' = [] →
  holds r None [] (supersede path (hunks f) (set_file path f' t))
  ∧ (drawn t ≤ drawn (supersede path (hunks f) (set_file path f' t)))%N.
Proof.
  intros H He Hf Hf'. destruct (supersede_keeps r path (hunks f) (set_file path f' t)) as [? ?].
  - by eapply unlisted_replaced.
  - by eapply inv_cleared.
  - split; [done|]. cbn in *. lia.
Qed.

Lemma drop_and_report r path f t :
  holds r (Some path) [] t → file_states t !! path = Some f →
  holds r None [] (supersede path (hunks f) (drop_file path t))
  ∧ (drawn t ≤ drawn (supersede path (hunks f) (drop_file path t)))%N.
Proof.
  intros H Hf. destruct (supersede_keeps r path (hunks f) (drop_file path t)) as [? ?].
  - by eapply unlisted_dropped.
  - by apply inv_drop.
  - split; [done|]. cbn in *. lia.
Qed.

(** ** Reading git *)

Lemma cached_alike w t : alike t (cached_after w t).
Proof. unfold cached_after, alike. destruct (open_or_discover w (git_repo_state t)) as [[? []]|]; [done..|]. by destruct (git_repo_state t). Qed.

Lemma read_baseline_alike w path t : alike t (read_baseline w path t).2.
Proof.
  unfold read_baseline. repeat case_if; [done..|].
  destruct (open_or_discover w (git_repo_state t)) as [[? ?]|] eqn:E'; apply cached_alike.
Qed.

Lemma read_baselines_alike w paths t : alike t (read_baselines_batch w paths t).2.
Proof.
  unfold read_baselines_batch. repeat case_if; [done..|].
  destruct (open_or_discover w (git_repo_state t)) as [[? ?]|] eqn:E'; apply cached_alike.
Qed.

Lemma read_sync_alike w t : alike t (read_repo_sync_state w t).2.
Proof.
  unfold read_repo_sync_state. do 2 (case_if; [done|]).
  destruct (open_or_discover w (git_repo_state t)) as [[? ?]|] eqn:E'; apply cached_alike.
Qed.

Lemma baseline_or_read_alike w path pre t : alike t (baseline_or_read w path pre t).2.
Proof. destruct pre; [done|]. apply read_baseline_alike. Qed.

(** ** Writes and notices *)

Lemma record_agent_write_keeps r w path content p prev t : keeps r t (record_agent_write w path content p prev t).
Proof.
  unfold record_agent_write. case_if.
  - destruct (file_states t !! path) as [f|] eqn:Hf; [by apply cleared_keeps|].
    destruct prev as [s|]; [apply start_keeps|]. pose proof (read_baseline_alike w path t) as Ha.
    destruct (read_baseline w path t) as [b t']. eapply keeps_alike_l; [exact Ha|apply start_keeps].
  - destruct (file_states t !! path) as [f|] eqn:Hf.
    + intros H. destruct (recompute_holds r w path (Some (classify_string content)) (AgentEdit p)
        (set_file path (f <| is_agent_file := true |>) t)) as [H' Hd]; [by eapply changed_holds|]. done.
    + pose proof (read_baseline_alike w path t) as Ha. destruct (read_baseline w path t) as [b t'].
      eapply keeps_alike_l; [exact Ha|]. eapply keeps_trans; [apply start_keeps|apply recompute_keeps].
Qed.

Lemma track_undiffable_keeps r w path pre c t : keeps r t (track_undiffable w path pre c t).
Proof.
  unfold track_undiffable. assert (alike t (if agent_only t then (missing_content, t) else baseline_or_read w path pre t).2) as Ha.
  { case_if; [done|apply baseline_or_read_alike]. }
  destruct (if agent_only t then _ else _) as [b t']. eapply keeps_alike_l; [exact Ha|].
  case_if; [apply keeps_refl|]. case_if; [|apply start_keeps]. eapply keeps_trans; [apply start_keeps|apply recompute_keeps].
Qed.

Lemma process_keeps r w path pre t : keeps r t (process_file_change w path pre t).
Proof.
  unfold process_file_change. case_if; [apply keeps_refl|]. destruct (file_states t !! path) as [f|] eqn:Hf.
  - case_if; [|apply recompute_keeps]. pose proof (baseline_or_read_alike w path pre t) as Ha.
    destruct (baseline_or_read w path pre t) as [b t']. eapply keeps_alike_l; [exact Ha|].
    case_if; [by apply cleared_keeps|apply recompute_keeps].
  - case_if; [apply track_undiffable_keeps|]. pose proof (baseline_or_read_alike w path pre t) as Ha.
    destruct (baseline_or_read w path pre t) as [b t']. eapply keeps_alike_l; [exact Ha|].
    case_if; [apply keeps_refl|]. eapply keeps_trans; [apply start_keeps|apply recompute_keeps].
Qed.

Lemma process_all_keeps r w paths : ∀ bs t, keeps r t (process_all w bs paths t).
Proof.
  induction paths as [|p paths IH]; intros bs t; cbn; [apply keeps_refl|]. eapply keeps_trans; [apply process_keeps|apply IH].
Qed.

Lemma changes_batch_keeps r w paths t : keeps r t (handle_file_changes_batch w paths t).
Proof.
  unfold handle_file_changes_batch. case_if; [apply keeps_refl|].
  assert (alike t (if is_nil (bfilter (needs_baseline t) paths) then (∅, t)
                   else read_baselines_batch w (bfilter (needs_baseline t) paths) t).2) as Ha.
  { case_if; [done|apply read_baselines_alike]. }
  destruct (if is_nil _ then _ else _) as [bs t']. eapply keeps_alike_l; [exact Ha|apply process_all_keeps].
Qed.

Lemma file_deleted_keeps r w path t : keeps r t (handle_file_deleted w path t).
Proof.
  unfold handle_file_deleted. repeat (case_if; try apply keeps_refl; try apply process_keeps; try apply recompute_keeps).
  pose proof (read_baseline_alike w path t) as Ha. destruct (read_baseline w path t) as [b t']. eapply keeps_alike_l; [exact Ha|].
  case_if; [apply keeps_refl|]. eapply keeps_trans; [apply start_keeps|apply recompute_keeps].
Qed.

(** ** Refreshing *)

Lemma reset_baseline_keeps r path t : keeps r t (reset_baseline path t).
Proof.
  unfold reset_baseline. destruct (file_states t !! path) as [f|] eqn:Hf; [|apply keeps_refl].
  intros H. by eapply clear_and_report with (e := None).
Qed.

Lemma refresh_dirty_keeps r w scope t : keeps r t (refresh_git_dirty_cache w scope t).
Proof.
  unfold refresh_git_dirty_cache. do 2 (case_if; [apply keeps_refl|]).
  eapply keeps_alike_l; [apply (cached_alike w t)|]. set (t' := cached_after w t). clearbody t'.
  case_if; [by apply keeps_alike|]. eapply keeps_alike_l; [|apply keeps_foldl; intros; apply process_keeps]. done.
Qed.

Lemma refresh_caches_keeps r w t : keeps r t (refresh_caches w t).
Proof. unfold refresh_caches. destruct (refresh_scope w t) as [[|]|]; [by apply keeps_alike|apply refresh_dirty_keeps..]. Qed.

Lemma refresh_file_keeps r w bs t path : keeps r t (refresh_file w bs t path).
Proof.
  unfold refresh_file. destruct (file_states t !! path) as [f|] eqn:Hf; [|apply keeps_refl]. cbn zeta.
  set (f' := f <| baseline := _ |> <| current_content := _ |> <| baseline_accepted := false |>).
  intros H. assert (holds r (Some path) [] (set_file path f' t)) as H' by (by eapply changed_holds).
  assert (file_states (set_file path f' t) !! path = Some f') as Hf' by apply lookup_insert_eq.
  case_if; [case_if|].
  - by apply (clear_and_report r (Some path) path f' (f' <| hunks := [] |>)) in H' as [? ?]; [|congruence|..].
  - by apply (drop_and_report r path f') in H' as [? ?].
  - by apply (recompute_holds r w path (Some (read_file_bounded (disk w path))) (outside_source path (set_file path f' t))) in H'.
Qed.

Lemma refresh_all_keeps r w skip t : keeps r t (refresh_all_baselines_except w skip t).
Proof.
  unfold refresh_all_baselines_except. case_if; [apply keeps_refl|]. pose proof (read_sync_alike w t) as Ha.
  destruct (read_repo_sync_state w t) as [sync t']. cbn [snd] in Ha. eapply keeps_alike_l; [exact Ha|]. clear Ha. case_if; [apply keeps_refl|].
  set (t2 := match sync with Some _ => _ | None => _ end). assert (alike t' t2) as Ha by (unfold t2; by destruct sync).
  eapply keeps_alike_l; [exact Ha|]. clearbody t2. eapply keeps_trans; [apply (refresh_caches_keeps r w t2)|].
  set (t3 := refresh_caches w t2). clearbody t3. set (paths := bfilter _ _).
  assert (alike t3 (if is_nil paths then (∅, t3) else read_baselines_batch w paths t3).2) as Hb.
  { case_if; [done|apply read_baselines_alike]. }
  destruct (if is_nil paths then _ else _) as [bs t4]. eapply keeps_alike_l; [exact Hb|].
  apply keeps_foldl. intros. apply refresh_file_keeps.
Qed.

Lemma forget_keeps r t path : keeps r t (forget_file t path).
Proof.
  unfold forget_file. destruct (file_states t !! path) as [f|] eqn:Hf; [|apply keeps_refl]. intros H.
  by apply (drop_and_report r path f); [apply inv_exempt|].
Qed.

Lemma set_mode_keeps r w m t : keeps r t (set_mode w m t).
Proof.
  unfold set_mode. destruct (mode t), m; [by apply keeps_alike| | |by apply keeps_alike].
  - eapply keeps_alike_l; [|apply refresh_dirty_keeps]. done.
  - eapply keeps_alike_l; [|apply keeps_foldl; intros; apply forget_keeps]. done.
Qed.

(** ** Actions *)

Lemma inv_gone_mono r e gone gone' fs ti n :
  (∀ id, id ∈ gone → id ∈ gone') → Inv r e gone fs ti n → Inv r e gone' fs ti n.
Proof. intros Hg []. split; try done. intros p f h m Hr Hp Hh Hn. eapply inv_complete; [done..|]. auto. Qed.

Lemma count_all_alike a hs : ∀ t,
  file_states (foldl (count_action a) t hs) = file_states t ∧ drawn (foldl (count_action a) t hs) = drawn t
  ∧ turn_index (foldl (count_action a) t hs) = remove_hunks hs (turn_index t).
Proof.
  induction hs as [|h hs IH]; intros t; [done|]. cbn [foldl]. destruct (IH (count_action a t h)) as (-> & -> & ->). done.
Qed.

Lemma take_all_inv r fs n hs : ∀ gone ti,
  Inv r None gone fs ti n → Inv r None (map h_id hs ++ gone) fs (remove_hunks hs ti) n.
Proof.
  induction hs as [|h hs IH]; intros gone ti H; [done|]. cbn.
  eapply inv_gone_mono; [|apply IH, inv_take, H]. intros id. rewrite elem_of_app, !elem_of_cons, elem_of_app. tauto.
Qed.

Lemma count_all_holds r a hs t : holds r None [] t → holds r None (map h_id hs) (foldl (count_action a) t hs).
Proof.
  intros H. destruct (count_all_alike a hs t) as (Hf & Hd & Hi). unfold holds in *. rewrite Hf, Hd, Hi.
  apply (take_all_inv _ _ _ hs) in H. by rewrite app_nil_r in H.
Qed.

(** The hunks are pending in the file. *)
Definition pending (path : string) (hs : list Hunk) t : Prop :=
  ∃ f, file_states t !! path = Some f ∧ ∀ h, h ∈ hs → h ∈ hunks f.

Lemma difference_one_sided path b c : b = Missing ∨ c = Missing → length (difference path b c) ≤ 1.
Proof.
  unfold difference. rewrite length_map. intros [-> | ->].
  - destruct c; cbn; try lia. destruct (is_empty s); cbn; lia.
  - destruct b; cbn; try lia. destruct (is_empty s); cbn; lia.
Qed.

Lemma all_gone path f hs :
  describes_file path f → baseline f = Missing ∨ current_content f = Missing → hs ≠ [] → (∀ h, h ∈ hs → h ∈ hunks f) →
  without (map h_id hs) (hunks f) = [].
Proof.
  intros Hd Hm Hne Hin. assert (length (hunks f) ≤ 1) as Hl.
  { destruct Hd as [->|E]; [cbn; lia|]. rewrite <- (length_map shape), E. by apply difference_one_sided. }
  destruct hs as [|h hs]; [done|]. assert (h ∈ hunks f) as Hh by (apply Hin; by left).
  destruct (hunks f) as [|k [|]]; [done| |cbn in Hl; lia]. apply list_elem_of_singleton in Hh as ->.
  unfold without, bfilter. cbn. rewrite (proj2 (contains_spec _ _)); [done|]. by left.
Qed.

(** What an action takes out of the file was taken out of the index. *)
Lemma settle_holds r path hs f f' t :
  holds r None (map h_id hs) t → file_states t !! path = Some f → (∀ h, h ∈ hs → h ∈ hunks f) →
  hunks f' = without (map h_id hs) (hunks f) →
  holds r (Some path) [] (set_file path f' t) ∧ (describes_file path f' → holds r None [] (set_file path f' t)).
Proof.
  intros H Hf Hin Hf'.
  assert (∀ id, id ∈ map h_id hs → id ∈ map h_id (hunks f)) as Hids.
  { intros id (h & -> & Hh)%list_elem_of_fmap. apply list_elem_of_fmap_2. auto. }
  split; [|intros Hd]; eapply inv_keep_some; [exact H|exact Hf|exact Hids|by left|by left|exact H|exact Hf|exact Hids|by left|by right].
Qed.

Lemma send_holds r e gone es t : holds r e gone (send_events es t) ↔ holds r e gone t.
Proof. done. Qed.

Lemma accept_batch_holds r w path hs t :
  hs ≠ [] → pending path hs t → holds r None (map h_id hs) t →
  holds r None [] (accept_hunks_batch w path hs t) ∧ (drawn t ≤ drawn (accept_hunks_batch w path hs t))%N.
Proof.
  intros Hne (f & Hf & Hin) H. unfold accept_hunks_batch. destruct hs as [|h0 hs0] eqn:Ehs; [done|]. rewrite <- Ehs in *.
  rewrite Hf. cbn zeta. clear Hne. assert (hs ≠ []) as Hne by (by rewrite Ehs).
  set (f' := f <| baseline := _ |> <| baseline_accepted := true |> <| hunks := _ |>).
  destruct (settle_holds r path hs f f' t H Hf Hin eq_refl) as [Hex Hdone].
  destruct (is_missing (baseline f)) eqn:Em.
  - split; [|cbn; lia]. apply Hdone. left. apply (all_gone path); try done; [|left; by destruct (baseline f)].
    eapply inv_shape; [exact H|done|done].
  - match goal with |- holds _ _ _ (recompute_hunks ?w ?p ?c ?s ?t1) ∧ _ => destruct (recompute_holds r w p c s t1 Hex) as [H' Hd] end.
    split; [done|]. cbn in *. lia.
Qed.

(** A pending hunk can be rejected: the guards of the code that give up are never
    reached. *)
Lemma reject_is_possible path f hs g :
  describes_file path f → hs ≠ [] → (∀ h, h ∈ hs → h ∈ hunks f) → reject_action f g ≠ NoOp.
Proof.
  intros Hd Hne Hin. destruct hs as [|h hs]; [done|]. assert (h ∈ hunks f) as Hh by (apply Hin; by left).
  destruct Hd as [E|E]; [rewrite E in Hh; set_solver|].
  assert (difference path (baseline f) (current_content f) ≠ []) as Hn by (rewrite <- E; destruct (hunks f); [set_solver|done]).
  unfold reject_action, difference in *. by destruct (baseline f), (current_content f).
Qed.

Definition writes_work (w : World) : Prop := ∀ p, write_result w p = Ok () ∧ remove_result w p = Ok ().

Lemma failed_holds r gone t : (r = true → False) → holds r None gone t → holds r None [] t.
Proof. destruct r; [intros H; by destruct H|intros _]. apply inv_unreliable. Qed.

Lemma carry_out_holds r w path hs f a t :
  (r = true → writes_work w) → a ≠ NoOp → (a = DeleteCreated → current_content f ≠ Missing ∧ baseline f = Missing) →
  (∀ b, a = RestoreDeleted b → current_content f = Missing) →
  hs ≠ [] → file_states t !! path = Some f → (∀ h, h ∈ hs → h ∈ hunks f) → holds r None (map h_id hs) t →
  holds r None [] (carry_out_reject w path hs f a t).1 ∧ (drawn t ≤ drawn (carry_out_reject w path hs f a t).1)%N.
Proof.
  intros Hw Hno Hdel Hres Hne Hf Hin H.
  assert (∀ cur t1, alike t t1 → holds r (Some path) [] (after_reject path hs cur f t1)
     ∧ (baseline f = Missing ∨ current_content f = Missing → holds r None [] (after_reject path hs cur f t1))) as Hafter.
  { intros cur t1 (Ef & Ei & Ed). assert (holds r None (map h_id hs) t1) as H1 by (unfold holds; rewrite Ef, Ei, Ed; exact H).
    destruct (settle_holds r path hs f (f <| current_content := cur |> <| hunks := without (map h_id hs) (hunks f) |>) t1) as [Hex Hd];
      [done|by rewrite Ef|done|done|]. split; [exact Hex|]. intros Hm. apply Hd. left. apply (all_gone path); try done.
    by eapply inv_shape; [exact H|..]. }
  destruct a as [b| |patched|]; cbn; [| | |done].
  - unfold write_out. destruct (write_result w path) as [|e] eqn:E; cbn.
    + split; [|lia]. by apply Hafter; [|right; eapply Hres].
    + split; [|lia]. eapply failed_holds; [|exact H]. intros Hr. destruct (Hw Hr path). congruence.
  - unfold remove_out. destruct (remove_result w path) as [|e] eqn:E; cbn.
    + split; [|lia]. by apply Hafter; [|left; apply Hdel].
    + split; [|lia]. eapply failed_holds; [|exact H]. intros Hr. destruct (Hw Hr path). congruence.
  - unfold write_out. destruct (write_result w path) as [|e] eqn:E; cbn.
    + destruct (Hafter (Full patched) (log_write (Wrote path patched) t)) as [Hex _]; [done|].
      match goal with |- holds _ _ _ (recompute_hunks ?w ?p ?c ?s ?t1) ∧ _ => destruct (recompute_holds r w p c s t1 Hex) as [H' Hd] end.
      split; [done|]. cbn in *. lia.
    + split; [|lia]. eapply failed_holds; [|exact H]. intros Hr. destruct (Hw Hr path). congruence.
Qed.

Lemma reject_batch_holds r w path hs t :
  (r = true → writes_work w) → hs ≠ [] → pending path hs t → holds r None (map h_id hs) t →
  holds r None [] (reject_hunks_batch w path hs t).1 ∧ (drawn t ≤ drawn (reject_hunks_batch w path hs t).1)%N.
Proof.
  intros Hw Hne (f & Hf & Hin) H. unfold reject_hunks_batch. destruct hs as [|h0 hs0] eqn:Ehs; [done|]. rewrite <- Ehs in *.
  assert (hs ≠ []) as Hne' by (by rewrite Ehs). rewrite Hf. apply carry_out_holds; try done.
  - by eapply reject_is_possible; [eapply inv_shape; [exact H|..]|..].
  - unfold reject_action. by destruct (baseline f), (current_content f).
  - unfold reject_action. by destruct (baseline f), (current_content f).
Qed.

(** ** Several files *)

Lemma recompute_other w path c src t q : q ≠ path → file_states (recompute_hunks w path c src t) !! q = file_states t !! q.
Proof. intros Hq. unfold recompute_hunks. destruct (file_states t !! path); [|done]. cbn. by rewrite lookup_insert_ne. Qed.

Lemma accept_batch_other w path hs t q : q ≠ path → file_states (accept_hunks_batch w path hs t) !! q = file_states t !! q.
Proof.
  intros Hq. unfold accept_hunks_batch. destruct hs; [done|]. destruct (file_states t !! path); [|done]. cbn zeta.
  destruct (is_missing _); [|rewrite recompute_other by done]; cbn; by rewrite lookup_insert_ne.
Qed.

Lemma reject_batch_other w path hs t q : q ≠ path → file_states (reject_hunks_batch w path hs t).1 !! q = file_states t !! q.
Proof.
  intros Hq. unfold reject_hunks_batch. destruct hs; [done|]. destruct (file_states t !! path) as [f|]; [|done].
  unfold carry_out_reject, write_out, remove_out. destruct (reject_action _ _) as [b| |p|]; [| | |done];
    [destruct (write_result w path)|destruct (remove_result w path)|destruct (write_result w path)]; cbn; try done;
    try rewrite recompute_other by done; cbn; by rewrite ?lookup_insert_ne.
Qed.

(** The files of a batch: each with pending hunks of its own, none twice. *)
Definition batch_ok (files : list (string * list Hunk)) t : Prop :=
  NoDup files.*1 ∧ ∀ e, e ∈ files → e.2 ≠ [] ∧ pending e.1 e.2 t.

Lemma batch_ok_tail e files t t' :
  batch_ok (e :: files) t → (∀ q, q ≠ e.1 → file_states t' !! q = file_states t !! q) → batch_ok files t'.
Proof.
  intros [Hnd Hok] Ht. cbn in Hnd. apply NoDup_cons in Hnd as [He Hnd]. split; [done|]. intros e' He'.
  destruct (Hok e') as (Hne & f & Hf & Hin); [by right|]. split; [done|]. exists f. split; [|done]. rewrite Ht; [done|].
  intros E. apply He. rewrite <- E. by apply list_elem_of_fmap_2.
Qed.

Lemma action_batch_holds r w action files : ∀ affected t,
  (r = true → writes_work w) → batch_ok files t → keeps r t (apply_action_batch w files action affected t).1.
Proof.
  induction files as [|[path hs] files IH]; intros affected t Hw Hok; cbn [apply_action_batch]; [apply keeps_refl|].
  destruct (proj2 Hok (path, hs)) as (Hne & Hpend); [by left|]. cbn in Hne, Hpend. intros H.
  destruct (count_all_alike action hs t) as (Hf & Hd & _). pose proof (count_all_holds r action hs t H) as Hc.
  set (tc := foldl (count_action action) t hs) in *.
  assert (pending path hs tc) as Hpc by (unfold pending; by rewrite Hf).
  destruct action.
  - destruct (accept_batch_holds r w path hs tc Hne Hpc Hc) as [H1 Hd1].
    destruct (IH (affected ++ map h_id hs) (accept_hunks_batch w path hs tc)) as [H2 Hd2]; [done| |done|split; [done|lia]].
    eapply batch_ok_tail; [exact Hok|]. intros q Hq. by rewrite accept_batch_other, Hf.
  - destruct (reject_batch_holds r w path hs tc Hw Hne Hpc Hc) as [H1 Hd1].
    assert (∀ q, q ≠ path → file_states (reject_hunks_batch w path hs tc).1 !! q = file_states t !! q) as Hq.
    { intros q Hq. by rewrite reject_batch_other, Hf. }
    destruct (reject_hunks_batch w path hs tc) as [t1 [|e]]; cbn in *; [|split; [done|lia]].
    destruct (IH (affected ++ map h_id hs) t1) as [H2 Hd2]; [done|by eapply batch_ok_tail|done|split; [done|lia]].
Qed.

(** Walking a hash table visits every entry once. *)
Definition fair_order (w : World) : Prop := ∀ l, hash_order w l ≡ₚ l.

Lemma walk_files_elem w t p f : fair_order w → (p, f) ∈ walk_files w t ↔ file_states t !! p = Some f.
Proof.
  intros Hw. unfold walk_files, walk_keys. rewrite list_elem_of_omap. split.
  - intros (q & _ & E). destruct (file_states t !! q) eqn:Hq; [|done]. by injection E as <- <-.
  - intros Hp. exists p. rewrite Hp, (Hw _). split; [|done]. apply list_elem_of_fmap.
    exists (p, f). split; [done|]. by apply elem_of_map_to_list.
Qed.

Lemma walk_files_paths w t : fair_order w → NoDup (walk_files w t).*1.
Proof.
  intros Hw. unfold walk_files, walk_keys. assert (NoDup (hash_order w (map_to_list (file_states t)).*1)) as Hn.
  { rewrite (Hw _). apply NoDup_fst_map_to_list. }
  induction Hn as [|p l Hp _ IH]; [constructor|]. cbn. destruct (file_states t !! p) as [f|] eqn:E; cbn; [|done].
  constructor; [|done]. intros Hin. apply Hp. apply list_elem_of_fmap in Hin as ([q g] & -> & Hin).
  apply list_elem_of_omap in Hin as (q' & Hq' & E'). destruct (file_states t !! q'); [|done]. by injection E' as <- <-.
Qed.

Lemma files_with_ok w f t : fair_order w → batch_ok (files_with w f t) t.
Proof.
  intros Hw. pose proof (walk_files_paths w t Hw) as Hn. unfold files_with. split.
  - induction (walk_files w t) as [|[p g] l IH]; [constructor|]. cbn in Hn. apply NoDup_cons in Hn as [Hp Hn].
    unfold bfilter in *. cbn. case_if; [|by apply IH]. cbn. constructor; [|by apply IH]. intros Hin. apply Hp.
    apply list_elem_of_fmap in Hin as (e & -> & Hin).
    change (e ∈ bfilter (λ e : string * list Hunk, negb (is_nil e.2)) (map (λ e : string * FileHunkState, (e.1, bfilter f (hunks e.2))) l)) in Hin.
    apply elem_of_bfilter in Hin as [Hin _]. apply list_elem_of_fmap in Hin as (e' & -> & Hin).
    by apply (list_elem_of_fmap_2 fst) in Hin.
  - intros e [He Hne]%elem_of_bfilter. apply list_elem_of_fmap in He as ([p g] & -> & Hin). cbn in *.
    apply walk_files_elem in Hin; [|done]. split; [by intros E; rewrite E in Hne|]. exists g. split; [done|].
    intros h [Hh _]%elem_of_bfilter. done.
Qed.

(** ** Every command *)

(** What is asked of a world: the tables are walked fairly, and the files can be
    written when the index is to stay complete. *)
Definition world_ok (r : bool) (w : World) : Prop := fair_order w ∧ (r = true → writes_work w).

Lemma accept_hunk_batch w path h t : accept_hunk w path h t = accept_hunks_batch w path [h] t.
Proof. done. Qed.

Lemma reject_hunk_batch w path h t : reject_hunk w path h t = reject_hunks_batch w path [h] t.
Proof. done. Qed.

Lemma find_hunk_elem id files path h :
  find_hunk id files = Some (path, h) → ∃ f, (path, f) ∈ files ∧ h ∈ hunks f ∧ h_id h = id.
Proof.
  unfold find_hunk. intros Hh%head_Some_elem_of. apply list_elem_of_omap in Hh as ([p f] & Hin & E). cbn in E.
  destruct (List.find _ (hunks f)) as [k|] eqn:Ek; [|done]. injection E as -> ->. apply find_some in Ek as [Hk Eid].
  apply String.eqb_eq in Eid. exists f. split_and!; [done|by apply list_elem_of_In|done].
Qed.

Lemma hunk_action_keeps r w id action t : world_ok r w → keeps r t (apply_hunk_action w id action t).1.
Proof.
  intros [Hfair Hw]. unfold apply_hunk_action. destruct (find_hunk id (walk_files w t)) as [[path h]|] eqn:Hfind; [|apply keeps_refl].
  apply find_hunk_elem in Hfind as (f & Hin & Hh & <-). apply walk_files_elem in Hin; [|done]. intros H.
  change (remove_from_turn_index (h_id h) (h_source h) (update_session_stats (line_info h) (is_accept action) t))
    with (foldl (count_action action) t [h]).
  destruct (count_all_alike action [h] t) as (Hf & Hd & _). pose proof (count_all_holds r action [h] t H) as Hc.
  set (tc := foldl (count_action action) t [h]) in *.
  assert (pending path [h] tc) as Hp by (exists f; rewrite Hf; split; [done|]; by intros k ->%list_elem_of_singleton).
  destruct action.
  - destruct (accept_batch_holds r w path [h] tc) as [H1 Hd1]; [done..|]. rewrite accept_hunk_batch. cbn [fst]. split; [done|lia].
  - destruct (reject_batch_holds r w path [h] tc) as [H1 Hd1]; [done..|]. rewrite reject_hunk_batch. split; [done|lia].
Qed.

Lemma file_action_keeps r w path action t : world_ok r w → keeps r t (apply_file_action w path action t).1.
Proof.
  intros [Hfair Hw]. unfold apply_file_action. destruct (file_states t !! path) as [f|] eqn:Hf; [|apply keeps_refl].
  case_if; [apply keeps_refl|]. apply action_batch_holds; [done|]. split; [apply NoDup_singleton|].
  intros e ->%list_elem_of_singleton. cbn. split; [intros Hn; rewrite Hn in E; discriminate|]. by exists f.
Qed.

Lemma handle_command_keeps r w c t :
  world_ok r w → (∀ s, c ≠ RestoreState s) → keeps r t (handle_command w c t).1.
Proof.
  intros Hw Hc. destruct c; cbn [handle_command fst]; try apply keeps_refl.
  - apply record_agent_write_keeps.
  - apply process_keeps.
  - apply file_deleted_keeps.
  - apply refresh_dirty_keeps.
  - apply reset_baseline_keeps.
  - apply set_mode_keeps.
  - pose proof (hunk_action_keeps r w id action t Hw). by destruct (apply_hunk_action w id action t).
  - pose proof (file_action_keeps r w path action t Hw). by destruct (apply_file_action w path action t).
  - assert (keeps r t (apply_all_action w action t).1) by (apply action_batch_holds; [apply Hw|apply files_with_ok, Hw]).
    by destruct (apply_all_action w action t).
  - assert (keeps r t (apply_turn_action w prompt_index action t).1) by (apply action_batch_holds; [apply Hw|apply files_with_ok, Hw]).
    by destruct (apply_turn_action w prompt_index action t).
  - by apply keeps_alike.
  - apply refresh_all_keeps.
  - by destruct (Hc snapshot).
Qed.

(** ** Batches and the queue *)

Lemma refresh_steps_keep r w l : ∀ acc, keeps r acc.1 (foldl (refresh_step w) acc l).1.
Proof.
  induction l as [|[p a] l IH]; intros [t done]; cbn [foldl]; [apply keeps_refl|]. eapply keeps_trans; [|apply IH].
  cbn [refresh_step fst snd]. destruct a; case_if; cbn; try apply keeps_refl; try apply process_keeps. apply file_deleted_keeps.
Qed.

Lemma delete_steps_keep r w l : ∀ acc, keeps r acc.1 (foldl (delete_step w) acc l).1.
Proof.
  induction l as [|[p a] l IH]; intros [t changed]; cbn [foldl]; [apply keeps_refl|]. eapply keeps_trans; [|apply IH].
  cbn [delete_step fst snd]. destruct a; cbn; try apply keeps_refl. apply file_deleted_keeps.
Qed.

Lemma file_actions_keep r w b t : keeps r t (handle_file_actions w b t).
Proof.
  unfold handle_file_actions. case_if.
  - pose proof (refresh_steps_keep r w (walk_actions w b) (t, ∅)) as Hk. destruct (foldl (refresh_step w) (t, ∅) _) as [t' done].
    eapply keeps_trans; [exact Hk|apply refresh_all_keeps].
  - pose proof (delete_steps_keep r w (walk_actions w b) (t, [])) as Hk. destruct (foldl (delete_step w) (t, []) _) as [t' changed].
    eapply keeps_trans; [exact Hk|apply changes_batch_keeps].
Qed.

(** A snapshot that may be restored: it was taken of a good state, in the same
    run of identifiers and before. *)
Definition snapshot_of (r : bool) (n : N) (s : HunkTrackerSnapshot) : Prop :=
  ∃ t0, holds r None [] t0 ∧ (drawn t0 ≤ n)%N ∧ s = take_snapshot t0.

Lemma restored_snapshot f : restored_file (snapshot_file_state f) = f.
Proof. by destruct f. Qed.

Lemma restore_take t0 t :
  file_states (restore_snapshot (take_snapshot t0) t) = file_states t0
  ∧ turn_index (restore_snapshot (take_snapshot t0) t) = turn_index t0
  ∧ session_stats (restore_snapshot (take_snapshot t0) t) = session_stats t0.
Proof.
  split; [|done]. cbn. apply map_eq. intros p. rewrite !lookup_fmap.
  destruct (file_states t0 !! p) as [f|]; [|done]. cbn. by rewrite restored_snapshot.
Qed.

Lemma restore_keeps r s t : snapshot_of r (drawn t) s → keeps r t (restore_snapshot s t).
Proof.
  intros (t0 & H0 & Hn & ->) _. destruct (restore_take t0 t) as (Hf & Hi & _). unfold holds. rewrite Hf, Hi. cbn.
  split; [|lia]. by eapply inv_more.
Qed.

Definition command_ok (r : bool) (n : N) (c : HunkTrackerCommand) : Prop := ∀ s, c = RestoreState s → snapshot_of r n s.

Lemma command_ok_more r n n' c : (n ≤ n')%N → command_ok r n c → command_ok r n' c.
Proof. intros Hn Hc s E. destruct (Hc s E) as (t0 & ? & ? & ?). exists t0. split_and!; [done|lia|done]. Qed.

Lemma any_command_keeps r w c t : world_ok r w → command_ok r (drawn t) c → keeps r t (handle_command w c t).1.
Proof. intros Hw Hc. destruct c; try (by apply handle_command_keeps). apply restore_keeps. by apply Hc. Qed.

Lemma other_commands_keep r w cs : world_ok r w → ∀ acc, Forall (command_ok r (drawn acc.1)) cs →
  keeps r acc.1 (foldl (λ acc c, let '(t, rep) := handle_command w c acc.1 in (t, acc.2 ++ [rep])) acc cs).1.
Proof.
  intros Hw. induction cs as [|c cs IH]; intros [t rs] Hcs; cbn [foldl]; [apply keeps_refl|].
  apply Forall_cons in Hcs as [Hc Hcs]. cbn [fst snd] in *. intros H. pose proof (any_command_keeps r w c t Hw Hc H) as [H1 Hd1].
  destruct (handle_command w c t) as [t1 rep]. cbn [fst] in *.
  destruct (IH (t1, rs ++ [rep])) as [H2 Hd2]; [|done|split; [done|cbn in *; lia]].
  eapply Forall_impl; [exact Hcs|]. intros. by eapply command_ok_more.
Qed.

Lemma coalesced_keeps r w b t : world_ok r w → Forall (command_ok r (drawn t)) (other_commands b) →
  keeps r t (handle_coalesced_batch w b t).1.
Proof.
  intros Hw Hcs. unfold handle_coalesced_batch. set (t1 := if _ : bool then _ else t).
  assert (keeps r t t1) as H1 by (unfold t1; case_if; [apply refresh_dirty_keeps|apply keeps_refl]). clearbody t1.
  intros H. destruct (H1 H) as [H1' Hd1]. destruct (file_actions_keep r w b t1 H1') as [H2 Hd2].
  destruct (other_commands_keep r w (other_commands b) Hw (handle_file_actions w b t1, [])) as [H3 Hd3]; [|done|].
  - eapply Forall_impl; [exact Hcs|]. intros c. apply command_ok_more. cbn. lia.
  - split; [done|]. cbn [fst] in *. lia.
Qed.

Lemma batch_add_commands b c : ∀ x, x ∈ other_commands (batch_add b c) → x ∈ other_commands b ∨ x = c.
Proof. intros x. destruct c; cbn; try (by left); intros [?|?%list_elem_of_singleton]%elem_of_app; auto. Qed.

Lemma drained_commands cs : ∀ b x, x ∈ other_commands (foldl batch_add b cs) → x ∈ other_commands b ∨ x ∈ cs.
Proof.
  induction cs as [|c cs IH]; intros b x; cbn [foldl]; [by left|]. intros [Hx|Hx]%IH; [|right; by right].
  apply batch_add_commands in Hx as [?| ->]; [by left|right; by left].
Qed.

Lemma run_queue_keeps r worlds queue : (∀ k, world_ok r (worlds k)) → ∀ k t, Forall (command_ok r (drawn t)) queue →
  keeps r t (run_queue worlds k queue t).1.
Proof.
  intros Hw. induction queue as [|c queue IH]; intros k t Hcs; cbn [run_queue]; [apply keeps_refl|].
  apply Forall_cons in Hcs as [Hc Hcs]. case_if.
  - apply coalesced_keeps; [done|]. apply Forall_forall. intros x [Hx|Hx]%drained_commands.
    + apply batch_add_commands in Hx as [Hx| ->]; [set_solver|done].
    + by eapply Forall_forall in Hcs.
  - intros H. pose proof (any_command_keeps r (worlds k) c t (Hw k) Hc H) as [H1 Hd1]. destruct (handle_command (worlds k) c t) as [t1 rep].
    cbn [fst] in *. destruct (IH (S k) t1) as [H2 Hd2]; [|done|].
    + eapply Forall_impl; [exact Hcs|]. intros. by eapply command_ok_more.
    + destruct (run_queue worlds (S k) queue t1). cbn in *. split; [done|lia].
Qed.

(** ** Reachable states

    The actor starts, and then answers bursts of commands, of any length, each
    command in a world of its own; a snapshot it is given to restore was taken
    earlier of a state of an actor like it. *)
Inductive reachable (r : bool) : Tracker → Prop :=
| reach_start w dir m n : world_ok r w → reachable r (run_start w (tracker_new dir m n))
| reach_burst worlds queue (olds : list Tracker) t :
    reachable r t → (∀ t0, t0 ∈ olds → reachable r t0) → (∀ k, world_ok r (worlds k)) →
    (∀ s, RestoreState s ∈ queue → ∃ t0, t0 ∈ olds ∧ (drawn t0 ≤ drawn t)%N ∧ s = take_snapshot t0) →
    reachable r (run_queue worlds 0 queue t).1.

Lemma reachable_holds r t : reachable r t → holds r None [] t.
Proof.
  induction 1 as [w dir m n Hw|worlds queue olds t _ IH _ IHs Hw Hq].
  - assert (holds r None [] (tracker_new dir m n)) as H by (eapply inv_more; [|apply inv_start]; apply N.le_0_l).
    unfold run_start. case_if; [done|]. by apply refresh_dirty_keeps.
  - apply run_queue_keeps; [done| |done]. apply Forall_forall. intros c Hc s ->. destruct (Hq s Hc) as (t0 & Ht0 & Hd & ->).
    exists t0. auto.
Qed.

End facts.
