(* ===== verification/HunkDemo.v ===== *)
(** * A tracker to compute with

    A line diff that keeps a longest common subsequence, numbered identifiers, a
    repository of two files and the worlds the examples and witnesses of the
    hunk tracker are run in. *)

From Stdlib Require Import Ascii String.
From S2P Require Import Prelude RustStr TrimLemmas HunkTypes HunkDiff HunkTracker HunkActor.
From stdpp Require Import options.

(** ** A diff *)

Definition equal_count (cs : list Change) : nat :=
  length (bfilter (λ c, match c.1 with Equal => true | _ => false end) cs).

(** Deletions come before insertions, unless inserting first keeps more. *)
Fixpoint lcs_diff (a : list string) : list string → list Change :=
  match a with
  | [] => map (pair Insert)
  | x :: a' =>
      fix go (b : list string) : list Change :=
        match b with
        | [] => map (pair Delete) (x :: a')
        | y :: b' =>
            if String.eqb x y then (Equal, x) :: lcs_diff a' b'
            else
              let del := (Delete, x) :: lcs_diff a' b in
              let ins := (Insert, y) :: go b' in
              if equal_count del <? equal_count ins then ins else del
        end
  end.

#[export] Instance demo_differ : Differ := λ a b, lcs_diff (tokens a) (tokens b).

Lemma old_side_insert b : old_side (map (pair Insert) b) = [].
Proof. by induction b. Qed.
Lemma new_side_insert b : new_side (map (pair Insert) b) = b.
Proof. induction b as [|y b IH]; [done|]. cbn. by rewrite <- IH at 2. Qed.
Lemma old_side_delete a : old_side (map (pair Delete) a) = a.
Proof. induction a as [|y a IH]; [done|]. cbn. by rewrite <- IH at 2. Qed.
Lemma new_side_delete a : new_side (map (pair Delete) a) = [].
Proof. by induction a. Qed.

Lemma lcs_sides a : ∀ b, old_side (lcs_diff a b) = a ∧ new_side (lcs_diff a b) = b.
Proof.
  induction a as [|x a IHa]; intros b; [cbn; by rewrite old_side_insert, new_side_insert|].
  induction b as [|y b IHb]; [cbn [lcs_diff]; by rewrite old_side_delete, new_side_delete|].
  cbn [lcs_diff]. destruct (String.eqb x y) eqn:E.
  - apply String.eqb_eq in E as ->. destruct (IHa b) as [Ho Hn]. unfold old_side, new_side in *. cbn. by rewrite Ho, Hn.
  - destruct (_ <? _).
    + destruct IHb as [Ho Hn]. unfold old_side, new_side in *. cbn in *. by rewrite Ho, Hn.
    + destruct (IHa (y :: b)) as [Ho Hn]. unfold old_side, new_side in *. cbn in *. by rewrite Ho, Hn.
Qed.

#[export] Instance demo_laws : DifferLaws demo_differ.
Proof. split; intros; apply lcs_sides. Qed.

#[export] Program Instance demo_ids : HunkIds := {| uuid n := pretty n |}.
Next Obligation. intros m n E. by apply (inj pretty) in E. Qed.

(** ** Worlds *)

Definition file_entry (s : string) : DiskEntry := mkEntry false (byte_count s) true s (Some (String.length s)) true.

(** A repository at [/w], with what its HEAD and its disk hold. *)
Definition demo_world (head disk_files : gmap string string) (dirty : list string) : World := {|
  disk p := file_entry <$> disk_files !! p;
  path_exists p := bool_decide (is_Some (disk_files !! p));
  is_dir _ := false;
  write_result _ := Ok ();
  remove_result _ := Ok ();
  canonicalize p := Some p;
  discovers := Some "";
  head_entry p := HeadBlob <$> head !! p;
  status_scan _ := map (λ p, (p, false)) dirty;
  repo_sync := mkSync (Some "c1") None;
  git_task_ends := true;
  diff_times_out _ _ := false;
  now := 0;
  hash_order l := l;
|}.

Definition failing (w : World) : World :=
  mkWorld (disk w) (path_exists w) (is_dir w) (λ _, Err "denied") (λ _, Err "denied") (canonicalize w) (discovers w)
    (head_entry w) (status_scan w) (repo_sync w) (git_task_ends w) (diff_times_out w) (now w) (hash_order w).

Definition start : Tracker := tracker_new "/w" AgentOnly 0.

(** The lines of a text. *)
Definition text (ls : list string) : string := unlines ls.

Definition old_a : string := text ["one"; "two"; "three"; "four"; "five"; "six"; "seven"].
Definition new_a : string := text ["one"; "TWO"; "three"; "four"; "five"; "six"; "extra"; "seven"].
Definition repo : World := demo_world {[ "a" := old_a ]} {[ "/w/a" := new_a ]} ["a"].

(** The agent rewrote two places of a file. *)
Definition edited : Tracker := (run_queue (λ _, repo) 0 [RecordAgentWrite "/w/a" new_a 1 None] start).1.
