(* ===== verification/HunkReviewFacts.v ===== *)
(** * Reviewing what the agent changed

    What a client of the hunk tracker can rely on: that the hunks are the
    difference, that an identifier and a turn lead to the hunks they name, and
    that accepting and rejecting lead where they say, on disk as well. *)

From Stdlib Require Import Ascii String.
From S2P Require Import Prelude RustStr TrimLemmas HunkTypes HunkDiff HunkTracker HunkActor HunkDiffFacts HunkTrackerFacts HunkActorFacts HunkDemo.
From stdpp Require Import options.

Section review.
Context {ids : HunkIds} {D : Differ}.
Implicit Types (t : Tracker) (w : World) (path : string).

(** ** The two texts of a file *)

Definition texts path t : option (FileContentState * FileContentState) :=
  (λ f, (baseline f, current_content f)) <$> file_states t !! path.

Lemma count_all_writes a hs : ∀ t, writes (foldl (count_action a) t hs) = writes t.
Proof. induction hs as [|h hs IH]; intros t; [done|]. cbn [foldl]. by rewrite IH. Qed.

Lemma recompute_writes w path c src t : writes (recompute_hunks w path c src t) = writes t.
Proof. unfold recompute_hunks. by destruct (file_states t !! path). Qed.

Lemma recompute_file w path c src t f : file_states t !! path = Some f →
  ∃ hs, file_states (recompute_hunks w path (Some c) src t) !! path
        = Some (f <| current_content := c |> <| hunks := hs |>)
        ∧ map shape hs = map shape (hunks_between (limit_of w (baseline f) c) (drawn t) (now w) path src (baseline f) c).
Proof. intros Hf. unfold recompute_hunks. rewrite Hf. cbn. rewrite lookup_insert_eq. eexists. split; [done|]. apply keep_shape. Qed.

Lemma no_difference slow n now path src s : hunks_between slow n now path src (Full s) (Full s) = [].
Proof. cbn. unfold compute_hunks. by rewrite String.eqb_refl. Qed.

Lemma map_nil {A B} (f : A → B) l : map f l = [] → l = [].
Proof. by destruct l. Qed.

Lemma patch_baselines hs : ∀ a, foldl (λ b h, patch_baseline h b) (Full a) hs = Full (foldl (λ c h, apply_new h c) a hs).
Proof. induction hs as [|h hs IH]; intros a; [done|]. cbn [foldl]. by rewrite <- IH. Qed.

(** Accepting, when both sides are texts. *)
Lemma accept_file w path hs t f a b :
  file_states t !! path = Some f → baseline f = Full a → current_content f = Full b → hs ≠ [] →
  let m := foldl (λ c h, apply_new h c) a (stable_sort later_old hs) in
  ∃ f', file_states (accept_hunks_batch w path hs t) !! path = Some f'
    ∧ baseline f' = Full m ∧ current_content f' = Full b ∧ (m = b → hunks f' = [])
    ∧ writes (accept_hunks_batch w path hs t) = writes t.
Proof.
  intros Hf Ha Hb Hne m. unfold accept_hunks_batch. destruct hs as [|h0 hs0]; [done|]. set (hs := h0 :: hs0) in *.
  rewrite Hf. cbn zeta. rewrite Ha. cbn [is_missing]. rewrite patch_baselines. fold m.
  set (f1 := f <| baseline := Full m |> <| baseline_accepted := true |> <| hunks := without (map h_id hs) (hunks f) |>).
  set (t1 := send_events _ (set_file path f1 t)).
  assert (file_states t1 !! path = Some f1) as Hf1 by apply lookup_insert_eq.
  destruct (recompute_file w path (current_content f) (remaining_source path t1) t1 f1 Hf1) as (hs' & Hr & Hs).
  eexists. split; [exact Hr|]. split_and!; [done|by rewrite <- Hb| |by rewrite recompute_writes].
  intros Hm. cbn. rewrite Hb in Hs. assert (baseline f1 = Full b) as Eb by exact (f_equal Full Hm).
  rewrite Eb, no_difference in Hs. by apply map_nil in Hs.
Qed.

(** Rejecting, when both sides are texts and the file can be written. *)
Lemma reject_file w path hs t f a b :
  file_states t !! path = Some f → baseline f = Full a → current_content f = Full b → hs ≠ [] →
  write_result w path = Ok () →
  let m := revert_all hs b in
  ∃ f', file_states (reject_hunks_batch w path hs t).1 !! path = Some f'
    ∧ baseline f' = Full a ∧ current_content f' = Full m ∧ (m = a → hunks f' = [])
    ∧ writes (reject_hunks_batch w path hs t).1 = writes t ++ [Wrote path m] ∧ (reject_hunks_batch w path hs t).2 = Ok ().
Proof.
  intros Hf Ha Hb Hne Hw m. unfold reject_hunks_batch. destruct hs as [|h0 hs0]; [done|]. set (hs := h0 :: hs0) in *.
  rewrite Hf. unfold reject_action. rewrite Ha, Hb. cbn [carry_out_reject]. unfold write_out. rewrite Hw. fold m. cbn zeta.
  set (f1 := f <| current_content := Full m |> <| hunks := without (map h_id hs) (hunks f) |>).
  set (t1 := after_reject path hs (Full m) f (log_write (Wrote path m) t)).
  assert (file_states t1 !! path = Some f1) as Hf1 by apply lookup_insert_eq. cbn [fst snd].
  destruct (recompute_file w path (Full m) (remaining_source path t1) t1 f1 Hf1) as (hs' & Hr & Hs).
  eexists. split; [exact Hr|]. split_and!; [done|done| |by rewrite recompute_writes|done].
  intros Hm. cbn. assert (baseline f1 = Full m) as Eb by (transitivity (Full a); [exact Ha|by f_equal]).
  rewrite Eb, no_difference in Hs. by apply map_nil in Hs.
Qed.

(** ** Finding hunks *)

Lemma all_hunks_elem w t h : fair_order w → h ∈ get_all_hunks w t ↔ ∃ p f, file_states t !! p = Some f ∧ h ∈ hunks f.
Proof.
  intros Hw. unfold get_all_hunks. rewrite list_elem_of_In, in_concat. split.
  - intros (hs & Hhs & Hh). apply list_elem_of_In in Hhs, Hh. apply list_elem_of_fmap in Hhs as ([p f] & -> & Hin).
    apply walk_files_elem in Hin; [|done]. by exists p, f.
  - intros (p & f & Hp & Hh). exists (hunks f). split; apply list_elem_of_In; [|done].
    apply (list_elem_of_fmap_2 (λ e : string * FileHunkState, hunks e.2) _ (p, f)). by apply walk_files_elem.
Qed.

Lemma get_hunk_spec r w t p f h :
  holds r None [] t → fair_order w → file_states t !! p = Some f → h ∈ hunks f → get_hunk w (h_id h) t = Some h.
Proof.
  intros HI Hw Hp Hh. unfold get_hunk. destruct (List.find _ _) as [k|] eqn:E.
  - apply find_some in E as [Hk E]. apply String.eqb_eq in E. apply list_elem_of_In, all_hunks_elem in Hk; [|done].
    destruct Hk as (q & g & Hq & Hk). assert (p = q) as <- by (by eapply (inv_files _ _ _ _ _ _ HI)).
    rewrite Hp in Hq. injection Hq as <-. f_equal. by eapply nodup_same; [eapply inv_file|..].
  - exfalso. assert (h ∈ get_all_hunks w t) as Hin by (apply all_hunks_elem; eauto).
    apply list_elem_of_In in Hin. by apply (find_none _ _ E) in Hin; rewrite String.eqb_refl in Hin.
Qed.

Lemma get_hunk_elem w id t h : fair_order w → get_hunk w id t = Some h →
  h_id h = id ∧ ∃ p f, file_states t !! p = Some f ∧ h ∈ hunks f.
Proof.
  intros Hw [Hh E]%find_some. apply String.eqb_eq in E. split; [done|]. apply (all_hunks_elem w); [done|by apply list_elem_of_In].
Qed.

Lemma turn_hunks_elem w m t h : fair_order w →
  h ∈ get_hunks_for_turn w m t ↔ ∃ id, indexed (turn_index t) m id ∧ get_hunk w id t = Some h.
Proof.
  intros Hw. unfold get_hunks_for_turn, indexed. destruct (turn_index t !! m) as [s|]; cbn; [|set_solver].
  rewrite list_elem_of_omap. unfold walk_set. setoid_rewrite (Hw _). by setoid_rewrite elem_of_elements.
Qed.

(** ** What a client relies on *)

(** C6: in every state the actor reaches, whatever it was asked and found on
    disk, in git and in the clock, the hunks of a file are exactly the difference
    of the two texts kept of it, or there are none. *)
Theorem pending_hunks_are_the_difference (r : bool) (t : Tracker) (path : string) (f : FileHunkState) :
  reachable r t → file_states t !! path = Some f →
  hunks f = [] ∨ map shape (hunks f) = difference path (baseline f) (current_content f).
Proof. intros Ht Hf. by eapply (inv_shape _ _ _ _ _ _ (reachable_holds r t Ht)). Qed.

(** in every state the actor reaches, an identifier leads to the hunk that
    carries it: no two pending hunks of any files share one. *)
Lemma identifier_finds_its_hunk (r : bool) (w : World) (t : Tracker) (path : string) (f : FileHunkState) (h : Hunk) :
  reachable r t → fair_order w → file_states t !! path = Some f → h ∈ hunks f → get_hunk w (h_id h) t = Some h.
Proof. intros Ht Hw Hf Hh. by eapply get_hunk_spec; [apply reachable_holds|..]. Qed.

(** C13: as long as the files could be written, the index of turns answers like a
    scan of everything: the hunks of a turn are the pending hunks that come from
    it, no more and no fewer. *)
Theorem turn_index_agrees_with_scan (w : World) (t : Tracker) (m : N) (h : Hunk) :
  reachable true t → fair_order w →
  h ∈ get_hunks_for_turn w m t ↔
  ∃ p f, file_states t !! p = Some f ∧ h ∈ hunks f ∧ source_prompt (h_source h) = Some m.
Proof.
  intros Ht Hw. apply reachable_holds in Ht as HI. rewrite turn_hunks_elem by done. split.
  - intros (id & Hi & Hg). destruct (get_hunk_elem w id t h Hw Hg) as (<- & p & f & Hp & Hh). exists p, f. split_and!; [done|done|].
    by eapply (inv_excl _ _ _ _ _ _ HI).
  - intros (p & f & Hp & Hh & Hs). exists (h_id h). split; [|by eapply get_hunk_spec].
    eapply (inv_complete _ _ _ _ _ _ HI); [done..|set_solver|done].
Qed.

Section settled.
Context {laws : DifferLaws D}.
Variables (r : bool) (t : Tracker) (path a b : string) (f : FileHunkState).
Hypothesis (Ht : reachable r t) (Hf : file_states t !! path = Some f).
Hypothesis (Ha : baseline f = Full a) (Hb : current_content f = Full b) (Hne : hunks f ≠ []).
Hypothesis (La : lf_text a) (Lb : lf_text b).
Hypothesis (Sa : (byte_count a ≤ MAX_DIFF_FILE_SIZE)%N) (Sb : (byte_count b ≤ MAX_DIFF_FILE_SIZE)%N).

Lemma halves_meet (sel : Hunk → bool) :
  foldl (λ c h, apply_new h c) a (stable_sort later_old (bfilter sel (hunks f))) = revert_all (bfilter (λ h, negb (sel h)) (hunks f)) b.
Proof using All.
  apply (meet_in_the_middle a b (hunks f) sel 0 0 path External); try done.
  destruct (inv_shape _ _ _ _ _ _ (reachable_holds r t Ht) path f) as [E|E]; [done|done|done|]. by rewrite E, Ha, Hb.
Qed.

(** Accepting a part of the hunks, in whatever state it is asked. *)
Lemma texts_accept w (sel : Hunk → bool) :
  texts path (accept_hunks_batch w path (bfilter sel (hunks f)) t)
  = Some (Full (foldl (λ c h, apply_new h c) a (stable_sort later_old (bfilter sel (hunks f)))), Full b).
Proof using All.
  unfold texts. destruct (bfilter sel (hunks f)) as [|h hs] eqn:E; [cbn; by rewrite Hf; cbn; rewrite Ha, Hb|].
  destruct (accept_file w path (h :: hs) t f a b Hf Ha Hb) as (f' & -> & Eb & Ec & _); [done|]. cbn. by rewrite Eb, Ec.
Qed.

Lemma texts_reject w (sel : Hunk → bool) : write_result w path = Ok () →
  texts path (reject_hunks_batch w path (bfilter sel (hunks f)) t).1
  = Some (Full a, Full (revert_all (bfilter sel (hunks f)) b)).
Proof using All.
  intros Hw. unfold texts. destruct (bfilter sel (hunks f)) as [|h hs] eqn:E; [cbn; by rewrite Hf; cbn; rewrite Ha, Hb|].
  destruct (reject_file w path (h :: hs) t f a b Hf Ha Hb) as (f' & -> & Eb & Ec & _); [done|done|]. cbn. by rewrite Eb, Ec.
Qed.

Lemma accept_writes w (sel : Hunk → bool) : writes (accept_hunks_batch w path (bfilter sel (hunks f)) t) = writes t.
Proof using All.
  destruct (bfilter sel (hunks f)) as [|h hs]; [done|].
  by destruct (accept_file w path (h :: hs) t f a b Hf Ha Hb) as (f' & _ & _ & _ & _ & HW).
Qed.

Lemma reject_writes w (sel : Hunk → bool) : write_result w path = Ok () →
  writes (reject_hunks_batch w path (bfilter sel (hunks f)) t).1
  = writes t ++ (if is_nil (bfilter sel (hunks f)) then [] else [Wrote path (revert_all (bfilter sel (hunks f)) b)]).
Proof using All.
  intros Hw. destruct (bfilter sel (hunks f)) as [|h hs]; [by rewrite app_nil_r|].
  by destruct (reject_file w path (h :: hs) t f a b Hf Ha Hb) as (f' & _ & _ & _ & _ & HW & _).
Qed.

(** C7: the two halves of a review lead to one text. Take a file with pending
    hunks in a state the actor reaches, both of its texts kept in full, each made
    of lines that all end in a plain newline, the first not blank, and of at most
    1 MB (outside these bounds the program does lose bytes: carriage returns and
    a missing last newline are findings of their own, and larger files have no
    hunks). Then there is one text [m] such that accepting the chosen hunks makes
    [m] the baseline, leaves the current text and writes nothing; and rejecting
    all the others, when the file can be written, makes [m] the current text,
    leaves the baseline, and writes exactly [m] to the file, once, or nothing
    when there is nothing to reject, in which case [m] is the current text as it
    was. *)
Theorem review_meets_in_the_middle (w w' : World) (sel : Hunk → bool) :
  let chosen := bfilter sel (hunks f) in
  let others := bfilter (λ h, negb (sel h)) (hunks f) in
  let accepted := accept_hunks_batch w path chosen t in
  let rejected := (reject_hunks_batch w' path others t).1 in
  write_result w' path = Ok () →
  ∃ m, texts path accepted = Some (Full m, Full b) ∧ writes accepted = writes t
     ∧ texts path rejected = Some (Full a, Full m)
     ∧ writes rejected = writes t ++ (if is_nil others then [] else [Wrote path m])
     ∧ (others = [] → m = b).
Proof using All.
  intros chosen others accepted rejected Hw. exists (revert_all others b).
  unfold accepted, rejected, chosen, others.
  rewrite texts_accept, texts_reject, accept_writes, reject_writes, <- halves_meet by done.
  split_and!; try done. rewrite halves_meet. by intros ->.
Qed.

Lemma bfilter_always {A} (l : list A) : bfilter (λ _, true) l = l.
Proof. unfold bfilter. induction l as [|x l IH]; [done|]. cbn. by rewrite IH. Qed.
Lemma bfilter_never {A} (l : list A) : bfilter (λ _, false) l = [].
Proof. unfold bfilter. by induction l as [|x l IH]. Qed.

(** accepting a file makes the baseline what is there, touching no file;
    rejecting it writes the baseline back, byte for byte. Either way the two
    texts are equal afterwards and no hunk is left. *)
Lemma file_review_settles (w : World) :
  write_result w path = Ok () →
  let accepted := (apply_file_action w path Accept t).1 in
  let rejected := (apply_file_action w path Reject t).1 in
  (texts path accepted = Some (Full b, Full b) ∧ get_hunks_for_path path accepted = [] ∧ writes accepted = writes t)
  ∧ texts path rejected = Some (Full a, Full a) ∧ get_hunks_for_path path rejected = []
  ∧ writes rejected = writes t ++ [Wrote path a].
Proof using All.
  intros Hw. pose proof (halves_meet (λ _, true)) as Hacc. pose proof (halves_meet (λ _, false)) as Hrej. cbn [negb] in *.
  rewrite bfilter_always, bfilter_never in Hacc. rewrite bfilter_never, bfilter_always in Hrej. cbn in Hacc, Hrej.
  unfold apply_file_action. rewrite Hf. replace (is_nil (hunks f)) with false by (by destruct (hunks f)). cbn [apply_action_batch app].
  destruct (count_all_alike Accept (hunks f) t) as (EA & _ & _). destruct (count_all_alike Reject (hunks f) t) as (ER & _ & _).
  destruct (accept_file w path (hunks f) (foldl (count_action Accept) t (hunks f)) f a b) as (f1 & F1 & B1 & C1 & H1 & W1); [by rewrite EA|done..|].
  destruct (reject_file w path (hunks f) (foldl (count_action Reject) t (hunks f)) f a b) as (f2 & F2 & B2 & C2 & H2 & W2 & O2); [by rewrite ER|done..|].
  destruct (reject_hunks_batch w path (hunks f) (foldl (count_action Reject) t (hunks f))) as [t2 o]. cbn [fst snd] in F2, W2, O2. subst o.
  cbn. unfold texts, get_hunks_for_path. rewrite F1, F2. cbn. rewrite B1, C1, B2, C2, W1, W2, !count_all_writes, <- Hrej.
  rewrite Hacc. split_and!; try done; [by apply H1|by apply H2].
Qed.
End settled.

(** ** Snapshots *)

(** A tracker that is given a snapshot answers every question about hunks as
    the one the snapshot was taken of, whatever it held before. *)
Lemma restored_tracker_answers_alike (w : World) (t0 t : Tracker) (path : string) (id : HunkId) (m : N) (s : HunkSourceFilter) :
  let t' := restore_snapshot (take_snapshot t0) t in
  get_all_hunks w t' = get_all_hunks w t0 ∧ get_hunks_for_path path t' = get_hunks_for_path path t0
  ∧ get_file_hunk_data path t' = get_file_hunk_data path t0 ∧ get_hunks_by_source w s t' = get_hunks_by_source w s t0
  ∧ get_hunk w id t' = get_hunk w id t0 ∧ get_hunks_for_turn w m t' = get_hunks_for_turn w m t0
  ∧ compute_session_summary w t' = compute_session_summary w t0 ∧ take_snapshot t' = take_snapshot t0.
Proof.
  intros t'. destruct (restore_take t0 t) as (Hf & Hi & Hs). fold t' in Hf, Hi, Hs.
  assert (get_all_hunks w t' = get_all_hunks w t0) as Ha by (unfold get_all_hunks, walk_files; by rewrite Hf).
  assert (∀ i, get_hunk w i t' = get_hunk w i t0) as Hg by (intros i; unfold get_hunk; by rewrite Ha).
  split_and!; [done|..].
  - unfold get_hunks_for_path. by rewrite Hf.
  - unfold get_file_hunk_data. by rewrite Hf.
  - unfold get_hunks_by_source. by rewrite Ha.
  - done.
  - unfold get_hunks_for_turn. rewrite Hi. destruct (turn_index t0 !! m) as [x|]; [|done].
    induction (walk_set w x) as [|i l IH]; [done|]. cbn. by rewrite Hg, IH.
  - unfold compute_session_summary, walk_files. by rewrite Hf, Hs.
  - unfold take_snapshot. by rewrite Hf, Hi, Hs.
Qed.
End review.

(** ** At a concrete state *)

Lemma repo_ok : world_ok true repo.
Proof. split; [by intros l|done]. Qed.

Lemma edited_reachable : reachable true edited.
Proof.
  apply (reach_burst true (λ _, repo) _ []); [apply (reach_start true repo "/w" AgentOnly 0), repo_ok|set_solver|intros; apply repo_ok|].
  intros s Hs%list_elem_of_singleton. done.
Qed.

Definition edited_file : FileHunkState :=
  default (mkFile Missing Missing [] false false) (file_states edited !! "/w/a").
Definition first_hunk : Hunk :=
  default (file_deleted "" 0 "" "" External) (head (hunks edited_file)).

Lemma edited_lookup : file_states edited !! "/w/a" = Some edited_file.
Proof. vm_compute. reflexivity. Qed.

Lemma first_pending : first_hunk ∈ hunks edited_file.
Proof. apply head_Some_elem_of. vm_compute. reflexivity. Qed.

Lemma pending_hunks_are_the_difference_witness :
  hunks edited_file = [] ∨ map shape (hunks edited_file) = difference "/w/a" (baseline edited_file) (current_content edited_file).
Proof. exact (pending_hunks_are_the_difference true edited "/w/a" edited_file edited_reachable edited_lookup). Defined.

Lemma identifier_finds_its_hunk_witness : get_hunk repo (h_id first_hunk) edited = Some first_hunk.
Proof.
  exact (identifier_finds_its_hunk true repo edited "/w/a" edited_file first_hunk edited_reachable (proj1 repo_ok) edited_lookup first_pending).
Defined.

Lemma turn_index_agrees_with_scan_witness :
  first_hunk ∈ get_hunks_for_turn repo 1 edited ↔
  ∃ p f, file_states edited !! p = Some f ∧ first_hunk ∈ hunks f ∧ source_prompt (h_source first_hunk) = Some 1%N.
Proof. exact (turn_index_agrees_with_scan repo edited 1 first_hunk edited_reachable (proj1 repo_ok)). Defined.

Lemma lf_old : lf_text old_a.
Proof. split_and!; vm_compute; reflexivity. Qed.
Lemma lf_new : lf_text new_a.
Proof. split_and!; vm_compute; reflexivity. Qed.
Lemma old_fits : (byte_count old_a ≤ MAX_DIFF_FILE_SIZE)%N.
Proof. vm_compute. discriminate. Qed.
Lemma new_fits : (byte_count new_a ≤ MAX_DIFF_FILE_SIZE)%N.
Proof. vm_compute. discriminate. Qed.
Lemma edited_texts : baseline edited_file = Full old_a ∧ current_content edited_file = Full new_a ∧ hunks edited_file ≠ [].
Proof. split_and!; [vm_compute; reflexivity..|vm_compute; discriminate]. Qed.

Lemma review_meets_in_the_middle_witness :
  let chosen := bfilter (λ h, String.eqb (h_id h) "0") (hunks edited_file) in
  let others := bfilter (λ h, negb (String.eqb (h_id h) "0")) (hunks edited_file) in
  let accepted := accept_hunks_batch repo "/w/a" chosen edited in
  let rejected := (reject_hunks_batch repo "/w/a" others edited).1 in
  ∃ m, texts "/w/a" accepted = Some (Full m, Full new_a) ∧ writes accepted = writes edited
     ∧ texts "/w/a" rejected = Some (Full old_a, Full m)
     ∧ writes rejected = writes edited ++ (if is_nil others then [] else [Wrote "/w/a" m])
     ∧ (others = [] → m = new_a).
Proof.
  exact (review_meets_in_the_middle true edited "/w/a" old_a new_a edited_file edited_reachable edited_lookup
           (proj1 edited_texts) (proj1 (proj2 edited_texts)) (proj2 (proj2 edited_texts)) lf_old lf_new old_fits new_fits
           repo repo (λ h, String.eqb (h_id h) "0") eq_refl).
Defined.

Lemma file_review_settles_witness :
  let accepted := (apply_file_action repo "/w/a" Accept edited).1 in
  let rejected := (apply_file_action repo "/w/a" Reject edited).1 in
  (texts "/w/a" accepted = Some (Full new_a, Full new_a) ∧ get_hunks_for_path "/w/a" accepted = [] ∧ writes accepted = writes edited)
  ∧ texts "/w/a" rejected = Some (Full old_a, Full old_a) ∧ get_hunks_for_path "/w/a" rejected = []
  ∧ writes rejected = writes edited ++ [Wrote "/w/a" old_a].
Proof.
  exact (file_review_settles true edited "/w/a" old_a new_a edited_file edited_reachable edited_lookup
           (proj1 edited_texts) (proj1 (proj2 edited_texts)) (proj2 (proj2 edited_texts)) lf_old lf_new old_fits new_fits repo eq_refl).
Defined.
