(* ===== verification/HunkSafetyFacts.v ===== *)
(** * What the hunk tracker does not do

    It writes to the disk when hunks are rejected and at no other time, it
    follows only files of the agent unless it is told otherwise, and its batches
    leave out no notice. *)

From Stdlib Require Import Ascii String.
From S2P Require Import Prelude RustStr TrimLemmas Rewind HunkTypes HunkDiff HunkTracker HunkActor HunkActorFacts HunkDemo.
From stdpp Require Import options.

Section safety.
Context {ids : HunkIds} {D : Differ}.
Implicit Types (t : Tracker) (w : World) (path : string).

(** ** Steps that write nothing and adopt nothing *)

Definition only_agent t : Prop := ∀ p f, file_states t !! p = Some f → is_agent_file f = true.

Definition agent_file t (p : string) : Prop := ∃ f, file_states t !! p = Some f ∧ is_agent_file f = true.

(** The mode stays, a tracker that follows only files of the agent still does,
    and no file becomes one of the agent except those of [ps]. *)
Definition steady (ps : list string) t t' : Prop :=
  mode t' = mode t ∧ (mode t = AgentOnly → only_agent t → only_agent t')
  ∧ ∀ p, agent_file t' p → p ∈ ps ∨ agent_file t p.

Definition mildly (ps : list string) t t' : Prop := writes t' = writes t ∧ steady ps t t'.
Abbreviation mild := (mildly []).

Lemma steady_refl ps t : steady ps t t.
Proof. split_and!; auto. Qed.
Lemma steady_trans ps t1 t2 t3 : steady ps t1 t2 → steady ps t2 t3 → steady ps t1 t3.
Proof.
  intros (Hm & Ha & Hf) (Hm' & Ha' & Hf'). split_and!; [congruence| |].
  - intros E Ho. apply Ha'; [congruence|auto].
  - intros p [?|?%Hf]%Hf'; auto.
Qed.
Lemma steady_more ps ps' t t' : (∀ p, p ∈ ps → p ∈ ps') → steady ps t t' → steady ps' t t'.
Proof. intros Hp (Hm & Ha & Hf). split_and!; [done|done|]. intros p [?|?]%Hf; auto. Qed.

Lemma mild_refl ps t : mildly ps t t.
Proof. split; [done|apply steady_refl]. Qed.
#[local] Hint Resolve mild_refl : core.
Lemma mild_trans ps t1 t2 t3 : mildly ps t1 t2 → mildly ps t2 t3 → mildly ps t1 t3.
Proof. intros [Hw Hs] [Hw' Hs']. split; [congruence|by eapply steady_trans]. Qed.
Lemma mild_more ps t t' : mild t t' → mildly ps t t'.
Proof. intros [Hw Hs]. split; [done|]. eapply steady_more; [|exact Hs]. set_solver. Qed.

Lemma mild_foldl {A} (f : Tracker → A → Tracker) l : (∀ t x, mild t (f t x)) → ∀ t, mild t (foldl f t l).
Proof. intros Hf. induction l as [|x l IH]; intros t; cbn; [apply mild_refl|]. eapply mild_trans; [apply Hf|apply IH]. Qed.

Lemma mild_same t t' : writes t' = writes t → mode t' = mode t → file_states t' = file_states t → mild t t'.
Proof.
  intros Hw Hm Hf. split; [done|]. split; [done|split].
  - intros _ Ho p f. rewrite Hf. apply Ho.
  - intros p (f & Hp & E). right. exists f. by rewrite <- Hf.
Qed.

Lemma mild_set ps path f t : (mode t = AgentOnly → only_agent t → is_agent_file f = true) →
  (is_agent_file f = true → path ∈ ps ∨ agent_file t path) → mildly ps t (set_file path f t).
Proof.
  intros Hf Hn. split; [done|]. split; [done|split].
  - intros Hm Ho p g. cbn. intros [[<- <-]|[_ Hg]]%lookup_insert_Some; [by apply Hf|by eapply Ho].
  - intros p (g & Hg & E). cbn in Hg. apply lookup_insert_Some in Hg as [[<- <-]|[_ Hg]]; [by apply Hn|]. right. by exists g.
Qed.

Lemma mild_change path f f' t : file_states t !! path = Some f → is_agent_file f' = is_agent_file f → mild t (set_file path f' t).
Proof. intros Hf E. apply mild_set; rewrite E; [intros _ Ho; by eapply Ho|]. intros E'. right. by exists f. Qed.

Lemma mild_start ps path b c agent t : (mode t = AgentOnly → agent = true) → (agent = true → path ∈ ps) →
  mildly ps t (start_tracking path b c agent t).
Proof. intros Ha Hn. apply (mild_set ps path (mkFile b c [] agent false)); [by auto|]. intros E. left. by apply Hn. Qed.

Lemma mild_recompute w path c src t : mild t (recompute_hunks w path c src t).
Proof.
  unfold recompute_hunks. destruct (file_states t !! path) as [f|] eqn:Hf; [|apply mild_refl].
  eapply mild_trans; [eapply (mild_change path f (f <| current_content := default missing_content c |> <| hunks := _ |>)); [exact Hf|reflexivity]|].
  by apply mild_same.
Qed.

Lemma mild_start_recompute w path b c cur src t :
  mode t ≠ AgentOnly → mild t (recompute_hunks w path cur src (start_tracking path b c false t)).
Proof. intros Hm. eapply mild_trans; [|apply mild_recompute]. by apply mild_start. Qed.

Lemma mild_drop path t : mild t (drop_file path t).
Proof.
  split; [done|]. split; [done|split].
  - intros _ Ho p f. cbn. intros [_ Hp]%lookup_delete_Some. by eapply Ho.
  - intros p (f & Hp & E). cbn in Hp. apply lookup_delete_Some in Hp as [_ Hp]. right. by exists f.
Qed.

Lemma supersede_same path hs t : writes (supersede path hs t) = writes t ∧ mode (supersede path hs t) = mode t.
Proof.
  revert t. induction hs as [|h hs IH]; intros t; [done|]. unfold supersede in *. cbn [foldl].
  destruct (IH (send_event (HunkRemoved path (h_id h) Superseded) (remove_from_turn_index (h_id h) (h_source h) t))) as [-> ->]. done.
Qed.

Lemma mild_supersede path hs t : mild t (supersede path hs t).
Proof.
  destruct (supersede_same path hs t) as [Hw Hm]. destruct (supersede_alike path hs t) as [Hf _]. by apply mild_same.
Qed.

Lemma mild_cached w t : mild t (cached_after w t).
Proof.
  apply mild_same; unfold cached_after; destruct (open_or_discover w (git_repo_state t)) as [[? []]|]; try done; by destruct (git_repo_state t).
Qed.

Lemma mild_read_baseline w path t : mild t (read_baseline w path t).2.
Proof. unfold read_baseline. do 2 (case_if; [apply mild_refl|]). destruct (open_or_discover w (git_repo_state t)) as [[? ?]|]; apply mild_cached. Qed.
Lemma mild_read_baselines w paths t : mild t (read_baselines_batch w paths t).2.
Proof. unfold read_baselines_batch. do 2 (case_if; [apply mild_refl|]). destruct (open_or_discover w (git_repo_state t)) as [[? ?]|]; apply mild_cached. Qed.
Lemma mild_read_sync w t : mild t (read_repo_sync_state w t).2.
Proof. unfold read_repo_sync_state. do 2 (case_if; [apply mild_refl|]). destruct (open_or_discover w (git_repo_state t)) as [[? ?]|]; apply mild_cached. Qed.
Lemma mild_baseline_or_read w path pre t : mild t (baseline_or_read w path pre t).2.
Proof. destruct pre; [apply mild_refl|apply mild_read_baseline]. Qed.

(** ** Handlers *)

Lemma agent_only_mode t : agent_only t = true ↔ mode t = AgentOnly.
Proof. apply bool_decide_eq_true. Qed.

Lemma agent_only_false t : agent_only t = false → mode t ≠ AgentOnly.
Proof. apply bool_decide_eq_false. Qed.

Lemma mild_track_undiffable w path pre c t : mode t ≠ AgentOnly → mild t (track_undiffable w path pre c t).
Proof.
  intros Hm. unfold track_undiffable. rewrite (bool_decide_eq_false_2 _ Hm : agent_only t = false).
  pose proof (mild_baseline_or_read w path pre t) as Ha. destruct (baseline_or_read w path pre t) as [b t']. cbn [snd] in Ha.
  assert (mode t' ≠ AgentOnly) as Hm' by (destruct Ha as (_ & -> & _); done). eapply mild_trans; [exact Ha|].
  case_if; [apply mild_refl|]. case_if; [|by apply mild_start]. by apply mild_start_recompute.
Qed.

Lemma mild_process w path pre t : mild t (process_file_change w path pre t).
Proof.
  unfold process_file_change. case_if; [apply mild_refl|]. destruct (file_states t !! path) as [f|] eqn:Hf.
  - case_if; [|apply mild_recompute]. pose proof (mild_baseline_or_read w path pre t) as Ha.
    pose proof (baseline_or_read_alike w path pre t) as (Hfs & _). destruct (baseline_or_read w path pre t) as [b t']. cbn [snd] in Ha, Hfs.
    eapply mild_trans; [exact Ha|]. case_if; [|apply mild_recompute]. eapply (mild_change path f); [by rewrite Hfs|done].
  - assert (mode t ≠ AgentOnly) as Hm.
    { intros Hm. unfold is_tracked in E. rewrite Hf in E. rewrite (proj2 (agent_only_mode t) Hm) in E. by cbn in E. }
    case_if; [by apply mild_track_undiffable|]. pose proof (mild_baseline_or_read w path pre t) as Ha.
    destruct (baseline_or_read w path pre t) as [b t']. cbn [snd] in Ha. assert (mode t' ≠ AgentOnly) as Hm' by (destruct Ha as (_ & -> & _); done).
    eapply mild_trans; [exact Ha|]. case_if; [apply mild_refl|]. by apply mild_start_recompute.
Qed.

Lemma mild_process_all w paths : ∀ bs t, mild t (process_all w bs paths t).
Proof. induction paths as [|p paths IH]; intros bs t; cbn; [apply mild_refl|]. eapply mild_trans; [apply mild_process|apply IH]. Qed.

Lemma mild_changes_batch w paths t : mild t (handle_file_changes_batch w paths t).
Proof.
  unfold handle_file_changes_batch. case_if; [apply mild_refl|].
  assert (mild t (if is_nil (bfilter (needs_baseline t) paths) then (∅, t)
                  else read_baselines_batch w (bfilter (needs_baseline t) paths) t).2) as Ha.
  { case_if; [apply mild_refl|apply mild_read_baselines]. }
  destruct (if is_nil _ then _ else _) as [bs t']. eapply mild_trans; [exact Ha|apply mild_process_all].
Qed.

Lemma mild_file_deleted w path t : mild t (handle_file_deleted w path t).
Proof.
  unfold handle_file_deleted. case_if; [|case_if; [apply mild_process|apply mild_recompute]].
  case_if; [apply mild_refl|]. assert (mode t ≠ AgentOnly) as Hm by (by apply agent_only_false).
  case_if; [apply mild_refl|]. pose proof (mild_read_baseline w path t) as Ha. destruct (read_baseline w path t) as [b t']. cbn [snd] in Ha.
  assert (mode t' ≠ AgentOnly) as Hm' by (destruct Ha as (_ & -> & _); done). eapply mild_trans; [exact Ha|].
  case_if; [apply mild_refl|]. by apply mild_start_recompute.
Qed.

Lemma mild_record w path content p prev t : mildly [path] t (record_agent_write w path content p prev t).
Proof.
  assert (path ∈ [path]) as Hin by (by left).
  unfold record_agent_write. case_if.
  - destruct (file_states t !! path) as [f|] eqn:Hf; [by apply mild_set; auto|].
    destruct prev as [s|]; [by apply mild_start|]. pose proof (mild_read_baseline w path t) as Ha.
    destruct (read_baseline w path t) as [b t']. eapply mild_trans; [by apply mild_more|by apply mild_start].
  - eapply mild_trans; [|apply mild_more, mild_recompute]. destruct (file_states t !! path) as [f|] eqn:Hf; [by apply mild_set; auto|].
    pose proof (mild_read_baseline w path t) as Ha. destruct (read_baseline w path t) as [b t'].
    eapply mild_trans; [by apply mild_more|by apply mild_start].
Qed.

Lemma mild_reset path t : mild t (reset_baseline path t).
Proof.
  unfold reset_baseline. destruct (file_states t !! path) as [f|] eqn:Hf; [|apply mild_refl].
  set (t1 := set_file path _ t). eapply (mild_trans _ _ t1); [by eapply (mild_change path f)|].
  eapply mild_trans; [apply mild_supersede|by apply mild_same].
Qed.

Lemma mild_refresh_dirty w scope t : mild t (refresh_git_dirty_cache w scope t).
Proof.
  unfold refresh_git_dirty_cache. do 2 (case_if; [apply mild_refl|]). eapply mild_trans; [apply (mild_cached w t)|].
  set (t' := cached_after w t). clearbody t'. case_if; [by apply mild_same|].
  eapply mild_trans; [|apply mild_foldl; intros; apply mild_process]. by apply mild_same.
Qed.

Lemma mild_refresh_file w bs t path : mild t (refresh_file w bs t path).
Proof.
  unfold refresh_file. destruct (file_states t !! path) as [f|] eqn:Hf; [|apply mild_refl]. cbn zeta.
  set (f' := f <| baseline := _ |> <| current_content := _ |> <| baseline_accepted := false |>).
  eapply mild_trans; [by apply (mild_change path f f')|]. set (t1 := set_file path f' t).
  assert (file_states t1 !! path = Some f') as Hf' by apply lookup_insert_eq.
  case_if; [case_if|].
  - eapply mild_trans; [by apply (mild_change path f' (f' <| hunks := [] |>))|]. eapply mild_trans; [apply mild_supersede|by apply mild_same].
  - eapply mild_trans; [apply mild_drop|]. eapply mild_trans; [apply mild_supersede|by apply mild_same].
  - eapply mild_trans; [apply mild_recompute|by apply mild_same].
Qed.

Lemma mild_refresh_all w skip t : mild t (refresh_all_baselines_except w skip t).
Proof.
  unfold refresh_all_baselines_except. case_if; [apply mild_refl|]. pose proof (mild_read_sync w t) as Ha.
  destruct (read_repo_sync_state w t) as [sync t']. eapply mild_trans; [exact Ha|]. clear Ha. case_if; [apply mild_refl|].
  set (t2 := match sync with Some _ => _ | None => _ end). assert (mild t' t2) as Ha by (unfold t2; destruct sync; by apply mild_same).
  eapply mild_trans; [exact Ha|]. clearbody t2. eapply mild_trans.
  { instantiate (1 := refresh_caches w t2). unfold refresh_caches.
    destruct (refresh_scope w t2) as [[|]|]; [by apply mild_same|apply mild_refresh_dirty..]. }
  set (t3 := refresh_caches w t2). clearbody t3. set (paths := bfilter _ _).
  assert (mild t3 (if is_nil paths then (∅, t3) else read_baselines_batch w paths t3).2) as Hb.
  { case_if; [apply mild_refl|apply mild_read_baselines]. }
  destruct (if is_nil paths then _ else _) as [bs t4]. eapply mild_trans; [exact Hb|].
  apply mild_foldl. intros. apply mild_refresh_file.
Qed.

(** ** Modes *)

Lemma forget_file_state t path p :
  file_states (forget_file t path) !! p = if bool_decide (p = path) then None else file_states t !! p.
Proof.
  unfold forget_file. destruct (file_states t !! path) as [f|] eqn:Hf.
  - cbn. destruct (supersede_alike path (hunks f) (drop_file path t)) as [-> _]. cbn.
    case_bool_decide as E; [subst; apply lookup_delete_eq|by apply lookup_delete_ne].
  - case_bool_decide as E; [by subst|done].
Qed.

Lemma forget_all_state l : ∀ t p, file_states (foldl forget_file t l) !! p = if bool_decide (p ∈ l) then None else file_states t !! p.
Proof.
  induction l as [|q l IH]; intros t p; [by rewrite bool_decide_eq_false_2 by set_solver|]. cbn [foldl]. rewrite IH, forget_file_state.
  repeat case_bool_decide; try done; set_solver.
Qed.

Lemma forget_same t path : writes (forget_file t path) = writes t ∧ mode (forget_file t path) = mode t.
Proof.
  unfold forget_file. destruct (file_states t !! path) as [f|]; [|done]. cbn.
  destruct (supersede_same path (hunks f) (drop_file path t)) as [-> ->]. done.
Qed.

Lemma forget_all_same l : ∀ t, writes (foldl forget_file t l) = writes t ∧ mode (foldl forget_file t l) = mode t.
Proof.
  induction l as [|p l IH]; intros t; [done|]. cbn [foldl]. destruct (IH (forget_file t p)) as [-> ->]. apply forget_same.
Qed.

(** What is promised of the files that are followed, when the agent has written
    those of [W]: the mode is respected and no other file is called its own. *)
Definition promise (W : string → Prop) t : Prop :=
  (mode t = AgentOnly → only_agent t) ∧ ∀ p, agent_file t p → W p.

Lemma steady_promise ps W t t' : steady ps t t' → (∀ p, p ∈ ps → W p) → promise W t → promise W t'.
Proof.
  intros (Hm & Ha & Hf) HW [Hp Hin]. split; [intros Hm'; apply Ha; [congruence|]; apply Hp; congruence|].
  intros p [?|?]%Hf; auto.
Qed.

Lemma mild_promise W t t' : mild t t' → promise W t → promise W t'.
Proof. intros [_ Hs]. eapply steady_promise; [exact Hs|set_solver]. Qed.

Lemma set_mode_writes w m t : writes (set_mode w m t) = writes t.
Proof.
  unfold set_mode. destruct (mode t), m; [done| | |done].
  - by destruct (mild_refresh_dirty w None (t <| mode := AllDirty |>)) as [-> _].
  - destruct (forget_all_same (omap (λ e, if is_agent_file e.2 then None else Some e.1) (walk_files w (t <| mode := AgentOnly |>)))
                (t <| mode := AgentOnly |>)) as [-> _]. done.
Qed.

Lemma set_mode_promise W w m t : fair_order w → promise W t → promise W (set_mode w m t).
Proof.
  intros Hw [Hp Hin]. unfold set_mode. destruct (mode t) eqn:Em, m; try (by split; [intros Hm|]).
  - split; [|done]. intros _. by apply Hp.
  - apply (mild_promise W _ _ (mild_refresh_dirty w None _)). by split; [intros Hm|].
  - set (l := omap _ _). split.
    + intros _ p f. rewrite forget_all_state. case_bool_decide as Hl; [done|]. cbn. intros Hf.
      destruct (is_agent_file f) eqn:E; [done|]. destruct Hl. apply list_elem_of_omap. exists (p, f). cbn. rewrite E.
      split; [|done]. by apply walk_files_elem.
    + intros p (f & Hf & E). apply Hin. rewrite forget_all_state in Hf. case_bool_decide; [done|]. by exists f.
Qed.

(** ** Actions *)

Definition written (x : DiskWrite) : string := match x with Wrote p _ | Removed p => p end.

(** Files of [ps] are written, and nothing else. *)
Definition wrote (ps : list string) t t' : Prop :=
  (∃ ws, writes t' = writes t ++ ws ∧ ∀ x, x ∈ ws → written x ∈ ps) ∧ steady [] t t'.

Lemma wrote_trans ps t1 t2 t3 : wrote ps t1 t2 → wrote ps t2 t3 → wrote ps t1 t3.
Proof.
  intros [(ws & E & Hws) Hs] [(ws' & E' & Hws') Hs']. split; [|by eapply steady_trans].
  exists (ws ++ ws'). split; [by rewrite E', E, app_assoc|]. intros x [?|?]%elem_of_app; auto.
Qed.

Lemma wrote_mild ps t t' : mild t t' → wrote ps t t'.
Proof. intros (Hw & ?). split; [|done]. exists []. rewrite app_nil_r. split; [done|set_solver]. Qed.

Lemma wrote_more ps ps' t t' : (∀ p, p ∈ ps → p ∈ ps') → wrote ps t t' → wrote ps' t t'.
Proof. intros Hp ((ws & E & Hws) & ?). split; [|done]. exists ws. auto. Qed.

Lemma mild_count a hs t : mild t (foldl (count_action a) t hs).
Proof. apply mild_foldl. intros. by apply mild_same. Qed.

Lemma mild_accept w path hs t : mild t (accept_hunks_batch w path hs t).
Proof.
  unfold accept_hunks_batch. destruct hs as [|h hs]; [apply mild_refl|]. destruct (file_states t !! path) as [f|] eqn:Hf; [|apply mild_refl].
  cbn zeta. set (f' := f <| baseline := _ |> <| baseline_accepted := true |> <| hunks := _ |>). set (t1 := send_events _ (set_file path f' t)).
  assert (mild t t1) as H1 by (eapply (mild_trans _ _ (set_file path f' t)); [by eapply (mild_change path f)|by apply mild_same]).
  destruct (is_missing (baseline f)); [done|]. eapply mild_trans; [exact H1|apply mild_recompute].
Qed.

Lemma wrote_after_reject path hs cur f x t : file_states t !! path = Some f → written x = path →
  wrote [path] t (after_reject path hs cur f (log_write x t)).
Proof.
  intros Hf Hx. split.
  - exists [x]. split; [done|]. intros y ->%list_elem_of_singleton. rewrite Hx. by left.
  - split; [done|split].
    + intros _ Ho p g. cbn. intros [[<- <-]|[_ Hg]]%lookup_insert_Some; [cbn; by eapply Ho|by eapply Ho].
    + intros p (g & Hg & E). cbn in Hg. apply lookup_insert_Some in Hg as [[<- <-]|[_ Hg]]; right; [by exists f|by exists g].
Qed.

Lemma wrote_reject w path hs t : wrote [path] t (reject_hunks_batch w path hs t).1.
Proof.
  unfold reject_hunks_batch. destruct hs as [|h hs]; [by apply wrote_mild|].
  destruct (file_states t !! path) as [f|] eqn:Hf; [|by apply wrote_mild].
  destruct (reject_action _ _) as [b| |p|]; cbn; [| | |by apply wrote_mild].
  - unfold write_out. destruct (write_result w path); cbn; [by apply wrote_after_reject|by apply wrote_mild].
  - unfold remove_out. destruct (remove_result w path); cbn; [by apply wrote_after_reject|by apply wrote_mild].
  - unfold write_out. destruct (write_result w path); cbn; [|by apply wrote_mild].
    eapply wrote_trans; [by apply (wrote_after_reject path (h :: hs) (Full p) f (Wrote path p))|apply wrote_mild, mild_recompute].
Qed.

Lemma wrote_batch w action files : ∀ affected t, wrote files.*1 t (apply_action_batch w files action affected t).1
  ∧ (action = Accept → mild t (apply_action_batch w files action affected t).1).
Proof.
  induction files as [|[path hs] files IH]; intros affected t; cbn [apply_action_batch]; [by split; [apply wrote_mild|]|].
  set (tc := foldl (count_action action) t hs). assert (mild t tc) as Hc by apply mild_count. destruct action; cbn [fst].
  - destruct (IH (affected ++ map h_id hs) (accept_hunks_batch w path hs tc)) as [_ Hm].
    assert (mild t (apply_action_batch w files Accept (affected ++ map h_id hs) (accept_hunks_batch w path hs tc)).1) as Hall.
    { eapply mild_trans; [exact Hc|]. eapply mild_trans; [apply mild_accept|by apply Hm]. }
    split; [by apply wrote_mild|done].
  - split; [|done]. pose proof (wrote_reject w path hs tc) as Hr. destruct (reject_hunks_batch w path hs tc) as [t1 [|e]]; cbn in *.
    + eapply wrote_trans; [by apply wrote_mild|]. eapply wrote_trans; [eapply wrote_more; [|exact Hr]; set_solver|].
      eapply wrote_more; [|apply IH]. set_solver.
    + eapply wrote_trans; [by apply wrote_mild|]. eapply wrote_more; [|exact Hr]. set_solver.
Qed.

(** The paths an action may write: files with pending hunks. *)
Definition with_hunks t (ps : list string) : Prop := ∀ p, p ∈ ps → ∃ f, file_states t !! p = Some f ∧ hunks f ≠ [].

Lemma files_with_hunks w f t : with_hunks t (files_with w f t).*1.
Proof.
  intros p Hp. apply list_elem_of_fmap in Hp as (e & -> & He). unfold files_with in He.
  apply elem_of_bfilter in He as [He Hne]. apply list_elem_of_fmap in He as ([q g] & -> & Hin). cbn in *.
  unfold walk_files in Hin. apply list_elem_of_omap in Hin as (q' & _ & E). destruct (file_states t !! q') as [g'|] eqn:Hq; [|done].
  injection E as <- <-. exists g'. split; [done|]. intros En. rewrite En in Hne. discriminate.
Qed.

Definition action_of (c : HunkTrackerCommand) : option HunkAction :=
  match c with
  | CmdHunkAction _ a | FileAction _ a | AllAction a | TurnAction _ a => Some a
  | _ => None
  end.

Lemma action_writes w c a t : action_of c = Some a →
  ∃ ps, with_hunks t ps ∧ wrote ps t (handle_command w c t).1 ∧ (a = Accept → mild t (handle_command w c t).1).
Proof.
  destruct c; try done; intros [= <-]; cbn [handle_command].
  - unfold apply_hunk_action. destruct (find_hunk id (walk_files w t)) as [[path h]|] eqn:Hfind.
    + unfold find_hunk in Hfind. apply head_Some_elem_of, list_elem_of_omap in Hfind as ([p f] & Hin & E). cbn in E.
      destruct (List.find _ (hunks f)) as [k|] eqn:Ek; [|done]. injection E as -> ->. apply find_some in Ek as [Hk _].
      unfold walk_files in Hin. apply list_elem_of_omap in Hin as (q & _ & E). destruct (file_states t !! q) as [g|] eqn:Hq; [|done].
      injection E as <- <-. exists [q]. split.
      { intros p ->%list_elem_of_singleton. exists g. split; [done|]. intros En. by rewrite En in Hk. }
      set (tc := remove_from_turn_index _ _ _). assert (mild t tc) as Hc by (by apply mild_same). destruct action; cbn [fst].
      * rewrite accept_hunk_batch. assert (mild t (accept_hunks_batch w q [h] tc)) by (eapply mild_trans; [exact Hc|apply mild_accept]).
        split; [by apply wrote_mild|done].
      * rewrite reject_hunk_batch. pose proof (wrote_reject w q [h] tc) as Hr. destruct (reject_hunks_batch w q [h] tc).
        split; [|done]. by eapply wrote_trans; [apply wrote_mild|].
    + exists []. cbn. split; [intros p; set_solver|]. split; [by apply wrote_mild|done].
  - unfold apply_file_action. destruct (file_states t !! path) as [f|] eqn:Hf.
    + case_if; [exists []; cbn; split; [intros p; set_solver|by split; [apply wrote_mild|]]|].
      exists [path]. split.
      { intros p ->%list_elem_of_singleton. exists f. split; [done|]. intros En. rewrite En in E. discriminate. }
      pose proof (wrote_batch w action [(path, hunks f)] [] t) as Hb. by destruct (apply_action_batch w [(path, hunks f)] action [] t).
    + exists []. cbn. split; [intros p; set_solver|]. split; [by apply wrote_mild|done].
  - exists (files_with w (λ _, true) t).*1. split; [apply files_with_hunks|].
    pose proof (wrote_batch w action (files_with w (λ _, true) t) [] t) as Hb. unfold apply_all_action. by destruct (apply_action_batch _ _ _ _ _).
  - set (fs := files_with w (λ h, bool_decide (source_prompt (h_source h) = Some prompt_index)) t).
    exists fs.*1. split; [apply files_with_hunks|].
    pose proof (wrote_batch w action fs [] t) as Hb. unfold apply_turn_action. fold fs. by destruct (apply_action_batch _ _ _ _ _).
Qed.

Lemma other_writes w c t : action_of c = None → writes (handle_command w c t).1 = writes t.
Proof.
  destruct c; try done; intros _; cbn [handle_command fst].
  - apply mild_record.
  - apply mild_process.
  - apply mild_file_deleted.
  - apply mild_refresh_dirty.
  - apply mild_reset.
  - apply set_mode_writes.
  - apply mild_refresh_all.
Qed.

(** C15: the tracker changes the user's files only when hunks are rejected: every
    other command leaves the disk alone, and a rejection writes or removes only
    files that had a pending hunk. *)
Theorem only_rejections_touch_files (w : World) (c : HunkTrackerCommand) (t : Tracker) :
  ∃ ws, writes (handle_command w c t).1 = writes t ++ ws
    ∧ (ws ≠ [] → action_of c = Some Reject)
    ∧ ∀ x, x ∈ ws → ∃ f, file_states t !! written x = Some f ∧ hunks f ≠ [].
Proof.
  destruct (action_of c) as [[]|] eqn:Ec.
  - destruct (action_writes w c Accept t Ec) as (ps & _ & _ & Hm). destruct (Hm eq_refl) as [E _].
    exists []. rewrite app_nil_r. split_and!; [done|done|set_solver].
  - destruct (action_writes w c Reject t Ec) as (ps & Hps & ((ws & E & Hws) & _) & _). exists ws. split_and!; [done|done|].
    intros x Hx. by apply Hps, Hws.
  - exists []. rewrite app_nil_r, other_writes by done. split_and!; [done|done|set_solver].
Qed.

(** ** Sessions *)

Definition no_restore (c : HunkTrackerCommand) : bool := match c with RestoreState _ => false | _ => true end.

(** A command restores nothing, and what the agent writes by it is in [W]. *)
Definition tells (W : string → Prop) (c : HunkTrackerCommand) : Prop :=
  no_restore c = true ∧ ∀ path content p prev, c = RecordAgentWrite path content p prev → W path.

Lemma command_promise W w c t : fair_order w → tells W c → promise W t → promise W (handle_command w c t).1.
Proof.
  intros Hw [Hc HW] Hp. destruct (action_of c) as [a|] eqn:Ec.
  - destruct (action_writes w c a t Ec) as (ps & _ & (_ & Hs) & _). eapply steady_promise; [exact Hs|set_solver|done].
  - destruct c; try done; cbn [handle_command fst]; try exact Hp.
    + destruct (mild_record w path content prompt_index previous_content t) as [_ Hs]. eapply steady_promise; [exact Hs| |done].
      intros q ->%list_elem_of_singleton. by eapply HW.
    + by eapply mild_promise; [apply mild_process|].
    + by eapply mild_promise; [apply mild_file_deleted|].
    + by eapply mild_promise; [apply mild_refresh_dirty|].
    + by eapply mild_promise; [apply mild_reset|].
    + by apply set_mode_promise.
    + by eapply mild_promise; [apply mild_refresh_all|].
Qed.

Lemma mild_file_actions w b t : mild t (handle_file_actions w b t).
Proof.
  unfold handle_file_actions. case_if.
  - assert (∀ l acc, mild acc.1 (foldl (refresh_step w) acc l).1) as Hs.
    { induction l as [|[p a] l IH]; intros [t1 done]; cbn [foldl]; [apply mild_refl|]. eapply mild_trans; [|apply IH].
      cbn [refresh_step fst snd]. destruct a; case_if; cbn; try apply mild_refl; try apply mild_process. apply mild_file_deleted. }
    specialize (Hs (walk_actions w b) (t, ∅)). destruct (foldl (refresh_step w) (t, ∅) _) as [t' done].
    eapply mild_trans; [exact Hs|apply mild_refresh_all].
  - assert (∀ l acc, mild acc.1 (foldl (delete_step w) acc l).1) as Hs.
    { induction l as [|[p a] l IH]; intros [t1 changed]; cbn [foldl]; [apply mild_refl|]. eapply mild_trans; [|apply IH].
      cbn [delete_step fst snd]. destruct a; cbn; try apply mild_refl. apply mild_file_deleted. }
    specialize (Hs (walk_actions w b) (t, [])). destruct (foldl (delete_step w) (t, []) _) as [t' changed].
    eapply mild_trans; [exact Hs|apply mild_changes_batch].
Qed.

Lemma others_promise W w cs : fair_order w → Forall (tells W) cs → ∀ acc, promise W acc.1 →
  promise W (foldl (λ acc c, let '(t, rep) := handle_command w c acc.1 in (t, acc.2 ++ [rep])) acc cs).1.
Proof.
  intros Hw Hcs. induction Hcs as [|c cs Hc _ IH]; intros [t rs] Hp; [done|]. cbn [foldl fst snd] in *.
  pose proof (command_promise W w c t Hw Hc Hp) as H1. destruct (handle_command w c t) as [t1 rep]. by apply IH.
Qed.

Lemma queue_promise W worlds queue : (∀ k, fair_order (worlds k)) → Forall (tells W) queue →
  ∀ k t, promise W t → promise W (run_queue worlds k queue t).1.
Proof.
  intros Hw Hq. induction Hq as [|c queue Hc Hq IH]; intros k t Hp; cbn [run_queue]; [done|]. case_if.
  - unfold handle_coalesced_batch. set (t1 := if _ : bool then _ else t).
    assert (promise W t1) as H1 by (unfold t1; case_if; [by eapply mild_promise; [apply mild_refresh_dirty|]|done]).
    assert (promise W (handle_file_actions (worlds k) (drain_and_coalesce c queue) t1)) as H2 by (by eapply mild_promise; [apply mild_file_actions|]).
    assert (Forall (tells W) (other_commands (drain_and_coalesce c queue))) as Ho.
    { apply Forall_forall. intros x [Hx|Hx]%drained_commands; [|by eapply Forall_forall in Hq].
      apply batch_add_commands in Hx as [Hx| ->]; [set_solver|done]. }
    by apply others_promise.
  - pose proof (command_promise W (worlds k) c t (Hw k) Hc Hp) as H1. destruct (handle_command (worlds k) c t) as [t1 rep].
    specialize (IH (S k) t1 H1). by destruct (run_queue worlds (S k) queue t1).
Qed.

(** A session: bursts of commands, each command in a world of its own. *)
Definition run_session (bursts : list ((nat → World) * list HunkTrackerCommand)) t : Tracker :=
  foldl (λ t b, (run_queue b.1 0 b.2 t).1) t bursts.

Lemma session_promise W bursts : (∀ b k, b ∈ bursts → fair_order (b.1 k)) → (∀ b, b ∈ bursts → Forall (tells W) b.2) →
  ∀ t, promise W t → promise W (run_session bursts t).
Proof.
  unfold run_session. induction bursts as [|b bs IH]; intros Hw Ht t Hp; [done|]. cbn [foldl].
  apply IH; [intros; apply Hw; by right|intros; apply Ht; by right|].
  apply queue_promise; [intros; apply Hw; by left|apply Ht; by left|done].
Qed.

(** C14: In a session that restores no snapshot, whatever else the file watcher
    reports and the client asks, in whatever bursts and modes: while the mode is
    to follow only files of the agent (from the start or switched to), every file
    that is followed carries the mark of the agent's files; and in every mode the
    mark is borne only by files the agent reported a write of during the session.
    (A snapshot brings its own files and marks, and the maps are walked in orders
    that miss no entry.) *)
Theorem agent_only_follows_the_agent (w : World) (dir : string) (m : TrackingMode) (n : N)
    (bursts : list ((nat → World) * list HunkTrackerCommand)) (path : string) (f : FileHunkState) :
  (∀ b k, b ∈ bursts → fair_order (b.1 k)) → (∀ b c, b ∈ bursts → c ∈ b.2 → no_restore c = true) →
  let t := run_session bursts (run_start w (tracker_new dir m n)) in
  file_states t !! path = Some f →
  (mode t = AgentOnly → is_agent_file f = true)
  ∧ (is_agent_file f = true → ∃ b content p prev, b ∈ bursts ∧ RecordAgentWrite path content p prev ∈ b.2).
Proof.
  intros Hw Hc. cbn zeta.
  set (W q := ∃ b content p prev, b ∈ bursts ∧ RecordAgentWrite q content p prev ∈ b.2).
  assert (promise W (run_start w (tracker_new dir m n))) as Hp.
  { assert (promise W (tracker_new dir m n)) as H0 by (split; [by intros _ p g|by intros p (g & ? & _)]).
    unfold run_start. case_if; [exact H0|]. by eapply mild_promise; [apply mild_refresh_dirty|]. }
  assert (∀ b, b ∈ bursts → Forall (tells W) b.2) as Ht.
  { intros b Hb. apply Forall_forall. intros c Hin. split; [by eapply Hc|]. intros q s p prev ->. by exists b, s, p, prev. }
  destruct (session_promise W bursts Hw Ht _ Hp) as [Ho Hin]. intros Hf.
  split; [intros Hm; by eapply Ho|]. intros E. apply Hin. by exists f.
Qed.

(** ** Batches *)

(** What the notices of a burst say of a path: [true] for a deletion. *)
Definition notices path (cs : list HunkTrackerCommand) : list bool :=
  omap (λ c, match c with
             | HandleFileChange p => if String.eqb p path then Some false else None
             | HandleFileDeleted p => if String.eqb p path then Some true else None
             | _ => None
             end) cs.

Definition summary_of (ns : list bool) : option CoalescedPathAction :=
  match last ns with
  | None => None
  | Some true => Some Deleted
  | Some false => Some (if any id ns then DeletedThenChanged else Changed)
  end.

Lemma summary_snoc_deleted ns : summary_of (ns ++ [true]) = Some Deleted.
Proof. unfold summary_of. by rewrite last_snoc. Qed.
Lemma any_id_app ns b : any id (ns ++ [b]) = any id ns || b.
Proof. unfold any. rewrite existsb_app. cbn. by rewrite orb_false_r. Qed.
Lemma summary_snoc_changed ns : summary_of (ns ++ [false]) = Some (then_changed (summary_of ns)).
Proof.
  unfold summary_of. rewrite last_snoc, any_id_app, orb_false_r. destruct (last ns) as [[]|] eqn:E; cbn.
  - assert (any id ns = true) as ->; [|done]. apply any_spec. exists true. split; [by apply last_Some_elem_of|done].
  - by destruct (any id ns).
  - apply last_None in E as ->. done.
Qed.

Lemma notices_snoc path cs c : notices path (cs ++ [c]) = notices path cs ++ notices path [c].
Proof. unfold notices. by rewrite omap_app. Qed.

Lemma batch_tracks cs : ∀ path, file_actions (foldl batch_add batch_new cs) !! path = summary_of (notices path cs).
Proof.
  induction cs as [|c cs IH] using rev_ind; intros path; [apply lookup_empty|]. rewrite foldl_app, notices_snoc. cbn [foldl].
  set (b := foldl batch_add batch_new cs) in *. unfold notices at 2.
  destruct c; cbn [omap list_omap batch_add]; rewrite ?app_nil_r; try apply IH; cbn; destruct (String.eqb path0 path) eqn:E.
  - apply String.eqb_eq in E as ->. by rewrite lookup_insert_eq, summary_snoc_changed, IH.
  - apply String.eqb_neq in E. by rewrite lookup_insert_ne, app_nil_r.
  - apply String.eqb_eq in E as ->. by rewrite lookup_insert_eq, summary_snoc_deleted.
  - apply String.eqb_neq in E. by rewrite lookup_insert_ne, app_nil_r.
Qed.

Definition is_refresh_all (c : HunkTrackerCommand) : bool := match c with RefreshAllBaselines => true | _ => false end.
Definition is_refresh_dirty (c : HunkTrackerCommand) : bool := match c with RefreshGitDirtyCache => true | _ => false end.

Lemma any_snoc {A} (f : A → bool) l x : any f (l ++ [x]) = any f l || f x.
Proof. unfold any. rewrite existsb_app. cbn. by rewrite orb_false_r. Qed.

(** a batch says of a burst of commands what matters: of every path whether
    its last notice was a deletion, a change, or a change after some deletion,
    whether each kind of refresh was asked for, and all the other commands in
    their order. *)
Lemma batch_summarizes_its_burst (first : HunkTrackerCommand) (waiting : list HunkTrackerCommand) :
  let b := drain_and_coalesce first waiting in
  let burst := first :: waiting in
  (∀ path, file_actions b !! path = summary_of (notices path burst))
  ∧ refresh_all b = any is_refresh_all burst ∧ refresh_dirty b = any is_refresh_dirty burst
  ∧ other_commands b = bfilter (λ c, negb (is_coalescable c)) burst ∧ command_count b = length burst.
Proof.
  cbn zeta. unfold drain_and_coalesce. change (foldl batch_add (batch_add batch_new first) waiting) with (foldl batch_add batch_new (first :: waiting)).
  generalize (first :: waiting). intros cs. split; [intros path; apply batch_tracks|].
  induction cs as [|c cs (Ha & Hd & Ho & Hn)] using rev_ind; [done|]. rewrite foldl_app, !any_snoc, length_app. cbn [foldl].
  set (b := foldl batch_add batch_new cs) in *. unfold bfilter in *. rewrite List.filter_app.
  destruct c; cbn; rewrite ?orb_false_r, ?orb_true_r, ?app_nil_r, ?Ha, ?Hd, ?Ho, ?Hn, ?Nat.add_1_r; done.
Qed.
End safety.

Lemma agent_only_follows_the_agent_witness :
  let f := default (mkFile Missing Missing [] false false) (file_states edited !! "/w/a") in
  is_agent_file f = true
  ∧ ∃ b content p prev, b ∈ [((λ _ : nat, repo), [RecordAgentWrite "/w/a" new_a 1 None])]
      ∧ RecordAgentWrite "/w/a" content p prev ∈ b.2.
Proof.
  pose proof (agent_only_follows_the_agent repo "/w" AgentOnly 0 [((λ _, repo), [RecordAgentWrite "/w/a" new_a 1 None])] "/w/a"
    (default (mkFile Missing Missing [] false false) (file_states edited !! "/w/a"))) as H.
  cbn zeta in H |- *. destruct H as [H1 H2].
  - intros b k ->%list_elem_of_singleton l. reflexivity.
  - intros b c ->%list_elem_of_singleton. intros ->%list_elem_of_singleton. reflexivity.
  - vm_compute. reflexivity.
  - assert (is_agent_file (default (mkFile Missing Missing [] false false) (file_states edited !! "/w/a")) = true) as E
      by (vm_compute; reflexivity).
    split; [exact E|exact (H2 E)].
Defined.
