(* ===== verification/HunkDemoFacts.v ===== *)
(** * Where the hunk tracker does not do what it means to

    Each lemma runs the model on a small case. The text of a finding is the
    comment of its lemma. *)

From Stdlib Require Import Ascii String ZArith.
From S2P Require Import Prelude RustStr TrimLemmas HunkTypes HunkDiff HunkTracker HunkActor HunkLoc HunkDemo HunkReviewFacts.
From stdpp Require Import options.

(** The agent has rewritten [/w/a], which HEAD holds as [old]. *)
Definition at_review (old new : string) : Tracker :=
  (run_queue (λ _, demo_world {[ "a" := old ]} {[ "/w/a" := new ]} ["a"]) 0 [RecordAgentWrite "/w/a" new 1 None] start).1.

Definition crlf_text (ls : list string) : string := join "" (map (λ l, l +:+ String carriage nl) ls).
Definition pending_ids (t : Tracker) : list HunkId := map h_id (get_hunks_for_path "/w/a" t).

(** Patching rebuilds the text from its lines with plain newlines: rejecting one
    hunk rewrites the line ends of the whole file. *)
Lemma rejection_rewrites_line_ends :
  writes (apply_file_action repo "/w/a" Reject (at_review (crlf_text ["a"; "b"; "c"]) (crlf_text ["a"; "X"; "c"]))).1
  = [Wrote "/w/a" (text ["a"; "b"; "c"])].
Proof. vm_compute. reflexivity. Qed.

(** A patch that leaves one blank line leaves the empty text, and the lines put
    in after that lose their newline: rejecting everything does not give the
    baseline back. *)
Lemma rejection_loses_a_blank_line :
  writes (apply_file_action repo "/w/a" Reject (at_review (text ["new"; ""]) (text [""; "x"]))).1 = [Wrote "/w/a" "new"].
Proof. vm_compute. reflexivity. Qed.

(** A hunk that adds the final newline can be neither accepted nor rejected: it
    is counted and comes back. *)
Lemma final_newline_is_never_settled :
  let t := at_review "a" (text ["a"]) in
  let accepted := (apply_file_action repo "/w/a" Accept t).1 in
  let rejected := (apply_file_action repo "/w/a" Reject t).1 in
  texts "/w/a" accepted = texts "/w/a" t ∧ length (pending_ids accepted) = 1 ∧ accepted_hunks (session_stats accepted) = 1%N
  ∧ texts "/w/a" rejected = texts "/w/a" t ∧ length (pending_ids rejected) = 1.
Proof. vm_compute. done. Qed.

(** A rejection whose write fails leaves the hunks pending, but out of the index
    of their turn and counted as rejected. *)
Lemma failed_rejection_is_counted :
  let '(t, r) := apply_file_action (failing repo) "/w/a" Reject edited in
  r = Err (WriteError "/w/a" "denied") ∧ pending_ids t = pending_ids edited ∧ get_hunks_for_turn repo 1 t = []
  ∧ rejected_hunks (session_stats t) = 2%N.
Proof. vm_compute. done. Qed.

(** In a batch with a refresh, a change of a file that is followed is left to the
    refresh; which does nothing when git has not moved. The change is lost. *)
Definition user_edit : World := demo_world {[ "a" := old_a ]} {[ "/w/a" := text ["user"] ]} ["a"].
Definition synced : Tracker := (run_queue (λ _, repo) 0 [RecordAgentWrite "/w/a" new_a 1 None; RefreshAllBaselines] start).1.
Lemma change_is_lost_in_a_batch :
  texts "/w/a" (run_queue (λ _, user_edit) 0 [HandleFileChange "/w/a"] synced).1 = Some (Full old_a, Full (text ["user"]))
  ∧ texts "/w/a" (run_queue (λ _, user_edit) 0 [HandleFileChange "/w/a"; RefreshAllBaselines] synced).1 = Some (Full old_a, Full new_a).
Proof. vm_compute. done. Qed.

(** Accepting a hunk recomputes the others as edits of the first one's author: an
    edit of the user becomes the agent's, and rejecting that turn undoes it. *)
Definition v0 : string := text ["a"; "b"; "c"; "d"; "e"; "f"; "g"].
Definition v1 : string := text ["A"; "b"; "c"; "d"; "e"; "f"; "g"].
Definition v2 : string := text ["A"; "b"; "c"; "D"; "e"; "f"; "g"].
Definition v3 : string := text ["A"; "b"; "c"; "D"; "e"; "f"; "G"].
Definition shared_repo : World := demo_world {[ "a" := v0 ]} {[ "/w/a" := v3 ]} ["a"].
Definition shared : Tracker :=
  (run_queue (λ _, shared_repo) 0 [RecordAgentWrite "/w/a" v1 1 None; RecordAgentWrite "/w/a" v2 2 None; HandleFileChange "/w/a"] start).1.
Lemma acceptance_takes_over_the_users_edit :
  let after := (handle_command shared_repo (CmdHunkAction "0" Accept) shared).1 in
  map (λ h, (h_id h, h_source h)) (get_hunks_for_path "/w/a" shared)
    = [("0", AgentEdit 2); ("2", AgentEdit 2); ("5", ExternalEditOnAgentFile)]
  ∧ map (λ h, (h_id h, h_source h)) (get_hunks_for_path "/w/a" after) = [("2", AgentEdit 2); ("5", AgentEdit 2)]
  ∧ writes (handle_command shared_repo (TurnAction 2 Reject) after).1 = [Wrote "/w/a" v1].
Proof. vm_compute. done. Qed.

(** Of two hunks with the same text, both moves are reported under the first
    one's identifier. *)
Definition d0 : string := text ["a"; "b"; "c"; "d"].
Definition d1 : string := text ["a"; "x"; "b"; "c"; "x"; "d"].
Definition d2 : string := text ["new"; "a"; "x"; "b"; "c"; "x"; "d"].
Definition twins : Tracker :=
  (run_queue (λ _, demo_world {[ "a" := d0 ]} {[ "/w/a" := d2 ]} ["a"]) 0
     [RecordAgentWrite "/w/a" d1 1 None; RecordAgentWrite "/w/a" d2 1 None] start).1.
Lemma move_is_reported_of_the_wrong_hunk :
  pending_ids twins = ["2"; "0"; "1"]
  ∧ omap (λ e, match e with HunkMoved _ i l => Some (i, new_start l) | _ => None end) (events twins) = [("0", 3%N); ("0", 6%N)].
Proof. vm_compute. done. Qed.

(** The header of a hunk's patch gives the old start for the new one: it is wrong
    as soon as an earlier hunk has moved the lines. *)
Lemma patch_header_ignores_earlier_hunks :
  map (λ h, (new_start (line_info h), generate_hunk_patch d0 d2 h)) (take 1 (drop 1 (get_hunks_for_path "/w/a" twins)))
  = [(3%N, "@@ -1,4 +1,5 @@" +:+ nl +:+ text [" a"; "+x"; " b"; " c"; " x"])].
Proof. vm_compute. reflexivity. Qed.

(** A text file that became binary before it was followed is kept as deleted; a
    rejection of the deletion overwrites the binary file. *)
Definition binary_world : World := demo_world {[ "a" := text ["text"] ]} {[ "/w/a" := String "000" "bin" ]} ["a"].
Definition binary_tracker : Tracker := run_start binary_world (tracker_new "/w" AllDirty 0).
Lemma binary_file_is_taken_for_deleted :
  read_file_bounded (disk binary_world "/w/a") = Binary (Some 4%N)
  ∧ texts "/w/a" binary_tracker = Some (Full (text ["text"]), Missing)
  ∧ writes (apply_file_action binary_world "/w/a" Reject binary_tracker).1 = [Wrote "/w/a" (text ["text"])].
Proof. vm_compute. done. Qed.

(** A hunk that is split is reported as two changes of it: the lines it had are
    taken off twice. *)
Definition s0 : string := text ["a"; "b"; "c"; "d"].
Definition s1 : string := text ["X"; "Y"; "Z"; "d"].
Definition s2 : string := text ["X"; "b"; "Z"; "d"].
Definition split_tracker : Tracker :=
  (run_queue (λ _, demo_world {[ "a" := s0 ]} {[ "/w/a" := s2 ]} ["a"]) 0
     [RecordAgentWrite "/w/a" s1 1 None; RecordAgentWrite "/w/a" s2 1 None] start).1.
Definition demo_context : LocSinkContext := mkLocContext "session" "agent" None true.
Definition recorded (t : Tracker) : list (HunkId * Z) :=
  map (λ r, (r_hunk_id r, lines_added r)) (writer (run_loc_sink demo_context 0 ([] : VecWriter) (events t) [])).
Lemma split_hunk_is_taken_off_twice :
  map (λ h, new_count (line_info h)) (get_hunks_for_path "/w/a" split_tracker) = [1%N; 1%N]
  ∧ recorded split_tracker = [("0", 3%Z); ("0", (-2)%Z); ("2", (-2)%Z)].
Proof. vm_compute. done. Qed.

(** A hunk of three lines that grows to four and is accepted, while another comes
    and is rejected: the events the tracker sends of them. *)
Definition grown : string := text ["X"; "Y"; "W"; "Z"; "d"].
Definition grown_tracker : Tracker :=
  (run_queue (λ _, demo_world {[ "a" := s0 ]} {[ "/w/a" := s2 ]} ["a"]) 0
     [RecordAgentWrite "/w/a" s1 1 None; RecordAgentWrite "/w/a" grown 1 None; CmdHunkAction "0" Accept;
      RecordAgentWrite "/w/a" (text ["X"; "Y"; "W"; "Z"; "d"; "e"]) 1 None; CmdHunkAction "2" Reject] start).1.
Lemma records_sum_to_what_counts_witness :
  tally "0" (events grown_tracker) = mkAccount (4%Z, 3%Z) (0%Z, 0%Z)
  ∧ sum_records "0" (writer (run_loc_sink demo_context 0 ([] : VecWriter) (events grown_tracker) [])) = (4%Z, 3%Z).
Proof.
  assert (tally "0" (events grown_tracker ++ []) = mkAccount (4%Z, 3%Z) (0%Z, 0%Z)) as Ht by (vm_compute; reflexivity).
  rewrite app_nil_r in Ht. split; [exact Ht|].
  rewrite (records_sum_to_what_counts demo_context 0 (events grown_tracker) [] "0");
    [rewrite app_nil_r, Ht; reflexivity|vm_compute; reflexivity].
Defined.
Lemma split_events_are_not_truthful : truthful "0" (events split_tracker) = true ∧ truthful "2" (events split_tracker) = false.
Proof. vm_compute. done. Qed.

(** When a file is found restored to HEAD its hunks are dropped without a word:
    they stay in the index and in the count of lines. *)
Definition restored_world : World := demo_world {[ "a" := old_a ]} {[ "/w/a" := old_a ]} [].
Lemma restored_file_drops_hunks_silently :
  let accepted := (handle_command repo (CmdHunkAction "0" Accept) edited).1 in
  let restored := (handle_command restored_world (HandleFileChange "/w/a") accepted).1 in
  pending_ids accepted = ["1"] ∧ pending_ids restored = [] ∧ events restored = events accepted
  ∧ turn_index restored !! 1%N = Some {[ "1" ]} ∧ recorded restored = [("0", 1%Z); ("1", 1%Z)].
Proof. vm_compute. done. Qed.

(** Two files of a snapshot that are rewritten to one path become one. *)
Lemma rewritten_paths_can_collide :
  let s := mkSnap (list_to_map [("/old/x", mkFileSnap Missing (Full "1") [] true false);
                                ("/real/x", mkFileSnap Missing (Full "2") [] true false)]) ∅ no_stats in
  (map_to_list (sn_file_states (rewrite_paths id "/old" "/real" "/new" s))).*1 = ["/new/x"].
Proof. vm_compute. reflexivity. Qed.
