(* ===== verification/Conversation.v ===== *)
(** * The conversation and what keeps it acceptable
      (xai-grok-sampling-types/src/conversation.rs, xai-token-estimation/src/lib.rs,
       xai-chat-state/src/compaction_utils.rs, conversation_util.rs)

    The items of a conversation, the estimate of their size, the three passes
    that repair the pairing of tool calls and tool results, and the cut that
    takes a conversation back to a prompt.

    A [usize] is an [N] and a length a [nat]. Of the types of the [async_openai]
    crate the model has the fields the code reads. Slicing a [str] inside a
    character panics: what can slice so returns an [option]. *)

From Stdlib Require Import Ascii String.
From S2P Require Import Prelude RustStr TrimLemmas.
From stdpp Require Import options.

#[local] Open Scope N_scope.

(** ** Items *)

Inductive ContentPart : Type :=
| Text (text : string)
| Image (url : string).

Inductive SyntheticReason : Type :=
| CompactionMeta
| SystemReminder
| ProjectInstructions
| AutoContinue
| AutoRecovery
| Interjection
| TaskCompleted
| SubagentCompleted
| NotificationDrain
| GoalSummary
| GoalClassifierNudge
| SchedulerFired
| UnknownReason.

Definition starts_prompt_turn (r : SyntheticReason) : bool :=
  match r with
  | TaskCompleted | SubagentCompleted | NotificationDrain | GoalClassifierNudge | SchedulerFired => true
  | CompactionMeta | SystemReminder | ProjectInstructions | AutoContinue | AutoRecovery | Interjection
  | GoalSummary | UnknownReason => false
  end.

Inductive PriorTurnInterrupt : Type :=
| MidTurnAbort
| PermissionRejected
| PermissionCancelled
| UnknownInterrupt.

Inductive ReasoningEffort : Type :=
| NoEffort | Minimal | Low | Medium | High | Xhigh.

Record UserItem : Type := mkUser {
  parts : list ContentPart;
  synthetic_reason : option SyntheticReason;
  prior_turn_interrupt : option PriorTurnInterrupt;
  prompt_index : option N;
}.
#[export] Instance UserItem_settable : Settable UserItem :=
  λ u, mkUser (parts u) (synthetic_reason u) (prior_turn_interrupt u) (prompt_index u).

Record ToolCall : Type := mkCall {
  call_id : string;
  call_name : string;
  arguments : string;
}.
#[export] Instance ToolCall_settable : Settable ToolCall := λ c, mkCall (call_id c) (call_name c) (arguments c).

Record AssistantItem : Type := mkAssistant {
  answer : string;
  tool_calls : list ToolCall;
  model_id : option string;
  model_fingerprint : option string;
  response_effort : option ReasoningEffort;
}.
#[export] Instance AssistantItem_settable : Settable AssistantItem :=
  λ a, mkAssistant (answer a) (tool_calls a) (model_id a) (model_fingerprint a) (response_effort a).

Record ToolResultItem : Type := mkResult {
  tool_call_id : string;
  output : string;
  images : list ContentPart;
}.
#[export] Instance ToolResultItem_settable : Settable ToolResultItem :=
  λ t, mkResult (tool_call_id t) (output t) (images t).

(** [rs::ReasoningItem]: the texts of its summary parts and content blocks. *)
Record ReasoningItem : Type := mkReasoning {
  reasoning_id : string;
  summary : list string;
  reasoning_content : option (list string);
  encrypted_content : option string;
}.

(** [rs::WebSearchToolCallAction] *)
Inductive WebAction : Type :=
| SearchAction (query : string)
| OpenPage (url : option string)
| FindText (pattern url : string)
| FindInPage (pattern url : string).

Inductive BackendToolKind : Type :=
| WebSearch (id : string) (action : WebAction)
| XSearch (id name input : string)
| CodeInterpreter (id : string) (code : option string).

Inductive ConversationItem : Type :=
| System (system_text : string)
| User (u : UserItem)
| Assistant (a : AssistantItem)
| ToolResult (t : ToolResultItem)
| BackendToolCall (kind : BackendToolKind)
| Reasoning (r : ReasoningItem).

#[export] Instance ContentPart_eq_dec : EqDecision ContentPart.
Proof. solve_decision. Defined.
#[export] Instance SyntheticReason_eq_dec : EqDecision SyntheticReason.
Proof. solve_decision. Defined.
#[export] Instance PriorTurnInterrupt_eq_dec : EqDecision PriorTurnInterrupt.
Proof. solve_decision. Defined.
#[export] Instance ReasoningEffort_eq_dec : EqDecision ReasoningEffort.
Proof. solve_decision. Defined.
#[export] Instance UserItem_eq_dec : EqDecision UserItem.
Proof. solve_decision. Defined.
#[export] Instance ToolCall_eq_dec : EqDecision ToolCall.
Proof. solve_decision. Defined.
#[export] Instance AssistantItem_eq_dec : EqDecision AssistantItem.
Proof. solve_decision. Defined.
#[export] Instance ToolResultItem_eq_dec : EqDecision ToolResultItem.
Proof. solve_decision. Defined.
#[export] Instance ReasoningItem_eq_dec : EqDecision ReasoningItem.
Proof. solve_decision. Defined.
#[export] Instance WebAction_eq_dec : EqDecision WebAction.
Proof. solve_decision. Defined.
#[export] Instance BackendToolKind_eq_dec : EqDecision BackendToolKind.
Proof. solve_decision. Defined.
#[export] Instance ConversationItem_eq_dec : EqDecision ConversationItem.
Proof. solve_decision. Defined.

Definition is_system (i : ConversationItem) : bool := match i with System _ => true | _ => false end.
Definition is_user (i : ConversationItem) : bool := match i with User _ => true | _ => false end.
Definition is_assistant (i : ConversationItem) : bool := match i with Assistant _ => true | _ => false end.
Definition is_tool_result (i : ConversationItem) : bool := match i with ToolResult _ => true | _ => false end.
Definition is_reasoning (i : ConversationItem) : bool := match i with Reasoning _ => true | _ => false end.
Definition is_image (p : ContentPart) : bool := match p with Image _ => true | Text _ => false end.

Definition synthetic_user (r : option SyntheticReason) (s : string) : ConversationItem :=
  User (mkUser [Text s] r None None).
Definition user : string → ConversationItem := synthetic_user None.
Definition user_meta : string → ConversationItem := synthetic_user (Some CompactionMeta).
Definition system_reminder : string → ConversationItem := synthetic_user (Some SystemReminder).
Definition project_instructions : string → ConversationItem := synthetic_user (Some ProjectInstructions).
Definition assistant (s : string) : ConversationItem := Assistant (mkAssistant s [] None None None).
Definition assistant_tool_calls (calls : list ToolCall) : ConversationItem :=
  Assistant (mkAssistant "" calls None None None).
Definition tool_result (id s : string) : ConversationItem := ToolResult (mkResult id s []).

(** ** Text *)

Definition reasoning_item_text (r : ReasoningItem) : string :=
  join nl (summary r ++ default [] (reasoning_content r)).

(** [&s[..n]] *)
Definition slice_to (n : nat) (s : string) : option string :=
  if is_char_boundary n s then Some (take_bytes n s) else None.

(** [s.rfind(p)] *)
Fixpoint rfind (p s : string) : option nat :=
  match s with
  | EmptyString => if starts_with p s then Some 0%nat else None
  | String _ s' =>
      match rfind p s' with
      | Some i => Some (S i)
      | None => if starts_with p s then Some 0%nat else None
      end
  end.

(** [s.chars().skip(n)] *)
Fixpoint drop_chars (n : nat) (s : string) : string :=
  match s with
  | EmptyString => EmptyString
  | String c s' =>
      if is_continuation c then drop_chars n s'
      else match n with O => s | S n => drop_chars n s' end
  end.

Definition quote : string := String "034" EmptyString.

Definition web_action_text (a : WebAction) : string :=
  match a with
  | SearchAction q => "search: " +:+ q
  | OpenPage url => "open: " +:+ default "?" url
  | FindText p u | FindInPage p u => "find " +:+ quote +:+ p +:+ quote +:+ " in " +:+ u
  end.

Definition text_summary (k : BackendToolKind) : option string :=
  match k with
  | WebSearch _ a => Some ("[backend web_search] " +:+ web_action_text a)
  | XSearch _ name input => Some ("[backend x_search] " +:+ name +:+ "(" +:+ input +:+ ")")
  | CodeInterpreter _ code =>
      preview ← match code with
                | Some c => if (100 <? String.length c)%nat then p ← slice_to 100 c; Some (p +:+ "...") else Some c
                | None => Some ""
                end;
      Some ("[backend code_interpreter] " +:+ preview)
  end.

Definition part_text (p : ContentPart) : option string :=
  match p with Text s => Some s | Image _ => None end.

Definition user_text (u : UserItem) : string := join nl (omap part_text (parts u)).

Definition text_content (i : ConversationItem) : option string :=
  match i with
  | System s => Some s
  | User u => Some (user_text u)
  | Assistant a => Some (answer a)
  | ToolResult t => Some (output t)
  | BackendToolCall k => text_summary k
  | Reasoning r => Some (reasoning_item_text r)
  end.

(** ** Token estimates: one token for four bytes *)

Definition BYTES_PER_TOKEN : N := 4.
Definition IMAGE_TOKEN_ESTIMATE : N := 765.

Definition str_len (s : string) : N := N.of_nat (String.length s).
Definition sum_N : list N → N := foldr N.add 0.

Definition estimate_tokens (s : string) : N := str_len s / BYTES_PER_TOKEN.
Definition estimate_image_tokens (count : N) : N := N.min (count * IMAGE_TOKEN_ESTIMATE) u64_max.

Definition part_bytes (p : ContentPart) : N := match p with Text s => str_len s | Image _ => 0 end.
Definition count_images (ps : list ContentPart) : N := N.of_nat (length (bfilter is_image ps)).

Definition estimate_item_tokens (i : ConversationItem) : option N :=
  match i with
  | System s => Some (estimate_tokens s)
  | User u =>
      Some (sum_N (map part_bytes (parts u)) / BYTES_PER_TOKEN + estimate_image_tokens (count_images (parts u)))
  | Assistant a =>
      Some ((str_len (answer a) + sum_N (map (λ c, str_len (arguments c)) (tool_calls a))) / BYTES_PER_TOKEN)
  | ToolResult t => Some (estimate_tokens (output t))
  | BackendToolCall k => estimate_tokens <$> text_summary k
  | Reasoning r =>
      Some ((str_len (reasoning_item_text r) + from_option str_len 0 (encrypted_content r)) / BYTES_PER_TOKEN)
  end.

Definition estimate_conversation_tokens (items : list ConversationItem) : option N :=
  sum_N <$> mapM estimate_item_tokens items.

Definition estimate_messages_tokens (items : list ConversationItem) : option N :=
  sum_N <$> mapM estimate_item_tokens (bfilter (λ i, negb (is_system i)) items).

Definition estimate_system_message_tokens (i : ConversationItem) : N :=
  match i with System s => estimate_tokens s | _ => 0 end.

(** ** Pairing of calls and results

    The results a model accepts for the calls of an assistant message are those
    of the run right after it. A [HashSet] that is only asked for membership is
    the list of what was put in. *)

Inductive DanglingToolCallReason : Type :=
| UserCancelled
| HarnessHalted (class : string).

Definition synthetic_dangling_result_text (name : string) (reason : DanglingToolCallReason) : string :=
  match reason with
  | UserCancelled => "Tool execution was cancelled by the user (tool `" +:+ name +:+ "` was not executed)."
  | HarnessHalted class =>
      "Tool execution was halted by the harness (" +:+ class +:+ "); the tool `" +:+ name +:+ "` was not executed."
  end.

(** The run of results at the front, and what follows it. *)
Fixpoint take_run (l : list ConversationItem) : list ToolResultItem * list ConversationItem :=
  match l with
  | ToolResult t :: l => let '(run, rest) := take_run l in (t :: run, rest)
  | _ => ([], l)
  end.

(** The last result for an identifier stays; [seen] holds the position of the
    one before it, which is removed. *)
Fixpoint keep_last (run : list ToolResultItem) : list ToolResultItem :=
  match run with
  | [] => []
  | t :: run =>
      if any (λ t', String.eqb (tool_call_id t') (tool_call_id t)) run then keep_last run else t :: keep_last run
  end.

(** The code scans a window again after removing from it; the second scan finds
    nothing ([ConversationFacts.keep_last_idem]). The scan passes over every item
    once, so [length conversation] steps are enough. *)
Fixpoint dedup_go (fuel : nat) (l : list ConversationItem) : list ConversationItem * nat :=
  match fuel, l with
  | S fuel, Assistant a :: l =>
      if is_nil (tool_calls a) then let '(l, n) := dedup_go fuel l in (Assistant a :: l, n)
      else
        let '(run, rest) := take_run l in
        let kept := keep_last run in
        let '(rest, n) := dedup_go fuel rest in
        (Assistant a :: map ToolResult kept ++ rest, (length run - length kept + n)%nat)
  | S fuel, i :: l => let '(l, n) := dedup_go fuel l in (i :: l, n)
  | _, _ => (l, 0%nat)
  end.
Definition dedup_duplicate_tool_results (l : list ConversationItem) : list ConversationItem * nat :=
  dedup_go (length l) l.

Definition answered_by (run : list ToolResultItem) (c : ToolCall) : bool :=
  any (λ t, String.eqb (tool_call_id t) (call_id c)) run.

Definition synthetic_results (reason : DanglingToolCallReason) (calls : list ToolCall) (run : list ToolResultItem)
  : list ConversationItem :=
  map (λ c, tool_result (call_id c) (synthetic_dangling_result_text (call_name c) reason))
      (bfilter (λ c, negb (answered_by run c)) calls).

(** Phase 1: where synthetic results are missing, and which ones. *)
Fixpoint dangling_repairs (fuel : nat) (reason : DanglingToolCallReason) (i : nat) (l : list ConversationItem)
  : list (nat * list ConversationItem) :=
  match fuel, l with
  | S fuel, Assistant a :: l =>
      if is_nil (tool_calls a) then dangling_repairs fuel reason (S i) l
      else
        let '(run, rest) := take_run l in
        let j := (S i + length run)%nat in
        let synthetic := synthetic_results reason (tool_calls a) run in
        let repairs := dangling_repairs fuel reason j rest in
        if is_nil synthetic then repairs else (j, synthetic) :: repairs
  | S fuel, _ :: l => dangling_repairs fuel reason (S i) l
  | _, _ => []
  end.

(** Phase 2: the splices, the last one first. *)
Definition splice (at_ : nat) (new l : list ConversationItem) : list ConversationItem :=
  firstn at_ l ++ new ++ skipn at_ l.

Definition repair_dangling_tool_calls (reason : DanglingToolCallReason) (l : list ConversationItem)
  : list ConversationItem * nat :=
  let repairs := dangling_repairs (length l) reason 0 l in
  (foldr (λ r l, splice r.1 r.2 l) l repairs, foldr Nat.add 0%nat (map (λ r, length r.2) repairs)).

Fixpoint dangling_go (fuel : nat) (l : list ConversationItem) : bool :=
  match fuel, l with
  | S fuel, Assistant a :: l =>
      if is_nil (tool_calls a) then dangling_go fuel l
      else
        let '(run, rest) := take_run l in
        if any (λ c, negb (answered_by run c)) (tool_calls a) then true else dangling_go fuel rest
  | S fuel, _ :: l => dangling_go fuel l
  | _, _ => false
  end.
Definition has_dangling_tool_calls (l : list ConversationItem) : bool := dangling_go (length l) l.

(** Results outside the run of the message that made their call. *)
Fixpoint strip_go (run_ids : list string) (l : list ConversationItem) : list ConversationItem * list string :=
  match l with
  | [] => ([], [])
  | Assistant a :: l => let '(l, ids) := strip_go (map call_id (tool_calls a)) l in (Assistant a :: l, ids)
  | ToolResult t :: l =>
      let '(l, ids) := strip_go run_ids l in
      if contains (tool_call_id t) run_ids then (ToolResult t :: l, ids) else (l, tool_call_id t :: ids)
  | i :: l => let '(l, ids) := strip_go [] l in (i :: l, ids)
  end.
Definition strip_displaced_tool_results (l : list ConversationItem) : list ConversationItem * list string :=
  strip_go [] l.

Record HistoryRepairReport : Type := mkReport {
  duplicates_removed : nat;
  stripped_tool_result_ids : list string;
  synthetic_results_inserted : nat;
}.

Definition changed (r : HistoryRepairReport) : bool :=
  (0 <? duplicates_removed r)%nat || negb (is_nil (stripped_tool_result_ids r))
  || (0 <? synthetic_results_inserted r)%nat.

Definition repair_history (items : list ConversationItem) : list ConversationItem * HistoryRepairReport :=
  let '(items, dups) := dedup_duplicate_tool_results items in
  let '(items, stripped) := strip_displaced_tool_results items in
  let '(items, synthetic) := repair_dangling_tool_calls (HarnessHalted "history_repair") items in
  (items, mkReport dups stripped synthetic).

(** ** The leading system message *)

Definition canonical_system_prompt_eq (a b : string) : bool :=
  String.eqb (trim_end_chars [newline; carriage] a) (trim_end_chars [newline; carriage] b).

Definition replace_or_insert_system_head (prompt : string) (c : list ConversationItem)
  : list ConversationItem * bool :=
  match c with
  | System s :: rest => if canonical_system_prompt_eq s prompt then (c, false) else (System prompt :: rest, true)
  | _ => (System prompt :: c, true)
  end.

(** ** Going back to a prompt

    Each function returns how many items stay. *)

Fixpoint first_marker (c : list ConversationItem) : option N :=
  match c with
  | [] => None
  | User u :: c => match prompt_index u with Some i => Some i | None => first_marker c end
  | _ :: c => first_marker c
  end.

Fixpoint truncate_markers_only (target : N) (i : nat) (c : list ConversationItem) : nat :=
  match c with
  | [] => i
  | User u :: c =>
      match prompt_index u with
      | Some idx => if target <=? idx then i else truncate_markers_only target (S i) c
      | None => truncate_markers_only target (S i) c
      end
  | _ :: c => truncate_markers_only target (S i) c
  end.

(** The turn an unmarked item opens, with the turns before it in [next]: the
    first item of the user is the preamble and opens none. *)
Definition unmarked_index (u : UserItem) (next : N) (seen_preamble : bool) : option N * bool :=
  match synthetic_reason u with
  | None => if seen_preamble then (Some next, true) else (None, true)
  | Some r => (if starts_prompt_turn r then Some next else None, seen_preamble)
  end.

Fixpoint truncate_legacy (target next : N) (seen_preamble : bool) (i : nat) (c : list ConversationItem) : nat :=
  match c with
  | [] => i
  | User u :: c =>
      let '(effective, seen_preamble) := unmarked_index u next seen_preamble in
      match effective with
      | Some idx => if target <=? idx then i else truncate_legacy target (idx + 1) seen_preamble (S i) c
      | None => truncate_legacy target next seen_preamble (S i) c
      end
  | _ :: c => truncate_legacy target next seen_preamble (S i) c
  end.

Fixpoint count_legacy_turns (turns : N) (seen_preamble : bool) (c : list ConversationItem) : N :=
  match c with
  | [] => turns
  | User u :: c =>
      match prompt_index u with
      | Some _ => turns
      | None =>
          let '(effective, seen_preamble) := unmarked_index u turns seen_preamble in
          count_legacy_turns (match effective with Some _ => turns + 1 | None => turns end) seen_preamble c
      end
  | _ :: c => count_legacy_turns turns seen_preamble c
  end.
Definition count_legacy_turns_until_marker : list ConversationItem → N := count_legacy_turns 0 false.

Fixpoint truncate_progressive (target next : N) (seen_preamble seen_marker : bool) (i : nat)
    (c : list ConversationItem) : nat :=
  match c with
  | [] => i
  | User u :: c =>
      let '(effective, seen_preamble, seen_marker) :=
        match prompt_index u with
        | Some idx => (Some idx, seen_preamble, true)
        | None =>
            if seen_marker then (None, seen_preamble, true)
            else let '(e, p) := unmarked_index u next seen_preamble in (e, p, false)
        end in
      match effective with
      | Some idx =>
          if target <=? idx then i
          else truncate_progressive target (if prompt_index u is Some _ then next else idx + 1) seen_preamble seen_marker (S i) c
      | None => truncate_progressive target next seen_preamble seen_marker (S i) c
      end
  | _ :: c => truncate_progressive target next seen_preamble seen_marker (S i) c
  end.

Definition conversation_truncate_for_prompt (c : list ConversationItem) (target : N) : nat :=
  match first_marker c with
  | None => truncate_legacy target 0 false 0 c
  | Some first =>
      if count_legacy_turns_until_marker c =? first then truncate_progressive target 0 false false 0 c
      else truncate_markers_only target 0 c
  end.
