(* ===== verification/ConversationFacts.v ===== *)
(** * Repairing a conversation: lemmas and theorems

    A conversation is read as segments, an item with the run of tool results
    after it, on which each repair pass acts alone. *)

From Stdlib Require Import Ascii String.
From S2P Require Import Prelude RustStr TrimLemmas Conversation.
From stdpp Require Import options.

#[local] Open Scope nat_scope.

(** ** Segments *)

Definition Segment : Type := ConversationItem * list ToolResultItem.

Fixpoint segments (l : list ConversationItem) : list ToolResultItem * list Segment :=
  match l with
  | [] => ([], [])
  | ToolResult t :: l => let '(run, ss) := segments l in (t :: run, ss)
  | i :: l => let '(run, ss) := segments l in ([], (i, run) :: ss)
  end.

Fixpoint render (ss : list Segment) : list ConversationItem :=
  match ss with
  | [] => []
  | (i, run) :: ss => i :: map ToolResult run ++ render ss
  end.

Definition heads_ok (ss : list Segment) : Prop := Forall (λ s : Segment, is_tool_result s.1 = false) ss.

(** ** What a provider accepts

    Every tool result is in the run right after the message that made its call,
    and every call has exactly one. *)
Inductive paired : list ConversationItem → Prop :=
| paired_nil : paired []
| paired_calls a run l :
    map tool_call_id run ≡ₚ map call_id (tool_calls a) → paired l → paired (Assistant a :: map ToolResult run ++ l)
| paired_other i l : is_assistant i = false → is_tool_result i = false → paired l → paired (i :: l).

(** The calls of one message have identifiers of their own. *)
Definition calls_distinct (l : list ConversationItem) : Prop :=
  ∀ a, Assistant a ∈ l → NoDup (map call_id (tool_calls a)).

(** One pass that settles a conversation: the reference for [repair_history]. *)
Definition settled_run (reason : DanglingToolCallReason) (a : AssistantItem) (run : list ToolResultItem)
  : list ToolResultItem :=
  bfilter (λ t, contains (tool_call_id t) (map call_id (tool_calls a))) (keep_last run)
  ++ map (λ c, mkResult (call_id c) (synthetic_dangling_result_text (call_name c) reason) [])
         (bfilter (λ c, negb (answered_by run c)) (tool_calls a)).

Definition settle_segment (reason : DanglingToolCallReason) (s : Segment) : Segment :=
  match s.1 with
  | Assistant a => (s.1, settled_run reason a s.2)
  | i => (i, [])
  end.

Definition settle (reason : DanglingToolCallReason) (l : list ConversationItem) : list ConversationItem :=
  render (map (settle_segment reason) (segments l).2).

(** The other passes, on segments. *)
Definition dedup_segment (s : Segment) : Segment :=
  match s.1 with
  | Assistant a => (s.1, if is_nil (tool_calls a) then s.2 else keep_last s.2)
  | _ => s
  end.

Definition synthetic_run (reason : DanglingToolCallReason) (a : AssistantItem) (run : list ToolResultItem) :=
  map (λ c, mkResult (call_id c) (synthetic_dangling_result_text (call_name c) reason) [])
      (bfilter (λ c, negb (answered_by run c)) (tool_calls a)).

Definition answer_segment (reason : DanglingToolCallReason) (s : Segment) : Segment :=
  match s.1 with
  | Assistant a => (s.1, s.2 ++ synthetic_run reason a s.2)
  | _ => s
  end.

Definition strip_segment (s : Segment) : Segment :=
  match s.1 with
  | Assistant a => (s.1, bfilter (λ t, contains (tool_call_id t) (map call_id (tool_calls a))) s.2)
  | i => (i, [])
  end.

Section segments.

Lemma segments_heads l : heads_ok (segments l).2.
Proof.
  induction l as [|i l IH]; cbn; [constructor|].
  destruct i; cbn; destruct (segments l) as [run ss]; cbn in *; try done; by constructor.
Qed.

Lemma render_segments l : map ToolResult (segments l).1 ++ render (segments l).2 = l.
Proof.
  induction l as [|i l IH]; cbn; [done|].
  destruct i; cbn; destruct (segments l) as [run ss]; cbn in *; by rewrite IH.
Qed.

Lemma segments_render run ss : heads_ok ss → segments (map ToolResult run ++ render ss) = (run, ss).
Proof.
  intros Hss. revert run. induction Hss as [|[i r] ss Hi Hss IH].
  - cbn. induction run as [|t run IHr]; cbn; [done|]. by rewrite IHr.
  - assert (segments (render ((i, r) :: ss)) = ([], (i, r) :: ss)) as E.
    { cbn. destruct i; try discriminate Hi; by rewrite IH. }
    induction run as [|t run IHr]; cbn [map app segments]; [exact E|]. by rewrite IHr.
Qed.

Lemma take_run_render run ss : heads_ok ss → take_run (map ToolResult run ++ render ss) = (run, render ss).
Proof.
  intros Hss. induction run as [|t run IH]; cbn.
  - destruct Hss as [|[i r] ss Hi ?]; [done|]. cbn. by destruct i.
  - by rewrite IH.
Qed.

Lemma view l : ∃ run ss, l = map ToolResult run ++ render ss ∧ heads_ok ss ∧ segments l = (run, ss).
Proof.
  exists (segments l).1, (segments l).2. split_and!; [by rewrite render_segments|apply segments_heads|by destruct (segments l)].
Qed.

Lemma render_app ss ss' : render (ss ++ ss') = render ss ++ render ss'.
Proof. induction ss as [|[i r] ss IH]; cbn; [done|]. by rewrite IH, <-app_assoc. Qed.

End segments.

(** ** Each pass acts on segments *)

Section passes.

Lemma dedup_skip run l n :
  dedup_go (length run + n) (map ToolResult run ++ l)
  = (map ToolResult run ++ (dedup_go n l).1, (dedup_go n l).2).
Proof. induction run as [|t run IH]; cbn; [by destruct (dedup_go n l)|]. by rewrite IH. Qed.

Lemma keep_last_length run : length (keep_last run) ≤ length run.
Proof. induction run as [|t run IH]; cbn; [done|]. case_if; cbn; lia. Qed.

Lemma dedup_render ss : heads_ok ss → ∀ n, length (render ss) ≤ n →
  dedup_go n (render ss)
  = (render (map dedup_segment ss), length (render ss) - length (render (map dedup_segment ss))).
Proof.
  induction 1 as [|[i r] ss Hi Hss IH]; intros n Hn; [by destruct n|].
  cbn in Hn. rewrite length_app, length_map in Hn. destruct n as [|n]; [lia|].
  assert (length (render (map dedup_segment ss)) ≤ length (render ss)) as Hle.
  { clear. induction ss as [|[i r] ss IH]; [done|]. cbn [map].
    destruct i; cbn; rewrite !length_app, !length_map; try lia. case_if; [lia|].
    pose proof (keep_last_length r). lia. }
  assert (dedup_go n (map ToolResult r ++ render ss)
          = (map ToolResult r ++ render (map dedup_segment ss),
             length (render ss) - length (render (map dedup_segment ss)))) as Hskip.
  { replace n with (length r + (n - length r)) by lia. rewrite dedup_skip, IH by lia. done. }
  cbn [render dedup_go map].
  destruct i as [| |a| | |]; try discriminate Hi; cbn [dedup_go dedup_segment fst snd].
  1, 2, 4, 5: rewrite Hskip; cbn [render length]; f_equal; rewrite !length_app, !length_map; lia.
  case_if; cbn [render].
  - rewrite Hskip. f_equal. cbn. rewrite !length_app, !length_map. lia.
  - rewrite take_run_render, IH by (done || lia). f_equal. cbn. rewrite !length_app, !length_map.
    pose proof (keep_last_length r). lia.
Qed.

Lemma dedup_spec run ss : heads_ok ss →
  dedup_duplicate_tool_results (map ToolResult run ++ render ss)
  = (map ToolResult run ++ render (map dedup_segment ss), length (render ss) - length (render (map dedup_segment ss))).
Proof.
  intros Hss. unfold dedup_duplicate_tool_results. rewrite length_app, length_map, dedup_skip, dedup_render by done. done.
Qed.

Lemma strip_skip ids run l :
  (strip_go ids (map ToolResult run ++ l)).1
  = map ToolResult (bfilter (λ t, contains (tool_call_id t) ids) run) ++ (strip_go ids l).1.
Proof.
  induction run as [|t run IH]; cbn; [done|].
  destruct (strip_go ids (map ToolResult run ++ l)) as [l' ids']. cbn in IH. by case_if; cbn; rewrite IH.
Qed.

Lemma strip_render ss : heads_ok ss → ∀ ids, (strip_go ids (render ss)).1 = render (map strip_segment ss).
Proof.
  induction 1 as [|[i r] ss Hi Hss IH]; intros ids; [done|]. cbn [render map].
  assert (∀ ids, (strip_go ids (map ToolResult r ++ render ss)).1
    = map ToolResult (bfilter (λ t, contains (tool_call_id t) ids) r) ++ render (map strip_segment ss)) as Hs.
  { intros ids'. by rewrite strip_skip, IH. }
  assert (bfilter (λ t, contains (tool_call_id t) []) r = []) as Hnil.
  { clear. induction r as [|t r IH]; [done|]. done. }
  destruct i; try discriminate Hi; cbn [strip_go];
    match goal with |- context [strip_go ?ids ?l] => pose proof (Hs ids) as E; destruct (strip_go ids l) end;
    cbn in *; rewrite E, ?Hnil; done.
Qed.

Lemma strip_spec run ss : heads_ok ss →
  (strip_displaced_tool_results (map ToolResult run ++ render ss)).1 = render (map strip_segment ss).
Proof.
  intros Hss. unfold strip_displaced_tool_results. rewrite strip_skip, strip_render by done.
  replace (bfilter _ run) with (@nil ToolResultItem); [done|]. clear. by induction run.
Qed.

Lemma strip_ids_length l : ∀ ids, length (strip_go ids l).1 + length (strip_go ids l).2 = length l.
Proof.
  induction l as [|i l IH]; intros ids; cbn; [done|].
  destruct i;
    match goal with |- context [strip_go ?ids l] => pose proof (IH ids) as E; destruct (strip_go ids l) end;
    cbn in *; try lia. case_if; cbn; lia.
Qed.

Lemma synthetic_results_run reason a run :
  synthetic_results reason (tool_calls a) run = map ToolResult (synthetic_run reason a run).
Proof. unfold synthetic_results, synthetic_run. by rewrite map_map. Qed.

Lemma repairs_skip reason run l n i :
  dangling_repairs (length run + n) reason i (map ToolResult run ++ l) = dangling_repairs n reason (i + length run) l.
Proof.
  revert i. induction run as [|t run IH]; intros i; cbn; [by rewrite Nat.add_0_r|]. rewrite IH. f_equal. lia.
Qed.

Lemma splice_at p new l : splice (length p) new (p ++ l) = p ++ new ++ l.
Proof. unfold splice. by rewrite take_app_length, drop_app_length. Qed.

Lemma repairs_render reason ss : heads_ok ss → ∀ n p, length (render ss) ≤ n →
  foldr (λ r l, splice r.1 r.2 l) (p ++ render ss) (dangling_repairs n reason (length p) (render ss))
  = p ++ render (map (answer_segment reason) ss)
  ∧ foldr Nat.add 0 (map (λ r, length r.2) (dangling_repairs n reason (length p) (render ss)))
    + length (render ss) = length (render (map (answer_segment reason) ss)).
Proof.
  induction 1 as [|[i r] ss Hi Hss IH]; intros n p Hn.
  { destruct n; cbn; by rewrite app_nil_r. }
  cbn in Hn. rewrite length_app, length_map in Hn. destruct n as [|n]; [lia|].
  cbn [render map].
  set (q := p ++ i :: map ToolResult r).
  assert (length q = S (length p + length r)) as Hq by (subst q; rewrite length_app; cbn; rewrite length_map; lia).
  assert (p ++ i :: map ToolResult r ++ render ss = q ++ render ss) as Ep by (subst q; by rewrite <-app_assoc).
  assert (dangling_repairs n reason (S (length p)) (map ToolResult r ++ render ss)
          = dangling_repairs (n - length r) reason (length q) (render ss)) as Hskip.
  { replace n with (length r + (n - length r)) at 1 by lia. rewrite repairs_skip, Hq. f_equal; lia. }
  assert (∀ m, length (render ss) ≤ m →
    foldr (λ r l, splice r.1 r.2 l) (p ++ i :: map ToolResult r ++ render ss) (dangling_repairs m reason (length q) (render ss))
    = p ++ i :: map ToolResult r ++ render (map (answer_segment reason) ss)
    ∧ foldr Nat.add 0 (map (λ r, length r.2) (dangling_repairs m reason (length q) (render ss)))
      + length (i :: map ToolResult r ++ render ss)
      = length (i :: map ToolResult r ++ render (map (answer_segment reason) ss))) as Hrest.
  { intros m Hm. destruct (IH m q Hm) as [E1 E2]. rewrite Ep, E1. split; [subst q; by rewrite <-app_assoc|].
    cbn. rewrite !length_app. lia. }
  destruct i as [| |a| | |]; try discriminate Hi; cbn [dangling_repairs render answer_segment fst snd];
    try (rewrite Hskip; apply Hrest; lia).
  destruct (is_nil (tool_calls a)) eqn:En.
  - apply is_nil_true in En. unfold synthetic_run. rewrite En. cbn [bfilter List.filter map]. rewrite app_nil_r.
    rewrite Hskip. apply Hrest. lia.
  - rewrite take_run_render by done. rewrite synthetic_results_run.
    replace (S (length p) + length r) with (length q) by lia.
    destruct (Hrest n ltac:(lia)) as [E1 E2]. case_if.
    + apply is_nil_true in E. apply map_eq_nil in E. rewrite E, app_nil_r. done.
    + cbn [foldr map fst snd]. rewrite E1. split.
      * replace (p ++ Assistant a :: map ToolResult r ++ render (map (answer_segment reason) ss))
          with (q ++ render (map (answer_segment reason) ss)) by (subst q; by rewrite <-app_assoc).
        rewrite splice_at. subst q. by rewrite map_app, <-!app_assoc.
      * cbn [length] in *. rewrite !length_app, map_app, !length_app, !length_map in *. lia.
Qed.

Lemma repair_dangling_spec reason run ss : heads_ok ss →
  repair_dangling_tool_calls reason (map ToolResult run ++ render ss)
  = (map ToolResult run ++ render (map (answer_segment reason) ss),
     length (render (map (answer_segment reason) ss)) - length (render ss)).
Proof.
  intros Hss. unfold repair_dangling_tool_calls.
  rewrite length_app, length_map, repairs_skip. cbn [Nat.add].
  rewrite <-(length_map ToolResult run).
  destruct (repairs_render reason ss Hss (length (render ss)) (map ToolResult run) (le_n _)) as [-> E]. f_equal. lia.
Qed.

Lemma dangling_skip run l n : dangling_go (length run + n) (map ToolResult run ++ l) = dangling_go n l.
Proof. by induction run. Qed.

Definition unanswered (s : Segment) : bool :=
  match s.1 with Assistant a => any (λ c, negb (answered_by s.2 c)) (tool_calls a) | _ => false end.

Lemma dangling_render ss : heads_ok ss → ∀ n, length (render ss) ≤ n →
  dangling_go n (render ss) = any unanswered ss.
Proof.
  induction 1 as [|[i r] ss Hi Hss IH]; intros n Hn; [by destruct n|].
  cbn in Hn. rewrite length_app, length_map in Hn. destruct n as [|n]; [lia|].
  assert (dangling_go n (map ToolResult r ++ render ss) = any unanswered ss) as Hskip.
  { replace n with (length r + (n - length r)) by lia. rewrite dangling_skip. apply IH. lia. }
  cbn [render]. change (any unanswered ((i, r) :: ss)) with (unanswered (i, r) || any unanswered ss).
  destruct i as [| |a| | |]; try discriminate Hi; cbn [dangling_go unanswered fst snd]; try exact Hskip.
  destruct (is_nil (tool_calls a)) eqn:En.
  - apply is_nil_true in En. rewrite En. exact Hskip.
  - rewrite take_run_render by done. case_if; [done|]. apply IH. lia.
Qed.

Lemma has_dangling_spec run ss : heads_ok ss →
  has_dangling_tool_calls (map ToolResult run ++ render ss) = any unanswered ss.
Proof.
  intros Hss. unfold has_dangling_tool_calls. rewrite length_app, length_map, dangling_skip. by apply dangling_render.
Qed.

End passes.

(** ** The last result of an identifier *)

Section keep_last.

Lemma keep_last_elem run t : t ∈ keep_last run → t ∈ run.
Proof.
  induction run as [|t' run IH]; cbn; [done|]. case_if; intros Ht; [right; by apply IH|].
  apply elem_of_cons in Ht as [->|Ht]; [left|right; by apply IH].
Qed.

Lemma any_id_spec id run : any (λ t, String.eqb (tool_call_id t) id) run = true ↔ id ∈ map tool_call_id run.
Proof.
  rewrite any_spec, list_elem_of_fmap. split.
  - intros (t & Ht & E). apply String.eqb_eq in E. eauto.
  - intros (t & -> & Ht). exists t. by rewrite String.eqb_refl.
Qed.

Lemma keep_last_ids run id : id ∈ map tool_call_id (keep_last run) ↔ id ∈ map tool_call_id run.
Proof.
  induction run as [|t run IH]; cbn; [done|]. case_if; cbn; rewrite !elem_of_cons, IH; [|done].
  apply any_id_spec in E. split; [by right|]. by intros [->|?].
Qed.

Lemma keep_last_NoDup run : NoDup (map tool_call_id (keep_last run)).
Proof.
  induction run as [|t run IH]; cbn; [constructor|]. case_if; cbn; [done|]. constructor; [|done].
  rewrite keep_last_ids. intros Hin. apply any_id_spec in Hin. congruence.
Qed.

Lemma keep_last_id run : NoDup (map tool_call_id run) → keep_last run = run.
Proof.
  induction run as [|t run IH]; cbn; [done|]. rewrite NoDup_cons. intros [Hn Hd].
  case_if; [by apply any_id_spec in E|]. by rewrite IH.
Qed.

Lemma keep_last_idem run : keep_last (keep_last run) = keep_last run.
Proof. apply keep_last_id, keep_last_NoDup. Qed.

Lemma keep_last_same run : length (keep_last run) = length run → keep_last run = run.
Proof.
  induction run as [|t run IH]; cbn; [done|]. case_if; cbn; intros Hl.
  - pose proof (keep_last_length run). lia.
  - f_equal. apply IH. lia.
Qed.

Lemma map_bfilter_id (p : string → bool) run :
  map tool_call_id (bfilter (λ t, p (tool_call_id t)) run) = bfilter p (map tool_call_id run).
Proof. unfold bfilter. induction run as [|t run IH]; cbn; [done|]. case_if; cbn; by rewrite IH. Qed.

Lemma answered_spec run c : answered_by run c = true ↔ call_id c ∈ map tool_call_id run.
Proof. apply any_id_spec. Qed.

Lemma NoDup_bfilter {A} (p : A → bool) l : NoDup l → NoDup (bfilter p l).
Proof.
  unfold bfilter. induction 1 as [|x l Hx Hd IH]; cbn; [constructor|]. case_if; [|done]. constructor; [|done].
  intros Hin. apply Hx. by apply elem_of_bfilter in Hin as [? _].
Qed.

Lemma bfilter_true {A} (p : A → bool) l : (∀ x, x ∈ l → p x = true) → bfilter p l = l.
Proof.
  unfold bfilter. induction l as [|x l IH]; cbn; [done|]. intros H.
  rewrite (H x) by left. f_equal. apply IH. intros y Hy. apply H. by right.
Qed.

Lemma bfilter_false {A} (p : A → bool) l : (∀ x, x ∈ l → p x = false) → bfilter p l = [].
Proof.
  unfold bfilter. induction l as [|x l IH]; cbn; [done|]. intros H.
  rewrite (H x) by left. apply IH. intros y Hy. apply H. by right.
Qed.

End keep_last.

(** ** A settled conversation *)

Definition segment_ok (s : Segment) : Prop :=
  match s.1 with
  | Assistant a => map tool_call_id s.2 ≡ₚ map call_id (tool_calls a)
  | _ => s.2 = []
  end.

Definition segment_distinct (s : Segment) : Prop :=
  match s.1 with Assistant a => NoDup (map call_id (tool_calls a)) | _ => True end.

Section settle.

Lemma render_paired ss : heads_ok ss → Forall segment_ok ss → paired (render ss).
Proof.
  induction 1 as [|[i r] ss Hi Hss IH]; [constructor|]. rewrite Forall_cons. intros [Hok Hf]. cbn.
  unfold segment_ok in Hok. destruct i; cbn in Hok; subst; try discriminate Hi;
    try (apply paired_other; [done..|by apply IH]).
  by apply paired_calls, IH.
Qed.

Lemma paired_segments l : paired l → (segments l).1 = [] ∧ Forall segment_ok (segments l).2.
Proof.
  induction 1 as [|a run l Hr Hl [IH1 IH2]|i l Ha Ht Hl [IH1 IH2]]; [by split; constructor| |].
  - pose proof (segments_heads l) as Hh. rewrite <-(render_segments l), IH1. cbn [map app segments].
    rewrite segments_render by done. split; [done|]. by constructor.
  - cbn. destruct i; try discriminate; destruct (segments l) as [r' ss]; cbn in *; subst;
      (split; [done|by constructor]).
Qed.

Lemma distinct_segments l : calls_distinct l → Forall segment_distinct (segments l).2.
Proof.
  intros Hd. apply Forall_forall. intros [i r] Hin. unfold segment_distinct. cbn. destruct i; try done.
  apply Hd. rewrite <-(render_segments l). apply elem_of_app. right.
  revert Hin. generalize (segments l).2. induction l0 as [|[j r'] ss IH]; [by intros ?%elem_of_nil|].
  rewrite elem_of_cons. intros [[= <- <-]|Hin]; cbn; [left|]. right. apply elem_of_app. right. by apply IH.
Qed.

Lemma settled_ids reason a run : NoDup (map call_id (tool_calls a)) →
  map tool_call_id (settled_run reason a run) ≡ₚ map call_id (tool_calls a).
Proof.
  intros Hd. unfold settled_run. rewrite map_app, (map_bfilter_id (λ id, contains id (map call_id (tool_calls a)))), map_map. cbn.
  assert (map (λ c, call_id c) (bfilter (λ c, negb (answered_by run c)) (tool_calls a))
    = bfilter (λ id, negb (any (λ t, String.eqb (tool_call_id t) id) run)) (map call_id (tool_calls a))) as E.
  { unfold bfilter, answered_by. induction (tool_calls a) as [|c cs IH]; cbn; [done|].
    cbn in Hd. apply NoDup_cons in Hd as [_ Hd]. case_if; cbn; by rewrite IH. }
  rewrite E. apply NoDup_Permutation; [|done|].
  - apply NoDup_app. split_and!; [by apply NoDup_bfilter, keep_last_NoDup| |by apply NoDup_bfilter].
    intros id [Hin _]%elem_of_bfilter [_ Hn]%elem_of_bfilter. rewrite keep_last_ids in Hin. apply any_id_spec in Hin.
    by rewrite Hin in Hn.
  - intros id. rewrite elem_of_app, !elem_of_bfilter, keep_last_ids, contains_spec, negb_true_iff. split.
    + by intros [[_ ?]|[? _]].
    + intros Hid. destruct (any (λ t, String.eqb (tool_call_id t) id) run) eqn:Ea; [left|by right].
      split; [by apply any_id_spec|done].
Qed.

Lemma settle_segment_ok reason s : segment_distinct s → segment_ok (settle_segment reason s).
Proof.
  destruct s as [i r]. unfold settle_segment, segment_distinct, segment_ok. cbn.
  destruct i; cbn; try done. apply settled_ids.
Qed.

Lemma settled_run_ok reason a run : NoDup (map call_id (tool_calls a)) →
  map tool_call_id run ≡ₚ map call_id (tool_calls a) → settled_run reason a run = run.
Proof.
  intros Hd Hp. unfold settled_run. rewrite keep_last_id by by rewrite Hp.
  rewrite bfilter_true, bfilter_false; [cbn; by rewrite app_nil_r| |].
  - intros c Hc. apply negb_false_iff, answered_spec. rewrite Hp. by apply list_elem_of_fmap_2.
  - intros t Ht. apply contains_spec. rewrite <-Hp. by apply list_elem_of_fmap_2.
Qed.

Lemma settle_segment_id reason s : segment_distinct s → segment_ok s → settle_segment reason s = s.
Proof.
  destruct s as [i r]. unfold settle_segment, segment_distinct, segment_ok. cbn.
  destruct i; cbn; intros Hd Hok; subst; try done. f_equal. by apply settled_run_ok.
Qed.

Lemma map_heads_ok (f : Segment → Segment) ss : (∀ s, (f s).1 = s.1) → heads_ok ss → heads_ok (map f ss).
Proof. intros Hf. induction 1; cbn; constructor; [by rewrite Hf|done]. Qed.

Lemma settle_head reason s : (settle_segment reason s).1 = s.1.
Proof. destruct s as [i r]. by destruct i. Qed.
Lemma dedup_segment_head s : (dedup_segment s).1 = s.1.
Proof. destruct s as [i r]. by destruct i. Qed.
Lemma strip_head s : (strip_segment s).1 = s.1.
Proof. destruct s as [i r]. by destruct i. Qed.
Lemma answer_head reason s : (answer_segment reason s).1 = s.1.
Proof. destruct s as [i r]. by destruct i. Qed.

Lemma settle_passes reason s : answer_segment reason (strip_segment (dedup_segment s)) = settle_segment reason s.
Proof.
  destruct s as [i r]. destruct i; try done.
  cbn [dedup_segment strip_segment answer_segment fst snd]. unfold settle_segment, settled_run, synthetic_run. cbn [fst snd].
  set (own := λ t, contains (tool_call_id t) (map call_id (tool_calls a))).
  assert (bfilter own (if is_nil (tool_calls a) then r else keep_last r) = bfilter own (keep_last r)) as ->.
  { case_if; [|done]. apply is_nil_true in E. rewrite !bfilter_false; [done| |];
      intros t _; subst own; cbn; apply contains_false; rewrite E; by intros ?%elem_of_nil. }
  do 3 f_equal.
  assert (∀ cs, (∀ c, c ∈ cs → c ∈ tool_calls a) →
    bfilter (λ c, negb (answered_by (bfilter own (keep_last r)) c)) cs
    = bfilter (λ c, negb (answered_by r c)) cs) as Hf; [|by apply Hf].
  induction cs as [|c cs IH]; [done|]. intros Hc. unfold bfilter at 1 3. cbn [List.filter].
  assert (answered_by (bfilter own (keep_last r)) c = answered_by r c) as ->.
  { apply eq_iff_eq_true. rewrite !answered_spec.
    unfold own. rewrite (map_bfilter_id (λ id, contains id (map call_id (tool_calls a)))), elem_of_bfilter, keep_last_ids,
      contains_spec. split; [by intros [? _]|]. intros ?. split; [done|].
    apply list_elem_of_fmap_2, Hc. by left. }
  unfold bfilter in *. rewrite IH; [done|]. intros c' Hc'. apply Hc. by right.
Qed.

(** [repair_history] is the reference. *)
Lemma repair_history_settle l : (repair_history l).1 = settle (HarnessHalted "history_repair") l.
Proof.
  destruct (view l) as (run & ss & -> & Hss & Hseg). unfold repair_history, settle. rewrite Hseg.
  rewrite dedup_spec by done. cbn [snd].
  pose proof (map_heads_ok dedup_segment ss dedup_segment_head Hss) as Hd.
  pose proof (strip_spec run _ Hd) as Hs.
  destruct (strip_displaced_tool_results _) as [l' ids]. cbn in Hs. subst l'.
  pose proof (map_heads_ok strip_segment _ strip_head Hd) as Hst.
  pose proof (repair_dangling_spec (HarnessHalted "history_repair") [] _ Hst) as Hr. cbn [map app] in Hr.
  rewrite Hr. cbn [fst]. rewrite !map_map. f_equal. apply map_ext, settle_passes.
Qed.

Lemma settle_paired reason l : calls_distinct l → paired (settle reason l).
Proof.
  intros Hd. unfold settle. apply render_paired.
  - apply map_heads_ok; [apply settle_head|apply segments_heads].
  - apply Forall_fmap. eapply Forall_impl; [by apply distinct_segments|]. intros s. apply settle_segment_ok.
Qed.

Lemma settle_id reason l : calls_distinct l → paired l → settle reason l = l.
Proof.
  intros Hd Hp. apply paired_segments in Hp as [H1 H2]. unfold settle.
  rewrite <-(render_segments l) at 2. rewrite H1. cbn. f_equal.
  apply distinct_segments in Hd. revert Hd H2. generalize (segments l).2.
  induction l0 as [|s ss IH]; [done|]. rewrite !Forall_cons. intros [? ?] [? ?]. cbn.
  rewrite settle_segment_id, IH by done. done.
Qed.

Lemma render_others ss : heads_ok ss → bfilter (λ i, negb (is_tool_result i)) (render ss) = map fst ss.
Proof.
  unfold bfilter. induction 1 as [|[i r] ss Hi Hss IH]; [done|]. cbn in *. rewrite Hi. cbn.
  rewrite List.filter_app, IH. f_equal. induction r; done.
Qed.

Lemma settle_others reason l :
  bfilter (λ i, negb (is_tool_result i)) (settle reason l) = bfilter (λ i, negb (is_tool_result i)) l.
Proof.
  unfold settle. rewrite render_others by (apply map_heads_ok; [apply settle_head|apply segments_heads]).
  rewrite <-(render_segments l) at 2. unfold bfilter at 1. rewrite List.filter_app.
  replace (List.filter _ (map ToolResult _)) with (@nil ConversationItem) by (induction (segments l).1; done).
  pose proof (render_others _ (segments_heads l)) as E. unfold bfilter in E. rewrite E, map_map.
  apply map_ext, settle_head.
Qed.

Lemma settle_distinct reason l : calls_distinct l → calls_distinct (settle reason l).
Proof.
  intros Hd a Ha. apply Hd.
  assert (Assistant a ∈ bfilter (λ i, negb (is_tool_result i)) (settle reason l)) as Hin by by apply elem_of_bfilter.
  rewrite settle_others in Hin. by apply elem_of_bfilter in Hin as [? _].
Qed.

End settle.

(** ** What the report says *)

Section report.

Lemma same_length_same (f : Segment → Segment) ss :
  (∀ s, (f s).1 = s.1 ∧ length (f s).2 ≤ length s.2 ∧ (length (f s).2 = length s.2 → (f s).2 = s.2)) →
  length (render (map f ss)) = length (render ss) → map f ss = ss.
Proof.
  intros Hf.
  assert (∀ ss, length (render (map f ss)) ≤ length (render ss)) as Hle.
  { clear ss. induction ss as [|[i r] ss IH]; [done|]. cbn. destruct (Hf (i, r)) as (_ & Hl & _).
    destruct (f (i, r)) as [j r']. cbn in *. rewrite !length_app, !length_map. lia. }
  induction ss as [|[i r] ss IH]; [done|]. cbn. intros E. pose proof (Hle ss) as Hs.
  destruct (Hf (i, r)) as (H1 & H2 & H3). destruct (f (i, r)) as [j r']. cbn in *. subst j.
  rewrite !length_app, !length_map in E. rewrite H3, IH by lia. done.
Qed.

Lemma strip_go_same l : ∀ ids, (strip_go ids l).2 = [] → (strip_go ids l).1 = l.
Proof.
  induction l as [|i l IH]; intros ids; cbn; [done|].
  destruct i;
    match goal with |- context [strip_go ?ids l] => pose proof (IH ids) as E; destruct (strip_go ids l) end;
    cbn in *; try (intros H; by rewrite E). case_if; cbn; intros H; [by rewrite E|discriminate].
Qed.

Lemma dedup_count_zero l : (dedup_duplicate_tool_results l).2 = 0 → (dedup_duplicate_tool_results l).1 = l.
Proof.
  destruct (view l) as (run & ss & -> & Hss & _). rewrite dedup_spec by done. cbn. intros H0. do 2 f_equal.
  apply same_length_same.
  - intros [i r]. destruct i; cbn; try done. case_if; [done|]. split_and!; [done|apply keep_last_length|apply keep_last_same].
  - assert (length (render (map dedup_segment ss)) ≤ length (render ss)) as Hle; [|lia].
    clear. induction ss as [|[i r] ss IH]; [done|]. cbn [map].
    destruct i; cbn; rewrite !length_app, !length_map; try lia. case_if; [lia|]. pose proof (keep_last_length r). lia.
Qed.

Lemma answer_length reason ss : length (render ss) ≤ length (render (map (answer_segment reason) ss)).
Proof.
  induction ss as [|[i r] ss IH]; [done|]. cbn [map].
  destruct i; cbn; rewrite !length_app, !length_map, ?length_app; lia.
Qed.

Lemma answer_same reason ss :
  length (render (map (answer_segment reason) ss)) = length (render ss) → map (answer_segment reason) ss = ss.
Proof.
  induction ss as [|[i r] ss IH]; [done|]. cbn [map]. pose proof (answer_length reason ss) as Hle.
  destruct i as [| |a| | |]; cbn [answer_segment fst snd render length];
    rewrite !length_app, !length_map, ?length_app; intros E; try (by rewrite IH by lia).
  rewrite IH by lia. assert (synthetic_run reason a r = []) as -> by (apply length_zero_iff_nil; lia).
  by rewrite app_nil_r.
Qed.

Lemma repair_count_zero reason l : (repair_dangling_tool_calls reason l).2 = 0 → (repair_dangling_tool_calls reason l).1 = l.
Proof.
  destruct (view l) as (run & ss & -> & Hss & _). rewrite repair_dangling_spec by done. cbn. intros H0.
  pose proof (answer_length reason ss). rewrite answer_same by lia. done.
Qed.

Lemma unchanged_same l : changed (repair_history l).2 = false → (repair_history l).1 = l.
Proof.
  unfold repair_history.
  pose proof (dedup_count_zero l) as H1. destruct (dedup_duplicate_tool_results l) as [l1 n1]. cbn in H1.
  pose proof (strip_go_same l1 []) as H2. unfold strip_displaced_tool_results.
  destruct (strip_go [] l1) as [l2 ids]. cbn in H2.
  pose proof (repair_count_zero (HarnessHalted "history_repair") l2) as H3.
  destruct (repair_dangling_tool_calls _ l2) as [l3 n3]. cbn in *. unfold changed. cbn.
  destruct n1, ids, n3; cbn; intros H; try discriminate H. by rewrite H3, H2, H1.
Qed.

Lemma settled_is_left_alone l : calls_distinct l → paired l → repair_history l = (l, mkReport 0 [] 0).
Proof.
  intros Hd Hp. pose proof (segments_heads l) as Hh. pose proof (paired_segments l Hp) as [H1 Hok].
  apply distinct_segments in Hd. pose proof (render_segments l) as El. rewrite H1 in El. cbn in El. rewrite <-El.
  revert Hh Hok Hd. generalize (segments l).2 as ss. clear. intros ss Hh Hok Hd.
  assert (map dedup_segment ss = ss ∧ map strip_segment ss = ss ∧ ∀ reason, map (answer_segment reason) ss = ss)
    as (E1 & E2 & E3).
  { clear Hh. induction ss as [|[i r] ss IH]; [done|]. apply Forall_cons in Hok as [Hok Hoks], Hd as [Hd Hds].
    destruct (IH Hoks Hds) as (E1 & E2 & E3). cbn [map]. rewrite E1, E2. setoid_rewrite E3.
    unfold segment_ok, segment_distinct in *. destruct i as [| |a| | |]; cbn in *; subst; try done.
    rewrite keep_last_id by by rewrite Hok.
    rewrite bfilter_true by (intros t Ht; apply contains_spec; rewrite <-Hok; by apply list_elem_of_fmap_2).
    split_and!; [by destruct (is_nil (tool_calls a))|done|]. intros reason. unfold synthetic_run.
    rewrite bfilter_false; [cbn; by rewrite app_nil_r|].
    intros c Hc. apply negb_false_iff, answered_spec. rewrite Hok. by apply list_elem_of_fmap_2. }
  unfold repair_history.
  pose proof (dedup_spec [] ss Hh) as D. cbn [map app] in D. rewrite D, E1.
  pose proof (strip_spec [] ss Hh) as S1. cbn [map app] in S1. rewrite E2 in S1.
  pose proof (strip_ids_length (render ss) []) as S2. fold (strip_displaced_tool_results (render ss)) in S2.
  destruct (strip_displaced_tool_results (render ss)) as [l' ids]. cbn in S1, S2. subst l'.
  pose proof (repair_dangling_spec (HarnessHalted "history_repair") [] ss Hh) as R. cbn [map app] in R.
  rewrite R, E3. assert (ids = []) as -> by (apply length_zero_iff_nil; lia). do 2 f_equal; lia.
Qed.

End report.

(** ** Theorems *)

(** C5: When the calls of each message have identifiers of their own, repairing
    a history leaves one that a provider accepts: every tool result is in the run
    right after the message that made its call and every call has exactly one
    result. The repair is the one-pass reference: of the results a call has, the
    last one of its run stays, and a call without one gets a synthetic one. It
    touches nothing but tool results, it reports a change exactly when the history
    was not acceptable, and what it leaves it finds nothing to repair in. *)
Theorem repaired_history_is_accepted l :
  calls_distinct l →
  paired (repair_history l).1
  ∧ (repair_history l).1 = settle (HarnessHalted "history_repair") l
  ∧ bfilter (λ i, negb (is_tool_result i)) (repair_history l).1 = bfilter (λ i, negb (is_tool_result i)) l
  ∧ (changed (repair_history l).2 = false ↔ paired l)
  ∧ repair_history (repair_history l).1 = ((repair_history l).1, mkReport 0 [] 0).
Proof.
  intros Hd. pose proof (settle_paired (HarnessHalted "history_repair") l Hd) as Hp.
  pose proof (settle_distinct (HarnessHalted "history_repair") l Hd) as Hd'.
  pose proof (settle_others (HarnessHalted "history_repair") l) as Ho.
  rewrite <-repair_history_settle in Hp, Hd', Ho.
  split_and!; [done|apply repair_history_settle|done| |by apply settled_is_left_alone].
  split; intros H; [by rewrite <-(unchanged_same l H)|]. by rewrite settled_is_left_alone.
Qed.

Definition call (id name : string) : ToolCall := mkCall id name "{}".
Definition torn_history : list ConversationItem :=
  [System "sys"; user "hi"; assistant_tool_calls [call "c1" "read"; call "c2" "bash"];
   tool_result "c1" "cancelled"; tool_result "c1" "contents"; tool_result "c9" "orphan"; user "again";
   tool_result "c2" "too late"].

Lemma repaired_history_is_accepted_witness :
  calls_distinct torn_history
  ∧ (repair_history torn_history).1
    = [System "sys"; user "hi"; assistant_tool_calls [call "c1" "read"; call "c2" "bash"];
       tool_result "c1" "contents";
       tool_result "c2" "Tool execution was halted by the harness (history_repair); the tool `bash` was not executed.";
       user "again"]
  ∧ paired (repair_history torn_history).1.
Proof.
  assert (calls_distinct torn_history) as Hd.
  { intros a Ha. unfold torn_history in Ha. repeat (apply elem_of_cons in Ha as [Ha|Ha]; try discriminate Ha).
    - injection Ha as ->. cbn. apply (bool_decide_unpack _). vm_compute. exact I.
    - by apply elem_of_nil in Ha. }
  split; [exact Hd|]. split; [vm_compute; reflexivity|]. exact (proj1 (repaired_history_is_accepted torn_history Hd)).
Defined.

(** With two calls of one identifier the repair is not idempotent: it gives each
    a synthetic result, and finds a duplicate when it runs again. *)
Example repeated_identifier_is_repaired_twice :
  let l := [assistant_tool_calls [call "c" "read"; call "c" "bash"]] in
  (repair_history l).2 = mkReport 0 [] 2 ∧ (repair_history (repair_history l).1).2 = mkReport 1 [] 0.
Proof. split; vm_compute; reflexivity. Qed.

(** ** Going back to a prompt *)

Definition marker (i : ConversationItem) : option N := match i with User u => prompt_index u | _ => None end.
Definition unmarked (l : list ConversationItem) : Prop := Forall (λ i, marker i = None) l.

(** Turns pushed with the indices from [m] on: the item that starts one, and what
    came after it. *)
Fixpoint marked_turns (m : N) (turns : list (UserItem * list ConversationItem)) : list ConversationItem :=
  match turns with
  | [] => []
  | (u, rest) :: turns => User (u <| prompt_index := Some m |>) :: rest ++ marked_turns (m + 1) turns
  end.

Section truncation.

Lemma markers_only_skip t i pre c : unmarked pre →
  truncate_markers_only t i (pre ++ c) = truncate_markers_only t (length pre + i) c.
Proof.
  intros Hp. revert i. induction Hp as [|x pre Hx Hp IH]; intros i; [done|].
  cbn. destruct x; cbn in Hx; rewrite ?Hx, IH; f_equal; lia.
Qed.

Lemma progressive_seen t c : ∀ next p i,
  truncate_progressive t next p true i c = truncate_markers_only t i c.
Proof.
  induction c as [|x c IH]; intros next p i; [done|]. cbn. destruct x; try apply IH.
  destruct (prompt_index u); [|apply IH]. case_if; [done|apply IH].
Qed.

Lemma markers_only_turns t turns : Forall (λ r, unmarked r.2) turns → ∀ m i,
  truncate_markers_only t i (marked_turns m turns)
  = (i + length (marked_turns m (take (N.to_nat (t - m)) turns)))%nat.
Proof.
  induction 1 as [|[u rest] turns Hr Hf IH]; intros m i; cbn [marked_turns truncate_markers_only].
  { rewrite take_nil. cbn. lia. }
  cbn [prompt_index set_field]. cbn in *. case_if.
  - apply N.leb_le in E. replace (N.to_nat (t - m)) with 0%nat by lia. by rewrite Nat.add_0_r.
  - apply N.leb_gt in E. rewrite markers_only_skip, IH by done.
    replace (N.to_nat (t - m)) with (S (N.to_nat (t - (m + 1)))) by lia.
    cbn [take firstn marked_turns length]. rewrite length_app. lia.
Qed.

Lemma count_legacy_skip pre u c : unmarked pre → prompt_index u ≠ None → ∀ n p,
  count_legacy_turns n p (pre ++ User u :: c) = count_legacy_turns n p pre.
Proof.
  intros Hp Hu. induction Hp as [|x pre Hx Hp IH]; intros n p; cbn.
  - by destruct (prompt_index u).
  - destruct x; try apply IH. cbn in Hx. rewrite Hx. destruct (unmarked_index u0 n p). apply IH.
Qed.

Lemma first_marker_skip pre u c m : unmarked pre → prompt_index u = Some m → first_marker (pre ++ User u :: c) = Some m.
Proof.
  intros Hp Hu. induction Hp as [|x pre Hx Hp IH]; cbn; [by rewrite Hu|]. destruct x; try apply IH. cbn in Hx. by rewrite Hx.
Qed.

Lemma count_legacy_mono pre : ∀ n p, (n ≤ count_legacy_turns n p pre)%N.
Proof.
  induction pre as [|x pre IH]; intros n p; cbn; [lia|]. destruct x; try apply IH.
  destruct (prompt_index u); [lia|]. destruct (unmarked_index u n p) as [[e|] p']; [|apply IH].
  specialize (IH (n + 1)%N p'). lia.
Qed.

Lemma unmarked_index_Some u n p e p' : unmarked_index u n p = (Some e, p') → e = n.
Proof. unfold unmarked_index. destruct (synthetic_reason u); repeat case_if; by intros [= <- <-]. Qed.

Lemma progressive_skip t pre c : unmarked pre → ∀ n p i,
  (count_legacy_turns n p pre ≤ t)%N →
  ∃ n' p', truncate_progressive t n p false i (pre ++ c) = truncate_progressive t n' p' false (length pre + i) c.
Proof.
  intros Hp. induction Hp as [|x pre Hx Hp IH]; intros n p i Hle; [by exists n, p|]. cbn in Hle |- *.
  assert (∀ n p, (count_legacy_turns n p pre ≤ t)%N →
    ∃ n' p', truncate_progressive t n p false (S i) (pre ++ c)
             = truncate_progressive t n' p' false (S (length pre + i)) c) as Hgo.
  { intros n1 p1 H1. destruct (IH n1 p1 (S i) H1) as (n' & p' & E). exists n', p'. rewrite E. f_equal. lia. }
  destruct x; try (by apply Hgo). cbn in Hx. rewrite Hx in *.
  destruct (unmarked_index u n p) as [[e|] p'] eqn:Eu; [|by apply Hgo].
  apply unmarked_index_Some in Eu. subst e. pose proof (count_legacy_mono pre (n + 1) p').
  case_if; [apply N.leb_le in E; lia|]. by apply Hgo.
Qed.


Lemma progressive_cut t pre c : unmarked pre → ∀ n p i, (n ≤ t)%N → (t < count_legacy_turns n p pre)%N →
  truncate_progressive t n p false i (pre ++ c) = truncate_legacy t n p i pre.
Proof.
  intros Hp. induction Hp as [|x pre Hx Hp IH]; intros n p i Hn Hlt; cbn in Hlt |- *; [lia|].
  destruct x; try (by apply IH). cbn in Hx. rewrite Hx in *.
  destruct (unmarked_index u n p) as [[e|] p'] eqn:Eu; [|by apply IH].
  apply unmarked_index_Some in Eu. subst e. case_if; [done|]. apply N.leb_gt in E. apply IH; [lia|done].
Qed.

Lemma legacy_le t pre : ∀ n p i, (i ≤ truncate_legacy t n p i pre ≤ i + length pre)%nat.
Proof.
  induction pre as [|x pre IH]; intros n p i; cbn; [lia|].
  assert (∀ n p, S i ≤ truncate_legacy t n p (S i) pre ≤ S i + length pre)%nat as H by (intros; apply IH).
  destruct x; try (match goal with |- context [truncate_legacy t ?n ?p _ _] => specialize (H n p) end; lia).
  destruct (unmarked_index u n p) as [[e|] p']; [case_if; [lia|specialize (H (e + 1)%N p'); lia]|specialize (H n p'); lia].
Qed.

Lemma take_marked m k turns : take (length (marked_turns m (take k turns))) (marked_turns m turns)
  = marked_turns m (take k turns).
Proof.
  revert m turns. induction k as [|k IH]; intros m [|[u rest] turns]; try done.
  cbn [take firstn marked_turns length]. rewrite length_app. cbn [take firstn].
  rewrite take_app_add, IH. done.
Qed.

End truncation.

(** C24: In a history whose turns were pushed with consecutive prompt indices
    after an unmarked beginning, going back to prompt [k] keeps the beginning and
    exactly the turns before [k], whatever unmarked messages were injected in the
    middle of a turn. Below the first marked turn the cut is inside the beginning
    when its turns are the missing ones, and at its end when it was rebuilt. *)
Theorem going_back_keeps_the_turns_before pre m u rest turns k :
  unmarked pre → Forall (λ r, unmarked r.2) ((u, rest) :: turns) →
  let turns := (u, rest) :: turns in
  let c := pre ++ marked_turns m turns in
  let kept := take (conversation_truncate_for_prompt c k) c in
  ((m ≤ k)%N → kept = pre ++ marked_turns m (take (N.to_nat (k - m)) turns))
  ∧ ((k < m)%N → count_legacy_turns_until_marker pre = m → kept = take (truncate_legacy k 0 false 0 pre) pre)
  ∧ ((k < m)%N → count_legacy_turns_until_marker pre ≠ m → kept = pre).
Proof.
  intros Hp Hr ts c kept. subst kept.
  assert (first_marker c = Some m) as Hm by by apply first_marker_skip.
  assert (count_legacy_turns_until_marker c = count_legacy_turns_until_marker pre) as Hc by by apply count_legacy_skip.
  assert (truncate_markers_only k 0 c = length pre + length (marked_turns m (take (N.to_nat (k - m)) ts)))%nat as Ho.
  { unfold c. rewrite markers_only_skip, markers_only_turns by done. lia. }
  assert (take (truncate_markers_only k 0 c) c = pre ++ marked_turns m (take (N.to_nat (k - m)) ts)) as Hk.
  { rewrite Ho. unfold c. by rewrite take_app_add, take_marked. }
  unfold conversation_truncate_for_prompt. rewrite Hm, Hc. split_and!; intros Hkm.
  - case_if; [|done]. apply N.eqb_eq in E. rewrite <-Hk. f_equal.
    destruct (progressive_skip k pre (marked_turns m ts) Hp 0 false 0) as (n' & p' & E').
    { unfold count_legacy_turns_until_marker in E. lia. }
    fold c in E'. rewrite E'. unfold c. rewrite markers_only_skip by done.
    unfold ts. cbn [marked_turns truncate_progressive truncate_markers_only].
    change (prompt_index (u <| prompt_index := Some m |>)) with (Some m). cbn iota. case_if; [done|].
    apply progressive_seen.
  - intros Hl. rewrite Hl, N.eqb_refl. unfold count_legacy_turns_until_marker in Hl.
    unfold c. rewrite progressive_cut by (done || lia). pose proof (legacy_le k pre 0 false 0).
    rewrite take_app_le by lia. done.
  - intros Hl. case_if; [apply N.eqb_eq in E; lia|]. rewrite Hk. replace (N.to_nat (k - m)) with 0%nat by lia.
    apply app_nil_r.
Qed.

Definition typed (s : string) : UserItem := mkUser [Text s] None None None.

Lemma going_back_keeps_the_turns_before_witness :
  let pre := [System "sys"; user "<user_info>"] in
  let turns := [(typed "one", [assistant "1"; user "injected"]); (typed "two", [assistant "2"]); (typed "three", [])] in
  let c := pre ++ marked_turns 0 turns in
  unmarked pre
  ∧ take (conversation_truncate_for_prompt c 1) c = pre ++ marked_turns 0 (take 1 turns)
  ∧ length (take (conversation_truncate_for_prompt c 1) c) = 5%nat.
Proof.
  intros pre turns c. assert (unmarked pre) as Hp by (repeat constructor).
  split; [exact Hp|]. split; [|vm_compute; reflexivity].
  refine (proj1 (going_back_keeps_the_turns_before pre 0 (typed "one") [assistant "1"; user "injected"]
    [(typed "two", [assistant "2"]); (typed "three", [])] 1 Hp _) _); [repeat constructor|lia].
Defined.
