(* ===== verification/HistoryPrep.v ===== *)
(** * Preparing a history for a summary, and the history after one
      (xai-chat-state/src/compaction_utils.rs)

    What is dropped and shortened before a conversation is summarised, which
    messages are the user's own, how the summary is cleaned, and how the history
    that replaces the conversation is put together and checked. *)

From Stdlib Require Import Ascii String.
From S2P Require Import Prelude RustStr TrimLemmas Conversation.
From stdpp Require Import options.

#[local] Open Scope N_scope.

(** ** What is dropped *)

Definition flatten_calls (a : AssistantItem) : AssistantItem :=
  if is_nil (tool_calls a) then a
  else
    let info := nl +:+ "[Called tools: " +:+ join ", " (map call_name (tool_calls a)) +:+ "]" in
    a <| answer := if is_empty (answer a) then info else answer a +:+ info |> <| tool_calls := [] |>.

Definition strip_tool_messages_for_conversation_item (c : list ConversationItem) : list ConversationItem :=
  omap (λ i, match i with
             | ToolResult _ => None
             | Assistant a => Some (Assistant (flatten_calls a))
             | other => Some other
             end) c.

Definition strip_reasoning_blocks (c : list ConversationItem) : list ConversationItem :=
  bfilter (λ i, negb (is_reasoning i)) c.

Definition strip_image (p : ContentPart) : ContentPart := match p with Image _ => Text "[image]" | p => p end.
Definition strip_images (c : list ConversationItem) : list ConversationItem :=
  map (λ i, match i with User u => User (u <| parts := map strip_image (parts u) |>) | other => other end) c.

Definition prepare_conversation_for_summarization (c : list ConversationItem) : list ConversationItem :=
  strip_images (strip_reasoning_blocks (strip_tool_messages_for_conversation_item c)).

Definition prepare_conversation_for_segment (c : list ConversationItem) : list ConversationItem :=
  strip_images (strip_reasoning_blocks c).

Definition calls_tools (i : ConversationItem) : bool :=
  match i with Assistant a => negb (is_nil (tool_calls a)) | _ => false end.

Fixpoint pop_calls (rev_items : list ConversationItem) : list ConversationItem :=
  match rev_items with
  | i :: l => if calls_tools i then pop_calls l else rev_items
  | [] => []
  end.
Definition truncate_trailing_incomplete_tool_call (c : list ConversationItem) : list ConversationItem :=
  rev (pop_calls (rev c)).

Definition prepare_conversation_for_verbatim_summarization (c : list ConversationItem) (strip_reasoning : bool)
  : list ConversationItem :=
  truncate_trailing_incomplete_tool_call (if strip_reasoning then strip_reasoning_blocks c else c).

(** ** Shrinking to a budget *)

Definition MARKER_RESERVE : N := 64.

(** The largest boundary of a character that is not after [end_]. *)
Fixpoint boundary_before (s : string) (end_ : nat) : nat :=
  match end_ with
  | O => O
  | S e => if is_char_boundary end_ s then end_ else boundary_before s e
  end.

Definition truncation_marker (dropped : N) : string :=
  nl +:+ "[... truncated " +:+ pretty dropped +:+ " bytes to fit the compaction window ...]".

Definition truncate_text_to_bytes (s : string) (max_bytes : N) : option string :=
  if str_len s <=? max_bytes then None
  else
    let keep := max_bytes - MARKER_RESERVE in
    let end_ := boundary_before s (N.to_nat (N.min keep (str_len s))) in
    Some (take_bytes end_ s +:+ truncation_marker (str_len s - N.of_nat end_)).

Definition truncated (s : string) (max_bytes : N) : string := default s (truncate_text_to_bytes s max_bytes).

Definition truncate_part (max_bytes : N) (p : ContentPart) : ContentPart :=
  match p with Text s => Text (truncated s max_bytes) | p => p end.

Definition truncate_item_to_tokens (i : ConversationItem) (max_tokens : N) : ConversationItem :=
  let max_bytes := N.min (max_tokens * 4) u64_max in
  match i with
  | ToolResult t => ToolResult (t <| output := truncated (output t) max_bytes |>)
  | Assistant a => Assistant (a <| answer := truncated (answer a) max_bytes |>)
  | User u => User (u <| parts := map (truncate_part max_bytes) (parts u) |>)
  | other => other
  end.

(** How many items from the end fit in what remains. *)
Fixpoint fitting (remaining : N) (rev_costs : list N) : nat :=
  match rev_costs with
  | [] => 0
  | cost :: l => if remaining <? cost then 0%nat else S (fitting (remaining - cost) l)
  end.

Fixpoint skip_results (l : list (ConversationItem * N)) : list (ConversationItem * N) :=
  match l with
  | (ToolResult _, _) :: l => skip_results l
  | _ => l
  end.

(** The results at the end, in order, and what is before them, last one first. *)
Fixpoint pop_results (rev_body : list (ConversationItem * N)) (acc : list ConversationItem)
  : list ConversationItem * list (ConversationItem * N) :=
  match rev_body with
  | (ToolResult t, _) :: l => pop_results l (ToolResult t :: acc)
  | _ => (acc, rev_body)
  end.

Definition recover_truncated_tail_unit (body : list (ConversationItem * N)) (budget : N) : list ConversationItem :=
  let '(results, before) := pop_results (rev body) [] in
  if is_nil results then
    match before with
    | (i, _) :: _ => [truncate_item_to_tokens i budget]
    | [] => []
    end
  else
    let owner := match before with (i, c) :: _ => if calls_tools i then Some (i, c) else None | [] => None end in
    let result_budget := budget - from_option snd 0 owner in
    let per := N.max (result_budget / N.of_nat (length results)) 1 in
    match owner with Some (o, _) => [o] | None => [] end ++ map (λ r, truncate_item_to_tokens r per) results.

Definition fit_conversation_to_budget (c : list ConversationItem) (max_tokens : N) : option (list ConversationItem) :=
  costs ← mapM estimate_item_tokens c;
  if sum_N costs <=? max_tokens then Some c
  else
    let priced := zip c costs in
    let '(head, body) := match priced with (System s, n) :: body => ([(System s, n)], body) | _ => ([], priced) end in
    let budget := max_tokens - sum_N (map snd head) in
    let start := (length body - fitting budget (rev (map snd body)))%nat in
    let tail := skip_results (skipn start body) in
    Some (map fst head ++ if is_nil tail then recover_truncated_tail_unit body budget else map fst tail).

(** ** The user's own words *)

Definition SYSTEM_TAGS : list string :=
  ["user_info"; "project_layout"; "git_status"; "fork-context"; "system-reminder"; "agent-memory";
   "system_reminder"; "background_context"; "command-name"; "command-message"; "command-args"].

(** Each round removes a whole block, so the length of the text is enough. *)
Fixpoint strip_tag (fuel : nat) (open close s : string) : string :=
  match fuel with
  | O => s
  | S fuel =>
      match find open s with
      | Some start =>
          match find close (drop_bytes start s) with
          | Some rel =>
              let end_pos := (start + rel + String.length close)%nat in
              strip_tag fuel open close (take_bytes start s +:+ drop_bytes end_pos s)
          | None => s
          end
      | None => s
      end
  end.

Definition strip_system_tags (text : string) : string :=
  trim (foldl (λ s tag, strip_tag (String.length s) ("<" +:+ tag +:+ ">") ("</" +:+ tag +:+ ">") s) text SYSTEM_TAGS).

Definition extract_user_query (text : string) : string :=
  match find "<user_query>" text with
  | Some start =>
      let content := drop_bytes (start + String.length "<user_query>") text in
      match find "</user_query>" content with
      | Some end_ => strip_system_tags (trim (take_bytes end_ content))
      | None => strip_system_tags text
      end
  | None => strip_system_tags text
  end.

Definition AUTO_CONTINUE_PROMPT : string :=
  "Continue the conversation from where it left off without asking the user any further questions. Resume directly - do not acknowledge the summary, do not recap what was happening, do not preface with "
  +:+ quote +:+ "I'll continue" +:+ quote +:+ " or similar." +:+ nl +:+ "Pick up the last task as if the break never happened.".

Definition is_synthetic_extracted_query (text : string) : bool :=
  is_empty text || String.eqb text "__auto_continue__" || String.eqb text AUTO_CONTINUE_PROMPT.

Definition is_real_user_turn (i : ConversationItem) : bool :=
  match i with
  | User u =>
      match synthetic_reason u with
      | Some _ => false
      | None => any is_image (parts u) || negb (is_synthetic_extracted_query (extract_user_query (user_text u)))
      end
  | _ => false
  end.

Definition query_of (i : ConversationItem) : option string :=
  match i with User u => Some (extract_user_query (user_text u)) | _ => None end.

Fixpoint last_such {A} (f : A → bool) (l : list A) : option A :=
  match l with
  | [] => None
  | x :: l => match last_such f l with Some y => Some y | None => if f x then Some x else None end
  end.

Definition extract_last_user_query (c : list ConversationItem) : option string :=
  q ← last_such is_user c ≫= query_of; if is_empty q then None else Some q.

Definition extract_real_user_queries (c : list ConversationItem) : list string :=
  omap query_of (bfilter is_real_user_turn c).

Definition extract_last_real_user_query (c : list ConversationItem) : option string :=
  last_such is_real_user_turn c ≫= query_of.

Definition omitted_output (i : ConversationItem) : option ConversationItem :=
  match i with
  | Assistant a => Some (Assistant a)
  | ToolResult t => Some (ToolResult (mkResult (tool_call_id t) "Tool call omitted..." []))
  | _ => None
  end.

(** The items after the last one that satisfies [f]; all of them if none does. *)
Fixpoint after_last {A} (f : A → bool) (l : list A) : list A :=
  match l with
  | [] => []
  | x :: l' => if any f l' then after_last f l' else if f x then l' else l
  end.

Definition extract_messages_since_last_user (c : list ConversationItem) : list ConversationItem :=
  omap omitted_output (after_last is_user c).

Definition extract_messages_since_last_real_user (c : list ConversationItem) : list ConversationItem :=
  omap omitted_output (after_last is_real_user_turn c).

(** ** Cleaning the summary *)

(** [&s[a..b]] between two boundaries the code has found. *)
Definition sub (a b : nat) (s : string) : string := take_bytes (b - a) (drop_bytes a s).

(** One scratchpad at the front is removed in each round. *)
Fixpoint strip_analysis (fuel : nat) (result : string) : string :=
  match fuel with
  | O => result
  | S fuel =>
      match find "<analysis>" result with
      | None => result
      | Some start =>
          let is_leading :=
            match find "<summary>" result with
            | Some sp => (start <? sp)%nat || is_empty (trim (sub (sp + String.length "<summary>") start result))
            | None => is_empty (trim (take_bytes start result))
            end in
          if negb is_leading then result
          else
            match find "</analysis>" (drop_bytes start result) with
            | Some rel =>
                strip_analysis fuel
                  (take_bytes start result +:+ drop_bytes (start + rel + String.length "</analysis>") result)
            | None =>
                let drop_to := match find "<summary>" (drop_bytes start result) with
                               | Some rel => (start + rel)%nat
                               | None => String.length result
                               end in
                take_bytes start result +:+ drop_bytes drop_to result
            end
      end
  end.

Definition is_decoration (c : ascii) : bool :=
  contains c ["#"; "*"; "-"; ">"; " "; "009"]%char.

Definition starts_with_digit (s : string) : bool :=
  match s with String c _ => is_ascii_digit c | EmptyString => false end.

Definition strip_leading_scratchpad (inner : string) : string :=
  let s := trim inner in
  let s := if starts_with_digit (drop_while is_decoration s) then s
           else match rfind "</analysis>" s with
                | Some pos => trim_start (drop_bytes (pos + String.length "</analysis>") s)
                | None => s
                end in
  match strip_prefix "<summary>" s with Some rest => trim_start rest | None => s end.

Definition ZWSP : string := byte_str [226; 128; 139]%nat.

(** The tokens and what stands after the [<] of each, closers first. *)
Definition control_bodies : list string :=
  ["/summary>"; "summary>"; "/analysis>"; "analysis>"; "/summary_request>"; "summary_request>"].

Definition neutralize_compaction_control_tokens (text : string) : string :=
  foldl (λ s body, replace_str ("<" +:+ body) ("<" +:+ ZWSP +:+ body) s) text control_bodies.

Definition triple : string := nl +:+ nl +:+ nl.

(** Each round makes the text shorter. *)
Fixpoint collapse_newlines (fuel : nat) (s : string) : string :=
  match fuel with
  | O => s
  | S fuel => if str_contains triple s then collapse_newlines fuel (replace_str triple (nl +:+ nl) s) else s
  end.

Definition unwrap_summary (result : string) : string :=
  match find "<summary>" result, rfind "</summary>" result with
  | Some start, Some end_ =>
      if (start <? end_)%nat then
        take_bytes start result +:+ "Summary:" +:+ nl
        +:+ strip_leading_scratchpad (trim (sub (start + String.length "<summary>") end_ result))
        +:+ drop_bytes (end_ + String.length "</summary>") result
      else result
  | _, _ => result
  end.

Definition format_compact_summary (summary : string) : string :=
  let result := neutralize_compaction_control_tokens (unwrap_summary (strip_analysis (String.length summary) summary)) in
  trim (collapse_newlines (String.length result) result).

Definition format_compact_summary_content (raw_summary : string) : string :=
  "This session is being continued from a previous conversation that ran out of context. The summary below covers the earlier portion of the conversation."
  +:+ nl +:+ nl +:+ format_compact_summary raw_summary.

Definition MIN_SUMMARY_SEED_CHARS : nat := N.to_nat 500.
Definition is_degenerate_summary (raw_summary : string) : bool :=
  (char_count (format_compact_summary raw_summary) <? MIN_SUMMARY_SEED_CHARS)%nat.

Definition bound_captured_output (s : string) (max_chars : nat) : string :=
  let total := char_count s in
  if (total <=? max_chars)%nat then s
  else
    let head := (max_chars / 2)%nat in
    let tail := (max_chars - head)%nat in
    take_chars head s +:+ nl +:+ nl +:+ "…[" +:+ pretty (N.of_nat (total - head - tail)) +:+ " chars elided]…" +:+ nl +:+ nl
    +:+ drop_chars (total - tail) s.

Definition format_transcript_location (path : string) : string :=
  nl +:+ nl +:+ "<transcript_location>" +:+ nl
  +:+ "The full, unsummarized transcript of this conversation is saved at:" +:+ nl +:+ path +:+ nl
  +:+ "If you need details that were dropped from the summary above (exact code, error text, file contents, or earlier tool output), read this file to recover them."
  +:+ nl +:+ "</transcript_location>".

Definition wrap_user_query (text : string) : string := "<user_query>" +:+ nl +:+ text +:+ nl +:+ "</user_query>".

(** ** The history after a summary *)

Record CompactedHistoryInput : Type := mkCompacted {
  system_message : ConversationItem;
  user_message_prefix : string;
  agents_md_reminder : option string;
  recent_messages : list ConversationItem;
  last_user_query : option string;
  compaction_summary : string;
  rendered_reminder : option string;
  transcript_hint : option string;
}.

(** The carrier that puts the summary first is not compiled in: the summary
    comes after the recent messages. *)
Definition summary_before_recent_carrier (input : CompactedHistoryInput) : option string := None.

Definition build_compacted_history (input : CompactedHistoryInput) : list ConversationItem :=
  let carrier := summary_before_recent_carrier input in
  let summary_item :=
    match carrier with
    | Some text => user_meta text
    | None => user_meta (format_compact_summary_content (compaction_summary input)
                         +:+ default "" (transcript_hint input))
    end in
  [system_message input; user_meta (user_message_prefix input)]
  ++ match agents_md_reminder input with Some r => [project_instructions r] | None => [] end
  ++ match last_user_query input with Some q => [user (wrap_user_query q)] | None => [] end
  ++ (if carrier is Some _ then summary_item :: recent_messages input else recent_messages input ++ [summary_item])
  ++ match rendered_reminder input with Some r => [system_reminder r] | None => [] end.

(** ** Orphaned results *)

Record SanitizeResult : Type := mkSanitized {
  items : list ConversationItem;
  stripped_tool_call_ids : list string;
}.

Fixpoint validate_go (seen : list string) (l : list ConversationItem) : list string :=
  match l with
  | [] => []
  | Assistant a :: l => validate_go (map call_id (tool_calls a) ++ seen) l
  | ToolResult t :: l =>
      if contains (tool_call_id t) seen then validate_go seen l else tool_call_id t :: validate_go seen l
  | _ :: l => validate_go seen l
  end.
Definition validate_compacted_history (l : list ConversationItem) : list string := validate_go [] l.

Fixpoint sanitize_go (seen : list string) (l : list ConversationItem) : list ConversationItem * list string :=
  match l with
  | [] => ([], [])
  | Assistant a :: l =>
      let '(l, ids) := sanitize_go (map call_id (tool_calls a) ++ seen) l in (Assistant a :: l, ids)
  | ToolResult t :: l =>
      let '(l, ids) := sanitize_go seen l in
      if contains (tool_call_id t) seen then (ToolResult t :: l, ids) else (l, tool_call_id t :: ids)
  | i :: l => let '(l, ids) := sanitize_go seen l in (i :: l, ids)
  end.
Definition sanitize_compacted_history (l : list ConversationItem) : SanitizeResult :=
  let '(l, ids) := sanitize_go [] l in mkSanitized l ids.
