(* ===== verification/HistoryPrepFacts.v ===== *)
(** * Preparing a history: lemmas and theorems

    A cleaned summary holds no control token; shrinking to a budget keeps the
    longest end that fits; sanitizing leaves no result without its call; the loops
    on texts have fuel enough. *)

From Stdlib Require Import Ascii String.
From S2P Require Import Prelude RustStr TrimLemmas SkepticPanelFacts Conversation ConversationFacts HistoryPrep.
From stdpp Require Import options.

#[local] Open Scope nat_scope.

(** ** Control tokens *)

Definition token_free (s : string) : Prop := ∀ body, body ∈ control_bodies → str_contains ("<" +:+ body) s = false.

Section tokens.

Lemma contains_app_l p x y : str_contains p (x +:+ y) = false → str_contains p x = false.
Proof.
  induction x as [|c x IH]; intros H.
  - rewrite str_app_nil_l in H. destruct p as [|a p]; [|by apply str_contains_nil].
    by destruct y.
  - rewrite str_app_cons, str_contains_cons in H. apply orb_false_iff in H as [H1 H2].
    rewrite str_contains_cons, IH by done. rewrite orb_false_r. apply not_true_iff_false.
    intros [t E]%starts_with_spec. rewrite <-str_app_cons, E, str_app_assoc, starts_with_app in H1. done.
Qed.

Lemma contains_trim p s : str_contains p s = false → str_contains p (trim s) = false.
Proof.
  intros H. destruct (trim_start_split s) as (ws & E & _). rewrite E in H. apply str_contains_app_r in H.
  destruct (trim_end_split (trim_start s)) as (ws' & E' & _). rewrite E' in H. by apply contains_app_l in H.
Qed.

Lemma starts_with_collapse w s : char_free newline w = true →
  starts_with w (replace_str triple (nl +:+ nl) s) = true → starts_with w s = true.
Proof.
  revert s. induction w as [|a w IH]; intros s Hw; [by destruct s|].
  unfold char_free in Hw. cbn in Hw. apply andb_true_iff in Hw as [Ha Hw].
  destruct s as [|c s]; [done|]. destruct (starts_with triple (String c s)) eqn:Ep.
  - apply starts_with_spec in Ep as [s' ->]. rewrite replace_str_hit by done.
    unfold nl. rewrite !str_app_cons, starts_with_cons.
    intros [E%Ascii.eqb_eq _]%andb_true_iff. subst a. done.
  - rewrite replace_str_miss by done. rewrite !starts_with_cons. intros [-> H]%andb_true_iff. by apply IH.
Qed.

Lemma contains_newline p s : p ≠ "" → char_free newline p = true →
  str_contains p (String newline s) = str_contains p s.
Proof.
  intros Hne Hp. rewrite <-(str_app_nil_l (String newline s)), str_contains_sep by done. by rewrite str_contains_nil.
Qed.

Lemma collapse_absent p s : p ≠ "" → char_free newline p = true →
  str_contains p s = false → str_contains p (replace_str triple (nl +:+ nl) s) = false.
Proof.
  intros Hne Hp Hs. remember (String.length s) as n eqn:En.
  revert s Hs En. induction n as [n IH] using lt_wf_ind. intros s Hs En.
  destruct (starts_with triple s) eqn:Ep.
  - apply starts_with_spec in Ep as [s' ->]. rewrite replace_str_hit by done.
    change (triple +:+ s') with (String newline (String newline (String newline s'))) in *.
    change ((nl +:+ nl) +:+ replace_str triple (nl +:+ nl) s')
      with (String newline (String newline (replace_str triple (nl +:+ nl) s'))).
    rewrite !contains_newline in * by done.
    eapply (IH (String.length s')); [subst n; cbn; lia|done|done].
  - destruct s as [|c s]; [by apply str_contains_nil|]. rewrite replace_str_miss by done.
    rewrite str_contains_cons in Hs. apply orb_false_iff in Hs as [Hs1 Hs2]. rewrite str_contains_cons. apply orb_false_iff.
    split; [|eapply (IH (String.length s)); [subst n; cbn; lia|done|done]].
    apply not_true_iff_false. intros H. destruct p as [|a p]; [done|].
    rewrite starts_with_cons in H. apply andb_true_iff in H as [E H].
    unfold char_free in Hp. cbn in Hp. apply andb_true_iff in Hp as [_ Hp].
    apply (starts_with_collapse p s Hp) in H. by rewrite starts_with_cons, E, H in Hs1.
Qed.

Lemma collapse_newlines_absent p n s : p ≠ "" → char_free newline p = true →
  str_contains p s = false → str_contains p (collapse_newlines n s) = false.
Proof. intros Hne Hp. revert s. induction n as [|n IH]; intros s Hs; cbn; [done|]. case_if; [|done]. by apply IH, collapse_absent. Qed.

Lemma control_body t : t ∈ control_bodies →
  t ≠ "" ∧ char_free "<" t = true ∧ char_free newline ("<" +:+ t) = true ∧ ∀ y, starts_with t (ZWSP +:+ y) = false.
Proof.
  intros Ht. repeat (apply elem_of_cons in Ht as [->|Ht]; [split_and!; [done|by vm_compute|by vm_compute|done]|]).
  by apply elem_of_nil in Ht.
Qed.

Lemma neutralize_token_free s : token_free (neutralize_compaction_control_tokens s).
Proof.
  unfold neutralize_compaction_control_tokens.
  assert (∀ done todo s, (∀ t, t ∈ done → str_contains ("<" +:+ t) s = false) →
    (∀ t, t ∈ done ++ todo → t ∈ control_bodies) →
    ∀ t, t ∈ done ++ todo →
    str_contains ("<" +:+ t) (foldl (λ s body, replace_str ("<" +:+ body) ("<" +:+ ZWSP +:+ body) s) s todo) = false) as H.
  { intros dn todo. revert dn. induction todo as [|u todo IH]; intros dn s' Hd Hin t Ht; cbn [foldl].
    - rewrite app_nil_r in Ht. by apply Hd.
    - apply (IH (dn ++ [u])).
      + intros t' Ht'.
        assert (t' ∈ control_bodies) as Hc' by (apply Hin; set_solver).
        assert (u ∈ control_bodies) as Hu by (apply Hin; set_solver).
        destruct (control_body t' Hc') as (Hne & Hf & _ & Hz). destruct (control_body u Hu) as (_ & Hfu & _).
        apply (replace_removes "<" u ZWSP); [done|by vm_compute|done|done|intros y; apply Hz|].
        apply elem_of_app in Ht' as [Ht'|Ht']; [right; by apply Hd|left; by apply list_elem_of_singleton in Ht'].
      + intros t' Ht'. apply Hin. set_solver.
      + set_solver. }
  intros t Ht. by apply (H [] control_bodies); [intros t' ?%elem_of_nil| |].
Qed.

End tokens.

(** ** The fuel of the loops is enough

    Every round of the loops on texts makes the text shorter, so one unit for each
    byte is enough: with more fuel nothing changes. *)

Section fuel.

Lemma length_take_bytes n s : String.length (take_bytes n s) = Nat.min n (String.length s).
Proof. revert s. induction n as [|n IH]; intros [|c s]; cbn; [done..|]. by rewrite IH. Qed.

Lemma length_drop_bytes n s : String.length (drop_bytes n s) = String.length s - n.
Proof. revert s. induction n as [|n IH]; intros [|c s]; cbn; [done..|]. by rewrite IH. Qed.

Lemma find_bound p s i : find p s = Some i → i + String.length p ≤ String.length s.
Proof.
  revert i. induction s as [|c s IH]; intros i; cbn [find].
  - destruct (starts_with p "") eqn:E; [|done]. intros [= <-]. apply starts_with_spec in E as [t E]. by destruct p.
  - destruct (starts_with p (String c s)) eqn:E.
    + intros [= <-]. apply starts_with_spec in E as [t ->]. rewrite str_length_app. lia.
    + destruct (find p s) as [j|]; cbn; [|done]. intros [= <-]. specialize (IH j eq_refl). cbn. lia.
Qed.

(** What is left when a piece is cut out. *)
Lemma length_cut a b s : a < b → b ≤ String.length s → String.length (take_bytes a s +:+ drop_bytes b s) < String.length s.
Proof. intros Ha Hb. rewrite str_length_app, length_take_bytes, length_drop_bytes. lia. Qed.

Lemma strip_tag_fuel open close s n m : close ≠ "" → String.length s ≤ n → String.length s ≤ m →
  strip_tag n open close s = strip_tag m open close s.
Proof.
  intros Hc. assert (0 < String.length close) as Hl by (destruct close; [done|cbn; lia]).
  assert (∀ k, String.length s ≤ k → strip_tag k open close s = strip_tag (String.length s) open close s) as H;
    [|intros Hn Hm; by rewrite (H n Hn), (H m Hm)].
  remember (String.length s) as l eqn:El. revert s El. induction l as [l IH] using lt_wf_ind. intros s El k Hk.
  destruct (find open s) as [start|] eqn:Eo; [|destruct k, l; cbn; by rewrite ?Eo].
  destruct (find close (drop_bytes start s)) as [rel|] eqn:Ec; [|destruct k, l; cbn; by rewrite ?Eo, ?Ec].
  pose proof (find_bound _ _ _ Ec) as Hb. rewrite length_drop_bytes in Hb.
  pose proof (length_cut start (start + rel + String.length close) s ltac:(lia) ltac:(lia)) as Hcut.
  destruct l as [|l]; [lia|]. destruct k as [|k]; [lia|]. cbn [strip_tag]. rewrite Eo, Ec.
  match type of Hcut with String.length ?x < _ => set (s' := x) in * end.
  rewrite (IH (String.length s') ltac:(lia) s' eq_refl k) by lia. symmetry.
  apply (IH (String.length s') ltac:(lia) s' eq_refl l). lia.
Qed.

Lemma strip_analysis_fuel s n m : String.length s ≤ n → String.length s ≤ m → strip_analysis n s = strip_analysis m s.
Proof.
  assert (∀ k, String.length s ≤ k → strip_analysis k s = strip_analysis (String.length s) s) as H;
    [|intros Hn Hm; by rewrite (H n Hn), (H m Hm)].
  remember (String.length s) as l eqn:El. revert s El. induction l as [l IH] using lt_wf_ind. intros s El k Hk.
  destruct l as [|l]; [destruct s; [|done]; destruct k; [done|]; by vm_compute|].
  destruct k as [|k]; [lia|]. cbn [strip_analysis]. destruct (find "<analysis>" s) as [start|] eqn:Es; [|done].
  match goal with |- context [negb ?b] => destruct b; cbn [negb]; [|done] end.
  destruct (find "</analysis>" (drop_bytes start s)) as [rel|] eqn:Ec; [|done].
  pose proof (find_bound _ _ _ Ec) as Hb. rewrite length_drop_bytes in Hb.
  assert (0 < String.length "</analysis>") as Hl by (cbn; lia).
  pose proof (length_cut start (start + rel + String.length "</analysis>") s ltac:(lia) ltac:(lia)) as Hcut.
  match type of Hcut with String.length ?x < _ => set (s' := x) in * end.
  rewrite (IH (String.length s') ltac:(lia) s' eq_refl k) by lia. symmetry.
  apply (IH (String.length s') ltac:(lia) s' eq_refl l). lia.
Qed.

Lemma length_collapse s : String.length (replace_str triple (nl +:+ nl) s) ≤ String.length s
  ∧ (str_contains triple s = true → String.length (replace_str triple (nl +:+ nl) s) < String.length s).
Proof.
  remember (String.length s) as n eqn:En. revert s En. induction n as [n IH] using lt_wf_ind. intros s ->.
  destruct (starts_with triple s) eqn:Ep.
  - apply starts_with_spec in Ep as [s' ->]. rewrite replace_str_hit by done. rewrite !str_length_app.
    assert (String.length s' < String.length (triple +:+ s')) as Hlt.
    { rewrite str_length_app. change (String.length triple) with 3. lia. }
    destruct (IH (String.length s') Hlt s' eq_refl) as [H _].
    change (String.length triple) with 3. change (String.length nl) with 1. split; [lia|]. intros _. lia.
  - destruct s as [|c s]; [by vm_compute|]. rewrite replace_str_miss, str_contains_cons, Ep by done.
    destruct (IH (String.length s) ltac:(cbn; lia) s eq_refl) as [H1 H2]. cbn. split; [lia|]. intros Hc. specialize (H2 Hc). lia.
Qed.

(** The loop runs until there are no three line ends in a row. *)
Lemma collapse_newlines_done n s : String.length s ≤ n → str_contains triple (collapse_newlines n s) = false.
Proof.
  revert s. induction n as [|n IH]; intros s Hn; cbn.
  - destruct s; [|cbn in Hn; lia]. by vm_compute.
  - case_if; [|done]. apply IH. destruct (length_collapse s) as [_ H]. specialize (H E). lia.
Qed.

End fuel.

(** ** Budgets *)

Definition cost (i : ConversationItem) : N := default 0%N (estimate_item_tokens i).
Definition total_cost (l : list ConversationItem) : N := sum_N (map cost l).
Definition starts_with_result (l : list ConversationItem) : bool :=
  match l with i :: _ => is_tool_result i | [] => false end.
Definition priced_items (l : list ConversationItem) : list (ConversationItem * N) := map (λ i, (i, cost i)) l.

Section budget.

Lemma sum_N_app l l' : sum_N (l ++ l') = (sum_N l + sum_N l')%N.
Proof. induction l as [|n l IH]; cbn; [done|]. fold (sum_N (l ++ l')) (sum_N l). rewrite IH. lia. Qed.

Lemma total_cost_app l l' : total_cost (l ++ l') = (total_cost l + total_cost l')%N.
Proof. unfold total_cost. by rewrite map_app, sum_N_app. Qed.

Lemma prices l ns : mapM estimate_item_tokens l = Some ns → ns = map cost l.
Proof.
  revert ns. induction l as [|i l IH]; intros ns; cbn; [by intros [= <-]|].
  destruct (estimate_item_tokens i) as [n|] eqn:E; cbn; [|done].
  destruct (mapM estimate_item_tokens l) as [ns'|]; cbn; [|done]. intros [= <-]. unfold cost at 1. rewrite E. cbn. f_equal. by apply IH.
Qed.

Lemma zip_prices l : zip l (map cost l) = priced_items l.
Proof. induction l as [|i l IH]; cbn; [done|]. unfold priced_items in IH. by rewrite IH. Qed.

Lemma fitting_spec r rc : (fitting r rc ≤ length rc) ∧ (sum_N (take (fitting r rc) rc) ≤ r)%N
  ∧ ∀ m, m ≤ length rc → (sum_N (take m rc) ≤ r)%N → m ≤ fitting r rc.
Proof.
  revert r. induction rc as [|n rc IH]; intros r; cbn; [split_and!; [done|lia|intros m; lia]|].
  destruct (r <? n)%N eqn:E.
  - apply N.ltb_lt in E. split_and!; [lia|cbn; lia|]. intros [|m] Hm; [lia|]. cbn. fold (sum_N (take m rc)). lia.
  - apply N.ltb_ge in E. destruct (IH (r - n)%N) as (H1 & H2 & H3). cbn.
    fold (sum_N (take (fitting (r - n) rc) rc)). split_and!; [lia|lia|].
    intros [|m] Hm; [lia|]. cbn. fold (sum_N (take m rc)). intros Hs. enough (m ≤ fitting (r - n) rc) by lia. apply H3; lia.
Qed.

Lemma map_priced l : map snd (priced_items l) = map cost l.
Proof. unfold priced_items. by rewrite map_map. Qed.
Lemma map_priced_fst l : map fst (priced_items l) = l.
Proof. unfold priced_items. rewrite map_map. cbn. apply map_id. Qed.

Lemma sum_N_rev l : sum_N (rev l) = sum_N l.
Proof. induction l as [|n l IH]; [done|]. cbn [rev]. rewrite sum_N_app, IH. cbn. fold (sum_N l). lia. Qed.

(** The end of [body] of a length, priced from its last item on. *)
Lemma end_cost body m : m ≤ length body →
  total_cost (skipn (length body - m) body) = sum_N (take m (rev (map cost body))).
Proof.
  intros Hm. unfold total_cost. rewrite <-(sum_N_rev (map cost (skipn _ body))). f_equal.
  rewrite <-skipn_map. rewrite firstn_rev, length_map. done.
Qed.

Lemma skip_results_spec l : ∃ results, l = results ++ map fst (skip_results (priced_items l))
  ∧ Forall (λ i, is_tool_result i = true) results
  ∧ starts_with_result (map fst (skip_results (priced_items l))) = false.
Proof.
  induction l as [|i l (rs & E & Hf & Hs)]; [by exists []|].
  destruct i as [| | |t| |]; try (exists []; split_and!; [|constructor|]; cbn; by rewrite ?map_priced_fst).
  exists (ToolResult t :: rs). cbn [priced_items map skip_results]. split_and!; [cbn; by f_equal|by constructor|exact Hs].
Qed.

Lemma skipn_priced n l : skipn n (priced_items l) = priced_items (skipn n l).
Proof. unfold priced_items. by rewrite skipn_map. Qed.

(** The end that is kept: it fits, it does not begin with a result, and no
    longer end has both. *)
Lemma kept_end budget body :
  let kept := map fst (skip_results (skipn (length (priced_items body)
                - fitting budget (rev (map snd (priced_items body)))) (priced_items body))) in
  ∃ dropped, body = dropped ++ kept ∧ (total_cost kept ≤ budget)%N ∧ starts_with_result kept = false
    ∧ ∀ d k, body = d ++ k → (total_cost k ≤ budget)%N → starts_with_result k = false → length k ≤ length kept.
Proof.
  rewrite map_priced, skipn_priced. unfold priced_items at 2. rewrite (length_map _ body). cbn zeta.
  destruct (fitting_spec budget (rev (map cost body))) as (H1 & H2 & H3). rewrite length_rev, length_map in H1, H3.
  set (n := fitting budget (rev (map cost body))) in *. set (tail := skipn (length body - n) body).
  destruct (skip_results_spec tail) as (rs & E & Hf & Hs). set (kept := map fst (skip_results (priced_items tail))) in *.
  exists (firstn (length body - n) body ++ rs). split_and!.
  - rewrite <-app_assoc, <-E. symmetry. apply firstn_skipn.
  - pose proof (end_cost body n H1) as Hc. fold tail in Hc. rewrite E, total_cost_app in Hc. lia.
  - exact Hs.
  - intros d k Ek Hk Hr. assert (length k ≤ n) as Hn.
    { apply H3; [rewrite Ek, length_app; lia|]. rewrite <-end_cost by (rewrite Ek, length_app; lia).
      replace (skipn (length body - length k) body) with k; [exact Hk|]. rewrite Ek, length_app.
      replace (length d + length k - length k) with (length d) by lia. by rewrite drop_app_length. }
    assert (∃ d', tail = d' ++ k) as [d' Ed'].
    { exists (skipn (length body - n) d). subst tail. rewrite Ek at 2. apply drop_app_le. rewrite Ek, length_app. lia. }
    destruct (decide (length k ≤ length kept)) as [Hle|Hlt]; [exact Hle|exfalso].
    assert (length d' < length rs) as Hd by (apply (f_equal length) in E, Ed'; rewrite length_app in *; lia).
    rewrite Ed' in E. destruct k as [|i k]; [cbn in Hlt; lia|]. cbn in Hr.
    assert (rs !! length d' = Some i) as Hi.
    { rewrite <-(lookup_app_l rs kept) by done. rewrite <-E. apply list_lookup_middle. done. }
    apply (Forall_lookup_1 _ _ _ _ Hf) in Hi. congruence.
Qed.

End budget.

(** ** The last turn, cut short *)

(** A text of at most [limit] bytes stays as it is. Of a longer one the longest
    prefix of whole characters is kept that leaves room for the marker, and the
    marker says how many bytes are gone. *)
Definition shortened (limit : N) (s s' : string) : Prop :=
  ((str_len s ≤ limit)%N ∧ s' = s)
  ∨ ((limit < str_len s)%N ∧
     ∃ n, s' = take_bytes n s +:+ truncation_marker (str_len s - N.of_nat n)
          ∧ (N.of_nat n ≤ limit - MARKER_RESERVE)%N ∧ (n = 0 ∨ is_char_boundary n s = true)
          ∧ ∀ m, is_char_boundary m s = true → (N.of_nat m ≤ limit - MARKER_RESERVE)%N → m ≤ n).

Definition shortened_part (limit : N) (p q : ContentPart) : Prop :=
  match p with Text s => ∃ s', q = Text s' ∧ shortened limit s s' | _ => q = p end.

(** An item with its texts cut to a number of tokens, at four bytes each. *)
Definition cut (tokens : N) (i j : ConversationItem) : Prop :=
  let limit := N.min (tokens * 4) u64_max in
  match i with
  | ToolResult t => ∃ s, j = ToolResult (t <| output := s |>) ∧ shortened limit (output t) s
  | Assistant a => ∃ s, j = Assistant (a <| answer := s |>) ∧ shortened limit (answer a) s
  | User u => ∃ ps, j = User (u <| parts := ps |>) ∧ Forall2 (shortened_part limit) (parts u) ps
  | _ => j = i
  end.

Definition all_results : list ConversationItem → Prop := Forall (λ i, is_tool_result i = true).

(** The part of a budget that each of some results gets, at least one token. *)
Definition share (budget : N) (results : list ConversationItem) : N := N.max 1 (budget / N.of_nat (length results)).

(** What is kept of a history no item of which fits: its last item, cut; or its
    last results, each cut to its share, behind the message that made their
    calls, which is kept as it is and counted, or without one. *)
Inductive last_turn (budget : N) : list ConversationItem → list ConversationItem → Prop :=
| last_item before i j : is_tool_result i = false → cut budget i j → last_turn budget (before ++ [i]) [j]
| last_calls before o results cuts :
    calls_tools o = true → results ≠ [] → all_results results →
    Forall2 (cut (share (budget - cost o) results)) results cuts →
    last_turn budget (before ++ o :: results) (o :: cuts)
| last_orphans before results cuts :
    results ≠ [] → all_results results → (∀ b i, before = b ++ [i] → is_tool_result i = false ∧ calls_tools i = false) →
    Forall2 (cut (share budget results)) results cuts →
    last_turn budget (before ++ results) cuts.

Section last_turn.

Lemma pop_results_spec rl : ∀ acc, ∃ rs before, rl = rs ++ before ∧ all_results (map fst rs)
  ∧ (∀ i n b, before = (i, n) :: b → is_tool_result i = false)
  ∧ pop_results rl acc = (rev (map fst rs) ++ acc, before).
Proof.
  induction rl as [|[i n] rl IH]; intros acc; [exists [], []; split_and!; [done|constructor|done|done]|].
  destruct (is_tool_result i) eqn:Ei.
  2: { exists [], ((i, n) :: rl). split_and!; [done|apply Forall_nil_2|by intros ??? [= <- _ _]|by destruct i]. }
  destruct i as [| | |t| |]; try discriminate Ei.
  destruct (IH (ToolResult t :: acc)) as (rs & before & -> & Hr & Hb & E).
  exists ((ToolResult t, n) :: rs), before. split_and!; [done|by constructor|done|].
  cbn [pop_results]. rewrite E. cbn. by rewrite <-app_assoc.
Qed.

Lemma all_results_rev l : all_results l → all_results (rev l).
Proof. unfold all_results. intros H. apply Forall_rev in H. exact H. Qed.

Lemma boundary_before_spec s n : boundary_before s n ≤ n
  ∧ (boundary_before s n = 0 ∨ is_char_boundary (boundary_before s n) s = true)
  ∧ ∀ m, is_char_boundary m s = true → m ≤ n → m ≤ boundary_before s n.
Proof.
  induction n as [|n (H1 & H2 & H3)]; [split_and!; [done|by left|lia]|]. cbn [boundary_before].
  destruct (is_char_boundary (S n) s) eqn:E; [split_and!; [lia|by right|lia]|]. split_and!; [lia|done|].
  intros m Hm Hle. destruct (decide (m = S n)) as [->|Hne]; [congruence|]. apply H3; [done|lia].
Qed.

Lemma truncated_spec limit s : shortened limit s (truncated s limit).
Proof.
  unfold truncated, truncate_text_to_bytes. destruct (str_len s <=? limit)%N eqn:E.
  - left. by apply N.leb_le in E.
  - apply N.leb_gt in E. right. split; [done|]. cbn [default from_option].
    set (end_ := N.to_nat _). destruct (boundary_before_spec s end_) as (H1 & H2 & H3).
    exists (boundary_before s end_). split_and!; [done|lia|done|]. intros m Hm Hle. apply H3; [done|lia].
Qed.

Lemma truncate_cuts i tokens : cut tokens i (truncate_item_to_tokens i tokens).
Proof.
  destruct i; cbn; try done; try (eexists; split; [reflexivity|apply truncated_spec]).
  eexists. split; [reflexivity|]. induction (parts u) as [|p ps IH]; cbn; constructor; [|done].
  destruct p; cbn; try done. eexists. split; [reflexivity|apply truncated_spec].
Qed.

Lemma truncate_all_cuts tokens l : Forall2 (cut tokens) l (map (λ r, truncate_item_to_tokens r tokens) l).
Proof. induction l as [|i l IH]; cbn; constructor; [apply truncate_cuts|done]. Qed.

Lemma recover_cuts body budget : body ≠ [] →
  last_turn budget body (recover_truncated_tail_unit (priced_items body) budget).
Proof.
  intros Hne. unfold recover_truncated_tail_unit.
  destruct (pop_results_spec (rev (priced_items body)) []) as (rs & before & E & Hr & Hb & ->). rewrite app_nil_r.
  assert (body = rev (map fst before) ++ rev (map fst rs)) as Eb.
  { rewrite <-(map_priced_fst body). rewrite <-(List.rev_involutive (priced_items body)), E.
    rewrite List.rev_app_distr, map_app, !map_rev. done. }
  apply all_results_rev in Hr. set (results := rev (map fst rs)) in *.
  destruct (is_nil results) eqn:En.
  - apply is_nil_true in En. rewrite En, app_nil_r in Eb. destruct before as [|[i n] before]; [done|].
    rewrite Eb. cbn. apply last_item; [by eapply Hb|apply truncate_cuts].
  - assert (results ≠ []) as Hn by (intros E'; by rewrite E' in En).
    destruct before as [|[o n] before].
    + rewrite Eb. cbn [from_option app]. rewrite N.sub_0_r, N.max_comm.
      apply last_orphans; [done|done|by intros [] ?|apply truncate_all_cuts].
    + destruct (calls_tools o) eqn:Ec; cbn [from_option snd app].
      * assert (n = cost o) as ->.
        { assert ((o, n) ∈ priced_items body) as Hin.
          { rewrite <-(List.rev_involutive (priced_items body)), E. apply list_elem_of_In. rewrite <-in_rev.
            apply in_or_app. right. by left. }
          apply list_elem_of_fmap in Hin as (i & [= -> ->] & _). done. }
        rewrite Eb. cbn. rewrite <-app_assoc, N.max_comm. apply last_calls; [done|done|done|apply truncate_all_cuts].
      * rewrite N.sub_0_r, N.max_comm, Eb. apply last_orphans; [done|done| |apply truncate_all_cuts].
        cbn. intros b i [_ [= <-]]%app_inj_tail. split; [by eapply Hb|done].
Qed.
End last_turn.

(** ** Orphaned results *)

Section sanitize.

Lemma sanitize_go_spec l : ∀ seen,
  (sanitize_go seen l).2 = validate_go seen l
  ∧ validate_go seen (sanitize_go seen l).1 = []
  ∧ ((sanitize_go seen l).2 = [] → (sanitize_go seen l).1 = l)
  ∧ bfilter (λ i, negb (is_tool_result i)) (sanitize_go seen l).1 = bfilter (λ i, negb (is_tool_result i)) l
  ∧ sublist (sanitize_go seen l).1 l.
Proof.
  unfold bfilter. induction l as [|i l IH]; intros seen; [by cbn; split_and!|].
  destruct i as [| |a|t| |]; cbn [sanitize_go validate_go];
    match goal with |- context [sanitize_go ?s l] =>
      destruct (IH s) as (E1 & E2 & E3 & E4 & E5); destruct (sanitize_go s l) as [l' ids] end;
    cbn in *; try (split_and!; [done|done|intros H; by rewrite E3|by rewrite E4|by constructor]).
  destruct (contains (tool_call_id t) seen) eqn:Ec; cbn; rewrite ?Ec.
  - split_and!; [done|done|intros H; by rewrite E3|done|by constructor].
  - split_and!; [by rewrite E1|done|discriminate|done|by constructor].
Qed.

(** Sanitizing strips what validation finds, and leaves nothing to find. *)
Lemma sanitize_spec l :
  stripped_tool_call_ids (sanitize_compacted_history l) = validate_compacted_history l
  ∧ validate_compacted_history (items (sanitize_compacted_history l)) = []
  ∧ (validate_compacted_history l = [] → items (sanitize_compacted_history l) = l)
  ∧ sublist (items (sanitize_compacted_history l)) l.
Proof.
  unfold sanitize_compacted_history, validate_compacted_history. destruct (sanitize_go_spec l []) as (E1 & E2 & E3 & E4 & E5).
  destruct (sanitize_go [] l) as [l' ids]. cbn in *. rewrite <-E1. by split_and!.
Qed.

(** What [repair_history] leaves is valid in this sense too. *)
Lemma validate_go_paired l : paired l → ∀ seen, validate_go seen l = [].
Proof.
  induction 1 as [|a run l Hr Hl IH|i l Ha Ht Hl IH]; intros seen; [done| |].
  - cbn [validate_go].
    assert (∀ seen, (∀ t, t ∈ run → tool_call_id t ∈ seen) → validate_go seen (map ToolResult run ++ l) = []) as Hgo.
    { clear Hr. induction run as [|t run IHr]; intros s Hs; cbn; [apply IH|].
      rewrite (proj2 (contains_spec (tool_call_id t) s)) by (apply Hs; left).
      apply IHr. intros t' Ht'. apply Hs. by right. }
    apply Hgo. intros t Ht. apply elem_of_app. left. rewrite <-Hr. by apply list_elem_of_fmap_2.
  - destruct i; try discriminate; apply IH.
Qed.
End sanitize.

(** ** Theorems *)

(** C27: However the model garbles its summary, the text that seeds the next turn
    holds none of the control tokens of the compaction: no [<summary>],
    [<analysis>] or [<summary_request>], opened or closed, that the next turn
    could take for its own. *)
Theorem seed_holds_no_control_token raw body :
  body ∈ control_bodies → str_contains ("<" +:+ body) (format_compact_summary raw) = false.
Proof.
  intros Hb. destruct (control_body body Hb) as (_ & _ & Hn & _). unfold format_compact_summary.
  apply contains_trim, collapse_newlines_absent; [done|done|]. by apply neutralize_token_free.
Qed.

(** C26: Shrinking a conversation to a budget keeps the whole of one that fits.
    Otherwise it keeps the first item if that is a system message and, of the
    rest, the longest end that fits what is left of the budget and does not begin
    with a tool result; when no end does, it keeps of the last turn exactly what
    [last_turn] says: the last item cut to the budget, or the results at the end,
    each cut to an equal share, behind the message that made their calls. A cut
    keeps the longest prefix of whole characters that leaves room for a marker. *)
Theorem fit_keeps_the_longest_end c max c' :
  fit_conversation_to_budget c max = Some c' →
  ((total_cost c ≤ max)%N ∧ c' = c)
  ∨ ((max < total_cost c)%N ∧
     let '(head, body) := match c with System s :: rest => ([System s], rest) | _ => ([], c) end in
     let budget := (max - total_cost head)%N in
     let fits k := (total_cost k ≤ budget)%N ∧ starts_with_result k = false in
     ∃ kept, c' = head ++ kept
     ∧ ((kept ≠ [] ∧ (∃ dropped, body = dropped ++ kept) ∧ fits kept
         ∧ ∀ d k, body = d ++ k → fits k → length k ≤ length kept)
        ∨ ((∀ d k, body = d ++ k → fits k → k = []) ∧ (body = [] ∧ kept = [] ∨ last_turn budget body kept)))).
Proof.
  unfold fit_conversation_to_budget. destruct (mapM estimate_item_tokens c) as [ns|] eqn:E; cbn [mbind option_bind]; [|done].
  apply prices in E. subst ns. rewrite zip_prices. fold (total_cost c).
  destruct (total_cost c <=? max)%N eqn:El; [apply N.leb_le in El; intros [= <-]; by left|]. apply N.leb_gt in El.
  intros Hfit. right. split; [done|].
  assert (∃ head body, (match c with System s :: rest => ([System s], rest) | _ => ([], c) end) = (head, body)
    ∧ (match priced_items c with (System s, n) :: b => ([(System s, n)], b) | _ => ([], priced_items c) end)
      = (priced_items head, priced_items body)) as (head & body & Ec & Ep).
  { destruct c as [|i c]; [by exists [], []|]. destruct i; cbn; by eexists _, _. }
  rewrite Ec. rewrite Ep in Hfit. cbn zeta.
  rewrite map_priced, map_priced_fst in Hfit. fold (total_cost head) in Hfit. set (budget := (max - total_cost head)%N) in *.
  destruct (kept_end budget body) as (dropped & Eb & Hc & Hs & Hmax).
  set (tail := skip_results _) in *. injection Hfit as <-.
  exists (if is_nil tail then recover_truncated_tail_unit (priced_items body) budget else map fst tail).
  split; [done|]. destruct (is_nil tail) eqn:En; [right|left].
  - apply is_nil_true in En. rewrite En in Hmax. split.
    + intros d k Ek [Hk Hr]. specialize (Hmax d k Ek Hk Hr). destruct k; [done|cbn in Hmax; lia].
    + destruct body as [|i body]; [left; by split|right]. by apply recover_cuts.
  - split_and!; [|by exists dropped|done|done|].
    + intros E'. apply map_eq_nil in E'. by rewrite E' in En.
    + intros d k Ek [Hk Hr]. by eapply Hmax.
Qed.

Lemma seed_holds_no_control_token_witness :
  "summary>" ∈ control_bodies
  ∧ format_compact_summary ("<analysis>draft</analysis><summary>1. Intent: emit a <summary> block" +:+ nl +:+ nl +:+ nl +:+ "</summary>")
    = "Summary:" +:+ nl +:+ "1. Intent: emit a <" +:+ ZWSP +:+ "summary> block"
  ∧ str_contains "<summary>" (format_compact_summary "<summary>1. <summary></summary>") = false.
Proof.
  assert ("summary>" ∈ control_bodies) as Hin by (right; left). split; [exact Hin|].
  split; [vm_compute; reflexivity|]. exact (seed_holds_no_control_token "<summary>1. <summary></summary>" "summary>" Hin).
Defined.

Definition long_history : list ConversationItem :=
  [System "abcd"; user "xxxxxxxx"; assistant_tool_calls [call "c1" "read"; call "c2" "bash"];
   tool_result "c1" "yyyyyyyy"; tool_result "c2" "zzzzzzzz"; user "done"].

Lemma fit_keeps_the_longest_end_witness :
  fit_conversation_to_budget long_history 5 = Some [System "abcd"; user "done"]
  ∧ ∃ kept, [System "abcd"; user "done"] = [System "abcd"] ++ kept
      ∧ (kept ≠ [] ∧ ∃ dropped, skipn 1 long_history = dropped ++ kept).
Proof.
  assert (fit_conversation_to_budget long_history 5 = Some [System "abcd"; user "done"]) as E by (vm_compute; reflexivity).
  split; [exact E|].
  destruct (fit_keeps_the_longest_end long_history 5 [System "abcd"; user "done"] E) as [[H _]|(_ & kept & H1 & [(H2 & H3 & _)|(H2 & _)])].
  - exfalso. vm_compute in H. apply H. reflexivity.
  - exists kept. split; [exact H1|]. split; [exact H2|exact H3].
  - exfalso. assert ([user "done"] = []) as Hbad; [|discriminate Hbad].
    apply (H2 [user "xxxxxxxx"; assistant_tool_calls [call "c1" "read"; call "c2" "bash"];
               tool_result "c1" "yyyyyyyy"; tool_result "c2" "zzzzzzzz"]); [reflexivity|].
    split; [vm_compute; discriminate|reflexivity].
Defined.
