(* ===== verification/RequestBuild.v ===== *)
(** * From the conversation to a request
      (xai-chat-state/src/actor/request_builder.rs, types.rs)

    What is done to the copy of the conversation that goes to the model: old
    tool results are shortened, the oldest images give way when the request
    would be too large, and the memory reminder is put in the system message.

    The JSON encoding is [serde_json]'s: its size is a parameter. *)

From Stdlib Require Import Ascii String.
From S2P Require Import Prelude RustStr TrimLemmas Conversation.
From stdpp Require Import options.

#[local] Open Scope N_scope.

(** The size [serde_json] gives a value. *)
Class JsonSize : Type := {
  items_json_bytes : list ConversationItem → N;
  part_json_bytes : ContentPart → N;
}.

Definition HARD_CLEAR_PLACEHOLDER : string := "[Tool result omitted — too old]".
Definition SOFT_TRIM_SEPARATOR : string := nl +:+ nl +:+ "[…trimmed…]" +:+ nl +:+ nl.
Definition MEMORY_CONTEXT_OPEN_TAG : string := "<memory-context>".
Definition MEMORY_CONTEXT_CLOSE_TAG : string := "</memory-context>".

Record PruningConfig : Type := mkPruning {
  enabled : bool;
  keep_last_n_turns : N;
  soft_trim_threshold : nat;
  soft_trim_head : nat;
  soft_trim_tail : nat;
  hard_clear_age_turns : N;
}.
Definition default_pruning : PruningConfig :=
  mkPruning true 3 (N.to_nat 4000) (N.to_nat 1500) (N.to_nat 1500) 10.

Definition should_prune (total_tokens context_window : N) : bool := context_window / 2 <? total_tokens.

Definition safe_char_slice (s : string) (start count : nat) : string := take_chars count (drop_chars start s).
Definition safe_char_slice_tail (s : string) (count : nat) : string :=
  let total := char_count s in
  if (total <=? count)%nat then s else drop_chars (total - count) s.

(** A walk from the last item to the first. The turn is counted at each item of
    the user but the last one. *)
Fixpoint walk_back (f : N → ToolResultItem → ToolResultItem) (turn : N) (seen_user : bool)
    (rev_items : list ConversationItem) : list ConversationItem :=
  match rev_items with
  | [] => []
  | User u :: l => User u :: walk_back f (if seen_user then turn + 1 else turn) true l
  | ToolResult t :: l => ToolResult (f turn t) :: walk_back f turn seen_user l
  | i :: l => i :: walk_back f turn seen_user l
  end.

Definition prune_result (config : PruningConfig) (turn_from_end : N) (t : ToolResultItem) : ToolResultItem :=
  if turn_from_end <? keep_last_n_turns config then t
  else if hard_clear_age_turns config <=? turn_from_end then
    if String.eqb (output t) HARD_CLEAR_PLACEHOLDER then t else t <| output := HARD_CLEAR_PLACEHOLDER |>
  else if (soft_trim_threshold config <? char_count (output t))%nat then
    t <| output := safe_char_slice (output t) 0 (soft_trim_head config) +:+ SOFT_TRIM_SEPARATOR
                   +:+ safe_char_slice_tail (output t) (soft_trim_tail config) |>
  else t.

Definition prune_conversation (config : PruningConfig) (c : list ConversationItem) : list ConversationItem :=
  if negb (enabled config) then c else rev (walk_back (prune_result config) 0 false (rev c)).

(** ** Images *)

Definition IMAGE_COMPACT_PLACEHOLDER : string :=
  "[An earlier image was removed to keep the request within its size limit and is no longer visible. Do not describe or reason about its contents from memory; ask the user to re-share it if you need to see it again.]".
Definition MAX_REQUEST_BYTES : N := 50 * 1024 * 1024.
Definition IMAGE_COMPACT_TRIGGER_BYTES : N := MAX_REQUEST_BYTES - 3 * 1024 * 1024.
Definition IMAGE_COMPACT_RECLAIM_TARGET_BYTES : N := MAX_REQUEST_BYTES / 2.

(** [{"type":"image","url":""}] *)
Definition IMAGE_PART_FRAME_BYTES : N := 25.
Definition image_part_bytes (url : string) : N := IMAGE_PART_FRAME_BYTES + str_len url.

Definition user_images (i : ConversationItem) : N := match i with User u => count_images (parts u) | _ => 0 end.
Definition inline_image_count (c : list ConversationItem) : N := sum_N (map user_images c).

Definition blank_part (p : ContentPart) : ContentPart := match p with Image _ => Image "" | Text s => Text s end.
Definition blank_item (i : ConversationItem) : ConversationItem :=
  match i with User u => User (u <| parts := map blank_part (parts u) |>) | i => i end.
Definition url_bytes (p : ContentPart) : N := match p with Image url => str_len url | Text _ => 0 end.
Definition item_url_bytes (i : ConversationItem) : N :=
  match i with User u => sum_N (map url_bytes (parts u)) | _ => 0 end.

Definition conversation_body_bytes `{JsonSize} (c : list ConversationItem) : N :=
  items_json_bytes (map blank_item c) + sum_N (map item_url_bytes c).

Record ImageEvictionOutcome : Type := mkEviction { evicted : N; body_bytes_after : N }.

Section eviction.
Context `{JsonSize}.

Definition placeholder : ContentPart := Text IMAGE_COMPACT_PLACEHOLDER.
Definition net_saving (url : string) : N := image_part_bytes url - part_json_bytes placeholder.

(** The images in the order of the conversation, replaced as long as the body is
    over the target. *)
Fixpoint evict_parts (target running evicted : N) (ps : list ContentPart) : list ContentPart * N * N :=
  match ps with
  | [] => ([], running, evicted)
  | Image url :: ps =>
      if running <=? target then (Image url :: ps, running, evicted)
      else
        let '(ps, running, evicted) := evict_parts target (running - net_saving url) (evicted + 1) ps in
        (placeholder :: ps, running, evicted)
  | p :: ps => let '(ps, running, evicted) := evict_parts target running evicted ps in (p :: ps, running, evicted)
  end.

Fixpoint evict_items (target running evicted : N) (c : list ConversationItem) : list ConversationItem * N * N :=
  match c with
  | [] => ([], running, evicted)
  | User u :: c =>
      let '(ps, running, evicted) := evict_parts target running evicted (parts u) in
      let '(c, running, evicted) := evict_items target running evicted c in
      (User (u <| parts := ps |>) :: c, running, evicted)
  | i :: c => let '(c, running, evicted) := evict_items target running evicted c in (i :: c, running, evicted)
  end.

Definition compact_images_to_byte_budget (c : list ConversationItem) (current_bytes target_bytes : N)
  : list ConversationItem * ImageEvictionOutcome :=
  if current_bytes <=? target_bytes then (c, mkEviction 0 current_bytes)
  else
    let '(c, running, evicted) := evict_items target_bytes current_bytes 0 c in
    (c, mkEviction evicted running).
End eviction.

(** ** The memory reminder *)

Definition trim_end_newlines (s : string) : string := trim_end_chars [newline] s.

Definition upsert_memory_reminder_text (system_prompt reminder : string) : string * bool :=
  let updated :=
    match find MEMORY_CONTEXT_OPEN_TAG system_prompt with
    | Some idx =>
        let prefix := trim_end_newlines (take_bytes idx system_prompt) in
        if is_empty prefix then reminder else prefix +:+ nl +:+ nl +:+ reminder
    | None =>
        if String.eqb (trim_end system_prompt) reminder then system_prompt
        else if is_empty system_prompt then reminder
        else trim_end_newlines system_prompt +:+ nl +:+ nl +:+ reminder
    end in
  if String.eqb system_prompt updated then (system_prompt, false) else (updated, true).

Definition inject_memory_reminder (items : list ConversationItem) (reminder : string) : list ConversationItem * bool :=
  let reminder := trim reminder in
  if is_empty reminder then (items, false)
  else
    match items with
    | System s :: rest =>
        let '(s, changed) := upsert_memory_reminder_text s reminder in (System s :: rest, changed)
    | _ => (System reminder :: items, true)
    end.
