(* ===== verification/Usage.v ===== *)
(** * What the models of a session cost
      (xai-chat-state/src/usage.rs)

    A ledger adds up the calls of one prompt or of a session, in all and by
    model. Sums of [u64] stop at the largest value. The ledger's map keeps the
    order its models were first met in. *)

From Stdlib Require Import Ascii String.
From S2P Require Import Prelude RustStr TrimLemmas.
From stdpp Require Import options.

#[local] Open Scope N_scope.

Definition i64_max : Z := 9223372036854775807.
Definition i64_min : Z := -9223372036854775808.
Definition i64_saturating_add (a b : Z) : Z := Z.max i64_min (Z.min i64_max (a + b)).

Record TokenUsage : Type := mkTokenUsage {
  prompt_tokens : N;
  completion_tokens : N;
  wire_total_tokens : N;
  wire_reasoning_tokens : N;
  cached_prompt_tokens : N;
}.

Record UsageTotals : Type := mkTotals {
  input_tokens : N;
  output_tokens : N;
  cached_read_tokens : N;
  reasoning_tokens : N;
  model_calls : N;
  api_duration_ms : N;
  cost_usd_ticks : option Z;
  cost_missing_calls : N;
}.
#[export] Instance UsageTotals_eq_dec : EqDecision UsageTotals.
Proof. solve_decision. Defined.

Definition totals_default : UsageTotals := mkTotals 0 0 0 0 0 0 None 0.

Definition reported_cost_ticks (raw : option Z) : option Z :=
  match raw with Some t => if (0 <? t)%Z then Some t else None | None => None end.

Definition from_call (usage : TokenUsage) (duration : option N) (cost : option Z) : UsageTotals :=
  let cost := reported_cost_ticks cost in
  mkTotals (prompt_tokens usage) (completion_tokens usage) (cached_prompt_tokens usage) (wire_reasoning_tokens usage)
    1 (default 0 duration) cost (match cost with Some _ => 0 | None => 1 end).

Definition UsageTotals_total_tokens (t : UsageTotals) : N := u64_saturating_add (input_tokens t) (output_tokens t).

Definition cost_is_partial (t : UsageTotals) : bool :=
  match cost_usd_ticks t with Some _ => 0 <? cost_missing_calls t | None => false end.

Definition merge_cost_ticks (a b : option Z) : option Z :=
  match a, b with
  | None, None => None
  | a, b => Some (i64_saturating_add (default 0%Z a) (default 0%Z b))
  end.

Definition fold_totals (s o : UsageTotals) : UsageTotals :=
  mkTotals (u64_saturating_add (input_tokens s) (input_tokens o))
    (u64_saturating_add (output_tokens s) (output_tokens o))
    (u64_saturating_add (cached_read_tokens s) (cached_read_tokens o))
    (u64_saturating_add (reasoning_tokens s) (reasoning_tokens o))
    (u64_saturating_add (model_calls s) (model_calls o))
    (u64_saturating_add (api_duration_ms s) (api_duration_ms o))
    (merge_cost_ticks (cost_usd_ticks s) (cost_usd_ticks o))
    (u64_saturating_add (cost_missing_calls s) (cost_missing_calls o)).

Record UsageLedger : Type := mkLedger {
  totals : UsageTotals;
  by_model : list (string * UsageTotals);
  main_loop_model_calls : N;
  incomplete : bool;
}.
#[export] Instance UsageLedger_settable : Settable UsageLedger :=
  λ l, mkLedger (totals l) (by_model l) (main_loop_model_calls l) (incomplete l).
#[export] Instance UsageLedger_eq_dec : EqDecision UsageLedger.
Proof. solve_decision. Defined.

Definition ledger_default : UsageLedger := mkLedger totals_default [] 0 false.

(** [by_model.entry(id).or_default().fold_totals(..)] *)
Fixpoint fold_model (model_id : string) (t : UsageTotals) (l : list (string * UsageTotals))
  : list (string * UsageTotals) :=
  match l with
  | [] => [(model_id, fold_totals totals_default t)]
  | (m, s) :: l => if String.eqb m model_id then (m, fold_totals s t) :: l else (m, s) :: fold_model model_id t l
  end.

Definition fold_entry (model_id : string) (t : UsageTotals) (l : UsageLedger) : UsageLedger :=
  l <| totals := fold_totals (totals l) t |> <| by_model := fold_model model_id t (by_model l) |>.

Definition record_main_loop_call (model_id : string) (usage : TokenUsage) (duration : option N) (cost : option Z)
    (l : UsageLedger) : UsageLedger :=
  let call := from_call usage duration cost in
  fold_entry model_id call (l <| main_loop_model_calls := u64_saturating_add (main_loop_model_calls l) 1 |>).

Definition record_subagent (entries : list (string * UsageTotals)) (incomplete_ : bool) (l : UsageLedger) : UsageLedger :=
  let l := foldl (λ l e, fold_entry e.1 e.2 l) l entries in
  if incomplete_ then l <| incomplete := true |> else l.

Definition mark_incomplete (l : UsageLedger) : UsageLedger := l <| incomplete := true |>.

(** ** A ledger adds up *)

Definition sat_sum (l : list N) : N := foldr u64_saturating_add 0 l.

(** Each total is the sum over the models, as far as a [u64] goes. *)
Definition sums_up (f : UsageTotals → N) (l : UsageLedger) : Prop :=
  f (totals l) = sat_sum (map (λ e, f e.2) (by_model l)) ∧ f (totals l) ≤ u64_max.

Definition counters : list (UsageTotals → N) :=
  [input_tokens; output_tokens; cached_read_tokens; reasoning_tokens; model_calls; api_duration_ms; cost_missing_calls].

Definition ledger_ok (l : UsageLedger) : Prop :=
  Forall (λ f, sums_up f l) counters ∧ NoDup (map fst (by_model l)) ∧ main_loop_model_calls l ≤ u64_max
  ∧ (is_Some (cost_usd_ticks (totals l)) ↔ Exists (λ e, is_Some (cost_usd_ticks e.2)) (by_model l)).

Section ledger.

Lemma sat_add_comm a b : u64_saturating_add a b = u64_saturating_add b a.
Proof. unfold u64_saturating_add. lia. Qed.

Lemma sat_add_assoc a b c :
  u64_saturating_add (u64_saturating_add a b) c = u64_saturating_add a (u64_saturating_add b c).
Proof. unfold u64_saturating_add. lia. Qed.

Lemma sat_add_le a b : u64_saturating_add a b ≤ u64_max.
Proof. unfold u64_saturating_add. lia. Qed.

Definition folds (f : UsageTotals → N) : Prop :=
  f totals_default = 0 ∧ ∀ s t, f (fold_totals s t) = u64_saturating_add (f s) (f t).

Lemma counters_fold : Forall folds counters.
Proof. repeat constructor. Qed.

Lemma fold_model_sum f m t l : folds f → f t ≤ u64_max →
  sat_sum (map (λ e, f e.2) (fold_model m t l)) = u64_saturating_add (sat_sum (map (λ e, f e.2) l)) (f t).
Proof.
  intros [H0 Hf] Ht. induction l as [|[m' s] l IH]; cbn.
  - rewrite Hf, H0. unfold u64_saturating_add. lia.
  - case_if; cbn; fold (sat_sum (map (λ e, f e.2) l)).
    + rewrite Hf, !sat_add_assoc. f_equal. apply sat_add_comm.
    + fold (sat_sum (map (λ e, f e.2) (fold_model m t l))). by rewrite IH, sat_add_assoc.
Qed.

Lemma fold_model_keys m t l : map fst (fold_model m t l) = if contains m (map fst l) then map fst l else map fst l ++ [m].
Proof.
  induction l as [|[m' s] l IH]; cbn; [done|]. destruct (String.eqb m' m) eqn:E; cbn.
  - apply String.eqb_eq in E. subst. by rewrite (proj2 (contains_spec m _)) by left.
  - apply String.eqb_neq in E. rewrite IH. destruct (contains m (map fst l)) eqn:Ec.
    + rewrite (proj2 (contains_spec m (m' :: map fst l))); [done|]. right. by apply contains_spec.
    + rewrite (proj2 (contains_false m (m' :: map fst l))); [done|]. apply contains_false in Ec.
      by intros [->|?]%elem_of_cons.
Qed.

Lemma merge_cost_Some a b : is_Some (merge_cost_ticks a b) ↔ is_Some a ∨ is_Some b.
Proof. destruct a, b; cbn; split; intros; rewrite <-?not_eq_None_Some in *; naive_solver. Qed.

Lemma fold_model_cost m t l :
  Exists (λ e, is_Some (cost_usd_ticks e.2)) (fold_model m t l)
  ↔ Exists (λ e, is_Some (cost_usd_ticks e.2)) l ∨ is_Some (cost_usd_ticks t).
Proof.
  induction l as [|[m' s] l IH]; cbn.
  - rewrite Exists_cons, Exists_nil. cbn [fst snd fold_totals cost_usd_ticks totals_default]. rewrite merge_cost_Some.
    pose proof (@is_Some_None Z). tauto.
  - case_if; rewrite !Exists_cons; cbn [fst snd fold_totals cost_usd_ticks]; [rewrite merge_cost_Some|rewrite IH]; tauto.
Qed.

Definition totals_fit (t : UsageTotals) : Prop := Forall (λ f, f t ≤ u64_max) counters.

Lemma fold_entry_ok m t l : totals_fit t → ledger_ok l → ledger_ok (fold_entry m t l).
Proof.
  intros Hfit (Hs & Hd & Hm & Hc). unfold ledger_ok, fold_entry. split_and!; cbn.
  - rewrite Forall_forall in *. intros f Hin. destruct (Hs f Hin) as [E Hle]. unfold sums_up. cbn.
    pose proof counters_fold as Hfold. rewrite Forall_forall in Hfold. pose proof (Hfold f Hin) as [H0 Hf].
    rewrite Hf. split; [|apply sat_add_le]. rewrite fold_model_sum, <-E; [done|by split|].
    unfold totals_fit in Hfit. rewrite Forall_forall in Hfit. by apply Hfit.
  - rewrite fold_model_keys. case_if; [done|]. apply contains_false in E. apply NoDup_app. split_and!; [done| |].
    + by intros x Hx ->%list_elem_of_singleton.
    + apply NoDup_singleton.
  - done.
  - rewrite merge_cost_Some, fold_model_cost, Hc. done.
Qed.

Lemma record_subagent_ok entries inc l :
  Forall (λ e, totals_fit e.2) entries → ledger_ok l → ledger_ok (record_subagent entries inc l).
Proof.
  intros He Hl. unfold record_subagent.
  assert (ledger_ok (foldl (λ l e, fold_entry e.1 e.2 l) l entries)) as H.
  { revert l Hl. induction He as [|[m t] es Ht He IH]; intros l Hl; cbn; [done|]. by apply IH, fold_entry_ok. }
  by case_if.
Qed.

Definition usage_fits (u : TokenUsage) : Prop :=
  prompt_tokens u ≤ u32_max ∧ completion_tokens u ≤ u32_max ∧ wire_reasoning_tokens u ≤ u32_max
  ∧ cached_prompt_tokens u ≤ u32_max.

Lemma record_main_loop_call_ok m u d c l :
  usage_fits u → default 0 d ≤ u64_max → ledger_ok l → ledger_ok (record_main_loop_call m u d c l).
Proof.
  intros Hu Hd Hl. unfold usage_fits, u32_max in Hu. unfold record_main_loop_call. apply fold_entry_ok.
  - unfold totals_fit, counters, from_call, u64_max in *. repeat constructor; cbn; try lia. case_match; lia.
  - destruct Hl as (Hs & Hn & Hm & Hc). split_and!; try done. cbn. apply sat_add_le.
Qed.

Lemma ledger_default_ok : ledger_ok ledger_default.
Proof.
  split_and!; cbn; [|constructor|unfold u64_max; lia|].
  - apply Forall_forall. intros f Hf. pose proof counters_fold as H. rewrite Forall_forall in H.
    destruct (H f Hf) as [H0 _]. unfold sums_up. cbn. rewrite H0. unfold u64_max. lia.
  - rewrite Exists_nil. pose proof (@is_Some_None Z). tauto.
Qed.

(** A bill is complete or says so: once a ledger is incomplete it stays so. *)
Lemma record_subagent_incomplete entries inc l :
  incomplete (record_subagent entries inc l) = incomplete l || inc.
Proof.
  unfold record_subagent.
  assert (incomplete (foldl (λ l e, fold_entry e.1 e.2 l) l entries) = incomplete l) as E.
  { revert l. induction entries as [|e es IH]; intros l; cbn; [done|]. by rewrite IH. }
  case_if; cbn; [by rewrite orb_true_r|]. by rewrite E, orb_false_r.
Qed.

End ledger.

#[export] Hint Resolve fold_entry_ok record_subagent_ok record_main_loop_call_ok ledger_default_ok : doggy.
