(* ===== verification/ChatState.v ===== *)
(** * The actor that owns a session's chat state
      (xai-chat-state/src/actor/state.rs, mutations.rs, queries.rs, mod.rs, request_builder.rs,
       commands.rs, events.rs, persistence.rs, types.rs)

    One definition per handler. A handler returns an [option]: [None] is a panic,
    which a code-interpreter call whose code is cut inside a character causes
    wherever an item is priced. What the actor sends to the persistence layer and
    to the session is kept as a log, and the file those writes leave is what the
    log says. The tracing context, which the actor hands on untouched, is left out.

    A [u64] wraps around in a release build. *)

From Stdlib Require Import Ascii String ZArith SpecFloat.
From S2P Require Import Prelude RustStr TrimLemmas AuditParse Conversation HistoryPrep RequestBuild Usage.
From stdpp Require Import options.

#[local] Open Scope N_scope.

Definition u64_add (a b : N) : N := (a + b) mod (u64_max + 1).

(** ** [f64] (std): conversion, product, quotient, and [round() as u64] *)

Definition f64_of_u64 (n : N) : spec_float := binary_normalize 53 1024 (Z.of_N n) 0 false.
Definition f64_div : spec_float → spec_float → spec_float := SFdiv 53 1024.
Definition f64_mul : spec_float → spec_float → spec_float := SFmul 53 1024.

Definition round_to_u64 (x : spec_float) : N :=
  match x with
  | S754_finite false m e =>
      let rounded := if (0 <=? e)%Z then Z.shiftl (Zpos m) e
                     else Z.shiftr (Zpos m + Z.shiftl 1 (- e - 1)) (- e) in
      N.min (Z.to_N rounded) u64_max
  | S754_infinity false => u64_max
  | _ => 0
  end.

(** ** Data *)

Inductive ApiBackend : Type := ChatCompletions | Responses | Messages.

Record SamplingConfig : Type := mkSampling {
  base_url : string;
  model : string;
  max_completion_tokens : option N;
  temperature : option spec_float;
  top_p : option spec_float;
  api_backend : ApiBackend;
  extra_headers : list (string * string);
  context_window : N;
  reasoning_effort : option ReasoningEffort;
  stream_tool_calls : option bool;
}.

Inductive AuthType : Type := SessionToken | ApiKey.

Record Credentials : Type := mkCredentials {
  api_key : option string;
  auth_type : AuthType;
  alpha_test_key : option string;
  client_version : option string;
}.
Definition credentials_default : Credentials := mkCredentials None SessionToken None None.

Record TurnCaptureState : Type := mkCapture {
  turn_start_offset : nat;
  pre_replacement_messages : list ConversationItem;
  compaction_occurred : bool;
}.
#[export] Instance TurnCaptureState_settable : Settable TurnCaptureState :=
  λ c, mkCapture (turn_start_offset c) (pre_replacement_messages c) (compaction_occurred c).

Record TurnCapture : Type := mkTurnCapture {
  messages : list ConversationItem;
  capture_compacted : bool;
}.

Record ChatState : Type := mkChatState {
  conversation : list ConversationItem;
  sampling_config : SamplingConfig;
  session_prompt_index : N;
  prompt_texts : list string;
  total_tokens : N;
  stream_start_ms : option Z;
  turn_start_ms : option Z;
  agent_edited_paths : gset string;
  last_compaction_prompt_index : option N;
  credentials : Credentials;
  estimated_tokens_since_model : N;
  estimate_at_last_response : N;
  last_turn_usage : option TokenUsage;
  prompt_usage : option UsageLedger;
  session_usage : UsageLedger;
  turn_capture : option TurnCaptureState;
  harness_trace_buffer : list ConversationItem;
  harness_trace_turns : list (list ConversationItem);
}.
#[export] Instance ChatState_settable : Settable ChatState :=
  λ s, mkChatState (conversation s) (sampling_config s) (session_prompt_index s) (prompt_texts s) (total_tokens s)
    (stream_start_ms s) (turn_start_ms s) (agent_edited_paths s) (last_compaction_prompt_index s) (credentials s)
    (estimated_tokens_since_model s) (estimate_at_last_response s) (last_turn_usage s) (prompt_usage s)
    (session_usage s) (turn_capture s) (harness_trace_buffer s) (harness_trace_turns s).

Record ChatStateSnapshot : Type := mkSnapshot {
  snap_conversation : list ConversationItem;
  snap_sampling_config : SamplingConfig;
  snap_prompt_index : N;
  snap_total_tokens : N;
  snap_estimate_at_last_response : N;
  snap_agent_edited_paths : gset string;
  snap_prompt_texts : list string;
  snap_stream_start_ms : option Z;
  snap_turn_start_ms : option Z;
  snap_last_compaction_prompt_index : option N;
  snap_credentials : Credentials;
}.

Inductive ChatStateEvent : Type :=
| PromptIndexChanged (new_index : N)
| TokensUpdated (total : N)
| ConversationReset (new_len : nat)
| ImageBudget (body_bytes trigger_bytes reclaim_target_bytes inline_images : N) (needs_image_compaction : bool)
    (evicted body_bytes_after : N).

Inductive PersistenceRecord : Type :=
| Message (i : ConversationItem)
| ReplaceHistory (l : list ConversationItem)
| FlushWrites.

(** The actor with what it has sent, last one first. *)
Record Actor : Type := mkActor {
  state : ChatState;
  pruning_config : PruningConfig;
  persistence : list PersistenceRecord;
  events : list ChatStateEvent;
}.
#[export] Instance Actor_settable : Settable Actor :=
  λ a, mkActor (state a) (pruning_config a) (persistence a) (events a).

(** The history file: a message is appended, a replacement is all there is. *)
Fixpoint disk (initial : list ConversationItem) (log : list PersistenceRecord) : list ConversationItem :=
  match log with
  | [] => initial
  | Message i :: log => disk initial log ++ [i]
  | ReplaceHistory l :: _ => l
  | FlushWrites :: log => disk initial log
  end.

Definition send_event (e : ChatStateEvent) (a : Actor) : Actor := a <| events := e :: events a |>.
Definition persist (r : PersistenceRecord) (a : Actor) : Actor := a <| persistence := r :: persistence a |>.
Definition with_state (f : ChatState → ChatState) (a : Actor) : Actor := a <| state := f (state a) |>.

(** ** A new state *)

Definition ChatState_new (c : list ConversationItem) (config : SamplingConfig) : option ChatState :=
  let c := (dedup_duplicate_tool_results c).1 in
  let c := (repair_dangling_tool_calls UserCancelled c).1 in
  initial ← estimate_conversation_tokens c;
  Some (mkChatState c config 0 [] initial None None ∅ None credentials_default 0 initial None None ledger_default
          None [] []).

Definition seal_harness_trace_turn (s : ChatState) : ChatState :=
  if is_nil (harness_trace_buffer s) then s
  else s <| harness_trace_turns := harness_trace_turns s ++ [harness_trace_buffer s] |> <| harness_trace_buffer := [] |>.

(** ** The capture of a turn *)

Definition turn_tail (c : list ConversationItem) (offset : nat) : list ConversationItem :=
  if (offset <=? length c)%nat then skipn offset c else [].

Definition snapshot_turn_slice (s : ChatState) : ChatState :=
  match turn_capture s with
  | None => s
  | Some cap =>
      s <| turn_capture := Some (cap <| pre_replacement_messages :=
             pre_replacement_messages cap ++ turn_tail (conversation s) (turn_start_offset cap) |>) |>
  end.

Definition rebase_turn_capture_offset (s : ChatState) : ChatState :=
  match turn_capture s with
  | None => s
  | Some cap => s <| turn_capture := Some (cap <| turn_start_offset := length (conversation s) |>) |>
  end.

Definition mark_compaction (s : ChatState) : ChatState :=
  match turn_capture s with
  | None => s
  | Some cap => s <| turn_capture := Some (cap <| compaction_occurred := true |>) |>
  end.

(** ** Mutations *)

Definition ensure_conversation_integrity_with_reason (reason : DanglingToolCallReason) (a : Actor) : Actor :=
  let a := with_state snapshot_turn_slice a in
  let '(c, deduped) := dedup_duplicate_tool_results (conversation (state a)) in
  let '(c, repaired) := repair_dangling_tool_calls reason c in
  let a := with_state (λ s, s <| conversation := c |>) a in
  let a := if (0 <? repaired)%nat || (0 <? deduped)%nat then persist (ReplaceHistory c) a else a in
  with_state rebase_turn_capture_offset a.

Definition ensure_conversation_integrity : Actor → Actor := ensure_conversation_integrity_with_reason UserCancelled.

Definition repair_dangling_after_harness_halt (class : string) : Actor → Actor :=
  ensure_conversation_integrity_with_reason (HarnessHalted class).

(** What is added to the estimate since the last response. *)
Definition count_new (n : N) (s : ChatState) : ChatState :=
  s <| estimated_tokens_since_model := u64_add (estimated_tokens_since_model s) n |>.

Definition append_item (i : ConversationItem) (a : Actor) : Actor :=
  with_state (λ s, s <| conversation := conversation s ++ [i] |>) (persist (Message i) a).

Definition push_message (i : ConversationItem) (a : Actor) : option Actor :=
  if is_assistant i then Some (append_item i a)
  else n ← estimate_item_tokens i; Some (append_item i (with_state (count_new n) a)).

(** The size of all the text, which can panic like a price. *)
Definition item_content_bytes (i : ConversationItem) : option N :=
  match i with
  | System s => Some (str_len s)
  | User u => Some (sum_N (map (λ p, match p with Text s | Image s => str_len s end) (parts u)))
  | Assistant a => Some (str_len (answer a))
  | ToolResult t => Some (str_len (output t))
  | BackendToolCall k => str_len <$> text_summary k
  | Reasoning r => Some (str_len (reasoning_item_text r) + from_option str_len 0 (encrypted_content r))
  end.
Definition conversation_content_bytes (c : list ConversationItem) : option N := sum_N <$> mapM item_content_bytes c.

(** The walk over the retained conversation, from the last item, with how many
    results it cleared. *)
Fixpoint clear_back (threshold turn : N) (seen_user : bool) (rev_items : list ConversationItem)
  : list ConversationItem * nat :=
  match rev_items with
  | [] => ([], 0%nat)
  | User u :: l =>
      let '(l, n) := clear_back threshold (if seen_user then turn + 1 else turn) true l in (User u :: l, n)
  | ToolResult t :: l =>
      let '(l, n) := clear_back threshold turn seen_user l in
      if turn <? threshold then (ToolResult t :: l, n)
      else if String.eqb (output t) HARD_CLEAR_PLACEHOLDER then (ToolResult t :: l, n)
      else (ToolResult (t <| output := HARD_CLEAR_PLACEHOLDER |>) :: l, S n)
  | i :: l => let '(l, n) := clear_back threshold turn seen_user l in (i :: l, n)
  end.

Definition prune_retained_conversation (a : Actor) : option (nat * Actor) :=
  let s := state a in
  if negb (enabled (pruning_config a)) then Some (0%nat, a)
  else if session_prompt_index s <? hard_clear_age_turns (pruning_config a) then Some (0%nat, a)
  else
    let total_user_items := N.of_nat (length (bfilter is_user (conversation s))) in
    let synthetic_count := total_user_items - session_prompt_index s in
    let threshold := u64_saturating_add (hard_clear_age_turns (pruning_config a)) synthetic_count in
    _ ← conversation_content_bytes (conversation s);
    let '(l, cleared) := clear_back threshold 0 false (rev (conversation s)) in
    let c := rev l in
    let a := with_state (λ s, s <| conversation := c |>) a in
    if (0 <? cleared)%nat then
      _ ← conversation_content_bytes c; Some (cleared, persist (ReplaceHistory c) a)
    else Some (0%nat, a).

Definition push_user_message_with_repair_reason (i : ConversationItem) (reason : DanglingToolCallReason) (a : Actor)
  : option Actor :=
  let a := ensure_conversation_integrity_with_reason reason a in
  n ← estimate_item_tokens i;
  r ← prune_retained_conversation (append_item i (with_state (count_new n) a));
  Some r.2.

Definition push_user_message (i : ConversationItem) : Actor → option Actor :=
  push_user_message_with_repair_reason i UserCancelled.

Definition record_token_usage (total : N) (a : Actor) : option Actor :=
  n ← estimate_conversation_tokens (conversation (state a));
  Some (send_event (TokensUpdated total)
    (with_state (λ s, s <| estimated_tokens_since_model := 0 |> <| estimate_at_last_response := n |>
                        <| total_tokens := total |>) a)).

Definition open_ledger (s : ChatState) : UsageLedger := default ledger_default (prompt_usage s).

Definition record_model_call_usage (id : option string) (usage : TokenUsage) (duration : option N) (cost : option Z)
    (s : ChatState) : ChatState :=
  let model_key := match id with Some id => if is_empty id then model (sampling_config s) else id
                               | None => model (sampling_config s) end in
  s <| prompt_usage := Some (record_main_loop_call model_key usage duration cost (open_ledger s)) |>
    <| session_usage := record_main_loop_call model_key usage duration cost (session_usage s) |>.

Definition record_subagent_usage (entries : list (string * UsageTotals)) (attribute_to_prompt incomplete_ : bool)
    (s : ChatState) : ChatState :=
  if is_nil entries && negb incomplete_ then s
  else
    let s := if attribute_to_prompt
             then s <| prompt_usage := Some (record_subagent entries incomplete_ (open_ledger s)) |> else s in
    s <| session_usage := record_subagent entries incomplete_ (session_usage s) |>.

Definition mark_usage_incomplete (prompt session : bool) (s : ChatState) : ChatState :=
  let s := if prompt then s <| prompt_usage := Some (mark_incomplete (open_ledger s)) |> else s in
  if session then s <| session_usage := mark_incomplete (session_usage s) |> else s.

Definition increment_prompt_index (a : Actor) : Actor :=
  let a := with_state (λ s, s <| prompt_usage := None |>
                              <| session_prompt_index := u64_add (session_prompt_index s) 1 |>) a in
  send_event (PromptIndexChanged (session_prompt_index (state a))) a.

(** The estimate after a replacement: a compaction carries the overhead of the
    provider forward as a ratio, and never raises the total. *)
Definition reseeded_tokens (is_compaction : bool) (base pre_total estimate : N) : N :=
  let estimated :=
    if is_compaction && (0 <? pre_total) && (0 <? estimate) then
      round_to_u64 (f64_mul (f64_of_u64 base) (f64_div (f64_of_u64 pre_total) (f64_of_u64 estimate)))
    else base in
  if is_compaction && (0 <? pre_total) then N.min estimated pre_total else estimated.

Definition replace_conversation (l : list ConversationItem) (is_compaction : bool) (a : Actor) : option Actor :=
  let a := with_state snapshot_turn_slice a in
  let a := if is_compaction then with_state mark_compaction a else a in
  let pre_replace_total := total_tokens (state a) in
  let a := persist (ReplaceHistory l) a in
  base ← estimate_conversation_tokens l;
  let estimated := reseeded_tokens is_compaction base pre_replace_total (estimate_at_last_response (state a)) in
  let a := with_state (λ s, s <| conversation := l |> <| estimated_tokens_since_model := 0 |>
                              <| total_tokens := estimated |> <| estimate_at_last_response := base |>) a in
  let a := with_state rebase_turn_capture_offset a in
  Some (send_event (TokensUpdated estimated) (send_event (ConversationReset (length l)) a)).

(** The conversation is taken out of the state before [replace_conversation]
    looks at it. *)
Definition actor_repair_history (dry_run : bool) (a : Actor) : option (HistoryRepairReport * Actor) :=
  let '(l, report) := repair_history (conversation (state a)) in
  if dry_run then Some (report, a)
  else if changed report then
    a ← replace_conversation l false (with_state (λ s, s <| conversation := [] |>) a); Some (report, a)
  else Some (report, with_state (λ s, s <| conversation := l |>) a).

Definition replace_system_head (prompt : string) (a : Actor) : option (bool * Actor) :=
  let c := conversation (state a) in
  if match c with System s :: _ => canonical_system_prompt_eq s prompt | _ => false end then Some (false, a)
  else
    let '(c, changed) := replace_or_insert_system_head prompt c in
    a ← replace_conversation c false a; Some (changed, a).

Definition restore_snapshot (snap : ChatStateSnapshot) (a : Actor) : option Actor :=
  let a := with_state snapshot_turn_slice a in
  let a := with_state (λ s, s <| conversation := snap_conversation snap |>) a in
  let a := with_state rebase_turn_capture_offset a in
  estimate ← (if 0 <? snap_estimate_at_last_response snap then Some (snap_estimate_at_last_response snap)
              else estimate_conversation_tokens (snap_conversation snap));
  Some (with_state (λ s,
    s <| sampling_config := snap_sampling_config snap |> <| session_prompt_index := snap_prompt_index snap |>
      <| total_tokens := snap_total_tokens snap |> <| estimated_tokens_since_model := 0 |>
      <| estimate_at_last_response := estimate |> <| agent_edited_paths := snap_agent_edited_paths snap |>
      <| prompt_texts := snap_prompt_texts snap |> <| stream_start_ms := snap_stream_start_ms snap |>
      <| turn_start_ms := snap_turn_start_ms snap |>
      <| last_compaction_prompt_index := snap_last_compaction_prompt_index snap |>
      <| credentials := snap_credentials snap |> <| prompt_usage := None |>) a).

(** The position of the user's item with so many before it. *)
Fixpoint nth_user (target : N) (i : nat) (c : list ConversationItem) : option nat :=
  match c with
  | [] => None
  | User _ :: c => if target =? 0 then Some i else nth_user (target - 1) (S i) c
  | _ :: c => nth_user target (S i) c
  end.

Definition truncate_to_prompt_index (target : N) (a : Actor) : option Actor :=
  let s := state a in
  if session_prompt_index s <=? target then Some a
  else
    let c := firstn (default (length (conversation s)) (nth_user target 0 (conversation s))) (conversation s) in
    n ← estimate_conversation_tokens c;
    let a := with_state (λ s, s <| conversation := c |> <| prompt_texts := firstn (N.to_nat target) (prompt_texts s) |>
                                <| session_prompt_index := target |> <| total_tokens := n |>
                                <| estimated_tokens_since_model := 0 |> <| estimate_at_last_response := n |>) a in
    Some (send_event (ConversationReset (length c)) (persist (ReplaceHistory c) a)).

(** ** The request *)

Record ToolSpec : Type := mkToolSpec {
  tool_name : string;
  description : option string;
  parameters : Value;
}.

Record ConversationRequest : Type := mkRequest {
  request_items : list ConversationItem;
  tools : list ToolSpec;
  request_model : option string;
  request_temperature : option spec_float;
  max_output_tokens : option N;
  request_top_p : option spec_float;
  x_grok_conv_id : option string;
  x_grok_req_id : option string;
  request_effort : option ReasoningEffort;
}.

Section request.
Context `{JsonSize}.

(** The reminder is put in the state when it is to be kept, and is then not put
    in the copy. *)
Definition persist_reminder (reminder : option string) (keep : bool) (a : Actor) : option string * Actor :=
  match reminder with
  | Some r =>
      if keep then
        let a := with_state snapshot_turn_slice a in
        let '(c, injected) := inject_memory_reminder (conversation (state a)) r in
        let a := with_state (λ s, s <| conversation := c |>) a in
        let a := if injected then persist (ReplaceHistory c) a else a in
        (if injected then None else reminder, with_state rebase_turn_capture_offset a)
      else (reminder, a)
  | None => (None, a)
  end.

Definition build_conversation_request (tool_definitions : list ToolSpec) (memory_reminder : option string)
    (persist_memory_reminder : bool) (conv_id req_id : string) (a : Actor) : ConversationRequest * Actor :=
  let needs_prune := should_prune (total_tokens (state a)) (context_window (sampling_config (state a))) in
  let '(memory_reminder, a) := persist_reminder memory_reminder persist_memory_reminder a in
  let c := conversation (state a) in
  let body_bytes := conversation_body_bytes c in
  let inline_images := inline_image_count c in
  let needs_image_compaction := IMAGE_COMPACT_TRIGGER_BYTES <=? body_bytes in
  let '(l, eviction) :=
    if needs_image_compaction
    then let '(l, o) := compact_images_to_byte_budget c body_bytes IMAGE_COMPACT_RECLAIM_TARGET_BYTES in (l, Some o)
    else (c, None) in
  let l := if needs_prune then prune_conversation (pruning_config a) l else l in
  let l := match memory_reminder with Some r => (inject_memory_reminder l r).1 | None => l end in
  let a := if 0 <? inline_images then
             send_event (ImageBudget body_bytes IMAGE_COMPACT_TRIGGER_BYTES IMAGE_COMPACT_RECLAIM_TARGET_BYTES
               inline_images needs_image_compaction (from_option evicted 0 eviction)
               (from_option body_bytes_after body_bytes eviction)) a
           else a in
  let config := sampling_config (state a) in
  (mkRequest l tool_definitions (Some (model config)) (temperature config) (max_completion_tokens config)
     (top_p config) (Some conv_id) (Some req_id) (reasoning_effort config), a).
End request.

(** ** Queries *)

Definition snapshot (s : ChatState) : ChatStateSnapshot :=
  mkSnapshot (conversation s) (sampling_config s) (session_prompt_index s) (total_tokens s)
    (estimate_at_last_response s) (agent_edited_paths s) (prompt_texts s) (stream_start_ms s) (turn_start_ms s)
    (last_compaction_prompt_index s) (credentials s).

Record AutoCompactTrigger : Type := mkTrigger {
  trigger_total_tokens : N;
  trigger_context_window : N;
  utilization_percent : N;
}.

Definition u64_saturating_mul (a b : N) : N := N.min (a * b) u64_max.

Definition exceeds_threshold (used window percent : N) : bool :=
  if window =? 0 then false else u64_saturating_mul window percent <=? u64_saturating_mul used 100.

Definition usage_percentage_truncated_u8 (used total : N) : N :=
  if total =? 0 then 0 else N.min (u64_saturating_mul used 100 / total) 100.

Definition check_auto_compact_needed (threshold_percent : N) (s : ChatState) : option AutoCompactTrigger :=
  let cw := context_window (sampling_config s) in
  if exceeds_threshold (total_tokens s) cw threshold_percent
  then Some (mkTrigger (total_tokens s) cw (usage_percentage_truncated_u8 (total_tokens s) cw))
  else None.

Definition get_last_model_metadata (s : ChatState) : option string * option string :=
  match last_such is_assistant (conversation s) with
  | Some (Assistant a) => (model_id a, model_fingerprint a)
  | _ => (None, None)
  end.

Definition get_last_assistant_text (s : ChatState) : option string :=
  match last_such (λ i, match i with Assistant a => negb (is_empty (trim (answer a))) | _ => false end)
                  (conversation s) with
  | Some (Assistant a) => Some (answer a)
  | _ => None
  end.

(** The first message of the user whose first part is text. *)
Fixpoint first_user_text (c : list ConversationItem) : option string :=
  match c with
  | [] => None
  | User u :: c => match parts u with Text s :: _ => Some s | _ => first_user_text c end
  | _ :: c => first_user_text c
  end.

Record ConversationCounts : Type := mkCounts {
  count_total : nat;
  count_user : nat;
  count_assistant : nat;
  count_tool_result : nat;
}.

Definition get_conversation_counts (s : ChatState) : ConversationCounts :=
  let c := conversation s in
  mkCounts (length c) (length (bfilter is_user c)) (length (bfilter is_assistant c))
    (length (bfilter is_tool_result c)).

Definition get_system_message (s : ChatState) : option ConversationItem := List.find is_system (conversation s).

Definition take_turn_messages (s : ChatState) : option TurnCapture * ChatState :=
  (match turn_capture s with
   | Some cap =>
       Some (mkTurnCapture (pre_replacement_messages cap ++ turn_tail (conversation s) (turn_start_offset cap))
               (compaction_occurred cap))
   | None => None
   end, s <| turn_capture := None |>).

Definition begin_turn_capture (s : ChatState) : ChatState :=
  s <| turn_capture := Some (mkCapture (length (conversation s)) [] false) |>.

(** ** Commands *)

Inductive ChatStateCommand : Type :=
| PushUserMessage (i : ConversationItem)
| PushUserMessageAndAck (i : ConversationItem)
| PushUserMessageWithRepairReason (i : ConversationItem) (reason : DanglingToolCallReason)
| PushAssistantResponse (i : ConversationItem)
| PushToolResult (i : ConversationItem)
| RecordTokenUsage (total : N)
| RecordLastTurnUsage (usage : TokenUsage)
| RecordModelCallUsage (id : option string) (usage : TokenUsage) (duration : option N) (cost : option Z)
| RecordSubagentUsage (entries : list (string * UsageTotals)) (attribute_to_prompt incomplete : bool)
| MarkUsageIncomplete (prompt session : bool)
| IncrementPromptIndex
| UpdateSamplingConfig (config : SamplingConfig)
| RecordAgentEditedPath (path : string)
| RecordStreamStart (timestamp_ms : Z)
| RecordTurnStart (timestamp_ms : Z)
| ReplaceConversation (l : list ConversationItem) (is_compaction : bool)
| RepairHistory (dry_run : bool) (turn_active : option bool)
| ReplaceSystemHead (prompt : string)
| CachePromptText (text : string)
| RecordCompactionAt (index : N)
| Flush
| UpdateCredentials (c : Credentials)
| RestoreSnapshot (snap : ChatStateSnapshot)
| BeginTurnCapture
| AppendHarnessTraceItems (l : list ConversationItem)
| FlushHarnessTraceTurn
| RepairDanglingAfterHarnessHalt (class : string)
| BuildConversationRequest (tool_definitions : list ToolSpec) (memory_reminder : option string)
    (persist_memory_reminder : bool) (conv_id req_id : string)
| GetConversation
| GetPromptIndex
| GetLastCompactionPromptIndex
| GetTotalTokens
| GetLastTurnUsage
| GetPromptUsage
| GetSessionUsage
| GetEstimatedTotalTokens
| GetSamplingConfig
| GetAgentEditedPaths
| GetNotificationMeta
| Snapshot
| TruncateToPromptIndex (target : N)
| CheckAutoCompactNeeded (threshold_percent : N)
| GetCredentials
| GetLastModelMetadata
| TakeTurnMessages
| TakeHarnessTraceTurns
| GetConversationLen
| HasDanglingToolCalls
| GetLastAssistantText
| GetFirstUserText
| GetConversationItemAt (index : nat)
| GetLastUserQueryText
| GetConversationCounts
| GetSystemMessage
| GetEstimatedMessagesTokens.

Inductive Reply : Type :=
| NoReply
| RRepair (r : option HistoryRepairReport)
| RBool (b : bool)
| RRequest (r : ConversationRequest)
| RItems (l : list ConversationItem)
| RNumber (n : N)
| ROptNumber (n : option N)
| RUsage (u : option TokenUsage)
| RLedger (l : option UsageLedger)
| RSampling (c : SamplingConfig)
| RPaths (p : gset string)
| RTimes (stream_start turn_start : option Z)
| RSnapshot (s : ChatStateSnapshot)
| RTrigger (t : option AutoCompactTrigger)
| RCredentials (c : Credentials)
| RMetadata (m : option string * option string)
| RTurn (t : option TurnCapture)
| RTurns (l : list (list ConversationItem))
| RText (s : option string)
| RItem (i : option ConversationItem)
| RCounts (c : ConversationCounts).

(** A refused repair replies [RRepair None]. *)
Definition quiet (a : option Actor) : option (Reply * Actor) := a ← a; Some (NoReply, a).

Definition handle_command `{JsonSize} (cmd : ChatStateCommand) (a : Actor) : option (Reply * Actor) :=
  let s := state a in
  let set f := Some (NoReply, with_state f a) in
  let reply r := Some (r, a) in
  match cmd with
  | PushUserMessage i | PushUserMessageAndAck i => quiet (push_user_message i a)
  | PushUserMessageWithRepairReason i reason => quiet (push_user_message_with_repair_reason i reason a)
  | PushAssistantResponse i | PushToolResult i => quiet (push_message i a)
  | RecordTokenUsage total => quiet (record_token_usage total a)
  | RecordLastTurnUsage usage => set (λ s, s <| last_turn_usage := Some usage |>)
  | RecordModelCallUsage id usage duration cost => set (record_model_call_usage id usage duration cost)
  | RecordSubagentUsage entries prompt inc => set (record_subagent_usage entries prompt inc)
  | MarkUsageIncomplete prompt session => set (mark_usage_incomplete prompt session)
  | IncrementPromptIndex => Some (NoReply, increment_prompt_index a)
  | UpdateSamplingConfig config => set (λ s, s <| sampling_config := config |>)
  | RecordAgentEditedPath path => set (λ s, s <| agent_edited_paths := {[ path ]} ∪ agent_edited_paths s |>)
  | RecordStreamStart t => set (λ s, s <| stream_start_ms := Some t |>)
  | RecordTurnStart t => set (λ s, s <| turn_start_ms := Some t |>)
  | ReplaceConversation l is_compaction => quiet (replace_conversation l is_compaction a)
  | RepairHistory dry_run turn_active =>
      if default false turn_active then reply (RRepair None)
      else r ← actor_repair_history dry_run a; Some (RRepair (Some r.1), r.2)
  | ReplaceSystemHead prompt => r ← replace_system_head prompt a; Some (RBool r.1, r.2)
  | CachePromptText text => set (λ s, s <| prompt_texts := prompt_texts s ++ [text] |>)
  | RecordCompactionAt index => set (λ s, s <| last_compaction_prompt_index := Some index |>)
  | Flush => Some (NoReply, persist FlushWrites a)
  | UpdateCredentials c => set (λ s, s <| credentials := c |>)
  | RestoreSnapshot snap => quiet (restore_snapshot snap a)
  | BeginTurnCapture => set begin_turn_capture
  | AppendHarnessTraceItems l => set (λ s, s <| harness_trace_buffer := harness_trace_buffer s ++ l |>)
  | FlushHarnessTraceTurn => set seal_harness_trace_turn
  | RepairDanglingAfterHarnessHalt class => Some (NoReply, repair_dangling_after_harness_halt class a)
  | BuildConversationRequest tool_definitions reminder keep conv_id req_id =>
      let '(r, a) := build_conversation_request tool_definitions reminder keep conv_id req_id
                       (ensure_conversation_integrity a) in
      Some (RRequest r, a)
  | GetConversation => reply (RItems (conversation s))
  | GetPromptIndex => reply (RNumber (session_prompt_index s))
  | GetLastCompactionPromptIndex => reply (ROptNumber (last_compaction_prompt_index s))
  | GetTotalTokens => reply (RNumber (total_tokens s))
  | GetLastTurnUsage => reply (RUsage (last_turn_usage s))
  | GetPromptUsage => reply (RLedger (prompt_usage s))
  | GetSessionUsage => reply (RLedger (Some (session_usage s)))
  | GetEstimatedTotalTokens => reply (RNumber (u64_add (total_tokens s) (estimated_tokens_since_model s)))
  | GetSamplingConfig => reply (RSampling (sampling_config s))
  | GetAgentEditedPaths => reply (RPaths (agent_edited_paths s))
  | GetNotificationMeta => reply (RTimes (stream_start_ms s) (turn_start_ms s))
  | Snapshot => reply (RSnapshot (snapshot s))
  | TruncateToPromptIndex target =>
      a ← truncate_to_prompt_index target a;
      Some (NoReply, with_state (λ s, s <| turn_capture := None |> <| prompt_usage := None |>) a)
  | CheckAutoCompactNeeded percent => reply (RTrigger (check_auto_compact_needed percent s))
  | GetCredentials => reply (RCredentials (credentials s))
  | GetLastModelMetadata => reply (RMetadata (get_last_model_metadata s))
  | TakeTurnMessages =>
      let '(t, s) := take_turn_messages s in Some (RTurn t, a <| state := s |>)
  | TakeHarnessTraceTurns =>
      let s := seal_harness_trace_turn s in
      Some (RTurns (harness_trace_turns s), a <| state := s <| harness_trace_turns := [] |> |>)
  | GetConversationLen => reply (RNumber (N.of_nat (length (conversation s))))
  | HasDanglingToolCalls => reply (RBool (has_dangling_tool_calls (conversation s)))
  | GetLastAssistantText => reply (RText (get_last_assistant_text s))
  | GetFirstUserText => reply (RText (first_user_text (conversation s)))
  | GetConversationItemAt index => reply (RItem (conversation s !! index))
  | GetLastUserQueryText => reply (RText (extract_last_user_query (conversation s)))
  | GetConversationCounts => reply (RCounts (get_conversation_counts s))
  | GetSystemMessage => reply (RItem (get_system_message s))
  | GetEstimatedMessagesTokens => n ← estimate_messages_tokens (conversation s); Some (RNumber n, a)
  end.

(** The loop: a cancellation is looked at first, and the closed channel ends it
    like a cancellation does. *)
Inductive Wake : Type :=
| WakeCancelled
| WakeCommand (cmd : ChatStateCommand)
| WakeClosed.

Fixpoint run `{JsonSize} (wakes : list Wake) (a : Actor) : option (list Reply * Actor) :=
  match wakes with
  | WakeCommand cmd :: wakes =>
      r ← handle_command cmd a;
      rest ← run wakes r.2;
      Some (r.1 :: rest.1, rest.2)
  | _ => Some ([], a)
  end.

Definition spawn_with_pruning (initial : list ConversationItem) (config : SamplingConfig) (pruning : PruningConfig)
  : option Actor :=
  s ← ChatState_new initial config; Some (mkActor s pruning [] []).

Definition spawn (initial : list ConversationItem) (config : SamplingConfig) : option Actor :=
  spawn_with_pruning initial config default_pruning.
