(* ===== verification/ChatStateFacts.v ===== *)
(** * The chat state actor: lemmas and theorems

    What is on disk is what is in memory; what a capture returns is what was
    pushed; a request answers every call; the bills add up; the actor does not
    stop on items it can price. *)

From Stdlib Require Import Ascii String ZArith SpecFloat.
From S2P Require Import Prelude RustStr TrimLemmas AuditParse Conversation ConversationFacts HistoryPrep RequestBuild Usage ChatState.
From stdpp Require Import options.

#[local] Open Scope nat_scope.

(** ** Runs *)

Section runs.
Context `{JsonSize}.

Lemma run_invariant (P : Actor → Prop) (ok : ChatStateCommand → Prop) :
  (∀ cmd a r a', ok cmd → P a → handle_command cmd a = Some (r, a') → P a') →
  ∀ cmds a rs a', Forall ok cmds → P a → run (map WakeCommand cmds) a = Some (rs, a') → P a'.
Proof.
  intros Hstep cmds. induction cmds as [|cmd cmds IH]; intros a rs a' Hok Ha; cbn; [by intros [= <- <-]|].
  apply Forall_cons in Hok as [Hc Hok]. destruct (handle_command cmd a) as [[r a1]|] eqn:E1; cbn; [|done].
  destruct (run (map WakeCommand cmds) a1) as [[rs' a2]|] eqn:E2; cbn; [|done]. intros [= <- <-].
  eapply IH; [done| |done]. by eapply Hstep.
Qed.

Lemma run_app cmds cmds' a : run (map WakeCommand (cmds ++ cmds')) a
  = (r ← run (map WakeCommand cmds) a; r' ← run (map WakeCommand cmds') r.2; Some (r.1 ++ r'.1, r'.2)).
Proof.
  revert a. induction cmds as [|cmd cmds IH]; intros a; cbn.
  - by destruct (run (map WakeCommand cmds') a) as [[??]|].
  - destruct (handle_command cmd a) as [[r a1]|]; cbn; [|done]. rewrite IH.
    destruct (run (map WakeCommand cmds) a1) as [[rs a2]|]; cbn; [|done].
    by destruct (run (map WakeCommand cmds') a2) as [[??]|].
Qed.

Lemma run_total (P : Actor → Prop) (ok : ChatStateCommand → Prop) :
  (∀ cmd a, ok cmd → P a → ∃ r a', handle_command cmd a = Some (r, a') ∧ P a') →
  ∀ cmds a, Forall ok cmds → P a → ∃ rs a', run (map WakeCommand cmds) a = Some (rs, a').
Proof.
  intros Hstep cmds. induction cmds as [|cmd cmds IH]; intros a Hok Ha; cbn; [eauto|].
  apply Forall_cons in Hok as [Hc Hok]. destruct (Hstep cmd a Hc Ha) as (r & a1 & -> & Ha1). cbn.
  destruct (IH a1 Hok Ha1) as (rs & a2 & ->). cbn. eauto.
Qed.
End runs.

(** ** What the repairs leave alone when they count nothing *)

Section counts.

Lemma clear_back_zero threshold l : ∀ turn seen, (clear_back threshold turn seen l).2 = 0 →
  (clear_back threshold turn seen l).1 = l.
Proof.
  induction l as [|i l IH]; intros turn seen; cbn; [done|].
  destruct i;
    match goal with |- context [clear_back _ ?t ?s l] => pose proof (IH t s) as E; destruct (clear_back threshold t s l) end;
    cbn in *; try (intros H; by rewrite E).
  repeat case_if; cbn; intros H; [by rewrite E|by rewrite E|discriminate].
Qed.

Lemma inject_unchanged l r : (inject_memory_reminder l r).2 = false → (inject_memory_reminder l r).1 = l.
Proof.
  unfold inject_memory_reminder. case_if; [done|]. destruct l as [|[] l]; cbn; try done.
  unfold upsert_memory_reminder_text. case_if; cbn; [done|discriminate].
Qed.

Lemma clear_back_length threshold l : ∀ turn seen, length (clear_back threshold turn seen l).1 = length l.
Proof.
  induction l as [|i l IH]; intros turn seen; cbn; [done|].
  destruct i;
    match goal with |- context [clear_back _ ?t ?s l] => pose proof (IH t s) as E; destruct (clear_back threshold t s l) end;
    cbn in *; try (by rewrite E). repeat case_if; cbn; by rewrite E.
Qed.

End counts.

(** ** The file and the memory *)

(** The history an actor starts with: the one it is given, repaired. *)
Definition repaired_start (initial : list ConversationItem) : list ConversationItem :=
  (repair_dangling_tool_calls UserCancelled (dedup_duplicate_tool_results initial).1).1.

(** The file holds the conversation, or nothing was rewritten yet and the file
    and the conversation grew by the same items. *)
Definition in_step (initial : list ConversationItem) (a : Actor) : Prop :=
  disk initial (persistence a) = conversation (state a)
  ∨ ∃ l, disk initial (persistence a) = initial ++ l ∧ conversation (state a) = repaired_start initial ++ l.

Definition restores (cmd : ChatStateCommand) : bool := match cmd with RestoreSnapshot _ => true | _ => false end.

Section mirror.
Context `{JsonSize} (initial : list ConversationItem).

Lemma in_step_same a a' : disk initial (persistence a') = disk initial (persistence a) →
  conversation (state a') = conversation (state a) → in_step initial a → in_step initial a'.
Proof. unfold in_step. by intros -> ->. Qed.

Lemma in_step_state f a : conversation (f (state a)) = conversation (state a) →
  in_step initial a → in_step initial (with_state f a).
Proof. intros E. by apply in_step_same. Qed.

Lemma in_step_start config pruning a : spawn_with_pruning initial config pruning = Some a → in_step initial a.
Proof.
  unfold spawn_with_pruning, ChatState_new. fold (repaired_start initial).
  destruct (estimate_conversation_tokens _); cbn; [|done]. intros [= <-]. right. exists []. by rewrite !app_nil_r.
Qed.

Lemma snapshot_slice_conversation s : conversation (snapshot_turn_slice s) = conversation s.
Proof. unfold snapshot_turn_slice. by destruct (turn_capture s). Qed.
Lemma rebase_conversation s : conversation (rebase_turn_capture_offset s) = conversation s.
Proof. unfold rebase_turn_capture_offset. by destruct (turn_capture s). Qed.
Lemma mark_compaction_conversation s : conversation (mark_compaction s) = conversation s.
Proof. unfold mark_compaction. by destruct (turn_capture s). Qed.
Lemma seal_conversation s : conversation (seal_harness_trace_turn s) = conversation s.
Proof. unfold seal_harness_trace_turn. by case_if. Qed.

Lemma ensure_in_step reason a : in_step initial a → in_step initial (ensure_conversation_integrity_with_reason reason a).
Proof.
  intros Ha. unfold ensure_conversation_integrity_with_reason.
  cbn [state with_state set_field]. rewrite snapshot_slice_conversation.
  pose proof (dedup_count_zero (conversation (state a))) as H1.
  destruct (dedup_duplicate_tool_results (conversation (state a))) as [c1 n1]. cbn in H1.
  pose proof (repair_count_zero reason c1) as H2.
  destruct (repair_dangling_tool_calls reason c1) as [c2 n2]. cbn in H2.
  apply in_step_state; [apply rebase_conversation|]. case_if; [by left|]. revert Ha. apply in_step_same; [done|]. cbn.
  apply orb_false_iff in E as [E1 E2]. apply Nat.ltb_ge in E1, E2. by rewrite H2, H1 by lia.
Qed.

Lemma append_in_step i a : in_step initial a → in_step initial (append_item i a).
Proof. intros [E|(l & E1 & E2)]; [left; cbn; by rewrite E|right]. exists (l ++ [i]). cbn. by rewrite E1, E2, !app_assoc. Qed.

Lemma prune_in_step a n a' : in_step initial a → prune_retained_conversation a = Some (n, a') → in_step initial a'.
Proof.
  intros Ha. unfold prune_retained_conversation. case_if; [by intros [= <- <-]|]. case_if; [by intros [= <- <-]|].
  destruct (conversation_content_bytes (conversation (state a))); cbn; [|done].
  match goal with |- context [clear_back ?t 0 false ?l] =>
    pose proof (clear_back_zero t l 0 false) as Hz; destruct (clear_back t 0 false l) as [l' k] end.
  cbn in Hz. case_if.
  - destruct (conversation_content_bytes (rev l')); cbn; [|done]. intros [= <- <-]. by left.
  - intros [= <- <-]. destruct k; [|discriminate]. rewrite Hz by done. revert Ha. apply in_step_same; [done|]. cbn. by rewrite List.rev_involutive.
Qed.

Lemma push_user_in_step i reason a a' : in_step initial a →
  push_user_message_with_repair_reason i reason a = Some a' → in_step initial a'.
Proof.
  intros Ha. unfold push_user_message_with_repair_reason. destruct (estimate_item_tokens i); cbn; [|done].
  match goal with |- context [prune_retained_conversation ?b] => destruct (prune_retained_conversation b) as [[k b']|] eqn:E end;
    cbn; [|done]. intros [= <-]. eapply prune_in_step; [|exact E].
  by apply append_in_step, in_step_state, ensure_in_step.
Qed.

Lemma replace_in_step l c a a' : replace_conversation l c a = Some a' → in_step initial a'.
Proof.
  unfold replace_conversation. destruct (estimate_conversation_tokens l); cbn; [|done]. intros [= <-].
  left. cbn. rewrite rebase_conversation. by destruct c.
Qed.

Lemma truncate_in_step t a a' : in_step initial a → truncate_to_prompt_index t a = Some a' → in_step initial a'.
Proof.
  unfold truncate_to_prompt_index. case_if; [by intros ? [= <-]|].
  destruct (estimate_conversation_tokens _); cbn; [|done]. intros _ [= <-]. by left.
Qed.

Lemma persist_reminder_in_step r k a : in_step initial a → in_step initial (persist_reminder r k a).2.
Proof.
  intros Ha. unfold persist_reminder. destruct r as [r|]; [|done]. destruct k; [|done].
  cbn [state with_state set_field]. rewrite snapshot_slice_conversation.
  pose proof (inject_unchanged (conversation (state a)) r) as Hu.
  destruct (inject_memory_reminder (conversation (state a)) r) as [c inj]. cbn in Hu |- *.
  apply in_step_state; [apply rebase_conversation|]. destruct inj; [by left|]. revert Ha. apply in_step_same; [done|]. cbn. by rewrite Hu.
Qed.

Lemma build_in_step t r k c q a res a' : in_step initial a →
  build_conversation_request t r k c q a = (res, a') → in_step initial a'.
Proof.
  intros Ha. unfold build_conversation_request. pose proof (persist_reminder_in_step r k a Ha) as Hp.
  destruct (persist_reminder r k a) as [r' b]. cbn in Hp.
  match goal with |- context [let '(l, e) := ?x in _] => destruct x as [l e] end.
  intros [= <- <-]. by case_if.
Qed.

Lemma repair_in_step d a r a' : in_step initial a → actor_repair_history d a = Some (r, a') → in_step initial a'.
Proof.
  intros Ha. unfold actor_repair_history. pose proof (unchanged_same (conversation (state a))) as Hu.
  destruct (repair_history (conversation (state a))) as [l rep]. cbn in Hu. destruct d; [by intros [= <- <-]|].
  destruct (changed rep); [|intros [= <- <-]; revert Ha; apply in_step_same; [done|cbn; by rewrite Hu]].
  destruct (replace_conversation _ _ _) as [b|] eqn:E; cbn; [|done]. intros [= <- <-]. by eapply replace_in_step.
Qed.

Lemma system_head_in_step p a r a' : in_step initial a → replace_system_head p a = Some (r, a') → in_step initial a'.
Proof.
  intros Ha. unfold replace_system_head. case_if; [by intros [= <- <-]|].
  destruct (replace_or_insert_system_head p (conversation (state a))) as [c ch].
  destruct (replace_conversation _ _ _) as [b|] eqn:E'; cbn; [|done]. intros [= <- <-]. by eapply replace_in_step.
Qed.

Lemma quiet_Some x r a' : quiet x = Some (r, a') → x = Some a' ∧ r = NoReply.
Proof. destruct x; cbn; [|done]. by intros [= <- <-]. Qed.

Lemma step_in_step cmd a r a' : restores cmd = false → in_step initial a →
  handle_command cmd a = Some (r, a') → in_step initial a'.
Proof.
  intros Hr Ha. destruct cmd; try discriminate Hr; cbn [handle_command];
    try (by intros [= <- <-]);
    try (intros [= <- <-]; apply in_step_state; [|exact Ha]; cbn; done);
    try (intros [E _]%quiet_Some; by eauto using push_user_in_step, replace_in_step).
  all: try (intros [= <- <-]; by apply ensure_in_step).
  - intros [E _]%quiet_Some. revert E. unfold push_message. case_if; [intros [= <-]; by apply append_in_step|].
    destruct (estimate_item_tokens i); cbn; [|done]. intros [= <-]. by apply append_in_step, in_step_state.
  - intros [E _]%quiet_Some. revert E. unfold push_message. case_if; [intros [= <-]; by apply append_in_step|].
    destruct (estimate_item_tokens i); cbn; [|done]. intros [= <-]. by apply append_in_step, in_step_state.
  - intros [E _]%quiet_Some. revert E. unfold record_token_usage.
    destruct (estimate_conversation_tokens _); cbn; [|done]. by intros [= <-].
  - intros [= <- <-]. apply in_step_state; [|exact Ha]. unfold record_subagent_usage. case_if; [done|]. by case_if.
  - intros [= <- <-]. apply in_step_state; [|exact Ha]. unfold mark_usage_incomplete. by repeat case_if.
  - case_if; [by intros [= <- <-]|]. destruct (actor_repair_history dry_run a) as [[? ?]|] eqn:E'; cbn; [|done].
    intros [= <- <-]. by eapply repair_in_step.
  - destruct (replace_system_head prompt a) as [[? ?]|] eqn:E; cbn; [|done].
    intros [= <- <-]. by eapply system_head_in_step.
  - intros [= <- <-]. apply in_step_state; [apply seal_conversation|done].
  - destruct (build_conversation_request _ _ _ _ _ _) as [q b] eqn:E. intros [= <- <-].
    eapply build_in_step; [|exact E]. by apply ensure_in_step.
  - destruct (truncate_to_prompt_index target a) as [b|] eqn:E; cbn; [|done]. intros [= <- <-].
    apply in_step_state; [done|]. by eapply truncate_in_step.
  - intros [= <- <-]. revert Ha. apply in_step_same; [done|]. cbn. by rewrite seal_conversation.
  - destruct (estimate_messages_tokens _); cbn; [|done]. by intros [= <- <-].
Qed.
End mirror.

(** ** The capture of a turn *)

(** A capture is active, and would return [l]. *)
Definition capturing (l : list ConversationItem) (compacted : bool) (s : ChatState) : Prop :=
  ∃ cap, turn_capture s = Some cap ∧ turn_start_offset cap ≤ length (conversation s)
         ∧ pre_replacement_messages cap ++ skipn (turn_start_offset cap) (conversation s) = l
         ∧ compaction_occurred cap = compacted.

Definition pushed (cmd : ChatStateCommand) : list ConversationItem :=
  match cmd with
  | PushUserMessage i | PushUserMessageAndAck i | PushUserMessageWithRepairReason i _
  | PushAssistantResponse i | PushToolResult i => [i]
  | _ => []
  end.

Definition compacts (cmd : ChatStateCommand) : bool :=
  match cmd with ReplaceConversation _ c => c | _ => false end.

(** What a turn does: messages of the user are not tool results, and the capture
    is neither started again, nor taken, nor given up by a rewind; the history is
    not repaired under it. *)
Definition within_turn (cmd : ChatStateCommand) : bool :=
  match cmd with
  | PushUserMessage i | PushUserMessageAndAck i | PushUserMessageWithRepairReason i _ => negb (is_tool_result i)
  | BeginTurnCapture | TakeTurnMessages | TruncateToPromptIndex _ => false
  | RepairHistory dry_run turn_active => dry_run || default false turn_active
  | _ => true
  end.

Section capture.
Context `{JsonSize}.

Lemma capturing_same f s l b : turn_capture (f s) = turn_capture s → conversation (f s) = conversation s →
  capturing l b s → capturing l b (f s).
Proof. unfold capturing. by intros -> ->. Qed.

Lemma capturing_append i s l b : capturing l b s →
  capturing (l ++ [i]) b (s <| conversation := conversation s ++ [i] |>).
Proof.
  intros (cap & Hc & Ho & Hl & Hb). exists cap. cbn. split_and!; [done| | |done].
  - rewrite length_app. lia.
  - by rewrite drop_app_le, app_assoc, Hl by done.
Qed.

Lemma capturing_rebase c s l b : capturing l b s →
  capturing l b (rebase_turn_capture_offset (snapshot_turn_slice s <| conversation := c |>)).
Proof.
  intros (cap & Hc & Ho & Hl & Hb). unfold snapshot_turn_slice, rebase_turn_capture_offset. rewrite Hc. cbn.
  eexists. split; [done|]. cbn. split_and!; [done| |done].
  rewrite drop_all, app_nil_r. unfold turn_tail. by rewrite (proj2 (Nat.leb_le _ _) Ho).
Qed.

Lemma capturing_compacted c s l b : capturing l b s →
  capturing l true (rebase_turn_capture_offset (mark_compaction (snapshot_turn_slice s) <| conversation := c |>)).
Proof.
  intros (cap & Hc & Ho & Hl & Hb). unfold snapshot_turn_slice, mark_compaction, rebase_turn_capture_offset. rewrite Hc. cbn.
  eexists. split; [done|]. cbn. split_and!; [done| |done].
  rewrite drop_all, app_nil_r. unfold turn_tail. by rewrite (proj2 (Nat.leb_le _ _) Ho).
Qed.

Definition answered (reason : DanglingToolCallReason) (c : list ConversationItem) : list ConversationItem :=
  (repair_dangling_tool_calls reason (dedup_duplicate_tool_results c).1).1.

Lemma ensure_state reason a : state (ensure_conversation_integrity_with_reason reason a)
  = rebase_turn_capture_offset
      (snapshot_turn_slice (state a) <| conversation := answered reason (conversation (state a)) |>).
Proof.
  unfold ensure_conversation_integrity_with_reason, answered. cbn [state with_state set_field].
  rewrite snapshot_slice_conversation.
  destruct (dedup_duplicate_tool_results _) as [c1 n1]. cbn [fst].
  destruct (repair_dangling_tool_calls reason c1) as [c2 n2]. by case_if.
Qed.

Lemma ensure_capturing reason a l b : capturing l b (state a) →
  capturing l b (state (ensure_conversation_integrity_with_reason reason a)).
Proof. intros Ha. rewrite ensure_state. by apply capturing_rebase. Qed.

(** After the repair of a push nothing of the tail is left to look at. *)
Lemma ensure_rebased reason a l b : capturing l b (state a) →
  ∃ cap, turn_capture (state (ensure_conversation_integrity_with_reason reason a)) = Some cap
    ∧ turn_start_offset cap = length (conversation (state (ensure_conversation_integrity_with_reason reason a)))
    ∧ pre_replacement_messages cap = l ∧ compaction_occurred cap = b.
Proof.
  intros (cap & Hc & Ho & Hl & Hb). rewrite ensure_state. unfold snapshot_turn_slice, rebase_turn_capture_offset.
  rewrite Hc. cbn. eexists; split; [done|]; cbn; split_and!; [done| |done].
  unfold turn_tail; by rewrite (proj2 (Nat.leb_le _ _) Ho).
Qed.

Lemma clear_back_head t i l : is_tool_result i = false → ∃ turn seen,
  (clear_back t 0 false (i :: l)).1 = i :: (clear_back t turn seen l).1.
Proof.
  intros Hi. destruct i; try discriminate Hi; cbn;
    match goal with |- context [clear_back t ?u ?s l] => exists u, s; by destruct (clear_back t u s l) end.
Qed.

Lemma prune_capturing a n a' c i cap : is_tool_result i = false →
  conversation (state a) = c ++ [i] → turn_capture (state a) = Some cap → turn_start_offset cap = length c →
  prune_retained_conversation a = Some (n, a') →
  capturing (pre_replacement_messages cap ++ [i]) (compaction_occurred cap) (state a').
Proof.
  intros Hi Hc Hcap Ho.
  assert (∀ s c', turn_capture s = Some cap → length c' = length c → conversation s = c' ++ [i] →
    capturing (pre_replacement_messages cap ++ [i]) (compaction_occurred cap) s) as Hs.
  { intros s c' E1 E2 E3. exists cap. split; [done|]. rewrite E3, length_app, Ho, <-E2. cbn.
    split_and!; [lia| |done]. by rewrite drop_app_length. }
  unfold prune_retained_conversation. case_if; [by intros [= <- <-]; eapply Hs|].
  case_if; [by intros [= <- <-]; eapply Hs|]. destruct (conversation_content_bytes (conversation (state a))); cbn [mbind option_bind]; [|done].
  match goal with |- context [clear_back ?t 0 false _] => generalize t end. intros t.
  rewrite Hc, List.rev_app_distr. cbn [rev app].
  match goal with |- context [clear_back ?t 0 false (i :: ?l)] =>
    pose proof (clear_back_head t i l Hi) as (turn & seen & E'); destruct (clear_back t 0 false (i :: l)) as [l' k];
    cbn in E'; subst l' end.
  cbn [rev].
  match goal with |- context [rev ?x ++ [i]] => set (c' := rev x) end.
  assert (length c' = length c) as Hl by (subst c'; rewrite length_rev, clear_back_length, length_rev; done).
  case_if; [destruct (conversation_content_bytes (c' ++ [i])); cbn; [|done]|]; intros [= <- <-]; by eapply Hs.
Qed.

Lemma push_user_capturing i reason a a' l b : is_tool_result i = false → capturing l b (state a) →
  push_user_message_with_repair_reason i reason a = Some a' → capturing (l ++ [i]) b (state a').
Proof.
  intros Hi Ha. unfold push_user_message_with_repair_reason. destruct (estimate_item_tokens i); cbn [mbind option_bind]; [|done].
  destruct (ensure_rebased reason a l b Ha) as (cap & Hc & Ho & <- & <-).
  match goal with |- context [prune_retained_conversation ?x] => destruct (prune_retained_conversation x) as [[k x']|] eqn:E end;
    cbn; [|done]. intros [= <-]. by eapply prune_capturing in E.
Qed.

Lemma push_capturing i a a' l b : capturing l b (state a) → push_message i a = Some a' → capturing (l ++ [i]) b (state a').
Proof.
  intros Ha. unfold push_message. case_if; [intros [= <-]; by apply capturing_append|].
  destruct (estimate_item_tokens i); cbn; [|done]. intros [= <-]. apply (capturing_append i).
  by apply (capturing_same (count_new n)).
Qed.

Lemma replace_capturing c comp a a' l b : capturing l b (state a) →
  replace_conversation c comp a = Some a' → capturing l (b || comp) (state a').
Proof.
  intros Ha. unfold replace_conversation. destruct (estimate_conversation_tokens c); cbn [mbind option_bind]; [|done].
  intros [= <-].
  match goal with |- context [reseeded_tokens ?x ?y ?z ?w] => generalize (reseeded_tokens x y z w) end. intros est.
  destruct comp; cbn; [rewrite orb_true_r|rewrite orb_false_r].
  - pose proof (capturing_compacted c (state a) l b Ha) as Hk.
    destruct Ha as (cap & Hc & _). unfold snapshot_turn_slice, mark_compaction, rebase_turn_capture_offset in *.
    rewrite Hc in *. exact Hk.
  - pose proof (capturing_rebase c (state a) l b Ha) as Hk.
    destruct Ha as (cap & Hc & _). unfold snapshot_turn_slice, rebase_turn_capture_offset in *. rewrite Hc in *. exact Hk.
Qed.

Lemma restore_capturing snap a a' l b : capturing l b (state a) → restore_snapshot snap a = Some a' → capturing l b (state a').
Proof.
  intros Ha. unfold restore_snapshot. pose proof (capturing_rebase (snap_conversation snap) (state a) l b Ha) as Hk.
  destruct Ha as (cap & Hc & _). unfold snapshot_turn_slice, rebase_turn_capture_offset in *.
  match goal with |- context [mbind _ ?x] => destruct x end; cbn [mbind option_bind]; [|done].
  intros [= <-]. cbn. rewrite Hc in *. exact Hk.
Qed.

Lemma persist_reminder_capturing r k a l b : capturing l b (state a) → capturing l b (state (persist_reminder r k a).2).
Proof.
  intros Ha. unfold persist_reminder. destruct r as [r|]; [|done]. destruct k; [|done].
  cbn [state with_state set_field].
  destruct (inject_memory_reminder _ r) as [c inj]. destruct inj; by apply capturing_rebase.
Qed.

Lemma build_capturing t r k c q a res a' l b : capturing l b (state a) →
  build_conversation_request t r k c q a = (res, a') → capturing l b (state a').
Proof.
  intros Ha. unfold build_conversation_request. pose proof (persist_reminder_capturing r k a l b Ha) as Hp.
  destruct (persist_reminder r k a) as [r' x]. cbn in Hp.
  match goal with |- context [let '(l, e) := ?x in _] => destruct x as [c' e] end.
  intros [= <- <-]. by case_if.
Qed.

Lemma repair_capturing a r a' l b : capturing l b (state a) → actor_repair_history true a = Some (r, a') →
  capturing l b (state a').
Proof. intros Ha. unfold actor_repair_history. destruct (repair_history _). by intros [= <- <-]. Qed.

Lemma system_head_capturing p a r a' l b : capturing l b (state a) → replace_system_head p a = Some (r, a') →
  capturing l b (state a').
Proof.
  intros Ha. unfold replace_system_head. case_if; [by intros [= <- <-]|].
  destruct (replace_or_insert_system_head p _) as [c ch].
  destruct (replace_conversation c false a) as [x|] eqn:Er; cbn; [|done]. intros [= <- <-].
  apply (replace_capturing c false a x l b Ha) in Er. by rewrite orb_false_r in Er.
Qed.

Lemma step_capturing cmd a r a' l b : within_turn cmd = true → capturing l b (state a) →
  handle_command cmd a = Some (r, a') → capturing (l ++ pushed cmd) (b || compacts cmd) (state a').
Proof.
  intros Hw Ha. destruct cmd; try discriminate Hw; cbn [handle_command pushed compacts];
    rewrite ?app_nil_r, ?orb_false_r;
    try (by intros [= <- <-]);
    try (intros [= <- <-]; by eapply capturing_same);
    try (intros [E _]%quiet_Some; cbn in Hw; bools;
         by eauto using push_user_capturing, push_capturing, replace_capturing, restore_capturing).
  all: try (intros [= <- <-]; by apply ensure_capturing).
  - intros [E _]%quiet_Some. revert E. unfold record_token_usage.
    destruct (estimate_conversation_tokens _); cbn; [|done]. intros [= <-]. by eapply capturing_same.
  - intros [= <- <-]. apply capturing_same; [..|done]; unfold record_subagent_usage; case_if; try done; by case_if.
  - intros [= <- <-]. apply capturing_same; [..|done]; unfold mark_usage_incomplete; by repeat case_if.
  - case_if; [by intros [= <- <-]|]. destruct dry_run; [|exfalso; revert Hw E; cbn; by intros ->].
    destruct (actor_repair_history true a) as [[? ?]|] eqn:E'; cbn; [|done]. intros [= <- <-]. by eapply repair_capturing.
  - destruct (replace_system_head prompt a) as [[? ?]|] eqn:E; cbn; [|done].
    intros [= <- <-]. by eapply system_head_capturing.
  - intros [= <- <-]. apply capturing_same; [..|done]; unfold seal_harness_trace_turn; by case_if.
  - destruct (build_conversation_request _ _ _ _ _ _) as [q x] eqn:E. intros [= <- <-].
    eapply build_capturing; [|exact E]. by apply ensure_capturing.
  - intros [= <- <-]. apply (capturing_same (λ s, seal_harness_trace_turn s <| harness_trace_turns := [] |>)); [..|done];
      cbn; unfold seal_harness_trace_turn; by case_if.
  - destruct (estimate_messages_tokens _); cbn; [|done]. by intros [= <- <-].
Qed.

Lemma run_capturing cmds : ∀ a rs a' l b, forallb within_turn cmds = true → capturing l b (state a) →
  run (map WakeCommand cmds) a = Some (rs, a') →
  capturing (l ++ flat_map pushed cmds) (b || any compacts cmds) (state a').
Proof.
  induction cmds as [|cmd cmds IH]; intros a rs a' l b Hw Ha; cbn [map run].
  - intros [= <- <-]. cbn. by rewrite app_nil_r, orb_false_r.
  - cbn in Hw. apply andb_true_iff in Hw as [Hc Hw].
    destruct (handle_command cmd a) as [[r a1]|] eqn:E1; cbn; [|done].
    destruct (run (map WakeCommand cmds) a1) as [[rs' a2]|] eqn:E2; cbn; [|done]. intros [= <- <-].
    rewrite app_assoc, orb_assoc. eapply IH; [done| |done]. by eapply step_capturing.
Qed.

Lemma begin_capturing s : capturing [] false (begin_turn_capture s).
Proof. eexists. split; [done|]. cbn. by rewrite drop_all. Qed.

Lemma take_capturing l b s : capturing l b s → (take_turn_messages s).1 = Some (mkTurnCapture l b).
Proof.
  intros (cap & Hc & Ho & Hl & Hb). unfold take_turn_messages. rewrite Hc. cbn. unfold turn_tail.
  by rewrite (proj2 (Nat.leb_le _ _) Ho), Hl, Hb.
Qed.
End capture.

(** ** What a request holds *)

(** In the run after each message that calls tools, every call has exactly one
    result. *)
Definition segment_answered (s : Segment) : Prop :=
  match s.1 with
  | Assistant a => tool_calls a ≠ [] →
      NoDup (map tool_call_id s.2) ∧ ∀ c, c ∈ tool_calls a → call_id c ∈ map tool_call_id s.2
  | _ => True
  end.
Definition answered_once (l : list ConversationItem) : Prop := Forall segment_answered (segments l).2.

(** Items that differ in nothing the pairing depends on. *)
Definition same_shape (i j : ConversationItem) : Prop :=
  match i, j with
  | Assistant a, Assistant b => tool_calls a = tool_calls b
  | ToolResult t, ToolResult u => tool_call_id t = tool_call_id u
  | Assistant _, _ | _, Assistant _ | ToolResult _, _ | _, ToolResult _ => False
  | _, _ => True
  end.

Section shape.

Lemma same_shape_refl i : same_shape i i.
Proof. by destruct i. Qed.

Lemma same_shape_all l : Forall2 same_shape l l.
Proof. induction l; constructor; [apply same_shape_refl|done]. Qed.

Lemma segments_shape l l' : Forall2 same_shape l l' →
  map tool_call_id (segments l).1 = map tool_call_id (segments l').1
  ∧ Forall2 (λ s s', same_shape s.1 s'.1 ∧ map tool_call_id s.2 = map tool_call_id s'.2) (segments l).2 (segments l').2.
Proof.
  induction 1 as [|i j l l' Hij Hl [IH1 IH2]]; [split; constructor|]. cbn.
  destruct (segments l) as [r ss], (segments l') as [r' ss']. cbn in *.
  destruct i, j; try done; cbn; (split; [try done; by rewrite Hij, IH1|try done; by constructor]).
Qed.

Lemma answered_shape l l' : Forall2 same_shape l l' → answered_once l → answered_once l'.
Proof.
  intros Hl. apply segments_shape in Hl as [_ Hl]. unfold answered_once.
  induction Hl as [|[i r] [j r'] ss ss' [Hij Hr] Hss IH]; [done|]. rewrite !Forall_cons. intros [Hs Hf].
  split; [|by apply IH]. cbn in *. unfold segment_answered in *. cbn in *.
  destruct i, j; try done. by rewrite <-Hij, <-Hr.
Qed.

Lemma answered_system s l : answered_once l → answered_once (System s :: l).
Proof. unfold answered_once. cbn. destruct (segments l) as [r ss]. cbn. intros. by constructor. Qed.

Lemma Forall2_rev_shape l l' : Forall2 same_shape l l' → Forall2 same_shape (rev l) (rev l').
Proof. induction 1; cbn; [constructor|]. apply Forall2_app; [done|]. by repeat constructor. Qed.

Lemma walk_back_shape f l : (∀ n t, tool_call_id (f n t) = tool_call_id t) → ∀ n b,
  Forall2 same_shape l (walk_back f n b l).
Proof.
  intros Hf. induction l as [|i l IH]; intros n b; [constructor|].
  destruct i; cbn; constructor; try done; cbn; by rewrite ?Hf.
Qed.

Lemma prune_shape config l : Forall2 same_shape l (prune_conversation config l).
Proof.
  unfold prune_conversation. case_if; [apply same_shape_all|].
  rewrite <-(List.rev_involutive l) at 1. apply Forall2_rev_shape, walk_back_shape.
  intros n t. unfold prune_result. by repeat case_if.
Qed.

Lemma evict_shape `{JsonSize} target c : ∀ running n, Forall2 same_shape c (evict_items target running n c).1.1.
Proof.
  induction c as [|i c IH]; intros running n; [constructor|]. destruct i; cbn;
    try (match goal with |- context [evict_items target ?r ?k c] =>
           pose proof (IH r k) as E; destruct (evict_items target r k c) as [[c' r'] k'] end;
         constructor; [cbn; done|exact E]).
  destruct (evict_parts target running n (parts u)) as [[ps r1] k1].
  pose proof (IH r1 k1) as E. destruct (evict_items target r1 k1 c) as [[c' r'] k']. constructor; [done|exact E].
Qed.

Lemma inject_answered l r : answered_once l → answered_once (inject_memory_reminder l r).1.
Proof.
  intros Hl. unfold inject_memory_reminder. case_if; [done|]. destruct l as [|[] l]; try by apply answered_system.
  destruct (upsert_memory_reminder_text system_text (trim r)) as [s ch]. cbn. revert Hl. apply answered_shape.
  constructor; [done|apply same_shape_all].
Qed.

Lemma answered_conversation reason c : calls_distinct c → answered_once (answered reason c).
Proof.
  intros Hd. apply distinct_segments in Hd. destruct (view c) as (run & ss & -> & Hss & Hseg). rewrite Hseg in Hd. cbn in Hd.
  unfold answered. rewrite dedup_spec by done. cbn [fst].
  assert (heads_ok (map dedup_segment ss)) as Hh by (apply map_heads_ok; [apply dedup_segment_head|done]).
  rewrite repair_dangling_spec by done. cbn [fst]. unfold answered_once.
  rewrite segments_render by (apply map_heads_ok; [apply answer_head|done]). cbn [snd]. rewrite map_map.
  apply Forall_fmap. eapply Forall_impl; [exact Hd|]. intros [i r] Hi. unfold segment_answered, segment_distinct in *. cbn in *.
  destruct i as [| |a| | |]; try done. cbn. intros Hne. destruct (tool_calls a) as [|c0 cs] eqn:Ea; [done|]. cbn [is_nil].
  rewrite <-Ea in *. rewrite map_app. unfold synthetic_run. rewrite map_map. cbn.
  assert (∀ c, answered_by (keep_last r) c = true ↔ call_id c ∈ map tool_call_id r) as Hans.
  { intros c. by rewrite answered_spec, keep_last_ids. }
  split.
  - apply NoDup_app. split_and!; [apply keep_last_NoDup| |].
    + intros id Hin. rewrite list_elem_of_fmap. intros (c & -> & [_ Hn]%elem_of_bfilter).
      apply negb_true_iff in Hn. rewrite keep_last_ids in Hin. apply Hans in Hin. congruence.
    + assert (∀ (p : ToolCall → bool) l, NoDup (map call_id l) → NoDup (map (λ c, call_id c) (bfilter p l))) as Hnd;
        [|by apply Hnd].
      intros p l. unfold bfilter. induction l as [|x l IH]; cbn; [done|]. intros [Hx Hl]%NoDup_cons.
      case_if; cbn; [|by apply IH]. constructor; [|by apply IH].
      rewrite list_elem_of_fmap. intros (y & E' & Hy). apply Hx. rewrite E'. apply list_elem_of_fmap_2.
      change (y ∈ bfilter p l) in Hy. by apply elem_of_bfilter in Hy as [? _].
  - intros c Hc. rewrite elem_of_app, keep_last_ids. destruct (answered_by (keep_last r) c) eqn:E; [left; by apply Hans|right].
    apply list_elem_of_fmap. exists c. split; [done|]. apply elem_of_bfilter. by rewrite E.
Qed.

Lemma persist_reminder_answered `{JsonSize} r k a : answered_once (conversation (state a)) →
  answered_once (conversation (state (persist_reminder r k a).2)).
Proof.
  intros Ha. unfold persist_reminder. destruct r as [r|]; [|done]. destruct k; [|done].
  cbn [state with_state set_field]. rewrite snapshot_slice_conversation.
  pose proof (inject_answered _ r Ha) as Hi.
  destruct (inject_memory_reminder (conversation (state a)) r) as [c inj]. cbn in Hi |- *.
  destruct inj; cbn; by rewrite rebase_conversation.
Qed.

Lemma build_answered `{JsonSize} t r k c q a res a' : answered_once (conversation (state a)) →
  build_conversation_request t r k c q a = (res, a') → answered_once (request_items res).
Proof.
  intros Ha. unfold build_conversation_request. pose proof (persist_reminder_answered r k a Ha) as Hp.
  destruct (persist_reminder r k a) as [r' x]. cbn in Hp.
  match goal with |- context [let '(l, e) := ?y in _] => set (y' := y) end.
  assert (answered_once y'.1) as Hy.
  { subst y'. case_if; [|done]. unfold compact_images_to_byte_budget. case_if; [done|].
    match goal with |- context [evict_items ?t ?r ?n ?c] =>
      pose proof (evict_shape t c r n) as E'; destruct (evict_items t r n c) as [[c' r''] n'] end.
    cbn in *. by eapply answered_shape. }
  destruct y' as [l e]. cbn in Hy. intros [= <- <-]. cbn.
  assert (∀ l, answered_once l → answered_once match r' with Some r0 => (inject_memory_reminder l r0).1 | None => l end) as Hj.
  { intros l' Hl'. destruct r'; [by apply inject_answered|done]. }
  apply Hj. case_if; [|done]. eapply answered_shape; [apply prune_shape|done].
Qed.

End shape.

(** ** Theorems *)

(** C10: The file follows the conversation. An actor is spawned on a history,
    which it repairs in memory without writing the repair; then come any commands
    but [RestoreSnapshot], in any order. Whatever they are, what the persistence
    layer was told leaves on disk exactly the conversation in memory, or else no
    rewrite of the file took place yet and the file is the history as it was
    given followed by exactly the items that the memory has after the repaired
    history. So an appended message, a later repair, a pruning, a compaction, a
    new system message, a stored reminder and a rewind all reach the file, and
    when the history needed no repair the two are always equal. *)
Theorem file_mirrors_the_conversation `{JsonSize} initial config pruning cmds a rs a' :
  spawn_with_pruning initial config pruning = Some a → forallb (λ c, negb (restores c)) cmds = true →
  run (map WakeCommand cmds) a = Some (rs, a') →
  disk initial (persistence a') = conversation (state a')
  ∨ ∃ l, disk initial (persistence a') = initial ++ l ∧ conversation (state a') = repaired_start initial ++ l.
Proof.
  intros Ha%in_step_start Hok Hrun.
  eapply (run_invariant (in_step initial) (λ c, restores c = false)); [|..]; [| |exact Ha|exact Hrun].
  - intros cmd x r x'. apply step_in_step.
  - apply Forall_forall. intros c Hc. rewrite forallb_forall in Hok.
    apply negb_true_iff, Hok. by apply list_elem_of_In.
Qed.

(** C11: A capture begun before a turn returns, when it is taken, exactly the
    items pushed in between, in their order, and whether a compaction happened.
    The commands in between are any ([within_turn]) but these: a user message
    that is a tool result; a second begin or take of the capture and a rewind,
    which give the capture up; and an out-of-band [RepairHistory] that is carried
    out, that is neither a dry run nor refused because a turn is active (it
    empties the capture, [repair_empties_the_capture]). So the repairs the actor
    makes by itself, at a user message, a halt or a request, prunings,
    compactions, restored snapshots, new system messages and stored reminders in
    the middle of the turn neither lose nor repeat an item. *)
Theorem captured_turn_is_what_was_pushed `{JsonSize} cmds a rs a' :
  forallb within_turn cmds = true →
  run (map WakeCommand (BeginTurnCapture :: cmds ++ [TakeTurnMessages])) a = Some (rs, a') →
  last rs = Some (RTurn (Some (mkTurnCapture (flat_map pushed cmds) (any compacts cmds))))
  ∧ turn_capture (state a') = None.
Proof.
  intros Hw. change (BeginTurnCapture :: cmds ++ [TakeTurnMessages]) with ([BeginTurnCapture] ++ cmds ++ [TakeTurnMessages]).
  rewrite run_app. cbn [map run handle_command mbind option_bind fst snd]. rewrite run_app.
  destruct (run (map WakeCommand cmds) _) as [[rs1 a1]|] eqn:E; cbn [mbind option_bind]; [|done].
  apply (run_capturing cmds (with_state begin_turn_capture a) rs1 a1 [] false Hw (begin_capturing (state a))) in E. cbn in E.
  apply take_capturing in E. cbn. unfold take_turn_messages in E. cbn in E. rewrite E. intros [= <- <-].
  split; [|done]. by rewrite last_cons, last_snoc.
Qed.

(** C4: In the request built from a conversation whose messages give each of
    their calls its own identifier, the run after every message that calls tools
    has exactly one result for every call, whatever was pruned, evicted or
    injected for the request; and a request that needs none of it holds the
    conversation as it is. *)
Theorem request_answers_every_call `{JsonSize} t r k c q a res a' :
  calls_distinct (conversation (state a)) →
  handle_command (BuildConversationRequest t r k c q) a = Some (RRequest res, a') →
  answered_once (request_items res)
  ∧ (should_prune (total_tokens (state a)) (context_window (sampling_config (state a))) = false → r = None →
     (conversation_body_bytes (conversation (state a')) < IMAGE_COMPACT_TRIGGER_BYTES)%N →
     request_items res = conversation (state a')).
Proof.
  intros Hd. cbn [handle_command].
  destruct (build_conversation_request _ _ _ _ _ _) as [res' x] eqn:E. intros [= <- <-]. split.
  - eapply build_answered; [|exact E]. unfold ensure_conversation_integrity.
    rewrite ensure_state, rebase_conversation. by apply answered_conversation.
  - intros Hp -> Hb. revert E Hb. unfold build_conversation_request, ensure_conversation_integrity. cbn [persist_reminder].
    rewrite ensure_state.
    assert (∀ s c, total_tokens (rebase_turn_capture_offset (snapshot_turn_slice s <| conversation := c |>)) = total_tokens s
      ∧ sampling_config (rebase_turn_capture_offset (snapshot_turn_slice s <| conversation := c |>)) = sampling_config s) as Hs.
    { intros s c'. unfold rebase_turn_capture_offset, snapshot_turn_slice. destruct (turn_capture s) eqn:Et; cbn; by rewrite ?Et. }
    destruct (Hs (state a) (answered UserCancelled (conversation (state a)))) as [-> ->]. rewrite Hp.
    destruct (IMAGE_COMPACT_TRIGGER_BYTES <=? _)%N eqn:Eb.
    + apply N.leb_le in Eb.
      match goal with |- context [let '(l, e) := ?y in _] => destruct y as [l e] end. intros [= <- <-] Hb.
      case_if; cbn [state send_event set_field] in Hb; rewrite ensure_state in Hb; lia.
    + intros [= <- <-] _. case_if; cbn [state send_event set_field request_items]; by rewrite ensure_state.
Qed.
