(* ===== verification/ChatUsageFacts.v ===== *)
(** * The chat state actor: bills, panics and what can be lost

    The ledgers of a session and of its open prompt add up whatever the actor is
    told; the actor handles every command as long as it can price the items it is
    given; and three runs show where the memory, the file and the capture part. *)

From Stdlib Require Import Ascii String ZArith SpecFloat.
From S2P Require Import Prelude RustStr TrimLemmas AuditParse Conversation ConversationFacts HistoryPrep RequestBuild Usage ChatState ChatStateFacts.
From stdpp Require Import options.

#[local] Open Scope nat_scope.

(** ** Bills *)

Definition bills_ok (s : ChatState) : Prop :=
  ledger_ok (session_usage s) ∧ ∀ l, prompt_usage s = Some l → ledger_ok l.

(** What a sampler and a subagent report fits the types of the wire. *)
Definition reports_fit (cmd : ChatStateCommand) : Prop :=
  match cmd with
  | RecordModelCallUsage _ usage duration _ => usage_fits usage ∧ (default 0 duration ≤ u64_max)%N
  | RecordSubagentUsage entries _ _ => Forall (λ e, totals_fit e.2) entries
  | _ => True
  end.

(** The ledgers are those of before, but for an abandoned prompt. *)
Definition same_bills (s s' : ChatState) : Prop :=
  session_usage s' = session_usage s ∧ (prompt_usage s' = prompt_usage s ∨ prompt_usage s' = None).

Section bills.
Context `{JsonSize}.

Lemma same_bills_ok s s' : same_bills s s' → bills_ok s → bills_ok s'.
Proof.
  intros [E1 E2] [H1 H2]. split; [by rewrite E1|]. intros l Hl. destruct E2 as [E2|E2]; rewrite E2 in Hl; [by apply H2|done].
Qed.

Lemma same_bills_refl s : same_bills s s.
Proof. split; [done|by left]. Qed.

Lemma same_bills_trans s1 s2 s3 : same_bills s1 s2 → same_bills s2 s3 → same_bills s1 s3.
Proof. intros [E1 E2] [E3 E4]. split; [congruence|]. destruct E4 as [->| ->]; [done|by right]. Qed.

Lemma snapshot_bills s : same_bills s (snapshot_turn_slice s).
Proof. unfold snapshot_turn_slice. destruct (turn_capture s); split; by try left. Qed.
Lemma rebase_bills s : same_bills s (rebase_turn_capture_offset s).
Proof. unfold rebase_turn_capture_offset. destruct (turn_capture s); split; by try left. Qed.
Lemma mark_compaction_bills s : same_bills s (mark_compaction s).
Proof. unfold mark_compaction. destruct (turn_capture s); split; by try left. Qed.
Lemma conversation_bills s c : same_bills s (s <| conversation := c |>).
Proof. split; by try left. Qed.

Lemma shifted_bills s c : same_bills s (rebase_turn_capture_offset (snapshot_turn_slice s <| conversation := c |>)).
Proof.
  eapply same_bills_trans; [apply snapshot_bills|]. eapply same_bills_trans; [apply conversation_bills|apply rebase_bills].
Qed.

Lemma prune_bills a n a' : prune_retained_conversation a = Some (n, a') → same_bills (state a) (state a').
Proof.
  unfold prune_retained_conversation. case_if; [intros [= <- <-]; apply same_bills_refl|].
  case_if; [intros [= <- <-]; apply same_bills_refl|].
  destruct (conversation_content_bytes _); cbn [mbind option_bind]; [|done].
  destruct (clear_back _ _ _ _) as [l k]. case_if; [destruct (conversation_content_bytes _); cbn; [|done]|];
    intros [= <- <-]; apply conversation_bills.
Qed.

Lemma push_user_bills i reason a a' : push_user_message_with_repair_reason i reason a = Some a' →
  same_bills (state a) (state a').
Proof.
  unfold push_user_message_with_repair_reason. destruct (estimate_item_tokens i); cbn [mbind option_bind]; [|done].
  match goal with |- context [prune_retained_conversation ?x] => destruct (prune_retained_conversation x) as [[k x']|] eqn:E end;
    cbn; [|done]. intros [= <-]. apply prune_bills in E. eapply same_bills_trans; [|exact E]. cbn.
  eapply same_bills_trans; [|split; [done|by left]]. rewrite ensure_state. apply shifted_bills.
Qed.

Lemma replace_bills c comp a a' : replace_conversation c comp a = Some a' → same_bills (state a) (state a').
Proof.
  unfold replace_conversation. destruct (estimate_conversation_tokens c); cbn [mbind option_bind]; [|done].
  intros [= <-]. cbn. eapply same_bills_trans; [|apply rebase_bills].
  destruct comp; cbn.
  - eapply same_bills_trans; [apply snapshot_bills|]. eapply same_bills_trans; [apply mark_compaction_bills|]. split; by try left.
  - eapply same_bills_trans; [apply snapshot_bills|]. split; by try left.
Qed.

Lemma persist_reminder_bills r k a : same_bills (state a) (state (persist_reminder r k a).2).
Proof.
  unfold persist_reminder. destruct r as [r|]; [|apply same_bills_refl]. destruct k; [|apply same_bills_refl].
  cbn [state with_state set_field]. destruct (inject_memory_reminder _ r) as [c inj]. destruct inj; apply shifted_bills.
Qed.

Lemma build_bills t r k c q a res a' : build_conversation_request t r k c q a = (res, a') → same_bills (state a) (state a').
Proof.
  unfold build_conversation_request. pose proof (persist_reminder_bills r k a) as Hp.
  destruct (persist_reminder r k a) as [r' x]. cbn in Hp.
  match goal with |- context [let '(l, e) := ?x in _] => destruct x as [c' e] end.
  intros [= <- <-]. by case_if.
Qed.

Lemma open_ledger_ok s : bills_ok s → ledger_ok (open_ledger s).
Proof. intros [_ Hp]. unfold open_ledger. destruct (prompt_usage s); [by apply Hp|apply ledger_default_ok]. Qed.

Lemma mark_incomplete_ok l : ledger_ok l → ledger_ok (mark_incomplete l).
Proof. done. Qed.

Lemma step_bills cmd a r a' : reports_fit cmd → bills_ok (state a) →
  handle_command cmd a = Some (r, a') → bills_ok (state a').
Proof.
  intros Hf Hb. pose proof (open_ledger_ok _ Hb) as Ho. pose proof Hb as [Hs _].
  destruct cmd; cbn [handle_command];
    try (intros [= <- <-]; first [exact Hb|apply (same_bills_ok (state a)); [split; [done|(by left) || (by right)]|exact Hb]]);
    try (intros [E _]%quiet_Some; by eauto using same_bills_ok, push_user_bills, replace_bills);
    try (intros [= <- <-]; eapply same_bills_ok; [|exact Hb]; unfold ensure_conversation_integrity,
           repair_dangling_after_harness_halt; rewrite ensure_state; apply shifted_bills).
  1, 2: intros [E _]%quiet_Some; revert E; unfold push_message; case_if;
    [intros [= <-]|destruct (estimate_item_tokens i); cbn; [|done]; intros [= <-]]; done.
  - intros [E _]%quiet_Some. revert E. unfold record_token_usage.
    destruct (estimate_conversation_tokens _); cbn; [|done]. by intros [= <-].
  - intros [= <- <-]. destruct Hf as [Hu Hd]. cbn. split; cbn; [by apply record_main_loop_call_ok|].
    intros l [= <-]. by apply record_main_loop_call_ok.
  - intros [= <- <-]. cbn. unfold record_subagent_usage. case_if; [done|].
    split; case_if; cbn; try (by apply record_subagent_ok); [|by apply Hb].
    intros l [= <-]. by apply record_subagent_ok.
  - intros [= <- <-]. cbn. unfold mark_usage_incomplete. destruct prompt, session; (split; [done|]); cbn;
      try (by intros l [= <-]); by apply Hb.
  - case_if; [by intros [= <- <-]|]. unfold actor_repair_history. destruct (repair_history _) as [l rep].
    destruct dry_run; cbn; [by intros [= <- <-]|]. destruct (changed rep); cbn; [|by intros [= <- <-]].
    destruct (replace_conversation _ _ _) as [x|] eqn:E'; cbn; [|done]. intros [= <- <-]. cbn.
    apply replace_bills in E'. by eapply same_bills_ok in E'.
  - unfold replace_system_head. case_if; [by intros [= <- <-]|].
    destruct (replace_or_insert_system_head prompt _) as [c ch].
    destruct (replace_conversation c false a) as [x|] eqn:Er; cbn; [|done]. intros [= <- <-].
    apply replace_bills in Er. by eapply same_bills_ok in Er.
  - intros [E _]%quiet_Some. revert E. unfold restore_snapshot.
    match goal with |- context [mbind _ ?x] => destruct x end; cbn [mbind option_bind]; [|done].
    intros [= <-]. eapply same_bills_ok; [|exact Hb]. cbn.
    pose proof (shifted_bills (state a) (snap_conversation snap)) as [E _]. cbn in E. split; [exact E|by right].
  - intros [= <- <-]. cbn. unfold seal_harness_trace_turn. by case_if.
  - destruct (build_conversation_request _ _ _ _ _ _) as [q x] eqn:E. intros [= <- <-].
    apply build_bills in E. eapply same_bills_ok; [exact E|]. eapply same_bills_ok; [|exact Hb].
    unfold ensure_conversation_integrity. rewrite ensure_state. apply shifted_bills.
  - unfold truncate_to_prompt_index. case_if.
    + cbn. intros [= <- <-]. split; [done|]. by cbn.
    + destruct (estimate_conversation_tokens _); cbn; [|done]. intros [= <- <-]. split; [done|]. by cbn.
  - intros [= <- <-]. cbn. unfold seal_harness_trace_turn. by case_if.
  - destruct (estimate_messages_tokens _); cbn; [|done]. by intros [= <- <-].
Qed.
End bills.

(** ** Panics *)

(** The preview of a code-interpreter call is not cut inside a character. *)
Definition priceable (i : ConversationItem) : Prop := is_Some (estimate_item_tokens i).

Definition priceable_command (cmd : ChatStateCommand) : Prop :=
  Forall priceable (pushed cmd)
  ∧ match cmd with
    | ReplaceConversation l _ => Forall priceable l
    | RestoreSnapshot snap => Forall priceable (snap_conversation snap)
    | _ => True
    end.

Definition steady (a : Actor) : Prop := Forall priceable (conversation (state a)).

Section panics.
Context `{JsonSize}.

Lemma priceable_backend k (l : list ConversationItem) : (∀ i, i ∈ l → priceable i) → BackendToolCall k ∈ l → is_Some (text_summary k).
Proof. intros Hl Hk. apply Hl in Hk. unfold priceable in Hk. cbn in Hk. by apply fmap_is_Some in Hk. Qed.

(** Only calls of the backend can fail to have a price. *)
Lemma priceable_from (l l' : list ConversationItem) : (∀ k, BackendToolCall k ∈ l' → BackendToolCall k ∈ l) →
  Forall priceable l → Forall priceable l'.
Proof.
  rewrite !Forall_forall. intros Hin Hl i Hi. unfold priceable. destruct i; cbn; try by eexists.
  apply fmap_is_Some. eapply priceable_backend; eauto.
Qed.

Lemma priced l : Forall priceable l → is_Some (estimate_conversation_tokens l).
Proof.
  intros Hl. unfold estimate_conversation_tokens. apply fmap_is_Some. induction Hl as [|i l [n Hn] Hl [ns Hns]]; cbn; [by eexists|].
  rewrite Hn. cbn. rewrite Hns. by eexists.
Qed.

Lemma measured l : Forall priceable l → is_Some (conversation_content_bytes l).
Proof.
  intros Hl. unfold conversation_content_bytes. apply fmap_is_Some. induction Hl as [|i l Hi Hl [ns Hns]]; cbn; [by eexists|].
  assert (is_Some (item_content_bytes i)) as [n Hn].
  { unfold priceable in Hi. destruct i; cbn in *; try by eexists. by rewrite fmap_is_Some in *. }
  rewrite Hn. cbn. rewrite Hns. by eexists.
Qed.

Lemma others_backend k l l' : bfilter (λ i, negb (is_tool_result i)) l' = bfilter (λ i, negb (is_tool_result i)) l →
  BackendToolCall k ∈ l' → BackendToolCall k ∈ l.
Proof.
  intros E Hk. assert (BackendToolCall k ∈ bfilter (λ i, negb (is_tool_result i)) l') as Hin by by apply elem_of_bfilter.
  rewrite E in Hin. by apply elem_of_bfilter in Hin as [? _].
Qed.

Lemma others_results run : bfilter (λ i, negb (is_tool_result i)) (map ToolResult run) = [].
Proof. by induction run. Qed.

Lemma others_render run ss : heads_ok ss →
  bfilter (λ i, negb (is_tool_result i)) (map ToolResult run ++ render ss) = map fst ss.
Proof.
  intros Hss. unfold bfilter. rewrite List.filter_app. pose proof (others_results run) as E. unfold bfilter in E. rewrite E.
  by apply render_others.
Qed.

Lemma answered_others reason c :
  bfilter (λ i, negb (is_tool_result i)) (answered reason c) = bfilter (λ i, negb (is_tool_result i)) c.
Proof.
  destruct (view c) as (run & ss & -> & Hss & _). unfold answered. rewrite dedup_spec by done. cbn [fst].
  assert (heads_ok (map dedup_segment ss)) as Hh by (apply map_heads_ok; [apply dedup_segment_head|done]).
  rewrite repair_dangling_spec by done. cbn [fst].
  rewrite !others_render; [|done|apply map_heads_ok; [apply answer_head|done]]. rewrite !map_map.
  apply map_ext. intros s. by rewrite answer_head, dedup_segment_head.
Qed.

Lemma ensure_steady reason a : steady a → steady (ensure_conversation_integrity_with_reason reason a).
Proof.
  unfold steady. rewrite ensure_state, rebase_conversation. cbn. apply priceable_from. intros k.
  apply others_backend, answered_others.
Qed.

Lemma clear_back_backend k t l : ∀ n b, BackendToolCall k ∈ (clear_back t n b l).1 → BackendToolCall k ∈ l.
Proof.
  induction l as [|i l IH]; intros n b; cbn; [done|].
  destruct i;
    match goal with |- context [clear_back _ ?u ?s l] => pose proof (IH u s) as E; destruct (clear_back t u s l) end;
    cbn in *; repeat case_if; cbn; rewrite !elem_of_cons; intros [Hk|Hk]; auto; discriminate.
Qed.

Lemma prune_steady a : steady a → ∃ n a', prune_retained_conversation a = Some (n, a') ∧ steady a'.
Proof.
  intros Ha. unfold prune_retained_conversation. case_if; [eauto|]. case_if; [eauto|].
  destruct (measured _ Ha) as [n ->]. cbn [mbind option_bind].
  match goal with |- context [clear_back ?t 0 false ?l] =>
    pose proof (λ k, clear_back_backend k t l 0 false) as Hk; destruct (clear_back t 0 false l) as [l' m] end.
  cbn in Hk.
  assert (Forall priceable (rev l')) as Hl.
  { eapply priceable_from; [|exact Ha]. intros k Hin%list_elem_of_In. apply in_rev, list_elem_of_In, Hk, list_elem_of_In, in_rev in Hin.
    by apply list_elem_of_In. }
  case_if; [|eauto]. destruct (measured _ Hl) as [n' ->]. cbn. eauto.
Qed.

Lemma append_steady i a : priceable i → steady a → steady (append_item i a).
Proof. intros Hi Ha. unfold steady. cbn. apply Forall_app. split; [exact Ha|by constructor]. Qed.

Lemma push_user_steady i reason a : priceable i → steady a →
  ∃ a', push_user_message_with_repair_reason i reason a = Some a' ∧ steady a'.
Proof.
  intros Hi Ha. unfold push_user_message_with_repair_reason. pose proof Hi as [n Hn]. rewrite Hn. cbn [mbind option_bind].
  match goal with |- context [prune_retained_conversation ?x] => destruct (prune_steady x) as (m & a' & -> & Ha') end.
  { apply append_steady; [done|]. by apply (ensure_steady reason a). }
  cbn. eauto.
Qed.

Lemma push_steady i a : priceable i → steady a → ∃ a', push_message i a = Some a' ∧ steady a'.
Proof.
  intros Hi Ha. unfold push_message. case_if; [by eauto using append_steady|]. pose proof Hi as [n Hn]. rewrite Hn. cbn.
  eexists. split; [done|]. by apply append_steady.
Qed.

Lemma replace_steady l c a : Forall priceable l → ∃ a', replace_conversation l c a = Some a' ∧ steady a'.
Proof.
  intros Hl. unfold replace_conversation. destruct (priced _ Hl) as [n ->]. cbn [mbind option_bind]. eexists. split; [done|].
  unfold steady. cbn. rewrite rebase_conversation. by destruct c.
Qed.

Lemma repair_backend k l : BackendToolCall k ∈ (repair_history l).1 → BackendToolCall k ∈ l.
Proof. rewrite repair_history_settle. apply others_backend, settle_others. Qed.

Lemma inject_backend k l r : BackendToolCall k ∈ (inject_memory_reminder l r).1 → BackendToolCall k ∈ l.
Proof.
  unfold inject_memory_reminder. case_if; [done|].
  destruct l as [|[] l]; cbn; try (rewrite elem_of_cons; by intros [?|?]).
  destruct (upsert_memory_reminder_text _ _) as [s b]. cbn. rewrite !elem_of_cons. intros [?|?]; [done|by right].
Qed.

Lemma persist_reminder_steady r k a : steady a → steady (persist_reminder r k a).2.
Proof.
  intros Ha. unfold persist_reminder. destruct r as [r|]; [|done]. destruct k; [|done].
  cbn [state with_state set_field]. rewrite snapshot_slice_conversation.
  pose proof (λ k, inject_backend k (conversation (state a)) r) as Hk.
  destruct (inject_memory_reminder (conversation (state a)) r) as [c inj]. cbn in Hk.
  unfold steady. destruct inj; cbn; rewrite rebase_conversation; cbn; by eapply priceable_from.
Qed.

Lemma build_steady t r k c q a res a' : steady a → build_conversation_request t r k c q a = (res, a') → steady a'.
Proof.
  intros Ha. unfold build_conversation_request. pose proof (persist_reminder_steady r k a Ha) as Hp.
  destruct (persist_reminder r k a) as [r' x]. cbn in Hp.
  match goal with |- context [let '(l, e) := ?x in _] => destruct x as [c' e] end.
  intros [= <- <-]. by case_if.
Qed.

Lemma step_total cmd a : priceable_command cmd → steady a →
  ∃ r a', handle_command cmd a = Some (r, a') ∧ steady a'.
Proof.
  intros [Hp Hc] Ha. pose proof (priced _ Ha) as [total Ht].
  assert (∀ x : option Actor, (∃ a', x = Some a' ∧ steady a') → ∃ r a', quiet x = Some (r, a') ∧ steady a') as Hq.
  { intros x (a' & -> & ?). cbn. eauto. }
  assert (∀ i, pushed cmd = [i] → priceable i) as Hp1 by (intros i E; rewrite E in Hp; by inversion Hp).
  destruct cmd; cbn [handle_command]; try (by do 2 eexists);
    try (apply Hq, push_user_steady; [by apply Hp1|done]);
    try (apply Hq, push_steady; [by apply Hp1|done]);
    try (apply Hq; by eauto using replace_steady);
    try (do 2 eexists; split; [done|]; by apply ensure_steady).
  - apply Hq. unfold record_token_usage. rewrite Ht. cbn. eauto.
  - do 2 eexists. split; [done|]. unfold steady. cbn. unfold record_subagent_usage. case_if; [done|]. by case_if.
  - do 2 eexists. split; [done|]. unfold steady. cbn. unfold mark_usage_incomplete. by repeat case_if.
  - case_if; [eauto|]. unfold actor_repair_history.
    pose proof (λ k, repair_backend k (conversation (state a))) as Hk.
    destruct (repair_history (conversation (state a))) as [l rep]. cbn in Hk.
    assert (Forall priceable l) as Hl by by eapply priceable_from.
    destruct dry_run; cbn; [eauto|]. destruct (changed rep); cbn; [|eauto].
    destruct (replace_steady l false (with_state (λ s, s <| conversation := [] |>) a) Hl) as (a' & -> & Ha'). cbn. eauto.
  - unfold replace_system_head. case_if; [cbn; eauto|].
    assert (∀ k, BackendToolCall k ∈ (replace_or_insert_system_head prompt (conversation (state a))).1
                 → BackendToolCall k ∈ conversation (state a)) as Hk.
    { intros k. destruct (conversation (state a)) as [|[] l]; cbn; try (rewrite elem_of_cons; by intros [?|?]).
      case_if; cbn; [done|]. rewrite !elem_of_cons. intros [?|?]; [done|by right]. }
    destruct (replace_or_insert_system_head prompt _) as [c ch]. cbn in Hk.
    destruct (replace_steady c false a) as (a' & -> & Ha'); [by eapply priceable_from|]. cbn. eauto.
  - apply Hq. unfold restore_snapshot. cbn in Hc. destruct (priced _ Hc) as [n Hn]. rewrite Hn.
    case_if; cbn [mbind option_bind]; (eexists; split; [done|]); unfold steady; cbn; by rewrite rebase_conversation.
  - do 2 eexists. split; [done|]. unfold steady. cbn. by rewrite seal_conversation.
  - destruct (build_conversation_request _ _ _ _ _ _) as [q x] eqn:E. do 2 eexists. split; [done|].
    eapply build_steady; [|exact E]. by apply ensure_steady.
  - unfold truncate_to_prompt_index. case_if; [cbn; eauto|].
    match goal with |- context [estimate_conversation_tokens ?l] => assert (Forall priceable l) as Hl by by apply Forall_take end.
    destruct (priced _ Hl) as [n ->]. cbn. eauto.
  - do 2 eexists. split; [done|]. unfold steady. cbn. by rewrite seal_conversation.
  - assert (is_Some (estimate_messages_tokens (conversation (state a)))) as [n ->]; [|cbn; eauto].
    apply (priced (bfilter (λ i, negb (is_system i)) (conversation (state a)))).
    eapply priceable_from; [|exact Ha]. intros k. by intros [? _]%elem_of_bfilter.
Qed.

Lemma new_steady initial config : Forall priceable initial →
  ∃ s, ChatState_new initial config = Some s ∧ Forall priceable (conversation s).
Proof.
  intros Hi. unfold ChatState_new. fold (answered UserCancelled initial).
  assert (Forall priceable (answered UserCancelled initial)) as Hs.
  { eapply priceable_from; [|exact Hi]. intros k. apply others_backend, answered_others. }
  destruct (priced _ Hs) as [n ->]. cbn. eauto.
Qed.
End panics.

(** ** Theorems *)

(** C25: Whatever the actor is told, the ledger of the session and that of the
    open prompt add up: every total is the sum over the models, as far as a [u64]
    goes, no model is listed twice, and a cost is known in all exactly when it is
    known for some model. *)
Theorem bills_add_up `{JsonSize} initial config pruning cmds a rs a' :
  spawn_with_pruning initial config pruning = Some a → Forall reports_fit cmds →
  run (map WakeCommand cmds) a = Some (rs, a') → bills_ok (state a').
Proof.
  intros Hs Hf Hrun. eapply (run_invariant (λ a, bills_ok (state a)) reports_fit); [|exact Hf| |exact Hrun].
  - intros cmd x r x'. apply step_bills.
  - revert Hs. unfold spawn_with_pruning, ChatState_new.
    destruct (estimate_conversation_tokens _); cbn; [|done]. intros [= <-].
    split; [apply ledger_default_ok|]. done.
Qed.

