(* ===== verification/ChatDemo.v ===== *)
(** * The chat state actor: runs

    A session of a few commands for the witnesses, and the runs in which the
    file, the capture and the actor itself are lost. *)

From Stdlib Require Import Ascii String ZArith SpecFloat.
From S2P Require Import Prelude RustStr TrimLemmas AuditParse Conversation ConversationFacts HistoryPrep RequestBuild Usage ChatState ChatStateFacts ChatUsageFacts.
From stdpp Require Import options.

#[local] Open Scope nat_scope.

#[export] Instance demo_json : JsonSize :=
  {| items_json_bytes l := N.of_nat (200 * length l); part_json_bytes _ := 240%N |}.

Definition demo_config : SamplingConfig :=
  mkSampling "https://api.example.com" "grok" None None None Responses [] 128000 None None.

Definition demo_history : list ConversationItem := [System "You are a helpful assistant."; user "<user_info>"].

Definition prompt (index : N) (s : string) : ConversationItem := User (mkUser [Text s] None None (Some index)).

Definition calls : ConversationItem := assistant_tool_calls [call "c1" "read"; call "c2" "bash"].

(** A turn that is cancelled between two tool results, and one that compacts. *)
Definition demo_turn : list ChatStateCommand :=
  [PushUserMessage (prompt 0 "fix the bug"); PushAssistantResponse calls; PushToolResult (tool_result "c1" "fn main() {}");
   RecordModelCallUsage None (mkTokenUsage 100 20 120 0 50) (Some 900%N) (Some 7000%Z); RecordTokenUsage 4000;
   BuildConversationRequest [] (Some "<memory-context>be brief</memory-context>") true "conv" "req-1";
   PushUserMessage (prompt 1 "go on");
   ReplaceConversation [System "You are a helpful assistant."; user_meta "summary"] true;
   PushAssistantResponse (assistant "done"); ReplaceSystemHead "You are an assistant."; Flush].

Definition demo_actor : Actor := default (mkActor (mkChatState [] demo_config 0 [] 0 None None ∅ None credentials_default
  0 0 None None ledger_default None [] []) default_pruning [] []) (spawn demo_history demo_config).

Lemma file_mirrors_the_conversation_witness :
  spawn demo_history demo_config = Some demo_actor
  ∧ match run (map WakeCommand demo_turn) demo_actor with
    | Some (rs, a') =>
        (disk demo_history (persistence a') = conversation (state a')
         ∨ ∃ l, disk demo_history (persistence a') = demo_history ++ l ∧ conversation (state a') = repaired_start demo_history ++ l)
        ∧ conversation (state a') = [System "You are an assistant."; user_meta "summary"; assistant "done"]
    | None => False
    end.
Proof.
  assert (spawn demo_history demo_config = Some demo_actor) as Hm by (vm_compute; reflexivity). split; [exact Hm|].
  destruct (run (map WakeCommand demo_turn) demo_actor) as [[rs a']|] eqn:E; [|vm_compute in E; discriminate E].
  split; [exact (file_mirrors_the_conversation demo_history demo_config default_pruning demo_turn demo_actor rs a' Hm eq_refl E)|].
  assert (conversation (state a') = conversation (state (from_option snd demo_actor (run (map WakeCommand demo_turn) demo_actor))))
    as -> by (rewrite E; reflexivity).
  vm_compute. reflexivity.
Defined.

(** An actor that takes over after a crash between a call and its result: the
    made-up result is in its memory, and the file it was given has not got it,
    also after a message that is appended. *)
Definition crashed_history : list ConversationItem := demo_history ++ [calls; tool_result "c1" "fn"].
Example startup_repair_is_not_written :
  match spawn crashed_history demo_config with
  | Some a =>
      match run [WakeCommand (PushAssistantResponse (assistant "on"))] a with
      | Some (_, a') =>
          disk crashed_history (persistence a') = crashed_history ++ [assistant "on"]
          ∧ conversation (state a') = crashed_history
              ++ [tool_result "c2" "Tool execution was cancelled by the user (tool `bash` was not executed)."; assistant "on"]
      | None => False
      end
  | None => False
  end.
Proof. vm_compute. split; reflexivity. Qed.

Lemma captured_turn_is_what_was_pushed_witness :
  match run (map WakeCommand (BeginTurnCapture :: demo_turn ++ [TakeTurnMessages])) demo_actor with
  | Some (rs, a') =>
      last rs = Some (RTurn (Some (mkTurnCapture
        [prompt 0 "fix the bug"; calls; tool_result "c1" "fn main() {}"; prompt 1 "go on"; assistant "done"] true)))
  | None => False
  end.
Proof.
  destruct (run (map WakeCommand (BeginTurnCapture :: demo_turn ++ [TakeTurnMessages])) demo_actor) as [[rs a']|] eqn:E;
    [|vm_compute in E; discriminate E].
  exact (proj1 (captured_turn_is_what_was_pushed demo_turn demo_actor rs a' eq_refl E)).
Defined.

(** A conversation with a result that came twice and a call without one. *)
Definition cut_off : Actor :=
  with_state (λ s, s <| conversation := demo_history ++ [calls; tool_result "c1" "cancelled"; tool_result "c1" "fn"] |>) demo_actor.

Lemma request_answers_every_call_witness :
  match handle_command (BuildConversationRequest [] None false "conv" "req") cut_off with
  | Some (RRequest r, a') =>
      answered_once (request_items r) ∧ request_items r = conversation (state a')
      ∧ request_items r = demo_history ++ [calls; tool_result "c1" "fn";
          tool_result "c2" "Tool execution was cancelled by the user (tool `bash` was not executed)."]
  | _ => False
  end.
Proof.
  assert (calls_distinct (conversation (state cut_off))) as Hd.
  { intros a Ha. cbn in Ha. repeat (apply elem_of_cons in Ha as [Ha|Ha]; try discriminate Ha).
    - injection Ha as ->. cbn. apply (bool_decide_unpack _). vm_compute. exact I.
    - by apply elem_of_nil in Ha. }
  destruct (handle_command (BuildConversationRequest [] None false "conv" "req") cut_off) as [[r a']|] eqn:E;
    [|vm_compute in E; discriminate E].
  destruct r; try (vm_compute in E; discriminate E).
  destruct (request_answers_every_call [] None false "conv" "req" cut_off r a' Hd E) as [H1 H2].
  split; [exact H1|]. vm_compute in E. injection E as <- <-. split; [reflexivity|]. vm_compute. reflexivity.
Defined.

Lemma bills_add_up_witness :
  match spawn demo_history demo_config with
  | Some a =>
      match run (map WakeCommand (demo_turn ++ [RecordSubagentUsage [("mini", from_call (mkTokenUsage 5 1 6 0 0) None None)] true true])) a with
      | Some (rs, a') => bills_ok (state a') ∧ totals (session_usage (state a'))
          = mkTotals 105 21 50 0 2 900 (Some 7000%Z) 1 ∧ incomplete (session_usage (state a')) = true
      | None => False
      end
  | None => False
  end.
Proof.
  set (cmds := demo_turn ++ [RecordSubagentUsage [("mini", from_call (mkTokenUsage 5 1 6 0 0) None None)] true true]).
  assert (Forall reports_fit cmds) as Hf.
  { subst cmds. cbn [demo_turn app].
    repeat (first [exact I|apply Forall_nil_2|apply Forall_cons; split|split]); vm_compute; discriminate. }
  destruct (spawn demo_history demo_config) as [a|] eqn:Es; [|vm_compute in Es; discriminate Es].
  destruct (run (map WakeCommand cmds) a) as [[rs a']|] eqn:E.
  - split; [exact (bills_add_up demo_history demo_config default_pruning cmds a rs a' Es Hf E)|].
    vm_compute in Es. injection Es as <-. vm_compute in E. injection E as <- <-. split; vm_compute; reflexivity.
  - vm_compute in Es. injection Es as <-. vm_compute in E. discriminate E.
Defined.


(** ** What is lost *)

(** A prompt cancelled before anything happened is taken back by restoring a
    snapshot without it. The file still has it. *)
Definition cancelled_prompt : list ChatStateCommand :=
  [PushUserMessage (prompt 0 "oops"); RestoreSnapshot (mkSnapshot demo_history demo_config 0 0 0 ∅ [] None None None credentials_default)].

Example cancelled_prompt_stays_on_disk :
  match run (map WakeCommand cancelled_prompt) demo_actor with
  | Some (_, a) => conversation (state a) = demo_history
                   ∧ disk demo_history (persistence a) = demo_history ++ [prompt 0 "oops"]
  | None => False
  end.
Proof. vm_compute. split; reflexivity. Qed.

(** A repair after a turn and before its capture is taken: the conversation has
    been taken out of the state when the capture is about to keep its tail. *)
Definition repaired_too_early : list ChatStateCommand :=
  [BeginTurnCapture; PushUserMessage (prompt 0 "hi"); PushToolResult (tool_result "c9" "orphan");
   RepairHistory false (Some false); TakeTurnMessages].

Example repair_empties_the_capture :
  match run (map WakeCommand repaired_too_early) demo_actor with
  | Some (rs, a) => last rs = Some (RTurn (Some (mkTurnCapture [] false)))
                    ∧ conversation (state a) = demo_history ++ [prompt 0 "hi"]
  | None => False
  end.
Proof. vm_compute. split; reflexivity. Qed.

(** A code-interpreter call whose hundredth byte is inside a character: a session
    that has one cannot be loaded again. *)
Definition split_code : string := String.concat "" (repeat "a" 99) +:+ byte_str [195; 169] +:+ "b".

Example code_interpreter_call_cannot_be_loaded :
  ChatState_new (demo_history ++ [BackendToolCall (CodeInterpreter "id" (Some split_code))]) demo_config = None.
Proof. vm_compute. reflexivity. Qed.

(** The text of the first message of the user: with an image at its front, the
    text of a later one is returned. *)
Example first_user_text_scans_on :
  first_user_text [User (mkUser [Image "data:"; Text "what is this?"] None None None); user "thanks"] = Some "thanks".
Proof. vm_compute. reflexivity. Qed.

(** A call in a trailing message is not dropped when one of its results is there. *)
Example partly_answered_call_is_kept :
  truncate_trailing_incomplete_tool_call [calls; tool_result "c1" "fn"] = [calls; tool_result "c1" "fn"]
  ∧ has_dangling_tool_calls [calls; tool_result "c1" "fn"] = true.
Proof. vm_compute. split; reflexivity. Qed.

(** Replacing a reminder drops what stood after it in the system message. *)
Example reminder_takes_the_rest_along :
  upsert_memory_reminder_text ("rules" +:+ nl +:+ nl +:+ "<memory-context>a</memory-context>" +:+ nl +:+ "more rules")
    "<memory-context>b</memory-context>" = ("rules" +:+ nl +:+ nl +:+ "<memory-context>b</memory-context>", true).
Proof. vm_compute. reflexivity. Qed.

(** A text with a small budget gets longer than the budget: the marker alone is. *)
Example marker_exceeds_a_small_budget :
  match truncate_text_to_bytes (String.concat "" (repeat "a" 100)) 8 with
  | Some s => Nat.leb 50 (String.length s) = true
  | None => False
  end.
Proof. vm_compute. reflexivity. Qed.
